(* ===== verification/_CoqProject ===== *)
-Q . S2P
Prelude.v
Memory.v
Dllist.v
HashFunc.v
OrderedMap.v
ZendHash.v
ZendHashRep.v
ZendHashLink.v
ZendHashDelete.v
ZendHashRehash.v
ZendHashInsert.v
ZendHashAppend.v
ZendHashFind.v
ZendHashDestroy.v
ZendHashApply.v
ZendHashIter.v
ZendHashCopy.v
ZendHashDemo.v
ZendHashSpec.v
Symtable.v
ZendQsort.v
ZendHashOrder.v
ZendHashSort.v
ZendTsHash.v
ZendTsHashSpec.v
ZendHashSplice.v
ZendHashUpdateKey.v
ZendLlist.v
ZendLlistSort.v
ZendPtrStack.v
ZendStack.v
Calendar.v
Jewish.v
JewishConv.v
CalendarExt.v
Checksums.v
Base64.v
ZendGC.v
ZendGCGraph.v
ZendGCSweep.v
ZendGCPasses.v
ZendGCScan.v
ZendGCRoots.v
ZendGCCollect.v
ZendGCSpec.v
ZendObjectsStore.v
ZendObjectsStoreSpec.v
ZendVariables.v
ZendGCCycles.v
ZendGCBuffer.v
ZendGCFree.v
ZendGCCyclesSpec.v
HeapProp.v
ZendAlloc.v
ZendAllocOps.v
ZendAllocBits.v
ZendAllocRing.v
ZendAllocTree.v
ZendAllocLarge.v
ZendAllocFree.v
ZendAllocSearch.v
ZendAllocLayout.v
ZendAllocHole.v
ZendAllocSegment.v
ZendAllocHeap.v
ZendAllocAlloc.v
ZendAllocInt.v
ZendAllocStart.v
ZendAllocGather.v
ZendAllocShutdown.v
ZendAllocResize.v
ZendAllocRealloc.v
ZendAllocClient.v
ZendAllocLife.v
ZendAllocStore.v
ZendAllocSpec.v
