(* ===== verification/Prelude.v ===== *)
(** * A verification of the containers and codecs of the jonj engine

    jonj is a PHP 5.6 engine in C: a compiler and virtual machine (src/Zend), a
    runtime layer (src/main, src/sapi) and extensions (src/ext).  Everything in it
    rests on a few containers.  The hash table is the representation of every array,
    symbol table, class table and property table; the linked list, the stacks and
    the sort are used by the compiler, the runtime and the extensions alike.  This
    development models these containers at the level of their pointers, and besides
    them extensions whose correctness is arithmetic: the calendars, the checksums
    and base64.

    ** Files

    Foundations.
    - [Prelude] (this file): machine integers, array access, result codes, lemmas on
      lists and bits.
    - [Memory]: the command monad (state and fault), the store of nodes and data
      blocks, the allocator interface ([Allocator]), weakest preconditions ([wp]) and
      the tactic [wp_step].
    - [Dllist]: intrusive doubly linked lists over any pair of link fields ([links],
      [LinksOk], [LinksApart]).

    The hash table, src/Zend/zend_hash.c and zend_hash.h.
    - [HashFunc]: [zend_inline_hash_func], the unrolled loop and the switch for the
      rest, equal to the plain recurrence of the DJB hash.
    - [OrderedMap]: the abstract value of a table, a list of key/value pairs with
      distinct keys in iteration order, with lookup, insertion and deletion.
    - [ZendHash]: the structs [Bucket] and [HashTable], the macros, and insertion,
      deletion, lookup, resize, rehash and reindex, statement by statement.
    - [ZendHashRep]: the representation invariant [ht_rep], the abstraction
      [contents] and the frame [same_rest]; [ZendHashLink], [ZendHashDelete],
      [ZendHashRehash], [ZendHashInsert], [ZendHashAppend], [ZendHashFind]: the rules
      of the building blocks.
    - [ZendHashDestroy], [ZendHashApply], [ZendHashIter], [ZendHashCopy],
      [ZendHashSort], [ZendHashSplice], [ZendHashUpdateKey]: the models of the
      destructors, the apply family with its recursion protection, positions and
      iteration, copy and merge, sort, compare and minmax, splice, and the change of
      the current key, each with its rules; [ZendHashOrder] holds the rules of
      reindexing.
    - [ZendHashDemo]: a concrete table built by running the model, the input of the
      instances; [ZendHashSpec]: the theorems on the operations.
    - [Symtable]: [ZEND_HANDLE_NUMERIC_EX] and the zend_symtable functions.

    Other containers.
    - [ZendTsHash]: src/Zend/zend_ts_hash.c, the table shared by threads and its
      readers-writer protocol; [ZendTsHashSpec]: the interleavings of its threads.
    - [ZendQsort]: src/Zend/zend_qsort.c, and the contract [SortFunction] that
      [ZendHashSort] and [ZendLlistSort] are proved against.
    - [ZendLlist], [ZendLlistSort]: src/Zend/zend_llist.c.
    - [ZendPtrStack]: src/Zend/zend_ptr_stack.c; [ZendStack]: src/Zend/zend_stack.c.
    - [ZendGC]: src/Zend/zend_gc.c and zend_gc.h, the root buffer and the passes of the
      cycle collector; [ZendGCGraph]: zvals and objects as the nodes of a graph;
      [ZendGCSweep]: depth-first walks in general; [ZendGCPasses], [ZendGCScan]: the walks
      of the passes; [ZendGCRoots], [ZendGCCollect]: the loops over the root buffer;
      [ZendGCSpec]: what a collection finds.
    - [ZendObjectsStore]: src/Zend/zend_objects_API.c, the object store with its
      free list, reference counts and destruction phases; [ZendObjectsStoreSpec]: its
      invariant and its operations.  [ZendVariables]: the destruction of values
      (zend_variables.c, zend_objects.c, [i_zval_ptr_dtor]).
    - [ZendGCCycles]: [gc_collect_cycles], the search of [ZendGC] followed by the release of
      what it has found; [ZendGCBuffer]: the root buffer outside of a collection;
      [ZendGCFree]: the release; [ZendGCCyclesSpec]: what a whole collection does.

    The memory manager, src/Zend/zend_alloc.c.
    - [HeapProp]: assertions about raw memory, with the separating conjunction, as a
      logic that Iris's proof mode works in; commands on memory ([hcmd]) and their
      weakest preconditions ([hwp]), which hold in every larger memory.
    - [ZendAlloc]: the layout of blocks, segments and the heap structure, free lists,
      search trees, the list of rest blocks and the search for a large block;
      [ZendAllocOps]: segments, the cache, [_zend_mm_alloc_int], [_zend_mm_free_int],
      [_zend_mm_realloc_int], start-up, the limit and the functions around them.
    - [ZendAllocBits], [ZendAllocRing], [ZendAllocTree], [ZendAllocLarge],
      [ZendAllocFree], [ZendAllocSearch]: bits of sizes, rings, trees indexed by the
      bits of a size, and together the free blocks of a heap ([fs]).
    - [ZendAllocLayout]: segments tiled by blocks; [ZendAllocHole]: a block taken out of
      them; [ZendAllocSegment]: segments and the contracts [Storage] and [Enlarges] of
      what provides them; [ZendAllocHeap]: a heap in order ([mm]).
    - [ZendAllocAlloc], [ZendAllocInt], [ZendAllocStart], [ZendAllocResize],
      [ZendAllocRealloc]: the rules of the operations; [ZendAllocGather],
      [ZendAllocShutdown]: a heap taken apart into its memory, and shutdown;
      [ZendAllocClient]: callers and the abstract store they see; [ZendAllocLife]: the
      requests of a process, one after the other; [ZendAllocStore]: a storage that
      keeps the contract, on which the model runs; [ZendAllocSpec]: the theorems.

    Extensions.
    - [Calendar] (gregor.c, julian.c, french.c, dow.c), [Jewish] and [JewishConv]
      (jewish.c), [CalendarExt] (calendar.c, easter.c, cal_unix.c) of
      src/ext/calendar.
    - [Checksums]: hash_adler32.c, hash_fnv.c, hash_joaat.c, hash_crc32.c of
      src/ext/hash.
    - [Base64]: src/ext/standard/base64.c.

    ** How the code is modelled

    Pointers are addresses into a store; a read or write through a dangling or NULL
    pointer, a read outside an array and a loop that outruns its bound are faults of
    the monad (or [None]), so that "[wp c Q s]" says that [c] runs without undefined
    behaviour, ends, and leaves [Q].  Fresh memory holds arbitrary contents (the
    parameter [uninit]), addresses may be reused after a free, and the allocator is
    any instance of [Allocator]; it does not return on exhaustion, as emalloc does
    not.  Structs that are passed by pointer ([HashTable], [zend_llist]) are passed
    and returned explicitly.  Callbacks are functions: a destructor is observed
    through the trace of the values it is called on, a copy constructor or an apply
    function rewrites the value it is given; they do not re-enter the container.
    The memory manager works on untyped memory instead: a finite map from the
    addresses of scalar objects to their values, where a load or a store outside of
    it is a fault, and so is a check of the code that finds the heap corrupted; user
    data is made of words.  Where the storage puts segments, when it fails and what
    the report of an error does with the heap are parameters with a contract.
    Integers are [Z] with the wrap-around of their width written out ([u32], [s64],
    ...; LP64).  Debug macros, signal blocking and the choice between the two
    allocators have no effect in the modelled build.

    ** What is proved

    - Every operation of the hash table refines the operation on ordered maps, keeps
      [ht_rep] (order list, chains, table geometry, key uniqueness, ownership of
      data, next free index, internal pointer), calls the destructor on exactly the
      values that leave and changes no other memory.
    - Symbol table keys are integers exactly for canonical decimal numerals.
    - The sort ends, stays inside its array and its stack, permutes, and sorts under
      a total preorder; sorting tables and lists follows from its contract.
    - The linked list and the stacks refine sequences.
    - The object store keeps the free list and the live objects apart, whatever
      destructors do and whether or not they bail out, and calls a destructor once.
    - The memory manager gives out memory that no one else has, keeps the data of
      blocks through resizing, and stays in order whatever callers do with the blocks
      they have; when it gives up, it is for the limit, the storage or a size that
      does not fit; every call ends.  Shutdown takes back all memory, and no request
      can tell what those before it have left behind.
    - The cycle collector finds exactly the candidates that nothing outside holds,
      and restores the counts and colours of everything else; the release frees
      exactly that, takes back exactly the references it held and leaves a heap that
      can be collected again.
    - The shared table: no writer runs beside a reader or another writer, whatever
      the interleaving, and no state is stuck.
    - The calendars agree with the rules of their calendar day by day and convert
      back; Easter is a Sunday; the lengths of months are right.
    - Adler-32 does not overflow, CRC-32 is the polynomial division, and the
      streaming checksums do not depend on how the input is cut.
    - base64 decodes what it encodes and is safe on every input.

    ** Bounds and fuel

    Loops over a container have the number of its elements plus one as fuel, which
    the invariant shows to be enough; the quicksort has twice the length plus two,
    enough because every turn consumes a segment or an element; the loops of the
    Jewish calendar have a constant number of turns, enough for every date of its
    range.  The recursion of a collector pass has the number of zvals plus one, as each
    nested call is for a zval not visited before; the loops over the list of
    garbage and the nesting of destructions have the same bound, as each destruction
    is of another zval.  A theorem about a loop includes that the fuel suffices.  Tables hold
    fewer than 2^32 elements, as their counter does.

    ** Not modelled

    Of the memory manager: the environment variables it reads, heaps that live in
    their own storage, the copies of strings, and what only a debugging build has; the containers are
    not proved on top of it but on the allocator interface.  Further the compiler, the
    scanner and parser (generated), the virtual machine (generated from
    zend_vm_def.h and dependent on the whole object model), the operators on zvals,
    the runtime and I/O layers, and the bundled libraries.  The destructors of objects
    are parameters: the theorem on a whole collection is for destructors that do
    nothing, so that the collections a destructor can start inside a collection are
    modelled ([gc_collect_cycles] with a bound on their nesting) but not covered by it.
    Next in the plan: uuencode and URL encoding,
    integer and numeric string conversions of zend_operators.c. *)
From stdpp Require Import base list gmap numbers.
From Stdlib Require Import ZArith Lia.

#[global] Open Scope Z_scope.

(** ** Machine integers

    The engine is compiled for an LP64 target: [int] and [uint] have 32 bits,
    [long], [ulong] and pointers 64.  A w-bit unsigned value is a [Z] in
    [0, 2^w); a signed one is a [Z] in [-2^(w-1), 2^(w-1)). *)

Definition wrap_u (w : Z) (x : Z) : Z := x mod 2 ^ w.

Definition wrap_s (w : Z) (x : Z) : Z :=
  (x + 2 ^ (w - 1)) mod 2 ^ w - 2 ^ (w - 1).

Abbreviation u8 := (wrap_u 8).
Abbreviation u32 := (wrap_u 32).
Abbreviation u64 := (wrap_u 64).
Abbreviation s8 := (wrap_s 8).
Abbreviation s32 := (wrap_s 32).
Abbreviation s64 := (wrap_s 64).

Definition LONG_MAX : Z := 2 ^ 63 - 1.
Definition LONG_MIN : Z := - 2 ^ 63.
Definition sizeof_ptr : Z := 8.

(** [a[i]]: [None] out of range *)
Definition aref {A} (a : list A) (i : Z) : option A :=
  if 0 <=? i then a !! Z.to_nat i else None.

(** The result codes of the engine's C functions. *)
Inductive zresult := SUCCESS | FAILURE.

#[global] Instance zresult_eq_dec : EqDecision zresult.
Proof. solve_decision. Defined.

Lemma wrap_u_range w x : 0 <= w -> 0 <= wrap_u w x < 2 ^ w.
Proof. intros. unfold wrap_u. apply Z.mod_pos_bound, Z.pow_pos_nonneg; lia. Qed.

Lemma wrap_u_small w x : 0 <= x < 2 ^ w -> wrap_u w x = x.
Proof. intros. unfold wrap_u. by apply Z.mod_small. Qed.

Lemma wrap_s_range w x : 0 < w -> - 2 ^ (w - 1) <= wrap_s w x < 2 ^ (w - 1).
Proof.
  intros. unfold wrap_s.
  assert (2 ^ w = 2 * 2 ^ (w - 1)) as ->.
  { rewrite <- Z.pow_succ_r by lia. f_equal. lia. }
  pose proof (Z.mod_pos_bound (x + 2 ^ (w - 1)) (2 * 2 ^ (w - 1))) as HB.
  assert (0 < 2 ^ (w - 1)) by (apply Z.pow_pos_nonneg; lia). lia.
Qed.

Lemma wrap_s_small w x : 0 < w -> - 2 ^ (w - 1) <= x < 2 ^ (w - 1) -> wrap_s w x = x.
Proof.
  intros. unfold wrap_s.
  assert (2 ^ w = 2 * 2 ^ (w - 1)) as ->.
  { rewrite <- Z.pow_succ_r by lia. f_equal. lia. }
  rewrite Z.mod_small by lia. lia.
Qed.

(** A bitwise or of disjoint parts is a sum. *)
Lemma land_disjoint k a b : 0 <= k -> 0 <= b < 2 ^ k -> Z.land (a * 2 ^ k) b = 0.
Proof.
  intros Hk Hb. apply Z.bits_inj'. intros i Hi. rewrite Z.land_spec, Z.bits_0.
  destruct (Z.ltb_spec i k); [by rewrite Z.mul_pow2_bits_low by lia|].
  rewrite <- (Z.mod_small b (2 ^ k)) by lia. rewrite Z.mod_pow2_bits_high by lia. apply andb_false_r.
Qed.

Lemma lor_add k a b : 0 <= k -> 0 <= b < 2 ^ k -> Z.lor (a * 2 ^ k) b = a * 2 ^ k + b.
Proof.
  intros Hk Hb. pose proof (land_disjoint k a b Hk Hb) as H.
  rewrite <- Z.lxor_lor by done. by rewrite <- Z.add_nocarry_lxor.
Qed.

Lemma elem_of_snoc {A} (l : list A) x y : x ∈ l ++ [y] <-> x ∈ l \/ x = y.
Proof. by rewrite elem_of_app, list_elem_of_singleton. Qed.

Lemma omap_cons {A B} (f : A -> option B) x l :
  omap f (x :: l) = match f x with Some y => y :: omap f l | None => omap f l end.
Proof. done. Qed.

Lemma omap_ext_in {A B} (f g : A -> option B) (l : list A) :
  (forall x, x ∈ l -> f x = g x) -> omap f l = omap g l.
Proof.
  induction l as [|x l IH]; intros Hfg; [done|].
  rewrite !omap_cons, Hfg, IH by set_solver. done.
Qed.

Create HintDb zend discriminated.

#[export] Hint Resolve wrap_u_range : zend.
