(* ===== verification/Memory.v ===== *)
(** * Memory: the store the C code runs on and its command monad

    A command of type [cmd S A] maps a state to a result and a new state, or to
    [None] when the C code would have undefined behaviour: a dereference of
    NULL or of freed memory, an index out of range, or a loop that outruns the
    bound its caller gives it.  [wp c Q s] is total correctness: [c] runs from
    [s] without fault and ends in a result and a state that satisfy [Q]. *)
From S2P Require Import Prelude.
From stdpp Require Import base list gmap.

(** ** The command monad *)

Definition cmd (S A : Type) : Type := S -> option (A * S).

#[global] Instance cmd_ret S : MRet (cmd S) := fun A a s => Some (a, s).

#[global] Instance cmd_bind S : MBind (cmd S) := fun A B f c s =>
  match c s with
  | Some (a, s') => f a s'
  | None => None
  end.

Definition cfault {S A} : cmd S A := fun _ => None.

Definition wp {S A} (c : cmd S A) (Q : A -> S -> Prop) (s : S) : Prop :=
  exists a s', c s = Some (a, s') /\ Q a s'.

Lemma wp_ret {S A} (a : A) (Q : A -> S -> Prop) s : Q a s -> wp (mret a) Q s.
Proof. intros. by exists a, s. Qed.

Lemma wp_bind {S A B} (c : cmd S A) (f : A -> cmd S B) (Q : B -> S -> Prop) s :
  wp c (fun a s' => wp (f a) Q s') s -> wp (c ≫= f) Q s.
Proof.
  intros (a & s' & Hc & b & s'' & Hf & HQ).
  exists b, s''. split; [|done]. unfold mbind, cmd_bind. by rewrite Hc.
Qed.

Lemma wp_mono {S A} (c : cmd S A) (Q R : A -> S -> Prop) s :
  wp c Q s -> (forall a s', Q a s' -> R a s') -> wp c R s.
Proof. intros (a & s' & ? & ?) HQR. exists a, s'. eauto. Qed.

Lemma wp_run {S A} (c : cmd S A) (Q : A -> S -> Prop) s :
  wp c Q s <-> exists a s', c s = Some (a, s') /\ Q a s'.
Proof. done. Qed.

Lemma wp_eq {S A} (c d : cmd S A) (Q : A -> S -> Prop) s :
  c s = d s -> wp d Q s -> wp c Q s.
Proof. intros He (a & s' & Hd & HQ). exists a, s'. by rewrite He. Qed.

Lemma bind_assoc {S A B C} (c : cmd S A) (f : A -> cmd S B) (g : B -> cmd S C) s :
  ((x ← c; f x) ≫= g) s = (x ← c; (f x ≫= g)) s.
Proof. unfold mbind, cmd_bind. by destruct (c s) as [[a s']|]. Qed.

Lemma bind_ext {S A B} (c : cmd S A) (f g : A -> cmd S B) s :
  (forall a s', f a s' = g a s') -> (c ≫= f) s = (c ≫= g) s.
Proof. intros H. unfold mbind, cmd_bind. destruct (c s) as [[a s']|]; [apply H|done]. Qed.

Lemma bind_ext_l {S A B} (c d : cmd S A) (f : A -> cmd S B) s :
  c s = d s -> (c ≫= f) s = (d ≫= f) s.
Proof. intros H. unfold mbind, cmd_bind. by rewrite H. Qed.

(** ** Addresses and the allocator *)

Abbreviation ptr := positive.

(** What the containers need of the memory manager: a new block has an address
    that no live block has.  Addresses may be reused after a free. *)
Class Allocator := {
  new_addr : gset ptr -> ptr;
  new_addr_fresh : forall X, new_addr X ∉ X
}.

(** ** The store

    [nodes] holds the list nodes (buckets or list elements), [blocks] the
    separately allocated copies of element data, and [dtor_trace] the data
    values the container's destructor callback was called on, oldest first. *)
Record store (N V : Type) := Store {
  nodes : gmap ptr N;
  blocks : gmap ptr V;
  dtor_trace : list V
}.
Arguments Store {N V} _ _ _.
Arguments nodes {N V} _.
Arguments blocks {N V} _.
Arguments dtor_trace {N V} _.

Section commands.
Context {N V : Type} {AL : Allocator}.
Implicit Types (s : store N V) (p : ptr).

Definition load (p : ptr) : cmd (store N V) N := fun s =>
  match nodes s !! p with
  | Some n => Some (n, s)
  | None => None
  end.

Definition set_nodes (m : gmap ptr N) (s : store N V) : store N V :=
  Store m (blocks s) (dtor_trace s).

Definition set_blocks (m : gmap ptr V) (s : store N V) : store N V :=
  Store (nodes s) m (dtor_trace s).

(** [p->field = v] *)
Definition update (p : ptr) (f : N -> N) : cmd (store N V) unit := fun s =>
  match nodes s !! p with
  | Some _ => Some (tt, set_nodes (alter f p (nodes s)) s)
  | None => None
  end.

(** [if (p) { p->field = v; }] *)
Definition update_opt (o : option ptr) (f : N -> N) : cmd (store N V) unit :=
  match o with
  | Some p => update p f
  | None => mret tt
  end.

Definition alter_opt {A} (f : A -> A) (o : option ptr) (m : gmap ptr A) : gmap ptr A :=
  match o with
  | Some p => alter f p m
  | None => m
  end.

Definition addrs (s : store N V) : gset ptr := dom (nodes s) ∪ dom (blocks s).

Definition alloc_node (n : N) : cmd (store N V) ptr := fun s =>
  let p := new_addr (addrs s) in
  Some (p, set_nodes (<[p := n]> (nodes s)) s).

Definition free_node (p : ptr) : cmd (store N V) unit := fun s =>
  match nodes s !! p with
  | Some _ => Some (tt, set_nodes (delete p (nodes s)) s)
  | None => None
  end.

Definition load_block (p : ptr) : cmd (store N V) V := fun s =>
  match blocks s !! p with
  | Some v => Some (v, s)
  | None => None
  end.

Definition store_block (p : ptr) (v : V) : cmd (store N V) unit := fun s =>
  match blocks s !! p with
  | Some _ => Some (tt, set_blocks (<[p := v]> (blocks s)) s)
  | None => None
  end.

Definition alloc_block (v : V) : cmd (store N V) ptr := fun s =>
  let p := new_addr (addrs s) in
  Some (p, set_blocks (<[p := v]> (blocks s)) s).

Definition free_block (p : ptr) : cmd (store N V) unit := fun s =>
  match blocks s !! p with
  | Some _ => Some (tt, set_blocks (delete p (blocks s)) s)
  | None => None
  end.

(** [pDestructor(pData)]: the callback is called on the value [v]. *)
Definition call_dtor (v : V) : cmd (store N V) unit := fun s =>
  Some (tt, Store (nodes s) (blocks s) (dtor_trace s ++ [v])).

(** ** Rules *)

Lemma wp_load p n Q s : nodes s !! p = Some n -> Q n s -> wp (load p) Q s.
Proof. intros Hp ?. exists n, s. unfold load. by rewrite Hp. Qed.

Lemma wp_update p n f Q s :
  nodes s !! p = Some n -> Q tt (set_nodes (alter f p (nodes s)) s) -> wp (update p f) Q s.
Proof. intros Hp ?. eexists tt, _. unfold update. by rewrite Hp. Qed.

Lemma wp_update_opt o f Q s :
  (forall p, o = Some p -> is_Some (nodes s !! p)) ->
  Q tt (set_nodes (alter_opt f o (nodes s)) s) -> wp (update_opt o f) Q s.
Proof.
  intros Hp HQ. destruct o as [p|]; simpl in *.
  - destruct (Hp p eq_refl). by eapply wp_update.
  - apply wp_ret. by destruct s.
Qed.

Lemma lookup_alter_opt {A} (f : A -> A) o m p :
  alter_opt f o m !! p = if decide (o = Some p) then f <$> m !! p else m !! p.
Proof.
  destruct o as [q|]; simpl; [|done].
  rewrite lookup_alter. repeat case_decide; naive_solver.
Qed.

Lemma lookup_alter_opt_ne {A} (f : A -> A) o m p :
  o <> Some p -> alter_opt f o m !! p = m !! p.
Proof. intros. rewrite lookup_alter_opt. by rewrite decide_False. Qed.

Lemma alter_insert_Some {A} (f : A -> A) (m : gmap ptr A) p x :
  m !! p = Some x -> alter f p m = <[p := f x]> m.
Proof.
  intros Hp. apply map_eq. intros q. rewrite lookup_alter, lookup_insert.
  case_decide; [subst; by rewrite Hp|done].
Qed.

Lemma dom_alter_opt {A} (f : A -> A) o (m : gmap ptr A) : dom (alter_opt f o m) = dom m.
Proof. destruct o; simpl; [apply dom_alter_L|done]. Qed.

Lemma wp_alloc_node n Q s :
  (forall p, nodes s !! p = None -> blocks s !! p = None ->
    Q p (set_nodes (<[p := n]> (nodes s)) s)) ->
  wp (alloc_node n) Q s.
Proof.
  intros HQ. eexists _, _. split; [reflexivity|].
  pose proof (new_addr_fresh (addrs s)) as Hf. unfold addrs in *.
  apply HQ; apply not_elem_of_dom; set_solver.
Qed.

Lemma wp_free_node p n Q s :
  nodes s !! p = Some n -> Q tt (set_nodes (delete p (nodes s)) s) -> wp (free_node p) Q s.
Proof. intros Hp ?. eexists tt, _. unfold free_node. by rewrite Hp. Qed.

Lemma wp_load_block p v Q s : blocks s !! p = Some v -> Q v s -> wp (load_block p) Q s.
Proof. intros Hp ?. exists v, s. unfold load_block. by rewrite Hp. Qed.

Lemma wp_store_block p v v' Q s :
  blocks s !! p = Some v' -> Q tt (set_blocks (<[p := v]> (blocks s)) s) ->
  wp (store_block p v) Q s.
Proof. intros Hp ?. eexists tt, _. unfold store_block. by rewrite Hp. Qed.

Lemma wp_alloc_block v Q s :
  (forall p, nodes s !! p = None -> blocks s !! p = None ->
    Q p (set_blocks (<[p := v]> (blocks s)) s)) ->
  wp (alloc_block v) Q s.
Proof.
  intros HQ. eexists _, _. split; [reflexivity|].
  pose proof (new_addr_fresh (addrs s)) as Hf. unfold addrs in *.
  apply HQ; apply not_elem_of_dom; set_solver.
Qed.

Lemma wp_free_block p v Q s :
  blocks s !! p = Some v -> Q tt (set_blocks (delete p (blocks s)) s) -> wp (free_block p) Q s.
Proof. intros Hp ?. eexists tt, _. unfold free_block. by rewrite Hp. Qed.

Lemma wp_call_dtor v Q s :
  Q tt (Store (nodes s) (blocks s) (dtor_trace s ++ [v])) -> wp (call_dtor v) Q s.
Proof. intros ?. by eexists tt, _. Qed.

End commands.

Arguments cmd_ret : simpl never.
Arguments cmd_bind : simpl never.

(** An allocator that exists: the smallest choice of stdpp's [fresh]. *)
Definition bump_new_addr (X : gset ptr) : ptr :=
  Pos.succ (foldr Pos.max 1%positive (elements X)).

Lemma foldr_max_ge (l : list positive) x : x ∈ l -> (x <= foldr Pos.max 1 l)%positive.
Proof. induction 1; simpl; lia. Qed.

Lemma bump_new_addr_fresh X : bump_new_addr X ∉ X.
Proof.
  intros Hin. apply elem_of_elements in Hin. unfold bump_new_addr in Hin.
  apply foldr_max_ge in Hin. lia.
Qed.

Definition bump_allocator : Allocator :=
  {| new_addr := bump_new_addr; new_addr_fresh := bump_new_addr_fresh |}.

(** One step of symbolic execution. *)
Ltac wp_step :=
  lazymatch goal with
  | |- wp (mbind _ _) _ _ => apply wp_bind
  | |- wp (mret _) _ _ => apply wp_ret
  | |- wp (load _) _ _ => eapply wp_load; [eassumption|]
  | |- wp (call_dtor _) _ _ => apply wp_call_dtor
  end; cbn beta.

Ltac wp_steps := repeat wp_step.
