(* ===== verification/Dllist.v ===== *)
(** * Dllist: intrusive doubly linked lists

    The engine threads its containers through link fields of the nodes
    themselves: a hash bucket is on two such lists at once (the global order
    list and the chain of its slot), a [zend_llist_element] on one.  [links]
    names the pair of fields of one list; [dll k m L] says that the nodes of
    [L], in this order, are linked through the fields [k] in the memory [m]. *)
From S2P Require Import Prelude Memory.
From stdpp Require Import base list gmap.

Record links (N : Type) := Links {
  lnext : N -> option ptr;
  lprev : N -> option ptr;
  set_lnext : option ptr -> N -> N;
  set_lprev : option ptr -> N -> N
}.
Arguments Links {N} _ _ _ _.
Arguments lnext {N} _ _.
Arguments lprev {N} _ _.
Arguments set_lnext {N} _ _ _.
Arguments set_lprev {N} _ _ _.

Class LinksOk {N} (k : links N) : Prop := {
  lnext_set_lnext : forall v n, lnext k (set_lnext k v n) = v;
  lprev_set_lprev : forall v n, lprev k (set_lprev k v n) = v;
  lnext_set_lprev : forall v n, lnext k (set_lprev k v n) = lnext k n;
  lprev_set_lnext : forall v n, lprev k (set_lnext k v n) = lprev k n
}.

(** The setters of [j] leave the fields of [k] alone. *)
Class LinksApart {N} (j k : links N) : Prop := {
  apart_next_next : forall v n, lnext k (set_lnext j v n) = lnext k n;
  apart_next_prev : forall v n, lnext k (set_lprev j v n) = lnext k n;
  apart_prev_next : forall v n, lprev k (set_lnext j v n) = lprev k n;
  apart_prev_prev : forall v n, lprev k (set_lprev j v n) = lprev k n
}.

Definition head_or {A} (L : list A) (d : option A) : option A :=
  match L with
  | [] => d
  | x :: _ => Some x
  end.

Fixpoint last_or {A} (d : option A) (L : list A) : option A :=
  match L with
  | [] => d
  | x :: L' => last_or (Some x) L'
  end.

Lemma head_or_None {A} (L : list A) : head_or L None = head L.
Proof. by destruct L. Qed.

Lemma last_or_last {A} (L : list A) d : last_or d L = match last L with Some x => Some x | None => d end.
Proof.
  revert d. induction L as [|x L IH]; intros d; [done|].
  rewrite last_cons. simpl. rewrite IH. by destruct (last L).
Qed.

Lemma last_or_None {A} (L : list A) : last_or None L = last L.
Proof. rewrite last_or_last. by destruct (last L). Qed.

Lemma head_or_app {A} (L1 L2 : list A) d : head_or (L1 ++ L2) d = head_or L1 (head_or L2 d).
Proof. by destruct L1. Qed.

Lemma last_or_app {A} (L1 L2 : list A) d : last_or d (L1 ++ L2) = last_or (last_or d L1) L2.
Proof. revert d. induction L1; intros; simpl; auto. Qed.

Section dll.
Context {N : Type} (k : links N).
Implicit Types (m : gmap ptr N) (L : list ptr) (p : ptr).

(** The two link fields of a node. *)
Definition lk (n : N) : option ptr * option ptr := (lprev k n, lnext k n).

Fixpoint dseg (m : gmap ptr N) (prev : option ptr) (L : list ptr) (nxt : option ptr) : Prop :=
  match L with
  | [] => True
  | p :: L' =>
      lk <$> m !! p = Some (prev, head_or L' nxt) /\ dseg m (Some p) L' nxt
  end.

Definition dll (m : gmap ptr N) (L : list ptr) : Prop :=
  NoDup L /\ dseg m None L None.

Lemma dseg_app m L1 L2 prev nxt :
  dseg m prev (L1 ++ L2) nxt <->
  dseg m prev L1 (head_or L2 nxt) /\ dseg m (last_or prev L1) L2 nxt.
Proof.
  revert prev. induction L1 as [|p L1 IH]; intros prev; simpl; [naive_solver|].
  rewrite IH, head_or_app. naive_solver.
Qed.

Lemma dseg_frame m m' L prev nxt :
  (forall p, p ∈ L -> lk <$> m' !! p = lk <$> m !! p) ->
  dseg m prev L nxt -> dseg m' prev L nxt.
Proof.
  revert prev. induction L as [|p L IH]; intros prev Hf; simpl; [done|].
  intros [Hp HL]. split.
  - rewrite Hf by set_solver. done.
  - apply IH; [set_solver|done].
Qed.

Lemma dll_frame m m' L :
  (forall p, p ∈ L -> lk <$> m' !! p = lk <$> m !! p) -> dll m L -> dll m' L.
Proof. intros Hf [? ?]. split; [done|]. by eapply dseg_frame. Qed.

Lemma dseg_lookup m L1 p L2 prev nxt :
  dseg m prev (L1 ++ p :: L2) nxt ->
  exists n, m !! p = Some n /\ lprev k n = last_or prev L1 /\ lnext k n = head_or L2 nxt.
Proof.
  intros [_ [Hp _]]%dseg_app. apply fmap_Some in Hp as (n & ? & [= -> ->]). by exists n.
Qed.

Lemma dll_lookup m L1 p L2 :
  dll m (L1 ++ p :: L2) ->
  exists n, m !! p = Some n /\ lprev k n = last L1 /\ lnext k n = head L2.
Proof.
  intros [_ Hd]. apply dseg_lookup in Hd as (n & ? & ? & ?). exists n.
  by rewrite <- last_or_None, <- head_or_None.
Qed.

Lemma dll_elem m L p : dll m L -> p ∈ L -> is_Some (m !! p).
Proof.
  intros HL (L1 & L2 & ->)%list_elem_of_split.
  apply dll_lookup in HL as (n & ? & _). eauto.
Qed.

(** Links known node by node make a list. *)
Lemma dll_pointwise m L :
  NoDup L ->
  (forall L1 p L2, L = L1 ++ p :: L2 -> lk <$> m !! p = Some (last L1, head L2)) ->
  dll m L.
Proof.
  intros HND Hp. split; [done|]. clear HND.
  assert (forall L0, (forall L1 p L2, L = L1 ++ p :: L2 ->
    lk <$> m !! p = Some (last (L0 ++ L1), head L2)) ->
    dseg m (last L0) L None) as Hgen; [|by apply (Hgen [])].
  clear Hp. induction L as [|p L IH]; intros L0 Hp; simpl; [done|]. split.
  - rewrite head_or_None, (Hp [] p L) by done. by rewrite app_nil_r.
  - replace (Some p) with (last (L0 ++ [p])) by apply last_snoc. apply IH.
    intros L1 q L2 ->. rewrite (Hp (p :: L1) q L2) by done. by rewrite <- app_assoc.
Qed.

Lemma dll_nil m : dll m [].
Proof. split; [constructor|done]. Qed.

(** The two fields next to a position are redirected to each other's side. *)
Definition relink (a : option ptr) (v : option ptr) (b : option ptr) (w : option ptr)
    (m : gmap ptr N) : gmap ptr N :=
  alter_opt (set_lprev k w) b (alter_opt (set_lnext k v) a m).

Lemma dom_relink a v b w m : dom (relink a v b w m) = dom m.
Proof. unfold relink. by rewrite !dom_alter_opt. Qed.

(** Every observation the setters do not change is the same after [relink]. *)
Lemma relink_obs {A} (f : N -> A) a v b w m p :
  (forall u n, f (set_lnext k u n) = f n) -> (forall u n, f (set_lprev k u n) = f n) ->
  f <$> relink a v b w m !! p = f <$> m !! p.
Proof.
  intros Hn Hp. unfold relink. rewrite !lookup_alter_opt.
  repeat case_decide; destruct (m !! p); simpl; by rewrite ?Hp, ?Hn.
Qed.

Context {KO : LinksOk k}.

Lemma dseg_set_next m L prev nxt v :
  NoDup L -> dseg m prev L nxt -> dseg (alter_opt (set_lnext k v) (last L) m) prev L v.
Proof.
  revert prev. induction L as [|p L IH]; intros prev; simpl; [done|].
  intros [Hp HND]%NoDup_cons [Hl HL]. destruct L as [|q L].
  - simpl in *. split; [|done]. rewrite lookup_alter, decide_True by done.
    apply fmap_Some in Hl as (n & -> & [= -> ->]). simpl.
    unfold lk. by rewrite lprev_set_lnext, lnext_set_lnext.
  - change (last (p :: q :: L)) with (last (q :: L)). split; [|by apply IH].
    rewrite lookup_alter_opt_ne; [done|].
    intros Hq. apply Hp. by apply last_Some_elem_of.
Qed.

Lemma dseg_set_prev m L prev nxt v :
  NoDup L -> dseg m prev L nxt -> dseg (alter_opt (set_lprev k v) (head L) m) v L nxt.
Proof.
  destruct L as [|p L]; simpl; [done|].
  intros [Hp HND]%NoDup_cons [Hl HL]. split.
  - rewrite lookup_alter, decide_True by done.
    apply fmap_Some in Hl as (n & -> & [= -> ->]). simpl.
    unfold lk. by rewrite lnext_set_lprev, lprev_set_lprev.
  - eapply dseg_frame; [|done]. intros q Hq.
    rewrite lookup_alter_ne; [done|]. by intros ->.
Qed.

Lemma dseg_relink m L1 L2 prev nxt x y v w :
  NoDup (L1 ++ L2) -> dseg m prev L1 x -> dseg m y L2 nxt ->
  dseg (relink (last L1) v (head L2) w m) prev L1 v /\
  dseg (relink (last L1) v (head L2) w m) w L2 nxt.
Proof.
  intros (HN1 & Hd & HN2)%NoDup_app H1 H2. unfold relink. split.
  - eapply dseg_frame; [|by eapply dseg_set_next].
    intros p Hp. rewrite lookup_alter_opt_ne; [done|].
    intros Hq%head_Some_elem_of. set_solver.
  - eapply dseg_set_prev; [done|]. eapply dseg_frame; [|done].
    intros p Hp. rewrite lookup_alter_opt_ne; [done|].
    intros Hq%last_Some_elem_of. set_solver.
Qed.

(** [p] taken out of the list. *)
Lemma dll_unlink m L1 p L2 :
  dll m (L1 ++ p :: L2) ->
  dll (relink (last L1) (head L2) (head L2) (last L1) m) (L1 ++ L2).
Proof.
  intros [HND Hd]. apply dseg_app in Hd as [H1 [_ H2]].
  assert (NoDup (L1 ++ L2)) as HND'.
  { apply NoDup_app in HND as (? & ? & [? ?]%NoDup_cons). apply NoDup_app. set_solver. }
  split; [done|].
  eapply dseg_relink in H2 as [H3 H4]; [|exact HND'|exact H1].
  apply dseg_app. rewrite head_or_None, last_or_None. by split.
Qed.

(** [p] put between [L1] and [L2]. *)
Lemma dll_link m L1 p L2 n :
  dll m (L1 ++ L2) -> p ∉ L1 ++ L2 ->
  m !! p = Some n -> lprev k n = last L1 -> lnext k n = head L2 ->
  dll (relink (last L1) (Some p) (head L2) (Some p) m) (L1 ++ p :: L2).
Proof.
  intros [HND Hd] Hp Hn Hprev Hnext.
  apply dseg_app in Hd as [H1 H2].
  eapply dseg_relink in H2 as [H3 H4]; [|exact HND|exact H1].
  split.
  { apply NoDup_app in HND as (? & ? & ?). apply NoDup_app.
    split_and!; [done|set_solver|]. apply NoDup_cons. set_solver. }
  apply dseg_app. simpl. split_and!; [done| |done].
  unfold relink. rewrite !lookup_alter_opt_ne.
  - rewrite Hn. simpl. unfold lk. by rewrite Hprev, Hnext, last_or_None, head_or_None.
  - intros ?%last_Some_elem_of. set_solver.
  - intros ?%head_Some_elem_of. set_solver.
Qed.

(** [q] put in the place of [p]. *)
Lemma dll_replace m L1 p L2 q n :
  dll m (L1 ++ p :: L2) -> q ∉ L1 ++ L2 ->
  m !! q = Some n -> lprev k n = last L1 -> lnext k n = head L2 ->
  dll (relink (last L1) (Some q) (head L2) (Some q) m) (L1 ++ q :: L2).
Proof.
  intros [HND Hd] Hq Hn Hprev Hnext. apply dseg_app in Hd as [H1 [_ H2]].
  apply NoDup_app in HND as (HN1 & Hdisj & [HpL2 HN2]%NoDup_cons).
  assert (NoDup (L1 ++ L2)) as HND' by (apply NoDup_app; set_solver).
  eapply dseg_relink in H2 as [H3 H4]; [|exact HND'|exact H1]. split.
  { apply NoDup_app. split_and!; [done|set_solver|]. apply NoDup_cons. set_solver. }
  apply dseg_app. simpl. split_and!; [done| |done].
  unfold relink. rewrite !lookup_alter_opt_ne.
  - rewrite Hn. simpl. unfold lk. by rewrite Hprev, Hnext, last_or_None, head_or_None.
  - intros ?%last_Some_elem_of. set_solver.
  - intros ?%head_Some_elem_of. set_solver.
Qed.

End dll.

(** Relinking one list keeps every list over other fields. *)
Lemma dll_relink_apart {N} (j k : links N) `{!LinksApart j k} a v b w m L :
  dll k m L -> dll k (relink j a v b w m) L.
Proof.
  intros HL. refine (dll_frame k m _ L _ HL). intros p _. apply relink_obs.
  - intros u n. unfold lk. by rewrite apart_prev_next, apart_next_next.
  - intros u n. unfold lk. by rewrite apart_prev_prev, apart_next_prev.
Qed.

Lemma dll_delete_notin {N} (k : links N) m p L : p ∉ L -> dll k m L -> dll k (delete p m) L.
Proof.
  intros Hp HL. refine (dll_frame k m _ L _ HL). intros q Hq. rewrite lookup_delete_ne; [done|]. set_solver.
Qed.

Lemma dll_insert_notin {N} (k : links N) m p n L : p ∉ L -> dll k m L -> dll k (<[p := n]> m) L.
Proof.
  intros Hp HL. refine (dll_frame k m _ L _ HL). intros q Hq. rewrite lookup_insert_ne; [done|]. set_solver.
Qed.
