(* ===== verification/HashFunc.v ===== *)
(** * HashFunc: the string hash

    Models [zend_inline_hash_func] of
    src/Zend/zend_hash.h.  A key is the list of its bytes (0..255), its
    terminating NUL included, as the C functions take it with [nKeyLength]. *)
From S2P Require Import Prelude.
From stdpp Require Import base list numbers.
From Stdlib Require Import Wf_nat.
Local Open Scope Z_scope.

(** [hash = ((hash << 5) + hash) + *arKey++], on a 64-bit [ulong]; a [char] is
    signed on the target, so a byte above 127 is added as a negative number. *)
Definition hash_step (hash c : Z) : Z :=
  u64 (u64 (u64 (Z.shiftl hash 5) + hash) + s8 c).

(** The loop that takes eight bytes per turn while [nKeyLength >= 8]; [step] is
    the statement repeated in its body. *)
Fixpoint hash_unrolled (step : Z -> Z -> Z) (arKey : list Z) (hash : Z) : Z * list Z :=
  match arKey with
  | c1 :: c2 :: c3 :: c4 :: c5 :: c6 :: c7 :: c8 :: rest =>
      let hash := step hash c1 in
      let hash := step hash c2 in
      let hash := step hash c3 in
      let hash := step hash c4 in
      let hash := step hash c5 in
      let hash := step hash c6 in
      let hash := step hash c7 in
      let hash := step hash c8 in
      hash_unrolled step rest hash
  | _ => (hash, arKey)
  end.

(** One label of the [switch]: it is executed when control enters at this label
    or falls through from a higher one. *)
Definition hash_case (step : Z -> Z -> Z) (label nKeyLength : nat) (st : Z * list Z) : Z * list Z :=
  if (label <=? nKeyLength)%nat then
    match st with
    | (hash, c :: rest) => (step hash c, rest)
    | (hash, []) => (hash, [])
    end
  else st.

Definition hash_switch (step : Z -> Z -> Z) (st : Z * list Z) : Z :=
  let n := length (snd st) in
  fst (hash_case step 1 n (hash_case step 2 n (hash_case step 3 n (hash_case step 4 n
      (hash_case step 5 n (hash_case step 6 n (hash_case step 7 n st))))))).

Definition zend_inline_hash_func (arKey : list Z) : Z :=
  hash_switch hash_step (hash_unrolled hash_step arKey 5381).

Definition zend_hash_func (arKey : list Z) : Z := zend_inline_hash_func arKey.

(** ** The reference definition: hash(i) = hash(i-1) * 33 + str[i] *)

Definition djbx33a (arKey : list Z) : Z :=
  foldl (fun hash c => (33 * hash + s8 c) mod 2 ^ 64) 5381 arKey.

Lemma hash_step_33 hash c : hash_step hash c = (33 * hash + s8 c) mod 2 ^ 64.
Proof.
  unfold hash_step, wrap_u. rewrite Z.shiftl_mul_pow2 by lia.
  rewrite Zplus_mod_idemp_l, <- Z.add_assoc, Zplus_mod_idemp_l.
  f_equal. lia.
Qed.

Section unrolled.
Variable step : Z -> Z -> Z.

Lemma hash_unrolled_8 c1 c2 c3 c4 c5 c6 c7 c8 rest hash :
  hash_unrolled step (c1 :: c2 :: c3 :: c4 :: c5 :: c6 :: c7 :: c8 :: rest) hash =
  hash_unrolled step rest (foldl step hash [c1; c2; c3; c4; c5; c6; c7; c8]).
Proof. reflexivity. Qed.

Lemma hash_unrolled_short rest hash :
  (length rest < 8)%nat -> hash_unrolled step rest hash = (hash, rest).
Proof. intros H. do 8 (destruct rest as [|? rest]; [reflexivity|]). simpl in H. lia. Qed.

Lemma hash_unrolled_foldl arKey hash :
  foldl step hash arKey =
    foldl step (fst (hash_unrolled step arKey hash)) (snd (hash_unrolled step arKey hash)) /\
  (length (snd (hash_unrolled step arKey hash)) < 8)%nat.
Proof.
  revert hash. induction arKey as [arKey IH] using (induction_ltof1 _ (@length Z)); intros hash.
  unfold ltof in IH. destruct (decide (length arKey < 8)%nat) as [Hs|Hs].
  { by rewrite hash_unrolled_short. }
  destruct (take 8 arKey) as [|c1 [|c2 [|c3 [|c4 [|c5 [|c6 [|c7 [|c8 [|c9 l]]]]]]]]] eqn:Ht;
    apply (f_equal length) in Ht as Hl; rewrite length_take in Hl; cbn [length] in Hl; try lia.
  assert (arKey = [c1; c2; c3; c4; c5; c6; c7; c8] ++ drop 8 arKey) as HA.
  { rewrite <- Ht. by rewrite take_drop. }
  assert (length (drop 8 arKey) < length arKey)%nat as Hd by (rewrite length_drop; lia).
  revert HA Hd. generalize (drop 8 arKey) as rest. intros rest -> Hd.
  change (_ ++ rest) with (c1 :: c2 :: c3 :: c4 :: c5 :: c6 :: c7 :: c8 :: rest).
  rewrite hash_unrolled_8. exact (IH rest Hd _).
Qed.

Lemma hash_switch_foldl hash rest :
  (length rest < 8)%nat -> hash_switch step (hash, rest) = foldl step hash rest.
Proof. intros H. do 8 (destruct rest as [|? rest]; [reflexivity|]). simpl in H. lia. Qed.

End unrolled.

(** The unrolled loop and the fall-through switch hash exactly as the textbook
    recurrence does. *)
Lemma zend_inline_hash_func_djbx33a arKey : zend_inline_hash_func arKey = djbx33a arKey.
Proof.
  assert (djbx33a arKey = foldl hash_step 5381 arKey) as ->.
  { unfold djbx33a. generalize 5381. induction arKey; intros; simpl; [done|].
    by rewrite IHarKey, hash_step_33. }
  unfold zend_inline_hash_func. pose proof (hash_unrolled_foldl hash_step arKey 5381) as H.
  destruct (hash_unrolled hash_step arKey 5381) as [hash' rest]. destruct H as [-> Hlen].
  cbn [fst snd] in *. by apply hash_switch_foldl.
Qed.

Lemma hash_step_range hash c : 0 <= hash_step hash c < 2 ^ 64.
Proof. unfold hash_step. apply wrap_u_range. lia. Qed.

Lemma zend_inline_hash_func_range arKey : 0 <= zend_inline_hash_func arKey < 2 ^ 64.
Proof.
  rewrite zend_inline_hash_func_djbx33a. unfold djbx33a.
  destruct arKey as [|x l _] using rev_ind; [simpl; lia|].
  rewrite foldl_app. simpl. apply Z.mod_pos_bound. lia.
Qed.
