(* ===== verification/OrderedMap.v ===== *)
(** * OrderedMap: what the hash table promises its clients

    The abstract value of a table is a list of key/value pairs with distinct
    keys, in iteration order.  A key is a byte string or a 64-bit integer. *)
From S2P Require Import Prelude.
From stdpp Require Import base list sets gmap.
Local Open Scope Z_scope.

Inductive hkey :=
| HStr (s : list Z)
| HInt (h : Z).

#[global] Instance hkey_eq_dec : EqDecision hkey.
Proof. solve_decision. Defined.

Section omap.
Context {V : Type}.
Implicit Types (E : list (hkey * V)) (k : hkey) (v : V).

Fixpoint om_lookup (k : hkey) (E : list (hkey * V)) : option V :=
  match E with
  | [] => None
  | (k', v) :: E => if decide (k' = k) then Some v else om_lookup k E
  end.

(** Replace in place. *)
Definition om_set (k : hkey) (v : V) (E : list (hkey * V)) : list (hkey * V) :=
  (fun kv => if decide (fst kv = k) then (k, v) else kv) <$> E.

(** Replace in place, or append at the end. *)
Definition om_insert (k : hkey) (v : V) (E : list (hkey * V)) : list (hkey * V) :=
  match om_lookup k E with
  | Some _ => om_set k v E
  | None => E ++ [(k, v)]
  end.

Definition om_delete (k : hkey) (E : list (hkey * V)) : list (hkey * V) :=
  filter (fun kv => fst kv <> k) E.

Definition om_keys (E : list (hkey * V)) : list hkey := fst <$> E.

Lemma om_lookup_app k E1 E2 :
  om_lookup k (E1 ++ E2) = match om_lookup k E1 with Some v => Some v | None => om_lookup k E2 end.
Proof. induction E1 as [|[k' v] E1 IH]; simpl; [done|]. by case_decide. Qed.

Lemma om_lookup_None k E : om_lookup k E = None <-> k ∉ om_keys E.
Proof.
  induction E as [|[k' v] E IH]; simpl; [set_solver|]. case_decide; set_solver.
Qed.

Lemma om_lookup_Some_elem k v E : om_lookup k E = Some v -> (k, v) ∈ E.
Proof.
  induction E as [|[k' v'] E IH]; simpl; [done|]. case_decide; set_solver.
Qed.

Lemma om_lookup_elem k v E : NoDup (om_keys E) -> (k, v) ∈ E -> om_lookup k E = Some v.
Proof.
  induction E as [|[k' v'] E IH]; simpl; [set_solver|].
  intros [Hk HND]%NoDup_cons [[= -> ->]|Hin]%elem_of_cons.
  - by rewrite decide_True.
  - rewrite decide_False; [by apply IH|]. intros ->. apply Hk.
    unfold om_keys. apply list_elem_of_fmap. by exists (k, v).
Qed.

Lemma om_lookup_mid k v E1 E2 :
  NoDup (om_keys (E1 ++ (k, v) :: E2)) -> om_lookup k (E1 ++ (k, v) :: E2) = Some v.
Proof. intros. apply om_lookup_elem; set_solver. Qed.

Lemma om_set_mid k v v' E1 E2 :
  NoDup (om_keys (E1 ++ (k, v) :: E2)) -> om_set k v' (E1 ++ (k, v) :: E2) = E1 ++ (k, v') :: E2.
Proof.
  unfold om_keys, om_set. rewrite !fmap_app, !fmap_cons. simpl. intros HND.
  rewrite decide_True by done.
  assert (forall E, k ∉ om_keys E ->
    (fun kv => if decide (fst kv = k) then (k, v') else kv) <$> E = E) as Hid.
  { intros E. induction E as [|[k' w] E IH]; [done|]. unfold om_keys. rewrite !fmap_cons.
    intros [? ?]%not_elem_of_cons. simpl in *. rewrite decide_False by done. f_equal. by apply IH. }
  apply NoDup_app in HND as (H1 & H2 & [H3 H4]%NoDup_cons).
  rewrite !Hid; [done| |]; unfold om_keys; [done|set_solver].
Qed.

Lemma om_delete_mid k v E1 E2 :
  NoDup (om_keys (E1 ++ (k, v) :: E2)) -> om_delete k (E1 ++ (k, v) :: E2) = E1 ++ E2.
Proof.
  unfold om_keys, om_delete. rewrite fmap_app, fmap_cons. simpl. intros HND.
  apply NoDup_app in HND as (H1 & H2 & [H3 H4]%NoDup_cons).
  assert (forall E, k ∉ fst <$> E -> filter (fun kv => fst kv <> k) E = E) as Hid.
  { intros E. induction E as [|[k' w] E IH]; [done|]. rewrite fmap_cons.
    intros [? ?]%not_elem_of_cons. simpl in *. rewrite filter_cons_True by (simpl; congruence).
    f_equal. by apply IH. }
  rewrite filter_app, filter_cons_False by (simpl; naive_solver).
  rewrite !Hid; [done| |]; [done|set_solver].
Qed.

Lemma om_delete_absent k E : om_lookup k E = None -> om_delete k E = E.
Proof.
  induction E as [|[k' v] E IH]; [done|]. simpl. case_decide; [done|]. intros Hn.
  unfold om_delete. rewrite filter_cons_True by done. f_equal. by apply IH.
Qed.

Lemma om_keys_set k v E : om_keys (om_set k v E) = om_keys E.
Proof.
  unfold om_keys, om_set. rewrite <- list_fmap_compose. apply list_fmap_ext.
  intros i [k' w] _. simpl. by case_decide.
Qed.

Lemma om_insert_keys k v E : NoDup (om_keys E) -> NoDup (om_keys (om_insert k v E)).
Proof.
  intros HND. unfold om_insert. destruct (om_lookup k E) eqn:Hk.
  - by rewrite om_keys_set.
  - apply om_lookup_None in Hk. unfold om_keys in *. rewrite fmap_app. simpl.
    apply NoDup_app. split_and!; [done| |apply NoDup_singleton]. set_solver.
Qed.

(** Reads after writes. *)
Lemma om_lookup_insert k v E : om_lookup k (om_insert k v E) = Some v.
Proof.
  unfold om_insert. destruct (om_lookup k E) eqn:Hk.
  - induction E as [|[k' w] E IH]; [done|]. simpl in *. case_decide; subst; simpl.
    + by rewrite decide_True.
    + rewrite decide_False by done. by apply IH.
  - rewrite om_lookup_app, Hk. simpl. by rewrite decide_True.
Qed.

Lemma om_lookup_insert_ne k k' v E : k <> k' -> om_lookup k' (om_insert k v E) = om_lookup k' E.
Proof.
  intros Hne. unfold om_insert. destruct (om_lookup k E) eqn:Hk.
  - clear Hk. induction E as [|[k1 w] E IH]; [done|]. simpl. case_decide; subst; simpl.
    + by rewrite !decide_False.
    + case_decide; [done|apply IH].
  - rewrite om_lookup_app. destruct (om_lookup k' E); [done|]. simpl. by rewrite decide_False.
Qed.

Lemma om_set_set k v v' E : om_set k v (om_set k v' E) = om_set k v E.
Proof.
  unfold om_set. rewrite <- list_fmap_compose. apply list_fmap_ext. intros _ [k' w] _. simpl.
  by repeat (case_decide; simpl).
Qed.

Lemma om_set_app k v E1 E2 : om_set k v (E1 ++ E2) = om_set k v E1 ++ om_set k v E2.
Proof. apply fmap_app. Qed.

Lemma om_set_absent k v E : om_lookup k E = None -> om_set k v E = E.
Proof.
  induction E as [|[k' w] E IH]; [done|]. unfold om_set. simpl. case_decide; [done|]. intros Hl.
  f_equal. by apply IH.
Qed.

Lemma om_insert_insert k v v' E : om_insert k v (om_insert k v' E) = om_insert k v E.
Proof.
  unfold om_insert at 1. rewrite om_lookup_insert. unfold om_insert.
  destruct (om_lookup k E) eqn:Hk; [apply om_set_set|].
  rewrite om_set_app, om_set_absent by done. unfold om_set. simpl. by rewrite decide_True.
Qed.

Lemma om_insert_length k v E : (length E <= length (om_insert k v E) <= S (length E))%nat.
Proof.
  unfold om_insert. destruct (om_lookup k E); [unfold om_set; rewrite length_fmap; lia|].
  rewrite length_app. simpl. lia.
Qed.

End omap.
