(* ===== verification/ZendHash.v ===== *)
(** * ZendHash: the engine's hash table, operation by operation

    Models src/Zend/zend_hash.c and the types of src/Zend/zend_hash.h.  A
    [Bucket] is a node of the store; it is linked into the chain of its slot
    ([pNext]/[pLast]) and into the global order list ([pListNext]/[pListLast]).
    The [HashTable] struct is passed and returned explicitly.  Every definition
    follows its C function statement by statement; undefined behaviour is a
    fault of the command monad, so a theorem that an operation runs includes
    its memory safety.

    Conventions.  Element data is one value of [V]: the [nDataSize] bytes that
    the C code copies.  The destructor callback is observed through the trace
    of values it is called on; callbacks do not re-enter the table.  Freshly
    allocated bucket memory holds the arbitrary contents [uninit].  The debug
    macros (IS_CONSISTENT, SET_INCONSISTENT) and the signal-blocking macros
    are empty in the modelled build.  The [persistent] flag only selects the
    allocator and has no other effect. *)
From S2P Require Import Prelude Memory Dllist HashFunc.
From stdpp Require Import base list gmap.
Local Open Scope Z_scope.

(** ** Data *)

(** A [const char *] used as a key, with what the code can observe of the
    address: interned strings have one address per contents; the key copied
    behind a bucket ([(const char* )(p + 1)]) is addressed by the bucket; every
    other caller-owned buffer is external. *)
Inductive keyptr :=
| KNull
| KInterned (s : list Z)
| KBucket (p : ptr)
| KExt (a : N).

#[global] Instance keyptr_eq_dec : EqDecision keyptr.
Proof. solve_decision. Defined.

Definition IS_INTERNED (k : keyptr) : bool :=
  match k with
  | KInterned _ => true
  | _ => false
  end.

(** An [(arKey, nKeyLength)] argument pair: the address and the bytes there. *)
Record keyarg := KeyArg { k_ptr : keyptr; k_bytes : list Z }.

Definition k_len (k : keyarg) : Z := Z.of_nat (length (k_bytes k)).

(** [p->pData]: either [&p->pDataPtr] or a separately allocated block. *)
Inductive pdata :=
| AtDataPtr
| AtBlock (a : ptr).

(** The address an operation returns through [void **pDest] or [*pData]. *)
Inductive dataloc :=
| DInline (p : ptr)
| DBlock (a : ptr).

Record Bucket (V : Type) := mkBucket {
  b_h : Z;
  nKeyLength : Z;
  pData : pdata;
  pDataPtr : option V;
  pListNext : option ptr;
  pListLast : option ptr;
  pNext : option ptr;
  pLast : option ptr;
  arKey : keyptr;
  keybuf : list Z
}.
Arguments mkBucket {V}.
Arguments b_h {V} _.
Arguments nKeyLength {V} _.
Arguments pData {V} _.
Arguments pDataPtr {V} _.
Arguments pListNext {V} _.
Arguments pListLast {V} _.
Arguments pNext {V} _.
Arguments pLast {V} _.
Arguments arKey {V} _.
Arguments keybuf {V} _.

Record HashTable := mkHashTable {
  nTableSize : Z;
  nTableMask : Z;
  nNumOfElements : Z;
  nNextFreeElement : Z;
  pInternalPointer : option ptr;
  pListHead : option ptr;
  pListTail : option ptr;
  arBuckets : list (option ptr);
  pDestructor : bool;
  persistent : bool;
  nApplyCount : Z;
  bApplyProtection : bool
}.

(** ** Field updates *)

Definition set_b_h {V} (v : Z) (x : Bucket V) : Bucket V :=
  mkBucket v (nKeyLength x) (pData x) (pDataPtr x) (pListNext x) (pListLast x) (pNext x) (pLast x) (arKey x) (keybuf x).

Definition set_nKeyLength {V} (v : Z) (x : Bucket V) : Bucket V :=
  mkBucket (b_h x) v (pData x) (pDataPtr x) (pListNext x) (pListLast x) (pNext x) (pLast x) (arKey x) (keybuf x).

Definition set_pData {V} (v : pdata) (x : Bucket V) : Bucket V :=
  mkBucket (b_h x) (nKeyLength x) v (pDataPtr x) (pListNext x) (pListLast x) (pNext x) (pLast x) (arKey x) (keybuf x).

Definition set_pDataPtr {V} (v : option V) (x : Bucket V) : Bucket V :=
  mkBucket (b_h x) (nKeyLength x) (pData x) v (pListNext x) (pListLast x) (pNext x) (pLast x) (arKey x) (keybuf x).

Definition set_pListNext {V} (v : option ptr) (x : Bucket V) : Bucket V :=
  mkBucket (b_h x) (nKeyLength x) (pData x) (pDataPtr x) v (pListLast x) (pNext x) (pLast x) (arKey x) (keybuf x).

Definition set_pListLast {V} (v : option ptr) (x : Bucket V) : Bucket V :=
  mkBucket (b_h x) (nKeyLength x) (pData x) (pDataPtr x) (pListNext x) v (pNext x) (pLast x) (arKey x) (keybuf x).

Definition set_pNext {V} (v : option ptr) (x : Bucket V) : Bucket V :=
  mkBucket (b_h x) (nKeyLength x) (pData x) (pDataPtr x) (pListNext x) (pListLast x) v (pLast x) (arKey x) (keybuf x).

Definition set_pLast {V} (v : option ptr) (x : Bucket V) : Bucket V :=
  mkBucket (b_h x) (nKeyLength x) (pData x) (pDataPtr x) (pListNext x) (pListLast x) (pNext x) v (arKey x) (keybuf x).

Definition set_arKey {V} (v : keyptr) (x : Bucket V) : Bucket V :=
  mkBucket (b_h x) (nKeyLength x) (pData x) (pDataPtr x) (pListNext x) (pListLast x) (pNext x) (pLast x) v (keybuf x).

Definition set_keybuf {V} (v : list Z) (x : Bucket V) : Bucket V :=
  mkBucket (b_h x) (nKeyLength x) (pData x) (pDataPtr x) (pListNext x) (pListLast x) (pNext x) (pLast x) (arKey x) v.

Definition set_nTableSize (v : Z) (x : HashTable) : HashTable :=
  mkHashTable v (nTableMask x) (nNumOfElements x) (nNextFreeElement x) (pInternalPointer x) (pListHead x) (pListTail x) (arBuckets x) (pDestructor x) (persistent x) (nApplyCount x) (bApplyProtection x).

Definition set_nTableMask (v : Z) (x : HashTable) : HashTable :=
  mkHashTable (nTableSize x) v (nNumOfElements x) (nNextFreeElement x) (pInternalPointer x) (pListHead x) (pListTail x) (arBuckets x) (pDestructor x) (persistent x) (nApplyCount x) (bApplyProtection x).

Definition set_nNumOfElements (v : Z) (x : HashTable) : HashTable :=
  mkHashTable (nTableSize x) (nTableMask x) v (nNextFreeElement x) (pInternalPointer x) (pListHead x) (pListTail x) (arBuckets x) (pDestructor x) (persistent x) (nApplyCount x) (bApplyProtection x).

Definition set_nNextFreeElement (v : Z) (x : HashTable) : HashTable :=
  mkHashTable (nTableSize x) (nTableMask x) (nNumOfElements x) v (pInternalPointer x) (pListHead x) (pListTail x) (arBuckets x) (pDestructor x) (persistent x) (nApplyCount x) (bApplyProtection x).

Definition set_pInternalPointer (v : option ptr) (x : HashTable) : HashTable :=
  mkHashTable (nTableSize x) (nTableMask x) (nNumOfElements x) (nNextFreeElement x) v (pListHead x) (pListTail x) (arBuckets x) (pDestructor x) (persistent x) (nApplyCount x) (bApplyProtection x).

Definition set_pListHead (v : option ptr) (x : HashTable) : HashTable :=
  mkHashTable (nTableSize x) (nTableMask x) (nNumOfElements x) (nNextFreeElement x) (pInternalPointer x) v (pListTail x) (arBuckets x) (pDestructor x) (persistent x) (nApplyCount x) (bApplyProtection x).

Definition set_pListTail (v : option ptr) (x : HashTable) : HashTable :=
  mkHashTable (nTableSize x) (nTableMask x) (nNumOfElements x) (nNextFreeElement x) (pInternalPointer x) (pListHead x) v (arBuckets x) (pDestructor x) (persistent x) (nApplyCount x) (bApplyProtection x).

Definition set_arBuckets (v : list (option ptr)) (x : HashTable) : HashTable :=
  mkHashTable (nTableSize x) (nTableMask x) (nNumOfElements x) (nNextFreeElement x) (pInternalPointer x) (pListHead x) (pListTail x) v (pDestructor x) (persistent x) (nApplyCount x) (bApplyProtection x).

Definition set_pDestructor (v : bool) (x : HashTable) : HashTable :=
  mkHashTable (nTableSize x) (nTableMask x) (nNumOfElements x) (nNextFreeElement x) (pInternalPointer x) (pListHead x) (pListTail x) (arBuckets x) v (persistent x) (nApplyCount x) (bApplyProtection x).

Definition set_persistent (v : bool) (x : HashTable) : HashTable :=
  mkHashTable (nTableSize x) (nTableMask x) (nNumOfElements x) (nNextFreeElement x) (pInternalPointer x) (pListHead x) (pListTail x) (arBuckets x) (pDestructor x) v (nApplyCount x) (bApplyProtection x).

Definition set_nApplyCount (v : Z) (x : HashTable) : HashTable :=
  mkHashTable (nTableSize x) (nTableMask x) (nNumOfElements x) (nNextFreeElement x) (pInternalPointer x) (pListHead x) (pListTail x) (arBuckets x) (pDestructor x) (persistent x) v (bApplyProtection x).

Definition set_bApplyProtection (v : bool) (x : HashTable) : HashTable :=
  mkHashTable (nTableSize x) (nTableMask x) (nNumOfElements x) (nNextFreeElement x) (pInternalPointer x) (pListHead x) (pListTail x) (arBuckets x) (pDestructor x) (persistent x) (nApplyCount x) v.

Definition list_links {V} : links (Bucket V) :=
  Links pListNext pListLast set_pListNext set_pListLast.

Definition hash_links {V} : links (Bucket V) :=
  Links pNext pLast set_pNext set_pLast.

#[global] Instance list_links_ok V : LinksOk (@list_links V).
Proof. split; by intros v []. Qed.

#[global] Instance hash_links_ok V : LinksOk (@hash_links V).
Proof. split; by intros v []. Qed.

#[global] Instance list_hash_apart V : LinksApart (@list_links V) hash_links.
Proof. split; by intros v []. Qed.

#[global] Instance hash_list_apart V : LinksApart (@hash_links V) list_links.
Proof. split; by intros v []. Qed.

(** Flags of the insertion, deletion and key-update functions. *)
Inductive hash_flag := HASH_UPDATE | HASH_ADD | HASH_NEXT_INSERT.

Inductive del_flag := HASH_DEL_KEY | HASH_DEL_INDEX | HASH_DEL_KEY_QUICK.

#[global] Instance hash_flag_eq_dec : EqDecision hash_flag.
Proof. solve_decision. Defined.

Section ops.
Context {V : Type} {AL : Allocator} (uninit : Bucket V).

Abbreviation hcmd := (cmd (store (Bucket V) V)).

(** The bytes [p->arKey] points at. *)
Definition key_bytes (b : Bucket V) : list Z :=
  match arKey b with
  | KInterned s => s
  | KBucket _ => keybuf b
  | _ => []
  end.

(** [!memcmp(x, y, n)] *)
Definition memcmp_eq (n : Z) (x y : list Z) : bool :=
  bool_decide (take (Z.to_nat n) x = take (Z.to_nat n) y).

(** [p->arKey == arKey || (p->h == h && p->nKeyLength == nKeyLength &&
    !memcmp(p->arKey, arKey, nKeyLength))] *)
Definition str_match (k : keyarg) (h : Z) (b : Bucket V) : bool :=
  bool_decide (arKey b = k_ptr k) ||
  ((b_h b =? h) && (nKeyLength b =? k_len k) && memcmp_eq (k_len k) (key_bytes b) (k_bytes k)).

(** [p->nKeyLength == 0 && p->h == h] *)
Definition int_match (h : Z) (b : Bucket V) : bool :=
  (nKeyLength b =? 0) && (b_h b =? h).

(** [h & ht->nTableMask] as an index into [arBuckets] *)
Definition hash_index (ht : HashTable) (h : Z) : nat :=
  Z.to_nat (Z.land h (nTableMask ht)).

(** [ht->arBuckets[i]] *)
Definition read_slot (ht : HashTable) (i : nat) : hcmd (option ptr) :=
  match arBuckets ht !! i with
  | Some o => mret o
  | None => cfault
  end.

(** [ht->arBuckets[i] = v] *)
Definition write_slot (ht : HashTable) (i : nat) (v : option ptr) : hcmd HashTable :=
  match arBuckets ht !! i with
  | Some _ => mret (set_arBuckets (<[i := v]> (arBuckets ht)) ht)
  | None => cfault
  end.

(** Bound on the turns of a loop over the elements: one per element, one to
    leave the loop. *)
Definition loop_bound (ht : HashTable) : nat := S (Z.to_nat (nNumOfElements ht)).

(** [while (p != NULL) { if (test) break; p = p->pNext; }] *)
Fixpoint chain_find (fuel : nat) (test : Bucket V -> bool) (p : option ptr) :
    hcmd (option ptr) :=
  match p with
  | None => mret None
  | Some q =>
      match fuel with
      | O => cfault
      | S fuel =>
          b ← load q;
          if test b then mret (Some q) else chain_find fuel test (pNext b)
      end
  end.

Definition chain_search (ht : HashTable) (test : Bucket V -> bool) (h : Z) : hcmd (option ptr) :=
  p ← read_slot ht (hash_index ht h);
  chain_find (loop_bound ht) test p.

(** The value stored at [p->pData]. *)
Definition load_data (p : ptr) : hcmd V :=
  b ← load p;
  match pData b with
  | AtDataPtr =>
      match pDataPtr b with
      | Some v => mret v
      | None => cfault
      end
  | AtBlock a => load_block a
  end.

Definition data_loc (p : ptr) : hcmd dataloc :=
  b ← load p;
  mret (match pData b with AtDataPtr => DInline p | AtBlock a => DBlock a end).

(** [pCopyConstructor( *pDest )]: the callback rewrites the stored value. *)
Definition apply_ctor (ctor : option (V -> V)) (d : dataloc) : hcmd unit :=
  match ctor with
  | None => mret tt
  | Some f =>
      match d with
      | DInline p => update p (fun b => set_pDataPtr (f <$> pDataPtr b) b)
      | DBlock a => v ← load_block a; store_block a (f v)
      end
  end.

(** ** Macros *)

Definition UPDATE_DATA (p : ptr) (v : V) (nDataSize : Z) : hcmd unit :=
  b ← load p;
  if nDataSize =? sizeof_ptr then
    match pData b with
    | AtBlock a => free_block a
    | AtDataPtr => mret tt
    end ;;
    update p (set_pDataPtr (Some v)) ;;
    update p (set_pData AtDataPtr)
  else
    match pData b with
    | AtDataPtr =>
        a ← alloc_block v;
        update p (set_pData (AtBlock a)) ;;
        update p (set_pDataPtr None)
    | AtBlock a =>
        free_block a ;;
        a' ← alloc_block v;
        update p (set_pData (AtBlock a'))
    end.

Definition INIT_DATA (p : ptr) (v : V) (nDataSize : Z) : hcmd unit :=
  if nDataSize =? sizeof_ptr then
    update p (set_pDataPtr (Some v)) ;;
    update p (set_pData AtDataPtr)
  else
    a ← alloc_block v;
    update p (set_pData (AtBlock a)) ;;
    update p (set_pDataPtr None).

Definition CHECK_INIT (ht : HashTable) : HashTable :=
  if nTableMask ht =? 0 then
    set_nTableMask (u32 (nTableSize ht - 1))
      (set_arBuckets (replicate (Z.to_nat (nTableSize ht)) None) ht)
  else ht.

Definition CONNECT_TO_BUCKET_DLLIST (element : ptr) (list_head : option ptr) : hcmd unit :=
  update element (set_pNext list_head) ;;
  update element (set_pLast None) ;;
  update_opt list_head (set_pLast (Some element)).

Definition CONNECT_TO_GLOBAL_DLLIST_EX (element : ptr) (ht : HashTable)
    (last next : option ptr) : hcmd HashTable :=
  update element (set_pListLast last) ;;
  update element (set_pListNext next) ;;
  update_opt last (set_pListNext (Some element)) ;;
  update_opt next (set_pListLast (Some element)) ;;
  let ht := match last with
            | Some _ => ht
            | None => set_pListHead (Some element) ht
            end in
  let ht := match next with
            | Some _ => ht
            | None => set_pListTail (Some element) ht
            end in
  mret ht.

Definition CONNECT_TO_GLOBAL_DLLIST (element : ptr) (ht : HashTable) : hcmd HashTable :=
  ht ← CONNECT_TO_GLOBAL_DLLIST_EX element ht (pListTail ht) None;
  match pInternalPointer ht with
  | None => mret (set_pInternalPointer (Some element) ht)
  | Some _ => mret ht
  end.

(** ** Start-up *)

(** [while ((1U << i) < nSize) i++;] with [nSize < 0x80000000] *)
Fixpoint table_bits (fuel : nat) (i nSize : Z) : Z :=
  match fuel with
  | O => i
  | S fuel => if u32 (Z.shiftl 1 i) <? nSize then table_bits fuel (i + 1) nSize else i
  end.

Definition _zend_hash_init (nSize : Z) (dtor persist : bool) : HashTable :=
  let size := if 0x80000000 <=? nSize then 0x80000000
              else u32 (Z.shiftl 1 (table_bits 32 3 nSize)) in
  mkHashTable size 0 0 0 None None None [None] dtor persist 0 true.

Definition _zend_hash_init_ex (nSize : Z) (dtor persist protect : bool) : HashTable :=
  set_bApplyProtection protect (_zend_hash_init nSize dtor persist).

Definition zend_hash_set_apply_protection (ht : HashTable) (protect : bool) : HashTable :=
  set_bApplyProtection protect ht.

(** ** Rehashing *)

(** [for (p = ht->pListHead; p != NULL; p = p->pListNext)] of [zend_hash_rehash] *)
Fixpoint rehash_loop (fuel : nat) (ht : HashTable) (p : option ptr) : hcmd HashTable :=
  match p with
  | None => mret ht
  | Some q =>
      match fuel with
      | O => cfault
      | S fuel =>
          b ← load q;
          let nIndex := hash_index ht (b_h b) in
          hd ← read_slot ht nIndex;
          CONNECT_TO_BUCKET_DLLIST q hd ;;
          ht ← write_slot ht nIndex (Some q);
          b ← load q;
          rehash_loop fuel ht (pListNext b)
      end
  end.

(** [memset(ht->arBuckets, 0, nTableSize slots)] *)
Definition clear_slots (ht : HashTable) : HashTable :=
  set_arBuckets (replicate (Z.to_nat (nTableSize ht)) None) ht.

Definition zend_hash_rehash (ht : HashTable) : hcmd (zresult * HashTable) :=
  if nNumOfElements ht =? 0 then mret (SUCCESS, ht)
  else
    ht ← rehash_loop (loop_bound ht) (clear_slots ht) (pListHead ht);
    mret (SUCCESS, ht).

(** The upper half of the reallocated slot array holds indeterminate pointers;
    [zend_hash_rehash] clears the array before it reads it. *)
Definition zend_hash_do_resize (ht : HashTable) : hcmd HashTable :=
  if 0 <? u32 (Z.shiftl (nTableSize ht) 1) then
    let size := u32 (Z.shiftl (nTableSize ht) 1) in
    let t := resize (Z.to_nat size) None (arBuckets ht) in
    let ht := set_nTableSize size (set_arBuckets t ht) in
    let ht := set_nTableMask (u32 (nTableSize ht - 1)) ht in
    '(_, ht) ← zend_hash_rehash ht;
    mret ht
  else mret ht.

Definition ZEND_HASH_IF_FULL_DO_RESIZE (ht : HashTable) : hcmd HashTable :=
  if nTableSize ht <? nNumOfElements ht then zend_hash_do_resize ht else mret ht.

Fixpoint reindex_loop (fuel : nat) (only_integer_keys : bool) (ht : HashTable) (offset : Z)
    (p : option ptr) : hcmd (HashTable * Z) :=
  match p with
  | None => mret (ht, offset)
  | Some q =>
      match fuel with
      | O => cfault
      | S fuel =>
          b ← load q;
          let renumber := negb only_integer_keys || (nKeyLength b =? 0) in
          (if renumber then
             update q (set_b_h offset) ;; update q (set_nKeyLength 0)
           else mret tt) ;;
          let offset := if renumber then u64 (offset + 1) else offset in
          b ← load q;
          let nIndex := hash_index ht (b_h b) in
          hd ← read_slot ht nIndex;
          CONNECT_TO_BUCKET_DLLIST q hd ;;
          ht ← write_slot ht nIndex (Some q);
          b ← load q;
          reindex_loop fuel only_integer_keys ht offset (pListNext b)
      end
  end.

Definition zend_hash_reindex (ht : HashTable) (only_integer_keys : bool) : hcmd HashTable :=
  if nNumOfElements ht =? 0 then mret (set_nNextFreeElement 0 ht)
  else
    '(ht, offset) ← reindex_loop (loop_bound ht) only_integer_keys (clear_slots ht) 0 (pListHead ht);
    mret (set_nNextFreeElement offset ht).

(** ** Insertion and update *)

(** The body of the branch that found a bucket with the key. *)
Definition overwrite (ht : HashTable) (p : ptr) (v : V) (nDataSize : Z) : hcmd unit :=
  (if pDestructor ht then old ← load_data p; call_dtor old else mret tt) ;;
  UPDATE_DATA p v nDataSize.

(** A new bucket for a string key: an interned key is shared, any other is
    copied behind the bucket. *)
Definition new_str_bucket (k : keyarg) : hcmd ptr :=
  p ← alloc_node uninit;
  if IS_INTERNED (k_ptr k) then
    update p (set_arKey (k_ptr k)) ;; mret p
  else
    update p (set_arKey (KBucket p)) ;;
    update p (set_keybuf (take (Z.to_nat (k_len k)) (k_bytes k))) ;;
    mret p.

Definition _zend_hash_quick_add_or_update (ht : HashTable) (k : keyarg) (h : Z) (v : V)
    (nDataSize : Z) (flag : hash_flag) : hcmd (zresult * option dataloc * HashTable) :=
  let ht := CHECK_INIT ht in
  let nIndex := hash_index ht h in
  found ← chain_search ht (str_match k h) h;
  match found with
  | Some p =>
      if decide (flag = HASH_ADD) then mret (FAILURE, None, ht)
      else
        overwrite ht p v nDataSize ;;
        d ← data_loc p;
        mret (SUCCESS, Some d, ht)
  | None =>
      p ← new_str_bucket k;
      update p (set_nKeyLength (k_len k)) ;;
      INIT_DATA p v nDataSize ;;
      update p (set_b_h h) ;;
      hd ← read_slot ht nIndex;
      CONNECT_TO_BUCKET_DLLIST p hd ;;
      d ← data_loc p;
      ht ← write_slot ht nIndex (Some p);
      ht ← CONNECT_TO_GLOBAL_DLLIST p ht;
      let ht := set_nNumOfElements (u32 (nNumOfElements ht + 1)) ht in
      ht ← ZEND_HASH_IF_FULL_DO_RESIZE ht;
      mret (SUCCESS, Some d, ht)
  end.

Definition _zend_hash_add_or_update (ht : HashTable) (k : keyarg) (v : V)
    (nDataSize : Z) (flag : hash_flag) : hcmd (zresult * option dataloc * HashTable) :=
  let ht := CHECK_INIT ht in
  let h := zend_inline_hash_func (k_bytes k) in
  let nIndex := hash_index ht h in
  found ← chain_search ht (str_match k h) h;
  match found with
  | Some p =>
      if decide (flag = HASH_ADD) then mret (FAILURE, None, ht)
      else
        overwrite ht p v nDataSize ;;
        d ← data_loc p;
        mret (SUCCESS, Some d, ht)
  | None =>
      p ← new_str_bucket k;
      update p (set_nKeyLength (k_len k)) ;;
      INIT_DATA p v nDataSize ;;
      update p (set_b_h h) ;;
      hd ← read_slot ht nIndex;
      CONNECT_TO_BUCKET_DLLIST p hd ;;
      d ← data_loc p;
      ht ← CONNECT_TO_GLOBAL_DLLIST p ht;
      ht ← write_slot ht nIndex (Some p);
      let ht := set_nNumOfElements (u32 (nNumOfElements ht + 1)) ht in
      ht ← ZEND_HASH_IF_FULL_DO_RESIZE ht;
      mret (SUCCESS, Some d, ht)
  end.

(** [dummy] is the value of the one pointer-sized element that is stored. *)
Definition zend_hash_add_empty_element (ht : HashTable) (k : keyarg) (dummy : V) :
    hcmd (zresult * HashTable) :=
  '(r, _, ht) ← _zend_hash_add_or_update ht k dummy sizeof_ptr HASH_ADD;
  mret (r, ht).

(** [if ((long)h >= (long)ht->nNextFreeElement)
       ht->nNextFreeElement = h < LONG_MAX ? h + 1 : LONG_MAX;] *)
Definition bump_next_free (h : Z) (ht : HashTable) : HashTable :=
  if s64 (nNextFreeElement ht) <=? s64 h then
    set_nNextFreeElement (if h <? LONG_MAX then h + 1 else LONG_MAX) ht
  else ht.

Definition _zend_hash_index_update_or_next_insert (ht : HashTable) (h : Z) (v : V)
    (nDataSize : Z) (flag : hash_flag) : hcmd (zresult * option dataloc * HashTable) :=
  let ht := CHECK_INIT ht in
  let h := if decide (flag = HASH_NEXT_INSERT) then nNextFreeElement ht else h in
  let nIndex := hash_index ht h in
  found ← chain_search ht (int_match h) h;
  match found with
  | Some p =>
      if decide (flag = HASH_UPDATE) then
        overwrite ht p v nDataSize ;;
        d ← data_loc p;
        mret (SUCCESS, Some d, ht)
      else mret (FAILURE, None, ht)
  | None =>
      p ← alloc_node uninit;
      update p (set_arKey KNull) ;;
      update p (set_nKeyLength 0) ;;
      update p (set_b_h h) ;;
      INIT_DATA p v nDataSize ;;
      d ← data_loc p;
      hd ← read_slot ht nIndex;
      CONNECT_TO_BUCKET_DLLIST p hd ;;
      ht ← write_slot ht nIndex (Some p);
      ht ← CONNECT_TO_GLOBAL_DLLIST p ht;
      let ht := bump_next_free h ht in
      let ht := set_nNumOfElements (u32 (nNumOfElements ht + 1)) ht in
      ht ← ZEND_HASH_IF_FULL_DO_RESIZE ht;
      mret (SUCCESS, Some d, ht)
  end.

(** ** Deletion *)

Definition i_zend_hash_bucket_delete (ht : HashTable) (p : ptr) : hcmd HashTable :=
  b ← load p;
  ht ← match pLast b with
       | Some l => update l (set_pNext (pNext b)) ;; mret ht
       | None => write_slot ht (hash_index ht (b_h b)) (pNext b)
       end;
  update_opt (pNext b) (set_pLast (pLast b)) ;;
  ht ← match pListLast b with
       | Some l => update l (set_pListNext (pListNext b)) ;; mret ht
       | None => mret (set_pListHead (pListNext b) ht)
       end;
  ht ← match pListNext b with
       | Some n => update n (set_pListLast (pListLast b)) ;; mret ht
       | None => mret (set_pListTail (pListLast b) ht)
       end;
  let ht := if decide (pInternalPointer ht = Some p)
            then set_pInternalPointer (pListNext b) ht else ht in
  let ht := set_nNumOfElements (u32 (nNumOfElements ht - 1)) ht in
  (if pDestructor ht then v ← load_data p; call_dtor v else mret tt) ;;
  match pData b with
  | AtBlock a => free_block a
  | AtDataPtr => mret tt
  end ;;
  free_node p ;;
  mret ht.

Definition zend_hash_bucket_delete (ht : HashTable) (p : ptr) : hcmd HashTable :=
  i_zend_hash_bucket_delete ht p.

(** [p->h == h && p->nKeyLength == nKeyLength &&
    (p->nKeyLength == 0 || !memcmp(p->arKey, arKey, nKeyLength))] *)
Definition del_match (k : keyarg) (h : Z) (b : Bucket V) : bool :=
  (b_h b =? h) && (nKeyLength b =? k_len k) &&
  ((nKeyLength b =? 0) || memcmp_eq (k_len k) (key_bytes b) (k_bytes k)).

Definition zend_hash_del_key_or_index (ht : HashTable) (k : keyarg) (h : Z)
    (flag : del_flag) : hcmd (zresult * HashTable) :=
  let h := match flag with
           | HASH_DEL_KEY => zend_inline_hash_func (k_bytes k)
           | _ => h
           end in
  found ← chain_search ht (del_match k h) h;
  match found with
  | Some p => ht ← i_zend_hash_bucket_delete ht p; mret (SUCCESS, ht)
  | None => mret (FAILURE, ht)
  end.

Definition no_key : keyarg := KeyArg KNull [].

Definition zend_hash_index_del (ht : HashTable) (h : Z) : hcmd (zresult * HashTable) :=
  zend_hash_del_key_or_index ht no_key h HASH_DEL_INDEX.

(** ** Lookup *)

Definition zend_hash_quick_find (ht : HashTable) (k : keyarg) (h : Z) :
    hcmd (zresult * option dataloc) :=
  found ← chain_search ht (str_match k h) h;
  match found with
  | Some p => d ← data_loc p; mret (SUCCESS, Some d)
  | None => mret (FAILURE, None)
  end.

Definition zend_hash_find (ht : HashTable) (k : keyarg) : hcmd (zresult * option dataloc) :=
  let h := zend_inline_hash_func (k_bytes k) in
  found ← chain_search ht (str_match k h) h;
  match found with
  | Some p => d ← data_loc p; mret (SUCCESS, Some d)
  | None => mret (FAILURE, None)
  end.

Definition zend_hash_exists (ht : HashTable) (k : keyarg) : hcmd bool :=
  let h := zend_inline_hash_func (k_bytes k) in
  found ← chain_search ht (str_match k h) h;
  mret (bool_decide (is_Some found)).

Definition zend_hash_quick_exists (ht : HashTable) (k : keyarg) (h : Z) : hcmd bool :=
  found ← chain_search ht (str_match k h) h;
  mret (bool_decide (is_Some found)).

Definition zend_hash_index_find (ht : HashTable) (h : Z) : hcmd (zresult * option dataloc) :=
  found ← chain_search ht (int_match h) h;
  match found with
  | Some p => d ← data_loc p; mret (SUCCESS, Some d)
  | None => mret (FAILURE, None)
  end.

Definition zend_hash_index_exists (ht : HashTable) (h : Z) : hcmd bool :=
  found ← chain_search ht (int_match h) h;
  mret (bool_decide (is_Some found)).

Definition zend_hash_num_elements (ht : HashTable) : Z := s32 (nNumOfElements ht).

Definition zend_hash_next_free_element (ht : HashTable) : Z := nNextFreeElement ht.

(** The value at an address returned through [pDest] or [pData]. *)
Definition deref (d : dataloc) : hcmd V :=
  match d with
  | DInline p => load_data p
  | DBlock a => load_block a
  end.

End ops.
