(* ===== verification/ZendHashRep.v ===== *)
(** * ZendHashRep: the representation invariant of the hash table

    [ht_rep s ht L] says that in the store [s] the struct [ht] represents a
    table whose buckets are [L], in iteration order; [contents s L] is the
    ordered map it stands for; [same_rest] says that everything outside the
    table's own memory is as it was, with nothing leaked. *)
From S2P Require Import Prelude Memory Dllist HashFunc OrderedMap ZendHash.
From stdpp Require Import base list gmap.
Local Open Scope Z_scope.

Section rep.
Context {V : Type}.
Implicit Types (m : gmap ptr (Bucket V)) (b : Bucket V) (p q : ptr) (L : list ptr).
Implicit Types (s : store (Bucket V) V) (ht : HashTable).

(** ** Observations of a bucket *)

(** Everything but the chain links, and everything but the order links. *)
Definition strip_hash (b : Bucket V) : Bucket V := set_pNext None (set_pLast None b).
Definition strip_list (b : Bucket V) : Bucket V := set_pListNext None (set_pListLast None b).

(** Everything but the links. *)
Definition payload (b : Bucket V) : Bucket V := strip_hash (strip_list b).

Definition bucket_key (b : Bucket V) : hkey :=
  if nKeyLength b =? 0 then HInt (b_h b)
  else HStr (take (Z.to_nat (nKeyLength b)) (key_bytes b)).

Definition bucket_val (bl : gmap ptr V) (b : Bucket V) : option V :=
  match pData b with
  | AtDataPtr => pDataPtr b
  | AtBlock a => bl !! a
  end.

(** ** The invariant, part by part *)

(** A bucket at [p] is well formed: a numeric bucket has no interned key left
    in [arKey], a string bucket carries its key and the hash of it. *)
Definition bucket_ok (p : ptr) (b : Bucket V) : Prop :=
  (0 <= b_h b < 2 ^ 64 /\ nKeyLength b < 2 ^ 32) /\
  match nKeyLength b with
  | 0 => arKey b = KNull \/ arKey b = KBucket p
  | n => ((exists x, arKey b = KInterned x) \/ arKey b = KBucket p) /\
         n = Z.of_nat (length (key_bytes b)) /\
         b_h b = zend_inline_hash_func (key_bytes b)
  end.

Definition order_ok (m : gmap ptr (Bucket V)) (ht : HashTable) (L : list ptr) : Prop :=
  dll list_links m L /\ pListHead ht = head L /\ pListTail ht = last L /\
  nNumOfElements ht = Z.of_nat (length L) /\ Z.of_nat (length L) < 2 ^ 32.

(** Table sizes are powers of two; before the first insertion the slot array
    is the shared one-element array and the mask is 0. *)
Definition geometry_ok (ht : HashTable) (L : list ptr) : Prop :=
  (exists k, 3 <= k <= 31 /\ nTableSize ht = 2 ^ k) /\
  ((nTableMask ht = 0 /\ length (arBuckets ht) = 1%nat /\ L = []) \/
   (nTableMask ht = nTableSize ht - 1 /\ Z.of_nat (length (arBuckets ht)) = nTableSize ht)).

Definition in_slot (m : gmap ptr (Bucket V)) (ht : HashTable) (i : nat) (p : ptr) : Prop :=
  exists b, m !! p = Some b /\ hash_index ht (b_h b) = i.

Definition slot_ok (m : gmap ptr (Bucket V)) (ht : HashTable) (L : list ptr) (i : nat)
    (o : option ptr) : Prop :=
  exists c, o = head c /\ dll hash_links m c /\ forall p, p ∈ c <-> p ∈ L /\ in_slot m ht i p.

Definition slots_ok (m : gmap ptr (Bucket V)) (ht : HashTable) (L : list ptr) : Prop :=
  forall i o, arBuckets ht !! i = Some o -> slot_ok m ht L i o.

Definition keys_ok (m : gmap ptr (Bucket V)) (L : list ptr) : Prop :=
  forall p q bp bq, p ∈ L -> q ∈ L -> m !! p = Some bp -> m !! q = Some bq ->
    bucket_key bp = bucket_key bq -> p = q.

Definition buckets_ok (s : store (Bucket V) V) (L : list ptr) : Prop :=
  forall p b, p ∈ L -> nodes s !! p = Some b ->
    bucket_ok p b /\ is_Some (bucket_val (blocks s) b).

Definition blocks_ok (m : gmap ptr (Bucket V)) (L : list ptr) : Prop :=
  forall p q bp bq a, p ∈ L -> q ∈ L -> m !! p = Some bp -> m !! q = Some bq ->
    pData bp = AtBlock a -> pData bq = AtBlock a -> p = q.

(** Every integer key is below [nNextFreeElement], read as a signed long,
    unless that has reached its maximum. *)
Definition next_free_ok (m : gmap ptr (Bucket V)) (ht : HashTable) (L : list ptr) : Prop :=
  0 <= nNextFreeElement ht <= LONG_MAX /\
  forall p b, p ∈ L -> m !! p = Some b -> nKeyLength b = 0 ->
    s64 (b_h b) < nNextFreeElement ht \/ nNextFreeElement ht = LONG_MAX.

Definition internal_ok (ht : HashTable) (L : list ptr) : Prop :=
  forall p, pInternalPointer ht = Some p -> p ∈ L.

Record ht_rep (s : store (Bucket V) V) (ht : HashTable) (L : list ptr) : Prop := {
  rep_order : order_ok (nodes s) ht L;
  rep_geometry : geometry_ok ht L;
  rep_slots : slots_ok (nodes s) ht L;
  rep_keys : keys_ok (nodes s) L;
  rep_buckets : buckets_ok s L;
  rep_blocks : blocks_ok (nodes s) L;
  rep_next : next_free_ok (nodes s) ht L;
  rep_internal : internal_ok ht L
}.

(** ** The ordered map a table stands for *)

Definition entry (s : store (Bucket V) V) (p : ptr) : option (hkey * V) :=
  b ← nodes s !! p;
  v ← bucket_val (blocks s) b;
  Some (bucket_key b, v).

Definition contents (s : store (Bucket V) V) (L : list ptr) : list (hkey * V) :=
  omap (entry s) L.

(** ** The rest of memory *)

Definition owned (s : store (Bucket V) V) (L : list ptr) (a : ptr) : Prop :=
  exists p b, p ∈ L /\ nodes s !! p = Some b /\ pData b = AtBlock a.

Definition same_rest (s : store (Bucket V) V) (L : list ptr) (s' : store (Bucket V) V)
    (L' : list ptr) : Prop :=
  (forall p b, (nodes s' !! p = Some b /\ p ∉ L') <-> (nodes s !! p = Some b /\ p ∉ L)) /\
  (forall a v, (blocks s' !! a = Some v /\ ~ owned s' L' a) <->
               (blocks s !! a = Some v /\ ~ owned s L a)).

Lemma same_rest_refl s L : same_rest s L s L.
Proof. by split. Qed.

Lemma same_rest_trans s1 L1 s2 L2 s3 L3 :
  same_rest s1 L1 s2 L2 -> same_rest s2 L2 s3 L3 -> same_rest s1 L1 s3 L3.
Proof. intros [H1 H2] [H3 H4]. split; intros; [rewrite H3, H1|rewrite H4, H2]; done. Qed.

(** A valid key argument: an interned address determines its bytes; an address
    inside a bucket is that of the bucket's own string key. *)
Definition keyarg_ok (s : store (Bucket V) V) (k : keyarg) : Prop :=
  0 < k_len k < 2 ^ 32 /\
  match k_ptr k with
  | KNull => False
  | KInterned x => x = k_bytes k
  | KBucket p => exists b, nodes s !! p = Some b /\ arKey b = KBucket p /\
                   nKeyLength b = k_len k /\ keybuf b = k_bytes k
  | KExt _ => True
  end.

(** ** Payload congruence *)

Lemma payload_eq b b' :
  payload b = payload b' ->
  b_h b = b_h b' /\ nKeyLength b = nKeyLength b' /\ pData b = pData b' /\
  pDataPtr b = pDataPtr b' /\ arKey b = arKey b' /\ keybuf b = keybuf b'.
Proof. destruct b, b'. cbn. by intros [= -> -> -> -> -> ->]. Qed.

Lemma payload_key b b' : payload b = payload b' -> bucket_key b = bucket_key b'.
Proof.
  intros (Hh & Hl & _ & _ & Ha & Hk)%payload_eq.
  unfold bucket_key, key_bytes. by rewrite Hh, Hl, Ha, Hk.
Qed.

Lemma payload_val bl b b' : payload b = payload b' -> bucket_val bl b = bucket_val bl b'.
Proof. intros (_ & _ & Hd & Hp & _ & _)%payload_eq. unfold bucket_val. by rewrite Hd, Hp. Qed.

Lemma payload_ok p b b' : payload b = payload b' -> bucket_ok p b -> bucket_ok p b'.
Proof.
  intros (Hh & Hl & _ & _ & Ha & Hk)%payload_eq.
  unfold bucket_ok, key_bytes. by rewrite Hh, Hl, Ha, Hk.
Qed.

Lemma strip_hash_payload b b' : strip_hash b = strip_hash b' -> payload b = payload b'.
Proof. destruct b, b'. cbn. by intros [=]; subst. Qed.

Lemma strip_list_payload b b' : strip_list b = strip_list b' -> payload b = payload b'.
Proof. destruct b, b'. cbn. by intros [=]; subst. Qed.

Lemma strip_hash_lk b b' : strip_hash b = strip_hash b' -> lk list_links b = lk list_links b'.
Proof. destruct b, b'. cbn. by intros [=]; subst. Qed.

Lemma strip_list_lk b b' : strip_list b = strip_list b' -> lk hash_links b = lk hash_links b'.
Proof. destruct b, b'. cbn. by intros [=]; subst. Qed.

(** Two memories that agree, on [L], on one observation. *)
Definition agree {A} (f : Bucket V -> A) (m m' : gmap ptr (Bucket V)) (L : list ptr) : Prop :=
  forall p, p ∈ L -> f <$> m' !! p = f <$> m !! p.

Lemma agree_weaken {A B} (f : Bucket V -> A) (g : Bucket V -> B) m m' L :
  (forall b b', f b = f b' -> g b = g b') -> agree f m m' L -> agree g m m' L.
Proof.
  intros Hfg Ha p Hp. specialize (Ha p Hp).
  destruct (m' !! p), (m !! p); simplify_eq/=; [|done]. f_equal. eauto.
Qed.

Lemma agree_Some {A} (f : Bucket V -> A) m m' L p b' :
  agree f m m' L -> p ∈ L -> m' !! p = Some b' -> exists b, m !! p = Some b /\ f b = f b'.
Proof.
  intros Ha Hp Hb. specialize (Ha p Hp). rewrite Hb in Ha.
  destruct (m !! p) as [b|]; simplify_eq/=. by exists b.
Qed.

Lemma agree_subset {A} (f : Bucket V -> A) m m' L L' :
  L' ⊆ L -> agree f m m' L -> agree f m m' L'.
Proof. intros ? Ha p Hp. apply Ha. set_solver. Qed.

Lemma agree_sym {A} (f : Bucket V -> A) m m' L : agree f m m' L -> agree f m' m L.
Proof. intros Ha p Hp. by rewrite Ha. Qed.

Lemma agree_trans {A} (f : Bucket V -> A) m1 m2 m3 L :
  agree f m1 m2 L -> agree f m2 m3 L -> agree f m1 m3 L.
Proof. intros H1 H2 p Hp. by rewrite H2, H1. Qed.

(** The parts of the invariant that look at payloads only. *)

Lemma keys_ok_agree m m' L : agree payload m m' L -> keys_ok m L -> keys_ok m' L.
Proof.
  intros Ha HK p q bp bq Hp Hq Hbp Hbq Heq.
  destruct (agree_Some _ _ _ _ _ _ Ha Hp Hbp) as (b1 & H1 & E1).
  destruct (agree_Some _ _ _ _ _ _ Ha Hq Hbq) as (b2 & H2 & E2).
  apply payload_key in E1, E2. eapply HK; [..|]; eauto. congruence.
Qed.

Lemma blocks_ok_agree m m' L : agree payload m m' L -> blocks_ok m L -> blocks_ok m' L.
Proof.
  intros Ha HK p q bp bq a Hp Hq Hbp Hbq Hap Haq.
  destruct (agree_Some _ _ _ _ _ _ Ha Hp Hbp) as (b1 & H1 & E1).
  destruct (agree_Some _ _ _ _ _ _ Ha Hq Hbq) as (b2 & H2 & E2).
  apply payload_eq in E1, E2. destruct_and!. eapply (HK p q b1 b2 a); eauto; congruence.
Qed.

Lemma next_free_ok_agree m m' ht L :
  agree payload m m' L -> next_free_ok m ht L -> next_free_ok m' ht L.
Proof.
  intros Ha [Hr HK]. split; [done|]. intros p b' Hp Hb' Hn.
  destruct (agree_Some _ _ _ _ _ _ Ha Hp Hb') as (b & Hb & E).
  apply payload_eq in E as (E1 & E2 & _). rewrite <- E1. eapply HK; eauto. congruence.
Qed.

Lemma keys_ok_subset m L L' : L' ⊆ L -> keys_ok m L -> keys_ok m L'.
Proof. intros Hs HK p q bp bq Hp Hq. apply HK; by apply Hs. Qed.

Lemma blocks_ok_subset m L L' : L' ⊆ L -> blocks_ok m L -> blocks_ok m L'.
Proof. intros Hs HK p q bp bq a Hp Hq. apply HK; by apply Hs. Qed.

Lemma next_free_ok_subset m ht L L' : L' ⊆ L -> next_free_ok m ht L -> next_free_ok m ht L'.
Proof. intros Hs [Hr HK]. split; [done|]. intros p b Hp. apply HK. by apply Hs. Qed.

Lemma buckets_ok_subset s L L' : L' ⊆ L -> buckets_ok s L -> buckets_ok s L'.
Proof. intros Hs HK p b Hp. apply HK. by apply Hs. Qed.

(** The data blocks the table owns are the same. *)
Definition agree_blocks (s s' : store (Bucket V) V) (L : list ptr) : Prop :=
  forall a, owned s L a -> blocks s' !! a = blocks s !! a.

Lemma agree_blocks_eq s s' L : blocks s' = blocks s -> agree_blocks s s' L.
Proof. intros He a _. by rewrite He. Qed.

Lemma bucket_val_agree s s' L p b b' :
  agree_blocks s s' L -> p ∈ L -> nodes s !! p = Some b -> payload b = payload b' ->
  bucket_val (blocks s') b' = bucket_val (blocks s) b.
Proof.
  intros Ha Hp Hb He. rewrite <- (payload_val _ _ _ He). unfold bucket_val.
  destruct (pData b) eqn:Hd; [done|]. apply Ha. by exists p, b.
Qed.

Lemma buckets_ok_agree s s' L :
  agree payload (nodes s) (nodes s') L -> agree_blocks s s' L ->
  buckets_ok s L -> buckets_ok s' L.
Proof.
  intros Ha Hbl HK p b' Hp Hb'.
  destruct (agree_Some _ _ _ _ _ _ Ha Hp Hb') as (b & Hb & E).
  destruct (HK p b Hp Hb) as [Hok Hv]. split; [by eapply payload_ok|].
  by rewrite (bucket_val_agree _ _ _ _ _ _ Hbl Hp Hb E).
Qed.

Lemma entry_agree s s' L p :
  agree payload (nodes s) (nodes s') L -> agree_blocks s s' L -> p ∈ L -> entry s' p = entry s p.
Proof.
  intros Ha Hbl Hp. specialize (Ha p Hp). unfold entry.
  destruct (nodes s' !! p) as [b'|] eqn:Hb', (nodes s !! p) as [b|] eqn:Hb; [|done..].
  apply (inj Some) in Ha. simpl.
  by rewrite (payload_key _ _ Ha), (bucket_val_agree _ _ _ _ _ _ Hbl Hp Hb (eq_sym Ha)).
Qed.

Lemma contents_agree s s' L :
  agree payload (nodes s) (nodes s') L -> agree_blocks s s' L -> contents s' L = contents s L.
Proof. intros Ha Hbl. apply omap_ext_in. intros p Hp. by eapply entry_agree. Qed.

Lemma contents_app s L1 L2 : contents s (L1 ++ L2) = contents s L1 ++ contents s L2.
Proof. apply omap_app. Qed.

Lemma owned_agree s s' L a :
  agree payload (nodes s) (nodes s') L -> owned s' L a -> owned s L a.
Proof.
  intros Ha (p & b' & Hp & Hb' & Hd). destruct (agree_Some _ _ _ _ _ _ Ha Hp Hb') as (b & Hb & E).
  apply payload_eq in E as (_ & _ & E & _). exists p, b. by rewrite E.
Qed.

Lemma owned_subset s L L' a : L ⊆ L' -> owned s L a -> owned s L' a.
Proof. intros HL (p & b & ? & ?). exists p, b. split; [by apply HL|done]. Qed.

(** Every bucket of the table has an entry. *)
Lemma rep_entry s ht L p :
  ht_rep s ht L -> p ∈ L -> exists b v, nodes s !! p = Some b /\ bucket_ok p b /\
    bucket_val (blocks s) b = Some v /\ entry s p = Some (bucket_key b, v).
Proof.
  intros HR Hp. destruct (rep_order _ _ _ HR) as (HL & _).
  destruct (dll_elem _ _ _ _ HL Hp) as [b Hb].
  destruct (rep_buckets _ _ _ HR p b Hp Hb) as [Hok [v Hv]].
  exists b, v. split_and!; [done..|]. unfold entry. rewrite Hb. simpl. by rewrite Hv.
Qed.

Lemma rep_notin s ht L1 p L2 : ht_rep s ht (L1 ++ p :: L2) -> p ∉ L1 ++ L2.
Proof.
  intros HR. destruct (rep_order _ _ _ HR) as ([HND _] & _).
  apply NoDup_app in HND as (_ & Hd & [Hp _]%NoDup_cons).
  rewrite elem_of_app. intros [H|H]; [|done]. apply (Hd p H). set_solver.
Qed.

Lemma contents_cons s p L e : entry s p = Some e -> contents s (p :: L) = e :: contents s L.
Proof. intros He. unfold contents. by rewrite omap_cons, He. Qed.

Lemma contents_mid s ht L1 p L2 :
  ht_rep s ht (L1 ++ p :: L2) -> exists b v, nodes s !! p = Some b /\ bucket_ok p b /\
    bucket_val (blocks s) b = Some v /\ entry s p = Some (bucket_key b, v) /\
    contents s (L1 ++ p :: L2) = contents s L1 ++ (bucket_key b, v) :: contents s L2.
Proof.
  intros HR. destruct (rep_entry _ _ _ p HR) as (b & v & ? & ? & ? & He); [set_solver|].
  exists b, v. split_and!; [done..|]. by rewrite contents_app, (contents_cons _ _ _ _ He).
Qed.

Lemma contents_keys_elem s L k :
  k ∈ om_keys (contents s L) -> exists p b, p ∈ L /\ nodes s !! p = Some b /\ bucket_key b = k.
Proof.
  unfold om_keys, contents. intros ([k' v] & -> & (p & Hp & He)%list_elem_of_omap)%list_elem_of_fmap.
  unfold entry in He. destruct (nodes s !! p) as [b|] eqn:Hb; simplify_eq/=.
  destruct (bucket_val (blocks s) b) as [w|]; simplify_eq/=. by exists p, b.
Qed.

(** The keys of the abstract map are distinct. *)
Lemma rep_contents_keys s ht L : ht_rep s ht L -> NoDup (om_keys (contents s L)).
Proof.
  intros HR. destruct (rep_order _ _ _ HR) as ([HND _] & _). pose proof (rep_keys _ _ _ HR) as HK.
  clear HR. induction L as [|p L IH]; [constructor|]. apply NoDup_cons in HND as [Hp HND].
  assert (NoDup (om_keys (contents s L))) as HL.
  { apply IH; [done|]. intros x y bx by' ? ? ?. apply HK; [set_solver..|done]. }
  destruct (entry s p) as [[k v]|] eqn:He; [|unfold contents; by rewrite omap_cons, He].
  rewrite (contents_cons _ _ _ _ He). unfold om_keys in *. rewrite fmap_cons. apply NoDup_cons.
  split; [|done]. intros (q & bq & Hq & Hbq & Hk)%contents_keys_elem. apply Hp.
  unfold entry in He. destruct (nodes s !! p) as [b|] eqn:Hb; simplify_eq/=.
  destruct (bucket_val (blocks s) b) as [w|]; simplify_eq/=.
  rewrite (HK p q b bq); [done|set_solver|set_solver|done..].
Qed.

End rep.
