(* ===== verification/ZendHashLink.v ===== *)
(** * ZendHashLink: linking, unlinking and searching buckets

    Rules for the macros and loops of src/Zend/zend_hash.c that every operation
    is built from, and how they act on the slot part of the invariant. *)
From S2P Require Import Prelude Memory Dllist HashFunc OrderedMap ZendHash ZendHashRep.
From stdpp Require Import base list gmap.
Local Open Scope Z_scope.

Section link.
Context {V : Type} {AL : Allocator}.
Implicit Types (m : gmap ptr (Bucket V)) (b : Bucket V) (p q : ptr) (L c : list ptr).
Implicit Types (s : store (Bucket V) V) (ht : HashTable).

(** ** Index arithmetic *)

Lemma land_mask_range h k : 0 <= k -> 0 <= Z.land h (2 ^ k - 1) < 2 ^ k.
Proof.
  intros Hk. replace (2 ^ k - 1) with (Z.ones k) by (rewrite Z.ones_equiv; lia).
  rewrite Z.land_ones by done. apply Z.mod_pos_bound. lia.
Qed.

Lemma hash_index_lt ht L h : geometry_ok ht L -> (hash_index ht h < length (arBuckets ht))%nat.
Proof.
  intros [(k & Hk & Hs) [(Hm & Hl & _)|(Hm & Hl)]]; unfold hash_index; rewrite Hm.
  - rewrite Z.land_0_r. lia.
  - rewrite Hs in *. pose proof (land_mask_range h k). lia.
Qed.

Lemma hash_index_mask ht ht' h : nTableMask ht' = nTableMask ht -> hash_index ht' h = hash_index ht h.
Proof. unfold hash_index. by intros ->. Qed.

Lemma in_slot_mask m ht ht' i p : nTableMask ht' = nTableMask ht -> in_slot m ht i p -> in_slot m ht' i p.
Proof. intros Hm (b & ? & <-). exists b. split; [done|]. by apply hash_index_mask. Qed.

(** ** Search *)

Lemma wp_chain_find fuel test c0 c Q s :
  dll hash_links (nodes s) (c0 ++ c) -> (length c < fuel)%nat ->
  (forall c1 p b c2, c = c1 ++ p :: c2 -> nodes s !! p = Some b -> test b = true ->
     Q (Some p) s) ->
  ((forall p b, p ∈ c -> nodes s !! p = Some b -> test b = false) -> Q None s) ->
  wp (chain_find fuel test (head c)) Q s.
Proof.
  revert c0 c. induction fuel as [|fuel IH]; intros c0 c Hd Hlen HS HN; [lia|].
  destruct c as [|p c]; simpl.
  { apply wp_ret. apply HN. set_solver. }
  destruct (dll_lookup _ _ _ _ _ Hd) as (b & Hb & _ & Hnext).
  wp_step. wp_step. destruct (test b) eqn:Ht.
  { wp_step. by eapply (HS [] p b c). }
  change (pNext b) with (lnext hash_links b). rewrite Hnext.
  apply (IH (c0 ++ [p])).
  - by rewrite <- app_assoc.
  - simpl in Hlen. lia.
  - intros c1 q bq c2 ->. by apply (HS (p :: c1) q bq c2).
  - intros Hall. apply HN. intros q bq [->|Hq]%elem_of_cons Hbq; [congruence|eauto].
Qed.

Lemma slot_chain_length m ht L i o c :
  dll hash_links m c -> (forall p, p ∈ c <-> p ∈ L /\ in_slot m ht i p) ->
  slot_ok m ht L i o -> (length c <= length L)%nat.
Proof.
  intros [HND _] Hc _. apply submseteq_length, NoDup_submseteq; [done|]. set_solver.
Qed.

(** A search for the key [k] under a hash [h] that all buckets with that key
    have finds the bucket with that key, if there is one. *)
Lemma wp_chain_search ht L test k h Q s :
  ht_rep s ht L ->
  (forall p b, p ∈ L -> nodes s !! p = Some b -> test b = bool_decide (bucket_key b = k)) ->
  (forall p b, p ∈ L -> nodes s !! p = Some b -> bucket_key b = k -> b_h b = h) ->
  (forall L1 p L2 b, L = L1 ++ p :: L2 -> nodes s !! p = Some b -> bucket_key b = k ->
     Q (Some p) s) ->
  ((forall p b, p ∈ L -> nodes s !! p = Some b -> bucket_key b <> k) -> Q None s) ->
  wp (chain_search ht test h) Q s.
Proof.
  intros HR Htest Hh HS HN. unfold chain_search, read_slot.
  destruct (rep_order _ _ _ HR) as (HL & _ & _ & Hn & _).
  pose proof (hash_index_lt ht L h (rep_geometry _ _ _ HR)) as Hi.
  apply lookup_lt_is_Some in Hi as [o Ho]. rewrite Ho. wp_steps.
  destruct (rep_slots _ _ _ HR _ _ Ho) as (c & -> & Hc & Hin).
  apply (wp_chain_find _ _ [] c); [done| | |].
  - unfold loop_bound. rewrite Hn, Nat2Z.id.
    pose proof (slot_chain_length _ _ _ _ _ _ Hc Hin (rep_slots _ _ _ HR _ _ Ho)). lia.
  - intros c1 p b c2 -> Hb Ht. assert (p ∈ L) as Hp by (apply Hin; set_solver).
    rewrite (Htest p b Hp Hb) in Ht. apply bool_decide_eq_true in Ht.
    apply list_elem_of_split in Hp as (L1 & L2 & ->). by eapply HS.
  - intros Hall. apply HN. intros p b Hp Hb Hk.
    assert (p ∈ c) as Hpc.
    { apply Hin. split; [done|]. exists b. split; [done|]. by rewrite (Hh p b). }
    specialize (Hall p b Hpc Hb). rewrite (Htest p b Hp Hb) in Hall.
    by apply bool_decide_eq_false in Hall.
Qed.

(** ** Linking into a chain *)

Lemma wp_connect_bucket p b c Q s :
  nodes s !! p = Some b -> p ∉ c -> dll hash_links (nodes s) c ->
  (forall m', dll hash_links m' (p :: c) ->
     (forall q, q ∉ p :: c -> m' !! q = nodes s !! q) ->
     (forall q, strip_hash <$> m' !! q = strip_hash <$> nodes s !! q) ->
     Q tt (set_nodes m' s)) ->
  wp (CONNECT_TO_BUCKET_DLLIST p (head c)) Q s.
Proof.
  intros Hb Hp Hc HQ. unfold CONNECT_TO_BUCKET_DLLIST.
  apply wp_bind, (wp_update _ b); [done|]. simpl.
  apply wp_bind, (wp_update _ (set_pNext (head c) b)).
  { simpl. by rewrite lookup_alter, decide_True, Hb. }
  simpl. set (m1 := alter (set_pLast None) p (alter (set_pNext (head c)) p (nodes s))).
  assert (m1 !! p = Some (set_pLast None (set_pNext (head c) b))) as Hm1.
  { unfold m1. rewrite !lookup_alter, !decide_True by done. by rewrite Hb. }
  assert (forall q, q <> p -> m1 !! q = nodes s !! q) as Hne.
  { intros q Hq. unfold m1. by rewrite !lookup_alter_ne. }
  assert (dll hash_links m1 c) as Hc1.
  { eapply dll_frame; [|done]. intros q Hq. rewrite Hne; [done|]. by intros ->. }
  apply wp_update_opt.
  { simpl. intros q Hq%head_Some_elem_of. by apply (dll_elem _ _ _ _ Hc1). }
  simpl. apply (HQ (relink hash_links None (Some p) (head c) (Some p) m1)).
  - by eapply (dll_link hash_links m1 [] p c).
  - intros q Hq. unfold relink. simpl. rewrite lookup_alter_opt_ne, Hne; [done|set_solver|].
    intros Hh%head_Some_elem_of. set_solver.
  - intros q. rewrite relink_obs; [|by intros ? []|by intros ? []].
    destruct (decide (q = p)) as [->|Hq]; [|by rewrite Hne].
    rewrite Hm1, Hb. by destruct b.
Qed.

(** ** Linking into the order list *)

Definition set_ends (L : list ptr) (ht : HashTable) : HashTable :=
  set_pListTail (last L) (set_pListHead (head L) ht).

Lemma set_ends_match ht L1 p L2 :
  pListHead ht = head (L1 ++ L2) -> pListTail ht = last (L1 ++ L2) ->
  set_ends (L1 ++ p :: L2) ht =
    match head L2 with
    | Some _ => match last L1 with Some _ => ht | None => set_pListHead (Some p) ht end
    | None => set_pListTail (Some p) match last L1 with Some _ => ht | None => set_pListHead (Some p) ht end
    end.
Proof.
  unfold set_ends. destruct ht; simpl; intros -> ->.
  rewrite last_app_cons, last_app, !last_cons.
  destruct L1 as [|x L1], L2 as [|y L2]; simpl; rewrite ?last_cons;
    repeat destruct (last _); done.
Qed.

Lemma wp_connect_global_ex p b ht L1 L2 Q s :
  nodes s !! p = Some b -> p ∉ L1 ++ L2 -> dll list_links (nodes s) (L1 ++ L2) ->
  pListHead ht = head (L1 ++ L2) -> pListTail ht = last (L1 ++ L2) ->
  (forall m', dll list_links m' (L1 ++ p :: L2) ->
     (forall q, q ∉ L1 ++ p :: L2 -> m' !! q = nodes s !! q) ->
     (forall q, strip_list <$> m' !! q = strip_list <$> nodes s !! q) ->
     Q (set_ends (L1 ++ p :: L2) ht) (set_nodes m' s)) ->
  wp (CONNECT_TO_GLOBAL_DLLIST_EX p ht (last L1) (head L2)) Q s.
Proof.
  intros Hb Hp HL Hhd Htl HQ. unfold CONNECT_TO_GLOBAL_DLLIST_EX.
  apply wp_bind, (wp_update _ b); [done|]. simpl.
  apply wp_bind, (wp_update _ (set_pListLast (last L1) b)).
  { simpl. by rewrite lookup_alter, decide_True, Hb. }
  simpl. set (m1 := alter (set_pListNext (head L2)) p (alter (set_pListLast (last L1)) p (nodes s))).
  assert (m1 !! p = Some (set_pListNext (head L2) (set_pListLast (last L1) b))) as Hm1.
  { unfold m1. rewrite !lookup_alter, !decide_True by done. by rewrite Hb. }
  assert (forall q, q <> p -> m1 !! q = nodes s !! q) as Hne.
  { intros q Hq. unfold m1. by rewrite !lookup_alter_ne. }
  assert (dll list_links m1 (L1 ++ L2)) as Hc1.
  { eapply dll_frame; [|done]. intros q Hq. rewrite Hne; [done|]. by intros ->. }
  apply wp_bind, wp_update_opt.
  { simpl. intros q Hq%last_Some_elem_of. apply (dll_elem _ _ _ _ Hc1). set_solver. }
  simpl. apply wp_bind, wp_update_opt.
  { simpl. intros q Hq%head_Some_elem_of. apply elem_of_dom. rewrite dom_alter_opt.
    apply elem_of_dom, (dll_elem _ _ _ _ Hc1). set_solver. }
  simpl. apply wp_ret.
  assert (set_ends (L1 ++ p :: L2) ht =
    match head L2 with
    | Some _ => match last L1 with Some _ => ht | None => set_pListHead (Some p) ht end
    | None => set_pListTail (Some p) match last L1 with Some _ => ht | None => set_pListHead (Some p) ht end
    end) as <-.
  { by apply set_ends_match. }
  apply (HQ (relink list_links (last L1) (Some p) (head L2) (Some p) m1)).
  - by eapply (dll_link list_links m1 L1 p L2).
  - intros q Hq. unfold relink. simpl. rewrite !lookup_alter_opt_ne, Hne; [done|set_solver| |].
    + intros Hh%last_Some_elem_of. set_solver.
    + intros Hh%head_Some_elem_of. set_solver.
  - intros q. rewrite relink_obs; [|by intros ? []|by intros ? []].
    destruct (decide (q = p)) as [->|Hq]; [|by rewrite Hne].
    rewrite Hm1, Hb. by destruct b.
Qed.

(** ** The slot part of the invariant *)

Definition chain_obs (b : Bucket V) : (option ptr * option ptr) * Z := (lk hash_links b, b_h b).

Lemma strip_list_chain_obs b b' : strip_list b = strip_list b' -> chain_obs b = chain_obs b'.
Proof.
  intros He. unfold chain_obs. rewrite (strip_list_lk _ _ He).
  apply strip_list_payload, payload_eq in He as (-> & _). done.
Qed.

Lemma agree_all {A} (f : Bucket V -> A) m m' L :
  (forall q, f <$> m' !! q = f <$> m !! q) -> agree f m m' L.
Proof. by intros Ha p _. Qed.

Lemma in_slot_agree m m' ht i L p :
  agree b_h m m' L -> p ∈ L -> in_slot m' ht i p -> in_slot m ht i p.
Proof.
  intros Ha Hp (b' & Hb' & <-).
  destruct (agree_Some _ _ _ _ _ _ Ha Hp Hb') as (b & Hb & He). exists b. by rewrite He.
Qed.

Lemma slot_ok_agree m m' ht ht' L i o :
  agree chain_obs m m' L -> nTableMask ht' = nTableMask ht ->
  slot_ok m ht L i o -> slot_ok m' ht' L i o.
Proof.
  intros Ha Hm (c & -> & Hc & Hin).
  assert (agree b_h m m' L) as Hh.
  { eapply (agree_weaken chain_obs); [|done]. intros ? ? He. exact (f_equal snd He). }
  exists c. split_and!; [done| |].
  - eapply dll_frame; [|done]. intros p Hp.
    assert (agree (lk hash_links) m m' L) as Hl.
    { eapply (agree_weaken chain_obs); [|done]. intros ? ? He. exact (f_equal fst He). }
    apply Hl. by apply Hin.
  - intros p. rewrite Hin. split; intros [Hp Hs]; (split; [done|]).
    + eapply in_slot_mask; [done|]. eapply in_slot_agree; [by apply agree_sym|done|done].
    + eapply in_slot_agree; [done..|]. by eapply in_slot_mask.
Qed.

Lemma slots_ok_agree m m' ht ht' L :
  agree chain_obs m m' L -> nTableMask ht' = nTableMask ht -> arBuckets ht' = arBuckets ht ->
  slots_ok m ht L -> slots_ok m' ht' L.
Proof. intros Ha Hm Hs HL i o. rewrite Hs. intros Hi. eapply slot_ok_agree; eauto. Qed.

Lemma slots_insert m m' ht L L' p b i c :
  slots_ok m ht L -> p ∉ L -> (forall q, q ∈ L' <-> q ∈ L \/ q = p) ->
  m !! p = Some b -> hash_index ht (b_h b) = i ->
  (forall q, q ∈ c <-> q ∈ L /\ in_slot m ht i q) ->
  dll hash_links m' (p :: c) ->
  (forall q, q ∉ p :: c -> m' !! q = m !! q) ->
  (forall q, strip_hash <$> m' !! q = strip_hash <$> m !! q) ->
  slots_ok m' (set_arBuckets (<[i := Some p]> (arBuckets ht)) ht) L'.
Proof.
  intros HS Hp HL' Hb Hi Hc Hd Hout Hobs j o. simpl.
  assert (forall q, in_slot m' ht j q <-> in_slot m ht j q) as Hslot.
  { intros q. assert (agree b_h m m' [q]) as Ha.
    { eapply agree_weaken; [|by apply agree_all]. by intros ? ? (? & _)%strip_hash_payload%payload_eq. }
    split; [apply (in_slot_agree _ _ _ _ [q])|apply (in_slot_agree _ _ _ _ [q])];
      [done|set_solver|by apply agree_sym|set_solver]. }
  assert (forall q, in_slot m' (set_arBuckets (<[i:=Some p]> (arBuckets ht)) ht) j q <->
    in_slot m ht j q) as Hslot'.
  { intros q. rewrite <- Hslot. split; by apply in_slot_mask. }
  assert (in_slot m ht i p) as Hpi by by exists b.
  destruct (decide (j = i)) as [->|Hji].
  - intros Hlk. assert (o = Some p) as ->.
    { rewrite list_lookup_insert in Hlk. case_decide; [by destruct_and!; simplify_eq|].
      apply lookup_lt_Some in Hlk. naive_solver. }
    exists (p :: c). split_and!; [done|done|]. intros q. rewrite Hslot', elem_of_cons, Hc, HL'.
    naive_solver.
  - rewrite list_lookup_insert_ne by done. intros Hlk.
    destruct (HS j o Hlk) as (c' & -> & Hd' & Hc'). exists c'. split_and!; [done| |].
    + eapply dll_frame; [|done]. intros q Hq. rewrite Hout; [done|].
      intros [->|Hqc]%elem_of_cons; [by apply Hp, Hc'|].
      apply Hc in Hqc as [_ (b1 & H1 & E1)]. apply Hc' in Hq as [_ (b2 & H2 & E2)]. congruence.
    + intros q. rewrite Hslot', HL', Hc'. split; [naive_solver|].
      intros [[?| ->] Hs]; [done|]. destruct Hs as (b1 & ? & E1). congruence.
Qed.

(** The slot after the removal of [p] from the chain [c1 ++ p :: c2]. *)
Lemma slots_delete m m' ht arB L L' p b i c1 c2 :
  slots_ok m ht L -> p ∈ L -> (forall q, q ∈ L' <-> q ∈ L /\ q <> p) ->
  m !! p = Some b -> hash_index ht (b_h b) = i ->
  (forall q, q ∈ c1 ++ p :: c2 <-> q ∈ L /\ in_slot m ht i q) ->
  NoDup (c1 ++ p :: c2) ->
  arB = match c1 with [] => <[i := head c2]> (arBuckets ht) | _ => arBuckets ht end ->
  arBuckets ht !! i = Some (head (c1 ++ p :: c2)) ->
  dll hash_links m' (c1 ++ c2) ->
  (forall q, q ∈ L' -> q ∉ c1 ++ c2 -> chain_obs <$> m' !! q = chain_obs <$> m !! q) ->
  (forall q, q ∈ L' -> b_h <$> m' !! q = b_h <$> m !! q) ->
  slots_ok m' (set_arBuckets arB ht) L'.
Proof.
  intros HS Hp HL' Hb Hi Hc HND -> Hslot0 Hd Hout Hobs j o Hlk. simpl in Hlk.
  set (ht' := set_arBuckets _ ht).
  assert (forall q, q ∈ L' -> in_slot m' ht' j q <-> in_slot m ht j q) as Hslot.
  { intros q Hq. assert (agree b_h m m' L') as Ha by (intros x Hx; by apply Hobs).
    split; intros Hs.
    - eapply in_slot_agree; [exact Ha|done|]. by eapply in_slot_mask; [|exact Hs].
    - eapply in_slot_mask; [|eapply in_slot_agree; [apply agree_sym; exact Ha|done|exact Hs]]. done. }
  destruct (decide (j = i)) as [->|Hji].
  - exists (c1 ++ c2). split_and!; [|done|].
    + destruct c1 as [|x c1]; simpl in *.
      * rewrite list_lookup_insert in Hlk. case_decide; [by destruct_and!; simplify_eq|].
        apply lookup_lt_Some in Hlk. naive_solver.
      * congruence.
    + intros q. assert (q ∈ c1 ++ c2 <-> q ∈ c1 ++ p :: c2 /\ q <> p) as ->.
      { apply NoDup_app in HND as (? & ? & [? ?]%NoDup_cons). set_solver. }
      rewrite Hc. split.
      * intros [[? ?] ?]. assert (q ∈ L') by by apply HL'. split; [done|]. by apply Hslot.
      * intros [Hq Hs]. apply Hslot in Hs; [|done]. apply HL' in Hq. naive_solver.
  - assert (arBuckets ht !! j = Some o) as Hlk'.
    { destruct c1; [by rewrite list_lookup_insert_ne in Hlk|done]. }
    destruct (HS j o Hlk') as (c' & -> & Hd' & Hc').
    assert (forall q, q ∈ c' -> q ∉ c1 ++ p :: c2) as Hdisj.
    { intros q [_ (bq & H1 & E1)]%Hc' [_ (bq' & H2 & E2)]%Hc. congruence. }
    assert (forall q, q ∈ c' -> q ∈ L') as Hsub.
    { intros q Hq. apply HL'. split; [by apply Hc'|]. intros ->. apply (Hdisj p Hq). set_solver. }
    exists c'. split_and!; [done| |].
    + eapply dll_frame; [|done]. intros q Hq.
      assert (chain_obs <$> m' !! q = chain_obs <$> m !! q) as He.
      { apply Hout; [by apply Hsub|]. specialize (Hdisj q Hq). set_solver. }
      assert (agree (lk hash_links) m m' [q]) as Ha.
      { eapply (agree_weaken chain_obs); [intros ? ? He'; exact (f_equal fst He')|].
        intros x Hx%list_elem_of_singleton. by subst. }
      apply Ha. set_solver.
    + intros q. split.
      * intros Hq. split; [by apply Hsub|]. apply Hslot; [by apply Hsub|]. by apply Hc'.
      * intros [Hq Hs]. apply Hslot in Hs; [|done]. apply Hc'. split; [|done]. by apply HL'.
Qed.

End link.
