(* ===== verification/ZendHashDelete.v ===== *)
(** * ZendHashDelete: taking buckets out of a table

    The rule for [i_zend_hash_bucket_delete], from which deletion by key,
    [zend_hash_clean], the destroy functions and the apply functions follow. *)
From S2P Require Import Prelude Memory Dllist HashFunc OrderedMap ZendHash ZendHashRep ZendHashLink.
From stdpp Require Import base list gmap.
Local Open Scope Z_scope.

Section delete.
Context {V : Type} {AL : Allocator}.
Implicit Types (m : gmap ptr (Bucket V)) (b : Bucket V) (p q : ptr) (L c : list ptr).
Implicit Types (s : store (Bucket V) V) (ht : HashTable).

(** The struct after the removal of [p] from [L1 ++ p :: L2]. *)
Definition deleted_ht (ht : HashTable) (L1 : list ptr) (p : ptr) (L2 : list ptr)
    (arB : list (option ptr)) : HashTable :=
  set_nNumOfElements (u32 (nNumOfElements ht - 1))
    (set_pInternalPointer
       (if decide (pInternalPointer ht = Some p) then head L2 else pInternalPointer ht)
       (set_ends (L1 ++ L2) (set_arBuckets arB ht))).

(** The bucket memory after it. *)
Definition deleted_nodes (m : gmap ptr (Bucket V)) c1 c2 L1 p L2 : gmap ptr (Bucket V) :=
  delete p (relink list_links (last L1) (head L2) (head L2) (last L1)
             (relink hash_links (last c1) (head c2) (head c2) (last c1) m)).

Lemma set_ends_unlink ht L1 p L2 :
  pListHead ht = head (L1 ++ p :: L2) -> pListTail ht = last (L1 ++ p :: L2) ->
  set_ends (L1 ++ L2) ht =
    match head L2 with
    | Some _ => match last L1 with Some _ => ht | None => set_pListHead (head L2) ht end
    | None => set_pListTail (last L1) match last L1 with Some _ => ht | None => set_pListHead (head L2) ht end
    end.
Proof.
  unfold set_ends. destruct ht; simpl; intros -> ->.
  rewrite last_app_cons, last_app, !last_cons.
  destruct L1 as [|x L1], L2 as [|y L2]; simpl; rewrite ?last_cons;
    repeat destruct (last _); done.
Qed.

(** [wp] of the two field writes that take a node out of a doubly linked list,
    the previous node's and the next node's. *)
Lemma lookup_relink_notin (k : links (Bucket V)) a v z w m p :
  a <> Some p -> z <> Some p -> relink k a v z w m !! p = m !! p.
Proof. intros. unfold relink. by rewrite !lookup_alter_opt_ne. Qed.

Lemma last_ne c1 p c2 : NoDup (c1 ++ p :: c2) -> last c1 <> Some p.
Proof. intros (_ & H & _)%NoDup_app Hl%last_Some_elem_of. apply (H p Hl). set_solver. Qed.

Lemma head_ne c1 p c2 : NoDup (c1 ++ p :: c2) -> head c2 <> Some p.
Proof. intros (_ & _ & [H _]%NoDup_cons)%NoDup_app ?%head_Some_elem_of. done. Qed.

(** The writes of the function, in order, on concrete positions. *)
Lemma wp_delete_run ht c1 c2 L1 p L2 b v Q s :
  nodes s !! p = Some b ->
  dll hash_links (nodes s) (c1 ++ p :: c2) -> dll list_links (nodes s) (L1 ++ p :: L2) ->
  arBuckets ht !! hash_index ht (b_h b) = Some (head (c1 ++ p :: c2)) ->
  pListHead ht = head (L1 ++ p :: L2) -> pListTail ht = last (L1 ++ p :: L2) ->
  bucket_val (blocks s) b = Some v ->
  (forall arB, arB = match c1 with
                     | [] => <[hash_index ht (b_h b) := head c2]> (arBuckets ht)
                     | _ => arBuckets ht
                     end ->
     Q (deleted_ht ht L1 p L2 arB)
       (Store (deleted_nodes (nodes s) c1 c2 L1 p L2)
          (match pData b with AtBlock a => delete a (blocks s) | AtDataPtr => blocks s end)
          (dtor_trace s ++ if pDestructor ht then [v] else []))) ->
  wp (i_zend_hash_bucket_delete ht p) Q s.
Proof.
  intros Hb Hc HL Hslot Hhd Htl Hv HQ. unfold i_zend_hash_bucket_delete.
  destruct (dll_lookup _ _ _ _ _ Hc) as (b' & Hb1 & Hlast & Hnext).
  destruct (dll_lookup _ _ _ _ _ HL) as (b'' & Hb2 & HLlast & HLnext).
  assert (b' = b) as -> by congruence. assert (b'' = b) as -> by congruence.
  simpl in Hlast, Hnext, HLlast, HLnext.
  pose proof (proj1 Hc) as HNDc. pose proof (proj1 HL) as HNDL.
  pose proof (last_ne _ _ _ HNDc). pose proof (head_ne _ _ _ HNDc).
  pose proof (last_ne _ _ _ HNDL). pose proof (head_ne _ _ _ HNDL).
  set (arB := match c1 with
              | [] => <[hash_index ht (b_h b) := head c2]> (arBuckets ht)
              | _ => arBuckets ht
              end) in *.
  wp_step. wp_step. rewrite Hlast, Hnext, HLlast, HLnext.
  (* the chain *)
  apply wp_bind. apply (wp_mono _ (fun ht' s' => ht' = set_arBuckets arB ht /\
    s' = set_nodes (alter_opt (set_lnext hash_links (head c2)) (last c1) (nodes s)) s)).
  { unfold arB. destruct (last c1) as [l|] eqn:Hl1.
    - apply last_Some_elem_of in Hl1 as Hin. destruct c1 as [|x c1]; [set_solver|].
      destruct (dll_elem _ _ _ l Hc) as [bl Hbl]; [set_solver|].
      wp_step. eapply wp_update; [done|]. wp_step. split; [by destruct ht|done].
    - apply last_None in Hl1 as ->. unfold write_slot. simpl in *. rewrite Hslot. wp_step.
      split; [done|by destruct s]. }
  intros ht1 s1 [-> ->]. apply wp_bind, wp_update_opt.
  { simpl. intros q Hq%head_Some_elem_of. apply elem_of_dom. rewrite dom_alter_opt.
    apply elem_of_dom, (dll_elem _ _ _ _ Hc). set_solver. }
  simpl. set (m1 := relink hash_links (last c1) (head c2) (head c2) (last c1) (nodes s)).
  change (alter_opt (set_pLast (last c1)) (head c2)
    (alter_opt (set_pNext (head c2)) (last c1) (nodes s))) with m1.
  assert (dll list_links m1 (L1 ++ p :: L2)) as HL1 by by apply dll_relink_apart; [apply _|].
  (* the order list *)
  apply wp_bind. apply (wp_mono _ (fun ht' s' =>
    ht' = match last L1 with Some _ => set_arBuckets arB ht
          | None => set_pListHead (head L2) (set_arBuckets arB ht) end /\
    s' = set_nodes (alter_opt (set_lnext list_links (head L2)) (last L1) m1) s)).
  { destruct (last L1) as [l|] eqn:Hl1.
    - apply last_Some_elem_of in Hl1 as Hin.
      destruct (dll_elem _ _ _ l HL1) as [bl Hbl]; [set_solver|].
      wp_step. eapply wp_update; [done|]. wp_step. done.
    - wp_step. done. }
  intros ht2 s2 [-> ->]. set (ht2 := match last L1 with Some _ => _ | None => _ end).
  set (m2 := relink list_links (last L1) (head L2) (head L2) (last L1) m1).
  apply wp_bind. apply (wp_mono _ (fun ht' s' =>
    ht' = set_ends (L1 ++ L2) (set_arBuckets arB ht) /\ s' = set_nodes m2 s)).
  { rewrite (set_ends_unlink _ _ p) by done. fold ht2. destruct (head L2) as [n|] eqn:Hn1.
    - apply head_Some_elem_of in Hn1 as Hin.
      assert (is_Some (alter_opt (set_lnext list_links (head L2)) (last L1) m1 !! n)) as [bl Hbl].
      { apply elem_of_dom. rewrite dom_alter_opt. apply elem_of_dom, (dll_elem _ _ _ _ HL1).
        set_solver. }
      wp_step. eapply wp_update; [simpl; by rewrite ?Hn1 in Hbl|]. wp_step. split; [done|].
      unfold m2, relink. by rewrite ?Hn1.
    - wp_step. split; [done|]. unfold m2, relink. by rewrite ?Hn1. }
  intros ht3 s3 [-> ->].
  assert (m2 !! p = Some b) as Hm2p.
  { unfold m2, m1. by rewrite !lookup_relink_notin. }
  cbv zeta. set (htI := if decide (_ = Some p) then _ else _).
  assert (htI = set_pInternalPointer
    (if decide (pInternalPointer ht = Some p) then head L2 else pInternalPointer ht)
    (set_ends (L1 ++ L2) (set_arBuckets arB ht))) as HhtI.
  { unfold htI. simpl. case_decide; [done|]. by destruct ht. }
  assert (pDestructor (set_nNumOfElements (u32 (nNumOfElements htI - 1)) htI) = pDestructor ht) as Hdt.
  { by rewrite HhtI. }
  simpl in Hdt. rewrite Hdt.
  (* the destructor *)
  apply wp_bind. apply (wp_mono _ (fun _ s' => s' =
    Store m2 (blocks s) (dtor_trace s ++ if pDestructor ht then [v] else []))).
  { destruct (pDestructor ht).
    - unfold load_data. apply wp_bind, wp_bind. eapply wp_load; [done|]. unfold bucket_val in Hv.
      destruct (pData b).
      + rewrite Hv. wp_steps. done.
      + eapply wp_load_block; [done|]. wp_steps. done.
    - wp_step. by rewrite app_nil_r. }
  intros [] s4 ->. apply wp_bind.
  apply (wp_mono _ (fun _ s' => s' = Store m2
    match pData b with AtBlock a => delete a (blocks s) | AtDataPtr => blocks s end
    (dtor_trace s ++ if pDestructor ht then [v] else []))).
  { unfold bucket_val in Hv. destruct (pData b); [by wp_step|]. by eapply wp_free_block. }
  intros [] s5 ->. apply wp_bind. eapply wp_free_node; [done|]. wp_step. rewrite HhtI. by apply HQ.
Qed.

(** ** The invariant after a deletion *)

Section deleted.
Context (s : store (Bucket V) V) (ht : HashTable) (L1 : list ptr) (p : ptr) (L2 : list ptr).
Context (c1 c2 : list ptr) (b : Bucket V) (tr : list V).
Hypothesis HR : ht_rep s ht (L1 ++ p :: L2).
Hypothesis Hb : nodes s !! p = Some b.
Hypothesis Hc : dll hash_links (nodes s) (c1 ++ p :: c2).
Hypothesis Hin : forall q, q ∈ c1 ++ p :: c2 <->
  q ∈ L1 ++ p :: L2 /\ in_slot (nodes s) ht (hash_index ht (b_h b)) q.
Hypothesis Hslot : arBuckets ht !! hash_index ht (b_h b) = Some (head (c1 ++ p :: c2)).

Let arB := match c1 with
           | [] => <[hash_index ht (b_h b) := head c2]> (arBuckets ht)
           | _ => arBuckets ht
           end.
Let m' := deleted_nodes (nodes s) c1 c2 L1 p L2.
Let s' := Store m' match pData b with AtBlock a => delete a (blocks s) | AtDataPtr => blocks s end tr.

Lemma del_dll : dll list_links (nodes s) (L1 ++ p :: L2).
Proof. apply (rep_order _ _ _ HR). Qed.

Lemma del_notin : p ∉ L1 ++ L2.
Proof. exact (rep_notin _ _ _ _ _ HR). Qed.

Lemma del_subset : L1 ++ L2 ⊆ L1 ++ p :: L2.
Proof. set_solver. Qed.

Lemma del_payload q : q <> p -> payload <$> m' !! q = payload <$> nodes s !! q.
Proof.
  intros Hq. unfold m', deleted_nodes. rewrite lookup_delete_ne by done.
  rewrite relink_obs; [|by intros ? []|by intros ? []].
  apply relink_obs; by intros ? [].
Qed.

Lemma del_agree : agree payload (nodes s) m' (L1 ++ L2).
Proof. intros q Hq. apply del_payload. intros ->. by apply del_notin. Qed.

Lemma del_blocks : agree_blocks s s' (L1 ++ L2).
Proof.
  intros a (q & bq & Hq & Hbq & Hd). simpl. destruct (pData b) as [|a'] eqn:Hdb; [done|].
  apply lookup_delete_ne. intros ->. apply del_notin.
  by rewrite (rep_blocks _ _ _ HR p q b bq a); [|set_solver|set_solver|..].
Qed.

Lemma del_order_dll : dll list_links m' (L1 ++ L2).
Proof.
  apply dll_delete_notin; [apply del_notin|]. eapply dll_unlink; [apply _|].
  apply dll_relink_apart; [apply _|apply del_dll].
Qed.

Lemma del_chain_dll : dll hash_links m' (c1 ++ c2).
Proof.
  apply dll_delete_notin.
  { destruct Hc as [(? & ? & [? ?]%NoDup_cons)%NoDup_app _]. set_solver. }
  apply dll_relink_apart; [apply _|]. by eapply dll_unlink; [apply _|].
Qed.

Lemma del_chain_obs q :
  q ∈ L1 ++ L2 -> q ∉ c1 ++ c2 -> chain_obs <$> m' !! q = chain_obs <$> nodes s !! q.
Proof.
  intros Hq Hqc. assert (q <> p) as Hqp by (intros ->; by apply del_notin).
  unfold m', deleted_nodes. rewrite lookup_delete_ne by done.
  rewrite relink_obs; [|by intros ? []|by intros ? []].
  rewrite lookup_relink_notin; [done| |].
  - intros ?%last_Some_elem_of. set_solver.
  - intros ?%head_Some_elem_of. set_solver.
Qed.

Lemma del_slots : slots_ok m' (set_arBuckets arB ht) (L1 ++ L2).
Proof.
  eapply (slots_delete (nodes s) m' ht arB (L1 ++ p :: L2) (L1 ++ L2) p b).
  - apply (rep_slots _ _ _ HR).
  - set_solver.
  - pose proof del_notin. set_solver.
  - done.
  - done.
  - exact Hin.
  - apply Hc.
  - done.
  - done.
  - apply del_chain_dll.
  - apply del_chain_obs.
  - apply (agree_weaken payload); [|apply del_agree]. by intros ? ? (? & _)%payload_eq.
Qed.

Lemma del_length : nNumOfElements ht = Z.of_nat (length (L1 ++ L2)) + 1.
Proof.
  destruct (rep_order _ _ _ HR) as (_ & _ & _ & -> & _). rewrite !length_app. simpl. lia.
Qed.

Lemma del_rep : ht_rep s' (deleted_ht ht L1 p L2 arB) (L1 ++ L2).
Proof.
  pose proof del_length as Hn. destruct (rep_order _ _ _ HR) as (_ & _ & _ & Hc0 & Hlt).
  split.
  - split_and!; simpl.
    + apply del_order_dll.
    + done.
    + done.
    + rewrite wrap_u_small; [lia|]. rewrite Hc0 in Hn. lia.
    + rewrite Hc0 in Hn. lia.
  - destruct (rep_geometry _ _ _ HR) as [Hk [(_ & _ & ?)|[Hm Hl]]].
    { by destruct L1. }
    split; [done|]. right. split; [done|]. simpl. unfold arB. destruct c1; [|done].
    by rewrite length_insert.
  - eapply (slots_ok_agree m'); [..|apply del_slots]; [|done..]. by intros q.
  - eapply keys_ok_agree; [apply del_agree|].
    eapply keys_ok_subset; [apply del_subset|apply (rep_keys _ _ _ HR)].
  - eapply (buckets_ok_agree s); [apply del_agree|apply del_blocks|].
    eapply buckets_ok_subset; [apply del_subset|apply (rep_buckets _ _ _ HR)].
  - eapply blocks_ok_agree; [apply del_agree|].
    eapply blocks_ok_subset; [apply del_subset|apply (rep_blocks _ _ _ HR)].
  - eapply (next_free_ok_agree (nodes s)); [apply del_agree|].
    eapply (next_free_ok_subset _ ht); [apply del_subset|apply (rep_next _ _ _ HR)].
  - intros q. simpl. case_decide as Hp.
    + intros ?%head_Some_elem_of. set_solver.
    + intros Hq. pose proof (rep_internal _ _ _ HR q Hq). set_solver.
Qed.

Lemma del_contents : contents s' (L1 ++ L2) = contents s (L1 ++ L2).
Proof. apply contents_agree; [apply del_agree|apply del_blocks]. Qed.

Lemma del_lookup_rest q : q ∉ L1 ++ L2 -> q <> p -> m' !! q = nodes s !! q.
Proof.
  intros Hq Hqp. unfold m', deleted_nodes. rewrite lookup_delete_ne by done.
  assert (q ∉ c1 ++ p :: c2) as Hqc by (rewrite Hin; set_solver).
  rewrite !lookup_relink_notin; [done|..].
  - intros ?%last_Some_elem_of. set_solver.
  - intros ?%head_Some_elem_of. set_solver.
  - intros ?%last_Some_elem_of. set_solver.
  - intros ?%head_Some_elem_of. set_solver.
Qed.

Lemma del_owned a : owned s (L1 ++ p :: L2) a <-> owned s' (L1 ++ L2) a \/ pData b = AtBlock a.
Proof.
  split.
  - intros (q & bq & Hq & Hbq & Hd). destruct (decide (q = p)) as [->|Hqp].
    { right. congruence. }
    left. apply (owned_agree s' s); [apply agree_sym, del_agree|].
    exists q, bq. split_and!; [set_solver|done..].
  - intros [Ho|Hd].
    + apply (owned_subset _ (L1 ++ L2)); [apply del_subset|].
      apply (owned_agree s s'); [apply del_agree|exact Ho].
    + exists p, b. set_solver.
Qed.

Lemma del_same_rest : same_rest s (L1 ++ p :: L2) s' (L1 ++ L2).
Proof.
  split.
  - intros q bq. simpl. split.
    + intros [Hq Hn]. assert (q <> p) as Hqp.
      { intros ->. unfold m', deleted_nodes in Hq. by rewrite lookup_delete_eq in Hq. }
      rewrite del_lookup_rest in Hq by done. set_solver.
    + intros [Hq Hn]. rewrite del_lookup_rest by set_solver. set_solver.
  - intros a v. rewrite del_owned. simpl. split.
    + intros [Hv Hno]. destruct (pData b) as [|a'] eqn:Hd; [naive_solver|].
      apply lookup_delete_Some in Hv as [? Hv]. naive_solver.
    + intros [Hv Hno]. split; [|naive_solver]. destruct (pData b) as [|a'] eqn:Hd; [done|].
      rewrite lookup_delete_ne; [done|]. intros ->. naive_solver.
Qed.

End deleted.

(** ** The rule *)

Lemma wp_bucket_delete ht L1 p L2 Q s :
  ht_rep s ht (L1 ++ p :: L2) ->
  (forall b v s' arB, nodes s !! p = Some b -> entry s p = Some (bucket_key b, v) ->
     ht_rep s' (deleted_ht ht L1 p L2 arB) (L1 ++ L2) ->
     contents s' (L1 ++ L2) = contents s (L1 ++ L2) ->
     same_rest s (L1 ++ p :: L2) s' (L1 ++ L2) ->
     dtor_trace s' = dtor_trace s ++ (if pDestructor ht then [v] else []) ->
     Q (deleted_ht ht L1 p L2 arB) s') ->
  wp (i_zend_hash_bucket_delete ht p) Q s.
Proof.
  intros HR HQ. destruct (contents_mid _ _ _ _ _ HR) as (b & v & Hb & _ & Hv & He & _).
  pose proof (hash_index_lt ht _ (b_h b) (rep_geometry _ _ _ HR)) as Hi.
  apply lookup_lt_is_Some in Hi as [o Ho].
  destruct (rep_slots _ _ _ HR _ _ Ho) as (c & -> & Hc & Hin).
  assert (p ∈ c) as Hpc by (apply Hin; split; [set_solver|by exists b]).
  apply list_elem_of_split in Hpc as (c1 & c2 & ->).
  destruct (rep_order _ _ _ HR) as (HL & Hhd & Htl & _).
  eapply (wp_delete_run ht c1 c2 L1 p L2 b v); [done..|]. intros arB ->.
  apply (HQ b v); [done|done|..].
  - by apply del_rep.
  - eapply del_contents; eassumption.
  - eapply del_same_rest; eassumption.
  - done.
Qed.

End delete.
