(* ===== verification/ZendHashRehash.v ===== *)
(** * ZendHashRehash: rebuilding the chains

    [zend_hash_rehash] and [zend_hash_do_resize] rebuild every chain from the
    order list; the table's contents and order do not change. *)
From S2P Require Import Prelude Memory Dllist HashFunc OrderedMap ZendHash ZendHashRep ZendHashLink.
From stdpp Require Import base list gmap.
Local Open Scope Z_scope.

Section rehash.
Context {V : Type} {AL : Allocator}.
Implicit Types (m : gmap ptr (Bucket V)) (b : Bucket V) (p q : ptr) (L c : list ptr).
Implicit Types (s : store (Bucket V) V) (ht : HashTable).

Definition indices_ok (ht : HashTable) : Prop :=
  forall h, (hash_index ht h < length (arBuckets ht))%nat.

(** One bucket linked at the front of the chain of its slot. *)
Lemma wp_slot_connect {A} ht L L' p b (g : cmd (store (Bucket V) V) A) Q s :
  slots_ok (nodes s) ht L -> indices_ok ht -> p ∉ L -> (forall q, q ∈ L' <-> q ∈ L \/ q = p) ->
  nodes s !! p = Some b ->
  (forall m', let i := hash_index ht (b_h b) in
     slots_ok m' (set_arBuckets (<[i := Some p]> (arBuckets ht)) ht) L' ->
     (forall q, strip_hash <$> m' !! q = strip_hash <$> nodes s !! q) ->
     (forall q, q ∉ L' -> m' !! q = nodes s !! q) ->
     wp g Q (set_nodes m' s)) ->
  wp (hd ← read_slot ht (hash_index ht (b_h b)); CONNECT_TO_BUCKET_DLLIST p hd ;; g) Q s.
Proof.
  intros HS Hi Hp HL' Hb HQ. specialize (Hi (b_h b)).
  apply lookup_lt_is_Some in Hi as [o Ho]. unfold read_slot. rewrite Ho.
  destruct (HS _ _ Ho) as (c & -> & Hc & Hin). wp_step. wp_step. wp_step.
  eapply wp_connect_bucket; [done| |done|].
  { intros Hpc. by apply Hp, Hin. }
  intros m' Hd Hout Hobs. apply HQ.
  - by eapply slots_insert.
  - done.
  - intros q Hq. apply Hout. intros [->|Hqc]%elem_of_cons; apply Hq, HL'; [by right|].
    left. by apply Hin.
Qed.

Lemma wp_write_slot ht i v Q s :
  (i < length (arBuckets ht))%nat ->
  Q (set_arBuckets (<[i := v]> (arBuckets ht)) ht) s -> wp (write_slot ht i v) Q s.
Proof.
  intros [o Ho]%lookup_lt_is_Some HQ. unfold write_slot. rewrite Ho. by apply wp_ret.
Qed.

Lemma wp_chain_push {A} ht L L' p b (f : HashTable -> cmd (store (Bucket V) V) A) Q s :
  slots_ok (nodes s) ht L -> indices_ok ht -> p ∉ L -> (forall q, q ∈ L' <-> q ∈ L \/ q = p) ->
  nodes s !! p = Some b ->
  (forall m' arB, length arB = length (arBuckets ht) ->
     slots_ok m' (set_arBuckets arB ht) L' ->
     (forall q, strip_hash <$> m' !! q = strip_hash <$> nodes s !! q) ->
     (forall q, q ∉ L' -> m' !! q = nodes s !! q) ->
     wp (f (set_arBuckets arB ht)) Q (set_nodes m' s)) ->
  wp (hd ← read_slot ht (hash_index ht (b_h b));
      CONNECT_TO_BUCKET_DLLIST p hd ;;
      ht ← write_slot ht (hash_index ht (b_h b)) (Some p);
      f ht) Q s.
Proof.
  intros HS Hi Hp HL' Hb HQ. eapply wp_slot_connect; [done..|]. intros m' i HS' Hobs Hout.
  wp_step. apply wp_write_slot; [apply Hi|]. apply HQ; [by rewrite length_insert|done..].
Qed.

Lemma wp_rehash_loop fuel ht L1 L2 Q s :
  dll list_links (nodes s) (L1 ++ L2) -> (length L2 < fuel)%nat ->
  slots_ok (nodes s) ht L1 -> indices_ok ht ->
  (forall m' arB, length arB = length (arBuckets ht) ->
     slots_ok m' (set_arBuckets arB ht) (L1 ++ L2) ->
     (forall q, strip_hash <$> m' !! q = strip_hash <$> nodes s !! q) ->
     (forall q, q ∉ L1 ++ L2 -> m' !! q = nodes s !! q) ->
     Q (set_arBuckets arB ht) (set_nodes m' s)) ->
  wp (rehash_loop fuel ht (head L2)) Q s.
Proof.
  revert ht L1 L2 s. induction fuel as [|fuel IH]; intros ht L1 L2 s HL Hlen HS Hi HQ; [lia|].
  destruct L2 as [|p L2]; simpl.
  { wp_step. rewrite app_nil_r in *. specialize (HQ (nodes s) (arBuckets ht)).
    destruct ht, s. by apply HQ. }
  destruct (dll_lookup _ _ _ _ _ HL) as (b & Hb & _ & Hnext).
  wp_step. wp_step. apply (wp_chain_push _ L1 (L1 ++ [p]) p b); [done|done| |set_solver|done|].
  { destruct HL as [(_ & ? & _)%NoDup_app _]. set_solver. }
  intros m1 arB1 Hlen1 HS1 Hobs1 Hout1. cbn beta.
  assert (dll list_links m1 ((L1 ++ [p]) ++ L2)) as HL1.
  { rewrite <- app_assoc. eapply dll_frame; [|done].
    apply (agree_weaken strip_hash); [apply strip_hash_lk|by intros q _]. }
  destruct (dll_lookup list_links m1 L1 p L2) as (b1 & Hb1 & _ & Hnext1).
  { by rewrite <- app_assoc in HL1. }
  wp_step. wp_step. change (pListNext b1) with (lnext list_links b1). rewrite Hnext1.
  apply (IH _ (L1 ++ [p])); [done|simpl in Hlen; lia|done| |].
  { intros h. simpl. rewrite Hlen1. apply Hi. }
  intros m' arB Hlen' HS' Hobs' Hout'. rewrite <- app_assoc in HS', Hout'. simpl in *.
  apply HQ; [congruence|done| |].
  - intros q. by rewrite Hobs', Hobs1.
  - intros q Hq. rewrite Hout' by done. apply Hout1. set_solver.
Qed.

(** The empty slots of [memset] hold the empty chains. *)
Lemma clear_slots_ok m ht : slots_ok m (clear_slots ht) [].
Proof.
  intros i o Hi. apply lookup_replicate in Hi as [-> _]. exists [].
  split_and!; [done|apply dll_nil|set_solver].
Qed.

Lemma clear_slots_indices ht k :
  0 <= k -> nTableSize ht = 2 ^ k -> nTableMask ht = nTableSize ht - 1 -> indices_ok (clear_slots ht).
Proof.
  intros Hk Hs Hm h. unfold hash_index, clear_slots. simpl.
  rewrite length_replicate, Hm, Hs. pose proof (land_mask_range h k). lia.
Qed.

(** What a rebuild of the chains keeps: everything but the chain links. *)
Lemma agree_strip_hash m m' L :
  (forall q, strip_hash <$> m' !! q = strip_hash <$> m !! q) ->
  agree payload m m' L /\ agree (lk list_links) m m' L.
Proof.
  intros Ha. split; eapply (agree_weaken strip_hash); try by intros q _.
  - apply strip_hash_payload.
  - apply strip_hash_lk.
Qed.

Lemma same_rest_agree s s' L :
  agree payload (nodes s) (nodes s') L -> blocks s' = blocks s ->
  (forall q, q ∉ L -> nodes s' !! q = nodes s !! q) -> same_rest s L s' L.
Proof.
  intros Ha Hbl Hout. split.
  - intros q b. split; intros [Hq ?]; (split; [|done]); [by rewrite <- Hout|by rewrite Hout].
  - intros a v. rewrite Hbl. split; intros [? Ho]; (split; [done|]); intros Ho'; apply Ho.
    + eapply owned_agree; [apply agree_sym; exact Ha|done].
    + by eapply owned_agree.
Qed.

(** The part of the invariant that a rebuild of the chains relies on. *)
Record pre_rep (s : store (Bucket V) V) (ht : HashTable) (L : list ptr) : Prop := {
  pre_order : order_ok (nodes s) ht L;
  pre_keys : keys_ok (nodes s) L;
  pre_buckets : buckets_ok s L;
  pre_blocks : blocks_ok (nodes s) L;
  pre_next : next_free_ok (nodes s) ht L;
  pre_internal : internal_ok ht L
}.

Lemma rep_pre s ht L : ht_rep s ht L -> pre_rep s ht L.
Proof. intros []. by split. Qed.

Lemma rebuilt_rep s ht L m' arB k :
  pre_rep s ht L -> 3 <= k <= 31 -> nTableSize ht = 2 ^ k -> nTableMask ht = nTableSize ht - 1 ->
  Z.of_nat (length arB) = nTableSize ht ->
  slots_ok m' (set_arBuckets arB ht) L ->
  (forall q, strip_hash <$> m' !! q = strip_hash <$> nodes s !! q) ->
  ht_rep (set_nodes m' s) (set_arBuckets arB ht) L.
Proof.
  intros HP Hk Hs Hm Hl HS Hobs.
  destruct (agree_strip_hash (nodes s) m' L Hobs) as [Hpay Hlk].
  destruct (pre_order _ _ _ HP) as (HL & Hhd & Htl & Hn & Hlt).
  split; simpl.
  - split_and!; [|done..]. eapply dll_frame; [exact Hlk|done].
  - split; [by exists k|]. by right.
  - done.
  - eapply keys_ok_agree; [exact Hpay|apply HP].
  - eapply buckets_ok_agree; [exact Hpay|by apply agree_blocks_eq|apply HP].
  - eapply blocks_ok_agree; [exact Hpay|apply HP].
  - eapply (next_free_ok_agree (nodes s)); [exact Hpay|apply HP].
  - apply HP.
Qed.

Lemma wp_rehash s ht L k Q :
  pre_rep s ht L -> 3 <= k <= 31 -> nTableSize ht = 2 ^ k -> nTableMask ht = nTableSize ht - 1 ->
  L <> [] ->
  (forall s' arB, ht_rep s' (set_arBuckets arB ht) L -> contents s' L = contents s L ->
     same_rest s L s' L -> dtor_trace s' = dtor_trace s -> blocks s' = blocks s ->
     (forall q, strip_hash <$> nodes s' !! q = strip_hash <$> nodes s !! q) ->
     Q (SUCCESS, set_arBuckets arB ht) s') ->
  wp (zend_hash_rehash ht) Q s.
Proof.
  intros HP Hk Hs Hm HL HQ. unfold zend_hash_rehash.
  destruct (pre_order _ _ _ HP) as (Hd & Hhd & Htl & Hn & Hlt).
  assert (nNumOfElements ht =? 0 = false) as ->.
  { apply Z.eqb_neq. destruct L; [done|]. simpl in Hn. lia. }
  wp_step. rewrite Hhd. apply (wp_rehash_loop _ _ [] L).
  - done.
  - unfold loop_bound. rewrite Hn, Nat2Z.id. lia.
  - apply clear_slots_ok.
  - eapply clear_slots_indices; [|done..]. lia.
  - intros m' arB Hlen HS Hobs Hout. wp_step. simpl in *.
    change (set_arBuckets arB (clear_slots ht)) with (set_arBuckets arB ht) in *.
    rewrite length_replicate in Hlen.
    destruct (agree_strip_hash (nodes s) m' L Hobs) as [Hpay _].
    apply HQ; [| | |done..|done].
    + eapply rebuilt_rep; try done. rewrite Hlen, Z2Nat.id; [done|]. rewrite Hs. lia.
    + apply contents_agree; [done|by apply agree_blocks_eq].
    + by apply same_rest_agree.
Qed.

(** The struct after a resize: a doubled table, or the same one at the limit. *)
Lemma wp_if_full_resize s ht L Q :
  ht_rep s ht L -> nTableMask ht = nTableSize ht - 1 ->
  (forall s' size arB,
     let ht' := set_arBuckets arB (set_nTableMask (size - 1) (set_nTableSize size ht)) in
     size = (if (nTableSize ht <? Z.of_nat (length L)) && (nTableSize ht <? 2 ^ 31)
             then 2 * nTableSize ht else nTableSize ht) ->
     ht_rep s' ht' L -> contents s' L = contents s L ->
     same_rest s L s' L -> dtor_trace s' = dtor_trace s -> blocks s' = blocks s ->
     (forall q, strip_hash <$> nodes s' !! q = strip_hash <$> nodes s !! q) ->
     Q ht' s') ->
  wp (ZEND_HASH_IF_FULL_DO_RESIZE ht) Q s.
Proof.
  intros HR Hm HQ. unfold ZEND_HASH_IF_FULL_DO_RESIZE.
  destruct (rep_order _ _ _ HR) as (Hd & Hhd & Htl & Hn & Hlt). rewrite Hn.
  assert ((nTableSize ht <? Z.of_nat (length L)) && (nTableSize ht <? 2 ^ 31) = false -> Q ht s) as Hsame.
  { intros Hno. specialize (HQ s (nTableSize ht) (arBuckets ht)). rewrite Hno in HQ. simpl in HQ.
    assert (set_arBuckets (arBuckets ht) (set_nTableMask (nTableSize ht - 1)
      (set_nTableSize (nTableSize ht) ht)) = ht) as He by (destruct ht; simpl in *; by subst).
    rewrite He in HQ. apply HQ; [done|done|done|apply same_rest_refl|done..]. }
  destruct (nTableSize ht <? Z.of_nat (length L)) eqn:Hfull; [|wp_step; by apply Hsame].
  simpl in HQ, Hsame.
  apply Z.ltb_lt in Hfull. unfold zend_hash_do_resize.
  destruct (rep_geometry _ _ _ HR) as [(k & Hk & Hs) Hg].
  destruct (0 <? u32 (Z.shiftl (nTableSize ht) 1)) eqn:Hz.
  2:{ wp_step. apply Hsame. apply Z.ltb_ge in Hz. apply Z.ltb_ge. rewrite Hs in *.
      destruct (decide (k = 31)) as [->|]; [done|]. rewrite wrap_u_small in Hz.
      - rewrite Z.shiftl_mul_pow2 in Hz by lia. lia.
      - rewrite Z.shiftl_mul_pow2, <- Z.pow_add_r by lia. split; [lia|]. apply Z.pow_lt_mono_r; lia. }
  apply Z.ltb_lt in Hz. cbv zeta.
  assert (k <= 30) as Hk30.
  { destruct (decide (k = 31)) as [->|]; [|lia]. rewrite Hs in Hz. vm_compute in Hz. done. }
  assert (u32 (Z.shiftl (nTableSize ht) 1) = 2 ^ (k + 1)) as Hsize.
  { rewrite Hs, Z.shiftl_mul_pow2, <- Z.pow_add_r by lia. apply wrap_u_small.
    split; [lia|]. apply Z.pow_lt_mono_r; lia. }
  rewrite Hsize in *.
  assert (u32 (2 ^ (k + 1) - 1) = 2 ^ (k + 1) - 1) as Hmask.
  { apply wrap_u_small. assert (2 ^ (k + 1) <= 2 ^ 31) by (apply Z.pow_le_mono_r; lia).
    assert (0 < 2 ^ (k + 1)) by lia. lia. }
  simpl. rewrite Hmask. wp_step.
  set (ht1 := set_nTableMask _ _).
  apply (wp_rehash s ht1 L (k + 1)); [|lia|done|done| |].
  - destruct HR. by split.
  - intros ->. simpl in Hfull. rewrite Hs in Hfull. assert (0 < 2 ^ k) by lia. lia.
  - intros s' arB HR' Hcont Hrest Htr Hbl Hobs. wp_step.
    apply (HQ s' (2 ^ (k + 1)) arB); try done.
    rewrite Hs. assert (2 ^ k < 2 ^ 31) by (apply Z.pow_lt_mono_r; lia).
    destruct (Z.ltb_spec (2 ^ k) (2 ^ 31)); [rewrite Z.pow_add_r by lia|]; lia.
Qed.

End rehash.
