(* ===== verification/ZendHashInsert.v ===== *)
(** * ZendHashInsert: insertion and update

    The insertion functions of src/Zend/zend_hash.c refine [om_insert]: an
    existing element is overwritten in place, a new one is appended. *)
From S2P Require Import Prelude Memory Dllist HashFunc OrderedMap ZendHash ZendHashRep ZendHashLink.
From S2P Require Import ZendHashRehash.
From stdpp Require Import base list gmap.
Local Open Scope Z_scope.

Section insert.
Context {V : Type} {AL : Allocator} (uninit : Bucket V).
Implicit Types (m : gmap ptr (Bucket V)) (b : Bucket V) (p q : ptr) (L c : list ptr).
Implicit Types (s : store (Bucket V) V) (ht : HashTable).

(** ** Keys *)

Lemma memcmp_eq_full (x y : list Z) n :
  n = Z.of_nat (length x) -> n = Z.of_nat (length y) -> memcmp_eq n x y = bool_decide (x = y).
Proof.
  intros Hx Hy. unfold memcmp_eq. rewrite !take_ge by lia. done.
Qed.

Lemma bucket_key_str p b x :
  bucket_ok p b -> bucket_key b = HStr x <-> nKeyLength b <> 0 /\ key_bytes b = x.
Proof.
  intros [_ Hok]. unfold bucket_key. destruct (Z.eqb_spec (nKeyLength b) 0) as [E|E].
  { split; [done|]. by intros [? _]. }
  assert (take (Z.to_nat (nKeyLength b)) (key_bytes b) = key_bytes b) as ->.
  { apply take_ge. destruct (nKeyLength b) eqn:Hn; [done|..]; destruct_and!; lia. }
  naive_solver.
Qed.

Lemma bucket_key_int b h : bucket_key b = HInt h <-> nKeyLength b = 0 /\ b_h b = h.
Proof. unfold bucket_key. destruct (Z.eqb_spec (nKeyLength b) 0); naive_solver. Qed.

Lemma bucket_ok_str p b :
  bucket_ok p b -> nKeyLength b <> 0 ->
  ((exists x, arKey b = KInterned x) \/ arKey b = KBucket p) /\
  nKeyLength b = Z.of_nat (length (key_bytes b)) /\ b_h b = zend_inline_hash_func (key_bytes b).
Proof. intros [_ Hok] Hn. by destruct (nKeyLength b). Qed.

Lemma str_match_key s ht L k p b :
  ht_rep s ht L -> keyarg_ok s k -> p ∈ L -> nodes s !! p = Some b ->
  str_match k (zend_inline_hash_func (k_bytes k)) b = bool_decide (bucket_key b = HStr (k_bytes k)).
Proof.
  intros HR (Hk0 & Hkp) Hp Hb. destruct (rep_buckets _ _ _ HR p b Hp Hb) as [Hok _].
  apply eq_bool_prop_intro. rewrite bool_decide_spec, (bucket_key_str p) by done.
  unfold str_match. rewrite orb_True, !andb_True, !Is_true_true, !Z.eqb_eq.
  rewrite bool_decide_eq_true. unfold k_len in *. split.
  - intros [Ha|[[Hh Hl] Hc]].
    + destruct (decide (nKeyLength b = 0)) as [E|E].
      * destruct Hok as [_ Hok]. rewrite E in Hok.
        destruct Hok as [Ha'|Ha']; rewrite Ha' in Ha; rewrite <- Ha in Hkp; [done|].
        destruct Hkp as (b' & Hb' & _ & Hl' & _). assert (b' = b) as -> by congruence. lia.
      * split; [done|]. destruct (bucket_ok_str _ _ Hok E) as ([[x Hx]|Hx] & Hl & _).
        -- unfold key_bytes. rewrite Hx in *. by rewrite <- Ha in Hkp.
        -- unfold key_bytes. rewrite Hx in *. rewrite <- Ha in Hkp.
           destruct Hkp as (b' & Hb' & _ & _ & Hkb). congruence.
    + assert (nKeyLength b <> 0) as E by lia. split; [done|].
      destruct (bucket_ok_str _ _ Hok E) as (_ & Hl' & _).
      rewrite memcmp_eq_full in Hc by lia. by apply bool_decide_eq_true in Hc.
  - intros [E Hkb]. destruct (bucket_ok_str _ _ Hok E) as (_ & Hl' & Hh).
    right. rewrite Hkb in *. rewrite memcmp_eq_full by lia. by rewrite bool_decide_eq_true.
Qed.

Lemma str_key_hash s ht L k p b :
  ht_rep s ht L -> p ∈ L -> nodes s !! p = Some b -> bucket_key b = HStr k ->
  b_h b = zend_inline_hash_func k.
Proof.
  intros HR Hp Hb Hk. destruct (rep_buckets _ _ _ HR p b Hp Hb) as [Hok _].
  apply (bucket_key_str p) in Hk as [E <-]; [|done]. by apply (bucket_ok_str p).
Qed.

Lemma int_match_key h b : int_match h b = bool_decide (bucket_key b = HInt h).
Proof.
  apply eq_bool_prop_intro. rewrite bool_decide_spec, bucket_key_int.
  unfold int_match. by rewrite andb_True, !Is_true_true, !Z.eqb_eq.
Qed.

Lemma int_key_hash b h : bucket_key b = HInt h -> b_h b = h.
Proof. by intros [_ ?]%bucket_key_int. Qed.

(** ** The first insertion allocates the slot array *)

Lemma check_init_rep s ht L :
  ht_rep s ht L ->
  ht_rep s (CHECK_INIT ht) L /\ nTableMask (CHECK_INIT ht) = nTableSize (CHECK_INIT ht) - 1.
Proof.
  intros HR. unfold CHECK_INIT. destruct (rep_geometry _ _ _ HR) as [(k & Hk & Hs) Hg].
  assert (8 <= 2 ^ k <= 2 ^ 31) as Hk2.
  { change 8 with (2 ^ 3). split; apply Z.pow_le_mono_r; lia. }
  destruct (Z.eqb_spec (nTableMask ht) 0) as [E|E].
  - destruct Hg as [(_ & _ & ->)|[? ?]]; [|lia]. simpl.
    rewrite wrap_u_small by lia. split; [|done]. destruct HR. split; try done.
    + split; [by exists k|]. right. simpl. rewrite length_replicate. lia.
    + intros i o Hi. apply lookup_replicate in Hi as [-> _]. exists [].
      split_and!; [done|apply dll_nil|set_solver].
  - destruct Hg as [(? & _)|[? ?]]; done.
Qed.

(** ** Overwriting in place *)

Definition strip_data (b : Bucket V) : Bucket V := set_pData AtDataPtr (set_pDataPtr None b).

Lemma strip_data_key b b' : strip_data b = strip_data b' -> bucket_key b = bucket_key b'.
Proof. destruct b, b'. cbn. by intros [=]; subst. Qed.

Lemma strip_data_ok p b b' : strip_data b = strip_data b' -> bucket_ok p b -> bucket_ok p b'.
Proof. destruct b, b'. cbn. by intros [=]; subst. Qed.

Section data.
Context (s : store (Bucket V) V) (ht : HashTable) (L1 : list ptr) (p : ptr) (L2 : list ptr).
Context (b b' : Bucket V) (bl' : gmap ptr V) (tr : list V) (v : V).
Hypothesis HR : ht_rep s ht (L1 ++ p :: L2).
Hypothesis Hb : nodes s !! p = Some b.
Hypothesis Hstrip : strip_data b = strip_data b'.
Hypothesis Hval : bucket_val bl' b' = Some v.
Hypothesis Hkeep : forall a, owned s (L1 ++ L2) a -> bl' !! a = blocks s !! a.
Hypothesis Hnew : forall a, pData b' = AtBlock a -> ~ owned s (L1 ++ L2) a.
Hypothesis Hrest : forall a w, ~ owned s (L1 ++ L2) a ->
  (bl' !! a = Some w /\ pData b' <> AtBlock a) <-> (blocks s !! a = Some w /\ pData b <> AtBlock a).

Let m' := <[p := b']> (nodes s).
Let s' := Store m' bl' tr.

Lemma data_lookup q : q <> p -> m' !! q = nodes s !! q.
Proof. intros. unfold m'. by rewrite lookup_insert_ne. Qed.

Lemma data_strip q : strip_data <$> m' !! q = strip_data <$> nodes s !! q.
Proof.
  destruct (decide (q = p)) as [->|Hq]; [|by rewrite data_lookup].
  unfold m'. rewrite lookup_insert_eq, Hb. simpl. by rewrite Hstrip.
Qed.

Lemma data_strip_agree {A} (f : Bucket V -> A) L :
  (forall x y, strip_data x = strip_data y -> f x = f y) -> agree f (nodes s) m' L.
Proof. intros Hf. apply (agree_weaken strip_data); [done|]. intros q _. apply data_strip. Qed.

Lemma data_agree : agree payload (nodes s) m' (L1 ++ L2).
Proof. intros q Hq. rewrite data_lookup; [done|]. intros ->. by apply (rep_notin _ _ _ _ _ HR). Qed.

Lemma data_owned a : owned s' (L1 ++ p :: L2) a <-> owned s (L1 ++ L2) a \/ pData b' = AtBlock a.
Proof.
  split.
  - intros (q & bq & Hq & Hbq & Hd). simpl in Hbq. destruct (decide (q = p)) as [->|Hqp].
    + unfold m' in Hbq. rewrite lookup_insert_eq in Hbq. right. congruence.
    + rewrite data_lookup in Hbq by done. left. exists q, bq. split_and!; [set_solver|done..].
  - intros [(q & bq & Hq & Hbq & Hd)|Hd].
    + exists q, bq. simpl. rewrite data_lookup; [set_solver|]. intros ->. by apply (rep_notin _ _ _ _ _ HR).
    + exists p, b'. simpl. unfold m'. rewrite lookup_insert_eq. set_solver.
Qed.

Lemma data_owned_before a : owned s (L1 ++ p :: L2) a <-> owned s (L1 ++ L2) a \/ pData b = AtBlock a.
Proof.
  split.
  - intros (q & bq & Hq & Hbq & Hd). destruct (decide (q = p)) as [->|Hqp]; [right; congruence|].
    left. exists q, bq. split_and!; [set_solver|done..].
  - intros [Ho|Hd]; [eapply owned_subset; [|done]; set_solver|]. exists p, b. set_solver.
Qed.

Lemma data_rep : ht_rep s' ht (L1 ++ p :: L2).
Proof.
  destruct (rep_order _ _ _ HR) as (HL & ?). split.
  - split; [|done]. eapply dll_frame; [|done]. apply data_strip_agree.
    intros [] []. cbn. by intros [=]; subst.
  - apply HR.
  - eapply (slots_ok_agree (nodes s)); [|done|done|apply (rep_slots _ _ _ HR)].
    apply data_strip_agree. intros [] []. cbn. by intros [=]; subst.
  - intros q1 q2 b1 b2 H1 H2 Hb1 Hb2 Hk.
    assert (agree bucket_key (nodes s) m' (L1 ++ p :: L2)) as Ha
      by apply data_strip_agree, strip_data_key.
    destruct (agree_Some _ _ _ _ _ _ Ha H1 Hb1) as (b1' & Hb1' & E1).
    destruct (agree_Some _ _ _ _ _ _ Ha H2 Hb2) as (b2' & Hb2' & E2).
    eapply (rep_keys _ _ _ HR); eauto. congruence.
  - intros q bq Hq Hbq. destruct (decide (q = p)) as [->|Hqp].
    + unfold s', m' in Hbq. simpl in Hbq. rewrite lookup_insert_eq in Hbq.
      apply (inj Some) in Hbq as <-. split; [|by exists v].
      eapply strip_data_ok; [exact Hstrip|]. by apply (rep_buckets _ _ _ HR p b).
    + eapply (buckets_ok_agree s); [apply data_agree|exact Hkeep| |set_solver|exact Hbq].
      eapply buckets_ok_subset; [|apply (rep_buckets _ _ _ HR)]. set_solver.
  - intros q1 q2 b1 b2 a H1 H2 Hb1 Hb2 Hd1 Hd2. simpl in Hb1, Hb2. unfold m' in Hb1, Hb2.
    apply lookup_insert_Some in Hb1 as [[-> ->]|[? Hb1]];
      apply lookup_insert_Some in Hb2 as [[-> ->]|[? Hb2]]; [done|..].
    + destruct (Hnew a Hd1). exists q2, b2. set_solver.
    + destruct (Hnew a Hd2). exists q1, b1. set_solver.
    + by apply (rep_blocks _ _ _ HR q1 q2 b1 b2 a).
  - destruct (rep_next _ _ _ HR) as [Hr Hn]. split; [done|]. intros q bq Hq Hbq Hl.
    assert (agree (fun x => (b_h x, nKeyLength x)) (nodes s) m' (L1 ++ p :: L2)) as Ha.
    { apply data_strip_agree. intros [] []. cbn. by intros [=]; subst. }
    destruct (agree_Some _ _ _ _ _ _ Ha Hq Hbq) as (bq' & Hbq' & [= E1 E2]).
    rewrite <- E1. eapply Hn; eauto. congruence.
  - apply HR.
Qed.

Lemma data_contents :
  contents s' (L1 ++ p :: L2) = contents s L1 ++ (bucket_key b, v) :: contents s L2.
Proof.
  rewrite contents_app, (contents_cons s' p L2 (bucket_key b, v)).
  - f_equal; [|f_equal]; (apply contents_agree;
      [eapply agree_subset; [|apply data_agree]; set_solver|]);
      (intros a Ha; apply Hkeep; eapply owned_subset; [|done]; set_solver).
  - unfold entry, s', m'. simpl. rewrite lookup_insert_eq. simpl. rewrite Hval. simpl.
    by rewrite (strip_data_key _ _ Hstrip).
Qed.

Lemma data_same_rest : same_rest s (L1 ++ p :: L2) s' (L1 ++ p :: L2).
Proof.
  split.
  - intros q bq. simpl. destruct (decide (q = p)) as [->|Hq]; [set_solver|]. by rewrite data_lookup.
  - intros a w. rewrite data_owned, data_owned_before. simpl. specialize (Hrest a w). tauto.
Qed.

End data.

Lemma owned_live s ht L a : ht_rep s ht L -> owned s L a -> is_Some (blocks s !! a).
Proof.
  intros HR (p & b & Hp & Hb & Hd). destruct (rep_buckets _ _ _ HR p b Hp Hb) as [_ Hv].
  unfold bucket_val in Hv. by rewrite Hd in Hv.
Qed.

Lemma owned_excl s ht L1 p L2 b a :
  ht_rep s ht (L1 ++ p :: L2) -> nodes s !! p = Some b -> pData b = AtBlock a ->
  ~ owned s (L1 ++ L2) a.
Proof.
  intros HR Hb Hd (q & bq & Hq & Hbq & Hdq).
  assert (p = q) as <- by (eapply (rep_blocks _ _ _ HR); eauto; set_solver).
  by apply (rep_notin _ _ _ _ _ HR).
Qed.

(** What [UPDATE_DATA] leaves in memory. *)
Lemma wp_update_data s ht L1 p L2 b v n Q :
  ht_rep s ht (L1 ++ p :: L2) -> nodes s !! p = Some b ->
  (forall b' bl', strip_data b = strip_data b' -> bucket_val bl' b' = Some v ->
     (forall a, owned s (L1 ++ L2) a -> bl' !! a = blocks s !! a) ->
     (forall a, pData b' = AtBlock a -> ~ owned s (L1 ++ L2) a) ->
     (forall a w, ~ owned s (L1 ++ L2) a ->
        (bl' !! a = Some w /\ pData b' <> AtBlock a) <->
        (blocks s !! a = Some w /\ pData b <> AtBlock a)) ->
     Q tt (Store (<[p := b']> (nodes s)) bl' (dtor_trace s))) ->
  wp (UPDATE_DATA p v n) Q s.
Proof.
  intros HR Hb HQ. unfold UPDATE_DATA. wp_step. wp_step.
  assert (forall a, owned s (L1 ++ L2) a -> is_Some (blocks s !! a)) as Hlive.
  { intros a Ho. eapply owned_live; [done|]. eapply owned_subset; [|done]. set_solver. }
  assert (forall a, pData b = AtBlock a -> ~ owned s (L1 ++ L2) a) as Hex.
  { intros a Hd. by eapply owned_excl. }
  assert (forall a, pData b = AtBlock a -> is_Some (blocks s !! a)) as Hb_live.
  { intros a Hd. eapply owned_live; [done|]. exists p, b. set_solver. }
  destruct (n =? sizeof_ptr).
  - wp_step. apply (wp_mono _ (fun _ s' => s' =
      set_blocks match pData b with AtBlock a => delete a (blocks s) | AtDataPtr => blocks s end s)).
    { destruct (pData b) as [|a]; [wp_step; by destruct s|].
      destruct (Hb_live a eq_refl) as [w Hw]. by eapply wp_free_block. }
    intros [] s1 ->. wp_step. eapply wp_update; [done|]. simpl.
    rewrite (alter_insert_Some _ _ _ b) by done. eapply wp_update; [simpl; apply lookup_insert_eq|].
    simpl. rewrite (alter_insert_Some _ _ _ _ (lookup_insert_eq _ _ _)), insert_insert_eq.
    apply HQ; [by destruct b|done| |done|].
    + intros a Ho. simpl. destruct (pData b) as [|a'] eqn:Hd; [done|]. rewrite lookup_delete_ne; [done|].
      intros ->. by apply (Hex a eq_refl).
    + intros a w Ho. simpl. destruct (pData b) as [|a'] eqn:Hd; [done|].
      rewrite lookup_delete_Some. naive_solver.
  - destruct (pData b) as [|a] eqn:Hd.
    + wp_step. apply wp_alloc_block. intros a Hna Hba. wp_step. eapply wp_update; [done|]. simpl.
      rewrite (alter_insert_Some _ _ _ b) by done. eapply wp_update; [simpl; apply lookup_insert_eq|].
      simpl. rewrite (alter_insert_Some _ _ _ _ (lookup_insert_eq _ _ _)), insert_insert_eq.
      apply HQ; [by destruct b| | | |].
      * unfold bucket_val. simpl. apply lookup_insert_eq.
      * intros a' Ho. simpl. rewrite lookup_insert_ne; [done|]. intros ->. destruct (Hlive a' Ho). congruence.
      * intros a' [= <-] Ho. destruct (Hlive a Ho). congruence.
      * intros a' w Ho. simpl. rewrite lookup_insert_Some. naive_solver.
    + destruct (Hb_live a eq_refl) as [w Hw]. wp_step. eapply wp_free_block; [done|]. simpl.
      wp_step. apply wp_alloc_block. simpl. intros a' Hna Hba. eapply wp_update; [done|]. simpl.
      rewrite (alter_insert_Some _ _ _ b) by done.
      apply HQ; [by destruct b| | | |].
      * unfold bucket_val. simpl. apply lookup_insert_eq.
      * intros x Ho. simpl. assert (a <> x) as Hax by (intros ->; by apply (Hex x eq_refl)).
        rewrite lookup_insert_ne, lookup_delete_ne; [done|done|]. intros ->.
        destruct (Hlive x Ho). rewrite lookup_delete_ne in Hba by done. congruence.
      * intros x [= <-] Ho. destruct (Hlive a' Ho) as [y Hy].
        apply lookup_delete_None in Hba as [->|?]; [by apply (Hex a' eq_refl)|congruence].
      * intros x y Ho. simpl. rewrite lookup_insert_Some, lookup_delete_Some.
        apply lookup_delete_None in Hba. naive_solver.
Qed.

Lemma wp_load_data s p b v Q :
  nodes s !! p = Some b -> bucket_val (blocks s) b = Some v -> Q v s -> wp (load_data p) Q s.
Proof.
  intros Hb Hv HQ. unfold load_data. wp_step. wp_step. unfold bucket_val in Hv.
  destruct (pData b); [rewrite Hv; by wp_step|by eapply wp_load_block].
Qed.

Lemma wp_overwrite ht L1 p L2 v n Q s :
  ht_rep s ht (L1 ++ p :: L2) ->
  (forall b old s', nodes s !! p = Some b -> entry s p = Some (bucket_key b, old) ->
     ht_rep s' ht (L1 ++ p :: L2) ->
     contents s' (L1 ++ p :: L2) = contents s L1 ++ (bucket_key b, v) :: contents s L2 ->
     same_rest s (L1 ++ p :: L2) s' (L1 ++ p :: L2) ->
     dtor_trace s' = dtor_trace s ++ (if pDestructor ht then [old] else []) ->
     (exists b', nodes s' !! p = Some b' /\ bucket_key b' = bucket_key b /\
        bucket_val (blocks s') b' = Some v) -> Q tt s') ->
  wp (overwrite ht p v n) Q s.
Proof.
  intros HR HQ. destruct (contents_mid _ _ _ _ _ HR) as (b & old & Hb & _ & Hv & He & _).
  unfold overwrite. wp_step. set (s1 := Store (nodes s) (blocks s)
    (dtor_trace s ++ if pDestructor ht then [old] else [])).
  apply (wp_mono _ (fun _ s' => s' = s1)).
  { unfold s1. destruct (pDestructor ht).
    - wp_step. eapply wp_load_data; [done..|]. by wp_step.
    - wp_step. rewrite app_nil_r. by destruct s. }
  intros [] ? ->. apply (wp_update_data s1 ht L1 p L2 b); [by destruct HR|done|].
  intros b' bl' Hs Hval Hkeep Hnew Hrest. apply (HQ b old); [done|done|..].
  - exact (data_rep s ht L1 p L2 b b' bl' _ v HR Hb Hs Hval Hkeep Hnew Hrest).
  - exact (data_contents s ht L1 p L2 b b' bl' _ v HR Hb Hs Hval Hkeep Hnew Hrest).
  - exact (data_same_rest s ht L1 p L2 b b' bl' _ v HR Hb Hs Hval Hkeep Hnew Hrest).
  - done.
  - exists b'. split_and!; [apply lookup_insert_eq|symmetry; by apply strip_data_key|done].
Qed.

End insert.
