(* ===== verification/ZendHashAppend.v ===== *)
(** * ZendHashAppend: a new bucket at the end of a table, and the insertion rules *)
From S2P Require Import Prelude Memory Dllist HashFunc OrderedMap ZendHash ZendHashRep ZendHashLink.
From S2P Require Import ZendHashRehash ZendHashInsert.
From stdpp Require Import base list gmap.
Local Open Scope Z_scope.

Section append.
Context {V : Type} {AL : Allocator} (uninit : Bucket V).
Implicit Types (m : gmap ptr (Bucket V)) (b : Bucket V) (p q : ptr) (L c : list ptr).
Implicit Types (s : store (Bucket V) V) (ht : HashTable).

(** A table is not affected by what happens outside its own memory. *)
Lemma rep_frame s s' ht L :
  ht_rep s ht L -> (forall q, q ∈ L -> nodes s' !! q = nodes s !! q) -> agree_blocks s s' L ->
  ht_rep s' ht L.
Proof.
  intros HR Hn Hbl.
  assert (forall A (f : Bucket V -> A), agree f (nodes s) (nodes s') L) as Ha.
  { intros A f q Hq. by rewrite Hn. }
  destruct (rep_order _ _ _ HR) as (HL & ?). split.
  - split; [|done]. eapply dll_frame; [apply Ha|done].
  - apply HR.
  - eapply slots_ok_agree; [apply Ha|done|done|apply HR].
  - eapply keys_ok_agree; [apply Ha|apply HR].
  - eapply buckets_ok_agree; [apply Ha|done|apply HR].
  - eapply blocks_ok_agree; [apply Ha|apply HR].
  - eapply next_free_ok_agree; [apply Ha|apply HR].
  - apply HR.
Qed.

Lemma contents_frame s s' L :
  (forall q, q ∈ L -> nodes s' !! q = nodes s !! q) -> agree_blocks s s' L ->
  contents s' L = contents s L.
Proof. intros Hn Hbl. apply contents_agree; [|done]. intros q Hq. by rewrite Hn. Qed.

(** Operations on one table leave another one alone. *)
Lemma same_rest_other s s' L L' ht2 L2 :
  ht_rep s ht2 L2 -> same_rest s L s' L' -> (forall q, q ∈ L2 -> q ∉ L) ->
  (forall a, owned s L2 a -> ~ owned s L a) ->
  ht_rep s' ht2 L2 /\ contents s' L2 = contents s L2 /\
  (forall q, q ∈ L2 -> q ∉ L') /\ (forall a, owned s' L2 a -> ~ owned s' L' a) /\
  (forall q, q ∈ L2 -> nodes s' !! q = nodes s !! q).
Proof.
  intros HR2 [Hn Hbl] Hd Hdb.
  assert (forall q, q ∈ L2 -> nodes s' !! q = nodes s !! q /\ q ∉ L') as Hq2.
  { intros q Hq. destruct (rep_entry _ _ _ _ HR2 Hq) as (b & _ & Hb & _).
    rewrite Hb. apply Hn. split; [done|by apply Hd]. }
  assert (agree_blocks s s' L2) as Hb2.
  { intros a Ho. destruct (owned_live _ _ _ _ HR2 Ho) as [w Hw]. rewrite Hw.
    apply (Hbl a w). split; [done|by apply Hdb]. }
  assert (forall q, q ∈ L2 -> nodes s' !! q = nodes s !! q) as Hq2' by (intros; by apply Hq2).
  split_and!.
  - by eapply rep_frame.
  - by apply contents_frame.
  - intros q Hq. by apply Hq2.
  - intros a Ho. assert (owned s L2 a) as Ho'.
    { eapply owned_agree; [|exact Ho]. intros q Hq. by rewrite Hq2'. }
    destruct (owned_live _ _ _ _ HR2 Ho') as [w Hw].
    destruct (Hbl a w) as [_ [_ ?]]; [|done]. split; [done|by apply Hdb].
  - done.
Qed.

(** ** Appending *)

Definition appended_ht (ht : HashTable) (L : list ptr) (p : ptr) (arB : list (option ptr))
    (nf : Z) : HashTable :=
  set_nNumOfElements (u32 (nNumOfElements ht + 1))
    (set_nNextFreeElement nf
      (set_pInternalPointer
        (match pInternalPointer ht with None => Some p | Some q => Some q end)
        (set_ends (L ++ [p]) (set_arBuckets arB ht)))).

Definition loc_of (p : ptr) (b : Bucket V) : dataloc :=
  match pData b with AtDataPtr => DInline p | AtBlock a => DBlock a end.

Lemma wp_data_loc s p b Q : nodes s !! p = Some b -> Q (loc_of p b) s -> wp (data_loc p) Q s.
Proof. intros Hb HQ. unfold data_loc. wp_steps. done. Qed.

Lemma wp_connect_global p b ht L Q s :
  nodes s !! p = Some b -> p ∉ L -> dll list_links (nodes s) L ->
  pListHead ht = head L -> pListTail ht = last L ->
  (forall m', dll list_links m' (L ++ [p]) ->
     (forall q, q ∉ L ++ [p] -> m' !! q = nodes s !! q) ->
     (forall q, strip_list <$> m' !! q = strip_list <$> nodes s !! q) ->
     Q (set_pInternalPointer
          (match pInternalPointer ht with None => Some p | Some q => Some q end)
          (set_ends (L ++ [p]) ht)) (set_nodes m' s)) ->
  wp (CONNECT_TO_GLOBAL_DLLIST p ht) Q s.
Proof.
  intros Hb Hp HL Hhd Htl HQ. unfold CONNECT_TO_GLOBAL_DLLIST. wp_step. rewrite Htl.
  apply (wp_connect_global_ex p b ht L []); rewrite ?app_nil_r; [done..|].
  intros m' HL' Hout Hobs. specialize (HQ m' HL' Hout Hobs). simpl.
  destruct (pInternalPointer ht) eqn:Hi; wp_step; [|done].
  by destruct ht; simpl in *; subst.
Qed.

Lemma append_rep s ht L p b v m arB nf :
  ht_rep s ht L -> nTableMask ht = nTableSize ht - 1 ->
  nodes s !! p = Some b -> p ∉ L -> bucket_ok p b -> bucket_val (blocks s) b = Some v ->
  (forall q bq, q ∈ L -> nodes s !! q = Some bq -> bucket_key bq <> bucket_key b) ->
  (forall a, pData b = AtBlock a -> ~ owned s L a) ->
  Z.of_nat (length L) + 1 < 2 ^ 32 ->
  0 <= nf <= LONG_MAX -> (nNextFreeElement ht <= nf) ->
  (nKeyLength b = 0 -> s64 (b_h b) < nf \/ nf = LONG_MAX) ->
  length arB = length (arBuckets ht) ->
  dll list_links m (L ++ [p]) ->
  slots_ok m (set_arBuckets arB ht) (L ++ [p]) ->
  (forall q, payload <$> m !! q = payload <$> nodes s !! q) ->
  ht_rep (set_nodes m s) (appended_ht ht L p arB nf) (L ++ [p]).
Proof.
  intros HR Hmask Hb Hp Hok Hv Hkey Hblk Hlen Hnf Hnf2 Hkeynf HlenB HL HS Hpay.
  assert (agree payload (nodes s) m (L ++ [p])) as Ha by (intros q _; apply Hpay).
  destruct (rep_order _ _ _ HR) as (_ & _ & _ & Hn & Hlt).
  split.
  - split_and!; simpl; [done..| |]; rewrite ?Hn, length_app; simpl; [|lia].
    rewrite wrap_u_small; lia.
  - destruct (rep_geometry _ _ _ HR) as [Hk Hg]. split; [done|]. right. split; [done|]. simpl.
    destruct Hk as (k & Hk & Hsz). assert (2 <= 2 ^ k).
    { change 2 with (2 ^ 1). apply Z.pow_le_mono_r; lia. }
    destruct Hg as [(Hm0 & _)|[_ ?]]; [lia|congruence].
  - eapply (slots_ok_agree m); [by intros q _|done|done|exact HS].
  - apply (keys_ok_agree (nodes s)); [done|]. intros q1 q2 b1 b2 H1 H2 Hb1 Hb2 Hk.
    apply elem_of_snoc in H1 as [H1| ->];
      apply elem_of_snoc in H2 as [H2| ->].
    + by eapply (rep_keys _ _ _ HR).
    + destruct (Hkey q1 b1 H1 Hb1). congruence.
    + destruct (Hkey q2 b2 H2 Hb2). congruence.
    + done.
  - apply (buckets_ok_agree s); [done|by apply agree_blocks_eq|].
    intros q bq [Hq| ->]%elem_of_snoc Hbq; [by apply (rep_buckets _ _ _ HR)|].
    assert (bq = b) as -> by congruence. eauto.
  - apply (blocks_ok_agree (nodes s)); [done|]. intros q1 q2 b1 b2 a H1 H2 Hb1 Hb2 Hd1 Hd2.
    apply elem_of_snoc in H1 as [H1| ->];
      apply elem_of_snoc in H2 as [H2| ->].
    + by eapply (rep_blocks _ _ _ HR).
    + destruct (Hblk a); [congruence|]. by exists q1, b1.
    + destruct (Hblk a); [congruence|]. by exists q2, b2.
    + done.
  - apply (next_free_ok_agree (nodes s)); [done|]. destruct (rep_next _ _ _ HR) as [_ Hall].
    split; [done|]. simpl. intros q bq [Hq| ->]%elem_of_snoc Hbq H0.
    + destruct (Hall q bq Hq Hbq H0); lia.
    + assert (bq = b) as -> by congruence. auto.
  - intros q. simpl. destruct (pInternalPointer ht) as [x|] eqn:Hi; intros [= <-]; [|set_solver].
    pose proof (rep_internal _ _ _ HR x Hi). set_solver.
Qed.

Lemma append_contents s L p b v m :
  nodes s !! p = Some b -> bucket_val (blocks s) b = Some v ->
  (forall q, payload <$> m !! q = payload <$> nodes s !! q) ->
  contents (set_nodes m s) (L ++ [p]) = contents s L ++ [(bucket_key b, v)].
Proof.
  intros Hb Hv Hpay. rewrite (contents_agree s).
  - rewrite contents_app. f_equal. erewrite contents_cons; [done|].
    unfold entry. rewrite Hb. simpl. by rewrite Hv.
  - by intros q _.
  - by apply agree_blocks_eq.
Qed.

Lemma payload_loc p b b' : payload b = payload b' -> loc_of p b = loc_of p b'.
Proof. intros (_ & _ & E & _)%payload_eq. unfold loc_of. by rewrite E. Qed.

Lemma deref_payload s p b v :
  payload <$> nodes s !! p = Some (payload b) -> bucket_val (blocks s) b = Some v ->
  deref (loc_of p b) s = Some (v, s).
Proof.
  intros Hp Hv. apply fmap_Some in Hp as (b' & Hb' & E).
  rewrite (payload_val _ _ _ E) in Hv. rewrite (payload_loc _ _ _ E). clear E b.
  unfold loc_of, deref, bucket_val in *. destruct (pData b') as [|a] eqn:Hd.
  - unfold load_data, load, mbind, cmd_bind. rewrite Hb'. by rewrite Hd, Hv.
  - unfold load_block. by rewrite Hv.
Qed.

(** The address [d] handed back to the caller is that of the data of the
    element with key [key], which holds [v]. *)
Definition dest_ok (s : store (Bucket V) V) (L : list ptr) (key : hkey) (v : V)
    (d : option dataloc) : Prop :=
  exists p b, p ∈ L /\ nodes s !! p = Some b /\ bucket_key b = key /\
    bucket_val (blocks s) b = Some v /\ d = Some (loc_of p b).

Lemma dest_ok_deref s L key v d :
  dest_ok s L key v d -> exists a, d = Some a /\ deref a s = Some (v, s).
Proof.
  intros (p & b & _ & Hb & _ & Hv & ->). eexists. split; [done|].
  apply deref_payload; [by rewrite Hb|done].
Qed.

Lemma dest_ok_payload s L p b v :
  p ∈ L -> payload <$> nodes s !! p = Some (payload b) -> bucket_val (blocks s) b = Some v ->
  dest_ok s L (bucket_key b) v (Some (loc_of p b)).
Proof.
  intros Hp Hpay Hv. apply fmap_Some in Hpay as (b' & Hb' & E). exists p, b'.
  split_and!; [done|done|symmetry; by apply payload_key| |by erewrite payload_loc].
  by rewrite <- (payload_val _ _ _ E).
Qed.

(** What an insertion of a new element leaves unchanged in the struct. *)
Definition same_config (ht ht' : HashTable) : Prop :=
  pDestructor ht' = pDestructor ht /\ persistent ht' = persistent ht /\
  nApplyCount ht' = nApplyCount ht /\ bApplyProtection ht' = bApplyProtection ht.

(** The end of every insertion: the slot, the order list, the counters and the
    resize, after the bucket was linked into its chain. *)
Lemma wp_append_finish {A} s m1 ht L p b v nf g (f : HashTable -> cmd (store (Bucket V) V) A) Q :
  ht_rep s ht L -> nTableMask ht = nTableSize ht - 1 ->
  nodes s !! p = Some b -> p ∉ L -> bucket_ok p b -> bucket_val (blocks s) b = Some v ->
  (forall q bq, q ∈ L -> nodes s !! q = Some bq -> bucket_key bq <> bucket_key b) ->
  (forall a, pData b = AtBlock a -> ~ owned s L a) ->
  Z.of_nat (length L) + 1 < 2 ^ 32 ->
  0 <= nf <= LONG_MAX -> (nNextFreeElement ht <= nf) ->
  (nKeyLength b = 0 -> s64 (b_h b) < nf \/ nf = LONG_MAX) ->
  (forall ht', nNextFreeElement ht' = nNextFreeElement ht -> g ht' = set_nNextFreeElement nf ht') ->
  slots_ok m1 (set_arBuckets (<[hash_index ht (b_h b) := Some p]> (arBuckets ht)) ht) (L ++ [p]) ->
  (forall q, strip_hash <$> m1 !! q = strip_hash <$> nodes s !! q) ->
  (forall q, q ∉ L ++ [p] -> m1 !! q = nodes s !! q) ->
  (forall s' ht', ht_rep s' ht' (L ++ [p]) ->
     contents s' (L ++ [p]) = contents s L ++ [(bucket_key b, v)] ->
     same_rest s (L ++ [p]) s' (L ++ [p]) -> dtor_trace s' = dtor_trace s ->
     same_config ht ht' -> nNextFreeElement ht' = nf ->
     pInternalPointer ht' = match pInternalPointer ht with None => Some p | Some q => Some q end ->
     dest_ok s' (L ++ [p]) (bucket_key b) v (Some (loc_of p b)) ->
     wp (f ht') Q s') ->
  wp (ht ← write_slot ht (hash_index ht (b_h b)) (Some p);
      ht ← CONNECT_TO_GLOBAL_DLLIST p ht;
      let ht := set_nNumOfElements (u32 (nNumOfElements (g ht) + 1)) (g ht) in
      ht ← ZEND_HASH_IF_FULL_DO_RESIZE ht;
      f ht) Q (set_nodes m1 s).
Proof.
  intros HR Hmask Hb Hp Hok Hv Hkey Hblk Hlen Hnf Hnf2 Hkeynf Hg HS Hobs Hout HQ.
  destruct (rep_order _ _ _ HR) as (HL & Hhd & Htl & Hn & Hlt).
  wp_step. apply wp_write_slot; [by eapply hash_index_lt, HR|].
  set (arB := <[_ := Some p]> (arBuckets ht)) in *.
  destruct (agree_strip_hash (nodes s) m1 L Hobs) as [_ Hlk].
  assert (is_Some (m1 !! p)) as [b1 Hb1].
  { specialize (Hobs p). rewrite Hb in Hobs. destruct (m1 !! p); [eauto|done]. }
  wp_step. apply (wp_connect_global p b1 _ L); simpl; [done|done| |done|done|].
  { eapply dll_frame; [exact Hlk|done]. }
  intros m2 HL2 Hout2 Hobs2. rewrite Hg by done. simpl.
  assert (forall q, payload <$> m2 !! q = payload <$> nodes s !! q) as Hpay.
  { intros q. assert (agree payload m1 m2 [q]) as Ha.
    { apply (agree_weaken strip_list); [apply strip_list_payload|by intros ? _]. }
    assert (agree payload (nodes s) m1 [q]) as Ha1 by apply agree_strip_hash, Hobs.
    rewrite Ha, Ha1 by set_solver. done. }
  assert (slots_ok m2 (set_arBuckets arB ht) (L ++ [p])) as HS2.
  { eapply slots_ok_agree; [|done|done|exact HS].
    apply (agree_weaken strip_list); [apply strip_list_chain_obs|by intros ? _]. }
  assert (length arB = length (arBuckets ht)) as HlenB by apply length_insert.
  pose proof (append_rep s ht L p b v m2 arB nf HR Hmask Hb Hp Hok Hv Hkey Hblk Hlen Hnf Hnf2
    Hkeynf HlenB HL2 HS2 Hpay) as HR2.
  wp_step. eapply (wp_if_full_resize (set_nodes m2 s) (appended_ht ht L p arB nf)); [done|done|].
  intros s' size arB' ht' Hsize HR' Hcont Hrest Htr Hbl Hobs'. apply HQ; try done.
  - rewrite Hcont. by eapply append_contents.
  - eapply same_rest_trans; [|exact Hrest]. apply same_rest_agree; simpl; [by intros q _|done|].
    intros q Hq. by rewrite Hout2, Hout by done.
  - apply dest_ok_payload; [set_solver| |].
    + assert (agree payload m2 (nodes s') [p]) as Ha by apply agree_strip_hash, Hobs'.
      rewrite Ha by set_solver. rewrite Hpay, Hb. done.
    + by rewrite Hbl.
Qed.

(** ** A new bucket *)

Lemma wp_init_data s p b0 v n Q :
  nodes s !! p = Some b0 ->
  (forall b bl, strip_data b0 = strip_data b -> bucket_val bl b = Some v ->
     ((pData b = AtDataPtr /\ bl = blocks s) \/
      (exists a, pData b = AtBlock a /\ blocks s !! a = None /\ bl = <[a := v]> (blocks s))) ->
     Q tt (Store (<[p := b]> (nodes s)) bl (dtor_trace s))) ->
  wp (INIT_DATA p v n) Q s.
Proof.
  intros Hb HQ. unfold INIT_DATA. destruct (n =? sizeof_ptr).
  - wp_step. eapply wp_update; [done|]. rewrite (alter_insert_Some _ _ _ b0) by done.
    eapply wp_update; [simpl; apply lookup_insert_eq|]. simpl.
    rewrite (alter_insert_Some _ _ _ _ (lookup_insert_eq _ _ _)), insert_insert_eq.
    apply HQ; [by destruct b0|done|by left].
  - wp_step. apply wp_alloc_block. intros a Hna Hba. wp_step. eapply wp_update; [done|]. simpl.
    rewrite (alter_insert_Some _ _ _ b0) by done. eapply wp_update; [simpl; apply lookup_insert_eq|].
    simpl. rewrite (alter_insert_Some _ _ _ _ (lookup_insert_eq _ _ _)), insert_insert_eq.
    apply HQ; [by destruct b0| |right; by exists a].
    unfold bucket_val. simpl. apply lookup_insert_eq.
Qed.

(** Memory with a new bucket [p] holding [b] and its data, not yet linked. *)
Definition new_bucket_state (s : store (Bucket V) V) (p : ptr) (b : Bucket V)
    (s1 : store (Bucket V) V) : Prop :=
  nodes s !! p = None /\ nodes s1 = <[p := b]> (nodes s) /\ dtor_trace s1 = dtor_trace s /\
  ((pData b = AtDataPtr /\ blocks s1 = blocks s) \/
   exists a v, pData b = AtBlock a /\ blocks s !! a = None /\ blocks s1 = <[a := v]> (blocks s)).

Lemma new_bucket_frame s ht L p b s1 :
  ht_rep s ht L -> new_bucket_state s p b s1 ->
  ht_rep s1 ht L /\ contents s1 L = contents s L /\ p ∉ L /\
  (forall a, pData b = AtBlock a -> ~ owned s1 L a) /\ same_rest s L s1 (L ++ [p]).
Proof.
  intros HR (Hp & Hn & _ & Hbl).
  assert (p ∉ L) as HpL.
  { intros Hin. destruct (rep_entry _ _ _ _ HR Hin) as (? & ? & ? & _). congruence. }
  assert (forall q, q ∈ L -> nodes s1 !! q = nodes s !! q) as Hq.
  { intros q Hq. rewrite Hn, lookup_insert_ne; [done|]. by intros ->. }
  assert (forall a, owned s1 L a <-> owned s L a) as Ho.
  { intros a. split; apply owned_agree; intros q Hq'; by rewrite Hq. }
  assert (forall a, pData b = AtBlock a -> ~ owned s1 L a) as Hex.
  { intros a Hd Hoa. apply Ho in Hoa. destruct (owned_live _ _ _ _ HR Hoa).
    destruct Hbl as [[? _]|(a' & ? & ? & ? & _)]; congruence. }
  assert (agree_blocks s s1 L) as Hab.
  { intros a Hoa. destruct Hbl as [[_ ->]|(a' & v & Hd & Hna & ->)]; [done|].
    rewrite lookup_insert_ne; [done|]. intros ->. apply (Hex a Hd). by apply Ho. }
  assert (forall a, owned s1 (L ++ [p]) a <-> owned s L a \/ pData b = AtBlock a) as Ho'.
  { intros a. rewrite <- Ho. split.
    - intros (q & bq & [Hq'| ->]%elem_of_snoc & Hbq & Hd); [left; by exists q, bq|].
      rewrite Hn, lookup_insert_eq in Hbq. right. congruence.
    - intros [Hoa|Hd]; [eapply owned_subset; [|done]; set_solver|]. exists p, b.
      rewrite Hn, lookup_insert_eq. set_solver. }
  split_and!; [by eapply rep_frame|by apply contents_frame|done|done|]. split.
  - intros q bq. rewrite Hn, lookup_insert_Some, elem_of_snoc. clear -Hp. naive_solver.
  - intros a w. rewrite Ho'. clear -Hbl.
    destruct Hbl as [[Hd ->]|(a' & v & Hd & Hna & ->)]; rewrite Hd; [naive_solver|].
    rewrite lookup_insert_Some. naive_solver.
Qed.

(** ** The insertion rules *)

(** What inserting [v] under [key] does to a table with contents [E]: an
    existing element is overwritten in place, unless only additions are wanted
    ([upd = false]); a new element is appended, [nf] becoming the next free
    integer index. *)
Definition insert_post (s : store (Bucket V) V) (ht : HashTable) (L : list ptr) (key : hkey) (v : V)
    (upd : bool) (nf : Z) (r : zresult * option dataloc * HashTable)
    (s' : store (Bucket V) V) : Prop :=
  let '(res, d, ht') := r in
  match om_lookup key (contents s L) with
  | Some old =>
      ht' = CHECK_INIT ht /\
      if upd then
        res = SUCCESS /\ ht_rep s' ht' L /\ contents s' L = om_insert key v (contents s L) /\
        same_rest s L s' L /\
        dtor_trace s' = dtor_trace s ++ (if pDestructor ht then [old] else []) /\
        dest_ok s' L key v d
      else res = FAILURE /\ d = None /\ s' = s
  | None =>
      res = SUCCESS /\
      exists p, ht_rep s' ht' (L ++ [p]) /\ contents s' (L ++ [p]) = om_insert key v (contents s L) /\
        same_rest s L s' (L ++ [p]) /\ dtor_trace s' = dtor_trace s /\ same_config ht ht' /\
        nNextFreeElement ht' = nf /\
        pInternalPointer ht' = match pInternalPointer ht with None => Some p | Some q => Some q end /\
        dest_ok s' (L ++ [p]) key v d
  end.

Lemma CHECK_INIT_fields ht :
  same_config ht (CHECK_INIT ht) /\ nNextFreeElement (CHECK_INIT ht) = nNextFreeElement ht /\
  pInternalPointer (CHECK_INIT ht) = pInternalPointer ht /\
  nNumOfElements (CHECK_INIT ht) = nNumOfElements ht /\
  pListHead (CHECK_INIT ht) = pListHead ht /\ pListTail (CHECK_INIT ht) = pListTail ht.
Proof. unfold CHECK_INIT, same_config. by destruct (_ =? _). Qed.

(** The branch that found the key. *)
Lemma insert_found s ht L1 p L2 b key :
  ht_rep s ht (L1 ++ p :: L2) -> nodes s !! p = Some b -> bucket_key b = key ->
  exists old, entry s p = Some (key, old) /\
    om_lookup key (contents s (L1 ++ p :: L2)) = Some old /\
    forall v, om_insert key v (contents s (L1 ++ p :: L2)) = contents s L1 ++ (key, v) :: contents s L2.
Proof.
  intros HR Hb Hk. pose proof (rep_contents_keys _ _ _ HR) as HND.
  destruct (contents_mid _ _ _ _ _ HR) as (b' & old & Hb' & _ & _ & He & Hc).
  assert (b' = b) as -> by congruence. rewrite Hk in *. rewrite Hc in *.
  pose proof (om_lookup_mid _ _ _ _ HND) as Hl. exists old. split_and!; [done|done|].
  intros v. unfold om_insert. rewrite Hl. by apply om_set_mid.
Qed.

(** The branch that did not. *)
Lemma insert_absent s ht L key :
  ht_rep s ht L -> (forall p b, p ∈ L -> nodes s !! p = Some b -> bucket_key b <> key) ->
  om_lookup key (contents s L) = None /\
  forall v, om_insert key v (contents s L) = contents s L ++ [(key, v)].
Proof.
  intros HR Hn. assert (om_lookup key (contents s L) = None) as Hl.
  { apply om_lookup_None. intros (p & b & Hp & Hb & Hk)%contents_keys_elem. by apply (Hn p b). }
  split; [done|]. intros v. unfold om_insert. by rewrite Hl.
Qed.

Definition str_bucket (k : keyarg) (p : ptr) : Bucket V :=
  set_nKeyLength (k_len k)
    (if IS_INTERNED (k_ptr k) then set_arKey (k_ptr k) uninit
     else set_keybuf (k_bytes k) (set_arKey (KBucket p) uninit)).

Lemma wp_new_str_bucket {A} s k (f : ptr -> cmd (store (Bucket V) V) A) Q :
  (forall p, nodes s !! p = None -> blocks s !! p = None ->
     wp (f p) Q (set_nodes (<[p := str_bucket k p]> (nodes s)) s)) ->
  wp (p ← new_str_bucket uninit k; update p (set_nKeyLength (k_len k)) ;; f p) Q s.
Proof.
  intros HQ. unfold new_str_bucket. apply wp_bind, wp_bind, wp_alloc_node. intros p Hp Hbp.
  specialize (HQ p Hp Hbp). unfold str_bucket in HQ. destruct (IS_INTERNED (k_ptr k)).
  - wp_step. eapply wp_update; [apply lookup_insert_eq|]. wp_step. wp_step. simpl.
    rewrite (alter_insert_Some _ _ _ _ (lookup_insert_eq _ _ _)), insert_insert_eq.
    eapply wp_update; [apply lookup_insert_eq|]. simpl.
    rewrite (alter_insert_Some _ _ _ _ (lookup_insert_eq _ _ _)), insert_insert_eq. exact HQ.
  - wp_step. eapply wp_update; [apply lookup_insert_eq|]. simpl.
    rewrite (alter_insert_Some _ _ _ _ (lookup_insert_eq _ _ _)), insert_insert_eq.
    wp_step. eapply wp_update; [apply lookup_insert_eq|]. wp_step. wp_step. simpl.
    rewrite (alter_insert_Some _ _ _ _ (lookup_insert_eq _ _ _)), insert_insert_eq.
    eapply wp_update; [apply lookup_insert_eq|]. simpl.
    rewrite (alter_insert_Some _ _ _ _ (lookup_insert_eq _ _ _)), insert_insert_eq.
    unfold k_len in *. rewrite take_ge by lia. exact HQ.
Qed.

Lemma str_bucket_ok s k p b :
  keyarg_ok s k -> strip_data (str_bucket k p) = strip_data b ->
  bucket_ok p (set_b_h (zend_inline_hash_func (k_bytes k)) b) /\
  bucket_key (set_b_h (zend_inline_hash_func (k_bytes k)) b) = HStr (k_bytes k).
Proof.
  intros (Hk0 & Hkp) Hs.
  assert (nKeyLength b = k_len k /\ key_bytes b = k_bytes k /\
    ((exists x, arKey b = KInterned x) \/ arKey b = KBucket p)) as (Hl & Hkb & Ha).
  { revert Hs. unfold str_bucket, key_bytes. destruct (k_ptr k) eqn:Hkq; simpl in *; [done|..];
      destruct b; cbn; intros [=]; subst; naive_solver. }
  assert (bucket_ok p (set_b_h (zend_inline_hash_func (k_bytes k)) b)) as Hok.
  { split; simpl; [split; [apply zend_inline_hash_func_range|lia]|].
    change (key_bytes (set_b_h (zend_inline_hash_func (k_bytes k)) b)) with (key_bytes b).
    rewrite Hl, Hkb. unfold k_len in *. destruct (Z.of_nat (length (k_bytes k))) eqn:E; [lia|done|lia]. }
  split; [done|]. apply (bucket_key_str p); [done|]. simpl. rewrite Hl. split; [lia|done].
Qed.

Lemma wp_quick_add_or_update s ht L k v n flag :
  ht_rep s ht L -> keyarg_ok s k -> Z.of_nat (length L) + 1 < 2 ^ 32 ->
  wp (_zend_hash_quick_add_or_update uninit ht k (zend_inline_hash_func (k_bytes k)) v n flag)
    (insert_post s ht L (HStr (k_bytes k)) v (bool_decide (flag <> HASH_ADD)) (nNextFreeElement ht)) s.
Proof.
  intros HR Hk Hlen. unfold _zend_hash_quick_add_or_update. cbv zeta.
  destruct (check_init_rep _ _ _ HR) as [HR1 Hm1].
  destruct (CHECK_INIT_fields ht) as (Hcfg & Hnf & Hip & _ & _ & _).
  set (ht1 := CHECK_INIT ht) in *. wp_step. set (h := zend_inline_hash_func (k_bytes k)).
  apply (wp_chain_search ht1 L _ (HStr (k_bytes k))); [done|..].
  - intros p b Hp Hb. by eapply str_match_key.
  - intros p b Hp Hb Hkey. by eapply str_key_hash.
  - intros L1 p L2 b -> Hb Hkey.
    destruct (insert_found _ _ _ _ _ _ _ HR1 Hb Hkey) as (old & He & Hl & Hins).
    unfold insert_post. rewrite Hl. fold ht1. case_decide as Hf.
    + wp_step. split; [done|]. by rewrite bool_decide_eq_false_2 by naive_solver.
    + rewrite bool_decide_eq_true_2 by done. wp_step. apply (wp_overwrite ht1 L1 p L2); [done|].
      intros b' old' s' Hb' He' HR' Hc' Hrest Htr (b2 & Hb2 & Hk2 & Hv2).
      assert (b' = b) as -> by congruence. assert (old' = old) as -> by congruence.
      wp_step. eapply wp_data_loc; [done|]. wp_step. rewrite Hins. split_and!; try done.
      * by rewrite Hc', Hkey.
      * destruct Hcfg as (Hd & _). by rewrite <- Hd.
      * exists p, b2. split_and!; [set_solver|done|congruence|done..].
  - intros Hnone. destruct (insert_absent _ _ _ _ HR1 Hnone) as [Hl Hins].
    unfold insert_post. rewrite Hl, Hins.
    apply wp_new_str_bucket. intros p Hp Hbp. wp_step.
    eapply wp_init_data; [apply lookup_insert_eq|]. simpl. intros b bl Hs Hv Hbl.
    rewrite insert_insert_eq. wp_step. eapply wp_update; [apply lookup_insert_eq|]. simpl.
    rewrite (alter_insert_Some _ _ _ _ (lookup_insert_eq _ _ _)), insert_insert_eq.
    destruct (str_bucket_ok s k p b Hk Hs) as [Hok Hkey].
    set (b1 := set_b_h h b). set (s1 := Store (<[p := b1]> (nodes s)) bl (dtor_trace s)).
    assert (new_bucket_state s p b1 s1) as Hnew.
    { split_and!; [done..|]. simpl. destruct Hbl as [?|(a & ? & ? & ?)]; [by left|right; by exists a, v]. }
    destruct (new_bucket_frame _ _ _ _ _ _ HR1 Hnew) as (HR2 & Hc2 & HpL & Hblk & Hrest).
    change (set_nodes _ _) with s1. change h with (b_h b1) at 1 2.
    assert (nodes s1 !! p = Some b1) as Hb1 by apply lookup_insert_eq.
    assert (forall q bq, q ∈ L -> nodes s1 !! q = Some bq -> bucket_key bq <> bucket_key b1) as Hfresh.
    { intros q bq Hq Hbq. unfold b1, h. rewrite Hkey. apply (Hnone q); [done|].
      simpl in Hbq. rewrite lookup_insert_ne in Hbq; [done|]. by intros ->. }
    apply (wp_slot_connect ht1 L (L ++ [p]) p b1); [apply HR2| |done|intros q; apply elem_of_snoc|done|].
    { intros x. eapply hash_index_lt, HR1. }
    intros m1 i HS Hobs Hout. wp_step.
    assert (exists b2, m1 !! p = Some b2 /\ payload b1 = payload b2) as (b2 & Hb2 & Hpay).
    { specialize (Hobs p). rewrite Hb1 in Hobs. apply fmap_Some in Hobs as Hx.
      destruct (m1 !! p) as [b2|]; [|done]. exists b2. split; [done|]. apply (inj Some) in Hobs.
      by apply strip_hash_payload. }
    eapply wp_data_loc; [done|]. rewrite <- (payload_loc _ _ _ Hpay).
    apply (wp_append_finish s1 m1 ht1 L p b1 v (nNextFreeElement ht1) (fun ht => ht));
      [done|done|done|done|done|done|done|done|done|apply (rep_next _ _ _ HR1)|lia| | |done..|].
    { intros Hz. destruct Hk as (? & _). exfalso. revert Hok Hkey. fold b1. intros Hok Hkey.
      apply (bucket_key_str p) in Hkey as [? _]; [done|done]. }
    { intros [] Hx. simpl in Hx. unfold set_nNextFreeElement. simpl. by rewrite Hx. }
    intros s' ht' HR' Hc' Hrest' Htr Hcfg' Hnf' Hip' Hd. wp_step. split; [done|]. exists p.
    split_and!; [done| | |done| | | |].
    + rewrite Hc', Hc2. unfold b1, h. by rewrite Hkey.
    + by eapply same_rest_trans.
    + unfold same_config in *. intuition congruence.
    + congruence.
    + by rewrite Hip', Hip.
    + unfold b1, h in Hd. by rewrite Hkey in Hd.
Qed.

(** Assigning the slot before or after linking into the order list makes no
    difference, so the two string insertions agree. *)
Lemma write_slot_connect_global ht p i o s :
  (ht ← CONNECT_TO_GLOBAL_DLLIST p ht; write_slot ht i o) s =
  (ht ← write_slot ht i o; CONNECT_TO_GLOBAL_DLLIST p ht) s.
Proof.
  unfold write_slot, CONNECT_TO_GLOBAL_DLLIST, CONNECT_TO_GLOBAL_DLLIST_EX, mbind, cmd_bind, mret,
    cmd_ret, cfault, update, update_opt.
  destruct (arBuckets ht !! i) as [x|] eqn:Hi; simpl;
    repeat (case_match; simplify_eq/=; try done).
Qed.

Lemma add_or_update_quick ht k v n flag s :
  _zend_hash_add_or_update uninit ht k v n flag s =
  _zend_hash_quick_add_or_update uninit ht k (zend_inline_hash_func (k_bytes k)) v n flag s.
Proof.
  unfold _zend_hash_add_or_update, _zend_hash_quick_add_or_update. cbv zeta.
  apply bind_ext. intros [p|] s1; [done|]. apply bind_ext. intros p s2.
  do 6 (apply bind_ext; intros ? ?).
  set (ht1 := CHECK_INIT ht). set (i := hash_index _ _).
  etransitivity.
  { symmetry. apply (bind_assoc (CONNECT_TO_GLOBAL_DLLIST p ht1) (fun ht => write_slot ht i (Some p))). }
  etransitivity; [apply bind_ext_l, write_slot_connect_global|].
  apply (bind_assoc (write_slot ht1 i (Some p)) (fun ht => CONNECT_TO_GLOBAL_DLLIST p ht)).
Qed.

(** ** Integer keys *)

Definition next_free_after (h nf : Z) : Z :=
  if s64 nf <=? s64 h then (if h <? LONG_MAX then h + 1 else LONG_MAX) else nf.

Lemma s64_cases h : 0 <= h < 2 ^ 64 -> (h < 2 ^ 63 /\ s64 h = h) \/ (2 ^ 63 <= h /\ s64 h = h - 2 ^ 64).
Proof.
  intros Hh. unfold wrap_s. destruct (decide (h < 2 ^ 63)) as [H|H].
  - left. split; [done|]. rewrite Z.mod_small; lia.
  - right. split; [lia|]. change (64 - 1) with 63.
    replace (h + 2 ^ 63) with (h - 2 ^ 63 + 1 * 2 ^ 64) by lia.
    rewrite Z_mod_plus_full, Z.mod_small; lia.
Qed.

Lemma next_free_after_ok h nf :
  0 <= h < 2 ^ 64 -> 0 <= nf <= LONG_MAX ->
  0 <= next_free_after h nf <= LONG_MAX /\ nf <= next_free_after h nf /\
  (s64 h < next_free_after h nf \/ next_free_after h nf = LONG_MAX).
Proof.
  intros Hh Hnf. unfold next_free_after, LONG_MAX in *.
  destruct (s64_cases h Hh) as [[H1 E1]|[H1 E1]]; destruct (s64_cases nf) as [[H2 E2]|[H2 E2]];
    rewrite ?E1, ?E2; try lia;
    repeat match goal with |- context [if ?x then _ else _] => destruct x eqn:? end; lia.
Qed.

Definition int_bucket (h : Z) : Bucket V :=
  set_b_h h (set_nKeyLength 0 (set_arKey KNull uninit)).

Lemma int_bucket_ok h p b :
  0 <= h < 2 ^ 64 -> strip_data (int_bucket h) = strip_data b ->
  bucket_ok p b /\ bucket_key b = HInt h /\ b_h b = h.
Proof.
  intros Hh Hs. assert (nKeyLength b = 0 /\ arKey b = KNull /\ b_h b = h) as (Hl & Ha & Hb).
  { revert Hs. destruct b; cbn. by intros [=]; subst. }
  split_and!; [|by apply bucket_key_int|done]. split; rewrite ?Hb, ?Hl; [done|auto].
Qed.

Lemma wp_index_update_or_next_insert s ht L h v n flag :
  let key := if decide (flag = HASH_NEXT_INSERT) then nNextFreeElement ht else h in
  ht_rep s ht L -> 0 <= h < 2 ^ 64 -> Z.of_nat (length L) + 1 < 2 ^ 32 ->
  wp (_zend_hash_index_update_or_next_insert uninit ht h v n flag)
    (insert_post s ht L (HInt key) v (bool_decide (flag = HASH_UPDATE))
       (next_free_after key (nNextFreeElement ht))) s.
Proof.
  intros key HR Hh0 Hlen. unfold _zend_hash_index_update_or_next_insert. cbv zeta.
  destruct (check_init_rep _ _ _ HR) as [HR1 Hm1].
  destruct (CHECK_INIT_fields ht) as (Hcfg & Hnf & Hip & _ & _ & _).
  destruct (rep_next _ _ _ HR) as [Hnfr _].
  set (ht1 := CHECK_INIT ht) in *. rewrite Hnf. fold key.
  assert (0 <= key < 2 ^ 64) as Hh by (unfold key, LONG_MAX in *; case_decide; lia).
  clearbody key. wp_step.
  apply (wp_chain_search ht1 L _ (HInt key)); [done|..].
  - intros p b Hp Hb. apply int_match_key.
  - intros p b Hp Hb Hkey. by apply int_key_hash.
  - intros L1 p L2 b -> Hb Hkey.
    destruct (insert_found _ _ _ _ _ _ _ HR1 Hb Hkey) as (old & He & Hl & Hins).
    unfold insert_post. rewrite Hl. fold ht1. case_decide as Hf.
    + rewrite bool_decide_eq_true_2 by done. wp_step. apply (wp_overwrite ht1 L1 p L2); [done|].
      intros b' old' s' Hb' He' HR' Hc' Hrest Htr (b2 & Hb2 & Hk2 & Hv2).
      assert (b' = b) as -> by congruence. assert (old' = old) as -> by congruence.
      wp_step. eapply wp_data_loc; [done|]. wp_step. rewrite Hins. split_and!; try done.
      * by rewrite Hc', Hkey.
      * destruct Hcfg as (Hd & _). by rewrite <- Hd.
      * exists p, b2. split_and!; [set_solver|done|congruence|done..].
    + wp_step. split; [done|]. by rewrite bool_decide_eq_false_2 by naive_solver.
  - intros Hnone. destruct (insert_absent _ _ _ _ HR1 Hnone) as [Hl Hins].
    unfold insert_post. rewrite Hl, Hins. wp_step. apply wp_alloc_node. intros p Hp Hbp.
    do 3 (wp_step; eapply wp_update; [apply lookup_insert_eq|]; simpl;
      rewrite (alter_insert_Some _ _ _ _ (lookup_insert_eq _ _ _)), insert_insert_eq).
    wp_step. eapply wp_init_data; [apply lookup_insert_eq|]. simpl. intros b1 bl Hs Hv Hbl.
    rewrite insert_insert_eq. destruct (int_bucket_ok key p b1 Hh Hs) as (Hok & Hkey & Hbh).
    set (s1 := Store (<[p := b1]> (nodes s)) bl (dtor_trace s)).
    assert (new_bucket_state s p b1 s1) as Hnew.
    { split_and!; [done..|]. simpl. destruct Hbl as [?|(a & ? & ? & ?)]; [by left|right; by exists a, v]. }
    destruct (new_bucket_frame _ _ _ _ _ _ HR1 Hnew) as (HR2 & Hc2 & HpL & Hblk & Hrest).
    assert (nodes s1 !! p = Some b1) as Hb1 by apply lookup_insert_eq.
    assert (forall q bq, q ∈ L -> nodes s1 !! q = Some bq -> bucket_key bq <> bucket_key b1) as Hfresh.
    { intros q bq Hq Hbq. rewrite Hkey. apply (Hnone q); [done|].
      simpl in Hbq. rewrite lookup_insert_ne in Hbq; [done|]. by intros ->. }
    wp_step. eapply wp_data_loc; [done|].
    replace (hash_index ht1 key) with (hash_index ht1 (b_h b1)) by by rewrite Hbh.
    apply (wp_slot_connect ht1 L (L ++ [p]) p b1);
      [apply HR2| |done|intros q; apply elem_of_snoc|done|].
    { intros x. eapply hash_index_lt, HR1. }
    intros m1 i HS Hobs Hout.
    destruct (next_free_after_ok key (nNextFreeElement ht) Hh Hnfr) as (Hn1 & Hn2 & Hn3).
    apply (wp_append_finish s1 m1 ht1 L p b1 v (next_free_after key (nNextFreeElement ht))
      (bump_next_free key)); [done|done|done|done|done|done|done|done|done|done|lia| | |done..|].
    { intros _. by rewrite Hbh. }
    { intros ht' Hx. unfold bump_next_free, next_free_after. rewrite Hx, Hnf.
      destruct (_ <=? _); [done|]. destruct ht'; simpl in *. by rewrite Hx, Hnf. }
    intros s' ht' HR' Hc' Hrest' Htr Hcfg' Hnf' Hip' Hd. wp_step. split; [done|]. exists p.
    split_and!; [done| | |done| |done| |].
    + by rewrite Hc', Hc2, Hkey.
    + by eapply same_rest_trans.
    + unfold same_config in *. intuition congruence.
    + by rewrite Hip', Hip.
    + by rewrite Hkey in Hd.
Qed.

(** Below LONG_MAX the next free index is not in use, and using it moves it on by one. *)
Lemma next_free_unused s ht L :
  ht_rep s ht L -> nNextFreeElement ht < LONG_MAX ->
  om_lookup (HInt (nNextFreeElement ht)) (contents s L) = None /\
  next_free_after (nNextFreeElement ht) (nNextFreeElement ht) = nNextFreeElement ht + 1.
Proof.
  intros HR Hnf. destruct (rep_next _ _ _ HR) as [Hr Hall]. unfold LONG_MAX in *. split.
  - apply om_lookup_None. intros (p & b & Hp & Hb & [Hz Hh]%bucket_key_int)%contents_keys_elem.
    destruct (Hall p b Hp Hb Hz) as [Hlt|Hlt]; unfold LONG_MAX in *; [|lia].
    destruct (s64_cases (b_h b)); [lia|lia|]. rewrite Hh in *. lia.
  - unfold next_free_after, LONG_MAX.
    destruct (s64_cases (nNextFreeElement ht)) as [[? ->]|[? _]]; [lia| |lia].
    rewrite Z.leb_refl. destruct (Z.ltb_spec (nNextFreeElement ht) (2 ^ 63 - 1)); lia.
Qed.

End append.
