(* ===== verification/ZendHashFind.v ===== *)
(** * ZendHashFind: lookup and deletion by key

    The search loops of the lookup and deletion functions of
    src/Zend/zend_hash.c find exactly the element the abstract map has. *)
From S2P Require Import Prelude Memory Dllist HashFunc OrderedMap ZendHash ZendHashRep ZendHashLink.
From S2P Require Import ZendHashDelete ZendHashRehash ZendHashInsert ZendHashAppend.
From stdpp Require Import base list gmap.
Local Open Scope Z_scope.

Section find.
Context {V : Type} {AL : Allocator}.
Implicit Types (m : gmap ptr (Bucket V)) (b : Bucket V) (p q : ptr) (L c : list ptr).
Implicit Types (s : store (Bucket V) V) (ht : HashTable).

(** The bucket [o] is the one whose key is [key], if there is one. *)
Definition found_ok (s : store (Bucket V) V) (L : list ptr) (key : hkey) (o : option ptr) : Prop :=
  match om_lookup key (contents s L) with
  | Some v => exists L1 p L2 b, o = Some p /\ L = L1 ++ p :: L2 /\ nodes s !! p = Some b /\
                bucket_key b = key /\ bucket_val (blocks s) b = Some v
  | None => o = None
  end.

Lemma wp_key_search ht L test key h Q s :
  ht_rep s ht L ->
  (forall p b, p ∈ L -> nodes s !! p = Some b -> test b = bool_decide (bucket_key b = key)) ->
  (forall p b, p ∈ L -> nodes s !! p = Some b -> bucket_key b = key -> b_h b = h) ->
  (forall o, found_ok s L key o -> Q o s) -> wp (chain_search ht test h) Q s.
Proof.
  intros HR Ht Hh HQ. apply (wp_chain_search ht L _ key); [done..| |].
  - intros L1 p L2 b -> Hb Hk. apply HQ. unfold found_ok.
    destruct (insert_found _ _ _ _ _ _ _ HR Hb Hk) as (old & He & -> & _).
    exists L1, p, L2, b. split_and!; [done..|]. unfold entry in He. rewrite Hb in He. simpl in He.
    destruct (bucket_val (blocks s) b); by simplify_eq/=.
  - intros Hn. apply HQ. unfold found_ok.
    by destruct (insert_absent _ _ _ _ HR Hn) as [-> _].
Qed.

Lemma wp_str_search ht L k Q s :
  ht_rep s ht L -> keyarg_ok s k ->
  (forall o, found_ok s L (HStr (k_bytes k)) o -> Q o s) ->
  wp (chain_search ht (str_match k (zend_inline_hash_func (k_bytes k)))
        (zend_inline_hash_func (k_bytes k))) Q s.
Proof.
  intros HR Hk. apply wp_key_search; [done|..]; intros p b Hp Hb.
  - by eapply str_match_key.
  - by eapply str_key_hash.
Qed.

Lemma wp_int_search ht L h Q s :
  ht_rep s ht L -> (forall o, found_ok s L (HInt h) o -> Q o s) ->
  wp (chain_search ht (int_match h) h) Q s.
Proof.
  intros HR. apply wp_key_search; [done|..]; intros p b Hp Hb.
  - apply int_match_key.
  - apply int_key_hash.
Qed.

(** The deletion test compares the bytes only. *)
Lemma del_match_str s ht L k p b :
  ht_rep s ht L -> keyarg_ok s k -> p ∈ L -> nodes s !! p = Some b ->
  del_match k (zend_inline_hash_func (k_bytes k)) b = bool_decide (bucket_key b = HStr (k_bytes k)).
Proof.
  intros HR (Hk0 & _) Hp Hb. destruct (rep_buckets _ _ _ HR p b Hp Hb) as [Hok _].
  apply eq_bool_prop_intro. rewrite bool_decide_spec, (bucket_key_str p) by done.
  unfold del_match. rewrite !andb_True, orb_True, !Is_true_true, !Z.eqb_eq. unfold k_len in *. split.
  - intros [[Hh Hl] [Hc|Hc]]; [lia|]. assert (nKeyLength b <> 0) as E by lia. split; [done|].
    destruct (bucket_ok_str _ _ Hok E) as (_ & Hl' & _).
    rewrite memcmp_eq_full in Hc by lia. by apply bool_decide_eq_true in Hc.
  - intros [E Hkb]. destruct (bucket_ok_str _ _ Hok E) as (_ & Hl' & Hh). rewrite Hkb in *.
    split; [done|]. right. rewrite memcmp_eq_full by lia. by rewrite bool_decide_eq_true.
Qed.

Lemma del_match_int h b : del_match no_key h b = bool_decide (bucket_key b = HInt h).
Proof.
  apply eq_bool_prop_intro. rewrite bool_decide_spec, bucket_key_int.
  unfold del_match, no_key, k_len. simpl. rewrite !andb_True, orb_True, !Is_true_true, !Z.eqb_eq. tauto.
Qed.

Lemma wp_find_result s ht L key o Q :
  ht_rep s ht L -> found_ok s L key o ->
  (forall v d, om_lookup key (contents s L) = Some v -> dest_ok s L key v (Some d) ->
     Q (SUCCESS, Some d) s) ->
  (om_lookup key (contents s L) = None -> Q (FAILURE, None) s) ->
  wp (match o with Some p => d ← data_loc p; mret (SUCCESS, Some d) | None => mret (FAILURE, None) end) Q s.
Proof.
  intros HR Hf HS HN. unfold found_ok in Hf. destruct (om_lookup key (contents s L)) as [v|].
  - destruct Hf as (L1 & p & L2 & b & -> & -> & Hb & Hk & Hv). wp_step.
    eapply wp_data_loc; [done|]. wp_step. apply (HS v); [done|]. exists p, b. set_solver.
  - subst o. wp_step. auto.
Qed.

Lemma found_ok_is_Some s L key o :
  found_ok s L key o -> bool_decide (is_Some o) = bool_decide (is_Some (om_lookup key (contents s L))).
Proof.
  unfold found_ok. destruct (om_lookup key (contents s L)) as [v|].
  - by intros (? & ? & ? & ? & -> & _).
  - by intros ->.
Qed.

Lemma wp_index_exists ht L h Q s :
  ht_rep s ht L -> Q (bool_decide (is_Some (om_lookup (HInt h) (contents s L)))) s ->
  wp (zend_hash_index_exists ht h) Q s.
Proof.
  intros HR HQ. unfold zend_hash_index_exists. wp_step. eapply wp_int_search; [done|].
  intros o Ho. wp_step. by rewrite (found_ok_is_Some _ _ _ _ Ho).
Qed.

(** Deletion of the element found. *)
Definition delete_post (s : store (Bucket V) V) (ht : HashTable) (L : list ptr) (key : hkey)
    (r : zresult * HashTable) (s' : store (Bucket V) V) : Prop :=
  match om_lookup key (contents s L) with
  | Some v =>
      r.1 = SUCCESS /\ exists L', ht_rep s' r.2 L' /\
        contents s' L' = om_delete key (contents s L) /\ same_rest s L s' L' /\
        dtor_trace s' = dtor_trace s ++ (if pDestructor ht then [v] else []) /\
        same_config ht r.2 /\ nNextFreeElement r.2 = nNextFreeElement ht
  | None => r = (FAILURE, ht) /\ s' = s
  end.

Lemma wp_delete_found s ht L key o :
  ht_rep s ht L -> found_ok s L key o ->
  wp (match o with
      | Some p => ht ← i_zend_hash_bucket_delete ht p; mret (SUCCESS, ht)
      | None => mret (FAILURE, ht)
      end) (delete_post s ht L key) s.
Proof.
  intros HR Hf. unfold found_ok, delete_post in *.
  destruct (om_lookup key (contents s L)) as [v|].
  - destruct Hf as (L1 & p & L2 & b & -> & -> & Hb & Hk & Hv). wp_step.
    apply (wp_bucket_delete ht L1 p L2); [done|].
    intros b' w s' arB Hb' He HR' Hc Hrest Htr. assert (b' = b) as -> by congruence.
    unfold entry in He. rewrite Hb in He. simpl in He. rewrite Hv in He. simplify_eq/=.
    wp_step. split; [done|]. exists (L1 ++ L2). split_and!; try done.
    pose proof (rep_contents_keys _ _ _ HR) as HND.
    destruct (contents_mid _ _ _ _ _ HR) as (b' & v' & Hb2 & _ & _ & _ & Hcm).
    assert (b' = b) as -> by congruence. rewrite Hcm in *. rewrite om_delete_mid by done.
    by rewrite Hc, contents_app.
  - subst o. by wp_step.
Qed.

End find.
