(* ===== verification/ZendHashDestroy.v ===== *)
(** * ZendHashDestroy: emptying and destroying tables

    Models [zend_hash_destroy], [zend_hash_clean] and the two graceful destroy
    functions of src/Zend/zend_hash.c: every element is destructed exactly once,
    in the function's order, and exactly the table's memory is released. *)
From S2P Require Import Prelude Memory Dllist HashFunc OrderedMap ZendHash ZendHashRep ZendHashLink.
From S2P Require Import ZendHashDelete ZendHashRehash ZendHashInsert.
From stdpp Require Import base list gmap.
Local Open Scope Z_scope.

Section destroy.
Context {V : Type} {AL : Allocator}.
Implicit Types (m : gmap ptr (Bucket V)) (b : Bucket V) (p q : ptr) (L c : list ptr).
Implicit Types (s : store (Bucket V) V) (ht : HashTable).

Abbreviation hcmd := (cmd (store (Bucket V) V)).

(** [while (p != NULL) { q = p; p = p->pListNext; ... pefree(q); }] *)
Fixpoint destroy_loop (fuel : nat) (dtor : bool) (p : option ptr) : hcmd unit :=
  match p with
  | None => mret tt
  | Some q =>
      match fuel with
      | O => cfault
      | S fuel =>
          b ← load q;
          (if dtor then v ← load_data q; call_dtor v else mret tt) ;;
          match pData b with
          | AtBlock a => free_block a
          | AtDataPtr => mret tt
          end ;;
          free_node q ;;
          destroy_loop fuel dtor (pListNext b)
      end
  end.

(** [if (ht->nTableMask) pefree(ht->arBuckets, ht->persistent);]: every access
    to a slot faults from here on. *)
Definition free_slots (ht : HashTable) : HashTable :=
  if nTableMask ht =? 0 then ht else set_arBuckets [] ht.

(** The list pointers of the struct are left dangling. *)
Definition zend_hash_destroy (ht : HashTable) : hcmd HashTable :=
  destroy_loop (loop_bound ht) (pDestructor ht) (pListHead ht) ;;
  mret (free_slots ht).

Definition zend_hash_clean (ht : HashTable) : hcmd HashTable :=
  let p := pListHead ht in
  let fuel := loop_bound ht in
  let ht := if nTableMask ht =? 0 then ht else clear_slots ht in
  let ht := set_pListHead None ht in
  let ht := set_pListTail None ht in
  let ht := set_nNumOfElements 0 ht in
  let ht := set_nNextFreeElement 0 ht in
  let ht := set_pInternalPointer None ht in
  destroy_loop fuel (pDestructor ht) p ;;
  mret ht.

(** [while (ht->pListHead != NULL) zend_hash_bucket_delete(ht, ht->pListHead);] *)
Fixpoint graceful_loop (fuel : nat) (ht : HashTable) : hcmd HashTable :=
  match pListHead ht with
  | None => mret ht
  | Some p =>
      match fuel with
      | O => cfault
      | S fuel => ht ← zend_hash_bucket_delete ht p; graceful_loop fuel ht
      end
  end.

Definition zend_hash_graceful_destroy (ht : HashTable) : hcmd HashTable :=
  ht ← graceful_loop (loop_bound ht) ht;
  mret (free_slots ht).

Fixpoint graceful_reverse_loop (fuel : nat) (ht : HashTable) : hcmd HashTable :=
  match pListTail ht with
  | None => mret ht
  | Some p =>
      match fuel with
      | O => cfault
      | S fuel => ht ← zend_hash_bucket_delete ht p; graceful_reverse_loop fuel ht
      end
  end.

Definition zend_hash_graceful_reverse_destroy (ht : HashTable) : hcmd HashTable :=
  ht ← graceful_reverse_loop (loop_bound ht) ht;
  mret (free_slots ht).

(** ** Rules *)

Definition values (s : store (Bucket V) V) (L : list ptr) : list V := snd <$> contents s L.

Definition if_dtor (ht : HashTable) (vs : list V) : list V := if pDestructor ht then vs else [].

Lemma free_bucket_rest s q b L tr :
  nodes s !! q = Some b -> q ∉ L -> blocks_ok (nodes s) (q :: L) ->
  let s1 := Store (delete q (nodes s))
    (match pData b with AtBlock a => delete a (blocks s) | AtDataPtr => blocks s end) tr in
  agree_blocks s s1 L /\ same_rest s (q :: L) s1 L.
Proof.
  intros Hb Hq HB s1.
  assert (forall a, owned s1 L a <-> owned s L a) as Ho.
  { intros a. split; apply owned_agree; intros x Hx; simpl;
      (rewrite lookup_delete_ne; [done|by intros ->]). }
  assert (forall a, owned s (q :: L) a <-> owned s L a \/ pData b = AtBlock a) as Ho2.
  { intros a. split.
    - intros (x & bx & [->|Hx]%elem_of_cons & Hbx & Hd); [right; congruence|]. left. by exists x, bx.
    - intros [H|H]; [eapply owned_subset; [|exact H]; set_solver|]. exists q, b. set_solver. }
  assert (forall a, pData b = AtBlock a -> ~ owned s L a) as Hex.
  { intros a Hd (x & bx & Hx & Hbx & Hdx). apply Hq.
    rewrite (HB q x b bx a); [done|set_solver|set_solver|done..]. }
  split.
  - intros a Hoa. simpl. destruct (pData b) as [|a'] eqn:Hd; [done|].
    rewrite lookup_delete_ne; [done|]. intros ->. by apply (Hex a).
  - split; intros x y; simpl.
    + rewrite lookup_delete_Some, not_elem_of_cons. clear. naive_solver.
    + rewrite Ho, Ho2. clear -Hex. destruct (pData b) as [|a'] eqn:Hd; [naive_solver|].
      rewrite lookup_delete_Some. naive_solver.
Qed.

Lemma wp_destroy_loop fuel (dtor : bool) prev L Q s :
  (length L < fuel)%nat -> NoDup L -> dseg list_links (nodes s) prev L None ->
  (forall p, p ∈ L -> is_Some (entry s p)) -> blocks_ok (nodes s) L ->
  (forall s' : store (Bucket V) V, same_rest s L s' [] ->
     dtor_trace s' = dtor_trace s ++ (if dtor then values s L else []) -> Q tt s') ->
  wp (destroy_loop fuel dtor (head L)) Q s.
Proof.
  revert prev L s. induction fuel as [|fuel IH]; intros prev L s Hlen HND Hd He HB HQ; [lia|].
  destruct L as [|q L]; simpl.
  { wp_step. apply HQ; [apply same_rest_refl|]. destruct dtor; by rewrite app_nil_r. }
  apply NoDup_cons in HND as [Hq HND]. simpl in Hd. destruct Hd as [Hlk Hd].
  apply fmap_Some in Hlk as (b & Hb & [= Hprev Hnext]).
  destruct (He q) as [[k v] Hk]; [set_solver|].
  assert (bucket_val (blocks s) b = Some v) as Hv.
  { unfold entry in Hk. rewrite Hb in Hk. simpl in Hk.
    destruct (bucket_val (blocks s) b); by simplify_eq/=. }
  set (bl1 := match pData b with AtBlock a => delete a (blocks s) | AtDataPtr => blocks s end).
  set (s1 := Store (delete q (nodes s)) bl1 (dtor_trace s ++ if dtor then [v] else [])).
  destruct (free_bucket_rest s q b L (dtor_trace s ++ if dtor then [v] else []) Hb Hq HB)
    as [Hab Hrest]. fold bl1 in Hab, Hrest. fold s1 in Hab, Hrest.
  assert (forall A (f : Bucket V -> A), agree f (nodes s) (nodes s1) L) as Ha.
  { intros A f x Hx. simpl. rewrite lookup_delete_ne; [done|]. by intros ->. }
  wp_step. wp_step. wp_step.
  apply (wp_mono _ (fun _ s' => s' =
    Store (nodes s) (blocks s) (dtor_trace s ++ if dtor then [v] else []))).
  { destruct dtor; [wp_step; eapply wp_load_data; [done..|]; by wp_step|].
    wp_step. rewrite app_nil_r. by destruct s. }
  intros [] ? ->. wp_step.
  apply (wp_mono _ (fun _ s' => s' = Store (nodes s) bl1 (dtor_trace s ++ if dtor then [v] else []))).
  { unfold bl1. unfold bucket_val in Hv. destruct (pData b); [by wp_step|by eapply wp_free_block]. }
  intros [] ? ->. wp_step. eapply wp_free_node; [done|]. simpl. simpl in Hnext. rewrite <- Hnext.
  rewrite head_or_None. apply (IH (Some q) L s1); [simpl in Hlen; lia|done| | | |].
  - eapply dseg_frame; [|done]. apply Ha.
  - intros p Hp. rewrite (entry_agree s s1 L); [apply He; set_solver|apply Ha|done|done].
  - eapply blocks_ok_agree; [apply Ha|]. eapply blocks_ok_subset; [|done]. set_solver.
  - intros s' Hrest' Htr. apply HQ; [by eapply same_rest_trans|]. rewrite Htr. simpl.
    assert (values s (q :: L) = v :: values s1 L) as ->.
    { unfold values. rewrite (contents_cons _ _ _ _ Hk). simpl. f_equal.
      by rewrite (contents_agree s s1 L); [|apply Ha|]. }
    destruct dtor; by rewrite <- ?app_assoc, ?app_nil_r.
Qed.

Lemma wp_destroy_from_rep s ht L Q :
  ht_rep s ht L ->
  (forall s' : store (Bucket V) V, same_rest s L s' [] -> dtor_trace s' = dtor_trace s ++ if_dtor ht (values s L) -> Q tt s') ->
  wp (destroy_loop (loop_bound ht) (pDestructor ht) (head L)) Q s.
Proof.
  intros HR HQ. destruct (rep_order _ _ _ HR) as ([HND Hd] & _ & _ & Hn & _).
  eapply wp_destroy_loop; [|done|done| |apply HR|done].
  - unfold loop_bound. rewrite Hn, Nat2Z.id. lia.
  - intros p Hp. destruct (rep_entry _ _ _ _ HR Hp) as (? & ? & _ & _ & _ & ->). done.
Qed.

Lemma wp_destroy s ht L Q :
  ht_rep s ht L ->
  (forall s' : store (Bucket V) V, same_rest s L s' [] -> dtor_trace s' = dtor_trace s ++ if_dtor ht (values s L) ->
     Q (free_slots ht) s') ->
  wp (zend_hash_destroy ht) Q s.
Proof.
  intros HR HQ. unfold zend_hash_destroy. destruct (rep_order _ _ _ HR) as (_ & -> & _).
  wp_step. apply (wp_destroy_from_rep _ _ L); [done|]. intros s' ? ?. wp_step. auto.
Qed.

(** An empty table of the same size. *)
Lemma empty_rep s ht :
  (exists k, 3 <= k <= 31 /\ nTableSize ht = 2 ^ k) ->
  ((nTableMask ht = 0 /\ arBuckets ht = [None]) \/
   (nTableMask ht = nTableSize ht - 1 /\ arBuckets ht = replicate (Z.to_nat (nTableSize ht)) None)) ->
  pListHead ht = None -> pListTail ht = None -> nNumOfElements ht = 0 ->
  nNextFreeElement ht = 0 -> pInternalPointer ht = None ->
  ht_rep s ht [].
Proof.
  intros Hk Hg Hh Ht Hn Hf Hi. split.
  - split_and!; [apply dll_nil|done|done|done|done].
  - split; [done|]. destruct Hg as [[Hm HB]|[Hm HB]]; rewrite HB; [by left|right].
    split; [done|]. rewrite length_replicate. destruct Hk as (k & Hk & ->). lia.
  - intros i o Hio. assert (o = None) as ->.
    { destruct Hg as [[Hm HB]|[Hm HB]]; rewrite HB in Hio.
      - destruct i; by simplify_eq/=.
      - by apply lookup_replicate in Hio as [-> _]. }
    exists []. split_and!; [done|apply dll_nil|set_solver].
  - intros ? ? ? ? []%not_elem_of_nil.
  - intros ? ? []%not_elem_of_nil.
  - intros ? ? ? ? ? []%not_elem_of_nil.
  - split; [rewrite Hf; done|]. intros ? ? []%not_elem_of_nil.
  - intros p. by rewrite Hi.
Qed.

Lemma clean_geometry ht L :
  geometry_ok ht L -> (nTableMask ht = 0 -> arBuckets ht = [None]) ->
  let ht' := if nTableMask ht =? 0 then ht else clear_slots ht in
  (nTableMask ht' = 0 /\ arBuckets ht' = [None]) \/
  (nTableMask ht' = nTableSize ht' - 1 /\ arBuckets ht' = replicate (Z.to_nat (nTableSize ht')) None).
Proof.
  intros [_ Hg] H0. destruct (Z.eqb_spec (nTableMask ht) 0) as [E|E]; simpl; [left; auto|].
  right. destruct Hg as [(? & _)|[? _]]; done.
Qed.

(** The slot array of a table that was never written to is the shared NULL. *)
Lemma rep_uninit_slots s ht L : ht_rep s ht L -> nTableMask ht = 0 -> arBuckets ht = [None].
Proof.
  intros HR Hm. destruct (rep_geometry _ _ _ HR) as [(k & Hk & Hs) [(_ & Hl & ->)|[Hm' _]]].
  - destruct (arBuckets ht) as [|o [|]] eqn:HB; try done.
    destruct (rep_slots _ _ _ HR 0%nat o) as (c & -> & _ & Hin); [by rewrite HB|].
    destruct c as [|p c]; [done|]. destruct (Hin p) as [Hx _].
    destruct Hx as [?%not_elem_of_nil _]; [set_solver|done].
  - rewrite Hs in Hm'. assert (8 <= 2 ^ k) by (change 8 with (2 ^ 3); apply Z.pow_le_mono_r; lia). lia.
Qed.

Lemma wp_clean s ht L Q :
  ht_rep s ht L ->
  (forall s' ht', ht_rep s' ht' [] -> same_rest s L s' [] ->
     nTableSize ht' = nTableSize ht -> pDestructor ht' = pDestructor ht ->
     dtor_trace s' = dtor_trace s ++ if_dtor ht (values s L) -> Q ht' s') ->
  wp (zend_hash_clean ht) Q s.
Proof.
  intros HR HQ. unfold zend_hash_clean. cbv zeta. destruct (rep_order _ _ _ HR) as (_ & Hhd & _).
  rewrite Hhd. set (ht1 := if nTableMask ht =? 0 then ht else clear_slots ht).
  assert (pDestructor ht1 = pDestructor ht /\ nTableSize ht1 = nTableSize ht) as [Hd Hsz].
  { unfold ht1. by destruct (_ =? _). }
  simpl. wp_step. rewrite Hd. apply (wp_destroy_from_rep _ _ L); [done|].
  intros s' Hrest Htr. wp_step. apply HQ; simpl; try done.
  apply empty_rep; simpl; try done.
  - rewrite Hsz. apply (rep_geometry _ _ _ HR).
  - eapply clean_geometry; [apply HR|]. by eapply rep_uninit_slots.
Qed.

(** ** Element-wise destruction *)

Lemma wp_graceful_loop fuel s ht L Q :
  ht_rep s ht L -> (length L < fuel)%nat ->
  (forall s' ht', ht_rep s' ht' [] -> same_rest s L s' [] ->
     dtor_trace s' = dtor_trace s ++ if_dtor ht (values s L) -> Q ht' s') ->
  wp (graceful_loop fuel ht) Q s.
Proof.
  revert s ht L. induction fuel as [|fuel IH]; intros s ht L HR Hlen HQ; [lia|].
  destruct (rep_order _ _ _ HR) as (_ & Hhd & _). simpl. rewrite Hhd.
  destruct L as [|p L]; simpl.
  { wp_step. apply HQ; [done|apply same_rest_refl|].
    unfold if_dtor. destruct (pDestructor ht); by rewrite app_nil_r. }
  wp_step. apply (wp_bucket_delete ht [] p L); [done|].
  intros b v s1 arB Hb He HR1 Hc1 Hrest1 Htr1. simpl in *.
  apply (IH s1 _ L); [done|lia|]. intros s' ht' HR' Hrest' Htr'. apply HQ; [done| |].
  - by eapply same_rest_trans.
  - rewrite Htr', Htr1. unfold if_dtor, values. simpl.
    rewrite Hc1, He. simpl.
    destruct (pDestructor ht); by rewrite <- ?app_assoc, ?app_nil_r.
Qed.

Lemma wp_graceful_reverse_loop fuel s ht L Q :
  ht_rep s ht L -> (length L < fuel)%nat ->
  (forall s' ht', ht_rep s' ht' [] -> same_rest s L s' [] ->
     dtor_trace s' = dtor_trace s ++ if_dtor ht (reverse (values s L)) -> Q ht' s') ->
  wp (graceful_reverse_loop fuel ht) Q s.
Proof.
  revert s ht L. induction fuel as [|fuel IH]; intros s ht L HR Hlen HQ; [lia|].
  destruct (rep_order _ _ _ HR) as (_ & _ & Htl & _). simpl. rewrite Htl.
  destruct L as [|p L _] using rev_ind; simpl.
  { wp_step. apply HQ; [done|apply same_rest_refl|].
    unfold if_dtor. destruct (pDestructor ht); by rewrite app_nil_r. }
  rewrite last_snoc. wp_step. apply (wp_bucket_delete ht L p []); [done|].
  intros b v s1 arB Hb He HR1 Hc1 Hrest1 Htr1. rewrite app_nil_r in *.
  apply (IH s1 _ L); [done|rewrite length_app in Hlen; simpl in Hlen; lia|].
  intros s' ht' HR' Hrest' Htr'. apply HQ; [done| |].
  - by eapply same_rest_trans.
  - rewrite Htr', Htr1. unfold if_dtor, values.
    rewrite Hc1, contents_app, (contents_cons _ _ _ _ He), fmap_app, reverse_app. simpl.
    destruct (pDestructor ht); by rewrite <- ?app_assoc, ?app_nil_r.
Qed.

End destroy.
