(* ===== verification/ZendHashApply.v ===== *)
(** * ZendHashApply: visiting the elements with a callback

    Models the apply functions of src/Zend/zend_hash.c with their recursion
    guard.  A callback reads and may rewrite the element it is given, returns
    the result flags, and carries its outside effects in a state of type [A];
    it does not re-enter the table. *)
From S2P Require Import Prelude Memory Dllist HashFunc OrderedMap ZendHash ZendHashRep ZendHashLink.
From S2P Require Import ZendHashDelete ZendHashRehash ZendHashInsert ZendHashAppend ZendHashDestroy.
From stdpp Require Import base list gmap.
Local Open Scope Z_scope.

Definition ZEND_HASH_APPLY_KEEP : Z := 0.
Definition ZEND_HASH_APPLY_REMOVE : Z := Z.shiftl 1 0.
Definition ZEND_HASH_APPLY_STOP : Z := Z.shiftl 1 1.

(** [result & flag] as a condition *)
Definition has_flag (result flag : Z) : bool := negb (Z.land result flag =? 0).

(** The key description handed to callbacks: the address, the bytes there, the
    length and the hash value or integer key. *)
Record zend_hash_key := ZendHashKey {
  hk_arKey : keyptr;
  hk_bytes : list Z;
  hk_nKeyLength : Z;
  hk_h : Z
}.

(** How a guarded traversal ends: [zend_error(E_ERROR)] does not return. *)
Inductive guarded (A : Type) :=
| Bailout (ht : HashTable) (a : A)
| Finished (ht : HashTable) (a : A).
Arguments Bailout {A} _ _.
Arguments Finished {A} _ _.

(** [HASH_PROTECT_RECURSION]: whether the nesting is too deep, and the counter
    (an unsigned char) incremented. *)
Definition HASH_PROTECT_RECURSION (ht : HashTable) : bool * HashTable :=
  if bApplyProtection ht then
    (3 <=? nApplyCount ht, set_nApplyCount (u8 (nApplyCount ht + 1)) ht)
  else (false, ht).

Definition HASH_UNPROTECT_RECURSION (ht : HashTable) : HashTable :=
  if bApplyProtection ht then set_nApplyCount (u8 (nApplyCount ht - 1)) ht else ht.

Section apply.
Context {V : Type} {AL : Allocator} {A : Type}.
Implicit Types (m : gmap ptr (Bucket V)) (b : Bucket V) (p q : ptr) (L c : list ptr).
Implicit Types (s : store (Bucket V) V) (ht : HashTable).

Abbreviation hcmd := (cmd (store (Bucket V) V)).

Definition hash_key_of (b : Bucket V) : zend_hash_key :=
  ZendHashKey (arKey b) (key_bytes b) (nKeyLength b) (b_h b).

(** A write through [p->pData]. *)
Definition store_data (p : ptr) (v : V) : hcmd unit :=
  b ← load p;
  match pData b with
  | AtDataPtr => update p (set_pDataPtr (Some v))
  | AtBlock a => store_block a v
  end.

(** One turn of the loop: the call, the link to follow, the removal. *)
Definition apply_body (next : Bucket V -> option ptr)
    (apply_func : zend_hash_key -> V -> A -> Z * V * A) (ht : HashTable) (p : ptr) (acc : A) :
    hcmd (Z * A * HashTable * option ptr) :=
  b ← load p;
  v ← load_data p;
  let '(result, v', acc) := apply_func (hash_key_of b) v acc in
  store_data p v' ;;
  b ← load p;
  let p_next := next b in
  ht ← (if has_flag result ZEND_HASH_APPLY_REMOVE then zend_hash_bucket_delete ht p else mret ht);
  mret (result, acc, ht, p_next).

Fixpoint apply_loop (next : Bucket V -> option ptr)
    (apply_func : zend_hash_key -> V -> A -> Z * V * A) (fuel : nat) (ht : HashTable)
    (p : option ptr) (acc : A) : hcmd (HashTable * A) :=
  match p with
  | None => mret (ht, acc)
  | Some q =>
      match fuel with
      | O => cfault
      | S fuel =>
          '(result, acc, ht, p) ← apply_body next apply_func ht q acc;
          if has_flag result ZEND_HASH_APPLY_STOP then mret (ht, acc)
          else apply_loop next apply_func fuel ht p acc
      end
  end.

Definition zend_hash_apply (ht : HashTable) (apply_func : V -> A -> Z * V * A) (acc : A) :
    hcmd (guarded A) :=
  let '(deep, ht) := HASH_PROTECT_RECURSION ht in
  if deep then mret (Bailout ht acc)
  else
    '(ht, acc) ← apply_loop pListNext (fun _ => apply_func) (loop_bound ht) ht (pListHead ht) acc;
    mret (Finished (HASH_UNPROTECT_RECURSION ht) acc).

Definition zend_hash_apply_with_argument {B} (ht : HashTable) (apply_func : V -> B -> A -> Z * V * A)
    (argument : B) (acc : A) : hcmd (guarded A) :=
  let '(deep, ht) := HASH_PROTECT_RECURSION ht in
  if deep then mret (Bailout ht acc)
  else
    '(ht, acc) ← apply_loop pListNext (fun _ v => apply_func v argument) (loop_bound ht) ht
                   (pListHead ht) acc;
    mret (Finished (HASH_UNPROTECT_RECURSION ht) acc).

Definition zend_hash_apply_with_arguments {B} (ht : HashTable)
    (apply_func : V -> list B -> zend_hash_key -> A -> Z * V * A) (args : list B) (acc : A) :
    hcmd (guarded A) :=
  let '(deep, ht) := HASH_PROTECT_RECURSION ht in
  if deep then mret (Bailout ht acc)
  else
    '(ht, acc) ← apply_loop pListNext (fun hash_key v => apply_func v args hash_key)
                   (loop_bound ht) ht (pListHead ht) acc;
    mret (Finished (HASH_UNPROTECT_RECURSION ht) acc).

Definition zend_hash_reverse_apply (ht : HashTable) (apply_func : V -> A -> Z * V * A) (acc : A) :
    hcmd (guarded A) :=
  let '(deep, ht) := HASH_PROTECT_RECURSION ht in
  if deep then mret (Bailout ht acc)
  else
    '(ht, acc) ← apply_loop pListLast (fun _ => apply_func) (loop_bound ht) ht (pListTail ht) acc;
    mret (Finished (HASH_UNPROTECT_RECURSION ht) acc).

(** ** The specification on ordered maps

    The elements that stay (with their new values), the values that were
    removed, in the order of removal, and the final state of the callback. *)
Fixpoint apply_spec (f : hkey -> V -> A -> Z * V * A) (E : list (hkey * V)) (acc : A) :
    list (hkey * V) * list V * A :=
  match E with
  | [] => ([], [], acc)
  | (k, v) :: E =>
      let '(result, v', acc) := f k v acc in
      let '(kept, gone, acc) :=
        if has_flag result ZEND_HASH_APPLY_STOP then (E, [], acc) else apply_spec f E acc in
      if has_flag result ZEND_HASH_APPLY_REMOVE then (kept, v' :: gone, acc)
      else ((k, v') :: kept, gone, acc)
  end.

(** The key a [zend_hash_key] describes. *)
Definition described_key (hk : zend_hash_key) : hkey :=
  if hk_nKeyLength hk =? 0 then HInt (hk_h hk)
  else HStr (take (Z.to_nat (hk_nKeyLength hk)) (hk_bytes hk)).

Lemma described_key_of b : described_key (hash_key_of b) = bucket_key b.
Proof. done. Qed.

(** ** Rules *)

Lemma rep_contents_length s ht L1 L2 :
  ht_rep s ht L2 -> L1 ⊆ L2 -> length (contents s L1) = length L1.
Proof.
  intros HR. induction L1 as [|p L1 IH]; intros Hsub; [done|].
  destruct (rep_entry _ _ _ p HR) as (b & v & _ & _ & _ & He); [set_solver|].
  rewrite (contents_cons _ _ _ _ He). simpl. rewrite IH; [done|set_solver].
Qed.

(** Equal contents of a concatenation are equal part by part. *)
Lemma contents_split s s' ht ht' L1 L2 :
  ht_rep s ht (L1 ++ L2) -> ht_rep s' ht' (L1 ++ L2) ->
  contents s' (L1 ++ L2) = contents s (L1 ++ L2) ->
  contents s' L1 = contents s L1 /\ contents s' L2 = contents s L2.
Proof.
  intros HR HR'. rewrite !contents_app. apply app_inj_1.
  by rewrite (rep_contents_length _ _ _ _ HR), (rep_contents_length _ _ _ _ HR') by set_solver.
Qed.

Lemma wp_store_data s ht L1 p L2 v' Q :
  ht_rep s ht (L1 ++ p :: L2) ->
  (forall b b' s', nodes s !! p = Some b -> nodes s' !! p = Some b' -> strip_data b = strip_data b' ->
     ht_rep s' ht (L1 ++ p :: L2) ->
     contents s' (L1 ++ p :: L2) = contents s L1 ++ (bucket_key b, v') :: contents s L2 ->
     same_rest s (L1 ++ p :: L2) s' (L1 ++ p :: L2) -> dtor_trace s' = dtor_trace s -> Q tt s') ->
  wp (store_data p v') Q s.
Proof.
  intros HR HQ. destruct (contents_mid _ _ _ _ _ HR) as (b & v & Hb & _ & Hv & _ & _).
  unfold store_data. wp_step. wp_step. unfold bucket_val in Hv.
  assert (forall b' bl', strip_data b = strip_data b' -> bucket_val bl' b' = Some v' ->
    (forall a, owned s (L1 ++ L2) a -> bl' !! a = blocks s !! a) ->
    (forall a, pData b' = AtBlock a -> ~ owned s (L1 ++ L2) a) ->
    (forall a w, ~ owned s (L1 ++ L2) a ->
      (bl' !! a = Some w /\ pData b' <> AtBlock a) <-> (blocks s !! a = Some w /\ pData b <> AtBlock a)) ->
    Q tt (Store (<[p := b']> (nodes s)) bl' (dtor_trace s))) as Hgo.
  { intros b' bl' Hs Hval Hkeep Hnew Hrest.
    apply (HQ b b'); [done|apply lookup_insert_eq|done|..|done].
    - exact (data_rep s ht L1 p L2 b b' bl' _ v' HR Hb Hs Hval Hkeep Hnew Hrest).
    - exact (data_contents s ht L1 p L2 b b' bl' _ v' HR Hb Hs Hval Hkeep Hnew Hrest).
    - exact (data_same_rest s ht L1 p L2 b b' bl' _ v' HR Hb Hs Hval Hkeep Hnew Hrest). }
  destruct (pData b) as [|a] eqn:Hd.
  - eapply wp_update; [done|]. rewrite (alter_insert_Some _ _ _ b) by done.
    apply Hgo; simpl; rewrite ?Hd; try done; try by destruct b. unfold bucket_val. simpl. by rewrite Hd.
  - eapply wp_store_block; [done|].
    pose proof (owned_excl _ _ _ _ _ _ _ HR Hb Hd) as Hex.
    assert (Store (<[p := b]> (nodes s)) (<[a := v']> (blocks s)) (dtor_trace s) =
            set_blocks (<[a := v']> (blocks s)) s) as <-.
    { unfold set_blocks. by rewrite insert_id. }
    apply Hgo; [done| | | |].
    + unfold bucket_val. rewrite Hd. apply lookup_insert_eq.
    + intros x Hx. rewrite lookup_insert_ne; [done|]. by intros ->.
    + rewrite Hd. by intros x [= <-].
    + intros x w Hx. rewrite Hd, lookup_insert_Some. naive_solver.
Qed.

(** What one turn does to [L1 ++ p :: L2]. *)
Lemma wp_apply_body next f g s ht L1 p L2 acc Q :
  (forall b, f (hash_key_of b) = g (bucket_key b)) ->
  ht_rep s ht (L1 ++ p :: L2) ->
  (forall k v r v' acc' b' s' ht' (rm : bool) M, entry s p = Some (k, v) -> g k v acc = (r, v', acc') ->
     rm = has_flag r ZEND_HASH_APPLY_REMOVE -> M = (if rm then [] else [p]) ->
     ht_rep s' ht' (L1 ++ M ++ L2) ->
     contents s' L1 = contents s L1 -> contents s' M = (if rm then [] else [(k, v')]) ->
     contents s' L2 = contents s L2 ->
     same_rest s (L1 ++ p :: L2) s' (L1 ++ M ++ L2) ->
     dtor_trace s' = dtor_trace s ++ (if rm then if_dtor ht [v'] else []) ->
     same_config ht ht' ->
     pListNext b' = head L2 -> pListLast b' = last L1 -> Q (r, acc', ht', next b') s') ->
  wp (apply_body next f ht p acc) Q s.
Proof.
  intros Hfg HR HQ. destruct (contents_mid _ _ _ _ _ HR) as (b & v & Hb & _ & Hv & He & _).
  unfold apply_body. wp_step. wp_step. wp_step. eapply wp_load_data; [done..|].
  rewrite Hfg. destruct (g (bucket_key b) v acc) as [[r v'] acc'] eqn:Hg. cbn beta iota zeta.
  wp_step. apply (wp_store_data s ht L1 p L2); [done|].
  intros b0 b' s1 Hb0 Hb' Hs HR1 Hc1 Hrest1 Htr1. assert (b0 = b) as -> by congruence.
  destruct (rep_order _ _ _ HR1) as (HL & _).
  destruct (dll_lookup _ _ _ _ _ HL) as (b2 & Hb2 & Hlast & Hnext).
  assert (b2 = b') as -> by congruence. wp_step. wp_step. wp_step.
  destruct (contents_mid _ _ _ _ _ HR1) as (b3 & v3 & Hb3 & _ & _ & He3 & Hc3).
  assert (b3 = b') as -> by congruence. rewrite Hc3 in Hc1.
  assert (length (contents s1 L1) = length (contents s L1)) as Hlen.
  { by rewrite (rep_contents_length _ _ _ _ HR), (rep_contents_length _ _ _ _ HR1) by set_solver. }
  apply app_inj_1 in Hc1 as [Hc1 [= Hkey -> Hc2]]; [|done].
  destruct (has_flag r ZEND_HASH_APPLY_REMOVE) eqn:Hrm.
  - apply (wp_bucket_delete ht L1 p L2); [done|].
    intros b3 w s' arB Hb4 He' HR' Hc' Hrest' Htr'. wp_step.
    assert (w = v') as -> by congruence.
    rewrite !contents_app in Hc'. apply app_inj_1 in Hc' as [Hc1' Hc2'].
    2:{ rewrite (rep_contents_length _ _ _ _ HR1), (rep_contents_length _ _ _ _ HR') by set_solver. done. }
    apply (HQ _ _ _ _ _ _ _ _ true [] He Hg); try done; try congruence.
    + by eapply same_rest_trans.
    + by rewrite Htr', Htr1.
  - wp_step. wp_step. apply (HQ _ _ _ _ _ _ _ _ false [p] He Hg); try done.
    + rewrite (contents_cons _ _ _ _ He3). by rewrite Hkey.
    + by rewrite app_nil_r.
Qed.

Lemma if_dtor_app ht (vs ws : list V) : if_dtor ht (vs ++ ws) = if_dtor ht vs ++ if_dtor ht ws.
Proof. unfold if_dtor. by destruct (pDestructor ht). Qed.

Lemma if_dtor_config ht ht' (vs : list V) : same_config ht ht' -> if_dtor ht' vs = if_dtor ht vs.
Proof. intros (Hd & _). unfold if_dtor. by rewrite Hd. Qed.

Lemma same_config_trans ht1 ht2 ht3 : same_config ht1 ht2 -> same_config ht2 ht3 -> same_config ht1 ht3.
Proof. unfold same_config. intuition congruence. Qed.

(** What is known after a traversal of the part [L2] of [L1 ++ L2 ++ L3], of
    which [L2'] is left. *)
Definition applied (s : store (Bucket V) V) (ht : HashTable) (L1 L2 L3 : list ptr)
    (s' : store (Bucket V) V) (ht' : HashTable) (L2' : list ptr) (E : list (hkey * V))
    (gone : list V) : Prop :=
  ht_rep s' ht' (L1 ++ L2' ++ L3) /\
  contents s' (L1 ++ L2' ++ L3) = contents s L1 ++ E ++ contents s L3 /\
  same_rest s (L1 ++ L2 ++ L3) s' (L1 ++ L2' ++ L3) /\
  dtor_trace s' = dtor_trace s ++ if_dtor ht gone /\ same_config ht ht'.

Lemma wp_apply_loop f g fuel s ht L1 L2 acc kept gone acc' Q :
  (forall b, f (hash_key_of b) = g (bucket_key b)) ->
  ht_rep s ht (L1 ++ L2) -> (length L2 < fuel)%nat ->
  apply_spec g (contents s L2) acc = (kept, gone, acc') ->
  (forall s' ht' L2', applied s ht L1 L2 [] s' ht' L2' kept gone -> Q (ht', acc') s') ->
  wp (apply_loop pListNext f fuel ht (head L2) acc) Q s.
Proof.
  intros Hfg. revert s ht L1 L2 acc kept gone acc' Q.
  induction fuel as [|fuel IH]; intros s ht L1 L2 acc kept gone acc' Q HR Hlen Hspec HQ; [lia|].
  destruct L2 as [|p L2]; simpl.
  { simpl in Hspec. simplify_eq. wp_step. apply (HQ s ht []). rewrite app_nil_r in HR. split_and!;
      rewrite ?app_nil_r; try done. unfold if_dtor. destruct (pDestructor ht); by rewrite app_nil_r. }
  wp_step. apply (wp_apply_body _ f g s ht L1 p L2); [done|done|].
  intros k v r v' a1 b' s1 ht1 rm M He Hg Hrm HM HR1 HcL HcM HcR Hrest Htr Hcfg Hnext _.
  rewrite (contents_cons _ _ _ _ He) in Hspec. simpl in Hspec. rewrite Hg in Hspec.
  assert (forall kept2 gone2 s' ht' L2',
    applied s1 ht1 (L1 ++ M) L2 [] s' ht' L2' kept2 gone2 ->
    applied s ht L1 (p :: L2) [] s' ht' (M ++ L2') ((if rm then [] else [(k, v')]) ++ kept2)
      ((if rm then [v'] else []) ++ gone2)) as Hstep.
  { intros kept2 gone2 s' ht' L2' (HR' & Hc' & Hrest' & Htr' & Hcfg').
    rewrite ?app_nil_r, <- ?app_assoc in *. split_and!; rewrite ?app_nil_r, <- ?app_assoc; [done| | | |].
    - by rewrite Hc', contents_app, HcL, HcM, <- app_assoc.
    - by eapply same_rest_trans.
    - rewrite Htr', Htr, (if_dtor_config _ _ _ Hcfg), if_dtor_app, app_assoc. f_equal.
      destruct rm; [done|]. unfold if_dtor. destruct (pDestructor ht); done.
    - by eapply same_config_trans. }
  cbn beta iota. rewrite <- Hrm in Hspec. destruct (has_flag r ZEND_HASH_APPLY_STOP).
  - wp_step.
    assert (applied s1 ht1 (L1 ++ M) L2 [] s1 ht1 L2 (contents s L2) []) as Happ.
    { split_and!; rewrite ?app_nil_r, <- ?app_assoc; [done| |apply same_rest_refl| |done].
      - by rewrite !contents_app, HcR, app_assoc.
      - unfold if_dtor. destruct (pDestructor ht1); by rewrite app_nil_r. }
    apply Hstep in Happ. destruct rm; simplify_eq/=; by eapply HQ.
  - rewrite Hnext. destruct (apply_spec g (contents s L2) a1) as [[kept2 gone2] a2] eqn:Hs2.
    eapply (IH s1 ht1 (L1 ++ M) L2); [by rewrite <- app_assoc|simpl in Hlen; lia|by rewrite HcR|].
    intros s' ht' L2' Happ%Hstep. destruct rm; simplify_eq/=; by eapply HQ.
Qed.

(** Backwards: the part still to visit is on the left. *)
Lemma wp_reverse_apply_loop f g fuel s ht L2 L3 acc kept gone acc' Q :
  (forall b, f (hash_key_of b) = g (bucket_key b)) ->
  ht_rep s ht (L2 ++ L3) -> (length L2 < fuel)%nat ->
  apply_spec g (reverse (contents s L2)) acc = (kept, gone, acc') ->
  (forall s' ht' L2', applied s ht [] L2 L3 s' ht' L2' (reverse kept) gone -> Q (ht', acc') s') ->
  wp (apply_loop pListLast f fuel ht (last L2) acc) Q s.
Proof.
  intros Hfg. revert s ht L2 L3 acc kept gone acc' Q.
  induction fuel as [|fuel IH]; intros s ht L2 L3 acc kept gone acc' Q HR Hlen Hspec HQ; [lia|].
  destruct L2 as [|p L2 _] using rev_ind; simpl.
  { simpl in Hspec. simplify_eq. wp_step. apply (HQ s ht []). split_and!; simpl; try done.
    unfold if_dtor. destruct (pDestructor ht); by rewrite app_nil_r. }
  rewrite last_snoc. wp_step. rewrite <- app_assoc in HR. simpl in HR.
  apply (wp_apply_body _ f g s ht L2 p L3); [done|done|].
  intros k v r v' a1 b' s1 ht1 rm M He Hg Hrm HM HR1 HcL HcM HcR Hrest Htr Hcfg _ Hlast.
  rewrite contents_app, (contents_cons _ _ _ _ He), reverse_app in Hspec.
  simpl in Hspec. rewrite Hg in Hspec.
  assert (forall kept2 gone2 s' ht' L2',
    applied s1 ht1 [] L2 (M ++ L3) s' ht' L2' (reverse kept2) gone2 ->
    applied s ht [] (L2 ++ [p]) L3 s' ht' (L2' ++ M)
      (reverse ((if rm then [] else [(k, v')]) ++ kept2)) ((if rm then [v'] else []) ++ gone2)) as Hstep.
  { intros kept2 gone2 s' ht' L2' (HR' & Hc' & Hrest' & Htr' & Hcfg'). simpl in *.
    split_and!; simpl; rewrite <- ?app_assoc; [done| | | |].
    - rewrite Hc', contents_app, HcM, HcR, reverse_app, <- app_assoc. by destruct rm.
    - by eapply same_rest_trans.
    - rewrite Htr', Htr, (if_dtor_config _ _ _ Hcfg), if_dtor_app, app_assoc. f_equal.
      destruct rm; [done|]. unfold if_dtor. destruct (pDestructor ht); done.
    - by eapply same_config_trans. }
  cbn beta iota. rewrite <- Hrm in Hspec. destruct (has_flag r ZEND_HASH_APPLY_STOP).
  - wp_step.
    assert (applied s1 ht1 [] L2 (M ++ L3) s1 ht1 L2 (reverse (reverse (contents s L2))) []) as Happ.
    { rewrite reverse_involutive. split_and!; simpl; [done| |apply same_rest_refl| |done].
      - by rewrite !contents_app, HcL.
      - unfold if_dtor. destruct (pDestructor ht1); by rewrite app_nil_r. }
    apply Hstep in Happ. destruct rm; simplify_eq/=; by eapply HQ.
  - rewrite Hlast. destruct (apply_spec g (reverse (contents s L2)) a1) as [[kept2 gone2] a2] eqn:Hs2.
    eapply (IH s1 ht1 L2 (M ++ L3)); [done|rewrite length_app in Hlen; simpl in Hlen; lia|by rewrite HcL|].
    intros s' ht' L2' Happ%Hstep. destruct rm; simplify_eq/=; by eapply HQ.
Qed.

(** ** The recursion guard *)

Lemma ht_rep_count s ht L n : ht_rep s ht L -> ht_rep s (set_nApplyCount n ht) L.
Proof. intros []. by split. Qed.

Lemma guard_enter ht :
  (bApplyProtection ht = true -> 0 <= nApplyCount ht < 3) ->
  exists n, HASH_PROTECT_RECURSION ht = (false, set_nApplyCount n ht) /\
    forall ht', same_config (set_nApplyCount n ht) ht' ->
      exists n', HASH_UNPROTECT_RECURSION ht' = set_nApplyCount n' ht' /\
        same_config ht (set_nApplyCount n' ht').
Proof.
  intros Hg. unfold HASH_PROTECT_RECURSION, HASH_UNPROTECT_RECURSION, same_config.
  destruct (bApplyProtection ht) eqn:Hp.
  - specialize (Hg eq_refl). exists (u8 (nApplyCount ht + 1)).
    split; [destruct (Z.leb_spec 3 (nApplyCount ht)); [lia|done]|]. simpl. rewrite Hp.
    intros ht' (? & ? & Hc & ->). exists (u8 (nApplyCount ht' - 1)). split_and!; try done.
    rewrite Hc. simpl. rewrite !wrap_u_small; [lia|lia|]. rewrite wrap_u_small; lia.
  - exists (nApplyCount ht). split; [by destruct ht|]. simpl. rewrite Hp.
    intros ht' (? & ? & Hc & ->). exists (nApplyCount ht'). by destruct ht'.
Qed.

(** A guarded traversal: the table represents [kept], [gone] was destructed. *)
Definition applied_post (s : store (Bucket V) V) (ht : HashTable) (L : list ptr)
    (kept : list (hkey * V)) (gone : list V) (acc' : A) (r : guarded A)
    (s' : store (Bucket V) V) : Prop :=
  exists ht' L', r = Finished ht' acc' /\ ht_rep s' ht' L' /\ contents s' L' = kept /\
    same_rest s L s' L' /\ dtor_trace s' = dtor_trace s ++ if_dtor ht gone /\ same_config ht ht'.

Lemma loop_bound_length s ht L : ht_rep s ht L -> (length L < loop_bound ht)%nat.
Proof.
  intros HR. destruct (rep_order _ _ _ HR) as (_ & _ & _ & Hn & _).
  unfold loop_bound. rewrite Hn, Nat2Z.id. lia.
Qed.

Lemma guarded_finish s ht n L s' ht' L' E gone (acc' : A) :
  (forall ht', same_config (set_nApplyCount n ht) ht' ->
      exists n', HASH_UNPROTECT_RECURSION ht' = set_nApplyCount n' ht' /\
        same_config ht (set_nApplyCount n' ht')) ->
  applied s (set_nApplyCount n ht) [] L [] s' ht' L' E gone ->
  applied_post s ht L E gone acc' (Finished (HASH_UNPROTECT_RECURSION ht') acc') s'.
Proof.
  intros Hout (HR & Hc & Hrest & Htr & Hcfg). destruct (Hout _ Hcfg) as (n' & -> & Hcfg').
  simpl in *. rewrite !app_nil_r in *. exists (set_nApplyCount n' ht'), L'. split_and!; try done.
  by apply ht_rep_count.
Qed.

Lemma wp_guarded_forward f g s ht L acc kept gone acc' :
  (forall b, f (hash_key_of b) = g (bucket_key b)) ->
  ht_rep s ht L -> (bApplyProtection ht = true -> 0 <= nApplyCount ht < 3) ->
  apply_spec g (contents s L) acc = (kept, gone, acc') ->
  wp (let '(deep, ht) := HASH_PROTECT_RECURSION ht in
      if deep then mret (Bailout ht acc)
      else '(ht, acc) ← apply_loop pListNext f (loop_bound ht) ht (pListHead ht) acc;
           mret (Finished (HASH_UNPROTECT_RECURSION ht) acc)) (applied_post s ht L kept gone acc') s.
Proof.
  intros Hfg HR Hg Hspec. destruct (guard_enter ht Hg) as (n & -> & Hout). cbn iota.
  pose proof (ht_rep_count _ _ _ n HR) as HR1. destruct (rep_order _ _ _ HR1) as (_ & -> & _).
  wp_step. eapply (wp_apply_loop f g _ s _ [] L); [done|done|by eapply loop_bound_length|done|].
  intros s' ht' L' Happ. wp_step. by eapply guarded_finish.
Qed.

Lemma wp_guarded_backward f g s ht L acc kept gone acc' :
  (forall b, f (hash_key_of b) = g (bucket_key b)) ->
  ht_rep s ht L -> (bApplyProtection ht = true -> 0 <= nApplyCount ht < 3) ->
  apply_spec g (reverse (contents s L)) acc = (kept, gone, acc') ->
  wp (let '(deep, ht) := HASH_PROTECT_RECURSION ht in
      if deep then mret (Bailout ht acc)
      else '(ht, acc) ← apply_loop pListLast f (loop_bound ht) ht (pListTail ht) acc;
           mret (Finished (HASH_UNPROTECT_RECURSION ht) acc)) (applied_post s ht L (reverse kept) gone acc') s.
Proof.
  intros Hfg HR Hg Hspec. destruct (guard_enter ht Hg) as (n & -> & Hout). cbn iota.
  pose proof (ht_rep_count _ _ _ n HR) as HR1. destruct (rep_order _ _ _ HR1) as (_ & _ & -> & _).
  wp_step. eapply (wp_reverse_apply_loop f g _ s _ L []); [done| |by eapply loop_bound_length|done|].
  { by rewrite app_nil_r. }
  intros s' ht' L' Happ. wp_step. by eapply guarded_finish.
Qed.

End apply.
