(* ===== verification/ZendHashIter.v ===== *)
(** * ZendHashIter: positions in a table and iteration

    Models [HashPosition]/[HashPointer] and the traversal functions of
    src/Zend/zend_hash.c.  A [HashPosition *pos] argument is [None] when the
    caller passes NULL (the table's own internal pointer is then used) and
    [Some c] when it points at a variable holding [c]. *)
From S2P Require Import Prelude Memory Dllist HashFunc OrderedMap ZendHash ZendHashRep ZendHashLink.
From S2P Require Import ZendHashRehash ZendHashInsert ZendHashAppend.
From stdpp Require Import base list gmap.
Local Open Scope Z_scope.

Definition HashPosition : Type := option ptr.

Record HashPointer := mkHashPointer { hp_pos : HashPosition; hp_h : Z }.

(** The answer of [zend_hash_get_current_key_ex]: for a string key the bytes
    [str_index] points at (a fresh NUL-terminated copy when [duplicate]) and
    [str_length]. *)
Inductive current_key :=
| HASH_KEY_IS_STRING (duplicate : bool) (str : list Z) (str_length : Z)
| HASH_KEY_IS_LONG (num_index : Z)
| HASH_KEY_NON_EXISTENT.

Inductive key_type := KT_STRING | KT_LONG | KT_NON_EXISTENT.

(** The zval a key is stored into: [Z_STRVAL] may share an interned string. *)
Inductive key_zval :=
| KZ_NULL
| KZ_STRING (interned : bool) (str : list Z) (len : Z)
| KZ_LONG (n : Z).

Section iter.
Context {V : Type} {AL : Allocator}.
Implicit Types (m : gmap ptr (Bucket V)) (b : Bucket V) (p q : ptr) (L c : list ptr).
Implicit Types (s : store (Bucket V) V) (ht : HashTable).

Abbreviation hcmd := (cmd (store (Bucket V) V)).

Definition zend_hash_get_pointer (ht : HashTable) : hcmd (Z * HashPointer) :=
  match pInternalPointer ht with
  | Some p => b ← load p; mret (1, mkHashPointer (Some p) (b_h b))
  | None => mret (0, mkHashPointer None 0)
  end.

(** [while (p != NULL) { if (p == target) ...; p = p->pNext; }] *)
Fixpoint chain_has (fuel : nat) (target : ptr) (p : option ptr) : hcmd bool :=
  match p with
  | None => mret false
  | Some q =>
      match fuel with
      | O => cfault
      | S fuel =>
          if decide (q = target) then mret true
          else b ← load q; chain_has fuel target (pNext b)
      end
  end.

Definition zend_hash_set_pointer (ht : HashTable) (hp : HashPointer) : hcmd (Z * HashTable) :=
  match hp_pos hp with
  | None => mret (1, set_pInternalPointer None ht)
  | Some target =>
      if decide (pInternalPointer ht = Some target) then mret (1, ht)
      else
        p ← read_slot ht (hash_index ht (hp_h hp));
        found ← chain_has (loop_bound ht) target p;
        if found : bool then mret (1, set_pInternalPointer (Some target) ht) else mret (0, ht)
  end.

(** [pos ? ( *pos ) : ht->pInternalPointer] and an assignment to that place *)
Definition get_current (ht : HashTable) (pos : option HashPosition) : option ptr :=
  match pos with
  | Some c => c
  | None => pInternalPointer ht
  end.

Definition set_current (c : option ptr) (ht : HashTable) (pos : option HashPosition) :
    HashTable * option HashPosition :=
  match pos with
  | Some _ => (ht, Some c)
  | None => (set_pInternalPointer c ht, None)
  end.

Definition zend_hash_internal_pointer_reset_ex (ht : HashTable) (pos : option HashPosition) :
    HashTable * option HashPosition := set_current (pListHead ht) ht pos.

Definition zend_hash_internal_pointer_end_ex (ht : HashTable) (pos : option HashPosition) :
    HashTable * option HashPosition := set_current (pListTail ht) ht pos.

Definition zend_hash_move_forward_ex (ht : HashTable) (pos : option HashPosition) :
    hcmd (zresult * (HashTable * option HashPosition)) :=
  match get_current ht pos with
  | Some p => b ← load p; mret (SUCCESS, set_current (pListNext b) ht pos)
  | None => mret (FAILURE, (ht, pos))
  end.

Definition zend_hash_move_backwards_ex (ht : HashTable) (pos : option HashPosition) :
    hcmd (zresult * (HashTable * option HashPosition)) :=
  match get_current ht pos with
  | Some p => b ← load p; mret (SUCCESS, set_current (pListLast b) ht pos)
  | None => mret (FAILURE, (ht, pos))
  end.

(** [estrndup(s, n)]: [n] bytes and a NUL *)
Definition estrndup (x : list Z) (n : Z) : list Z := take (Z.to_nat n) x ++ [0].

Definition zend_hash_get_current_key_ex (ht : HashTable) (duplicate : bool)
    (pos : option HashPosition) : hcmd current_key :=
  match get_current ht pos with
  | Some p =>
      b ← load p;
      if nKeyLength b =? 0 then mret (HASH_KEY_IS_LONG (b_h b))
      else
        mret (HASH_KEY_IS_STRING duplicate
          (if duplicate then estrndup (key_bytes b) (nKeyLength b - 1)
           else take (Z.to_nat (nKeyLength b)) (key_bytes b)) (nKeyLength b))
  | None => mret HASH_KEY_NON_EXISTENT
  end.

Definition zend_hash_get_current_key_zval_ex (ht : HashTable) (pos : option HashPosition) :
    hcmd key_zval :=
  match get_current ht pos with
  | None => mret KZ_NULL
  | Some p =>
      b ← load p;
      if nKeyLength b =? 0 then mret (KZ_LONG (s64 (b_h b)))
      else
        mret (KZ_STRING (IS_INTERNED (arKey b))
          (if IS_INTERNED (arKey b) then take (Z.to_nat (nKeyLength b)) (key_bytes b)
           else estrndup (key_bytes b) (nKeyLength b - 1))
          (s32 (nKeyLength b - 1)))
  end.

Definition zend_hash_get_current_key_type_ex (ht : HashTable) (pos : option HashPosition) :
    hcmd key_type :=
  match get_current ht pos with
  | Some p => b ← load p; mret (if nKeyLength b =? 0 then KT_LONG else KT_STRING)
  | None => mret KT_NON_EXISTENT
  end.

Definition zend_hash_get_current_data_ex (ht : HashTable) (pos : option HashPosition) :
    hcmd (zresult * option dataloc) :=
  match get_current ht pos with
  | Some p => d ← data_loc p; mret (SUCCESS, Some d)
  | None => mret (FAILURE, None)
  end.

(** ** Traversals as callers write them

    [for (reset(&pos); get_current_data(&d, &pos) == SUCCESS; move(&pos))],
    collecting the keys and the values. *)
Definition abs_key (k : current_key) : option hkey :=
  match k with
  | HASH_KEY_IS_STRING _ x _ => Some (HStr x)
  | HASH_KEY_IS_LONG n => Some (HInt n)
  | HASH_KEY_NON_EXISTENT => None
  end.

Fixpoint traverse (move : HashTable -> option HashPosition ->
    hcmd (zresult * (HashTable * option HashPosition)))
    (fuel : nat) (ht : HashTable) (pos : option HashPosition) :
    hcmd (list (hkey * V) * (HashTable * option HashPosition)) :=
  '(r, d) ← zend_hash_get_current_data_ex ht pos;
  match r, d with
  | SUCCESS, Some d =>
      match fuel with
      | O => cfault
      | S fuel =>
          k ← zend_hash_get_current_key_ex ht false pos;
          v ← deref d;
          '(_, (ht, pos)) ← move ht pos;
          '(rest, st) ← traverse move fuel ht pos;
          match abs_key k with
          | Some k => mret ((k, v) :: rest, st)
          | None => cfault
          end
      end
  | _, _ => mret ([], (ht, pos))
  end.

Definition foreach (fuel : nat) (ht : HashTable) (pos : option HashPosition) :
    hcmd (list (hkey * V) * (HashTable * option HashPosition)) :=
  let '(ht, pos) := zend_hash_internal_pointer_reset_ex ht pos in
  traverse zend_hash_move_forward_ex fuel ht pos.

Definition foreach_reverse (fuel : nat) (ht : HashTable) (pos : option HashPosition) :
    hcmd (list (hkey * V) * (HashTable * option HashPosition)) :=
  let '(ht, pos) := zend_hash_internal_pointer_end_ex ht pos in
  traverse zend_hash_move_backwards_ex fuel ht pos.

(** ** Rules *)

Lemma get_set_current (c : option ptr) ht pos :
  let '(ht', pos') := set_current c ht pos in get_current ht' pos' = c.
Proof. by destruct pos. Qed.

Lemma set_current_twice (c c' : option ptr) ht pos :
  let '(ht', pos') := set_current c' ht pos in set_current c ht' pos' = set_current c ht pos.
Proof. by destruct pos. Qed.

Lemma wp_current_key ht L1 p L2 pos Q s :
  ht_rep s ht (L1 ++ p :: L2) -> get_current ht pos = Some p ->
  (forall b ck, nodes s !! p = Some b -> abs_key ck = Some (bucket_key b) -> Q ck s) ->
  wp (zend_hash_get_current_key_ex ht false pos) Q s.
Proof.
  intros HR Hc HQ. destruct (contents_mid _ _ _ _ _ HR) as (b & v & Hb & _ & Hv & He & _).
  unfold zend_hash_get_current_key_ex. rewrite Hc. wp_step. wp_step.
  assert (abs_key (if nKeyLength b =? 0 then HASH_KEY_IS_LONG (b_h b) else
    HASH_KEY_IS_STRING false (take (Z.to_nat (nKeyLength b)) (key_bytes b)) (nKeyLength b))
    = Some (bucket_key b)) as Hk by (unfold bucket_key; by destruct (_ =? _)).
  destruct (nKeyLength b =? 0); wp_step; eapply HQ; done.
Qed.

Lemma traverse_end move fuel ht pos Q s :
  get_current ht pos = None -> Q ([], (ht, pos)) s -> wp (traverse move fuel ht pos) Q s.
Proof.
  intros Hc HQ. destruct fuel; simpl; unfold zend_hash_get_current_data_ex; rewrite Hc; by wp_steps.
Qed.

(** The visit of one element. *)
Lemma traverse_step move fuel ht ht0 L1 p L2 pos k v (c : option ptr) Q s :
  ht_rep s ht0 (L1 ++ p :: L2) -> get_current ht pos = Some p ->
  entry s p = Some (k, v) ->
  (forall Q', Q' (SUCCESS, set_current c ht pos) s -> wp (move ht pos) Q' s) ->
  (forall ht' pos', (ht', pos') = set_current c ht pos ->
    wp (traverse move fuel ht' pos') (fun r s' => Q ((k, v) :: r.1, r.2) s') s) ->
  wp (traverse move (S fuel) ht pos) Q s.
Proof.
  intros HR Hc He Hmove HQ.
  destruct (contents_mid _ _ _ _ _ HR) as (b & v' & Hb & _ & Hv & He' & _).
  assert (v' = v /\ bucket_key b = k) as [-> <-] by (split; congruence).
  simpl. unfold zend_hash_get_current_data_ex. rewrite Hc. wp_step. wp_step.
  eapply wp_data_loc; [done|]. wp_step. wp_step.
  unfold zend_hash_get_current_key_ex. rewrite Hc. wp_step. wp_step.
  assert (forall k', abs_key k' = Some (bucket_key b) ->
    wp (v0 ← deref (loc_of p b);
        '(_, (ht1, pos1)) ← move ht pos;
        '(rest, st) ← traverse move fuel ht1 pos1;
        match abs_key k' with Some k0 => mret ((k0, v0) :: rest, st) | None => cfault end) Q s) as Hgo.
  { intros k' Hk'. wp_step. exists v, s. split; [apply deref_payload; [by rewrite Hb|done]|].
    wp_step. apply Hmove. destruct (set_current c ht pos) as [ht' pos'] eqn:Hsc. wp_step.
    eapply wp_mono; [by apply HQ|]. intros [rest st] s' H. rewrite Hk'. by wp_step. }
  unfold bucket_key in Hgo. destruct (nKeyLength b =? 0); wp_step; by apply Hgo.
Qed.

Lemma wp_traverse_forward fuel s ht0 L1 L2 ht pos Q :
  ht_rep s ht0 (L1 ++ L2) -> (length L2 <= fuel)%nat -> get_current ht pos = head L2 ->
  Q (contents s L2, if decide (L2 = []) then (ht, pos) else set_current None ht pos) s ->
  wp (traverse zend_hash_move_forward_ex fuel ht pos) Q s.
Proof.
  revert fuel L1 ht pos Q. induction L2 as [|p L2 IH]; intros fuel L1 ht pos Q HR Hlen Hc HQ.
  { by apply traverse_end. }
  simpl in Hc. destruct fuel as [|fuel]; [simpl in Hlen; lia|].
  destruct (contents_mid _ _ _ _ _ HR) as (b & v & Hb & _ & _ & He & _).
  destruct (rep_order _ _ _ HR) as (HL & _).
  destruct (dll_lookup _ _ _ _ _ HL) as (b2 & Hb2 & _ & Hnext). assert (b2 = b) as -> by congruence.
  eapply (traverse_step _ fuel ht ht0 L1 p L2 pos _ _ (head L2)); [done|done|done| |].
  { intros Q' HQ'. unfold zend_hash_move_forward_ex. rewrite Hc. wp_step. wp_step. wp_step.
    simpl in Hnext. by rewrite Hnext. }
  intros ht' pos' Hsc. pose proof (get_set_current (head L2) ht pos) as Hg.
  pose proof (set_current_twice None (head L2) ht pos) as Ht. rewrite <- Hsc in Hg, Ht.
  eapply (IH _ (L1 ++ [p])); [by rewrite <- app_assoc|simpl in Hlen; lia|done|].
  simpl. rewrite (contents_cons _ _ _ _ He) in HQ. rewrite decide_False in HQ by done.
  case_decide as Hn; [|by rewrite Ht]. subst L2. simpl in Hsc. by rewrite Hsc.
Qed.

Lemma wp_traverse_backward fuel s ht0 L1 L2 ht pos Q :
  ht_rep s ht0 (L1 ++ L2) -> (length L1 <= fuel)%nat -> get_current ht pos = last L1 ->
  Q (reverse (contents s L1), if decide (L1 = []) then (ht, pos) else set_current None ht pos) s ->
  wp (traverse zend_hash_move_backwards_ex fuel ht pos) Q s.
Proof.
  revert fuel L2 ht pos Q. induction L1 as [|p L1 IH] using rev_ind; intros fuel L2 ht pos Q HR Hlen Hc HQ.
  { by apply traverse_end. }
  rewrite length_app in Hlen. simpl in Hlen. rewrite last_snoc in Hc. rewrite <- app_assoc in HR.
  destruct fuel as [|fuel]; [lia|].
  destruct (contents_mid _ _ _ _ _ HR) as (b & v & Hb & _ & _ & He & _).
  destruct (rep_order _ _ _ HR) as (HL & _).
  destruct (dll_lookup _ _ _ _ _ HL) as (b2 & Hb2 & Hlast & _). assert (b2 = b) as -> by congruence.
  eapply (traverse_step _ fuel ht ht0 L1 p L2 pos _ _ (last L1)); [done|done|done| |].
  { intros Q' HQ'. unfold zend_hash_move_backwards_ex. rewrite Hc. wp_step. wp_step. wp_step.
    simpl in Hlast. by rewrite Hlast. }
  intros ht' pos' Hsc. pose proof (get_set_current (last L1) ht pos) as Hg.
  pose proof (set_current_twice None (last L1) ht pos) as Ht. rewrite <- Hsc in Hg, Ht.
  eapply (IH _ (p :: L2)); [done|lia|done|].
  simpl. rewrite contents_app, (contents_cons _ _ _ _ He), reverse_app in HQ.
  rewrite decide_False in HQ by (by destruct L1).
  case_decide as Hn; [|by rewrite Ht]. subst L1. simpl in Hsc. by rewrite Hsc.
Qed.

Lemma wp_chain_has fuel target c0 c Q s :
  dll hash_links (nodes s) (c0 ++ c) -> (length c < fuel)%nat ->
  Q (bool_decide (target ∈ c)) s -> wp (chain_has fuel target (head c)) Q s.
Proof.
  revert c0 c. induction fuel as [|fuel IH]; intros c0 c Hd Hlen HQ; [lia|].
  destruct c as [|p c]; simpl; [by wp_step|].
  destruct (dll_lookup _ _ _ _ _ Hd) as (b & Hb & _ & Hnext). destruct (decide (p = target)) as [Hp|Hp].
  - wp_step. by rewrite bool_decide_eq_true_2 in HQ by set_solver.
  - wp_step. wp_step. simpl in Hnext. rewrite Hnext.
    apply (IH (c0 ++ [p])); [by rewrite <- app_assoc|simpl in Hlen; lia|].
    erewrite bool_decide_ext; [exact HQ|]. rewrite elem_of_cons. clear -Hp. naive_solver.
Qed.

Lemma rep_set_internal s ht L (c : option ptr) :
  ht_rep s ht L -> (forall p, c = Some p -> p ∈ L) -> ht_rep s (set_pInternalPointer c ht) L.
Proof. intros HR Hc. destruct HR. split; try done. Qed.

(** A saved position is restored exactly when its bucket is still in the table. *)
Lemma wp_set_pointer s ht L target h Q :
  ht_rep s ht L ->
  (forall b, target ∈ L -> nodes s !! target = Some b -> b_h b = h) ->
  (target ∈ L -> ht_rep s (set_pInternalPointer (Some target) ht) L ->
     Q (1, set_pInternalPointer (Some target) ht) s) ->
  (target ∉ L -> Q (0, ht) s) ->
  wp (zend_hash_set_pointer ht (mkHashPointer (Some target) h)) Q s.
Proof.
  intros HR Hh HS HN. unfold zend_hash_set_pointer. cbn [hp_pos hp_h]. case_decide as Hp.
  - wp_step. assert (ht = set_pInternalPointer (Some target) ht) as Heq by (destruct ht; simpl in *; by subst).
    rewrite Heq. apply HS; [by apply (rep_internal _ _ _ HR)|by rewrite <- Heq].
  - pose proof (hash_index_lt ht L h (rep_geometry _ _ _ HR)) as Hi.
    apply lookup_lt_is_Some in Hi as [o Ho]. wp_step. unfold read_slot. rewrite Ho. wp_step. wp_step.
    destruct (rep_slots _ _ _ HR _ _ Ho) as (c & -> & Hc & Hin).
    destruct (rep_order _ _ _ HR) as (HL & _ & _ & Hn & _).
    apply (wp_chain_has _ _ [] c); [done| |].
    { unfold loop_bound. rewrite Hn, Nat2Z.id.
      pose proof (slot_chain_length _ _ _ _ _ _ Hc Hin (rep_slots _ _ _ HR _ _ Ho)). lia. }
    case_bool_decide as Hin'.
    + wp_step. apply Hin in Hin' as [HtL _]. apply HS; [done|]. apply rep_set_internal; [done|].
      by intros ? [= <-].
    + wp_step. apply HN. intros HtL. apply Hin'. apply Hin. split; [done|].
      destruct (rep_entry _ _ _ _ HR HtL) as (b & _ & Hb & _). exists b. split; [done|]. by rewrite (Hh b).
Qed.

End iter.
