(* ===== verification/ZendHashCopy.v ===== *)
(** * ZendHashCopy: copying and merging tables

    Models [zend_hash_copy], [_zend_hash_merge] and [zend_hash_merge_ex] of
    src/Zend/zend_hash.c.  Both tables live in one store; the copy constructor
    rewrites the copied value in place. *)
From S2P Require Import Prelude Memory Dllist HashFunc OrderedMap ZendHash ZendHashRep ZendHashLink.
From S2P Require Import ZendHashDelete ZendHashRehash ZendHashInsert ZendHashAppend ZendHashDestroy.
From S2P Require Import ZendHashFind ZendHashApply ZendHashIter.
From stdpp Require Import base list gmap.
Local Open Scope Z_scope.

Section copy.
Context {V : Type} {AL : Allocator} (uninit : Bucket V).
Implicit Types (m : gmap ptr (Bucket V)) (b : Bucket V) (p q : ptr) (L c : list ptr).
Implicit Types (s : store (Bucket V) V) (ht : HashTable).

Abbreviation hcmd := (cmd (store (Bucket V) V)).

(** [p->arKey, p->nKeyLength] as an argument pair *)
Definition bucket_keyarg (b : Bucket V) : keyarg :=
  KeyArg (arKey b) (take (Z.to_nat (nKeyLength b)) (key_bytes b)).

(** [if (pCopyConstructor) pCopyConstructor(new_entry);] *)
Definition call_ctor (ctor : option (V -> V)) (d : option dataloc) : hcmd unit :=
  match ctor, d with
  | None, _ => mret tt
  | Some _, Some d => apply_ctor ctor d
  | Some _, None => cfault
  end.

(** [while (p) { ...; p = p->pListNext; }] over the source *)
Fixpoint source_loop (body : HashTable -> ptr -> hcmd HashTable) (fuel : nat)
    (target : HashTable) (p : option ptr) : hcmd HashTable :=
  match p with
  | None => mret target
  | Some q =>
      match fuel with
      | O => cfault
      | S fuel =>
          target ← body target q;
          b ← load q;
          source_loop body fuel target (pListNext b)
      end
  end.

Definition copy_body (setTargetPointer : bool) (source : HashTable) (ctor : option (V -> V))
    (size : Z) (target : HashTable) (p : ptr) : hcmd HashTable :=
  let target := if setTargetPointer && bool_decide (pInternalPointer source = Some p)
                then set_pInternalPointer None target else target in
  b ← load p;
  v ← load_data p;
  '(_, new_entry, target) ←
    (if nKeyLength b =? 0
     then _zend_hash_index_update_or_next_insert uninit target (b_h b) v size HASH_UPDATE
     else _zend_hash_quick_add_or_update uninit target (bucket_keyarg b) (b_h b) v size HASH_UPDATE);
  call_ctor ctor new_entry ;;
  mret target.

Definition zend_hash_copy (target source : HashTable) (ctor : option (V -> V)) (size : Z) :
    hcmd HashTable :=
  let setTargetPointer := bool_decide (pInternalPointer target = None) in
  target ← source_loop (copy_body setTargetPointer source ctor size) (loop_bound source) target
             (pListHead source);
  mret (match pInternalPointer target with
        | None => set_pInternalPointer (pListHead target) target
        | Some _ => target
        end).

Definition merge_body (mode : hash_flag) (ctor : option (V -> V)) (size : Z)
    (target : HashTable) (p : ptr) : hcmd HashTable :=
  b ← load p;
  v ← load_data p;
  if 0 <? nKeyLength b then
    '(r, t, target) ← _zend_hash_quick_add_or_update uninit target (bucket_keyarg b) (b_h b) v size mode;
    match r with
    | SUCCESS => call_ctor ctor t ;; mret target
    | FAILURE => mret target
    end
  else
    go ← (if decide (mode = HASH_UPDATE) then mret true
          else e ← zend_hash_index_exists target (b_h b); mret (negb e));
    if go : bool then
      '(r, t, target) ← _zend_hash_index_update_or_next_insert uninit target (b_h b) v size HASH_UPDATE;
      match r with
      | SUCCESS => call_ctor ctor t ;; mret target
      | FAILURE => mret target
      end
    else mret target.

Definition _zend_hash_merge (target source : HashTable) (ctor : option (V -> V)) (size : Z)
    (overwrite : bool) : hcmd HashTable :=
  let mode := if overwrite then HASH_UPDATE else HASH_ADD in
  target ← source_loop (merge_body mode ctor size) (loop_bound source) target (pListHead source);
  mret (set_pInternalPointer (pListHead target) target).

(** [merge_checker_func] looks at the target struct, the source value and the key. *)
Definition zend_hash_replace_checker_wrapper (target : HashTable) (source_data : V) (b : Bucket V)
    (merge_checker_func : HashTable -> V -> zend_hash_key -> bool) : bool :=
  merge_checker_func target source_data (hash_key_of b).

Definition merge_ex_body (pMergeSource : HashTable -> V -> zend_hash_key -> bool)
    (ctor : option (V -> V)) (size : Z) (target : HashTable) (p : ptr) : hcmd HashTable :=
  b ← load p;
  v ← load_data p;
  if zend_hash_replace_checker_wrapper target v b pMergeSource then
    '(r, t, target) ←
      _zend_hash_quick_add_or_update uninit target (bucket_keyarg b) (b_h b) v size HASH_UPDATE;
    match r with
    | SUCCESS => call_ctor ctor t ;; mret target
    | FAILURE => mret target
    end
  else mret target.

Definition zend_hash_merge_ex (target source : HashTable) (ctor : option (V -> V)) (size : Z)
    (pMergeSource : HashTable -> V -> zend_hash_key -> bool) : hcmd HashTable :=
  target ← source_loop (merge_ex_body pMergeSource ctor size) (loop_bound source) target
             (pListHead source);
  mret (set_pInternalPointer (pListHead target) target).

(** ** The specification on ordered maps *)

Definition ctor_val (ctor : option (V -> V)) (v : V) : V :=
  match ctor with Some f => f v | None => v end.

(** One element merged: the map and the value it displaced. *)
Definition put_spec (ctor : option (V -> V)) (E : list (hkey * V)) (e : hkey * V) :
    list (hkey * V) * list V :=
  (om_insert e.1 (ctor_val ctor e.2) E, option_list (om_lookup e.1 E)).

Definition add_spec (ctor : option (V -> V)) (E : list (hkey * V)) (e : hkey * V) :
    list (hkey * V) * list V :=
  match om_lookup e.1 E with
  | Some _ => (E, [])
  | None => (om_insert e.1 (ctor_val ctor e.2) E, [])
  end.

Fixpoint merge_spec (g : list (hkey * V) -> hkey * V -> list (hkey * V) * list V)
    (E F : list (hkey * V)) : list (hkey * V) * list V :=
  match F with
  | [] => (E, [])
  | e :: F => let '(E', gone) := g E e in
              let '(E'', gone') := merge_spec g E' F in (E'', gone ++ gone')
  end.

(** ** Rules *)

Definition apart (s : store (Bucket V) V) (L1 L2 : list ptr) : Prop :=
  (forall q, q ∈ L2 -> q ∉ L1) /\ (forall a, owned s L2 a -> ~ owned s L1 a).

(** The target's buckets [L] became [L'], with contents [E]. *)
Definition merged (s : store (Bucket V) V) (ht : HashTable) (L : list ptr)
    (s' : store (Bucket V) V) (ht' : HashTable) (L' : list ptr) (E : list (hkey * V))
    (gone : list V) : Prop :=
  ht_rep s' ht' L' /\ contents s' L' = E /\ same_rest s L s' L' /\
  dtor_trace s' = dtor_trace s ++ if_dtor ht gone /\ same_config ht ht'.

Lemma merged_refl s ht L : ht_rep s ht L -> merged s ht L s ht L (contents s L) [].
Proof.
  intros HR. split_and!; try done. unfold if_dtor. destruct (pDestructor ht); by rewrite app_nil_r.
Qed.

Lemma merged_trans s ht L s1 ht1 L1 E1 g1 s2 ht2 L2 E2 g2 :
  merged s ht L s1 ht1 L1 E1 g1 -> merged s1 ht1 L1 s2 ht2 L2 E2 g2 ->
  merged s ht L s2 ht2 L2 E2 (g1 ++ g2).
Proof.
  intros (HR1 & HE1 & Hr1 & Ht1 & Hc1) (HR2 & HE2 & Hr2 & Ht2 & Hc2). split_and!; [done|done| | |].
  - by eapply same_rest_trans.
  - by rewrite Ht2, Ht1, (if_dtor_config _ _ _ Hc1), if_dtor_app, app_assoc.
  - by eapply same_config_trans.
Qed.

Lemma merged_contents_length s ht L s' ht' L' E gone :
  merged s ht L s' ht' L' E gone -> length L' = length E.
Proof. intros (HR & <- & _). by rewrite (rep_contents_length _ _ _ _ HR) by set_solver. Qed.

Lemma wp_source_loop body g fuel s ht src L L1 L2 Q :
  (forall E e, (length (g E e).1 <= S (length E))%nat) ->
  (forall s ht L q k v Q, ht_rep s ht L -> ht_rep s src (L1 ++ L2) -> apart s L (L1 ++ L2) ->
     q ∈ L2 -> entry s q = Some (k, v) -> Z.of_nat (length L) + 1 < 2 ^ 32 ->
     (forall s' ht' L', merged s ht L s' ht' L' (g (contents s L) (k, v)).1 (g (contents s L) (k, v)).2 ->
        Q ht' s') -> wp (body ht q) Q s) ->
  ht_rep s ht L -> ht_rep s src (L1 ++ L2) -> apart s L (L1 ++ L2) -> (length L2 < fuel)%nat ->
  Z.of_nat (length L + length L2) < 2 ^ 32 ->
  (forall s' ht' L', merged s ht L s' ht' L' (merge_spec g (contents s L) (contents s L2)).1
      (merge_spec g (contents s L) (contents s L2)).2 ->
     ht_rep s' src (L1 ++ L2) -> contents s' (L1 ++ L2) = contents s (L1 ++ L2) -> Q ht' s') ->
  wp (source_loop body fuel ht (head L2)) Q s.
Proof.
  intros Hg. revert s ht L L1 L2 Q.
  induction fuel as [|fuel IH]; intros s ht L L1 L2 Q Hbody HR HRs Hap Hlen Hbound HQ; [lia|].
  destruct L2 as [|q L2]; simpl.
  { wp_step. apply (HQ s ht L); [by apply merged_refl|done|done]. }
  destruct (contents_mid _ _ _ _ _ HRs) as (b & v & Hb & _ & Hv & He & _).
  simpl in Hbound, Hlen. wp_step.
  apply (Hbody s ht L q (bucket_key b) v); [done|done|done|set_solver|done|lia|].
  intros s1 ht1 L' Hm.
  destruct (same_rest_other s s1 L L' src (L1 ++ q :: L2)) as (HRs1 & Hcs1 & Hd1 & Hdb1 & Hn1);
    [done|apply Hm|apply Hap|apply Hap|].
  destruct (rep_order _ _ _ HRs) as (HLs & _).
  destruct (dll_lookup _ _ _ _ _ HLs) as (b2 & Hb2 & _ & Hnext). assert (b2 = b) as -> by congruence.
  wp_step. eapply wp_load; [rewrite Hn1 by set_solver; exact Hb|]. simpl in Hnext. rewrite Hnext.
  assert (contents s1 L2 = contents s L2) as Hc2.
  { rewrite (cons_middle q L1 L2), !app_assoc in HRs, HRs1, Hcs1.
    by destruct (contents_split _ _ _ _ _ _ HRs HRs1 Hcs1). }
  pose proof (merged_contents_length _ _ _ _ _ _ _ _ Hm) as HlenL'.
  pose proof (Hg (contents s L) (bucket_key b, v)) as Hgl.
  rewrite (rep_contents_length _ _ _ _ HR) in Hgl by set_solver.
  rewrite (cons_middle q L1 L2), app_assoc in *.
  apply (IH s1 ht1 L' (L1 ++ [q]) L2); [|apply Hm|done|by split|lia|lia|].
  { intros ? ? ? ? ? ? ? ? ? ? ?. apply Hbody; [done|done|done|set_solver]. }
  intros s' ht' L'' Hm' HRs' Hcs'. apply (HQ s' ht' L''); [|done|by rewrite Hcs'].
  pose proof (merged_trans _ _ _ _ _ _ _ _ _ _ _ _ _ Hm Hm') as Hmt.
  rewrite (contents_cons _ _ _ _ He). simpl.
  destruct Hm as (_ & HcL' & _). rewrite HcL', Hc2 in Hmt.
  destruct (g (contents s L) (bucket_key b, v)) as [E1 g1].
  simpl in Hmt. by destruct (merge_spec g E1 (contents s L2)).
Qed.

Lemma apply_ctor_store s p b v f :
  nodes s !! p = Some b -> bucket_val (blocks s) b = Some v ->
  apply_ctor (Some f) (loc_of p b) s = store_data p (f v) s.
Proof.
  intros Hb Hv. unfold store_data, apply_ctor, loc_of, bucket_val, load, mbind, cmd_bind in *.
  rewrite Hb. destruct (pData b) as [|a].
  - unfold update. rewrite Hb. by rewrite !(alter_insert_Some _ _ _ b), Hv.
  - unfold load_block. by rewrite Hv.
Qed.

Lemma wp_call_ctor s ht L key v ctor d Q :
  ht_rep s ht L -> dest_ok s L key v d ->
  (forall s', ht_rep s' ht L -> contents s' L = om_insert key (ctor_val ctor v) (contents s L) ->
     same_rest s L s' L -> dtor_trace s' = dtor_trace s -> Q tt s') ->
  wp (call_ctor ctor d) Q s.
Proof.
  intros HR (p & b & Hp & Hb & Hk & Hv & ->) HQ. apply list_elem_of_split in Hp as (L1 & L2 & ->).
  destruct (insert_found _ _ _ _ _ _ _ HR Hb Hk) as (old & He & _ & Hins).
  destruct ctor as [f|]; simpl call_ctor.
  - eapply wp_eq; [by apply apply_ctor_store|]. apply (wp_store_data s ht L1 p L2); [done|].
    intros b0 b' s' Hb0 Hb' Hs HR' Hc Hrest Htr. assert (b0 = b) as -> by congruence.
    apply HQ; [done| |done|done]. by rewrite Hins, Hc, Hk.
  - wp_step. apply HQ; [done| |done|done]. rewrite Hins. simpl.
    rewrite contents_app, (contents_cons _ _ _ _ He). do 3 f_equal.
    unfold entry in He. rewrite Hb in He. simpl in He. rewrite Hv in He. by simplify_eq/=.
Qed.

Lemma insert_post_update s ht L key v nf res d ht' s' :
  insert_post s ht L key v true nf (res, d, ht') s' ->
  res = SUCCESS /\ exists L',
    merged s ht L s' ht' L' (om_insert key v (contents s L)) (option_list (om_lookup key (contents s L))) /\
    dest_ok s' L' key v d.
Proof.
  unfold insert_post. destruct (om_lookup key (contents s L)) as [old|].
  - intros (-> & -> & HR & Hc & Hrest & Htr & Hd). split; [done|]. exists L. split; [|done].
    split_and!; try done. apply CHECK_INIT_fields.
  - intros (-> & p & HR & Hc & Hrest & Htr & Hcfg & _ & _ & Hd). split; [done|].
    exists (L ++ [p]). split; [|done]. split_and!; try done. rewrite Htr. unfold if_dtor.
    destruct (pDestructor ht); by rewrite app_nil_r.
Qed.

(** The insertion of an element followed by the copy constructor. *)
Lemma put_ctor_finish {A} s ht L key v nf r d ht' s1 ctor (c : hcmd A) Q :
  insert_post s ht L key v true nf (r, d, ht') s1 ->
  (forall s' L', merged s ht L s' ht' L' (put_spec ctor (contents s L) (key, v)).1
     (put_spec ctor (contents s L) (key, v)).2 -> wp c Q s') ->
  r = SUCCESS /\ wp (call_ctor ctor d ;; c) Q s1.
Proof.
  intros Hpost HQ. apply insert_post_update in Hpost as (-> & L' & Hm & Hd). split; [done|]. wp_step.
  apply (wp_call_ctor s1 ht' L' key v); [apply Hm|done|]. intros s' HR' Hc' Hrest' Htr'.
  apply (HQ s' L'). destruct Hm as (_ & HE & Hrest & Htr & Hcfg). split_and!; [done| | | |done].
  - by rewrite Hc', HE, om_insert_insert.
  - by eapply same_rest_trans.
  - by rewrite Htr', Htr.
Qed.

Lemma bucket_keyarg_ok s ht L p b :
  ht_rep s ht L -> p ∈ L -> nodes s !! p = Some b -> nKeyLength b <> 0 ->
  keyarg_ok s (bucket_keyarg b) /\ b_h b = zend_inline_hash_func (k_bytes (bucket_keyarg b)) /\
  bucket_key b = HStr (k_bytes (bucket_keyarg b)).
Proof.
  intros HR Hp Hb Hn. destruct (rep_buckets _ _ _ HR p b Hp Hb) as [Hok _].
  destruct (bucket_ok_str _ _ Hok Hn) as (Ha & Hl & Hh).
  assert (take (Z.to_nat (nKeyLength b)) (key_bytes b) = key_bytes b) as Ht by (apply take_ge; lia).
  destruct Hok as [[_ Hlt] _].
  unfold bucket_keyarg, keyarg_ok, k_len. simpl. rewrite Ht. split_and!; [lia|lia| |done|].
  - unfold key_bytes in *. destruct Ha as [[x Hx]|Hx]; rewrite Hx in *; [done|].
    exists b. by rewrite Hl.
  - unfold bucket_key. rewrite Ht. destruct (Z.eqb_spec (nKeyLength b) 0); [done|done].
Qed.

(** ** The loop bodies *)

Section bodies.
Context (src : HashTable) (Ls : list ptr) (ctor : option (V -> V)) (size : Z).

(** What a body has to do with the element [(k, v)] of the source. *)
Definition body_ok (g : list (hkey * V) -> hkey * V -> list (hkey * V) * list V)
    (body : HashTable -> ptr -> hcmd HashTable) : Prop :=
  forall s ht L q k v Q, ht_rep s ht L -> ht_rep s src Ls -> apart s L Ls ->
    q ∈ Ls -> entry s q = Some (k, v) -> Z.of_nat (length L) + 1 < 2 ^ 32 ->
    (forall s' ht' L', merged s ht L s' ht' L' (g (contents s L) (k, v)).1 (g (contents s L) (k, v)).2 ->
       Q ht' s') -> wp (body ht q) Q s.

(** Inserting a source bucket under its own key. *)
Lemma wp_insert_bucket s ht L q b v mode :
  ht_rep s ht L -> ht_rep s src Ls -> q ∈ Ls -> nodes s !! q = Some b ->
  Z.of_nat (length L) + 1 < 2 ^ 32 ->
  (nKeyLength b <> 0 ->
   wp (_zend_hash_quick_add_or_update uninit ht (bucket_keyarg b) (b_h b) v size mode)
     (insert_post s ht L (bucket_key b) v (bool_decide (mode <> HASH_ADD)) (nNextFreeElement ht)) s) /\
  (nKeyLength b = 0 ->
   wp (_zend_hash_index_update_or_next_insert uninit ht (b_h b) v size HASH_UPDATE)
     (insert_post s ht L (bucket_key b) v true (next_free_after (b_h b) (nNextFreeElement ht))) s).
Proof.
  intros HR HRs Hq Hb Hlen. split; intros Hn.
  - destruct (bucket_keyarg_ok _ _ _ _ _ HRs Hq Hb Hn) as (Hk & Hh & Hkey).
    rewrite Hh, Hkey. by apply wp_quick_add_or_update.
  - destruct (rep_buckets _ _ _ HRs q b Hq Hb) as [[[Hh _] _] _].
    assert (bucket_key b = HInt (b_h b)) as -> by by apply bucket_key_int.
    by apply (wp_index_update_or_next_insert uninit s ht L (b_h b) v size HASH_UPDATE).
Qed.

Lemma copy_body_ok st : body_ok (put_spec ctor) (copy_body st src ctor size).
Proof.
  intros s ht L q k v Q HR HRs Hap Hq He Hlen HQ. unfold copy_body.
  destruct (rep_entry _ _ _ _ HRs Hq) as (b & v' & Hb & _ & Hv & He').
  assert (v' = v /\ bucket_key b = k) as [-> <-] by (split; congruence).
  set (ht1 := if _ && _ then _ else ht). wp_step. wp_step. wp_step. eapply wp_load_data; [done..|].
  assert (ht_rep s ht1 L /\ same_config ht ht1 /\ pDestructor ht1 = pDestructor ht) as (HR1 & Hcfg1 & Hpd).
  { unfold ht1. destruct (_ && _); [|done]. split; [|done]. by apply rep_set_internal. }
  destruct (wp_insert_bucket s ht1 L q b v HASH_UPDATE) as [Hs Hi]; [done..|]. wp_step.
  assert (exists nf, wp (if nKeyLength b =? 0
     then _zend_hash_index_update_or_next_insert uninit ht1 (b_h b) v size HASH_UPDATE
     else _zend_hash_quick_add_or_update uninit ht1 (bucket_keyarg b) (b_h b) v size HASH_UPDATE)
     (insert_post s ht1 L (bucket_key b) v true nf) s) as [nf Hput].
  { destruct (Z.eqb_spec (nKeyLength b) 0); eexists; [by apply Hi|by apply Hs]. }
  eapply wp_mono; [exact Hput|]. intros [[r d] ht'] s1 Hpost.
  eapply put_ctor_finish; [exact Hpost|]. intros s' L' (HR' & HE & Hrest & Htr & Hcfg). wp_step.
  apply (HQ s' ht' L'). split_and!; [done..| |by eapply same_config_trans].
  by rewrite Htr, (if_dtor_config _ _ _ Hcfg1).
Qed.

Lemma merge_update_ok : body_ok (put_spec ctor) (merge_body HASH_UPDATE ctor size).
Proof.
  intros s ht L q k v Q HR HRs Hap Hq He Hlen HQ. unfold merge_body.
  destruct (rep_entry _ _ _ _ HRs Hq) as (b & v' & Hb & Hok & Hv & He').
  assert (v' = v /\ bucket_key b = k) as [-> <-] by (split; congruence).
  wp_step. wp_step. wp_step. eapply wp_load_data; [done..|].
  destruct (wp_insert_bucket s ht L q b v HASH_UPDATE) as [Hs Hi]; [done..|].
  destruct (Z.ltb_spec 0 (nKeyLength b)) as [Hn|Hn].
  - wp_step. eapply wp_mono; [apply Hs; lia|]. intros [[r d] ht'] s1 Hpost.
    destruct (put_ctor_finish _ _ _ _ _ _ _ _ _ _ ctor (mret ht') Q Hpost) as [-> ?]; [|done].
    intros s' L' Hm. wp_step. by eapply HQ.
  - wp_step. rewrite decide_True by done. wp_step. cbn iota. wp_step.
    assert (nKeyLength b = 0) as Hn0.
    { destruct (decide (nKeyLength b = 0)) as [|E]; [done|].
      destruct (bucket_ok_str _ _ Hok E) as (_ & ? & _). lia. }
    eapply wp_mono; [by apply Hi|]. intros [[r d] ht'] s1 Hpost.
    destruct (put_ctor_finish _ _ _ _ _ _ _ _ _ _ ctor (mret ht') Q Hpost) as [-> ?]; [|done].
    intros s' L' Hm. wp_step. by eapply HQ.
Qed.

Lemma put_add_absent E key v :
  om_lookup key E = None -> put_spec ctor E (key, v) = add_spec ctor E (key, v).
Proof. unfold put_spec, add_spec. simpl. by intros ->. Qed.

Lemma merge_add_ok : body_ok (add_spec ctor) (merge_body HASH_ADD ctor size).
Proof.
  intros s ht L q k v Q HR HRs Hap Hq He Hlen HQ. unfold merge_body.
  destruct (rep_entry _ _ _ _ HRs Hq) as (b & v' & Hb & Hok & Hv & He').
  assert (v' = v /\ bucket_key b = k) as [-> <-] by (split; congruence).
  wp_step. wp_step. wp_step. eapply wp_load_data; [done..|].
  destruct (wp_insert_bucket s ht L q b v HASH_ADD) as [Hs Hi]; [done..|].
  rewrite bool_decide_eq_false_2 in Hs by naive_solver.
  destruct (Z.ltb_spec 0 (nKeyLength b)) as [Hn|Hn].
  - wp_step. eapply wp_mono; [apply Hs; lia|]. intros [[r d] ht'] s1 Hpost.
    destruct (om_lookup (bucket_key b) (contents s L)) as [old|] eqn:Hlk.
    + unfold insert_post in Hpost. rewrite Hlk in Hpost. destruct Hpost as (-> & -> & -> & ->).
      wp_step. apply (HQ s _ L). unfold add_spec. simpl. rewrite Hlk. simpl.
      destruct (check_init_rep _ _ _ HR) as [HR1 _].
      split_and!; [done..| |apply CHECK_INIT_fields].
      unfold if_dtor. destruct (pDestructor ht); by rewrite app_nil_r.
    + assert (insert_post s ht L (bucket_key b) v true (nNextFreeElement ht) (r, d, ht') s1) as Hpost'.
      { unfold insert_post in *. by rewrite Hlk in *. }
      destruct (put_ctor_finish _ _ _ _ _ _ _ _ _ _ ctor (mret ht') Q Hpost') as [-> ?]; [|done].
      intros s' L' Hm. wp_step. rewrite put_add_absent in Hm by done. by eapply HQ.
  - assert (nKeyLength b = 0) as Hn0.
    { destruct (decide (nKeyLength b = 0)) as [|E]; [done|].
      destruct (bucket_ok_str _ _ Hok E) as (_ & ? & _). lia. }
    wp_step. rewrite decide_False by done. wp_step. eapply wp_index_exists; [done|]. wp_step.
    assert (bucket_key b = HInt (b_h b)) as Hkey by by apply bucket_key_int. rewrite <- Hkey.
    destruct (om_lookup (bucket_key b) (contents s L)) as [old|] eqn:Hlk.
    + rewrite bool_decide_eq_true_2 by done. cbn beta iota delta [negb]. wp_step. apply (HQ s ht L). unfold add_spec. simpl.
      rewrite Hlk. by apply merged_refl.
    + rewrite bool_decide_eq_false_2 by (by intros [? ?]).
      cbn beta iota delta [negb]. wp_step.
      eapply wp_mono; [by apply Hi|]. intros [[r d] ht'] s1 Hpost.
      destruct (put_ctor_finish _ _ _ _ _ _ _ _ _ _ ctor (mret ht') Q Hpost) as [-> ?]; [|done].
      intros s' L' Hm. wp_step. rewrite put_add_absent in Hm by done. by eapply HQ.
Qed.

Lemma put_spec_length E e : (length (put_spec ctor E e).1 <= S (length E))%nat.
Proof. unfold put_spec. simpl. apply om_insert_length. Qed.

Lemma add_spec_length E e : (length (add_spec ctor E e).1 <= S (length E))%nat.
Proof. unfold add_spec. destruct (om_lookup e.1 E); simpl; [lia|]. apply om_insert_length. Qed.

(** A whole loop over the source. *)
Lemma wp_source_all body g s ht L Q :
  (forall E e, (length (g E e).1 <= S (length E))%nat) -> body_ok g body ->
  ht_rep s ht L -> ht_rep s src Ls -> apart s L Ls -> Z.of_nat (length L + length Ls) < 2 ^ 32 ->
  (forall s' ht' L', merged s ht L s' ht' L' (merge_spec g (contents s L) (contents s Ls)).1
      (merge_spec g (contents s L) (contents s Ls)).2 ->
     ht_rep s' src Ls -> contents s' Ls = contents s Ls -> Q ht' s') ->
  wp (source_loop body (loop_bound src) ht (pListHead src)) Q s.
Proof.
  intros Hg Hbody HR HRs Hap Hlen HQ. destruct (rep_order _ _ _ HRs) as (_ & -> & _ & Hn & _).
  apply (wp_source_loop body g _ s ht src L [] Ls); simpl; [done| |done..| |done|done].
  - exact Hbody.
  - unfold loop_bound. rewrite Hn, Nat2Z.id. lia.
Qed.

End bodies.

End copy.
