(* ===== verification/ZendHashDemo.v ===== *)
(** * ZendHashDemo: a concrete table

    A table built by running the modelled operations from
    [_zend_hash_init]: an interned and a copied string key, two integer keys,
    inline and separately allocated data.  The theorems of [ZendHashSpec] are
    exercised on it. *)
From S2P Require Import Prelude Memory Dllist HashFunc OrderedMap ZendHash ZendHashRep ZendHashLink.
From S2P Require Import ZendHashRehash ZendHashInsert ZendHashAppend ZendHashDestroy.
From stdpp Require Import base list gmap.
Local Open Scope Z_scope.

Module Demo.

#[global] Existing Instance bump_allocator.

Abbreviation dstore := (store (Bucket Z) Z).

(** Fresh bucket memory full of garbage. *)
Definition uninit : Bucket Z :=
  mkBucket 77 77 (AtBlock 9) (Some 7) (Some 5%positive) (Some 6%positive) (Some 7%positive)
    (Some 8%positive) (KExt 1) [1; 2; 3].

Definition key_a : keyarg := KeyArg (KInterned [97; 0]) [97; 0].
Definition key_b : keyarg := KeyArg (KExt 5) [98; 0].
Definition key_z : keyarg := KeyArg (KExt 6) [122; 0].

Definition empty : dstore := Store ∅ ∅ [].

Definition ht0 : HashTable := _zend_hash_init 5 true false.

(** The state after a run that is known not to fault. *)
Definition result {A} (d : A) (c : cmd dstore A) (s : dstore) : A * dstore :=
  match c s with Some r => r | None => (d, s) end.

Definition out3 : Type := zresult * option dataloc * HashTable.

Definition step1 : out3 * dstore := Eval vm_compute in
  result (FAILURE, None, ht0) (_zend_hash_quick_add_or_update uninit ht0 key_a
    (zend_inline_hash_func (k_bytes key_a)) 10 sizeof_ptr HASH_ADD) empty.
Definition step2 : out3 * dstore := Eval vm_compute in
  result (FAILURE, None, ht0) (_zend_hash_index_update_or_next_insert uninit step1.1.2 5 20 16
    HASH_UPDATE) step1.2.
Definition step3 : out3 * dstore := Eval vm_compute in
  result (FAILURE, None, ht0) (_zend_hash_quick_add_or_update uninit step2.1.2 key_b
    (zend_inline_hash_func (k_bytes key_b)) 30 16 HASH_UPDATE) step2.2.
Definition step4 : out3 * dstore := Eval vm_compute in
  result (FAILURE, None, ht0) (_zend_hash_index_update_or_next_insert uninit step3.1.2 0 40
    sizeof_ptr HASH_NEXT_INSERT) step3.2.

(** The store, the struct and the buckets in order. *)
Definition st : dstore := Eval vm_compute in step4.2.
Definition ht : HashTable := Eval vm_compute in step4.1.2.
Definition L : list ptr := Eval vm_compute in
  let fix go (n : nat) (p : option ptr) : list ptr :=
    match n, p with
    | S n, Some q => q :: go n (nodes st !! q ≫= pListNext)
    | _, _ => []
    end in
  go 9%nat (pListHead ht).

Lemma wp_result {A} (c : cmd dstore A) (Q : A -> dstore -> Prop) s d r :
  wp c Q s -> r = result d c s -> Q r.1 r.2.
Proof. intros (a & s' & Hc & HQ) ->. unfold result. by rewrite Hc. Qed.

(** The list grows by the new tail. *)
Lemma insert_post_tail s h L key v u nf res d h' s' p :
  insert_post (V := Z) s h L key v u nf (res, d, h') s' -> om_lookup key (contents s L) = None ->
  pListTail h' = Some p ->
  ht_rep s' h' (L ++ [p]) /\ contents s' (L ++ [p]) = contents s L ++ [(key, v)].
Proof.
  unfold insert_post. intros Hp Hl Ht. rewrite Hl in Hp.
  destruct Hp as (_ & q & HR & Hc & _). destruct (rep_order _ _ _ HR) as (_ & _ & Ht' & _).
  rewrite last_snoc in Ht'. assert (q = p) as -> by congruence. split; [done|].
  rewrite Hc. unfold om_insert. by rewrite Hl.
Qed.

Lemma ht0_rep : ht_rep empty ht0 [].
Proof. apply empty_rep; try done; [exists 3; split; [lia|done]|by left]. Qed.

Lemma key_a_ok s : keyarg_ok (V := Z) s key_a.
Proof. done. Qed.

Lemma key_b_ok s : keyarg_ok (V := Z) s key_b.
Proof. done. Qed.

Lemma key_z_ok s : keyarg_ok (V := Z) s key_z.
Proof. done. Qed.

Lemma step_rep s h L key v u nf c d r p E :
  wp c (insert_post (V := Z) s h L key v u nf) s -> r = result d c s -> contents s L = E ->
  om_lookup key E = None -> pListTail r.1.2 = Some p ->
  ht_rep r.2 r.1.2 (L ++ [p]) /\ contents r.2 (L ++ [p]) = E ++ [(key, v)].
Proof.
  intros Hw Hr <- Hl Ht. pose proof (wp_result _ _ _ _ _ Hw Hr) as Hp. destruct r as [[[res d'] h'] s'].
  by eapply insert_post_tail.
Qed.

Lemma step1_rep : ht_rep step1.2 step1.1.2 [2%positive] /\
  contents step1.2 [2%positive] = [(HStr [97; 0], 10)].
Proof.
  eapply (step_rep empty ht0 [] (HStr [97; 0]) 10 _ _ _ (FAILURE, None, ht0) step1 2%positive []);
    [apply (wp_quick_add_or_update uninit empty ht0 [] key_a 10 sizeof_ptr HASH_ADD ht0_rep); done
    |vm_compute; reflexivity|done..].
Qed.

Lemma step2_rep : ht_rep step2.2 step2.1.2 [2; 3]%positive /\
  contents step2.2 [2; 3]%positive = [(HStr [97; 0], 10); (HInt 5, 20)].
Proof.
  destruct step1_rep as [HR Hc].
  eapply (step_rep _ _ [2%positive] (HInt 5) 20 _ _ _ (FAILURE, None, ht0) step2 3%positive [_]);
    [by apply (wp_index_update_or_next_insert uninit step1.2 step1.1.2 [2%positive] 5 20 16 HASH_UPDATE)
    |vm_compute; reflexivity|done..].
Qed.

Lemma step3_rep : ht_rep step3.2 step3.1.2 [2; 3; 5]%positive /\
  contents step3.2 [2; 3; 5]%positive = [(HStr [97; 0], 10); (HInt 5, 20); (HStr [98; 0], 30)].
Proof.
  destruct step2_rep as [HR Hc].
  eapply (step_rep _ _ [2; 3]%positive (HStr [98; 0]) 30 _ _ _ (FAILURE, None, ht0) step3 5%positive
      [_; _]);
    [by apply (wp_quick_add_or_update uninit step2.2 step2.1.2 [2; 3]%positive key_b 30 16 HASH_UPDATE)
    |vm_compute; reflexivity|done..].
Qed.

(** The demonstration table is well formed. *)
Lemma demo_rep : ht_rep st ht L.
Proof.
  destruct step3_rep as [HR Hc].
  eapply (step_rep step3.2 step3.1.2 [2; 3; 5]%positive (HInt 6) 40 _ _ _ (FAILURE, None, ht0) step4
      7%positive [_; _; _]);
    [by apply (wp_index_update_or_next_insert uninit step3.2 step3.1.2 [2; 3; 5]%positive 0 40 sizeof_ptr
       HASH_NEXT_INSERT)
    |vm_compute; reflexivity|done..].
Qed.

Lemma contents_eq :
  contents st L = [(HStr [97; 0], 10); (HInt 5, 20); (HStr [98; 0], 30); (HInt 6, 40)].
Proof. reflexivity. Qed.

End Demo.
