(* ===== verification/ZendHashSpec.v ===== *)
(** * ZendHashSpec: what the hash table promises

    The properties of src/Zend/zend_hash.c, each stated for the modelled C
    function in terms of the ordered map the table stands for.  [wp c Q s]
    says that the call [c] runs from [s] without a memory fault, terminates,
    and ends in a state with [Q]. *)
From S2P Require Import Prelude Memory Dllist HashFunc OrderedMap ZendHash ZendHashRep ZendHashLink.
From S2P Require Import ZendHashDelete ZendHashRehash ZendHashInsert ZendHashAppend ZendHashFind.
From S2P Require Import ZendHashDestroy ZendHashApply ZendHashIter ZendHashCopy ZendHashDemo.
From stdpp Require Import base list gmap.
Local Open Scope Z_scope.

Lemma table_bits_spec fuel i n :
  3 <= i <= 31 -> n <= 2 ^ 31 -> 31 < i + Z.of_nat fuel -> (3 < i -> 2 ^ (i - 1) < n) ->
  let k := table_bits fuel i n in i <= k <= 31 /\ n <= 2 ^ k /\ (3 < k -> 2 ^ (k - 1) < n).
Proof.
  revert i. induction fuel as [|fuel IH]; intros i Hi Hn Hf Hlt; [lia|].
  assert (2 ^ i <= 2 ^ 31) as Hp by (apply Z.pow_le_mono_r; lia).
  cbn [table_bits]. rewrite Z.shiftl_1_l, wrap_u_small by lia.
  destruct (Z.ltb_spec (2 ^ i) n) as [H|H]; [|simpl; lia].
  assert (i <> 31) by (intros ->; lia).
  specialize (IH (i + 1)). cbv zeta in *. destruct IH as (? & ? & ?); try lia.
  intros _. by replace (i + 1 - 1) with i by lia.
Qed.

Lemma init_size nSize dtor persist :
  0 <= nSize < 2 ^ 32 ->
  exists k, 3 <= k <= 31 /\ nTableSize (_zend_hash_init nSize dtor persist) = 2 ^ k /\
    (nSize <= 2 ^ 31 -> nSize <= 2 ^ k) /\ (3 < k -> 2 ^ (k - 1) < nSize).
Proof.
  intros Hn. unfold _zend_hash_init. simpl. change 0x80000000 with (2 ^ 31).
  destruct (Z.leb_spec (2 ^ 31) nSize) as [H|H].
  { exists 31. split_and!; [lia|lia|done|done|]. intros _. change (2 ^ (31 - 1)) with (2 ^ 30). lia. }
  destruct (table_bits_spec 32 3 nSize) as (Hk & Hle & Hlt); [lia..|].
  exists (table_bits 32 3 nSize). split_and!; [lia|lia| |done|done].
  rewrite Z.shiftl_1_l. apply wrap_u_small. split; [lia|]. apply Z.pow_lt_mono_r; lia.
Qed.

Section spec.
Context {V : Type} {AL : Allocator} (uninit : Bucket V).
Implicit Types (s : store (Bucket V) V) (ht : HashTable) (L : list ptr).

(** ** Insertion *)

(** C1: [_zend_hash_add_or_update] implements insertion into the ordered map:
    an existing element keeps its place and gets the new value (after its old
    value was destructed), or is left alone with FAILURE under HASH_ADD; a new
    element goes to the end; nothing else in memory changes or leaks.  The variant
    that is given the hash of the key, [_zend_hash_quick_add_or_update], does exactly
    the same on every state, faults included. *)
Theorem zend_hash_add_or_update_correct s ht L k v n flag :
  ht_rep s ht L -> keyarg_ok s k -> Z.of_nat (length L) + 1 < 2 ^ 32 ->
  wp (_zend_hash_add_or_update uninit ht k v n flag)
    (insert_post s ht L (HStr (k_bytes k)) v (bool_decide (flag <> HASH_ADD)) (nNextFreeElement ht)) s /\
  forall s', _zend_hash_quick_add_or_update uninit ht k (zend_hash_func (k_bytes k)) v n flag s' =
    _zend_hash_add_or_update uninit ht k v n flag s'.
Proof.
  intros HR Hk Hlen. split; [|symmetry; apply add_or_update_quick].
  eapply wp_eq; [apply add_or_update_quick|]. by apply wp_quick_add_or_update.
Qed.

(** C2: [_zend_hash_index_update_or_next_insert] implements insertion under an
    integer key; HASH_NEXT_INSERT takes [nNextFreeElement] as the key and fails
    only if that element exists; [nNextFreeElement] moves past the new key
    and saturates at LONG_MAX. *)
Theorem zend_hash_index_insert_correct s ht L h v n flag :
  let key := if decide (flag = HASH_NEXT_INSERT) then nNextFreeElement ht else h in
  ht_rep s ht L -> 0 <= h < 2 ^ 64 -> Z.of_nat (length L) + 1 < 2 ^ 32 ->
  wp (_zend_hash_index_update_or_next_insert uninit ht h v n flag)
    (insert_post s ht L (HInt key) v (bool_decide (flag = HASH_UPDATE))
       (next_free_after key (nNextFreeElement ht))) s.
Proof. apply wp_index_update_or_next_insert. Qed.

(** An appending insertion cannot collide with an element before
    [nNextFreeElement] has reached LONG_MAX: it always succeeds. *)
Lemma zend_hash_next_insert_succeeds s ht L v n :
  ht_rep s ht L -> Z.of_nat (length L) + 1 < 2 ^ 32 -> nNextFreeElement ht < LONG_MAX ->
  wp (_zend_hash_index_update_or_next_insert uninit ht 0 v n HASH_NEXT_INSERT)
    (fun '(r, d, ht') s' => r = SUCCESS /\ exists p, ht_rep s' ht' (L ++ [p]) /\
       contents s' (L ++ [p]) = contents s L ++ [(HInt (nNextFreeElement ht), v)] /\
       nNextFreeElement ht' = nNextFreeElement ht + 1) s.
Proof.
  intros HR Hlen Hnf. destruct (next_free_unused _ _ _ HR Hnf) as [Hl Hnext].
  eapply wp_mono; [apply wp_index_update_or_next_insert; [done|lia|done]|].
  intros [[r d] ht'] s' Hpost. unfold insert_post in Hpost. rewrite decide_True in Hpost by done.
  rewrite Hl in Hpost. destruct Hpost as (-> & p & HR' & Hc & _ & _ & _ & Hn & _). split; [done|].
  exists p. split_and!; [done| |congruence]. rewrite Hc. unfold om_insert. by rewrite Hl.
Qed.

(** ** Lookup *)

(** [zend_hash_find] and [zend_hash_quick_find] answer SUCCESS exactly for
    the keys of the map, with the address of the stored value. *)
Lemma zend_hash_find_correct s ht L k :
  ht_rep s ht L -> keyarg_ok s k ->
  let post := fun r s' => s' = s /\
    match om_lookup (HStr (k_bytes k)) (contents s L) with
    | Some v => exists d, r = (SUCCESS, Some d) /\ deref d s = Some (v, s)
    | None => r = (FAILURE, None)
    end in
  wp (zend_hash_find ht k) post s /\
  wp (zend_hash_quick_find ht k (zend_hash_func (k_bytes k))) post s.
Proof.
  intros HR Hk post.
  assert (wp (zend_hash_find ht k) post s) as Hf; [|done].
  unfold zend_hash_find. wp_step. eapply wp_str_search; [done..|]. intros o Ho.
  eapply wp_find_result; [done..| |]; unfold post.
  - intros v d -> (a & [= <-] & Hd)%dest_ok_deref. eauto.
  - by intros ->.
Qed.

(** [zend_hash_index_find] does the same for integer keys. *)
Lemma zend_hash_index_find_correct s ht L h :
  ht_rep s ht L ->
  wp (zend_hash_index_find ht h) (fun r s' => s' = s /\
    match om_lookup (HInt h) (contents s L) with
    | Some v => exists d, r = (SUCCESS, Some d) /\ deref d s = Some (v, s)
    | None => r = (FAILURE, None)
    end) s.
Proof.
  intros HR. unfold zend_hash_index_find. wp_step. eapply wp_int_search; [done|]. intros o Ho.
  eapply wp_find_result; [done..| |].
  - intros v d -> (a & [= <-] & Hd)%dest_ok_deref. eauto.
  - by intros ->.
Qed.

(** The exists functions decide membership of the key. *)
Lemma zend_hash_exists_correct s ht L k h :
  ht_rep s ht L -> keyarg_ok s k ->
  let str := fun r s' => s' = s /\
    r = bool_decide (HStr (k_bytes k) ∈ om_keys (contents s L)) in
  wp (zend_hash_exists ht k) str s /\
  wp (zend_hash_quick_exists ht k (zend_hash_func (k_bytes k))) str s /\
  wp (zend_hash_index_exists ht h) (fun r s' => s' = s /\
    r = bool_decide (HInt h ∈ om_keys (contents s L))) s.
Proof.
  intros HR Hk str.
  assert (forall key, bool_decide (is_Some (om_lookup key (contents s L))) =
    bool_decide (key ∈ om_keys (contents s L))) as Hkey.
  { intros key. apply bool_decide_ext. rewrite <- not_eq_None_Some, om_lookup_None.
    split; [apply dec_stable|tauto]. }
  assert (wp (zend_hash_exists ht k) str s) as Hs.
  { unfold zend_hash_exists. wp_step. eapply wp_str_search; [done..|]. intros o Ho. wp_step.
    by rewrite (found_ok_is_Some _ _ _ _ Ho), Hkey. }
  split_and!; [done|done|]. eapply wp_index_exists; [done|]. by rewrite Hkey.
Qed.

(** C4: lookup implements the ordered map: the find functions, with the hash given
    or not, answer SUCCESS exactly for the string or integer keys of the map, with
    the address of the stored value; the exists functions decide membership; and
    none of them changes the memory. *)
Theorem zend_hash_lookup_correct s ht L k h :
  ht_rep s ht L -> keyarg_ok s k ->
  let found (key : hkey) := fun r s' => s' = s /\
    match om_lookup key (contents s L) with
    | Some v => exists d, r = (SUCCESS, Some d) /\ deref d s = Some (v, s)
    | None => r = (FAILURE, None)
    end in
  let member (key : hkey) := fun r s' => s' = s /\ r = bool_decide (key ∈ om_keys (contents s L)) in
  wp (zend_hash_find ht k) (found (HStr (k_bytes k))) s /\
  wp (zend_hash_quick_find ht k (zend_hash_func (k_bytes k))) (found (HStr (k_bytes k))) s /\
  wp (zend_hash_index_find ht h) (found (HInt h)) s /\
  wp (zend_hash_exists ht k) (member (HStr (k_bytes k))) s /\
  wp (zend_hash_quick_exists ht k (zend_hash_func (k_bytes k))) (member (HStr (k_bytes k))) s /\
  wp (zend_hash_index_exists ht h) (member (HInt h)) s.
Proof.
  intros HR Hk found member. destruct (zend_hash_find_correct s ht L k HR Hk) as [Hf Hqf].
  destruct (zend_hash_exists_correct s ht L k h HR Hk) as (He & Hqe & Hie).
  split_and!; try done. by apply zend_hash_index_find_correct.
Qed.

(** ** Deletion *)


(** ** Start-up, sizes and rehashing *)

(** [_zend_hash_init] makes an empty table whose size is a power of two, at
    least 8, not smaller than asked for unless that exceeds 2^31, and the
    smallest such. *)
Theorem zend_hash_init_correct s nSize dtor persist :
  0 <= nSize < 2 ^ 32 ->
  let ht := _zend_hash_init nSize dtor persist in
  ht_rep s ht [] /\ contents s [] = [] /\ nTableMask ht = 0 /\
  exists k, 3 <= k <= 31 /\ nTableSize ht = 2 ^ k /\ (nSize <= 2 ^ 31 -> nSize <= 2 ^ k) /\
    (3 < k -> 2 ^ (k - 1) < nSize).
Proof.
  intros Hn ht. destruct (init_size nSize dtor persist Hn) as (k & Hk & Hsz & Hle & Hlt).
  split_and!; [|done|done|by exists k]. apply empty_rep; try done; [by exists k|by left].
Qed.

(** [zend_hash_rehash] rebuilds every chain without changing the elements,
    their order, or anything outside the table. *)
Lemma zend_hash_rehash_correct s ht L :
  ht_rep s ht L ->
  wp (zend_hash_rehash ht) (fun r s' => r.1 = SUCCESS /\ ht_rep s' r.2 L /\
    contents s' L = contents s L /\ same_rest s L s' L /\ dtor_trace s' = dtor_trace s) s.
Proof.
  intros HR. destruct L as [|p L].
  - unfold zend_hash_rehash. destruct (rep_order _ _ _ HR) as (_ & _ & _ & -> & _). simpl. wp_step.
    done.
  - destruct (rep_geometry _ _ _ HR) as [(k & Hk & Hsz) [(_ & _ & ?)|[Hm _]]]; [done|].
    eapply wp_rehash; [by apply rep_pre|done|done|done|done|]. intros s' arB HR' Hc Hrest Htr _ _. done.
Qed.


(** ** Destruction *)


(** ** Traversal *)

(** C7: the forward apply functions call the callback on the elements in
    order, remove (and destruct) those it asks to remove, stop when it asks to
    stop, and leave the recursion counter as it was; [zend_hash_reverse_apply] does
    the same from the last element to the first. *)
Theorem zend_hash_apply_correct {A} s ht L (f : V -> A -> Z * V * A) acc :
  ht_rep s ht L -> (bApplyProtection ht = true -> 0 <= nApplyCount ht < 3) ->
  let '(kept, gone, acc1) := apply_spec (fun _ => f) (contents s L) acc in
  let '(kept_r, gone_r, acc2) := apply_spec (fun _ => f) (reverse (contents s L)) acc in
  wp (zend_hash_apply ht f acc) (applied_post s ht L kept gone acc1) s /\
  wp (zend_hash_apply_with_argument ht (fun v arg => arg v) f acc)
    (applied_post s ht L kept gone acc1) s /\
  wp (zend_hash_reverse_apply ht f acc) (applied_post s ht L (reverse kept_r) gone_r acc2) s.
Proof.
  intros HR Hg. destruct (apply_spec (fun _ => f) (contents s L) acc) as [[kept gone] acc1] eqn:Hf.
  destruct (apply_spec (fun _ => f) (reverse (contents s L)) acc) as [[kept_r gone_r] acc2] eqn:Hr.
  split_and!; [by apply (wp_guarded_forward _ (fun _ => f))..|].
  by apply (wp_guarded_backward _ (fun _ => f)).
Qed.

(** [zend_hash_apply_with_arguments] describes each element's key to the
    callback, which may choose by the key. *)
Lemma zend_hash_apply_with_arguments_correct {A B} s ht L (g : hkey -> V -> list B -> A -> Z * V * A)
    args acc kept gone acc' :
  ht_rep s ht L -> (bApplyProtection ht = true -> 0 <= nApplyCount ht < 3) ->
  apply_spec (fun k v => g k v args) (contents s L) acc = (kept, gone, acc') ->
  wp (zend_hash_apply_with_arguments ht (fun v args hk => g (described_key hk) v args) args acc)
    (applied_post s ht L kept gone acc') s.
Proof. intros HR Hg Hspec. by apply (wp_guarded_forward _ (fun k v => g k v args)). Qed.

(** With protection on and three traversals active, a traversal ends in the
    fatal error before it visits an element. *)
Lemma zend_hash_apply_bailout {A} s ht (f : V -> A -> Z * V * A) acc :
  bApplyProtection ht = true -> 3 <= nApplyCount ht ->
  zend_hash_apply ht f acc s =
    Some (Bailout (set_nApplyCount (u8 (nApplyCount ht + 1)) ht) acc, s) /\
  zend_hash_reverse_apply ht f acc s =
    Some (Bailout (set_nApplyCount (u8 (nApplyCount ht + 1)) ht) acc, s).
Proof.
  intros Hp Hc. unfold zend_hash_apply, zend_hash_reverse_apply, HASH_PROTECT_RECURSION.
  rewrite Hp. by destruct (Z.leb_spec 3 (nApplyCount ht)); [|lia].
Qed.

(** C8: a loop over a table, with the table's own pointer or an external one,
    visits exactly the elements, in order (or in reverse order), and ends. *)
Theorem zend_hash_iteration_correct s ht L pos :
  ht_rep s ht L ->
  wp (foreach (length L) ht pos) (fun r s' => s' = s /\ r.1 = contents s L /\
    get_current r.2.1 r.2.2 = None) s /\
  wp (foreach_reverse (length L) ht pos) (fun r s' => s' = s /\ r.1 = reverse (contents s L) /\
    get_current r.2.1 r.2.2 = None) s.
Proof.
  intros HR. destruct (rep_order _ _ _ HR) as (_ & Hhd & Htl & _).
  assert (forall d ht1 pos1, (ht1, pos1) = set_current d ht pos -> get_current ht1 pos1 = d /\
    forall L' : list ptr, (L' = [] -> d = None) ->
    let r := if decide (L' = []) then (ht1, pos1) else set_current None ht1 pos1 in
    get_current r.1 r.2 = None) as Hend.
  { intros d ht1 pos1 Hsc. pose proof (get_set_current d ht pos) as Hg. rewrite <- Hsc in Hg.
    split; [done|]. intros L' Hd. case_decide; simpl; [rewrite Hg; auto|].
    pose proof (get_set_current None ht1 pos1) as Hn. by destruct (set_current None ht1 pos1). }
  split.
  - unfold foreach, zend_hash_internal_pointer_reset_ex. rewrite Hhd.
    destruct (set_current (head L) ht pos) as [ht1 pos1] eqn:Hsc. destruct (Hend _ _ _ (eq_sym Hsc)) as [Hg He].
    apply (wp_traverse_forward _ s ht [] L); [done|done|done|]. simpl. split_and!; [done..|].
    apply He. by intros ->.
  - unfold foreach_reverse, zend_hash_internal_pointer_end_ex. rewrite Htl.
    destruct (set_current (last L) ht pos) as [ht1 pos1] eqn:Hsc. destruct (Hend _ _ _ (eq_sym Hsc)) as [Hg He].
    apply (wp_traverse_backward _ s ht L []); [by rewrite app_nil_r|done|done|]. simpl.
    split_and!; [done..|]. apply He. by intros ->.
Qed.

(** A position saved with [zend_hash_get_pointer] is restored by
    [zend_hash_set_pointer] on a later state of the table exactly when its
    bucket is still in the table. *)
Theorem zend_hash_pointer_roundtrip s ht L s' ht' L' target :
  ht_rep s ht L -> ht_rep s' ht' L' -> pInternalPointer ht = Some target ->
  (target ∈ L' -> b_h <$> nodes s' !! target = b_h <$> nodes s !! target) ->
  wp (zend_hash_get_pointer ht) (fun '(r, hp) s1 => s1 = s /\ r = 1 /\ hp_pos hp = Some target /\
    wp (zend_hash_set_pointer ht' hp) (fun '(r, ht2) s2 => s2 = s' /\ ht_rep s' ht2 L' /\
      if decide (target ∈ L') then r = 1 /\ pInternalPointer ht2 = Some target
      else r = 0 /\ ht2 = ht') s') s.
Proof.
  intros HR HR' Hp Hsame. unfold zend_hash_get_pointer. rewrite Hp.
  destruct (rep_entry _ _ _ target HR) as (b & _ & Hb & _); [by apply (rep_internal _ _ _ HR)|].
  wp_step. wp_step. wp_step. split_and!; [done..|]. eapply wp_set_pointer; [done| | |].
  - intros b' Hin Hb'. specialize (Hsame Hin). rewrite Hb, Hb' in Hsame. by simplify_eq/=.
  - intros Hin HR2. rewrite decide_True by done. done.
  - intros Hnin. by rewrite decide_False by done.
Qed.

(** ** Copying and merging *)

(** C9: [zend_hash_copy] puts every element of the source, in order and passed
    through the copy constructor, into the target; the source is unchanged. *)
Theorem zend_hash_copy_correct s ht L src Ls ctor size :
  ht_rep s ht L -> ht_rep s src Ls -> apart s L Ls -> Z.of_nat (length L + length Ls) < 2 ^ 32 ->
  let r := merge_spec (put_spec ctor) (contents s L) (contents s Ls) in
  wp (zend_hash_copy uninit ht src ctor size) (fun ht' s' => exists L',
    merged s ht L s' ht' L' r.1 r.2 /\ ht_rep s' src Ls /\ contents s' Ls = contents s Ls /\
    (L' <> [] -> is_Some (pInternalPointer ht'))) s.
Proof.
  intros HR HRs Hap Hlen r. unfold zend_hash_copy. wp_step.
  eapply (wp_source_all src Ls _ (put_spec ctor)); [apply put_spec_length|apply copy_body_ok|done..|].
  intros s' ht' L' (HR' & Hm) HRs' Hcs. wp_step. destruct (rep_order _ _ _ HR') as (_ & Hhd & _).
  exists L'. destruct (pInternalPointer ht') eqn:Hip; [split_and!; rewrite ?Hip; try done; by split|].
  split_and!; [|done|done|].
  - split; [|done]. apply rep_set_internal; [done|]. intros p. rewrite Hhd. apply head_Some_elem_of.
  - simpl. rewrite Hhd. by destruct L'.
Qed.

(** C10: [_zend_hash_merge] adds the elements of the source whose keys the target
    does not have, or, when overwriting, puts all of them; the internal
    pointer goes back to the first element. *)
Theorem zend_hash_merge_correct s ht L src Ls ctor size (overwrite : bool) :
  ht_rep s ht L -> ht_rep s src Ls -> apart s L Ls -> Z.of_nat (length L + length Ls) < 2 ^ 32 ->
  let g := if overwrite then put_spec ctor else add_spec ctor in
  let r := merge_spec g (contents s L) (contents s Ls) in
  wp (_zend_hash_merge uninit ht src ctor size overwrite) (fun ht' s' => exists L',
    merged s ht L s' ht' L' r.1 r.2 /\ ht_rep s' src Ls /\ contents s' Ls = contents s Ls /\
    pInternalPointer ht' = head L') s.
Proof.
  intros HR HRs Hap Hlen g r. unfold _zend_hash_merge. wp_step.
  eapply (wp_source_all src Ls _ g); [| |done..|].
  - destruct overwrite; [apply put_spec_length|apply add_spec_length].
  - destruct overwrite; [apply merge_update_ok|apply merge_add_ok].
  - intros s' ht' L' (HR' & Hm) HRs' Hcs. wp_step. destruct (rep_order _ _ _ HR') as (_ & Hhd & _).
    exists L'. split_and!; [|done|done|by simpl; rewrite Hhd]. split; [|done].
    apply rep_set_internal; [done|]. intros p. rewrite Hhd. apply head_Some_elem_of.
Qed.

End spec.

(** ** Instances on the demonstration table *)

Section instances.
Import Demo.

Lemma demo_bound : Z.of_nat (length L) + 1 < 2 ^ 32.
Proof. done. Defined.

Lemma zend_hash_add_or_update_witness :
  om_lookup (HStr [98; 0]) (contents st L) = Some 30 /\
  wp (_zend_hash_add_or_update uninit ht key_b 31 16 HASH_UPDATE)
    (insert_post st ht L (HStr [98; 0]) 31 true 7) st.
Proof.
  split; [reflexivity|].
  exact (proj1 (zend_hash_add_or_update_correct uninit st ht L key_b 31 16 HASH_UPDATE demo_rep (key_b_ok st) demo_bound)).
Defined.

Lemma zend_hash_index_insert_witness :
  wp (_zend_hash_index_update_or_next_insert uninit ht 6 41 16 HASH_ADD)
    (insert_post st ht L (HInt 6) 41 false 7) st.
Proof.
  refine (zend_hash_index_insert_correct uninit st ht L 6 41 16 HASH_ADD demo_rep _ demo_bound). lia.
Defined.

Lemma zend_hash_next_insert_witness :
  wp (_zend_hash_index_update_or_next_insert uninit ht 0 50 16 HASH_NEXT_INSERT)
    (fun '(r, d, ht') s' => r = SUCCESS /\ exists p, ht_rep s' ht' (L ++ [p]) /\
       contents s' (L ++ [p]) = contents st L ++ [(HInt 7, 50)] /\ nNextFreeElement ht' = 8) st.
Proof.
  refine (zend_hash_next_insert_succeeds uninit st ht L 50 16 demo_rep demo_bound _). vm_compute. reflexivity.
Defined.

Lemma zend_hash_lookup_witness :
  wp (zend_hash_find ht key_b) (fun r s' => s' = st /\
    exists d, r = (SUCCESS, Some d) /\ deref d st = Some (30, st)) st.
Proof. exact (proj1 (zend_hash_lookup_correct st ht L key_b 5 demo_rep (key_b_ok st))). Defined.


Lemma zend_hash_init_witness :
  ht_rep empty (_zend_hash_init 100 true false) [] /\ nTableSize (_zend_hash_init 100 true false) = 128.
Proof.
  split; [|reflexivity]. refine (proj1 (zend_hash_init_correct empty 100 true false _)). lia.
Defined.

Lemma zend_hash_rehash_witness :
  wp (zend_hash_rehash ht) (fun r s' => r.1 = SUCCESS /\ ht_rep s' r.2 L /\
    contents s' L = contents st L /\ same_rest st L s' L /\ dtor_trace s' = dtor_trace st) st.
Proof. exact (zend_hash_rehash_correct st ht L demo_rep). Defined.



(** Removes the first element and stops at the third. *)
Definition demo_callback (v n : Z) : Z * Z * Z :=
  (if n =? 0 then 1 else if n =? 2 then 2 else 0, v + 1, n + 1).

Lemma demo_guard : bApplyProtection ht = true -> 0 <= nApplyCount ht < 3.
Proof. vm_compute. split; [discriminate|reflexivity]. Defined.

Lemma zend_hash_apply_witness :
  wp (zend_hash_apply ht demo_callback 0)
    (applied_post st ht L [(HInt 5, 21); (HStr [98; 0], 31); (HInt 6, 40)] [11] 3) st.
Proof.
  exact (proj1 (zend_hash_apply_correct st ht L demo_callback 0 demo_rep demo_guard)).
Defined.

Lemma zend_hash_apply_with_arguments_witness :
  wp (zend_hash_apply_with_arguments ht
        (fun v args hk acc => (if decide (described_key hk = HInt 5) then 1 else 0, v, acc)) [7] tt)
    (applied_post st ht L [(HStr [97; 0], 10); (HStr [98; 0], 30); (HInt 6, 40)] [20] tt) st.
Proof.
  exact (zend_hash_apply_with_arguments_correct st ht L
    (fun k v (_ : list Z) acc => (if decide (k = HInt 5) then 1 else 0, v, acc)) [7] tt _ _ _ demo_rep demo_guard eq_refl).
Defined.

Lemma zend_hash_apply_bailout_witness :
  zend_hash_apply (set_nApplyCount 3 ht) demo_callback 0 st =
    Some (Bailout (set_nApplyCount 4 (set_nApplyCount 3 ht)) 0, st).
Proof.
  refine (proj1 (zend_hash_apply_bailout st (set_nApplyCount 3 ht) demo_callback 0 eq_refl _)).
  vm_compute. discriminate.
Defined.

Lemma zend_hash_iteration_witness :
  wp (foreach (length L) ht (Some None)) (fun r s' => s' = st /\
    r.1 = [(HStr [97; 0], 10); (HInt 5, 20); (HStr [98; 0], 30); (HInt 6, 40)] /\
    get_current r.2.1 r.2.2 = None) st.
Proof. exact (proj1 (zend_hash_iteration_correct st ht L (Some None) demo_rep)). Defined.

Lemma zend_hash_pointer_witness :
  wp (zend_hash_get_pointer ht) (fun '(r, hp) s1 => s1 = st /\ r = 1 /\ hp_pos hp = Some 2%positive /\
    wp (zend_hash_set_pointer ht hp) (fun '(r, ht2) s2 => s2 = st /\ ht_rep st ht2 L /\
      if decide (2%positive ∈ L) then r = 1 /\ pInternalPointer ht2 = Some 2%positive
      else r = 0 /\ ht2 = ht) st) st.
Proof. exact (zend_hash_pointer_roundtrip st ht L st ht L 2%positive demo_rep demo_rep eq_refl (fun _ => eq_refl)). Defined.

Lemma demo_apart : apart st [] L.
Proof.
  split; [intros q _ Hq; inversion Hq|]. intros a _ (p & b & Hp & _). inversion Hp.
Defined.

Lemma ht0_rep_st : ht_rep st ht0 [].
Proof. apply empty_rep; try done; [exists 3; split; [lia|done]|by left]. Defined.

Lemma zend_hash_copy_witness :
  wp (zend_hash_copy uninit ht0 ht (Some Z.succ) 16) (fun ht' s' => exists L',
    merged st ht0 [] s' ht' L' [(HStr [97; 0], 11); (HInt 5, 21); (HStr [98; 0], 31); (HInt 6, 41)] [] /\
    ht_rep s' ht L /\ contents s' L = contents st L /\ (L' <> [] -> is_Some (pInternalPointer ht'))) st.
Proof.
  refine (zend_hash_copy_correct uninit st ht0 [] ht L (Some Z.succ) 16 ht0_rep_st demo_rep demo_apart _).
  done.
Defined.

Lemma zend_hash_merge_witness :
  wp (_zend_hash_merge uninit ht0 ht None 16 false) (fun ht' s' => exists L',
    merged st ht0 [] s' ht' L' (contents st L) [] /\
    ht_rep s' ht L /\ contents s' L = contents st L /\ pInternalPointer ht' = head L') st.
Proof.
  refine (zend_hash_merge_correct uninit st ht0 [] ht L None 16 false ht0_rep_st demo_rep demo_apart _).
  done.
Defined.

End instances.
