(* ===== verification/Symtable.v ===== *)
(** * Symtable: symbol tables and numeric strings

    Models [ZEND_HANDLE_NUMERIC_EX] and the [zend_symtable_*] functions of
    src/Zend/zend_hash.h: a string key that is the decimal form of a long is
    stored under that integer.  Keys are byte lists with their final NUL. *)
From S2P Require Import Prelude Memory Dllist HashFunc OrderedMap ZendHash ZendHashRep ZendHashLink.
From S2P Require Import ZendHashRehash ZendHashInsert ZendHashAppend ZendHashFind ZendHashDestroy.
From S2P Require Import ZendHashDemo.
From stdpp Require Import base list gmap.
Local Open Scope Z_scope.

Definition MAX_LENGTH_OF_LONG : Z := 20.

Definition is_digit (c : Z) : bool := (48 <=? c) && (c <=? 57).

(** [while (++tmp != end && *tmp >= '0' && *tmp <= '9') idx = (idx * 10) + ( *tmp - '0' );]
    on the bytes between [tmp + 1] and [end]; what is left is empty when the
    loop ended because [tmp == end]. *)
Fixpoint numeric_loop (idx : Z) (l : list Z) : Z * list Z :=
  match l with
  | c :: l' => if is_digit c then numeric_loop (u64 (u64 (idx * 10) + (c - 48))) l' else (idx, l)
  | [] => (idx, [])
  end.

(** The index the macro passes to [func], or [None] when it falls through. *)
Definition ZEND_HANDLE_NUMERIC_EX (key : list Z) : option Z :=
  let len := Z.of_nat (length key) in
  let neg := bool_decide (head key = Some 45) in
  let tmp := if neg then tail key else key in
  match tmp with
  | [] => None
  | c :: rest =>
      if is_digit c then
        if bool_decide (last key <> Some 0) || ((c =? 48) && (2 <? len))
           || (MAX_LENGTH_OF_LONG - 1 <? Z.of_nat (length rest))
        then None
        else
          match numeric_loop (c - 48) (take (length rest - 1) rest) with
          | (idx, []) =>
              if neg then
                if LONG_MAX <? u64 (idx - 1) then None else Some (u64 (0 - idx))
              else if LONG_MAX <? idx then None else Some idx
          | (_, _ :: _) => None
          end
      else None
  end.

Section ops.
Context {V : Type} {AL : Allocator} (uninit : Bucket V).

Abbreviation hcmd := (cmd (store (Bucket V) V)).

Definition zend_symtable_update (ht : HashTable) (k : keyarg) (v : V) (nDataSize : Z) :
    hcmd (zresult * option dataloc * HashTable) :=
  match ZEND_HANDLE_NUMERIC_EX (k_bytes k) with
  | Some idx => _zend_hash_index_update_or_next_insert uninit ht idx v nDataSize HASH_UPDATE
  | None => _zend_hash_add_or_update uninit ht k v nDataSize HASH_UPDATE
  end.

Definition zend_symtable_del (ht : HashTable) (k : keyarg) : hcmd (zresult * HashTable) :=
  match ZEND_HANDLE_NUMERIC_EX (k_bytes k) with
  | Some idx => zend_hash_index_del ht idx
  | None => zend_hash_del_key_or_index ht k 0 HASH_DEL_KEY
  end.

Definition zend_symtable_find (ht : HashTable) (k : keyarg) : hcmd (zresult * option dataloc) :=
  match ZEND_HANDLE_NUMERIC_EX (k_bytes k) with
  | Some idx => zend_hash_index_find ht idx
  | None => zend_hash_find ht k
  end.

Definition zend_symtable_exists (ht : HashTable) (k : keyarg) : hcmd bool :=
  match ZEND_HANDLE_NUMERIC_EX (k_bytes k) with
  | Some idx => zend_hash_index_exists ht idx
  | None => zend_hash_exists ht k
  end.

End ops.

(** ** Decimal numerals *)

(** The decimal form of [0 <= n], most significant digit first. *)
Fixpoint dec (fuel : nat) (n : Z) : list Z :=
  match fuel with
  | O => []
  | S fuel => if n <? 10 then [48 + n] else dec fuel (n / 10) ++ [48 + n mod 10]
  end.

(** What printing a long yields. *)
Definition print_long (z : Z) : list Z :=
  if z <? 0 then 45 :: dec 20 (- z) else dec 20 z.

Definition dec_value (l : list Z) : Z := foldl (fun a c => a * 10 + (c - 48)) 0 l.

(** Digits, without a superfluous leading zero. *)
Definition canonical (l : list Z) : Prop :=
  Forall (fun c => 48 <= c <= 57) l /\ l <> [] /\ (head l = Some 48 -> l = [48]).

Lemma dec_value_snoc l c : dec_value (l ++ [c]) = dec_value l * 10 + (c - 48).
Proof. unfold dec_value. by rewrite foldl_app. Qed.

Lemma dec_value_range l : Forall (fun c => 48 <= c <= 57) l -> 0 <= dec_value l < 10 ^ Z.of_nat (length l).
Proof.
  induction l as [|c l IH] using rev_ind; intros Hl; [done|].
  apply Forall_app in Hl as [Hl [Hc _]%Forall_cons]. specialize (IH Hl).
  rewrite dec_value_snoc, length_app, Nat2Z.inj_add, Z.pow_add_r by lia.
  change (10 ^ Z.of_nat (length [c])) with 10. lia.
Qed.

Lemma canonical_pos l : canonical l -> l <> [48] -> 10 ^ (Z.of_nat (length l) - 1) <= dec_value l.
Proof.
  intros (Hd & Hne & Hz) Hl. destruct l as [|c0 l]; [done|].
  assert (49 <= c0) as Hc0.
  { apply Forall_cons in Hd as [Hc0 _]. destruct (decide (c0 = 48)) as [->|]; [|lia].
    destruct Hl. by apply Hz. }
  clear Hz Hne Hl. induction l as [|c l IH] using rev_ind; [simpl; unfold dec_value; simpl; lia|].
  change (c0 :: l ++ [c]) with ((c0 :: l) ++ [c]) in *. apply Forall_app in Hd as [Hd [Hc _]%Forall_cons].
  specialize (IH Hd). rewrite dec_value_snoc, length_app, Nat2Z.inj_add.
  replace (Z.of_nat (length (c0 :: l)) + Z.of_nat (length [c]) - 1)
    with ((Z.of_nat (length (c0 :: l)) - 1) + 1) by (simpl; lia).
  rewrite Z.pow_add_r by (simpl length; lia). change (10 ^ 1) with 10. lia.
Qed.

Lemma canonical_snoc l c : canonical (l ++ [c]) -> l <> [] -> canonical l /\ l <> [48].
Proof.
  intros (Hd & _ & Hz) Hne. apply Forall_app in Hd as [Hd _].
  assert (head (l ++ [c]) = head l) as Hh by by destruct l.
  assert (head l <> Some 48) as Hn.
  { intros H. rewrite Hh in Hz. specialize (Hz H). destruct l as [|? []]; simplify_eq/=. }
  split; [|intros ->; done]. done.
Qed.

(** Printing the value of a canonical numeral gives it back. *)
Lemma dec_of_value l fuel : canonical l -> (length l <= fuel)%nat -> dec fuel (dec_value l) = l.
Proof.
  revert fuel. induction l as [|c l IH] using rev_ind; intros fuel Hc Hf; [by destruct Hc as (_ & ? & _)|].
  rewrite length_app in Hf. simpl in Hf. destruct fuel as [|fuel]; [lia|]. simpl.
  pose proof Hc as (Hd & _ & _). apply Forall_app in Hd as [Hd [Hc0 _]%Forall_cons].
  rewrite dec_value_snoc. destruct (decide (l = [])) as [->|Hne].
  { change (dec_value []) with 0. destruct (Z.ltb_spec (0 * 10 + (c - 48)) 10); [|lia]. simpl. f_equal. lia. }
  destruct (canonical_snoc _ _ Hc Hne) as [Hcl Hl48].
  pose proof (canonical_pos _ Hcl Hl48) as Hp.
  assert (1 <= 10 ^ (Z.of_nat (length l) - 1)) as H1.
  { change 1 with (10 ^ 0). apply Z.pow_le_mono_r; [lia|]. destruct l; [done|simpl; lia]. }
  destruct (Z.ltb_spec (dec_value l * 10 + (c - 48)) 10); [lia|].
  replace ((dec_value l * 10 + (c - 48)) / 10) with (dec_value l)
    by (apply Z.div_unique with (c - 48); lia).
  replace ((dec_value l * 10 + (c - 48)) mod 10) with (c - 48)
    by (apply Z.mod_unique with (dec_value l); lia).
  rewrite IH by (done || lia). do 2 f_equal. lia.
Qed.

(** Printing gives a canonical numeral with the value. *)
Lemma dec_canonical fuel n :
  0 <= n < 10 ^ Z.of_nat fuel -> (0 < fuel)%nat ->
  canonical (dec fuel n) /\ dec_value (dec fuel n) = n /\ (length (dec fuel n) <= fuel)%nat.
Proof.
  revert n. induction fuel as [|fuel IH]; intros n Hn Hf; [lia|]. simpl.
  destruct (Z.ltb_spec n 10) as [Hs|Hs].
  { split_and!; [|unfold dec_value; simpl; lia|simpl; lia]. split_and!; [|done|].
    - apply Forall_singleton. lia.
    - intros [= ->]. done. }
  rewrite Nat2Z.inj_succ, Z.pow_succ_r in Hn by lia.
  assert (0 <= n / 10 < 10 ^ Z.of_nat fuel) as Hq.
  { split; [apply Z.div_pos; lia|]. apply Z.div_lt_upper_bound; lia. }
  assert (0 < fuel)%nat as Hf'. { destruct fuel; [simpl in Hn; lia|lia]. }
  destruct (IH _ Hq Hf') as (Hc & Hv & Hl).
  assert (1 <= n / 10) as Hq1 by (apply Z.div_le_lower_bound; lia).
  pose proof (Z.mod_pos_bound n 10 ltac:(lia)) as Hm. pose proof (Z.div_mod n 10 ltac:(lia)) as Hdm.
  split_and!.
  - destruct Hc as (Hd & Hne & Hz). split_and!.
    + apply Forall_app. split; [done|]. apply Forall_singleton. lia.
    + by destruct (dec fuel (n / 10)).
    + intros Hh. assert (head (dec fuel (n / 10)) = Some 48) as Hh' by by destruct (dec fuel (n / 10)).
      rewrite (Hz Hh') in Hv. unfold dec_value in Hv. simpl in Hv. lia.
  - rewrite dec_value_snoc, Hv. lia.
  - rewrite length_app. simpl. lia.
Qed.

Lemma numeric_loop_digits idx l :
  Forall (fun c => 48 <= c <= 57) l -> 0 <= idx ->
  foldl (fun a c => a * 10 + (c - 48)) idx l < 2 ^ 64 ->
  numeric_loop idx l = (foldl (fun a c => a * 10 + (c - 48)) idx l, []).
Proof.
  revert idx. induction l as [|c l IH]; intros idx Hl Hi Hb; [done|].
  apply Forall_cons in Hl as [Hc Hl]. simpl in *. unfold is_digit.
  assert (forall a, 0 <= a -> a <= foldl (fun a c => a * 10 + (c - 48)) a l) as Hmono.
  { clear -Hl. induction l as [|c l IH]; intros a Ha; [done|]. apply Forall_cons in Hl as [Hc Hl].
    simpl. specialize (IH Hl (a * 10 + (c - 48))). lia. }
  specialize (Hmono (idx * 10 + (c - 48))).
  destruct (Z.leb_spec 48 c), (Z.leb_spec c 57); try lia. simpl.
  rewrite (wrap_u_small 64 (idx * 10)), wrap_u_small by lia. apply IH; [done|lia|done].
Qed.

Lemma numeric_loop_all_digits idx l r : numeric_loop idx l = (r, []) -> Forall (fun c => 48 <= c <= 57) l.
Proof.
  revert idx. induction l as [|c l IH]; intros idx; simpl; [done|]. unfold is_digit.
  destruct (Z.leb_spec 48 c), (Z.leb_spec c 57); simpl; try done. intros Hr. constructor; [lia|]. eauto.
Qed.

(** The macro on a sign and a digit string. *)
Definition sign (neg : bool) : list Z := if neg then [45] else [].

Lemma handle_numeric_run (neg : bool) ds :
  canonical ds -> (neg = true -> ds <> [48]) -> (length ds <= 19)%nat -> dec_value ds < 2 ^ 64 ->
  ZEND_HANDLE_NUMERIC_EX (sign neg ++ ds ++ [0]) =
    if neg then if LONG_MAX <? u64 (dec_value ds - 1) then None else Some (u64 (0 - dec_value ds))
    else if LONG_MAX <? dec_value ds then None else Some (dec_value ds).
Proof.
  intros (Hd & Hne & Hz) Hneg Hlen Hv. destruct ds as [|c ds]; [done|].
  apply Forall_cons in Hd as [Hc Hd]. unfold ZEND_HANDLE_NUMERIC_EX.
  assert (bool_decide (head (sign neg ++ (c :: ds) ++ [0]) = Some 45) = neg) as ->.
  { destruct neg; [done|]. apply bool_decide_eq_false_2. simpl. intros [= ->]. lia. }
  assert ((if neg then tail (sign neg ++ (c :: ds) ++ [0]) else sign neg ++ (c :: ds) ++ [0]) =
    c :: ds ++ [0]) as -> by by destruct neg.
  assert (is_digit c = true) as -> by (unfold is_digit; rewrite andb_true_iff, !Z.leb_le; lia).
  rewrite bool_decide_eq_false_2; [|rewrite app_assoc, last_snoc; tauto].
  assert ((c =? 48) && (2 <? Z.of_nat (length (sign neg ++ (c :: ds) ++ [0]))) = false) as ->.
  { destruct (Z.eqb_spec c 48) as [->|]; [|done]. specialize (Hz eq_refl). injection Hz as ->.
    destruct neg; [by destruct (Hneg eq_refl)|done]. }
  assert ((MAX_LENGTH_OF_LONG - 1 <? Z.of_nat (length (ds ++ [0]))) = false) as ->.
  { apply Z.ltb_ge. rewrite length_app. unfold MAX_LENGTH_OF_LONG. cbn [length] in *. lia. }
  cbn [orb]. rewrite length_app. simpl length. rewrite Nat.add_sub, take_app_length.
  assert (dec_value (c :: ds) = foldl (fun a c => a * 10 + (c - 48)) (c - 48) ds) as HE by done.
  rewrite numeric_loop_digits; [by rewrite <- HE|done|lia|by rewrite <- HE].
Qed.

(** The shape of a key the macro accepts. *)
Lemma handle_numeric_shape key idx :
  ZEND_HANDLE_NUMERIC_EX key = Some idx ->
  exists neg ds, key = sign neg ++ ds ++ [0] /\ canonical ds /\ (neg = true -> ds <> [48]) /\
    (length ds <= 19)%nat.
Proof.
  unfold ZEND_HANDLE_NUMERIC_EX. set (neg := bool_decide (head key = Some 45)).
  assert (exists rest, key = sign neg ++ rest /\ (if neg then tail key else key) = rest) as (tmp & Hk & ->).
  { unfold neg. case_bool_decide as Hh; [|by exists key]. destruct key; [done|]. simplify_eq/=. by eexists. }
  destruct tmp as [|c rest]; [done|]. destruct (is_digit c) eqn:Hc; [|done].
  case_bool_decide as Hlast; [done|].
  destruct ((c =? 48) && (2 <? Z.of_nat (length key))) eqn:Hzero; [done|].
  destruct (MAX_LENGTH_OF_LONG - 1 <? Z.of_nat (length rest)) eqn:Hlen; [done|].
  apply Z.ltb_ge in Hlen. unfold MAX_LENGTH_OF_LONG in Hlen. cbn [orb].
  unfold is_digit in Hc. apply andb_true_iff in Hc as [Hc1%Z.leb_le Hc2%Z.leb_le].
  destruct rest as [|z ds _] using rev_ind.
  { rewrite Hk in Hlast. destruct neg; simpl in Hlast; simplify_eq; lia. }
  rewrite Hk in Hlast. change (c :: ds ++ [z]) with ((c :: ds) ++ [z]) in Hlast.
  rewrite app_assoc, last_snoc in Hlast. injection Hlast as ->.
  rewrite length_app in *. simpl length in *. rewrite Nat.add_sub, take_app_length.
  destruct (numeric_loop (c - 48) ds) as [i l] eqn:Hloop. destruct l; [|done]. intros _.
  apply numeric_loop_all_digits in Hloop. exists neg, (c :: ds).
  assert (c = 48 -> neg = false /\ ds = []) as Hz.
  { intros ->. rewrite Z.eqb_refl in Hzero. simpl in Hzero. apply Z.ltb_ge in Hzero. rewrite Hk in Hzero.
    destruct neg, ds; cbn [sign app length] in Hzero; rewrite ?length_app in Hzero;
      cbn [length] in Hzero; (done || lia). }
  split_and!; [by rewrite Hk| | |simpl; lia].
  - split_and!; [constructor; [lia|done]|done|]. intros [= ->]. by destruct (Hz eq_refl) as [_ ->].
  - intros Hn [= -> ->]. destruct (Hz eq_refl). congruence.
Qed.

Lemma dec_value_zero ds : canonical ds -> ds <> [48] -> 1 <= dec_value ds.
Proof.
  intros Hc Hn. pose proof (canonical_pos _ Hc Hn) as Hp. destruct Hc as (_ & Hne & _).
  assert (1 <= 10 ^ (Z.of_nat (length ds) - 1)); [|lia].
  change 1 with (10 ^ 0). apply Z.pow_le_mono_r; [lia|]. destruct ds; [done|simpl; lia].
Qed.

(** The accepted keys are exactly the decimal forms of the longs. *)
Lemma handle_numeric_print z :
  LONG_MIN <= z <= LONG_MAX -> ZEND_HANDLE_NUMERIC_EX (print_long z ++ [0]) = Some (u64 z).
Proof.
  intros Hz. unfold LONG_MIN, LONG_MAX in Hz.
  assert (forall n, 0 <= n <= 2 ^ 63 -> canonical (dec 20 n) /\ dec_value (dec 20 n) = n /\
    (length (dec 20 n) <= 19)%nat) as Hdec.
  { intros n Hn. destruct (dec_canonical 20 n) as (Hc & Hv & Hl); [lia|lia|]. split_and!; [done..|].
    destruct (decide (dec 20 n = [48])) as [->|Hne]; [simpl; lia|].
    pose proof (canonical_pos _ Hc Hne) as Hp. rewrite Hv in Hp.
    destruct (decide (length (dec 20 n) <= 19)%nat) as [|Hbad]; [done|].
    assert (10 ^ 19 <= 10 ^ (Z.of_nat (length (dec 20 n)) - 1)) by (apply Z.pow_le_mono_r; lia). lia. }
  unfold print_long. destruct (Z.ltb_spec z 0) as [Hs|Hs].
  - destruct (Hdec (- z)) as (Hc & Hv & Hl); [lia|].
    change ((45 :: dec 20 (- z)) ++ [0]) with (sign true ++ dec 20 (- z) ++ [0]).
    rewrite (handle_numeric_run true (dec 20 (- z))); [|done| |done|lia].
    + rewrite Hv, (wrap_u_small 64 (- z - 1)) by lia. unfold LONG_MAX.
      destruct (Z.ltb_spec (2 ^ 63 - 1) (- z - 1)); [lia|]. f_equal. f_equal. lia.
    + intros _ He. rewrite He in Hv. unfold dec_value in Hv. simpl in Hv. lia.
  - destruct (Hdec z) as (Hc & Hv & Hl); [lia|].
    change (dec 20 z ++ [0]) with (sign false ++ dec 20 z ++ [0]).
    rewrite (handle_numeric_run false (dec 20 z)); [|done|done|done|lia]. rewrite Hv. unfold LONG_MAX.
    destruct (Z.ltb_spec (2 ^ 63 - 1) z); [lia|]. by rewrite wrap_u_small by lia.
Qed.

Lemma handle_numeric_only key idx :
  ZEND_HANDLE_NUMERIC_EX key = Some idx ->
  exists z, LONG_MIN <= z <= LONG_MAX /\ key = print_long z ++ [0] /\ idx = u64 z.
Proof.
  intros Hk. destruct (handle_numeric_shape _ _ Hk) as (neg & ds & -> & Hc & Hneg & Hl).
  pose proof (dec_value_range ds (proj1 Hc)) as Hr.
  assert (dec_value ds < 10 ^ 19) as Hr19.
  { eapply Z.lt_le_trans; [apply Hr|]. apply Z.pow_le_mono_r; lia. }
  pose proof (dec_of_value ds 20 Hc ltac:(lia)) as Hdec.
  rewrite handle_numeric_run in Hk by (done || lia). unfold LONG_MIN, LONG_MAX, print_long in *.
  destruct neg.
  - pose proof (dec_value_zero ds Hc (Hneg eq_refl)) as Hp. rewrite wrap_u_small in Hk by lia.
    destruct (Z.ltb_spec (2 ^ 63 - 1) (dec_value ds - 1)); [done|]. injection Hk as <-.
    exists (- dec_value ds). split; [lia|]. destruct (Z.ltb_spec (- dec_value ds) 0); [|lia].
    rewrite Z.opp_involutive, Hdec. split; [done|]. by f_equal.
  - destruct (Z.ltb_spec (2 ^ 63 - 1) (dec_value ds)); [done|]. injection Hk as <-.
    exists (dec_value ds). split; [lia|]. destruct (Z.ltb_spec (dec_value ds) 0); [lia|].
    rewrite Hdec. split; [done|]. by rewrite wrap_u_small by lia.
Qed.

(** ** The properties *)

(** The element a key denotes in a symbol table. *)
Definition symtable_key (k : list Z) : hkey :=
  match ZEND_HANDLE_NUMERIC_EX k with Some idx => HInt idx | None => HStr k end.


Section spec.
Context {V : Type} {AL : Allocator} (uninit : Bucket V).
Implicit Types (s : store (Bucket V) V) (ht : HashTable) (L : list ptr).

Lemma symtable_index_range k idx : ZEND_HANDLE_NUMERIC_EX k = Some idx -> 0 <= idx < 2 ^ 64.
Proof. intros (z & _ & _ & ->)%handle_numeric_only. apply wrap_u_range. lia. Qed.

(** C24: the symbol table functions work on the ordered map under the
    normalised key: an update under a key is found under every spelling of it,
    a deletion removes it. *)
Theorem zend_symtable_correct s ht L k v n :
  ht_rep s ht L -> keyarg_ok s k -> Z.of_nat (length L) + 1 < 2 ^ 32 ->
  let key := symtable_key (k_bytes k) in
  wp (zend_symtable_update uninit ht k v n) (fun '(r, d, ht') s' => r = SUCCESS /\ exists L',
     ht_rep s' ht' L' /\ contents s' L' = om_insert key v (contents s L) /\ same_rest s L s' L') s /\
  wp (zend_symtable_del ht k) (delete_post s ht L key) s /\
  wp (zend_symtable_find ht k) (fun r s' => s' = s /\
    match om_lookup key (contents s L) with
    | Some v => exists d, r = (SUCCESS, Some d) /\ deref d s = Some (v, s)
    | None => r = (FAILURE, None)
    end) s /\
  wp (zend_symtable_exists ht k) (fun r s' => s' = s /\
    r = bool_decide (is_Some (om_lookup key (contents s L)))) s.
Proof.
  intros HR Hk Hlen key. subst key. unfold symtable_key, zend_symtable_update, zend_symtable_del,
    zend_symtable_find, zend_symtable_exists.
  assert (forall c key nf, wp c (insert_post s ht L key v true nf) s ->
    wp c (fun '(r, d, ht') s' => r = SUCCESS /\ exists L',
     ht_rep s' ht' L' /\ contents s' L' = om_insert key v (contents s L) /\ same_rest s L s' L') s) as Hins.
  { intros c key nf Hw. eapply wp_mono; [exact Hw|]. intros [[r d] ht'] s' Hp. unfold insert_post in Hp.
    destruct (om_lookup key (contents s L)).
    - destruct Hp as (_ & -> & HR' & Hc & Hr & _). split; [done|]. by exists L.
    - destruct Hp as (-> & p & HR' & Hc & Hr & _). split; [done|]. by exists (L ++ [p]). }
  assert (forall o key, found_ok s L key o -> wp (match o with Some p => d ← data_loc p; mret (SUCCESS, Some d)
     | None => mret (FAILURE, None) end) (fun r s' => s' = s /\
    match om_lookup key (contents s L) with
    | Some v => exists d, r = (SUCCESS, Some d) /\ deref d s = Some (v, s)
    | None => r = (FAILURE, None)
    end) s) as Hfind.
  { intros o key Ho. eapply wp_find_result; [done..| |].
    - intros w d -> (a & [= <-] & Hd)%dest_ok_deref. eauto.
    - by intros ->. }
  destruct (ZEND_HANDLE_NUMERIC_EX (k_bytes k)) as [idx|] eqn:Hn.
  - pose proof (symtable_index_range _ _ Hn) as Hi. split_and!.
    + eapply Hins. by apply (wp_index_update_or_next_insert uninit s ht L idx v n HASH_UPDATE).
    + unfold zend_hash_index_del, zend_hash_del_key_or_index. cbv zeta. wp_step.
      eapply (wp_key_search ht L _ (HInt idx)); [done| | |].
      * intros p b Hp Hb. apply del_match_int.
      * intros p b Hp Hb. apply int_key_hash.
      * intros o Ho. by apply wp_delete_found.
    + unfold zend_hash_index_find. wp_step. eapply wp_int_search; [done|]. auto.
    + by eapply wp_index_exists.
  - split_and!.
    + eapply Hins. eapply wp_eq; [apply add_or_update_quick|].
      by apply (wp_quick_add_or_update uninit s ht L k v n HASH_UPDATE).
    + unfold zend_hash_del_key_or_index. cbv zeta. wp_step.
      eapply (wp_key_search ht L _ (HStr (k_bytes k))); [done| | |].
      * intros p b Hp Hb. by eapply del_match_str.
      * intros p b Hp Hb. by eapply str_key_hash.
      * intros o Ho. by apply wp_delete_found.
    + unfold zend_hash_find. wp_step. eapply wp_str_search; [done..|]. auto.
    + unfold zend_hash_exists. wp_step. eapply wp_str_search; [done..|]. intros o Ho. wp_step.
      by rewrite (found_ok_is_Some _ _ _ _ Ho).
Qed.

End spec.

(** The key "5" of the demonstration table. *)
Lemma zend_symtable_witness :
  wp (zend_symtable_find Demo.ht (KeyArg (KExt 7) [53; 0])) (fun r s' => s' = Demo.st /\
    exists d, r = (SUCCESS, Some d) /\ deref d Demo.st = Some (20, Demo.st)) Demo.st.
Proof.
  refine (proj1 (proj2 (proj2 (zend_symtable_correct Demo.uninit Demo.st Demo.ht Demo.L
    (KeyArg (KExt 7) [53; 0]) 0 16 Demo.demo_rep _ _)))); done.
Defined.
