(* ===== verification/ZendQsort.v ===== *)
(** * ZendQsort: the engine's quicksort

    Models src/Zend/zend_qsort.c.  The array is a list of elements; an address is
    an index, so that [begin + siz] is the next one.  The explicit stack of
    segments is a list, its top first; a push on a full stack, an access outside
    the array and a loop that outruns its bound give [None]. *)
From S2P Require Import Prelude.
From stdpp Require Import base option list sorting.
From Stdlib Require Import Lia.
Local Open Scope Z_scope.

(** [sizeof(size_t) * CHAR_BIT] *)
Definition QSORT_STACK_SIZE : Z := 64.

(** [_zend_qsort_swap] on two blocks of bytes: whole [int]s first, then bytes. *)
Fixpoint swap_ints (n : nat) (a b : list Z) : list Z * list Z :=
  match n with
  | O => (a, b)
  | S n =>
      let '(a', b') := swap_ints n (drop 4 a) (drop 4 b) in
      (take 4 b ++ a', take 4 a ++ b')
  end.

Fixpoint swap_chars (a b : list Z) : list Z * list Z :=
  match a, b with
  | x :: a, y :: b => let '(a', b') := swap_chars a b in (y :: a', x :: b')
  | _, _ => (a, b)
  end.

Definition swap_blocks (siz : nat) (a b : list Z) : list Z * list Z :=
  let n := (siz / 4)%nat in
  let '(a1, b1) := swap_ints n (take (4 * n) a) (take (4 * n) b) in
  let '(a2, b2) := swap_chars (drop (4 * n) a) (drop (4 * n) b) in
  (a1 ++ a2, b1 ++ b2).

Section qsort.
Context {A : Type} (siz : Z) (compare : A -> A -> Z).

(** The same on two elements of the array. *)
Definition _zend_qsort_swap (arr : list A) (i j : Z) : option (list A) :=
  x ← aref arr i;
  y ← aref arr j;
  Some (<[Z.to_nat j := x]> (<[Z.to_nat i := y]> arr)).

(** [for (; seg1 < seg2 && compare(begin, seg1) > 0; seg1 += siz);] *)
Fixpoint scan_up (fuel : nat) (arr : list A) (begin_ seg1 seg2 : Z) : option Z :=
  if seg1 <? seg2 then
    p ← aref arr begin_;
    x ← aref arr seg1;
    if 0 <? compare p x then
      match fuel with
      | O => None
      | S fuel => scan_up fuel arr begin_ (seg1 + 1) seg2
      end
    else Some seg1
  else Some seg1.

(** [for (; seg2 >= seg1 && compare(seg2, begin) > 0; seg2 -= siz);] *)
Fixpoint scan_down (fuel : nat) (arr : list A) (begin_ seg1 seg2 : Z) : option Z :=
  if seg1 <=? seg2 then
    p ← aref arr begin_;
    x ← aref arr seg2;
    if 0 <? compare x p then
      match fuel with
      | O => None
      | S fuel => scan_down fuel arr begin_ seg1 (seg2 - 1)
      end
    else Some seg2
  else Some seg2.

(** [while (1) { ... }]: the array and the last [seg2] *)
Fixpoint partition_loop (fuel : nat) (arr : list A) (begin_ seg1 seg2 : Z) : option (list A * Z) :=
  seg1 ← scan_up (length arr) arr begin_ seg1 seg2;
  seg2 ← scan_down (length arr) arr begin_ seg1 seg2;
  if seg2 <=? seg1 then Some (arr, seg2)
  else
    arr ← _zend_qsort_swap arr seg1 seg2;
    match fuel with
    | O => None
    | S fuel => partition_loop fuel arr begin_ (seg1 + 1) (seg2 - 1)
    end.

(** The index of the element moved to the front: [offset] is a 32-bit [uint] of bytes. *)
Definition pivot_index (begin_ end_ : Z) : Z :=
  let offset := u32 (Z.shiftr ((end_ - begin_) * siz) 1) in
  begin_ + (offset - offset mod siz) / siz.

(** One turn of [while (begin < end)] up to the choice of segments. *)
Definition partition (arr : list A) (begin_ end_ : Z) : option (list A * Z) :=
  arr ← _zend_qsort_swap arr begin_ (pivot_index begin_ end_);
  '(arr, seg2) ← partition_loop (length arr) arr begin_ (begin_ + 1) end_;
  arr ← _zend_qsort_swap arr begin_ seg2;
  Some (arr, seg2).

(** [begin_stack[loop] = b; end_stack[loop++] = e;] *)
Definition push (stack : list (Z * Z)) (b e : Z) : option (list (Z * Z)) :=
  if Z.of_nat (length stack) <? QSORT_STACK_SIZE then Some ((b, e) :: stack) else None.

Fixpoint qsort_loop (fuel : nat) (stack : list (Z * Z)) (begin_ end_ : Z) (arr : list A) : option (list A) :=
  match fuel with
  | O => None
  | S fuel =>
      if begin_ <? end_ then
        '(arr, seg2) ← partition arr begin_ end_;
        if seg2 - begin_ <=? end_ - seg2 then
          stack ← (if seg2 + 1 <? end_ then push stack (seg2 + 1) end_ else Some stack);
          qsort_loop fuel stack begin_ (seg2 - 1) arr
        else
          stack ← (if begin_ <? seg2 - 1 then push stack begin_ (seg2 - 1) else Some stack);
          qsort_loop fuel stack (seg2 + 1) end_ arr
      else
        match stack with
        | [] => Some arr
        | (b, e) :: stack => qsort_loop fuel stack b e arr
        end
  end.

Definition zend_qsort_r (arr : list A) : option (list A) :=
  qsort_loop (2 * length arr + 2) [] 0 (Z.of_nat (length arr) - 1) arr.

Definition zend_qsort (arr : list A) : option (list A) := zend_qsort_r arr.

End qsort.

(** ** Exchanging two blocks *)

Lemma swap_ints_exchange n a b :
  length a = (4 * n)%nat -> length b = (4 * n)%nat -> swap_ints n a b = (b, a).
Proof.
  revert a b. induction n as [|n IH]; intros a b Ha Hb; cbn [swap_ints].
  - apply nil_length_inv in Ha, Hb. by subst.
  - rewrite IH by (rewrite length_drop; lia). by rewrite !take_drop.
Qed.

Lemma swap_chars_exchange a b : length a = length b -> swap_chars a b = (b, a).
Proof.
  revert b. induction a as [|x a IH]; intros [|y b] Hl; try done. cbn [swap_chars]. cbn in Hl. by rewrite IH by lia.
Qed.

Lemma swap_blocks_exchange siz a b : length a = siz -> length b = siz -> swap_blocks siz a b = (b, a).
Proof.
  intros Ha Hb. unfold swap_blocks. pose proof (Nat.div_mod_eq siz 4).
  rewrite swap_ints_exchange by (rewrite length_take; lia).
  rewrite swap_chars_exchange by (rewrite !length_drop; lia). by rewrite !take_drop.
Qed.

(** ** Reads, writes and exchanges *)

Lemma aref_Some {A} (l : list A) i : 0 <= i < Z.of_nat (length l) -> is_Some (aref l i).
Proof. intros Hi. unfold aref. destruct (Z.leb_spec 0 i); [|lia]. apply lookup_lt_is_Some_2. lia. Qed.

Lemma aref_range {A} (l : list A) i x : aref l i = Some x -> 0 <= i < Z.of_nat (length l).
Proof. unfold aref. destruct (Z.leb_spec 0 i); [|done]. intros Hl%lookup_lt_Some. lia. Qed.

Lemma aref_insert {A} (l : list A) i j x :
  0 <= j < Z.of_nat (length l) -> aref (<[Z.to_nat j := x]> l) i = if i =? j then Some x else aref l i.
Proof.
  intros Hj. unfold aref. destruct (Z.leb_spec 0 i); [|destruct (Z.eqb_spec i j); [lia|done]].
  destruct (Z.eqb_spec i j) as [->|].
  - rewrite list_lookup_insert_eq by lia. done.
  - rewrite list_lookup_insert_ne by lia. done.
Qed.

(** [arr'] is [arr] with the elements from [b] to [e] permuted. *)
Definition seg_perm {A} (b e : Z) (arr arr' : list A) : Prop :=
  arr ≡ₚ arr' /\ (forall i, ~ (b <= i <= e) -> aref arr' i = aref arr i) /\
  (forall i, b <= i <= e -> exists k, b <= k <= e /\ aref arr' i = aref arr k).

Lemma seg_perm_refl {A} b e (arr : list A) : seg_perm b e arr arr.
Proof. split_and!; [done|done|]. intros i Hi. by exists i. Qed.

Lemma seg_perm_trans {A} b e (arr1 arr2 arr3 : list A) :
  seg_perm b e arr1 arr2 -> seg_perm b e arr2 arr3 -> seg_perm b e arr1 arr3.
Proof.
  intros (P1 & O1 & I1) (P2 & O2 & I2). split_and!; [by etrans| |].
  - intros i Hi. by rewrite O2, O1.
  - intros i Hi. destruct (I2 i Hi) as (k & Hk & ->). by apply I1.
Qed.

Lemma seg_perm_length {A} b e (arr arr' : list A) : seg_perm b e arr arr' -> length arr' = length arr.
Proof. intros (P & _). by rewrite P. Qed.

Lemma swap_spec {A} b e (arr : list A) i j :
  0 <= i < Z.of_nat (length arr) -> 0 <= j < Z.of_nat (length arr) -> b <= i <= e -> b <= j <= e ->
  exists arr', _zend_qsort_swap arr i j = Some arr' /\ seg_perm b e arr arr' /\
    aref arr' i = aref arr j /\ aref arr' j = aref arr i /\ (forall k, k <> i -> k <> j -> aref arr' k = aref arr k).
Proof.
  intros Hi Hj Hbi Hbj. unfold _zend_qsort_swap.
  destruct (aref_Some arr i Hi) as [x Hx]. destruct (aref_Some arr j Hj) as [y Hy]. rewrite Hx, Hy. cbn [mbind option_bind].
  eexists. split; [done|].
  assert (Hat : forall k, aref (<[Z.to_nat j := x]> (<[Z.to_nat i := y]> arr)) k =
    if k =? j then Some x else if k =? i then Some y else aref arr k).
  { intros k. rewrite aref_insert by (rewrite length_insert; lia). by rewrite aref_insert by lia. }
  split; [unfold seg_perm; split_and!|split_and!].
  - unfold aref in Hx, Hy. destruct (Z.leb_spec 0 i), (Z.leb_spec 0 j); try lia.
    symmetry. by apply Permutation_insert_swap.
  - intros k Hk. rewrite Hat. destruct (Z.eqb_spec k j), (Z.eqb_spec k i); try lia. done.
  - intros k Hk. rewrite Hat. destruct (Z.eqb_spec k j); [by exists i|]. destruct (Z.eqb_spec k i); [by exists j|by exists k].
  - rewrite Hat. destruct (Z.eqb_spec i j) as [->|]; [by rewrite <- Hx|]. by rewrite Z.eqb_refl.
  - by rewrite Hat, Z.eqb_refl.
  - intros k Hki Hkj. rewrite Hat. destruct (Z.eqb_spec k j), (Z.eqb_spec k i); done.
Qed.

(** ** The partition *)

Section proofs.
Context {A : Type} (siz : Z) (compare : A -> A -> Z).
Hypothesis siz_pos : 0 < siz.
Implicit Types (arr : list A) (p x : A).

(** What a scan has seen of an element: it may stand before, or after, the pivot. *)
Definition below p x : Prop := 0 < compare p x \/ compare x p <= 0.
Definition above p x : Prop := 0 < compare x p \/ compare p x <= 0.

Definition all_below arr p lo hi : Prop := forall k x, lo < k < hi -> aref arr k = Some x -> below p x.
Definition all_above arr p lo hi : Prop := forall k x, lo < k <= hi -> aref arr k = Some x -> above p x.

Lemma scan_up_spec fuel arr b p s1 s2 :
  aref arr b = Some p -> 0 <= s1 -> s2 < Z.of_nat (length arr) -> s2 - s1 <= Z.of_nat fuel ->
  all_below arr p b s1 ->
  exists s, scan_up compare fuel arr b s1 s2 = Some s /\ s1 <= s <= Z.max s1 s2 /\ all_below arr p b s /\
    (s < s2 -> exists x, aref arr s = Some x /\ compare p x <= 0).
Proof.
  intros Hp. revert s1. induction fuel as [|fuel IH]; intros s1 H1 H2 Hf Hb; cbn [scan_up];
    (destruct (Z.ltb_spec s1 s2) as [Hlt|Hge]; [|exists s1; split_and!; [done|lia|lia|done|lia]]).
  - lia.
  - rewrite Hp. destruct (aref_Some arr s1) as [x Hx]; [lia|]. rewrite Hx. cbn [mbind option_bind].
    destruct (Z.ltb_spec 0 (compare p x)) as [Hc|Hc].
    + destruct (IH (s1 + 1)) as (s & -> & Hs & Hbs & Hstop); [lia|lia|lia| |exists s; split_and!; [done|lia|lia|done|done]].
      intros k y Hk Hy. destruct (decide (k = s1)) as [->|]; [|apply (Hb k); [lia|done]].
      rewrite Hx in Hy. injection Hy as <-. by left.
    + exists s1. split_and!; [done|lia|lia|done|]. intros _. by exists x.
Qed.

Lemma scan_down_spec fuel arr b e p s1 s2 :
  aref arr b = Some p -> 0 <= s1 -> s2 < Z.of_nat (length arr) -> s1 <= s2 + 1 -> s2 - s1 < Z.of_nat fuel ->
  all_above arr p s2 e ->
  exists s, scan_down compare fuel arr b s1 s2 = Some s /\ s1 - 1 <= s <= s2 /\ all_above arr p s e /\
    (s1 <= s -> exists x, aref arr s = Some x /\ compare x p <= 0).
Proof.
  intros Hp. revert s2. induction fuel as [|fuel IH]; intros s2 H1 H2 H12 Hf Ha; cbn [scan_down];
    (destruct (Z.leb_spec s1 s2) as [Hle|Hgt]; [|exists s2; split_and!; [done|lia|lia|done|lia]]).
  - lia.
  - rewrite Hp. destruct (aref_Some arr s2) as [x Hx]; [lia|]. rewrite Hx. cbn [mbind option_bind].
    destruct (Z.ltb_spec 0 (compare x p)) as [Hc|Hc].
    + destruct (IH (s2 - 1)) as (s & -> & Hs & Has & Hstop); [lia|lia|lia|lia| |exists s; split_and!; [done|lia|lia|done|done]].
      intros k y Hk Hy. destruct (decide (k = s2)) as [->|]; [|apply (Ha k); [lia|done]].
      rewrite Hx in Hy. injection Hy as <-. by left.
    + exists s2. split_and!; [done|lia|lia|done|]. intros _. by exists x.
Qed.

Lemma partition_loop_spec fuel arr b e p s1 s2 :
  aref arr b = Some p -> 0 <= b < s1 -> s2 <= e < Z.of_nat (length arr) -> s1 <= s2 + 1 -> s2 - s1 < Z.of_nat fuel ->
  all_below arr p b s1 -> all_above arr p s2 e ->
  exists arr' s, partition_loop compare fuel arr b s1 s2 = Some (arr', s) /\ seg_perm (b + 1) e arr arr' /\
    b <= s <= e /\ all_below arr' p b (s + 1) /\ all_above arr' p s e.
Proof.
  revert arr s1 s2. induction fuel as [|fuel IH]; intros arr s1 s2 Hp Hb He H12 Hf Hbel Habv; cbn [partition_loop];
    (destruct (scan_up_spec (length arr) arr b p s1 s2) as (t1 & -> & Ht1 & Hb1 & Hst1); [done|lia|lia|lia|done|]);
    cbn [mbind option_bind];
    (destruct (scan_down_spec (length arr) arr b e p t1 s2) as (t2 & -> & Ht2 & Ha2 & Hst2); [done|lia|lia|lia|lia|done|]);
    cbn [mbind option_bind]; (destruct (Z.leb_spec t2 t1) as [Hle|Hgt];
    [exists arr, t2; split_and!; [done|apply seg_perm_refl|lia|lia| |done]; intros k x Hk Hx;
       (destruct (decide (k < t1)); [apply (Hb1 k); [lia|done]|]; assert (k = t2) as -> by lia;
        destruct Hst2 as (y & Hy & Hc); [lia|]; rewrite Hx in Hy; injection Hy as <-; by right)|]).
  - lia.
  - destruct (swap_spec (b + 1) e arr t1 t2) as (arr1 & -> & Hsp & Hs1 & Hs2 & Hso); [lia..|]. cbn [mbind option_bind].
    pose proof (seg_perm_length _ _ _ _ Hsp) as Hlen.
    destruct Hst1 as (x1 & Hx1 & Hc1); [lia|]. destruct Hst2 as (x2 & Hx2 & Hc2); [lia|].
    destruct (IH arr1 (t1 + 1) (t2 - 1)) as (arr' & s & -> & Hsp' & Hs & Hbel' & Habv'); [|lia|lia|lia|lia| | |].
    + rewrite Hso by lia. done.
    + intros k x Hk Hx. destruct (decide (k = t1)) as [->|].
      * rewrite Hs1, Hx2 in Hx. injection Hx as <-. by right.
      * rewrite Hso in Hx by lia. apply (Hb1 k); [lia|done].
    + intros k x Hk Hx. destruct (decide (k = t2)) as [->|].
      * rewrite Hs2, Hx1 in Hx. injection Hx as <-. by right.
      * rewrite Hso in Hx by lia. apply (Ha2 k); [lia|done].
    + exists arr', s. split_and!; [done|by eapply seg_perm_trans|lia|lia|done|done].
Qed.

Lemma pivot_index_range b e : b < e -> b <= pivot_index siz b e <= e.
Proof.
  intros Hbe. unfold pivot_index. set (m := (e - b) * siz).
  assert (0 <= m) by (unfold m; apply Z.mul_nonneg_nonneg; lia).
  rewrite Z.shiftr_div_pow2 by lia. change (2 ^ 1) with 2.
  assert (Ho : 0 <= u32 (m / 2) <= m).
  { assert (0 <= m / 2 <= m) by (Z.to_euclidean_division_equations; lia).
    unfold wrap_u. pose proof (Z.mod_pos_bound (m / 2) (2 ^ 32)). pose proof (Z.mod_le (m / 2) (2 ^ 32)). lia. }
  set (o := u32 (m / 2)) in *. pose proof (Z.mod_pos_bound o siz siz_pos). pose proof (Z.mod_le o siz).
  assert (0 <= (o - o mod siz) / siz) by (apply Z.div_pos; lia).
  assert ((o - o mod siz) / siz <= e - b).
  { apply Z.div_le_upper_bound; [lia|]. unfold m in Ho. lia. }
  lia.
Qed.

Lemma partition_spec arr b e :
  0 <= b < e -> e < Z.of_nat (length arr) ->
  exists arr' s p, partition siz compare arr b e = Some (arr', s) /\ seg_perm b e arr arr' /\ b <= s <= e /\
    aref arr' s = Some p /\ (forall k x, b <= k < s -> aref arr' k = Some x -> below p x) /\ all_above arr' p s e.
Proof.
  intros Hb He. unfold partition. pose proof (pivot_index_range b e ltac:(lia)) as Hpi.
  destruct (swap_spec b e arr b (pivot_index siz b e)) as (arr1 & -> & Hsp1 & _); [lia..|]. cbn [mbind option_bind].
  pose proof (seg_perm_length _ _ _ _ Hsp1) as Hl1. destruct (aref_Some arr1 b) as [p Hp]; [lia|].
  destruct (partition_loop_spec (length arr1) arr1 b e p (b + 1) e) as (arr2 & s & -> & Hsp2 & Hs & Hbel & Habv);
    [done|lia|lia|lia|lia|intros k x; lia|intros k x; lia|]. cbn [mbind option_bind].
  pose proof (seg_perm_length _ _ _ _ Hsp2) as Hl2.
  destruct (swap_spec b e arr2 b s) as (arr3 & -> & Hsp3 & Hs1 & Hs2 & Hso); [lia..|]. cbn [mbind option_bind].
  assert (Hp2 : aref arr2 b = Some p) by (destruct Hsp2 as (_ & -> & _); [done|lia]).
  assert (Hsp2' : seg_perm b e arr1 arr2).
  { destruct Hsp2 as (P & O & I). split_and!; [done|intros; apply O; lia|]. intros i Hi.
    destruct (decide (i = b)) as [->|]; [exists b; split; [lia|apply O; lia]|].
    destruct (I i) as (k & Hk & Hik); [lia|]. exists k. split; [lia|done]. }
  exists arr3, s, p. split_and!; [done|exact (seg_perm_trans _ _ _ _ _ Hsp1 (seg_perm_trans _ _ _ _ _ Hsp2' Hsp3))|lia|lia|by rewrite Hs2| |].
  - intros k x Hk Hx. destruct (decide (k = b)) as [->|].
    + rewrite Hs1 in Hx. apply (Hbel s); [lia|done].
    + rewrite Hso in Hx by lia. apply (Hbel k); [lia|done].
  - intros k x Hk Hx. rewrite Hso in Hx by lia. apply (Habv k); [lia|done].
Qed.

(** ** The segments still to sort *)

Definition seg_size (s : Z * Z) : Z := Z.max 0 (s.2 - s.1 + 1).

(** The entry with [k] entries below it has at most [n / 2^k] elements: the larger
    part of a segment is pushed and the smaller one, at most half, goes on. *)
Fixpoint stack_ok (n : Z) (stack : list (Z * Z)) : Prop :=
  match stack with
  | [] => True
  | s :: stack => 0 <= s.1 /\ s.2 < n /\ seg_size s * 2 ^ Z.of_nat (length stack) <= n /\ stack_ok n stack
  end.

Fixpoint work (stack : list (Z * Z)) : Z :=
  match stack with
  | [] => 0
  | s :: stack => 2 * seg_size s + 1 + work stack
  end.

Definition apart (s t : Z * Z) : Prop := s.2 < t.1 \/ t.2 < s.1.

Fixpoint pairwise_apart (segs : list (Z * Z)) : Prop :=
  match segs with
  | [] => True
  | s :: segs => Forall (apart s) segs /\ pairwise_apart segs
  end.

(** Two elements are in order, or in one segment that is still to sort. *)
Definition ordered (segs : list (Z * Z)) arr : Prop :=
  forall i j x y, i < j -> aref arr i = Some x -> aref arr j = Some y ->
    (exists s, s ∈ segs /\ s.1 <= i /\ j <= s.2) \/ compare x y <= 0.

Lemma ordered_drop s segs arr : s.2 <= s.1 -> ordered (s :: segs) arr -> ordered segs arr.
Proof.
  intros Hs Ho i j x y Hij Hx Hy. destruct (Ho i j x y Hij Hx Hy) as [(t & Ht & Hi & Hj)|]; [|by right].
  apply elem_of_cons in Ht as [->|Ht]; [lia|]. left. by exists t.
Qed.

Lemma ordered_swap s t segs arr : ordered (s :: t :: segs) arr -> ordered (t :: s :: segs) arr.
Proof.
  intros Ho i j x y Hij Hx Hy. destruct (Ho i j x y Hij Hx Hy) as [(u & Hu & Hi & Hj)|]; [|by right].
  left. exists u. split; [|done]. rewrite !elem_of_cons in *. tauto.
Qed.

Section order.
Hypothesis compare_total : forall x y, compare x y <= 0 \/ compare y x <= 0.
Hypothesis compare_trans : forall x y z, compare x y <= 0 -> compare y z <= 0 -> compare x z <= 0.

Lemma below_le p x : below p x -> compare x p <= 0.
Proof. intros [Hc|Hc]; [|done]. destruct (compare_total x p); [done|lia]. Qed.

Lemma above_le p x : above p x -> compare p x <= 0.
Proof. intros [Hc|Hc]; [|done]. destruct (compare_total p x); [done|lia]. Qed.

(** A partition orders the elements of its segment against the pivot, and keeps the
    order against the elements outside. *)
Lemma partition_ordered segs arr arr' b e s p :
  Forall (apart (b, e)) segs -> ordered ((b, e) :: segs) arr -> seg_perm b e arr arr' -> b <= s <= e ->
  aref arr' s = Some p -> (forall k x, b <= k < s -> aref arr' k = Some x -> below p x) -> all_above arr' p s e ->
  ordered ((b, s - 1) :: (s + 1, e) :: segs) arr'.
Proof.
  intros Hap Ho (_ & Hout & Hin) Hs Hp Hbel Habv i j x y Hij Hx Hy.
  destruct (decide (b <= i /\ j <= e)) as [[Hbi Hje]|Hnot].
  - destruct (decide (j < s)); [left; exists (b, s - 1); split; [left|cbn; lia]|].
    destruct (decide (s < i)); [left; exists (s + 1, e); split; [right; left|cbn; lia]|]. right.
    apply compare_trans with p.
    + destruct (decide (i = s)) as [->|]; [|apply below_le, (Hbel i); [lia|done]].
      rewrite Hx in Hp. injection Hp as ->. by destruct (compare_total p p).
    + destruct (decide (j = s)) as [->|]; [|apply above_le, (Habv j); [lia|done]].
      rewrite Hy in Hp. injection Hp as ->. by destruct (compare_total p p).
  - assert (Hpre : forall k z, aref arr' k = Some z -> exists l, aref arr l = Some z /\ (l = k \/ b <= k <= e /\ b <= l <= e)).
    { intros k z Hk. destruct (decide (b <= k <= e)) as [Hr|Hr].
      - destruct (Hin k Hr) as (l & Hl & He). exists l. rewrite <- He. auto.
      - exists k. rewrite <- (Hout k Hr). auto. }
    destruct (Hpre i x Hx) as (i' & Hx' & Hi'). destruct (Hpre j y Hy) as (j' & Hy' & Hj').
    destruct (Ho i' j' x y ltac:(lia) Hx' Hy') as [(t & Ht & Hti & Htj)|]; [|by right].
    apply elem_of_cons in Ht as [->|Ht]; [cbn in *; lia|].
    left. exists t. split; [by do 2 right|]. rewrite list.Forall_forall in Hap. specialize (Hap t Ht).
    unfold apart in Hap. cbn in Hap. lia.
Qed.

End order.

(** ** The loop over the segments *)

Definition total_preorder : Prop :=
  (forall x y, compare x y <= 0 \/ compare y x <= 0) /\
  (forall x y z, compare x y <= 0 -> compare y z <= 0 -> compare x z <= 0).

(** What sorting the pending segments [segs] of [arr] gives. *)
Definition sorted_from (segs : list (Z * Z)) arr arr' : Prop :=
  arr ≡ₚ arr' /\ (total_preorder -> pairwise_apart segs -> ordered segs arr -> ordered [] arr').

Lemma sorted_from_drop s segs arr arr' :
  s.2 <= s.1 -> sorted_from segs arr arr' -> sorted_from (s :: segs) arr arr'.
Proof. intros Hs [HP HO]. split; [done|]. intros Ht [_ Hap] Ho. apply HO; [done|done|]. by apply (ordered_drop s). Qed.

(** The state of the loop fits its invariants: [n] elements, the current segment
    and the stack in range and small enough, and enough fuel left. *)
Definition loop_pre (n : Z) (fuel : nat) (stack : list (Z * Z)) (cur : Z * Z) arr : Prop :=
  n = Z.of_nat (length arr) /\ 0 <= cur.1 /\ cur.2 < n /\
  seg_size cur * 2 ^ Z.of_nat (length stack) <= n /\ stack_ok n stack /\
  2 * seg_size cur + work stack < Z.of_nat fuel.

Definition loop_ok (n : Z) (fuel : nat) : Prop := forall stack cur arr,
  loop_pre n fuel stack cur arr ->
  exists arr', qsort_loop siz compare fuel stack cur.1 cur.2 arr = Some arr' /\ sorted_from (cur :: stack) arr arr'.

(** After a partition: the larger part, if it has two elements, is pushed, and the
    smaller part goes on. *)
Lemma loop_continue n fuel stack seg cur other arr arr1 :
  loop_ok n fuel -> n < 2 ^ 64 -> loop_pre n (S fuel) stack seg arr -> seg.1 < seg.2 -> seg_perm seg.1 seg.2 arr arr1 ->
  0 <= cur.1 -> cur.2 < n -> 0 <= other.1 -> other.2 < n ->
  seg_size cur <= seg_size other -> seg_size cur + seg_size other + 1 = seg_size seg ->
  (total_preorder -> pairwise_apart (seg :: stack) -> ordered (seg :: stack) arr ->
   pairwise_apart (cur :: other :: stack) /\ ordered (cur :: other :: stack) arr1) ->
  exists arr', (stack ← (if other.1 <? other.2 then push stack other.1 other.2 else Some stack);
                qsort_loop siz compare fuel stack cur.1 cur.2 arr1) = Some arr' /\ sorted_from (seg :: stack) arr arr'.
Proof.
  intros IH Hn64 (Hn & Hb & He & Hsz & Hst & Hf) Hbe Hsp Hc1 Hc2 Ho1 Ho2 Hle Hsum Hord.
  pose proof (seg_perm_length _ _ _ _ Hsp) as Hl1. set (k := Z.of_nat (length stack)) in *.
  assert (Hpow : 0 < 2 ^ k) by (apply Z.pow_pos_nonneg; lia).
  assert (Hk : k < 64) by (apply (Z.pow_lt_mono_r_iff 2); [lia|lia|]; unfold seg_size in Hsz; nia).
  assert (Hrec : forall stack', stack' = other :: stack \/ stack' = stack /\ other.2 <= other.1 ->
    exists arr', qsort_loop siz compare fuel stack' cur.1 cur.2 arr1 = Some arr' /\ sorted_from (seg :: stack) arr arr').
  { intros stack' Hs'. destruct (IH stack' cur arr1) as (arr' & -> & HP & HO).
    - unfold loop_pre. split_and!; [lia|lia|lia|..]; destruct Hs' as [->|[-> Ho12]]; cbn [stack_ok work length]; fold k; try done.
      + rewrite Nat2Z.inj_succ, Z.pow_succ_r by lia. fold k. nia.
      + nia.
      + split_and!; [done|done| |done]. transitivity (seg_size seg * 2 ^ k); [|done].
        apply Z.mul_le_mono_nonneg_r; [lia|]. unfold seg_size in *. lia.
      + lia.
      + unfold seg_size in *. lia.
    - exists arr'. split; [done|]. split; [by etrans; [apply Hsp|]|]. intros Ht Hap Ho.
      destruct (Hord Ht Hap Ho) as [Hap' Ho']. destruct Hs' as [->|[-> Ho12]]; [by apply HO|].
      destruct Hap' as [[_ Hf1]%Forall_cons [_ Hap']]. apply HO; [done|done|]. by apply (ordered_drop other), ordered_swap. }
  destruct (Z.ltb_spec other.1 other.2).
  - unfold push, QSORT_STACK_SIZE. fold k. destruct (Z.ltb_spec k 64); [|lia]. cbn [mbind option_bind].
    rewrite <- surjective_pairing. apply Hrec. by left.
  - cbn [mbind option_bind]. apply Hrec. by right.
Qed.

(** The parts of a partitioned segment are apart from each other and the rest. *)
Lemma partition_apart b e s stack :
  b <= s <= e -> pairwise_apart ((b, e) :: stack) -> pairwise_apart ((b, s - 1) :: (s + 1, e) :: stack).
Proof.
  intros Hs [Hf Hap]. cbn [pairwise_apart]. split_and!; [apply Forall_cons; split|..|done].
  - unfold apart. cbn. lia.
  - eapply Forall_impl; [exact Hf|]. unfold apart. cbn. lia.
  - eapply Forall_impl; [exact Hf|]. unfold apart. cbn. lia.
Qed.

Lemma pairwise_apart_swap s t segs : pairwise_apart (s :: t :: segs) -> pairwise_apart (t :: s :: segs).
Proof.
  intros [[Hst Hs]%Forall_cons [Ht Hap]]. split; [apply Forall_cons; split|by split]; [|done].
  unfold apart in *. lia.
Qed.

Lemma work_nonneg stack : 0 <= work stack.
Proof. induction stack as [|s stack IH]; cbn; [lia|]. unfold seg_size. lia. Qed.

Lemma qsort_loop_spec n fuel : n < 2 ^ 64 -> loop_ok n fuel.
Proof.
  intros Hn64. induction fuel as [|fuel IH]; intros stack [b e] arr Hpre; pose proof Hpre as (Hn & Hb & He & Hsz & Hst & Hf).
  { pose proof (work_nonneg stack). unfold seg_size in Hf. lia. }
  cbn [qsort_loop fst snd] in *. destruct (Z.ltb_spec b e) as [Hbe|Hbe].
  - destruct (partition_spec arr b e) as (arr1 & s & p & -> & Hsp & Hs & Hp & Hbel & Habv); [lia|lia|].
    cbn [mbind option_bind]. destruct (Z.leb_spec (s - b) (e - s)).
    + apply (loop_continue n fuel stack (b, e) (b, s - 1) (s + 1, e) arr arr1); unfold seg_size; cbn [fst snd]; try done; try lia.
      intros [Ht1 Ht2] Hap Ho. split; [by apply partition_apart|]. eapply partition_ordered; try done. apply Hap.
    + apply (loop_continue n fuel stack (b, e) (s + 1, e) (b, s - 1) arr arr1); unfold seg_size; cbn [fst snd]; try done; try lia.
      intros [Ht1 Ht2] Hap Ho. split; [by apply pairwise_apart_swap, partition_apart|].
      apply ordered_swap. eapply partition_ordered; try done. apply Hap.
  - destruct stack as [|s stack].
    + exists arr. split; [done|]. by apply sorted_from_drop.
    + destruct Hst as (Hs1 & Hs2 & Hsz' & Hst'). cbn [work] in Hf.
      destruct (IH stack s arr) as (arr' & He' & HS); [unfold loop_pre, seg_size in *; cbn [fst snd] in *; split_and!; try done; lia|].
      exists arr'. destruct s as [b' e']. split; [done|]. by apply sorted_from_drop.
Qed.

End proofs.

(** ** What a container expects of a sort function *)

(** [sort_func_t] on an array of pointers, [None] when the call goes wrong. *)
Definition sort_func_t (A : Type) : Type := (A -> A -> Z) -> list A -> option (list A).

(** The call returns a permutation of the array, sorted if the comparison is a
    total preorder. *)
Class SortFunction {A} (sort_func : sort_func_t A) : Prop :=
  sort_function_ok : forall compare arr, Z.of_nat (length arr) < 2 ^ 64 ->
    exists arr', sort_func compare arr = Some arr' /\ arr ≡ₚ arr' /\
      (total_preorder compare -> StronglySorted (fun x y => compare x y <= 0) arr').

(** ** The result of the sort *)

Lemma sorted_by_index {A} (R : A -> A -> Prop) (l : list A) :
  (forall i j x y, i < j -> aref l i = Some x -> aref l j = Some y -> R x y) -> StronglySorted R l.
Proof.
  induction l as [|x l IH]; intros Hl; constructor.
  - apply IH. intros i j y z Hij Hy Hz. pose proof (aref_range _ _ _ Hy). pose proof (aref_range _ _ _ Hz).
    apply (Hl (i + 1) (j + 1)); [lia|..]; unfold aref in *;
      repeat case_match; try lia; rewrite Z2Nat.inj_add by lia; rewrite Nat.add_comm; done.
  - apply list.Forall_forall. intros y [k Hk]%list_elem_of_lookup.
    apply (Hl 0 (Z.of_nat (S k)) x y); [lia|done|]. unfold aref. destruct (Z.leb_spec 0 (Z.of_nat (S k))); [|lia].
    by rewrite Nat2Z.id.
Qed.

Lemma zend_qsort_sorts {A} (siz : Z) (compare : A -> A -> Z) (arr : list A) :
  0 < siz -> Z.of_nat (length arr) < 2 ^ 64 ->
  exists arr', zend_qsort siz compare arr = Some arr' /\ arr ≡ₚ arr' /\
    (total_preorder compare -> StronglySorted (fun x y => compare x y <= 0) arr').
Proof.
  intros Hsiz Hn. unfold zend_qsort, zend_qsort_r.
  destruct (qsort_loop_spec siz compare Hsiz (Z.of_nat (length arr)) (2 * length arr + 2) Hn [] (0, Z.of_nat (length arr) - 1) arr)
    as (arr' & He & HP & HO).
  { unfold loop_pre, seg_size. cbn [fst snd stack_ok work length]. split_and!; try done; lia. }
  exists arr'. split_and!; [exact He|done|]. intros Ht. apply sorted_by_index. intros i j x y Hij Hx Hy.
  assert (Hord : ordered compare [] arr').
  { apply HO; [done|by repeat constructor|]. intros i' j' x' y' _ Hx' Hy'. left. exists (0, Z.of_nat (length arr) - 1).
    apply aref_range in Hx', Hy'. split; [by left|cbn; lia]. }
  destruct (Hord i j x y Hij Hx Hy) as [(s & Hs & _)|]; [|done]. by apply elem_of_nil in Hs.
Qed.

#[export] Instance zend_qsort_sort_function {A} siz : 0 < siz -> SortFunction (zend_qsort (A := A) siz).
Proof. intros Hsiz compare arr. by apply zend_qsort_sorts. Qed.

(** C29: [zend_qsort] on an array of fewer than 2^64 elements of any positive size
    ends, reads and writes only inside the array, never overflows its stack of 64
    segments and returns a permutation of the array, whatever the comparison
    function answers; when the comparison is a total preorder the result is sorted. *)
Theorem zend_qsort_correct {A} (siz : Z) (compare : A -> A -> Z) (arr : list A) :
  0 < siz -> Z.of_nat (length arr) < 2 ^ 64 ->
  exists arr', zend_qsort siz compare arr = Some arr' /\ arr ≡ₚ arr' /\
    (total_preorder compare -> StronglySorted (fun x y => compare x y <= 0) arr').
Proof. apply zend_qsort_sorts. Qed.

Lemma zend_qsort_witness :
  (exists arr', zend_qsort 4 Z.sub [5; -3; 9; 0; 5; 2] = Some arr' /\ [5; -3; 9; 0; 5; 2] ≡ₚ arr' /\
    (total_preorder Z.sub -> StronglySorted (fun x y => x - y <= 0) arr')) /\
  zend_qsort 4 Z.sub [5; -3; 9; 0; 5; 2] = Some [-3; 0; 2; 5; 5; 9].
Proof. split; [apply (zend_qsort_correct 4 Z.sub [5; -3; 9; 0; 5; 2]); [lia|cbn [length]; lia]|reflexivity]. Defined.
