(* ===== verification/ZendHashOrder.v ===== *)
(** * ZendHashOrder: renumbering and sorting

    [zend_hash_reindex] and [zend_hash_sort] of src/Zend/zend_hash.c.  The
    reindex operation itself is defined in [ZendHash]; here are its rules, and
    the model of the sort, the comparison and the minimum/maximum search. *)
From S2P Require Import Prelude Memory Dllist HashFunc OrderedMap ZendHash ZendHashRep ZendHashLink.
From S2P Require Import ZendHashRehash ZendHashInsert ZendHashAppend.
From stdpp Require Import base list gmap.
Local Open Scope Z_scope.

(** The keys after renumbering from [n] on: all of them, or the integer ones. *)
Fixpoint renumber {V} (only_integer_keys : bool) (n : Z) (E : list (hkey * V)) : list (hkey * V) :=
  match E with
  | [] => []
  | (HStr x, v) :: E =>
      if only_integer_keys then (HStr x, v) :: renumber only_integer_keys n E
      else (HInt n, v) :: renumber only_integer_keys (n + 1) E
  | (HInt _, v) :: E => (HInt n, v) :: renumber only_integer_keys (n + 1) E
  end.

(** How many elements get a new number. *)
Fixpoint renumbered {V} (only_integer_keys : bool) (E : list (hkey * V)) : Z :=
  match E with
  | [] => 0
  | (HStr _, _) :: E => (if only_integer_keys then 0 else 1) + renumbered only_integer_keys E
  | (HInt _, _) :: E => 1 + renumbered only_integer_keys E
  end.

Section order.
Context {V : Type} {AL : Allocator}.
Implicit Types (m : gmap ptr (Bucket V)) (b : Bucket V) (p q : ptr) (L c : list ptr).
Implicit Types (s : store (Bucket V) V) (ht : HashTable).

(** ** Renumbering *)

Lemma renumbered_range only (E : list (hkey * V)) : 0 <= renumbered only E <= Z.of_nat (length E).
Proof.
  induction E as [|[[x|i] v] E IH]; cbn [renumbered length]; [lia| |lia]. destruct only; lia.
Qed.

Lemma renumber_int_key only (E : list (hkey * V)) n i :
  HInt i ∈ om_keys (renumber only n E) -> n <= i < n + renumbered only E.
Proof.
  revert n. induction E as [|[k v] E IH]; intros n; [set_solver|].
  pose proof (renumbered_range only E) as Hr.
  assert (forall x, HInt i ∈ om_keys ((HInt n, x) :: renumber only (n + 1) E) ->
    n <= i < n + (1 + renumbered only E)) as Hint.
  { intros x. unfold om_keys. rewrite fmap_cons, elem_of_cons. intros [[= ->]|H]; [lia|].
    specialize (IH (n + 1) H). lia. }
  destruct k as [x|j]; cbn [renumber renumbered]; [|by apply Hint].
  destruct only; [|by apply Hint].
  unfold om_keys. rewrite fmap_cons, elem_of_cons. intros [H|H]; [done|]. specialize (IH n H). lia.
Qed.

Lemma renumber_str_key only (E : list (hkey * V)) n x :
  HStr x ∈ om_keys (renumber only n E) -> HStr x ∈ om_keys E.
Proof.
  revert n. induction E as [|[k v] E IH]; intros n; [done|]. unfold om_keys in *.
  destruct k as [y|j]; cbn [renumber]; [destruct only|]; rewrite !fmap_cons, !elem_of_cons;
    intros [H|H]; simpl in *; eauto; done.
Qed.

Lemma renumber_keys only (E : list (hkey * V)) n :
  NoDup (om_keys E) -> NoDup (om_keys (renumber only n E)).
Proof.
  revert n. induction E as [|[k v] E IH]; intros n HND; [constructor|].
  unfold om_keys in HND. rewrite fmap_cons in HND. apply NoDup_cons in HND as [Hk HND].
  assert (NoDup (om_keys ((HInt n, v) :: renumber only (n + 1) E))) as Hint.
  { unfold om_keys. rewrite fmap_cons. apply NoDup_cons. split; [|by apply IH].
    intros Hin. apply renumber_int_key in Hin. lia. }
  destruct k as [x|j]; cbn [renumber]; [|done]. destruct only; [|done].
  unfold om_keys. rewrite fmap_cons. apply NoDup_cons. split; [|by apply IH].
  intros Hin. apply renumber_str_key in Hin. done.
Qed.

(** Whether the loop renumbers this bucket, and the bucket it leaves. *)
Definition renumbers (only : bool) (b : Bucket V) : bool := negb only || (nKeyLength b =? 0).

Definition relabel1 (only : bool) (off : Z) (b : Bucket V) : Bucket V :=
  if renumbers only b then set_nKeyLength 0 (set_b_h off b) else b.

(** The memory after the relabelling of the buckets [L], and the next number. *)
Fixpoint relabel (only : bool) (m : gmap ptr (Bucket V)) (L : list ptr) (off : Z) :
    gmap ptr (Bucket V) * Z :=
  match L with
  | [] => (m, off)
  | p :: L =>
      match m !! p with
      | Some b => relabel only (<[p := relabel1 only off b]> m) L
                    (if renumbers only b then u64 (off + 1) else off)
      | None => (m, off)
      end
  end.

Definition same_stripped (m m' : gmap ptr (Bucket V)) : Prop :=
  forall q, strip_hash <$> m' !! q = strip_hash <$> m !! q.

#[local] Instance same_stripped_equiv : Equivalence same_stripped.
Proof.
  split; unfold same_stripped; [by intros m q|intros m m' H q; by rewrite H|].
  intros m1 m2 m3 H1 H2 q. by rewrite H2, H1.
Qed.

Lemma relabel1_strip only off b b' :
  strip_hash b = strip_hash b' ->
  strip_hash (relabel1 only off b) = strip_hash (relabel1 only off b') /\ renumbers only b = renumbers only b'.
Proof.
  intros He. assert (nKeyLength b = nKeyLength b') as Hn by (destruct b, b'; by injection He).
  unfold relabel1, renumbers. rewrite Hn. split; [|done].
  destruct (_ || _); [|done]. destruct b, b'. cbn in *. by injection He as -> -> -> -> -> -> -> ->.
Qed.

Lemma same_stripped_insert m m' p b b' :
  same_stripped m m' -> strip_hash b' = strip_hash b -> same_stripped (<[p := b]> m) (<[p := b']> m').
Proof.
  intros Hm Hb q. destruct (decide (q = p)) as [->|Hq].
  - rewrite !lookup_insert_eq. simpl. by rewrite Hb.
  - by rewrite !lookup_insert_ne.
Qed.

(** Relabelling does not look at the chain links. *)
Lemma relabel_stripped only m m' L off :
  same_stripped m m' ->
  same_stripped (relabel only m L off).1 (relabel only m' L off).1 /\
  (relabel only m L off).2 = (relabel only m' L off).2.
Proof.
  revert m m' off. induction L as [|p L IH]; intros m m' off Hm; [done|]. simpl.
  pose proof (Hm p) as Hp. destruct (m !! p) as [b|] eqn:Hb, (m' !! p) as [b'|] eqn:Hb'; try done.
  apply (inj Some) in Hp. destruct (relabel1_strip only off _ _ Hp) as [H1 H2]. rewrite H2.
  apply IH. by apply same_stripped_insert.
Qed.

Lemma relabel1_frame only off b :
  lk list_links (relabel1 only off b) = lk list_links b /\
  lk hash_links (relabel1 only off b) = lk hash_links b /\
  pData (relabel1 only off b) = pData b /\ pDataPtr (relabel1 only off b) = pDataPtr b.
Proof. unfold relabel1. by destruct (renumbers only b). Qed.

Lemma wp_reindex_loop only fuel ht off L1 L2 Q s :
  dll list_links (nodes s) (L1 ++ L2) -> (length L2 < fuel)%nat ->
  slots_ok (nodes s) ht L1 -> indices_ok ht ->
  (forall m' arB, length arB = length (arBuckets ht) ->
     slots_ok m' (set_arBuckets arB ht) (L1 ++ L2) ->
     same_stripped (relabel only (nodes s) L2 off).1 m' ->
     (forall q, q ∉ L1 ++ L2 -> m' !! q = nodes s !! q) ->
     Q (set_arBuckets arB ht, (relabel only (nodes s) L2 off).2) (set_nodes m' s)) ->
  wp (reindex_loop fuel only ht off (head L2)) Q s.
Proof.
  revert ht L1 L2 off s. induction fuel as [|fuel IH]; intros ht L1 L2 off s HL Hlen HS Hi HQ; [lia|].
  destruct L2 as [|p L2]; simpl.
  { wp_step. rewrite app_nil_r in *. specialize (HQ (nodes s) (arBuckets ht)).
    destruct ht, s. by apply HQ. }
  destruct (dll_lookup _ _ _ _ _ HL) as (b & Hb & _ & Hnext).
  assert (p ∉ L1) as HpL1 by (destruct HL as [(_ & ? & _)%NoDup_app _]; set_solver).
  wp_step. wp_step. wp_step. fold (renumbers only b).
  set (m1 := <[p := relabel1 only off b]> (nodes s)).
  apply (wp_mono _ (fun _ s' => s' = set_nodes m1 s)).
  { unfold m1, relabel1. destruct (renumbers only b).
    - wp_step. eapply wp_update; [done|]. rewrite (alter_insert_Some _ _ _ b) by done.
      eapply wp_update; [apply lookup_insert_eq|]. simpl.
      by rewrite (alter_insert_Some _ _ _ _ (lookup_insert_eq _ _ _)), insert_insert_eq.
    - wp_step. rewrite insert_id by done. by destruct s. }
  intros [] ? ->. assert (m1 !! p = Some (relabel1 only off b)) as Hb1 by apply lookup_insert_eq.
  assert (forall q, q <> p -> m1 !! q = nodes s !! q) as Hm1 by (intros; by apply lookup_insert_ne).
  assert (dll list_links m1 (L1 ++ p :: L2)) as HL1.
  { eapply dll_frame; [|exact HL]. intros q _. destruct (decide (q = p)) as [->|Hq]; [|by rewrite Hm1].
    rewrite Hb1, Hb. simpl. f_equal. apply relabel1_frame. }
  assert (slots_ok m1 ht L1) as HS1.
  { eapply (slots_ok_agree (nodes s)); [|done|done|exact HS]. intros q Hq. rewrite Hm1; [done|].
    by intros ->. }
  wp_step. eapply wp_load; [exact Hb1|].
  apply (wp_chain_push _ L1 (L1 ++ [p]) p (relabel1 only off b)); [done|done|done|set_solver|done|].
  intros m2 arB2 Hlen2 HS2 Hobs2 Hout2. cbn beta.
  assert (same_stripped m1 m2) as Hss by done.
  assert (dll list_links m2 ((L1 ++ [p]) ++ L2)) as HL2.
  { rewrite <- app_assoc. eapply dll_frame; [|exact HL1].
    apply (agree_weaken strip_hash); [apply strip_hash_lk|by intros q _]. }
  destruct (dll_lookup list_links m2 L1 p L2) as (b2 & Hb2 & _ & Hnext2).
  { by rewrite <- app_assoc in HL2. }
  wp_step. wp_step. change (pListNext b2) with (lnext list_links b2). rewrite Hnext2.
  destruct (relabel_stripped only m1 m2 L2 (if renumbers only b then u64 (off + 1) else off) Hss) as [Hr1 Hr2].
  apply (IH _ (L1 ++ [p])); [done|simpl in Hlen; lia|done| |].
  { intros h. simpl. rewrite Hlen2. apply Hi. }
  intros m' arB Hlen' HS' Hobs' Hout'. rewrite <- app_assoc in HS', Hout'. simpl in *.
  rewrite Hb in HQ. fold m1 in HQ. rewrite <- Hr2. apply HQ; [congruence|done| |].
  - by etransitivity.
  - intros q Hq. rewrite Hout' by done. rewrite Hout2 by set_solver. apply Hm1. set_solver.
Qed.

Lemma relabel1_key only off b :
  bucket_key (relabel1 only off b) = (if renumbers only b then HInt off else bucket_key b) /\
  (renumbers only b = false -> only = true /\ exists x, bucket_key b = HStr x).
Proof.
  unfold relabel1. split; [by destruct (renumbers only b)|]. unfold renumbers, bucket_key.
  destruct only; [|done]. destruct (nKeyLength b =? 0); [done|]. eauto.
Qed.

Lemma renumber_cons only off b v (E : list (hkey * V)) :
  renumber only off ((bucket_key b, v) :: E) =
    (bucket_key (relabel1 only off b), v) ::
      renumber only (if renumbers only b then off + 1 else off) E /\
  renumbered only ((bucket_key b, v) :: E) = (if renumbers only b then 1 else 0) + renumbered only E.
Proof.
  destruct (relabel1_key only off b) as [-> Hstr]. destruct (renumbers only b) eqn:Hr.
  - unfold renumbers, bucket_key in *. destruct (nKeyLength b =? 0); [done|].
    destruct only; [done|]. done.
  - destruct (Hstr eq_refl) as [-> [x ->]]. done.
Qed.

Lemma relabel_spec only s L off :
  NoDup L -> (forall p, p ∈ L -> is_Some (entry s p)) -> 0 <= off -> off + Z.of_nat (length L) < 2 ^ 64 ->
  let r := relabel only (nodes s) L off in
  contents (set_nodes r.1 s) L = renumber only off (contents s L) /\
  r.2 = off + renumbered only (contents s L) /\
  (forall q, q ∉ L -> r.1 !! q = nodes s !! q) /\
  (forall q b, q ∈ L -> nodes s !! q = Some b -> exists n, r.1 !! q = Some (relabel1 only n b) /\
     (renumbers only b = true -> off <= n < r.2)).
Proof.
  revert s off. induction L as [|p L IH]; intros s off HND He Hoff Hlen; [simpl; split_and!; [done|lia|done|set_solver]|].
  apply NoDup_cons in HND as [Hp HND]. destruct (He p) as [e Hep]; [set_solver|].
  unfold entry in Hep. destruct (nodes s !! p) as [b|] eqn:Hb; [|done]. simpl in Hep.
  destruct (bucket_val (blocks s) b) as [v|] eqn:Hv; [|done]. injection Hep as <-.
  set (off' := if renumbers only b then off + 1 else off).
  set (s1 := set_nodes (<[p := relabel1 only off b]> (nodes s)) s). cbn [length] in Hlen.
  assert (relabel only (nodes s) (p :: L) off = relabel only (nodes s1) L off') as Hrel.
  { simpl. rewrite Hb. f_equal. unfold off'. destruct (renumbers only b); [apply wrap_u_small; lia|done]. }
  assert (forall q, q <> p -> nodes s1 !! q = nodes s !! q) as Hs1 by (intros; by apply lookup_insert_ne).
  assert (forall q, q ∈ L -> q <> p) as HqL by (intros q Hq ->; done).
  assert (forall q, q ∈ L -> entry s1 q = entry s q) as Hent.
  { intros q Hq. unfold entry. by rewrite Hs1 by auto. }
  assert (contents s1 L = contents s L) as Hc1.
  { unfold contents. by apply omap_ext_in. }
  destruct (IH s1 off' HND) as (HC & Hr2 & Hout & Hin).
  { intros q Hq. rewrite Hent by done. apply He. set_solver. }
  { unfold off'. destruct (renumbers only b); lia. }
  { unfold off'. destruct (renumbers only b); lia. }
  cbv zeta. rewrite Hrel. destruct (renumber_cons only off b v (contents s L)) as [Hren Hcnt].
  assert (entry s p = Some (bucket_key b, v)) as Hes by (unfold entry; rewrite Hb; simpl; by rewrite Hv).
  set (r := relabel only (nodes s1) L off') in *.
  assert (r.1 !! p = Some (relabel1 only off b)) as Hrp.
  { rewrite Hout by done. apply lookup_insert_eq. }
  pose proof (renumbered_range only (contents s L)) as Hrr. rewrite Hc1 in *.
  rewrite (contents_cons s p L _ Hes), Hren, Hcnt. split_and!.
  - rewrite (contents_cons _ p L (bucket_key (relabel1 only off b), v)).
    + f_equal. exact HC.
    + unfold entry. simpl. rewrite Hrp. simpl. destruct (relabel1_frame only off b) as (_ & _ & Hd & Hdp).
      unfold bucket_val in *. rewrite Hd, Hdp, Hv. done.
  - rewrite Hr2. unfold off'. destruct (renumbers only b); lia.
  - intros q Hq. rewrite not_elem_of_cons in Hq. rewrite Hout by tauto. apply Hs1. tauto.
  - intros q bq [->|Hq]%elem_of_cons Hbq.
    + assert (bq = b) as -> by congruence. exists off. split; [done|]. intros Hrn. rewrite Hr2.
      unfold off'. rewrite Hrn. lia.
    + destruct (Hin q bq Hq) as (n & Hn & Hrange); [by rewrite Hs1 by auto|]. exists n.
      split; [done|]. intros Hrn. specialize (Hrange Hrn). unfold off' in *.
      destruct (renumbers only b); lia.
Qed.

(** Distinct keys of the contents are distinct keys of the buckets. *)
Lemma contents_keys_ok s L :
  (forall p, p ∈ L -> is_Some (entry s p)) -> NoDup L -> NoDup (om_keys (contents s L)) ->
  keys_ok (nodes s) L.
Proof.
  induction L as [|p L IH]; intros He HND Hk x y bx by' Hx Hy Hbx Hby Heq; [set_solver|].
  apply NoDup_cons in HND as [Hp HND].
  destruct (He p) as [[k v] Hep]; [set_solver|]. rewrite (contents_cons _ _ _ _ Hep) in Hk.
  unfold om_keys in Hk. rewrite fmap_cons in Hk. apply NoDup_cons in Hk as [Hk HkL]. simpl in Hk.
  assert (forall b, nodes s !! p = Some b -> bucket_key b = k) as Hpk.
  { intros b Hb. unfold entry in Hep. rewrite Hb in Hep. simpl in Hep.
    destruct (bucket_val (blocks s) b); by simplify_eq/=. }
  assert (forall z bz, z ∈ L -> nodes s !! z = Some bz -> bucket_key bz <> k) as Hother.
  { intros z bz Hz Hbz <-. apply Hk. destruct (He z) as [[k' v'] Hez]; [set_solver|].
    apply list_elem_of_fmap. exists (k', v'). split.
    - unfold entry in Hez. rewrite Hbz in Hez. simpl in Hez.
      destruct (bucket_val (blocks s) bz); by simplify_eq/=.
    - apply list_elem_of_omap. eauto. }
  apply elem_of_cons in Hx as [->|Hx]; apply elem_of_cons in Hy as [->|Hy]; [done|..].
  - destruct (Hother y by' Hy Hby). rewrite <- Heq. auto.
  - destruct (Hother x bx Hx Hbx). rewrite Heq. auto.
  - eapply IH; eauto. intros z Hz. apply He. set_solver.
Qed.

(** What [zend_hash_reindex] needs: the order list and sound buckets, but not
    the chains, and of the keys only that the renumbered ones are distinct. *)
Record seq_rep (only : bool) (s : store (Bucket V) V) (ht : HashTable) (L : list ptr) : Prop := {
  seq_order : order_ok (nodes s) ht L;
  seq_size : exists k, 3 <= k <= 31 /\ nTableSize ht = 2 ^ k;
  seq_mask : nTableMask ht = nTableSize ht - 1;
  seq_buckets : buckets_ok s L;
  seq_blocks : blocks_ok (nodes s) L;
  seq_keys : NoDup (om_keys (renumber only 0 (contents s L)));
  seq_internal : internal_ok ht L;
  seq_interned : only = false -> forall p b, p ∈ L -> nodes s !! p = Some b -> IS_INTERNED (arKey b) = false
}.

Lemma relabel1_ok only n p b :
  bucket_ok p b -> (only = false -> IS_INTERNED (arKey b) = false) ->
  (renumbers only b = true -> 0 <= n < 2 ^ 64) -> bucket_ok p (relabel1 only n b).
Proof.
  intros [Hh Hok] Hint Hn. unfold relabel1. destruct (renumbers only b) eqn:Hr; [|done].
  split; simpl; [split; [by apply Hn|lia]|]. destruct (decide (nKeyLength b = 0)) as [E|E]; [by rewrite E in Hok|].
  unfold renumbers in Hr. destruct only.
  { destruct (Z.eqb_spec (nKeyLength b) 0); done. }
  destruct (bucket_ok_str p b (conj Hh Hok) E) as ([[x Hx]|Hx] & _); [|by right].
  rewrite Hx in Hint. by specialize (Hint eq_refl).
Qed.

Lemma wp_reindex s ht L only Q :
  seq_rep only s ht L -> L <> [] ->
  (forall s' ht', ht_rep s' ht' L -> contents s' L = renumber only 0 (contents s L) ->
     same_rest s L s' L -> dtor_trace s' = dtor_trace s ->
     nNextFreeElement ht' = renumbered only (contents s L) -> same_config ht ht' ->
     nTableSize ht' = nTableSize ht -> pInternalPointer ht' = pInternalPointer ht -> Q ht' s') ->
  wp (zend_hash_reindex ht only) Q s.
Proof.
  intros HS HL HQ. destruct (seq_order _ _ _ _ HS) as (Hd & Hhd & Htl & Hn & Hlt).
  destruct (seq_size _ _ _ _ HS) as (k & Hk & Hsz). pose proof (seq_mask _ _ _ _ HS) as Hm.
  unfold zend_hash_reindex. rewrite Hn. destruct (Z.eqb_spec (Z.of_nat (length L)) 0) as [E|_].
  { by destruct L. }
  assert (forall p, p ∈ L -> is_Some (entry s p)) as He.
  { intros p Hp. destruct (dll_elem _ _ _ _ Hd Hp) as [b Hb].
    destruct (seq_buckets _ _ _ _ HS p b Hp Hb) as [_ [v Hv]]. unfold entry. rewrite Hb. simpl. by rewrite Hv. }
  destruct (relabel_spec only s L 0) as (HC & Hoff & Hout & Hin); [apply Hd|done|lia|lia|].
  set (r := relabel only (nodes s) L 0) in *. set (s1 := set_nodes r.1 s).
  pose proof (renumbered_range only (contents s L)) as Hrr.
  assert (length (contents s L) <= length L)%nat as Hcl.
  { unfold contents. clear. induction L as [|a L IH]; [done|].
    rewrite omap_cons. destruct (entry s a); cbn [length]; lia. }
  wp_step. rewrite Hhd. apply (wp_reindex_loop only _ _ 0 [] L); [done| | | |].
  { unfold loop_bound. rewrite Hn, Nat2Z.id. lia. }
  { apply clear_slots_ok. }
  { eapply clear_slots_indices; [|done..]. lia. }
  intros m' arB Hlen HSl Hss Hout'. fold r in Hss. fold r. wp_step. simpl in Hlen, HSl, Hout'.
  rewrite length_replicate in Hlen.
  set (ht1 := set_nNextFreeElement r.2 ht).
  assert (agree (lk list_links) (nodes s) r.1 L) as Hlk1.
  { intros q Hq. destruct (dll_elem _ _ _ _ Hd Hq) as [b Hb]. destruct (Hin q b Hq Hb) as (n & Hn' & _).
    rewrite Hn', Hb. simpl. f_equal. apply relabel1_frame. }
  assert (agree pData (nodes s) r.1 L) as Hpd.
  { intros q Hq. destruct (dll_elem _ _ _ _ Hd Hq) as [b Hb]. destruct (Hin q b Hq Hb) as (n & Hn' & _).
    rewrite Hn', Hb. simpl. f_equal. apply relabel1_frame. }
  assert (forall p b', p ∈ L -> r.1 !! p = Some b' -> exists b n, nodes s !! p = Some b /\
     b' = relabel1 only n b /\ (renumbers only b = true -> 0 <= n < r.2)) as Hinv.
  { intros p b' Hp Hb'. destruct (dll_elem _ _ _ _ Hd Hp) as [b Hb].
    destruct (Hin p b Hp Hb) as (n & Hn' & ?). exists b, n. split; [done|]. split; [congruence|done]. }
  assert (pre_rep s1 ht1 L) as HP.
  { split.
    - split_and!; [|done..]. eapply dll_frame; [exact Hlk1|done].
    - apply contents_keys_ok; [|apply Hd|].
      + intros p Hp. destruct (dll_elem _ _ _ _ Hd Hp) as [b Hb]. destruct (Hin p b Hp Hb) as (n & Hn' & _).
        destruct (seq_buckets _ _ _ _ HS p b Hp Hb) as [_ [v Hv]].
        destruct (relabel1_frame only n b) as (_ & _ & Hd1 & Hd2).
        unfold entry, s1. simpl. rewrite Hn'. simpl. unfold bucket_val in *. rewrite Hd1, Hd2, Hv. done.
      + unfold s1. rewrite HC. apply HS.
    - intros p b' Hp Hb'. destruct (Hinv p b' Hp Hb') as (b & n & Hb & -> & Hrng).
      destruct (seq_buckets _ _ _ _ HS p b Hp Hb) as [Hok Hv]. split.
      + apply relabel1_ok; [done| |].
        * intros Ho. by eapply (seq_interned _ _ _ _ HS Ho).
        * intros Hrn. specialize (Hrng Hrn). lia.
      + destruct (relabel1_frame only n b) as (_ & _ & Hd1 & Hd2).
        unfold bucket_val in *. simpl. by rewrite Hd1, Hd2.
    - intros p q bp bq a Hp Hq Hbp Hbq Hap Haq.
      destruct (agree_Some _ _ _ _ _ _ Hpd Hp Hbp) as (b1 & Hb1 & E1).
      destruct (agree_Some _ _ _ _ _ _ Hpd Hq Hbq) as (b2 & Hb2 & E2).
      by apply (seq_blocks _ _ _ _ HS p q b1 b2 a); try done; congruence.
    - unfold ht1. split; simpl; [unfold LONG_MAX; lia|]. intros p b' Hp Hb' Hz.
      destruct (Hinv p b' Hp Hb') as (b & n & Hb & -> & Hrng). left.
      unfold relabel1 in *. destruct (renumbers only b) eqn:Hrn.
      + simpl. specialize (Hrng eq_refl). destruct (s64_cases n) as [[_ ->]|[? _]]; lia.
      + unfold renumbers in Hrn. rewrite Hz in Hrn. destruct only; done.
    - apply HS. }
  change (set_nNextFreeElement r.2 (set_arBuckets arB (clear_slots ht))) with (set_arBuckets arB ht1).
  assert (ht_rep (set_nodes m' s1) (set_arBuckets arB ht1) L) as HR'.
  { eapply rebuilt_rep; [exact HP|done|done|done| |done|done]. rewrite Hlen, Z2Nat.id; [done|]. rewrite Hsz. lia. }
  change (set_nodes m' s1) with (set_nodes m' s) in HR'.
  destruct (agree_strip_hash r.1 m' L Hss) as [Hpay _].
  apply HQ; try done.
  - rewrite <- HC. apply contents_agree; [done|by apply agree_blocks_eq].
  - split.
    + intros q b. simpl. split; intros [Hq ?]; (split; [|done]); [by rewrite <- Hout'|by rewrite Hout'].
    + intros a v. simpl. assert (agree pData (nodes s) m' L) as Hpd'.
      { eapply agree_trans; [exact Hpd|]. eapply (agree_weaken payload); [|exact Hpay].
        intros b b' E. by apply payload_eq in E as (_ & _ & ? & _). }
      assert (owned (set_nodes m' s) L a <-> owned s L a) as ->; [|done].
      split; intros (p & b & Hp & Hb & Hda).
      * destruct (agree_Some _ _ _ _ _ _ Hpd' Hp Hb) as (b1 & Hb1 & E1). exists p, b1. by rewrite E1.
      * destruct (agree_Some _ _ _ _ _ _ (agree_sym _ _ _ _ Hpd') Hp Hb) as (b1 & Hb1 & E1).
        exists p, b1. by rewrite E1.
Qed.

End order.
