(* ===== verification/ZendHashSort.v ===== *)
(** * ZendHashSort: sorting, comparing and searching tables

    Models [zend_hash_sort], [zend_hash_compare] and [zend_hash_minmax] of
    src/Zend/zend_hash.c.  The sort function and the comparison callbacks are
    arguments, as they are in C. *)
From S2P Require Import Prelude Memory Dllist HashFunc OrderedMap ZendHash ZendHashRep ZendHashLink.
From S2P Require Import ZendHashDelete ZendHashRehash ZendHashInsert ZendHashAppend ZendHashFind.
From S2P Require Import ZendHashDestroy ZendHashApply ZendHashCopy ZendHashOrder ZendHashDemo ZendQsort.
From stdpp Require Import base list gmap sorting.
Local Open Scope Z_scope.

Section ops.
Context {V : Type} {AL : Allocator}.

Abbreviation hstore := (store (Bucket V) V).
Abbreviation hcmd := (cmd hstore).

(** A comparison callback on two [Bucket **] arguments: it reads the buckets. *)
Definition bucket_compare : Type := hstore -> ptr -> ptr -> Z.

(** [while (p) { arTmp[i] = p; p = p->pListNext; i++; }] *)
Fixpoint collect (fuel : nat) (p : option ptr) : hcmd (list ptr) :=
  match p with
  | None => mret []
  | Some q =>
      match fuel with
      | O => cfault
      | S fuel => b ← load q; rest ← collect fuel (pListNext b); mret (q :: rest)
      end
  end.

(** [arTmp[j]] *)
Definition tmp_at (arTmp : list ptr) (j : nat) : hcmd ptr :=
  match arTmp !! j with
  | Some p => mret p
  | None => cfault
  end.

(** [for (; j < i-1; j++) { arTmp[j]->pListLast = arTmp[j-1]; arTmp[j]->pListNext = arTmp[j+1]; }],
    [n] turns from [j] on *)
Fixpoint relink_loop (arTmp : list ptr) (j n : nat) : hcmd unit :=
  match n with
  | O => mret tt
  | S n =>
      a ← tmp_at arTmp j;
      prev ← tmp_at arTmp (j - 1);
      update a (set_pListLast (Some prev)) ;;
      next ← tmp_at arTmp (j + 1);
      update a (set_pListNext (Some next)) ;;
      relink_loop arTmp (j + 1) n
  end.

Definition zend_hash_sort (ht : HashTable) (sort_func : sort_func_t ptr) (compar : bucket_compare)
    (renumber : bool) : hcmd (zresult * HashTable) :=
  if negb (1 <? nNumOfElements ht) && negb (renumber && (0 <? nNumOfElements ht)) then
    mret (SUCCESS, ht)
  else
    arTmp ← collect (loop_bound ht) (pListHead ht);
    arTmp ← (fun s => arTmp ← sort_func (compar s) arTmp; Some (arTmp, s));
    let i := length arTmp in
    a0 ← tmp_at arTmp 0;
    let ht := set_pListHead (Some a0) ht in
    let ht := set_pListTail None ht in
    let ht := set_pInternalPointer (pListHead ht) ht in
    update a0 (set_pListLast None) ;;
    (if (1 <? i)%nat then
       a1 ← tmp_at arTmp 1;
       update a0 (set_pListNext (Some a1)) ;;
       relink_loop arTmp 1 (i - 2) ;;
       a ← tmp_at arTmp (i - 1);
       prev ← tmp_at arTmp (i - 2);
       update a (set_pListLast (Some prev)) ;;
       update a (set_pListNext None)
     else update a0 (set_pListNext None)) ;;
    last ← tmp_at arTmp (i - 1);
    let ht := set_pListTail (Some last) ht in
    if renumber then ht ← zend_hash_reindex ht false; mret (SUCCESS, ht)
    else mret (SUCCESS, ht).

(** [memcmp(x, y, n)] *)
Fixpoint memcmp (n : nat) (x y : list Z) : Z :=
  match n, x, y with
  | S n, a :: x, b :: y => if a =? b then memcmp n x y else a - b
  | _, _, _ => 0
  end.

(** The key part of an ordered comparison; 0 when the keys are the same. *)
Definition compare_keys (b1 b2 : Bucket V) : Z :=
  if (nKeyLength b1 =? 0) && (nKeyLength b2 =? 0) then
    if b_h b1 =? b_h b2 then 0 else if b_h b2 <? b_h b1 then 1 else -1
  else
    let result := s32 (nKeyLength b1 - nKeyLength b2) in
    if result =? 0 then memcmp (Z.to_nat (nKeyLength b1)) (key_bytes b1) (key_bytes b2) else result.

(** The loop of [zend_hash_compare]. *)
Fixpoint compare_loop (fuel : nat) (ht2 : HashTable) (compar : V -> V -> Z) (ordered : bool)
    (p1 p2 : option ptr) : hcmd Z :=
  match p1 with
  | None => mret 0
  | Some q1 =>
      match fuel with
      | O => cfault
      | S fuel =>
          b1 ← load q1;
          v1 ← load_data q1;
          if ordered then
            match p2 with
            | None => mret 1
            | Some q2 =>
                b2 ← load q2;
                let result := compare_keys b1 b2 in
                if result =? 0 then
                  v2 ← load_data q2;
                  let result := compar v1 v2 in
                  if result =? 0 then
                    compare_loop fuel ht2 compar ordered (pListNext b1) (pListNext b2)
                  else mret result
                else mret result
            end
          else
            '(r, d) ← (if nKeyLength b1 =? 0 then zend_hash_index_find ht2 (b_h b1)
                       else zend_hash_quick_find ht2 (bucket_keyarg b1) (b_h b1));
            match r, d with
            | SUCCESS, Some d =>
                v2 ← deref d;
                let result := compar v1 v2 in
                if result =? 0 then compare_loop fuel ht2 compar ordered (pListNext b1) p2
                else mret result
            | _, _ => mret 1
            end
      end
  end.

(** The guards are taken on [ht1], then on [ht2]. *)
Definition zend_hash_compare (ht1 ht2 : HashTable) (compar : V -> V -> Z) (ordered : bool) :
    hcmd (guarded (HashTable * Z)) :=
  let '(deep, ht1) := HASH_PROTECT_RECURSION ht1 in
  if deep then mret (Bailout ht1 (ht2, 0))
  else
    let '(deep, ht2) := HASH_PROTECT_RECURSION ht2 in
    if deep then mret (Bailout ht1 (ht2, 0))
    else
      let result := s32 (nNumOfElements ht1 - nNumOfElements ht2) in
      result ← (if result =? 0 then
                  compare_loop (loop_bound ht1) ht2 compar ordered (pListHead ht1)
                    (if ordered then pListHead ht2 else None)
                else mret result);
      mret (Finished (HASH_UNPROTECT_RECURSION ht1) (HASH_UNPROTECT_RECURSION ht2, result)).

(** [while ((p = p->pListNext))] of [zend_hash_minmax] *)
Fixpoint minmax_loop (fuel : nat) (compar : bucket_compare) (flag : bool) (res p : ptr) : hcmd ptr :=
  match fuel with
  | O => cfault
  | S fuel =>
      b ← load p;
      match pListNext b with
      | None => mret res
      | Some p =>
          c ← (fun s => Some (compar s res p, s));
          let res := if flag then (if c <? 0 then p else res) else (if 0 <? c then p else res) in
          minmax_loop fuel compar flag res p
      end
  end.

Definition zend_hash_minmax (ht : HashTable) (compar : bucket_compare) (flag : bool) :
    hcmd (zresult * option dataloc) :=
  if nNumOfElements ht =? 0 then mret (FAILURE, None)
  else
    match pListHead ht with
    | None => cfault
    | Some p =>
        res ← minmax_loop (loop_bound ht) compar flag p p;
        d ← data_loc res;
        mret (SUCCESS, Some d)
    end.

End ops.

Section rules.
Context {V : Type} {AL : Allocator}.
Implicit Types (m : gmap ptr (Bucket V)) (b : Bucket V) (p q : ptr) (L c : list ptr).
Implicit Types (s : store (Bucket V) V) (ht : HashTable).

Lemma wp_collect fuel L1 L2 Q s :
  dll list_links (nodes s) (L1 ++ L2) -> (length L2 < fuel)%nat -> Q L2 s ->
  wp (collect fuel (head L2)) Q s.
Proof.
  revert L1 L2 Q. induction fuel as [|fuel IH]; intros L1 L2 Q Hd Hlen HQ; [lia|].
  destruct L2 as [|p L2]; simpl; [by wp_step|].
  destruct (dll_lookup _ _ _ _ _ Hd) as (b & Hb & _ & Hnext). wp_step. wp_step. wp_step.
  change (pListNext b) with (lnext list_links b). rewrite Hnext.
  apply (IH (L1 ++ [p])); [by rewrite <- app_assoc|simpl in Hlen; lia|]. by wp_step.
Qed.

(** [m'] differs from [m] at most in the order links of the nodes of [L]. *)
Definition relinked (m m' : gmap ptr (Bucket V)) (L : list ptr) : Prop :=
  (forall q, strip_list <$> m' !! q = strip_list <$> m !! q) /\
  (forall q, q ∉ L -> m' !! q = m !! q).

Lemma relinked_refl m L : relinked m m L.
Proof. done. Qed.

Lemma relinked_update m m' L p b f :
  relinked m m' L -> p ∈ L -> m' !! p = Some b -> strip_list (f b) = strip_list b ->
  relinked m (<[p := f b]> m') L.
Proof.
  intros [H1 H2] Hp Hb Hf. split.
  - intros q. destruct (decide (q = p)) as [->|Hq]; [|by rewrite lookup_insert_ne].
    rewrite lookup_insert_eq, <- H1, Hb. simpl. by rewrite Hf.
  - intros q Hq. rewrite lookup_insert_ne; [by apply H2|]. by intros ->.
Qed.

Lemma wp_tmp_at arTmp j p Q s : arTmp !! j = Some p -> Q p s -> wp (tmp_at (V := V) arTmp j) Q s.
Proof. intros Hj HQ. unfold tmp_at. rewrite Hj. by wp_step. Qed.

(** Setting both links of the node at position [j]. *)
Definition set_links (l n : option ptr) (b : Bucket V) : Bucket V := set_pListNext n (set_pListLast l b).

(** The links of the first [j] nodes are those of their positions in [L]. *)
Definition linked_upto (m : gmap ptr (Bucket V)) (L : list ptr) (j : nat) : Prop :=
  forall i p, (i < j)%nat -> L !! i = Some p ->
    lk list_links <$> m !! p = Some (if decide (i = O) then None else L !! (i - 1)%nat, L !! (i + 1)%nat).

Lemma linked_upto_step m L j p b l n :
  NoDup L -> linked_upto m L j -> L !! j = Some p -> m !! p = Some b ->
  l = (if decide (j = O) then None else L !! (j - 1)%nat) -> n = L !! (j + 1)%nat ->
  linked_upto (<[p := set_links l n b]> m) L (S j).
Proof.
  intros HND Hl Hp Hb -> -> i q Hi Hq. destruct (decide (i = j)) as [->|Hij].
  - assert (q = p) as -> by congruence. rewrite lookup_insert_eq. done.
  - rewrite lookup_insert_ne; [apply Hl; [lia|done]|]. intros ->. apply Hij.
    by eapply NoDup_lookup.
Qed.

Lemma linked_upto_dll m L : NoDup L -> linked_upto m L (length L) -> dll list_links m L.
Proof.
  intros HND Hl. apply dll_pointwise; [done|]. intros L1 p L2 ->.
  rewrite (Hl (length L1) p); [|rewrite length_app; simpl; lia|by apply list_lookup_middle].
  f_equal. f_equal.
  - case_decide as H0; [by destruct L1|]. rewrite last_lookup, lookup_app_l by lia.
    f_equal. lia.
  - rewrite lookup_app_r by lia. replace (length L1 + 1 - length L1)%nat with 1%nat by lia. simpl.
    by rewrite head_lookup.
Qed.

Lemma relinked_is_Some m m' L q : relinked m m' L -> is_Some (m !! q) -> is_Some (m' !! q).
Proof. intros [H _] [b Hb]. specialize (H q). rewrite Hb in H. destruct (m' !! q); [done|done]. Qed.

Lemma wp_relink_loop m0 L j n Q s :
  NoDup L -> (forall q, q ∈ L -> is_Some (m0 !! q)) -> (0 < j)%nat -> (j + n + 1 = length L)%nat ->
  relinked m0 (nodes s) L -> linked_upto (nodes s) L j ->
  (forall m', relinked m0 m' L -> linked_upto m' L (j + n) -> Q tt (set_nodes m' s)) ->
  wp (relink_loop L j n) Q s.
Proof.
  intros HND HmL. revert j s. induction n as [|n IH]; intros j s Hj Hlen Hr Hl HQ; simpl.
  { wp_step. rewrite Nat.add_0_r in HQ. specialize (HQ (nodes s) Hr Hl). by destruct s. }
  destruct (lookup_lt_is_Some_2 L j) as [a Ha]; [lia|].
  destruct (lookup_lt_is_Some_2 L (j - 1)) as [prev Hprev]; [lia|].
  destruct (lookup_lt_is_Some_2 L (j + 1)) as [next Hnext]; [lia|].
  assert (a ∈ L) as HaL by by eapply list_elem_of_lookup_2.
  wp_step. eapply wp_tmp_at; [done|]. wp_step. eapply wp_tmp_at; [done|].
  pose proof (relinked_is_Some _ _ _ a Hr (HmL a HaL)) as [b Hb].
  wp_step. eapply wp_update; [done|]. rewrite (alter_insert_Some _ _ _ b) by done.
  wp_step. eapply wp_tmp_at; [done|]. wp_step. eapply wp_update; [apply lookup_insert_eq|].
  cbn [nodes blocks dtor_trace set_nodes].
  rewrite (alter_insert_Some _ _ _ _ (lookup_insert_eq _ _ _)), insert_insert_eq.
  apply (IH (j + 1)%nat); [lia|lia| | |].
  - apply (relinked_update m0 (nodes s) L a b (set_links (Some prev) (Some next))); [done..|by destruct b].
  - replace (j + 1)%nat with (S j) by lia. eapply linked_upto_step; [done..| |done].
    by rewrite decide_False by lia.
  - intros m' Hr' Hl'. apply HQ; [done|]. by replace (j + S n)%nat with (j + 1 + n)%nat by lia.
Qed.

Lemma slots_ok_same m ht L L' :
  (forall p, p ∈ L' <-> p ∈ L) -> slots_ok m ht L -> slots_ok m ht L'.
Proof.
  intros HL HS i o Ho. destruct (HS i o Ho) as (c & -> & Hc & Hin). exists c.
  split_and!; [done..|]. intros p. by rewrite Hin, HL.
Qed.

(** The struct of a table whose order list became [L]. *)
Definition ordered_ht (ht : HashTable) (L : list ptr) : HashTable :=
  set_pListTail (last L) (set_pInternalPointer (head L) (set_pListHead (head L) ht)).

Lemma relinked_rep s ht L L' m' :
  ht_rep s ht L -> L' ≡ₚ L -> relinked (nodes s) m' L' -> dll list_links m' L' ->
  ht_rep (set_nodes m' s) (ordered_ht ht L') L' /\ contents (set_nodes m' s) L' = contents s L' /\
  same_rest s L (set_nodes m' s) L'.
Proof.
  intros HR HP [Hs Hout] Hd.
  assert (forall p, p ∈ L' <-> p ∈ L) as Hin by (intros p; by rewrite HP).
  assert (L' ⊆ L) as Hsub by (intros p; apply Hin).
  assert (agree payload (nodes s) m' L') as Ha.
  { apply (agree_weaken strip_list); [apply strip_list_payload|]. by intros q _. }
  destruct (rep_order _ _ _ HR) as (_ & _ & _ & Hn & Hlt). pose proof (Permutation_length HP) as Hlen.
  split_and!.
  - split; simpl.
    + split_and!; [done..| |]; simpl; rewrite Hlen; done.
    + destruct (rep_geometry _ _ _ HR) as [Hk [(? & ? & ->)|?]]; (split; [done|]); [|by right].
      left. split_and!; [done..|]. by apply Permutation_nil_r.
    + eapply (slots_ok_agree (nodes s)); [|done|done|eapply slots_ok_same; [exact Hin|apply HR]].
      apply (agree_weaken strip_list); [apply strip_list_chain_obs|]. by intros q _.
    + eapply keys_ok_agree; [exact Ha|]. eapply keys_ok_subset; [exact Hsub|apply HR].
    + eapply (buckets_ok_agree s); [exact Ha|by apply agree_blocks_eq|].
      eapply buckets_ok_subset; [exact Hsub|apply HR].
    + eapply blocks_ok_agree; [exact Ha|]. eapply blocks_ok_subset; [exact Hsub|apply HR].
    + eapply (next_free_ok_agree (nodes s)); [exact Ha|].
      destruct (next_free_ok_subset _ _ _ _ Hsub (rep_next _ _ _ HR)). by split.
    + intros p. simpl. apply head_Some_elem_of.
  - apply contents_agree; [done|by apply agree_blocks_eq].
  - assert (same_rest s L s L') as Hsr.
    { split; [intros; by rewrite Hin|]. intros a v. assert (owned s L' a <-> owned s L a) as ->; [|done].
      unfold owned. by setoid_rewrite Hin. }
    eapply same_rest_trans; [exact Hsr|]. by apply same_rest_agree.
Qed.

(** The relinking of the buckets in the order of [L]. *)
Lemma wp_relink m0 L a0 Q s :
  NoDup L -> (forall q, q ∈ L -> is_Some (m0 !! q)) -> nodes s = m0 -> head L = Some a0 ->
  (forall m', relinked m0 m' L -> dll list_links m' L -> Q tt (set_nodes m' s)) ->
  wp (update a0 (set_pListLast None) ;;
      if (1 <? length L)%nat then
        a1 ← tmp_at L 1;
        update a0 (set_pListNext (Some a1)) ;;
        relink_loop L 1 (length L - 2) ;;
        a ← tmp_at L (length L - 1);
        prev ← tmp_at L (length L - 2);
        update a (set_pListLast (Some prev)) ;;
        update a (set_pListNext None)
      else update a0 (set_pListNext None)) Q s.
Proof.
  intros HND HmL Hs Hhd HQ. rewrite head_lookup in Hhd.
  assert (a0 ∈ L) as Ha0 by by eapply list_elem_of_lookup_2.
  destruct (HmL a0 Ha0) as [b0 Hb0]. rewrite <- Hs in Hb0. wp_step. eapply wp_update; [exact Hb0|].
  rewrite (alter_insert_Some _ _ _ b0) by done.
  assert (forall n, relinked m0 (<[a0 := set_links None n b0]> (nodes s)) L) as Hr0.
  { intros n. apply (relinked_update m0 (nodes s)); [by rewrite Hs|done|done|by destruct b0]. }
  assert (linked_upto (nodes s) L 0) as Hl0 by (intros i p ?; lia).
  destruct (Nat.ltb_spec 1 (length L)) as [Hlen|Hlen].
  - destruct (lookup_lt_is_Some_2 L 1) as [a1 Ha1]; [lia|].
    destruct (lookup_lt_is_Some_2 L (length L - 1)) as [a Ha]; [lia|].
    destruct (lookup_lt_is_Some_2 L (length L - 2)) as [prev Hprev]; [lia|].
    wp_step. eapply wp_tmp_at; [done|]. wp_step. eapply wp_update; [apply lookup_insert_eq|].
    cbn [nodes blocks dtor_trace set_nodes].
    rewrite (alter_insert_Some _ _ _ _ (lookup_insert_eq _ _ _)), insert_insert_eq.
    wp_step. apply (wp_relink_loop m0); [done|done|lia|lia|apply Hr0| |].
    { eapply (linked_upto_step _ _ 0); [done..|exact (eq_sym Ha1)]. }
    intros m' Hr' Hl'. replace (1 + (length L - 2))%nat with (length L - 1)%nat in Hl' by lia.
    wp_step. eapply wp_tmp_at; [done|]. wp_step. eapply wp_tmp_at; [done|].
    assert (a ∈ L) as HaL by by eapply list_elem_of_lookup_2.
    destruct (relinked_is_Some _ _ _ a Hr' (HmL a HaL)) as [b Hb].
    wp_step. eapply wp_update; [exact Hb|]. cbn [nodes blocks dtor_trace set_nodes].
    rewrite (alter_insert_Some _ _ _ b) by done. eapply wp_update; [apply lookup_insert_eq|].
    cbn [nodes blocks dtor_trace set_nodes].
    rewrite (alter_insert_Some _ _ _ _ (lookup_insert_eq _ _ _)), insert_insert_eq.
    apply HQ.
    + by apply (relinked_update m0 m' L a b (set_links (Some prev) None)); [..|by destruct b].
    + apply linked_upto_dll; [done|].
      assert (length L = S (length L - 1)) as HS by lia. rewrite HS.
      eapply linked_upto_step; [done|exact Hl'|done|done| |].
      * rewrite decide_False by lia. by replace (length L - 1 - 1)%nat with (length L - 2)%nat by lia.
      * symmetry. apply lookup_ge_None_2. lia.
  - eapply wp_update; [apply lookup_insert_eq|]. cbn [nodes blocks dtor_trace set_nodes].
    rewrite (alter_insert_Some _ _ _ _ (lookup_insert_eq _ _ _)), insert_insert_eq.
    apply HQ; [apply Hr0|]. apply linked_upto_dll; [done|].
    assert (length L = 1%nat) as HL1.
    { destruct L as [|? [|]]; simpl in *; [done|done|lia]. }
    rewrite HL1. eapply (linked_upto_step _ _ 0); [done..|]. symmetry. apply lookup_ge_None_2. lia.
Qed.

Lemma relinked_seq s ht L :
  ht_rep s ht L -> L <> [] ->
  (forall p b, p ∈ L -> nodes s !! p = Some b -> IS_INTERNED (arKey b) = false) ->
  seq_rep false s ht L.
Proof.
  intros HR HL Hi. destruct (rep_geometry _ _ _ HR) as [Hk [(_ & _ & ?)|[Hm _]]]; [done|].
  split; try apply HR; try done. by apply renumber_keys, (rep_contents_keys _ _ _ HR).
Qed.

End rules.

(** ** Comparison *)

Section compare.
Context {V : Type} {AL : Allocator} (compar : V -> V -> Z).
Implicit Types (m : gmap ptr (Bucket V)) (b : Bucket V) (p q : ptr) (L c : list ptr).
Implicit Types (s : store (Bucket V) V) (ht : HashTable) (E : list (hkey * V)).

(** The comparison of two elements that [compare_keys] makes, on keys. *)
Definition key_compare (k1 k2 : hkey) : Z :=
  match k1, k2 with
  | HInt a, HInt b => if a =? b then 0 else if b <? a then 1 else -1
  | HStr x, HStr y =>
      let r := s32 (Z.of_nat (length x) - Z.of_nat (length y)) in
      if r =? 0 then memcmp (length x) x y else r
  | HStr x, HInt _ => s32 (Z.of_nat (length x))
  | HInt _, HStr y => s32 (- Z.of_nat (length y))
  end.

Fixpoint compare_ordered (E1 E2 : list (hkey * V)) : Z :=
  match E1, E2 with
  | [], _ => 0
  | _ :: _, [] => 1
  | (k1, v1) :: E1, (k2, v2) :: E2 =>
      if key_compare k1 k2 =? 0 then
        if compar v1 v2 =? 0 then compare_ordered E1 E2 else compar v1 v2
      else key_compare k1 k2
  end.

Fixpoint compare_unordered (E1 E2 : list (hkey * V)) : Z :=
  match E1 with
  | [] => 0
  | (k1, v1) :: E1 =>
      match om_lookup k1 E2 with
      | Some v2 => if compar v1 v2 =? 0 then compare_unordered E1 E2 else compar v1 v2
      | None => 1
      end
  end.

Lemma memcmp_zero (x y : list Z) : length x = length y -> memcmp (length x) x y = 0 <-> x = y.
Proof.
  revert y. induction x as [|a x IH]; intros [|b y] Hl; simpl in *; try done.
  destruct (Z.eqb_spec a b) as [->|Hab]; [rewrite IH by lia; naive_solver|].
  split; [lia|]. intros [= -> _]. done.
Qed.

Lemma s32_zero x : - 2 ^ 32 < x < 2 ^ 32 -> s32 x = 0 <-> x = 0.
Proof.
  intros Hx. split; [|by intros ->]. unfold wrap_s. change (32 - 1) with 31. intros He.
  pose proof (Z.div_mod (x + 2 ^ 31) (2 ^ 32) ltac:(lia)) as Hdm.
  assert ((x + 2 ^ 31) mod 2 ^ 32 = 2 ^ 31) as Hm by lia. rewrite Hm in Hdm.
  assert (x = 2 ^ 32 * ((x + 2 ^ 31) / 2 ^ 32)) as Hx' by lia.
  assert ((x + 2 ^ 31) / 2 ^ 32 = 0) as H0 by nia. lia.
Qed.

Definition key_fits (k : hkey) : Prop :=
  match k with
  | HStr x => (0 < length x)%nat /\ Z.of_nat (length x) < 2 ^ 32
  | HInt _ => True
  end.

Lemma bucket_key_fits p b : bucket_ok p b -> key_fits (bucket_key b).
Proof.
  intros Hok. unfold bucket_key. destruct (Z.eqb_spec (nKeyLength b) 0) as [E|E]; [done|]. simpl.
  destruct (bucket_ok_str _ _ Hok E) as (_ & Hl & _). destruct Hok as [[_ Hlt] _].
  rewrite length_take. lia.
Qed.

Lemma key_compare_zero k1 k2 : key_fits k1 -> key_fits k2 -> key_compare k1 k2 = 0 <-> k1 = k2.
Proof.
  destruct k1 as [x|a], k2 as [y|b]; simpl; intros H1 H2.
  - destruct (Z.eqb_spec (s32 (Z.of_nat (length x) - Z.of_nat (length y))) 0) as [E|E].
    + rewrite s32_zero in E by lia. rewrite memcmp_zero by lia. naive_solver.
    + split; [done|]. intros [= ->]. destruct E. by rewrite Z.sub_diag.
  - rewrite s32_zero by lia. split; [lia|done].
  - rewrite s32_zero by lia. split; [lia|done].
  - destruct (Z.eqb_spec a b) as [->|Hab]; [naive_solver|]. destruct (b <? a); naive_solver.
Qed.

Lemma compare_ordered_zero E1 E2 :
  (forall v w, compar v w = 0 <-> v = w) -> length E1 = length E2 ->
  Forall key_fits (om_keys E1) -> Forall key_fits (om_keys E2) ->
  compare_ordered E1 E2 = 0 <-> E1 = E2.
Proof.
  intros Hc. revert E2. induction E1 as [|[k1 v1] E1 IH]; intros [|[k2 v2] E2] Hl H1 H2; try done.
  unfold om_keys in *. rewrite fmap_cons in H1, H2. apply Forall_cons in H1 as [Hk1 H1].
  apply Forall_cons in H2 as [Hk2 H2]. simpl in *. pose proof (key_compare_zero k1 k2 Hk1 Hk2) as Hk.
  destruct (Z.eqb_spec (key_compare k1 k2) 0) as [E|E].
  - pose proof (Hc v1 v2) as Hv. destruct (Z.eqb_spec (compar v1 v2) 0) as [E'|E'].
    + rewrite IH by (done || lia). naive_solver.
    + naive_solver.
  - naive_solver.
Qed.

Lemma compare_unordered_zero E1 E2 :
  (forall v w, compar v w = 0 <-> v = w) ->
  compare_unordered E1 E2 = 0 <-> forall k v, (k, v) ∈ E1 -> om_lookup k E2 = Some v.
Proof.
  intros Hc. induction E1 as [|[k1 v1] E1 IH]; simpl; [set_solver|].
  destruct (om_lookup k1 E2) as [v2|] eqn:Hl.
  - pose proof (Hc v1 v2) as Hv. destruct (Z.eqb_spec (compar v1 v2) 0) as [E'|E'].
    + rewrite IH. split; intros H k v; [intros [[= -> ->]|Hin]%elem_of_cons; [naive_solver|eauto]|].
      intros Hin. apply H. set_solver.
    + split; [done|]. intros H. specialize (H k1 v1 ltac:(set_solver)). naive_solver.
  - split; [done|]. intros H. specialize (H k1 v1 ltac:(set_solver)). naive_solver.
Qed.

(** Same size and inclusion of distinct elements is equality up to order. *)
Lemma same_elements E1 E2 :
  NoDup (om_keys E1) -> NoDup (om_keys E2) -> length E1 = length E2 ->
  (forall k v, (k, v) ∈ E1 -> om_lookup k E2 = Some v) <-> E1 ≡ₚ E2.
Proof.
  intros H1 H2 Hl. split.
  - intros H. apply submseteq_length_Permutation; [|lia].
    apply NoDup_submseteq; [by eapply NoDup_fmap_1|]. intros [k v] Hin. by apply om_lookup_Some_elem, H.
  - intros HP k v Hin. rewrite HP in Hin. by apply om_lookup_elem.
Qed.

Lemma compare_keys_key p1 p2 b1 b2 :
  bucket_ok p1 b1 -> bucket_ok p2 b2 -> compare_keys b1 b2 = key_compare (bucket_key b1) (bucket_key b2).
Proof.
  intros H1 H2. unfold compare_keys, bucket_key.
  destruct (Z.eqb_spec (nKeyLength b1) 0) as [E1|E1], (Z.eqb_spec (nKeyLength b2) 0) as [E2|E2]; simpl.
  - done.
  - destruct (bucket_ok_str _ _ H2 E2) as (_ & Hl2 & _). destruct H2 as [[_ Hlt] _]. rewrite E1, Z.sub_0_l.
    rewrite take_ge by lia. rewrite <- Hl2.
    destruct (Z.eqb_spec (s32 (- nKeyLength b2)) 0) as [E|E]; [|done]. rewrite s32_zero in E; lia.
  - destruct (bucket_ok_str _ _ H1 E1) as (_ & Hl1 & _). destruct H1 as [[_ Hlt] _]. rewrite E2, Z.sub_0_r.
    rewrite take_ge by lia. rewrite <- Hl1.
    destruct (Z.eqb_spec (s32 (nKeyLength b1)) 0) as [E|E]; [|done]. rewrite s32_zero in E; lia.
  - destruct (bucket_ok_str _ _ H1 E1) as (_ & Hl1 & _), (bucket_ok_str _ _ H2 E2) as (_ & Hl2 & _).
    rewrite !take_ge by lia. rewrite <- Hl1, <- Hl2. rewrite Hl1, Nat2Z.id. done.
Qed.

Lemma wp_compare_ordered fuel s ht ht1 L1' L1 ht2 L2' L2 Q :
  ht_rep s ht1 (L1' ++ L1) -> ht_rep s ht2 (L2' ++ L2) -> (length L1 < fuel)%nat ->
  Q (compare_ordered (contents s L1) (contents s L2)) s ->
  wp (compare_loop fuel ht compar true (head L1) (head L2)) Q s.
Proof.
  revert L1' L1 L2' L2. induction fuel as [|fuel IH]; intros L1' L1 L2' L2 HR1 HR2 Hlen HQ; [lia|].
  destruct L1 as [|p1 L1]; simpl; [by wp_step|].
  destruct (contents_mid _ _ _ _ _ HR1) as (b1 & v1 & Hb1 & Hok1 & Hv1 & He1 & _).
  rewrite (contents_cons _ _ _ _ He1) in HQ.
  wp_step. wp_step. wp_step. eapply wp_load_data; [done..|].
  destruct L2 as [|p2 L2]; simpl; [by wp_step|].
  destruct (contents_mid _ _ _ _ _ HR2) as (b2 & v2 & Hb2 & Hok2 & Hv2 & He2 & _).
  rewrite (contents_cons _ _ _ _ He2) in HQ. simpl in HQ.
  wp_step. wp_step. rewrite (compare_keys_key p1 p2) by done.
  destruct (key_compare (bucket_key b1) (bucket_key b2) =? 0); [|by wp_step].
  wp_step. eapply wp_load_data; [done..|]. destruct (compar v1 v2 =? 0); [|by wp_step].
  destruct (rep_order _ _ _ HR1) as (HL1 & _), (rep_order _ _ _ HR2) as (HL2 & _).
  destruct (dll_lookup _ _ _ _ _ HL1) as (? & Hx1 & _ & Hn1), (dll_lookup _ _ _ _ _ HL2) as (? & Hx2 & _ & Hn2).
  simplify_eq. simpl in Hn1, Hn2. rewrite Hn1, Hn2.
  apply (IH (L1' ++ [p1]) _ (L2' ++ [p2])); [by rewrite <- app_assoc..|simpl in Hlen; lia|done].
Qed.

Lemma wp_compare_unordered fuel s ht1 L1' L1 ht2 L2 Q :
  ht_rep s ht1 (L1' ++ L1) -> ht_rep s ht2 L2 -> (length L1 < fuel)%nat ->
  Q (compare_unordered (contents s L1) (contents s L2)) s ->
  wp (compare_loop fuel ht2 compar false (head L1) None) Q s.
Proof.
  revert L1' L1. induction fuel as [|fuel IH]; intros L1' L1 HR1 HR2 Hlen HQ; [lia|].
  destruct L1 as [|p1 L1]; simpl; [by wp_step|].
  destruct (contents_mid _ _ _ _ _ HR1) as (b1 & v1 & Hb1 & Hok1 & Hv1 & He1 & _).
  rewrite (contents_cons _ _ _ _ He1) in HQ. simpl in HQ.
  destruct (rep_order _ _ _ HR1) as (HL1 & _).
  destruct (dll_lookup _ _ _ _ _ HL1) as (? & Hx1 & _ & Hn1). simplify_eq. simpl in Hn1.
  wp_step. wp_step. wp_step. eapply wp_load_data; [done..|]. wp_step.
  assert (forall o, found_ok s L2 (bucket_key b1) o ->
    wp (match o with Some p => d ← data_loc p; mret (SUCCESS, Some d) | None => mret (FAILURE, None) end)
      (fun a s' => wp (let '(r, d) := a in match r, d with
         | SUCCESS, Some d => v2 ← deref d; (if compar v1 v2 =? 0 then
             compare_loop fuel ht2 compar false (pListNext b1) None else mret (compar v1 v2))
         | _, _ => mret 1 end) Q s') s) as Hgo.
  { intros o Ho. eapply wp_find_result; [exact HR2|exact Ho| |].
    - intros v2 d Hl (a & [= <-] & Hd)%dest_ok_deref. rewrite Hl in HQ. wp_step.
      exists v2, s. split; [done|]. destruct (compar v1 v2 =? 0); [|by wp_step].
      rewrite Hn1. apply (IH (L1' ++ [p1])); [by rewrite <- app_assoc|done|simpl in Hlen; lia|done].
    - intros Hl. rewrite Hl in HQ. by wp_step. }
  destruct (Z.eqb_spec (nKeyLength b1) 0) as [E|E].
  - unfold zend_hash_index_find. wp_step.
    assert (bucket_key b1 = HInt (b_h b1)) as Hk by by apply bucket_key_int. rewrite Hk in Hgo.
    eapply wp_int_search; [done|exact Hgo].
  - destruct (bucket_keyarg_ok s ht1 (L1' ++ p1 :: L1) p1 b1) as (Hka & Hh & Hk); [done|set_solver|done..|].
    unfold zend_hash_quick_find. wp_step. rewrite Hh. rewrite Hk in Hgo.
    eapply wp_str_search; [done..|exact Hgo].
Qed.

End compare.

Section spec.
Context {V : Type} {AL : Allocator}.
Implicit Types (s : store (Bucket V) V) (ht : HashTable) (L : list ptr).



Lemma wp_minmax_loop (compar : bucket_compare) (rank : ptr -> Z) (flag : bool) fuel ht L1 p L2 res Q s :
  ht_rep s ht (L1 ++ p :: L2) -> (length L2 < fuel)%nat ->
  (forall x y, (compar s x y < 0 <-> rank x < rank y) /\ (0 < compar s x y <-> rank y < rank x)) ->
  res ∈ L1 ++ [p] ->
  (forall x, x ∈ L1 ++ [p] -> if flag then rank x <= rank res else rank res <= rank x) ->
  (forall res, res ∈ L1 ++ p :: L2 ->
    (forall x, x ∈ L1 ++ p :: L2 -> if flag then rank x <= rank res else rank res <= rank x) -> Q res s) ->
  wp (minmax_loop fuel compar flag res p) Q s.
Proof.
  revert L1 p L2 res. induction fuel as [|fuel IH]; intros L1 p L2 res HR Hlen Hcmp Hres Hbest HQ; [lia|].
  destruct (rep_order _ _ _ HR) as (HL & _).
  destruct (dll_lookup _ _ _ _ _ HL) as (b & Hb & _ & Hnext). simpl. wp_step. wp_step.
  simpl in Hnext. rewrite Hnext. destruct L2 as [|q L2]; simpl; [wp_step; by apply HQ|].
  wp_step. exists (compar s res q), s. split; [done|].
  destruct (Hcmp res q) as [Hlt Hgt]. rewrite (cons_middle p), app_assoc in HR, HQ.
  assert (forall x, x ∈ (L1 ++ [p]) ++ [q] <-> x ∈ L1 ++ [p] \/ x = q) as Hin by (intros; apply elem_of_snoc).
  destruct flag; [destruct (Z.ltb_spec (compar s res q) 0)|destruct (Z.ltb_spec 0 (compar s res q))];
    (apply (IH (L1 ++ [p]) q L2); [done|simpl in Hlen; lia|done|apply Hin; tauto| |done]);
    intros x [Hx| ->]%Hin; try specialize (Hbest x Hx); simpl in *; lia.
Qed.

(** [zend_hash_minmax] yields the address of a greatest (or least) element
    of a non-empty table, for any comparison that ranks the elements. *)
Lemma zend_hash_minmax_correct s ht L (compar : bucket_compare (V := V)) (rank : ptr -> Z) (flag : bool) :
  ht_rep s ht L ->
  (forall x y, (compar s x y < 0 <-> rank x < rank y) /\ (0 < compar s x y <-> rank y < rank x)) ->
  wp (zend_hash_minmax ht compar flag) (fun r s' => s' = s /\
    if decide (L = []) then r = (FAILURE, None)
    else exists p k v, p ∈ L /\ entry s p = Some (k, v) /\ r.1 = SUCCESS /\ dest_ok s L k v r.2 /\
      forall x, x ∈ L -> if flag then rank x <= rank p else rank p <= rank x) s.
Proof.
  intros HR Hcmp. unfold zend_hash_minmax. destruct (rep_order _ _ _ HR) as (_ & Hhd & _ & Hn & _).
  rewrite Hn. destruct L as [|p L]; [simpl; by wp_step|].
  destruct (Z.eqb_spec (Z.of_nat (length (p :: L))) 0) as [E|_]; [done|]. rewrite Hhd. cbn [head]. wp_step.
  eapply (wp_minmax_loop compar rank flag _ ht [] p L); [done| |done|set_solver| |].
  - pose proof (loop_bound_length _ _ _ HR) as Hl. simpl in Hl. lia.
  - intros x Hx. assert (x = p) as -> by set_solver. destruct flag; lia.
  - simpl. intros res Hres Hbest. destruct (rep_entry _ _ _ _ HR Hres) as (b & v & Hb & _ & Hv & He).
    wp_step. eapply wp_data_loc; [done|]. wp_step. split; [done|].
    exists res, (bucket_key b), v. split_and!; try done. by exists res, b.
Qed.

(** [zend_hash_reindex] numbers the elements (or, with [only_integer_keys],
    the integer-keyed ones) from 0 in order, keeps everything else, and sets
    [nNextFreeElement] to their number. *)
Theorem zend_hash_reindex_correct s ht L only :
  ht_rep s ht L ->
  (only = false -> forall p b, p ∈ L -> nodes s !! p = Some b -> IS_INTERNED (arKey b) = false) ->
  wp (zend_hash_reindex ht only) (fun ht' s' => ht_rep s' ht' L /\
    contents s' L = renumber only 0 (contents s L) /\ same_rest s L s' L /\
    dtor_trace s' = dtor_trace s /\ nNextFreeElement ht' = renumbered only (contents s L)) s.
Proof.
  intros HR Hint. destruct L as [|p L].
  - unfold zend_hash_reindex. destruct (rep_order _ _ _ HR) as (_ & _ & _ & -> & _). simpl. wp_step.
    split_and!; try done. destruct HR. split; try done. split; [simpl; unfold LONG_MAX; lia|set_solver].
  - destruct (rep_geometry _ _ _ HR) as [Hk [(_ & _ & ?)|[Hm _]]]; [done|].
    eapply (wp_reindex s ht (p :: L)); [|done|].
    + split; try apply HR; try done. by apply renumber_keys, (rep_contents_keys _ _ _ HR).
    + intros s' ht' HR' Hc Hrest Htr Hnf _ _ _. done.
Qed.

End spec.

(** ** Instances, and the keys that renumbering leaves behind *)

Section instances.
Import Demo.

(** The element's value. *)
Definition demo_rank (s : store (Bucket Z) Z) (p : ptr) : Z :=
  match entry s p with Some (_, v) => v | None => 0 end.

(** Descending order of the values. *)
Definition demo_compare : bucket_compare := fun s p q => demo_rank s q - demo_rank s p.



Lemma zend_hash_minmax_witness :
  wp (zend_hash_minmax ht (fun s p q => demo_rank s p - demo_rank s q) true) (fun r s' => s' = st /\
    exists p k v, p ∈ L /\ entry st p = Some (k, v) /\ r.1 = SUCCESS /\ dest_ok st L k v r.2 /\
      forall x, x ∈ L -> demo_rank st x <= demo_rank st p) st.
Proof.
  refine (zend_hash_minmax_correct st ht L (fun s p q => demo_rank s p - demo_rank s q) (demo_rank st)
    true demo_rep _).
  intros x y. lia.
Defined.

Lemma zend_hash_reindex_witness :
  wp (zend_hash_reindex ht true) (fun ht' s' => ht_rep s' ht' L /\
    contents s' L = [(HStr [97; 0], 10); (HInt 0, 20); (HStr [98; 0], 30); (HInt 1, 40)] /\
    same_rest st L s' L /\ dtor_trace s' = dtor_trace st /\ nNextFreeElement ht' = 2) st.
Proof. refine (zend_hash_reindex_correct st ht L true demo_rep _). discriminate. Defined.

(** The interned key "c", whose slot in a table of size 8 is slot 0. *)
Definition key_c : keyarg := KeyArg (KInterned [99; 0]) [99; 0].

(** The first element. *)
Definition first_element (h : HashTable) : cmd dstore (list (hkey * Z)) :=
  fun s => Some (contents s (option_list (pListHead h)), s).

(** Adds an element under [key_c], renumbers all elements, looks [key_c] up. *)
Definition stale_key_run : cmd dstore (zresult * zresult * list (hkey * Z)) :=
  '(_, _, ht) ← _zend_hash_add_or_update uninit ht0 key_c 10 sizeof_ptr HASH_ADD;
  ht ← zend_hash_reindex ht false;
  '(rs, _) ← zend_hash_find ht key_c;
  '(ri, _) ← zend_hash_index_find ht 0;
  E ← first_element ht;
  mret (rs, ri, E).

(** After [zend_hash_reindex(ht, 0)] (as [zend_hash_sort] with renumbering
    does) an interned string key is still found although the table's only
    element is the integer key 0: the loop resets [nKeyLength] but leaves
    [arKey], and the lookup functions accept an equal [arKey] address alone. *)
Example zend_hash_reindex_stale_key :
  fst <$> stale_key_run empty = Some (SUCCESS, SUCCESS, [(HInt 0, 10)]).
Proof. vm_compute. reflexivity. Qed.

(** Merges the source [8 => 20] into the target [0 => 10]. *)
Definition merge_ex_run : cmd dstore (Z * list (hkey * Z)) :=
  '(_, _, target) ← _zend_hash_index_update_or_next_insert uninit ht0 0 10 sizeof_ptr HASH_ADD;
  '(_, _, source) ← _zend_hash_index_update_or_next_insert uninit ht0 8 20 sizeof_ptr HASH_ADD;
  target ← zend_hash_merge_ex uninit target source None sizeof_ptr (fun _ _ _ => true);
  E ← first_element target;
  mret (zend_hash_num_elements target, E).

(** [zend_hash_merge_ex] treats integer keys as the string key NULL of
    length 0, so an element with one integer key overwrites the target's
    element with another one in the same slot. *)
Example zend_hash_merge_ex_integer_keys :
  fst <$> merge_ex_run empty = Some (1, [(HInt 0, 20)]).
Proof. vm_compute. reflexivity. Qed.

End instances.
