(* ===== verification/ZendTsHash.v ===== *)
(** * ZendTsHash: hash tables shared by threads

    Models src/Zend/zend_ts_hash.c in a thread-safe build: a [TsHashTable] is a
    hash table with a reader counter and two mutexes, and every function of the
    file brackets a function of zend_hash.c by [begin_read]/[end_read] or by
    [begin_write]/[end_write].

    Threads are programs of type [prog]: every call of a mutex function, every load
    and every store of the counter is an action of its own, so that threads can
    interleave between any two of them.  The call of a hash table function
    takes time: it starts, other threads may run, it finishes.  It names the tables
    it accesses, so that calls of two threads that overlap and conflict are
    visible as a state ([race]). *)
From S2P Require Import Prelude Memory HashFunc OrderedMap ZendHash ZendHashDestroy ZendHashApply.
From S2P Require Import ZendHashCopy ZendQsort ZendHashSort.
From stdpp Require Import base functions list gmap relations.
Local Open Scope Z_scope.

(** Tables and threads are named by numbers; a thread is named by its position. *)
Abbreviation tid := positive.

Inductive mutex_name := mx_reader_name | mx_writer_name.

#[global] Instance mutex_name_eq_dec : EqDecision mutex_name.
Proof. solve_decision. Defined.

(** A mutex that is free, held by the thread that locked it, or released. *)
Inductive mutex := Unlocked | LockedBy (owner : nat) | Released.

#[global] Instance mutex_eq_dec : EqDecision mutex.
Proof. solve_decision. Defined.

Record TsHashTable := mkTsHashTable {
  hash : HashTable;
  reader : Z;
  mx_reader : mutex;
  mx_writer : mutex
}.

Definition set_hash (ht : HashTable) (T : TsHashTable) : TsHashTable :=
  mkTsHashTable ht (reader T) (mx_reader T) (mx_writer T).
Definition set_reader (r : Z) (T : TsHashTable) : TsHashTable :=
  mkTsHashTable (hash T) r (mx_reader T) (mx_writer T).

Definition get_mutex (m : mutex_name) (T : TsHashTable) : mutex :=
  match m with mx_reader_name => mx_reader T | mx_writer_name => mx_writer T end.
Definition set_mutex (m : mutex_name) (x : mutex) (T : TsHashTable) : TsHashTable :=
  match m with
  | mx_reader_name => mkTsHashTable (hash T) (reader T) x (mx_writer T)
  | mx_writer_name => mkTsHashTable (hash T) (reader T) (mx_reader T) x
  end.

Definition _zend_ts_hash_init (nSize : Z) (pDestructor persistent : bool) : TsHashTable :=
  mkTsHashTable (_zend_hash_init nSize pDestructor persistent) 0 Unlocked Unlocked.

Definition _zend_ts_hash_init_ex (nSize : Z) (pDestructor persistent bApplyProtection : bool) :
    TsHashTable :=
  mkTsHashTable (_zend_hash_init_ex nSize pDestructor persistent bApplyProtection) 0
    Unlocked Unlocked.

(** How a call accesses a table: it only reads it, or it may write to it. *)
Inductive access := Reads | Writes.

#[global] Instance access_eq_dec : EqDecision access.
Proof. solve_decision. Defined.

Section model.
Context {V : Type} {AL : Allocator} (uninit : Bucket V).

(** What the functions of zend_hash.c work on: memory and the table structs. *)
Definition shared : Type := store (Bucket V) V * (tid -> HashTable).

Inductive prog (R : Type) : Type :=
  | Ret (r : R)
  | Bail
  | Lock (t : tid) (m : mutex_name) (k : prog R)
  | Unlock (t : tid) (m : mutex_name) (k : prog R)
  | Release (t : tid) (m : mutex_name) (k : prog R)
  | Load (t : tid) (k : Z -> prog R)
  | Store (t : tid) (v : Z) (k : prog R)
  | Call {A : Type} (fp : list (tid * access)) (c : cmd shared A) (k : A -> prog R).
#[global] Arguments Ret {R} _.
#[global] Arguments Bail {R}.
#[global] Arguments Lock {R} _ _ _.
#[global] Arguments Unlock {R} _ _ _.
#[global] Arguments Release {R} _ _ _.
#[global] Arguments Load {R} _ _.
#[global] Arguments Store {R} _ _ _.
#[global] Arguments Call {R A} _ _ _.

Fixpoint prog_bind_ {R S : Type} (f : R -> prog S) (p : prog R) : prog S :=
  match p with
  | Ret r => f r
  | Bail => Bail
  | Lock t m k => Lock t m (prog_bind_ f k)
  | Unlock t m k => Unlock t m (prog_bind_ f k)
  | Release t m k => Release t m (prog_bind_ f k)
  | Load t k => Load t (fun v => prog_bind_ f (k v))
  | Store t v k => Store t v (prog_bind_ f k)
  | Call fp c k => Call fp c (fun a => prog_bind_ f (k a))
  end.

#[global] Instance prog_ret : MRet prog := fun R => Ret.
#[global] Instance prog_bind : MBind prog := fun R S => prog_bind_.

Definition tsrm_mutex_lock (t : tid) (m : mutex_name) : prog unit := Lock t m (Ret tt).
Definition tsrm_mutex_unlock (t : tid) (m : mutex_name) : prog unit := Unlock t m (Ret tt).
Definition tsrm_mutex_free (t : tid) (m : mutex_name) : prog unit := Release t m (Ret tt).

Definition call {A} (fp : list (tid * access)) (c : cmd shared A) : prog A := Call fp c Ret.

(** ** Management functions *)

(** [++(ht->reader)] and [--(ht->reader)]: a load, then a store. *)
Definition add_reader (t : tid) (d : Z) : prog Z :=
  Load t (fun r => Store t (u32 (r + d)) (Ret (u32 (r + d)))).

Definition begin_read (ht : tid) : prog unit :=
  tsrm_mutex_lock ht mx_reader_name ;;
  r ← add_reader ht 1;
  (if r =? 1 then tsrm_mutex_lock ht mx_writer_name else mret tt) ;;
  tsrm_mutex_unlock ht mx_reader_name.

Definition end_read (ht : tid) : prog unit :=
  tsrm_mutex_lock ht mx_reader_name ;;
  r ← add_reader ht (-1);
  (if r =? 0 then tsrm_mutex_unlock ht mx_writer_name else mret tt) ;;
  tsrm_mutex_unlock ht mx_reader_name.

Definition begin_write (ht : tid) : prog unit := tsrm_mutex_lock ht mx_writer_name.

Definition end_write (ht : tid) : prog unit := tsrm_mutex_unlock ht mx_writer_name.

(** ** The functions of zend_hash.c on the structs of the tables *)

(** A function that returns the struct it was given, changed. *)
Definition with_hash {A} (t : tid) (f : HashTable -> cmd (store (Bucket V) V) (A * HashTable)) :
    cmd shared A := fun '(s, hs) =>
  match f (hs t) s with
  | Some ((a, ht), s') => Some (a, (s', <[t := ht]> hs))
  | None => None
  end.

(** A function that does not change the struct. *)
Definition on_hash {A} (t : tid) (f : HashTable -> cmd (store (Bucket V) V) A) : cmd shared A :=
  with_hash t (fun ht => a ← f ht; mret (a, ht)).

(** A function that changes the struct and returns nothing. *)
Definition do_hash (t : tid) (f : HashTable -> cmd (store (Bucket V) V) HashTable) :
    cmd shared unit := with_hash t (fun ht => ht ← f ht; mret (tt, ht)).

(** The traversals: the outcome and the struct as it was left. *)
Definition outcome {A} (g : guarded A) : (bool * A) * HashTable :=
  match g with
  | Finished ht a => ((true, a), ht)
  | Bailout ht a => ((false, a), ht)
  end.

Definition guard_hash {A} (t : tid) (f : HashTable -> cmd (store (Bucket V) V) (guarded A)) :
    cmd shared (bool * A) := with_hash t (fun ht => g ← f ht; mret (outcome g)).

(** The fatal error of the recursion guard does not come back. *)
Definition unless_bailout {A} (r : bool * A) : prog A := if r.1 then Ret r.2 else Bail.

(** ** Delegates *)

Definition zend_ts_hash_destroy (ht : tid) : prog unit :=
  begin_write ht ;;
  call [(ht, Writes)] (do_hash ht zend_hash_destroy) ;;
  end_write ht ;;
  tsrm_mutex_free ht mx_reader_name ;;
  tsrm_mutex_free ht mx_writer_name.

(** The counter is reset without the mutex that guards it. *)
Definition zend_ts_hash_clean (ht : tid) : prog unit :=
  Store ht 0 (Ret tt) ;;
  begin_write ht ;;
  call [(ht, Writes)] (do_hash ht zend_hash_clean) ;;
  end_write ht.

Definition _zend_ts_hash_add_or_update (ht : tid) (k : keyarg) (v : V) (nDataSize : Z)
    (flag : hash_flag) : prog (zresult * option dataloc) :=
  begin_write ht ;;
  retval ← call [(ht, Writes)]
    (with_hash ht (fun h => _zend_hash_add_or_update uninit h k v nDataSize flag));
  end_write ht ;;
  mret retval.

Definition _zend_ts_hash_quick_add_or_update (ht : tid) (k : keyarg) (h : Z) (v : V)
    (nDataSize : Z) (flag : hash_flag) : prog (zresult * option dataloc) :=
  begin_write ht ;;
  retval ← call [(ht, Writes)]
    (with_hash ht (fun t => _zend_hash_quick_add_or_update uninit t k h v nDataSize flag));
  end_write ht ;;
  mret retval.

Definition _zend_ts_hash_index_update_or_next_insert (ht : tid) (h : Z) (v : V)
    (nDataSize : Z) (flag : hash_flag) : prog (zresult * option dataloc) :=
  begin_write ht ;;
  retval ← call [(ht, Writes)]
    (with_hash ht (fun t => _zend_hash_index_update_or_next_insert uninit t h v nDataSize flag));
  end_write ht ;;
  mret retval.

Definition zend_ts_hash_add_empty_element (ht : tid) (k : keyarg) (dummy : V) : prog zresult :=
  begin_write ht ;;
  retval ← call [(ht, Writes)]
    (with_hash ht (fun h => zend_hash_add_empty_element uninit h k dummy));
  end_write ht ;;
  mret retval.

Definition zend_ts_hash_graceful_destroy (ht : tid) : prog unit :=
  begin_write ht ;;
  call [(ht, Writes)] (do_hash ht zend_hash_graceful_destroy) ;;
  end_write ht ;;
  tsrm_mutex_free ht mx_reader_name ;;
  tsrm_mutex_free ht mx_writer_name.

Definition zend_ts_hash_apply {A} (ht : tid) (apply_func : V -> A -> Z * V * A) (acc : A) : prog A :=
  begin_write ht ;;
  r ← call [(ht, Writes)] (guard_hash ht (fun h => zend_hash_apply h apply_func acc));
  a ← unless_bailout r;
  end_write ht ;;
  mret a.

Definition zend_ts_hash_apply_with_argument {A B} (ht : tid) (apply_func : V -> B -> A -> Z * V * A)
    (argument : B) (acc : A) : prog A :=
  begin_write ht ;;
  r ← call [(ht, Writes)]
    (guard_hash ht (fun h => zend_hash_apply_with_argument h apply_func argument acc));
  a ← unless_bailout r;
  end_write ht ;;
  mret a.

(** The [va_list] is passed on as one argument of the variable part: the callback
    of [zend_hash_apply_with_arguments] gets a list whose only element is the list
    of the caller's arguments. *)
Definition zend_ts_hash_apply_with_arguments {A B} (ht : tid)
    (apply_func : V -> list (list B) -> zend_hash_key -> A -> Z * V * A) (args : list B) (acc : A) :
    prog A :=
  begin_write ht ;;
  r ← call [(ht, Writes)]
    (guard_hash ht (fun h => zend_hash_apply_with_arguments h apply_func [args] acc));
  a ← unless_bailout r;
  end_write ht ;;
  mret a.

Definition zend_ts_hash_reverse_apply {A} (ht : tid) (apply_func : V -> A -> Z * V * A) (acc : A) :
    prog A :=
  begin_write ht ;;
  r ← call [(ht, Writes)] (guard_hash ht (fun h => zend_hash_reverse_apply h apply_func acc));
  a ← unless_bailout r;
  end_write ht ;;
  mret a.

Definition zend_ts_hash_del_key_or_index (ht : tid) (k : keyarg) (h : Z) (flag : del_flag) :
    prog zresult :=
  begin_write ht ;;
  retval ← call [(ht, Writes)] (with_hash ht (fun t => zend_hash_del_key_or_index t k h flag));
  end_write ht ;;
  mret retval.

(** The hash value of a key does not depend on the table. *)
Definition zend_ts_get_hash_value (ht : tid) (k : keyarg) : prog Z :=
  begin_read ht ;;
  retval ← call [] (mret (zend_inline_hash_func (k_bytes k)));
  end_read ht ;;
  mret retval.

Definition zend_ts_hash_find (ht : tid) (k : keyarg) : prog (zresult * option dataloc) :=
  begin_read ht ;;
  retval ← call [(ht, Reads)] (on_hash ht (fun h => zend_hash_find h k));
  end_read ht ;;
  mret retval.

Definition zend_ts_hash_quick_find (ht : tid) (k : keyarg) (h : Z) :
    prog (zresult * option dataloc) :=
  begin_read ht ;;
  retval ← call [(ht, Reads)] (on_hash ht (fun t => zend_hash_quick_find t k h));
  end_read ht ;;
  mret retval.

Definition zend_ts_hash_index_find (ht : tid) (h : Z) : prog (zresult * option dataloc) :=
  begin_read ht ;;
  retval ← call [(ht, Reads)] (on_hash ht (fun t => zend_hash_index_find t h));
  end_read ht ;;
  mret retval.

Definition zend_ts_hash_exists (ht : tid) (k : keyarg) : prog bool :=
  begin_read ht ;;
  retval ← call [(ht, Reads)] (on_hash ht (fun h => zend_hash_exists h k));
  end_read ht ;;
  mret retval.

Definition zend_ts_hash_index_exists (ht : tid) (h : Z) : prog bool :=
  begin_read ht ;;
  retval ← call [(ht, Reads)] (on_hash ht (fun t => zend_hash_index_exists t h));
  end_read ht ;;
  mret retval.

(** The functions on two tables change the struct of the target only. *)
Definition from_hash (target source : tid)
    (f : HashTable -> HashTable -> cmd (store (Bucket V) V) HashTable) : cmd shared unit :=
  fun '(s, hs) => do_hash target (fun h => f h (hs source)) (s, hs).

Definition zend_ts_hash_copy (target source : tid) (ctor : option (V -> V)) (size : Z) : prog unit :=
  begin_read source ;;
  begin_write target ;;
  call [(target, Writes); (source, Reads)]
    (from_hash target source (fun t s => zend_hash_copy uninit t s ctor size)) ;;
  end_write target ;;
  end_read source.

(** The target is a plain table of the caller: its struct is given and returned. *)
Definition zend_ts_hash_copy_to_hash (target : HashTable) (source : tid) (ctor : option (V -> V))
    (size : Z) : prog HashTable :=
  begin_read source ;;
  target ← call [(source, Reads)]
    (on_hash source (fun s => zend_hash_copy uninit target s ctor size));
  end_read source ;;
  mret target.

Definition zend_ts_hash_merge (target source : tid) (ctor : option (V -> V)) (size : Z)
    (overwrite : bool) : prog unit :=
  begin_read source ;;
  begin_write target ;;
  call [(target, Writes); (source, Reads)]
    (from_hash target source (fun t s => _zend_hash_merge uninit t s ctor size overwrite)) ;;
  end_write target ;;
  end_read source.

Definition zend_ts_hash_merge_ex (target source : tid) (ctor : option (V -> V)) (size : Z)
    (pMergeSource : HashTable -> V -> zend_hash_key -> bool) : prog unit :=
  begin_read source ;;
  begin_write target ;;
  call [(target, Writes); (source, Reads)]
    (from_hash target source (fun t s => zend_hash_merge_ex uninit t s ctor size pMergeSource)) ;;
  end_write target ;;
  end_read source.

Definition zend_ts_hash_sort (ht : tid) (sort_func : sort_func_t ptr) (compare_func : bucket_compare)
    (renumber : bool) : prog zresult :=
  begin_write ht ;;
  retval ← call [(ht, Writes)] (with_hash ht (fun h => zend_hash_sort h sort_func compare_func renumber));
  end_write ht ;;
  mret retval.

(** [zend_hash_compare] counts its visits in both structs (HASH_PROTECT_RECURSION):
    it writes to tables that are locked for reading only.  The two tables are
    different ones. *)
Definition compare_hashes (ht1 ht2 : tid) (compar : V -> V -> Z) (ordered : bool) :
    cmd shared (bool * Z) := fun '(s, hs) =>
  match zend_hash_compare (hs ht1) (hs ht2) compar ordered s with
  | Some (Finished h1 (h2, r), s') => Some ((true, r), (s', <[ht1 := h1]> (<[ht2 := h2]> hs)))
  | Some (Bailout h1 (h2, r), s') => Some ((false, r), (s', <[ht1 := h1]> (<[ht2 := h2]> hs)))
  | None => None
  end.

Definition zend_ts_hash_compare (ht1 ht2 : tid) (compar : V -> V -> Z) (ordered : bool) : prog Z :=
  begin_read ht1 ;;
  begin_read ht2 ;;
  r ← call [(ht1, Writes); (ht2, Writes)] (compare_hashes ht1 ht2 compar ordered);
  retval ← unless_bailout r;
  end_read ht2 ;;
  end_read ht1 ;;
  mret retval.

Definition zend_ts_hash_minmax (ht : tid) (compar : bucket_compare) (flag : bool) :
    prog (zresult * option dataloc) :=
  begin_read ht ;;
  retval ← call [(ht, Reads)] (on_hash ht (fun h => zend_hash_minmax h compar flag));
  end_read ht ;;
  mret retval.

Definition zend_ts_hash_num_elements (ht : tid) : prog Z :=
  begin_read ht ;;
  retval ← call [(ht, Reads)] (on_hash ht (fun h => mret (zend_hash_num_elements h)));
  end_read ht ;;
  mret retval.

Definition zend_ts_hash_rehash (ht : tid) : prog zresult :=
  begin_write ht ;;
  retval ← call [(ht, Writes)] (with_hash ht zend_hash_rehash);
  end_write ht ;;
  mret retval.

(** ** Threads and their steps *)

Record thread := mkThread { th_prog : prog unit; th_running : bool }.

Record world := mkWorld { heap : store (Bucket V) V; tabs : tid -> TsHashTable }.

Definition set_tab (t : tid) (T : TsHashTable) (w : world) : world :=
  mkWorld (heap w) (<[t := T]> (tabs w)).

Definition view (w : world) : shared := (heap w, fun t => hash (tabs w t)).

Definition put_back (x : shared) (w : world) : world :=
  mkWorld x.1 (fun t => set_hash (x.2 t) (tabs w t)).

(** The next action of thread [i].  A mutex can be locked when it is free, and
    unlocked, by any thread, when it is locked. *)
Definition thread_step (i : nat) (th : thread) (w : world) : option (thread * world) :=
  match th_prog th with
  | Ret _ | Bail => None
  | Lock t m k =>
      match get_mutex m (tabs w t) with
      | Unlocked => Some (mkThread k false, set_tab t (set_mutex m (LockedBy i) (tabs w t)) w)
      | _ => None
      end
  | Unlock t m k =>
      match get_mutex m (tabs w t) with
      | LockedBy _ => Some (mkThread k false, set_tab t (set_mutex m Unlocked (tabs w t)) w)
      | _ => None
      end
  | Release t m k =>
      match get_mutex m (tabs w t) with
      | Unlocked => Some (mkThread k false, set_tab t (set_mutex m Released (tabs w t)) w)
      | _ => None
      end
  | Load t k => Some (mkThread (k (reader (tabs w t))) false, w)
  | Store t v k => Some (mkThread k false, set_tab t (set_reader v (tabs w t)) w)
  | Call fp c k =>
      if th_running th then
        match c (view w) with
        | Some (a, x) => Some (mkThread (k a) false, put_back x w)
        | None => None
        end
      else Some (mkThread (th_prog th) true, w)
  end.

Record sys := mkSys { threads : list thread; global : world }.

Definition exec (i : nat) (σ : sys) : option sys :=
  match threads σ !! i with
  | None => None
  | Some th =>
      match thread_step i th (global σ) with
      | Some (th', w') => Some (mkSys (<[i := th']> (threads σ)) w')
      | None => None
      end
  end.

Definition step (σ σ' : sys) : Prop := exists i, exec i σ = Some σ'.

(** Runs a schedule, the list of the threads that move. *)
Fixpoint run (schedule : list nat) (σ : sys) : option sys :=
  match schedule with
  | [] => Some σ
  | i :: schedule => σ' ← exec i σ; run schedule σ'
  end.

Definition spawn (ps : list (prog unit)) (w : world) : sys :=
  mkSys ((fun p => mkThread p false) <$> ps) w.

(** ** Races *)

Inductive location := Counter (t : tid) | Hash (t : tid).

#[global] Instance location_eq_dec : EqDecision location.
Proof. solve_decision. Defined.

(** The memory a thread is accessing. *)
Definition accesses (th : thread) : list (location * access) :=
  match th_prog th with
  | Load t _ => [(Counter t, Reads)]
  | Store t _ _ => [(Counter t, Writes)]
  | Call fp _ _ => if th_running th then (fun '(t, a) => (Hash t, a)) <$> fp else []
  | _ => []
  end.

(** Two threads access the same memory and one of them writes. *)
Definition race (σ : sys) : Prop :=
  exists i j th1 th2 l a1 a2, i <> j /\ threads σ !! i = Some th1 /\ threads σ !! j = Some th2 /\
    (l, a1) ∈ accesses th1 /\ (l, a2) ∈ accesses th2 /\ (a1 = Writes \/ a2 = Writes).

Definition finished (th : thread) : Prop :=
  match th_prog th with Ret _ => True | _ => False end.

(** The two ends that are not the protocol's: the fatal error of the recursion
    guard, and a call with undefined behaviour. *)
Definition bailed (th : thread) : Prop :=
  match th_prog th with Bail => True | _ => False end.

Definition faulting (w : world) (th : thread) : Prop :=
  match th_prog th with
  | Call _ c _ => th_running th = true /\ c (view w) = None
  | _ => False
  end.

End model.
