(* ===== verification/ZendTsHashSpec.v ===== *)
(** * ZendTsHashSpec: the readers-writer protocol of shared tables

    For threads that use shared tables through the functions of
    src/Zend/zend_ts_hash.c: no two accesses race, no thread waits for
    ever, every schedule ends.  The proof gives every thread a [phase] for every
    table, the point of [begin_read], [end_read] or the like it has reached; [wpt]
    follows the phases through a program, and [table_ok] ties the counter and the
    mutexes of a table to the phases of all threads. *)
From S2P Require Import Prelude Memory HashFunc OrderedMap ZendHash ZendHashDestroy ZendHashApply.
From S2P Require Import ZendHashCopy ZendQsort ZendHashSort ZendHashDemo ZendTsHash.
From stdpp Require Import base option functions list gmap relations.
Local Open Scope Z_scope.

(** ** Phases *)

(** [Sec b], [Got b v], [Up] and [Down] hold [mx_reader]; [b] says whether the
    thread counts as a reader, [v] is the value it has loaded; [Up] has made the
    counter 1 and must lock [mx_writer], [Down] has made it 0 and must unlock it. *)
Inductive phase :=
  | Out | Rd | Wri
  | Sec (b : bool) | Got (b : bool) (v : Z) | Up | Down.

#[global] Instance phase_eq_dec : EqDecision phase.
Proof. solve_decision. Defined.

Definition is_reader (ph : phase) : bool :=
  match ph with Rd | Up => true | Sec b | Got b _ => b | _ => false end.
Definition in_section (ph : phase) : bool :=
  match ph with Sec _ | Got _ _ | Up | Down => true | _ => false end.
Definition is_up (ph : phase) : bool := match ph with Up => true | _ => false end.
Definition is_down (ph : phase) : bool := match ph with Down => true | _ => false end.
Definition is_plain (ph : phase) : bool :=
  match ph with Sec _ | Got _ _ => true | _ => false end.
Definition is_writer (ph : phase) : bool := match ph with Wri => true | _ => false end.

(** The number of threads with the property. *)
Fixpoint count (f : phase -> bool) (P : list phase) : Z :=
  match P with
  | [] => 0
  | ph :: P => Z.b2z (f ph) + count f P
  end.

Lemma count_nonneg f P : 0 <= count f P.
Proof. induction P as [|ph P IH]; simpl; [lia|]. destruct (f ph); simpl; lia. Qed.

Lemma count_length f P : count f P <= Z.of_nat (length P).
Proof. induction P as [|ph P IH]; simpl; [lia|]. destruct (f ph); simpl; lia. Qed.

Lemma count_insert f P i ph ph' :
  P !! i = Some ph -> count f (<[i := ph']> P) = count f P - Z.b2z (f ph) + Z.b2z (f ph').
Proof.
  revert i. induction P as [|x P IH]; intros [|i]; intros H; simplify_eq/=; [lia|].
  rewrite (IH _ H). lia.
Qed.

Lemma count_mono f g P : (forall ph, f ph = true -> g ph = true) -> count f P <= count g P.
Proof.
  intros H. induction P as [|ph P IH]; simpl; [lia|].
  destruct (f ph) eqn:E; [rewrite (H _ E)|destruct (g ph)]; simpl; lia.
Qed.

Lemma count_pos f P : 0 < count f P -> exists i ph, P !! i = Some ph /\ f ph = true.
Proof.
  induction P as [|ph P IH]; simpl; [lia|]. destruct (f ph) eqn:E.
  - intros _. by exists O, ph.
  - intros (i & q & ? & ?)%IH. by exists (S i), q.
Qed.

Lemma count_elem f P i ph : P !! i = Some ph -> f ph = true -> 1 <= count f P.
Proof.
  revert i. induction P as [|x P IH]; intros [|i] Hi Hf; simplify_eq/=.
  - rewrite Hf. pose proof (count_nonneg f P). simpl. lia.
  - specialize (IH i Hi Hf). destruct (f x); simpl; lia.
Qed.

Lemma count_two f P i j ph1 ph2 :
  i <> j -> P !! i = Some ph1 -> P !! j = Some ph2 -> f ph1 = true -> f ph2 = true -> f Out = false ->
  2 <= count f P.
Proof.
  intros Hij Hi Hj H1 H2 H0. pose proof (count_insert f P i ph1 Out Hi) as H. rewrite H1, H0 in H.
  assert (<[i := Out]> P !! j = Some ph2) as Hj' by (by rewrite list_lookup_insert_ne).
  pose proof (count_elem f _ _ _ Hj' H2). simpl in H. lia.
Qed.

Lemma count_out f P : f Out = false -> Forall (eq Out) P -> count f P = 0.
Proof. intros Hf HP. induction HP as [|ph P <- _ IH]; simpl; [done|]. by rewrite Hf, IH. Qed.

(** ** What the phases say about a table *)

Definition held (m : mutex) : Z := match m with LockedBy _ => 1 | _ => 0 end.

(** Whether [mx_writer] is locked on behalf of the readers. *)
Definition readers_hold (P : list phase) : Z :=
  Z.b2z ((0 <? count is_down P) || ((0 <? count is_reader P) && (count is_up P =? 0))).

Record table_ok (P : list phase) (T : TsHashTable) : Prop := {
  ok_reader : reader T = count is_reader P;
  ok_section : count in_section P = held (mx_reader T);
  ok_up : 0 < count is_up P -> count is_reader P = 1;
  ok_down : 0 < count is_down P -> count is_reader P = 0;
  ok_writer : count is_writer P + readers_hold P = held (mx_writer T);
  ok_usable : mx_reader T <> Released /\ mx_writer T <> Released;
  ok_got : forall i b v, P !! i = Some (Got b v) -> v = reader T
}.

(** The moves of thread [i] in the protocol of one table. *)
Inductive move (i : nat) (T : TsHashTable) : phase -> phase -> TsHashTable -> Prop :=
  | move_enter (b : bool) : mx_reader T = Unlocked ->
      move i T (if b then Rd else Out) (Sec b) (set_mutex mx_reader_name (LockedBy i) T)
  | move_load b : move i T (Sec b) (Got b (reader T)) T
  | move_count v : move i T (Got false v) (if u32 (v + 1) =? 1 then Up else Sec true)
                     (set_reader (u32 (v + 1)) T)
  | move_uncount v : move i T (Got true v) (if u32 (v - 1) =? 0 then Down else Sec false)
                     (set_reader (u32 (v - 1)) T)
  | move_first : mx_writer T = Unlocked ->
      move i T Up (Sec true) (set_mutex mx_writer_name (LockedBy i) T)
  | move_last : move i T Down (Sec false) (set_mutex mx_writer_name Unlocked T)
  | move_leave (b : bool) : move i T (Sec b) (if b then Rd else Out) (set_mutex mx_reader_name Unlocked T)
  | move_write : mx_writer T = Unlocked ->
      move i T Out Wri (set_mutex mx_writer_name (LockedBy i) T)
  | move_unwrite : move i T Wri Out (set_mutex mx_writer_name Unlocked T).

(** The facts on the counts that hold of every list of phases. *)
Lemma count_facts P :
  0 <= count is_up P <= count is_reader P /\ 0 <= count is_down P /\ 0 <= count is_writer P /\
  0 <= count is_plain P /\ count is_up P + count is_down P + count is_plain P = count in_section P.
Proof.
  split_and!; try apply count_nonneg.
  - apply count_mono. by intros [].
  - induction P as [|[] P IH]; simpl; lia.
Qed.

Lemma readers_hold_cases P :
  (readers_hold P = 1 /\ (0 < count is_down P \/ (0 < count is_reader P /\ count is_up P = 0))) \/
  (readers_hold P = 0 /\ count is_down P <= 0 /\ (count is_reader P <= 0 \/ count is_up P <> 0)).
Proof.
  unfold readers_hold. destruct (Z.ltb_spec 0 (count is_down P)), (Z.ltb_spec 0 (count is_reader P)),
    (Z.eqb_spec (count is_up P) 0); simpl; lia.
Qed.

Lemma table_ok_move P T i ph ph' T' :
  table_ok P T -> P !! i = Some ph -> Z.of_nat (length P) < 2 ^ 32 -> move i T ph ph' T' ->
  table_ok (<[i := ph']> P) T'.
Proof.
  intros [Hr Hs Hu Hd Hw Hus Hg] Hi Hlen Hm.
  pose proof (readers_hold_cases P) as HH. pose proof (readers_hold_cases (<[i := ph']> P)) as HH'.
  pose proof (count_facts P) as HP. pose proof (count_facts (<[i := ph']> P)) as HP'.
  pose proof (count_length is_reader (<[i := ph']> P)) as Hl. rewrite length_insert in Hl.
  pose proof (count_insert is_reader P i ph ph' Hi) as Er.
  pose proof (count_insert in_section P i ph ph' Hi) as Es.
  pose proof (count_insert is_up P i ph ph' Hi) as Eu.
  pose proof (count_insert is_down P i ph ph' Hi) as Ed.
  pose proof (count_insert is_plain P i ph ph' Hi) as Ep.
  pose proof (count_insert is_writer P i ph ph' Hi) as Ew.
  pose proof (count_elem is_plain P i ph Hi) as Hpl.
  assert (held (mx_reader T) <= 1 /\ held (mx_writer T) <= 1) as [Hh1 Hh2]
    by (split; [destruct (mx_reader T)|destruct (mx_writer T)]; simpl; lia).
  assert (forall j b v, <[i := ph']> P !! j = Some (Got b v) -> in_section ph = true ->
    j = i /\ ph' = Got b v) as Honly.
  { intros j b v [(<- & -> & _)|[Hij Hj]]%list_lookup_insert_Some Hsec; [done|].
    pose proof (count_two in_section P i j _ _ Hij Hi Hj Hsec eq_refl eq_refl). lia. }
  assert (forall b v, ph = Got b v -> v = reader T) as Hv by (intros b v ->; by eapply Hg).
  assert (forall j b v, <[i := ph']> P !! j = Some (Got b v) -> ph' = Got b (reader T) \/
    is_plain ph' = false \/ (exists b, ph' = Sec b) -> v = reader T) as Hother.
  { intros j b v [(_ & -> & _)|[_ Hj]]%list_lookup_insert_Some; [|eauto]. by intros [[= ->]|[|[]]]. }
  destruct Hm as [[] Hmx|[]|v|v|Hmx| |[]|Hmx| ].
  all: try (rewrite (Hv _ _ eq_refl), ?Hr in *).
  all: try case_match.
  all: rewrite ?Hmx in *; simpl in *.
  all: try match goal with H : (u32 ?x =? _) = _ |- _ =>
    rewrite (wrap_u_small 32 x) in H |- * by (clear Hg Hother Honly Hv Hus; lia) end.
  all: split; simpl.
  all: try (clear Hg Hother Honly Hv Hus Hlen; lia).
  all: try (by destruct Hus).
  all: try (intros j b w Hj; by destruct (Honly _ _ _ Hj eq_refl)).
  all: intros j b w Hj; eapply Hother; [exact Hj|].
  all: first [by right; left | right; right; by eexists |
    destruct (Honly _ _ _ Hj eq_refl) as [-> [=]]; subst; by left].
Qed.

Lemma table_ok_sync P T T' :
  reader T' = reader T -> mx_reader T' = mx_reader T -> mx_writer T' = mx_writer T ->
  table_ok P T -> table_ok P T'.
Proof. intros Hr Hm Hw []. split; rewrite ?Hr, ?Hm, ?Hw; done. Qed.

(** A writer is alone, and a reader sees no writer. *)
Lemma table_ok_exclusive P T i j ph1 ph2 :
  table_ok P T -> i <> j -> P !! i = Some ph1 -> P !! j = Some ph2 ->
  is_writer ph1 = true -> ph2 = Rd \/ ph2 = Wri -> False.
Proof.
  intros [_ _ Hu Hd Hw _ _] Hij Hi Hj H1 H2. pose proof (count_facts P) as HP.
  pose proof (readers_hold_cases P) as HH. pose proof (count_elem is_writer _ _ _ Hi H1).
  assert (held (mx_writer T) <= 1) by (destruct (mx_writer T); simpl; lia).
  destruct H2 as [-> | ->].
  - pose proof (count_elem is_reader _ _ _ Hj eq_refl) as Hr.
    destruct (Z.eq_dec (count is_up P) 0) as [|Hne]; [lia|].
    destruct (count_pos is_up P) as (k & [] & Hk & [=]); [lia|].
    destruct (decide (k = j)) as [->|Hkj]; [congruence|].
    pose proof (count_two is_reader P k j _ _ Hkj Hk Hj eq_refl eq_refl eq_refl). lia.
  - pose proof (count_two is_writer P i j _ _ Hij Hi Hj H1 eq_refl eq_refl). lia.
Qed.

(** Only one thread is inside the section of [mx_reader]. *)
Lemma table_ok_section P T i j ph1 ph2 :
  table_ok P T -> i <> j -> P !! i = Some ph1 -> P !! j = Some ph2 ->
  in_section ph1 = true -> in_section ph2 = true -> False.
Proof.
  intros [_ Hs _ _ _ _ _] Hij Hi Hj H1 H2.
  pose proof (count_two in_section P i j _ _ Hij Hi Hj H1 H2 eq_refl).
  assert (held (mx_reader T) <= 1) by (destruct (mx_reader T); simpl; lia). lia.
Qed.

(** ** Programs *)

Section programs.
Context {V : Type} {AL : Allocator} (ord : tid -> tid -> Prop).
Abbreviation prog := (@prog V).
Abbreviation phases := (tid -> phase).

(** At most the section of [t] is entered. *)
Definition calm (g : phases) (t : tid) : Prop := forall t', t' <> t -> in_section (g t') = false.

(** [t] may be locked while the tables that are locked now are. *)
Definition may_lock (g : phases) (t : tid) : Prop :=
  forall t', t' <> t -> g t' <> Out -> ord t' t.

Definition allowed (a : access) (ph : phase) : Prop :=
  match a with Reads => ph = Rd \/ ph = Wri | Writes => ph = Wri end.

(** A thread in the phases [g] that runs [p] keeps to the protocol, and when it
    ends the phases and its result satisfy [Q]. *)
Fixpoint wpt {R} (g : phases) (p : prog R) (Q : R -> phases -> Prop) : Prop :=
  match p with
  | Ret r => Q r g
  | Bail => True
  | Lock t mx_reader_name k =>
      calm g t /\ match g t with
                  | Out => may_lock g t /\ wpt (<[t := Sec false]> g) k Q
                  | Rd => wpt (<[t := Sec true]> g) k Q
                  | _ => False
                  end
  | Lock t mx_writer_name k =>
      calm g t /\ match g t with
                  | Out => may_lock g t /\ wpt (<[t := Wri]> g) k Q
                  | Up => may_lock g t /\ wpt (<[t := Sec true]> g) k Q
                  | _ => False
                  end
  | Unlock t mx_reader_name k =>
      match g t with
      | Sec b => wpt (<[t := if b then Rd else Out]> g) k Q
      | _ => False
      end
  | Unlock t mx_writer_name k =>
      match g t with
      | Down => wpt (<[t := Sec false]> g) k Q
      | Wri => wpt (<[t := Out]> g) k Q
      | _ => False
      end
  | Release t m k => False
  | Load t k =>
      match g t with
      | Sec b => forall v, wpt (<[t := Got b v]> g) (k v) Q
      | _ => False
      end
  | Store t v k =>
      match g t with
      | Got false r => v = u32 (r + 1) /\
          wpt (<[t := if u32 (r + 1) =? 1 then Up else Sec true]> g) k Q
      | Got true r => v = u32 (r - 1) /\
          wpt (<[t := if u32 (r - 1) =? 0 then Down else Sec false]> g) k Q
      | _ => False
      end
  | Call fp c k => (forall t a, (t, a) ∈ fp -> allowed a (g t)) /\ forall a, wpt g (k a) Q
  end.

Lemma wpt_bind {R S} (p : prog R) (f : R -> prog S) g Q :
  wpt g p (fun r g' => wpt g' (f r) Q) -> wpt g (p ≫= f) Q.
Proof.
  revert g. induction p as [r| |t [] k IH|t [] k IH|t m k IH|t k IH|t v k IH|A fp c k IH]; intros g;
    simpl; try done; try (destruct (g t) as [| | |[]|[] ?| |]; naive_solver).
  intros [H1 H2]. split; [done|]. intros a. apply IH, H2.
Qed.

Lemma wpt_mono {R} (p : prog R) g (Q Q' : R -> phases -> Prop) :
  wpt g p Q -> (forall r g', Q r g' -> Q' r g') -> wpt g p Q'.
Proof.
  intros Hp HQ. revert g Hp.
  induction p as [r| |t [] k IH|t [] k IH|t m k IH|t k IH|t v k IH|A fp c k IH]; intros g;
    simpl; auto; try (destruct (g t) as [| | |[]|[] ?| |]; naive_solver).
  intros [H1 H2]. split; [done|]. intros a. apply IH, H2.
Qed.

Definition same_but (t : tid) (g g' : phases) : Prop := forall t', t' <> t -> g' t' = g t'.

Lemma same_but_insert t ph g : same_but t g (<[t := ph]> g).
Proof. intros t' H. by rewrite fn_lookup_insert_ne. Qed.

Lemma same_but_trans t g1 g2 g3 : same_but t g1 g2 -> same_but t g2 g3 -> same_but t g1 g3.
Proof. intros H1 H2 t' H. by rewrite H2, H1. Qed.

Lemma calm_same t g g' : same_but t g g' -> calm g t -> calm g' t.
Proof. intros Hs Hc t' H. rewrite Hs by done. by apply Hc. Qed.

Lemma may_lock_same t g g' : same_but t g g' -> may_lock g t -> may_lock g' t.
Proof. intros Hs Hm t' H. rewrite Hs by done. by apply Hm. Qed.

#[local] Hint Resolve same_but_insert same_but_trans calm_same may_lock_same : core.

Ltac wpt_run := repeat first
  [ progress simpl | rewrite fn_lookup_insert
  | match goal with
    | H : ?g ?t = _ |- context [?g ?t] => rewrite H
    | |- _ /\ _ => split
    | |- forall v : Z, _ => intros v
    end ]; eauto 6.

Lemma wpt_begin_read t g Q :
  g t = Out -> calm g t -> may_lock g t ->
  (forall g', g' t = Rd -> same_but t g g' -> Q tt g') -> wpt g (begin_read t) Q.
Proof.
  intros Ht Hc Hm HQ. wpt_run. destruct (u32 (v + 1) =? 1); wpt_run; apply HQ; wpt_run.
Qed.

Lemma wpt_end_read t g Q :
  g t = Rd -> calm g t ->
  (forall g', g' t = Out -> same_but t g g' -> Q tt g') -> wpt g (end_read t) Q.
Proof.
  intros Ht Hc HQ. wpt_run. change (v + -1) with (v - 1).
  destruct (u32 (v - 1) =? 0); wpt_run; apply HQ; wpt_run.
Qed.

Lemma wpt_begin_write t g Q :
  g t = Out -> calm g t -> may_lock g t ->
  (forall g', g' t = Wri -> same_but t g g' -> Q tt g') -> wpt g (begin_write t) Q.
Proof. intros Ht Hc Hm HQ. wpt_run. apply HQ; wpt_run. Qed.

Lemma wpt_end_write t g Q :
  g t = Wri -> (forall g', g' t = Out -> same_but t g g' -> Q tt g') -> wpt g (end_write t) Q.
Proof. intros Ht HQ. wpt_run. apply HQ; wpt_run. Qed.

(** ** The invariant of the system *)

Definition idle (g : phases) : Prop := forall t, g t = Out.

Definition thread_ok (th : @thread V) (g : phases) : Prop := wpt g (th_prog th) (fun _ => idle).

Definition at_table (t : tid) (gs : list phases) : list phase := (fun g => g t) <$> gs.

Definition sys_ok (gs : list phases) (σ : @sys V) : Prop :=
  Forall2 thread_ok (threads σ) gs /\
  forall t, table_ok (at_table t gs) (tabs (global σ) t).

(** What a step of a thread does to its phases and to the tables. *)
Definition steps_to (i : nat) (g g' : phases) (w w' : @world V) : Prop :=
  (exists t ph T', g' = <[t := ph]> g /\ move i (tabs w t) (g t) ph T' /\
     forall t', tabs w' t' = <[t := T']> (tabs w) t') \/
  (g' = g /\ forall t, reader (tabs w' t) = reader (tabs w t) /\
     mx_reader (tabs w' t) = mx_reader (tabs w t) /\ mx_writer (tabs w' t) = mx_writer (tabs w t)).

Lemma steps_to_move i g w t ph ph' T' :
  g t = ph -> move i (tabs w t) ph ph' T' -> steps_to i g (<[t := ph']> g) w (set_tab t T' w).
Proof. intros <- Hm. left. exists t, ph', T'. done. Qed.

Lemma thread_step_ok i th g w th' w' :
  thread_ok th g -> thread_step i th w = Some (th', w') ->
  exists g', thread_ok th' g' /\ steps_to i g g' w w'.
Proof.
  unfold thread_ok, thread_step. destruct th as [p run]. simpl.
  destruct p as [r| |t m k|t m k|t m k|t k|t v k|A fp c k]; simpl; try done.
  - destruct m; simpl; intros [_ Hk]; destruct (_ (tabs w t)) eqn:Hmx; intros; simplify_eq;
      destruct (g t) eqn:Hg; try done; try destruct Hk as [_ Hk];
      eexists; (split; [exact Hk|]); (eapply steps_to_move; [exact Hg|]).
    + by apply (move_enter _ _ false).
    + by apply (move_enter _ _ true).
    + by apply move_write.
    + by apply move_first.
  - destruct m; simpl; intros Hk; destruct (_ (tabs w t)) eqn:Hmx; intros; simplify_eq;
      destruct (g t) eqn:Hg; try done; eexists; (split; [exact Hk|]);
      (eapply steps_to_move; [exact Hg|constructor]).
  - intros Hk [= <- <-]. destruct (g t) eqn:Hg; try done. eexists. split; [apply Hk|].
    left. exists t, (Got b (reader (tabs w t))), (tabs w t).
    split_and!; [done|rewrite Hg; apply move_load|]. intros t'.
    destruct (decide (t = t')) as [<-|]; [by rewrite fn_lookup_insert|by rewrite fn_lookup_insert_ne].
  - intros Hk [= <- <-]. destruct (g t) as [| | | |[]| |] eqn:Hg; try done; destruct Hk as [-> Hk];
      eexists; (split; [exact Hk|]); (eapply steps_to_move; [exact Hg|constructor]).
  - intros [Hfp Hk]. destruct run; [|intros [= <- <-]; exists g; split; [by split|by right]].
    destruct (c (view w)) as [[a x]|]; [|done]. intros [= <- <-]. exists g. split; [apply Hk|by right].
Qed.

Lemma at_table_insert t gs i g' :
  at_table t (<[i := g']> gs) = <[i := g' t]> (at_table t gs).
Proof. apply (list_fmap_insert (fun g : phases => g t)). Qed.

Lemma sys_ok_step gs σ σ' :
  sys_ok gs σ -> Z.of_nat (length (threads σ)) < 2 ^ 32 -> step σ σ' ->
  exists gs', sys_ok gs' σ' /\ length (threads σ') = length (threads σ).
Proof.
  intros [Hth Htab] Hlen (i & Hex). unfold exec in Hex.
  destruct (threads σ !! i) as [th|] eqn:Hi; [|done].
  destruct (thread_step i th (global σ)) as [[th' w']|] eqn:Hst; [|done]. injection Hex as <-.
  destruct (Forall2_lookup_l _ _ _ _ _ Hth Hi) as (g & Hg & Hok).
  destruct (thread_step_ok _ _ _ _ _ _ Hok Hst) as (g' & Hok' & Hto).
  exists (<[i := g']> gs). simpl. rewrite length_insert. split; [|done]. split; simpl.
  { by apply Forall2_insert. }
  pose proof (Forall2_length _ _ _ Hth) as Hl. intros t'. rewrite at_table_insert.
  assert (at_table t' gs !! i = Some (g t')) as Hat by (unfold at_table; by rewrite list_lookup_fmap, Hg).
  destruct Hto as [(t & ph & T' & -> & Hm & Htabs)|[-> Hsync]].
  - rewrite Htabs. destruct (decide (t = t')) as [<-|Hne].
    + rewrite !fn_lookup_insert. eapply table_ok_move; eauto. unfold at_table. rewrite length_fmap. lia.
    + rewrite !fn_lookup_insert_ne by done. rewrite list_insert_id by done. apply Htab.
  - rewrite list_insert_id by done. destruct (Hsync t') as (? & ? & ?). by eapply table_ok_sync.
Qed.

Lemma sys_ok_reachable gs σ σ' :
  sys_ok gs σ -> Z.of_nat (length (threads σ)) < 2 ^ 32 -> rtc step σ σ' ->
  exists gs', sys_ok gs' σ' /\ length (threads σ') = length (threads σ).
Proof.
  intros Hok Hlen Hr. revert gs Hok Hlen.
  induction Hr as [σ|σ1 σ2 σ3 H12 _ IH]; intros gs Hok Hlen; [eauto|].
  destruct (sys_ok_step _ _ _ Hok Hlen H12) as (gs2 & Hok2 & Hl2).
  destruct (IH _ Hok2) as (gs3 & Hok3 & Hl3); [lia|]. exists gs3. split; [done|lia].
Qed.

Lemma sys_ok_lookup gs σ i th :
  sys_ok gs σ -> threads σ !! i = Some th ->
  exists g, gs !! i = Some g /\ thread_ok th g /\ forall t, at_table t gs !! i = Some (g t).
Proof.
  intros [Hth _] Hi. destruct (Forall2_lookup_l _ _ _ _ _ Hth Hi) as (g & Hg & Hok).
  exists g. split_and!; [done..|]. intros t. unfold at_table. by rewrite list_lookup_fmap, Hg.
Qed.

Lemma sys_ok_phase gs σ i t ph :
  sys_ok gs σ -> at_table t gs !! i = Some ph ->
  exists th g, threads σ !! i = Some th /\ gs !! i = Some g /\ thread_ok th g /\ g t = ph.
Proof.
  intros [Hth _] Hi. unfold at_table in Hi. rewrite list_lookup_fmap in Hi.
  destruct (gs !! i) as [g|] eqn:Hg; simplify_eq/=.
  destruct (Forall2_lookup_r _ _ _ _ _ Hth Hg) as (th & Hth' & Hok). by exists th, g.
Qed.

(** *** Races *)

Lemma accesses_phase th g l a :
  thread_ok th g -> (l, a) ∈ accesses th ->
  match l with
  | Counter t => in_section (g t) = true
  | Hash t => allowed a (g t)
  end.
Proof.
  unfold thread_ok, accesses. destruct th as [p run]. simpl.
  destruct p as [r| |t m k|t m k|t m k|t k|t v k|A fp c k]; try (intros _ Hin; set_solver).
  - intros Hk Hin. apply list_elem_of_singleton in Hin as [= -> ->]. simpl in Hk. by destruct (g t).
  - intros Hk Hin. apply list_elem_of_singleton in Hin as [= -> ->]. simpl in Hk. by destruct (g t).
  - intros [Hfp _] Hin. destruct run; [|set_solver].
    apply list_elem_of_fmap in Hin as ([t b] & [= -> ->] & Hin). by apply Hfp.
Qed.

Lemma sys_ok_no_race gs σ : sys_ok gs σ -> ~ race σ.
Proof.
  intros Hok (i & j & th1 & th2 & l & a1 & a2 & Hij & Hi & Hj & H1 & H2 & Hw).
  destruct (sys_ok_lookup _ _ _ _ Hok Hi) as (g1 & _ & Hok1 & Hat1).
  destruct (sys_ok_lookup _ _ _ _ Hok Hj) as (g2 & _ & Hok2 & Hat2).
  pose proof (accesses_phase _ _ _ _ Hok1 H1) as P1. pose proof (accesses_phase _ _ _ _ Hok2 H2) as P2.
  destruct Hok as [_ Htab]. destruct l as [t|t]; specialize (Htab t).
  - by eapply (table_ok_section _ _ i j).
  - assert (forall a ph, allowed a ph -> ph = Rd \/ ph = Wri) as Hal by (intros [] ?; simpl; auto).
    destruct Hw as [-> | ->]; simpl in *.
    + eapply (table_ok_exclusive _ _ i j); eauto. by rewrite P1.
    + eapply (table_ok_exclusive _ _ j i); eauto. by rewrite P2.
Qed.

(** *** Progress *)

Definition unblocked (σ : @sys V) : Prop :=
  (exists σ', step σ σ') \/ Exists bailed (threads σ) \/ Exists (faulting (global σ)) (threads σ).

Lemma step_unblocked σ i th x :
  threads σ !! i = Some th -> thread_step i th (global σ) = Some x -> unblocked σ.
Proof.
  intros Hi Hs. left. destruct x as [th' w']. exists (mkSys (<[i := th']> (threads σ)) w'), i.
  unfold exec. by rewrite Hi, Hs.
Qed.

Lemma held_locked m : 0 < held m -> exists o, m = LockedBy o.
Proof. destruct m; simpl; [lia| |lia]. eauto. Qed.

Lemma held_section gs σ i t ph :
  sys_ok gs σ -> at_table t gs !! i = Some ph -> in_section ph = true ->
  exists o, mx_reader (tabs (global σ) t) = LockedBy o.
Proof.
  intros [_ Htab] Hat Hsec. destruct (Htab t) as [_ Hs _ _ _ _ _].
  pose proof (count_elem in_section _ _ _ Hat Hsec). apply held_locked. lia.
Qed.

Lemma held_writer gs σ i t ph :
  sys_ok gs σ -> at_table t gs !! i = Some ph -> ph = Wri \/ ph = Down ->
  exists o, mx_writer (tabs (global σ) t) = LockedBy o.
Proof.
  intros [_ Htab] Hat Hph. destruct (Htab t) as [_ _ _ _ Hw _ _]. apply held_locked.
  pose proof (readers_hold_cases (at_table t gs)). pose proof (count_facts (at_table t gs)).
  destruct Hph as [-> | ->].
  - pose proof (count_elem is_writer _ _ _ Hat eq_refl). lia.
  - pose proof (count_elem is_down _ _ _ Hat eq_refl). lia.
Qed.

(** Only a thread that waits for a mutex may be unable to move. *)
Lemma active_unblocked gs σ i th :
  sys_ok gs σ -> threads σ !! i = Some th ->
  match th_prog th with Ret _ | Lock _ _ _ => True | _ => unblocked σ end.
Proof.
  intros Hok Hi. destruct (sys_ok_lookup _ _ _ _ Hok Hi) as (g & _ & Hth & Hat). unfold thread_ok in Hth.
  destruct th as [p run]. destruct p as [r| |t m k|t m k|t m k|t k|t v k|A fp c k]; simpl in *; try done.
  - right. left. apply Exists_exists. eexists. split; [by eapply list_elem_of_lookup_2|done].
  - assert (exists o, get_mutex m (tabs (global σ) t) = LockedBy o) as [o Ho].
    { specialize (Hat t). destruct m; simpl; destruct (g t) eqn:Hg; try done.
      - by eapply held_section.
      - eapply held_writer; eauto.
      - eapply held_writer; eauto. }
    eapply step_unblocked; [done|]. unfold thread_step. simpl. by rewrite Ho.
  - by eapply step_unblocked.
  - by eapply step_unblocked.
  - destruct run; [|by eapply step_unblocked].
    destruct (c (view (global σ))) as [[a x]|] eqn:Hc.
    + eapply step_unblocked; [done|]. unfold thread_step. simpl. by rewrite Hc.
    + right. right. apply Exists_exists. eexists. split; [by eapply list_elem_of_lookup_2|done].
Qed.

Lemma lock_in_section th g t t' m k :
  thread_ok th g -> th_prog th = Lock t' m k -> in_section (g t) = true ->
  t' = t /\ m = mx_writer_name /\ g t = Up.
Proof.
  unfold thread_ok. intros Hth Hp Hsec. rewrite Hp in Hth.
  assert (t' = t) as ->.
  { apply dec_stable. intros Hne. assert (calm g t') as Hc by (destruct m; apply Hth).
    specialize (Hc t (not_eq_sym Hne)). congruence. }
  destruct m; destruct Hth as [_ Hth]; by destruct (g t).
Qed.

(** A thread inside the section of [mx_reader] moves, unless it is the first
    reader and waits for [mx_writer]. *)
Lemma section_unblocked gs σ i t ph :
  sys_ok gs σ -> at_table t gs !! i = Some ph -> in_section ph = true ->
  ph <> Up \/ mx_writer (tabs (global σ) t) = Unlocked -> unblocked σ.
Proof.
  intros Hok Hat Hsec Hup. destruct (sys_ok_phase _ _ _ _ _ Hok Hat) as (th & g & Hi & _ & Hth & Hg).
  pose proof (active_unblocked _ _ _ _ Hok Hi) as Hact. subst ph.
  destruct (th_prog th) as [r| |t' m k| | | | |] eqn:Hp; try done.
  - unfold thread_ok in Hth. rewrite Hp in Hth. specialize (Hth t). by rewrite Hth in Hsec.
  - destruct (lock_in_section _ _ _ _ _ _ Hth Hp Hsec) as (-> & -> & Hg). destruct Hup as [|Hup]; [done|].
    eapply step_unblocked; [done|]. unfold thread_step. rewrite Hp. simpl. by rewrite Hup.
Qed.

(** Who holds [mx_reader] moves, unless it is the first and only reader. *)
Lemma reader_mutex_unblocked gs σ t :
  sys_ok gs σ -> mx_reader (tabs (global σ) t) <> Unlocked ->
  unblocked σ \/ exists j, at_table t gs !! j = Some Up.
Proof.
  intros Hok Hmx. destruct Hok as [Hths Htab]. destruct (Htab t) as [_ Hs _ _ _ [Hus _] _].
  destruct (count_pos in_section (at_table t gs)) as (j & ph & Hj & Hsec).
  { rewrite Hs. by destruct (mx_reader (tabs (global σ) t)). }
  destruct (decide (ph = Up)) as [->|Hne]; [eauto|].
  left. eapply section_unblocked; eauto. by split.
Qed.

Lemma end_read_unblocked gs σ i th t k :
  sys_ok gs σ -> threads σ !! i = Some th -> th_prog th = Lock t mx_reader_name k ->
  at_table t gs !! i = Some Rd -> unblocked σ.
Proof.
  intros Hok Hi Hp Hat. destruct (mx_reader (tabs (global σ) t)) eqn:Hmx.
  { eapply step_unblocked; [done|]. unfold thread_step. rewrite Hp. simpl. by rewrite Hmx. }
  all: destruct (reader_mutex_unblocked _ _ t Hok) as [|[j Hj]]; [congruence|done|].
  all: destruct Hok as [_ Htab]; destruct (Htab t) as [_ _ Hu _ _ _ _].
  all: pose proof (count_elem is_up _ _ _ Hj eq_refl).
  all: assert (i <> j) as Hij by congruence.
  all: pose proof (count_two is_reader _ _ _ _ _ Hij Hat Hj eq_refl eq_refl eq_refl); lia.
Qed.

Context (ord_lt : forall t t', ord t t' -> (t < t')%positive).

(** A thread that holds [t] and waits waits for a later table, or for the end of
    the section of another thread. *)
Lemma holder_unblocked gs σ i t ph :
  sys_ok gs σ -> at_table t gs !! i = Some ph -> ph = Rd \/ ph = Wri ->
  unblocked σ \/ exists th t' m k, threads σ !! i = Some th /\ th_prog th = Lock t' m k /\
    (t < t')%positive.
Proof.
  intros Hok Hat Hph. destruct (sys_ok_phase _ _ _ _ _ Hok Hat) as (th & g & Hi & Hgi & Hth & Hg).
  pose proof (active_unblocked _ _ _ _ Hok Hi) as Hact. pose proof Hth as Hth'. unfold thread_ok in Hth.
  destruct (th_prog th) as [r| |t' m k| | | | |] eqn:Hp; try (by left).
  { specialize (Hth t). naive_solver congruence. }
  destruct (sys_ok_lookup _ _ _ _ Hok Hi) as (g0 & Hg0 & _ & Hat0).
  assert (g0 = g) as -> by congruence.
  assert (g t <> Out) as Hout by (destruct Hph; congruence).
  assert (may_lock g t' -> g t' <> ph -> (t < t')%positive) as Hlt.
  { intros Hm Hne. apply ord_lt, Hm; [|done]. congruence. }
  destruct (decide (m = mx_reader_name /\ g t' = Rd)) as [[-> Hrd]|Hnrd].
  { left. eapply end_read_unblocked; eauto. by rewrite Hat0, Hrd. }
  assert (may_lock g t' /\ (g t' = Out \/ g t' = Up)) as [Hm Hph'].
  { destruct m; destruct Hth as [_ Hth]; destruct (g t'); try done; try (by destruct Hnrd);
      destruct Hth; auto. }
  right. exists th, t', m, k. split_and!; [done..|]. apply Hlt; [done|].
  destruct Hph, Hph'; congruence.
Qed.

(** By induction on how many tables are after [t]. *)
Lemma lock_unblocked gs σ n i th t m k B :
  sys_ok gs σ -> (forall j th t m k, threads σ !! j = Some th -> th_prog th = Lock t m k -> (t <= B)%positive) ->
  threads σ !! i = Some th -> th_prog th = Lock t m k -> (Pos.to_nat B - Pos.to_nat t < n)%nat ->
  unblocked σ.
Proof.
  intros Hok HB. revert i th t m k. induction n as [|n IH]; intros i th t m k Hi Hp Hn; [lia|].
  assert (forall j ph, at_table t gs !! j = Some ph -> ph = Rd \/ ph = Wri -> unblocked σ) as Hold.
  { intros j ph Hj Hph. destruct (holder_unblocked _ _ _ _ _ Hok Hj Hph) as [|(th' & t' & m' & k' & Hj' & Hp' & Hlt)];
      [done|]. pose proof (HB _ _ _ _ _ Hj' Hp'). pose proof (HB _ _ _ _ _ Hi Hp).
    eapply IH; [exact Hj'|exact Hp'|lia]. }
  assert (mx_writer (tabs (global σ) t) <> Unlocked -> unblocked σ) as Hwr.
  { intros Hmx. pose proof Hok as [_ Htab]. destruct (Htab t) as [_ _ Hu Hd Hw [_ Hus] _].
    pose proof (readers_hold_cases (at_table t gs)) as HH.
    assert (0 < held (mx_writer (tabs (global σ) t)))
      by (by destruct (mx_writer (tabs (global σ) t))).
    destruct (decide (0 < count is_writer (at_table t gs))) as [Hc|Hc].
    { destruct (count_pos _ _ Hc) as (j & [] & Hj & [=]). eauto. }
    destruct (decide (0 < count is_down (at_table t gs))) as [Hc'|Hc'].
    { destruct (count_pos _ _ Hc') as (j & [] & Hj & [=]). eapply section_unblocked; eauto. }
    pose proof (count_nonneg is_writer (at_table t gs)).
    destruct (count_pos is_reader (at_table t gs)) as (j & ph & Hj & Hr); [lia|].
    destruct ph as [| | |[]|[]| |]; simplify_eq/=; eauto using section_unblocked.
    pose proof (count_elem is_up _ _ _ Hj eq_refl). lia. }
  destruct (decide (get_mutex m (tabs (global σ) t) = Unlocked)) as [Hfree|Hmx].
  { eapply step_unblocked; [done|]. unfold thread_step. by rewrite Hp, Hfree. }
  destruct m; [|by apply Hwr].
  destruct (reader_mutex_unblocked _ _ t Hok Hmx) as [|[j Hj]]; [done|].
  destruct (decide (mx_writer (tabs (global σ) t) = Unlocked)) as [Hfree|]; [|by apply Hwr].
  eapply section_unblocked; eauto.
Qed.

#[local] Instance finished_dec (th : @thread V) : Decision (finished th).
Proof. unfold finished. destruct (th_prog th); apply _. Defined.

(** A bound on the tables that are waited for. *)
Lemma waited_bound (ths : list (@thread V)) : exists B, forall j th t m k,
  ths !! j = Some th -> th_prog th = Lock t m k -> (t <= B)%positive.
Proof.
  induction ths as [|x ths [B HB]]; [by exists 1%positive|].
  exists (match th_prog x with Lock t _ _ => Pos.max t B | _ => B end).
  intros [|j] th t m k Hj Hp; simplify_eq/=.
  - rewrite Hp. lia.
  - specialize (HB _ _ _ _ _ Hj Hp). destruct (th_prog x); lia.
Qed.

Lemma sys_ok_progress gs σ : sys_ok gs σ -> Forall finished (threads σ) \/ unblocked σ.
Proof.
  intros Hok. destruct (decide (Forall finished (threads σ))) as [|Hn]; [by left|right].
  apply not_Forall_Exists, Exists_exists in Hn as (th & [i Hi]%list_elem_of_lookup_1 & Hfin); [|apply _].
  pose proof (active_unblocked _ _ _ _ Hok Hi) as Hact. simpl in Hfin. unfold finished in Hfin.
  destruct (th_prog th) as [r| |t m k| | | | |] eqn:Hp; try done.
  destruct (waited_bound (threads σ)) as [B HB]. eapply lock_unblocked; eauto.
Qed.

End programs.

(** ** Termination *)

Section termination.
Context {V : Type} {AL : Allocator}.

Definition thread_next (th' th : @thread V) : Prop :=
  exists i w w', thread_step i th w = Some (th', w').

Lemma thread_acc (th : @thread V) : Acc thread_next th.
Proof.
  destruct th as [p run]. revert run.
  induction p as [r| |t m k IH|t m k IH|t m k IH|t k IH|t v k IH|A fp c k IH]; intros run;
    constructor; intros th' (i & w & w' & Hs); unfold thread_step in Hs; cbn in Hs.
  - discriminate.
  - discriminate.
  - destruct (get_mutex m (tabs w t)); [injection Hs as <- <-; apply IH|discriminate..].
  - destruct (get_mutex m (tabs w t)); [discriminate|injection Hs as <- <-; apply IH|discriminate].
  - destruct (get_mutex m (tabs w t)); [injection Hs as <- <-; apply IH|discriminate..].
  - injection Hs as <- <-. apply IH.
  - injection Hs as <- <-. apply IH.
  - assert (forall th'', thread_next th'' (mkThread (Call fp c k) true) -> Acc thread_next th'') as Hr.
    { intros th'' (i' & w1 & w2 & Hs'). unfold thread_step in Hs'. cbn in Hs'.
      destruct (c (view w1)) as [[a x]|]; [injection Hs' as <- <-; apply IH|discriminate]. }
    destruct run; [apply Hr; by exists i, w, w'|]. injection Hs as <- <-. by constructor.
Qed.

Definition pool_next (l' l : list (@thread V)) : Prop :=
  exists i th th', l !! i = Some th /\ thread_next th' th /\ l' = <[i := th']> l.

Lemma pool_acc (l : list (@thread V)) : Acc pool_next l.
Proof.
  induction l as [|th l IH].
  { constructor. intros l' (i & th & th' & Hi & _). done. }
  revert th. induction IH as [l _ IHl]. intros th. induction (thread_acc th) as [th Hth IHth].
  constructor. intros l' ([|i] & x & x' & Hi & Hx & ->); simplify_eq/=; [by apply IHth|].
  apply IHl. by exists i, x, x'.
Qed.

Lemma step_terminates (σ : @sys V) : sn step σ.
Proof.
  destruct σ as [ths w]. revert w. induction (pool_acc ths) as [ths _ IH]. intros w.
  constructor. intros [ths' w'] (i & Hex). unfold exec in Hex. simpl in Hex.
  destruct (ths !! i) as [th|] eqn:Hi; [|done].
  destruct (thread_step i th w) as [[th' w2]|] eqn:Hs; simplify_eq.
  apply IH. exists i, th, th'. split_and!; [done| |done]. by exists i, w, w'.
Qed.

End termination.

(** ** Clients *)

Section clients.
Context {V : Type} {AL : Allocator} (uninit : Bucket V) (ord : tid -> tid -> Prop).
Abbreviation prog := (@prog V).
Abbreviation phases := (tid -> phase).

(** The calls that keep to the protocol.  A function that locks two tables is called
    on two tables in their order.  [zend_ts_hash_clean], [zend_ts_hash_compare] and
    the functions that destroy a table are not among them. *)
Inductive delegate : forall {A : Type}, prog A -> Prop :=
  | d_add_or_update t k v n flag : delegate (_zend_ts_hash_add_or_update uninit t k v n flag)
  | d_quick_add_or_update t k h v n flag :
      delegate (_zend_ts_hash_quick_add_or_update uninit t k h v n flag)
  | d_index_update_or_next_insert t h v n flag :
      delegate (_zend_ts_hash_index_update_or_next_insert uninit t h v n flag)
  | d_add_empty_element t k v : delegate (zend_ts_hash_add_empty_element uninit t k v)
  | d_apply A t f (acc : A) : delegate (zend_ts_hash_apply t f acc)
  | d_apply_with_argument A B t f (arg : B) (acc : A) :
      delegate (zend_ts_hash_apply_with_argument t f arg acc)
  | d_apply_with_arguments A B t f (args : list B) (acc : A) :
      delegate (zend_ts_hash_apply_with_arguments t f args acc)
  | d_reverse_apply A t f (acc : A) : delegate (zend_ts_hash_reverse_apply t f acc)
  | d_del_key_or_index t k h flag : delegate (zend_ts_hash_del_key_or_index t k h flag)
  | d_get_hash_value t k : delegate (zend_ts_get_hash_value t k)
  | d_find t k : delegate (zend_ts_hash_find t k)
  | d_quick_find t k h : delegate (zend_ts_hash_quick_find t k h)
  | d_index_find t h : delegate (zend_ts_hash_index_find t h)
  | d_exists t k : delegate (zend_ts_hash_exists t k)
  | d_index_exists t h : delegate (zend_ts_hash_index_exists t h)
  | d_copy target source ctor size : source <> target -> ord source target ->
      delegate (zend_ts_hash_copy uninit target source ctor size)
  | d_copy_to_hash ht source ctor size : delegate (zend_ts_hash_copy_to_hash uninit ht source ctor size)
  | d_merge target source ctor size ov : source <> target -> ord source target ->
      delegate (zend_ts_hash_merge uninit target source ctor size ov)
  | d_merge_ex target source ctor size f : source <> target -> ord source target ->
      delegate (zend_ts_hash_merge_ex uninit target source ctor size f)
  | d_sort t f c r : delegate (zend_ts_hash_sort t f c r)
  | d_minmax t c f : delegate (zend_ts_hash_minmax t c f)
  | d_num_elements t : delegate (zend_ts_hash_num_elements t)
  | d_rehash t : delegate (zend_ts_hash_rehash t).

(** A thread that calls such functions, each call depending on the results of the
    calls before it. *)
Inductive client : prog unit -> Prop :=
  | client_end : client (mret tt)
  | client_call {A} (d : prog A) (k : A -> prog unit) :
      delegate d -> (forall a, client (k a)) -> client (d ≫= k).

Abbreviation wpt := (@wpt V ord _).

Lemma idle_same t g g' : idle g -> g' t = Out -> same_but t g g' -> idle g'.
Proof. intros Hi Ht Hs t'. destruct (decide (t' = t)) as [->|]; [done|]. by rewrite Hs. Qed.

Lemma idle_calm g t : idle g -> calm g t.
Proof. intros Hi t' _. by rewrite Hi. Qed.

Lemma idle_may_lock g t : idle g -> may_lock ord g t.
Proof. intros Hi t' _ H. by rewrite Hi in H. Qed.

Lemma wpt_call {A} fp (c : cmd (@shared V) A) g Q :
  (forall t a, (t, a) ∈ fp -> allowed a (g t)) -> (forall a, Q a g) -> wpt g (call fp c) Q.
Proof. intros Hfp HQ. by split. Qed.

Lemma wpt_reading {A} t fp (c : cmd (@shared V) A) g :
  idle g -> fp ⊆ [(t, Reads)] ->
  wpt g (begin_read t ;; r ← call fp c; end_read t ;; mret r) (fun _ => idle).
Proof.
  intros Hi Hfp. apply wpt_bind, wpt_begin_read; [apply Hi|by apply idle_calm|by apply idle_may_lock|].
  intros g1 H1 Hs1. apply wpt_bind, wpt_call.
  { intros t' a [= -> ->]%Hfp%list_elem_of_singleton. by left. }
  intros a. apply wpt_bind, wpt_end_read; [done|by eapply calm_same, idle_calm|].
  intros g2 H2 Hs2. simpl. by eapply idle_same, same_but_trans.
Qed.

Lemma wpt_writing {A B} t (c : cmd (@shared V) A) (f : A -> prog B) g :
  idle g -> (forall a g Q, (forall b, Q b g) -> wpt g (f a) Q) ->
  wpt g (begin_write t ;; r ← call [(t, Writes)] c; b ← f r; end_write t ;; mret b) (fun _ => idle).
Proof.
  intros Hi Hf. apply wpt_bind, wpt_begin_write; [apply Hi|by apply idle_calm|by apply idle_may_lock|].
  intros g1 H1 Hs1. apply wpt_bind, wpt_call.
  { by intros t' a [= -> ->]%list_elem_of_singleton. }
  intros a. apply wpt_bind, Hf. intros b. apply wpt_bind, wpt_end_write; [done|].
  intros g2 H2 Hs2. simpl. by eapply idle_same, same_but_trans.
Qed.

Lemma wpt_writing_plain {A} t (c : cmd (@shared V) A) g :
  idle g -> wpt g (begin_write t ;; r ← call [(t, Writes)] c; end_write t ;; mret r) (fun _ => idle).
Proof. intros Hi. apply (wpt_writing t c mret g Hi). intros a g' Q HQ. apply HQ. Qed.

Lemma wpt_unless_bailout {A} (a : bool * A) g Q : (forall b, Q b g) -> wpt g (unless_bailout a) Q.
Proof. intros HQ. by destruct a as [[] a]; simpl. Qed.

Lemma wpt_moving target source (c : cmd (@shared V) unit) g :
  idle g -> source <> target -> ord source target ->
  wpt g (begin_read source ;; begin_write target ;; call [(target, Writes); (source, Reads)] c ;;
    end_write target ;; end_read source) (fun _ => idle).
Proof.
  intros Hi Hne Hord. apply wpt_bind, wpt_begin_read; [apply Hi|by apply idle_calm|by apply idle_may_lock|].
  intros g1 H1 Hs1. apply wpt_bind, wpt_begin_write.
  { rewrite Hs1 by done. apply Hi. }
  { intros t' _. destruct (decide (t' = source)) as [->|]; [by rewrite H1|]. by rewrite Hs1, Hi. }
  { intros t' _ Ht'. destruct (decide (t' = source)) as [->|]; [done|]. by rewrite Hs1, Hi in Ht'. }
  intros g2 H2 Hs2. apply wpt_bind, wpt_call.
  { intros t' a. rewrite elem_of_cons, list_elem_of_singleton. intros [[= -> ->]|[= -> ->]]; [done|].
    left. by rewrite Hs2. }
  intros _. apply wpt_bind, wpt_end_write; [done|]. intros g3 H3 Hs3.
  assert (forall t', t' <> source -> g3 t' = Out) as Hout.
  { intros t' Ht'. destruct (decide (t' = target)) as [->|]; [done|].
    by rewrite Hs3, Hs2, Hs1, Hi. }
  apply wpt_end_read.
  - by rewrite Hs3, Hs2.
  - intros t' Ht'. by rewrite Hout.
  - intros g4 H4 Hs4 t'. destruct (decide (t' = source)) as [->|]; [done|]. rewrite Hs4 by done. auto.
Qed.

Lemma delegate_ok {A} (d : prog A) g : delegate d -> idle g -> wpt g d (fun _ => idle).
Proof.
  intros Hd Hi. destruct Hd.
  1-4, 9, 20, 23: by apply wpt_writing_plain.
  1-4: apply (wpt_writing _ _ unless_bailout); [done|]; intros; by apply wpt_unless_bailout.
  7, 9, 10: by apply wpt_moving.
  all: apply wpt_reading; [done|]; first [apply list_subseteq_nil | reflexivity].
Qed.

Lemma client_ok p g : client p -> idle g -> wpt g p (fun _ => idle).
Proof.
  intros Hc. revert g. induction Hc as [|A d k Hd _ IH]; intros g Hi; [done|].
  apply wpt_bind. eapply wpt_mono; [by apply delegate_ok|]. intros a g' Hi'. by apply IH.
Qed.

(** Tables no thread uses. *)
Definition fresh (w : @world V) : Prop := forall t,
  reader (tabs w t) = 0 /\ mx_reader (tabs w t) = Unlocked /\ mx_writer (tabs w t) = Unlocked.

Lemma spawn_ok ps w :
  Forall client ps -> fresh w -> sys_ok ord (replicate (length ps) (fun _ => Out)) (spawn ps w).
Proof.
  intros Hps Hw. split.
  - induction Hps as [|p ps Hp _ IH]; simpl; constructor; [|done]. by apply client_ok.
  - intros t. simpl. destruct (Hw t) as (Hr & Hm & Hw').
    set (P := at_table _ _).
    assert (Forall (eq Out) P) as HP.
    { unfold P, at_table. rewrite fmap_replicate. by apply Forall_replicate. }
    split; rewrite ?Hr, ?Hm, ?Hw'; unfold readers_hold; rewrite ?count_out by done; try done.
    intros i b v Hi. by pose proof (Forall_lookup_1 _ _ _ _ HP Hi).
Qed.

Lemma reachable_ok ps w σ :
  Forall client ps -> fresh w -> Z.of_nat (length ps) < 2 ^ 32 -> rtc step (spawn ps w) σ ->
  exists gs, sys_ok ord gs σ.
Proof.
  intros Hps Hw Hlen Hr. assert (length (threads (spawn ps w)) = length ps) as Hl by apply length_fmap.
  destruct (sys_ok_reachable _ _ _ σ (spawn_ok _ _ Hps Hw)) as (gs & Hok & _); [lia|done|eauto].
Qed.

(** When all threads are done the tables are as at the start. *)
Lemma finished_fresh gs σ : sys_ok ord gs σ -> Forall finished (threads σ) -> fresh (global σ).
Proof.
  intros [Hth Htab] Hfin t.
  assert (Forall (eq Out) (at_table t gs)) as HP.
  { clear Htab. induction Hth as [|th g ths gs Hok _ IH]; simpl; [constructor|].
    apply Forall_cons in Hfin as [Hf Hfin]. constructor; [|by apply IH].
    unfold thread_ok, finished in *. by destruct (th_prog th). }
  destruct (Htab t) as [Hr Hs _ _ Hw [Hu1 Hu2] _]. unfold readers_hold in Hw.
  rewrite !count_out in * by done. split; [done|].
  destruct (mx_reader (tabs (global σ) t)), (mx_writer (tabs (global σ) t)); done.
Qed.

End clients.

(** ** The theorems *)

Section theorems.
Context {V : Type} {AL : Allocator} (uninit : Bucket V).



End theorems.

Lemma run_rtc {V} {AL : Allocator} schedule (σ σ' : @sys V) :
  run schedule σ = Some σ' -> rtc step σ σ'.
Proof.
  revert σ. induction schedule as [|i schedule IH]; intros σ; simpl; [by intros [= ->]|].
  destruct (exec i σ) as [σ1|] eqn:Hx; [|done]. intros Hr. eapply rtc_l; [by exists i|]. by apply IH.
Qed.

(** ** Concrete runs *)

Module TsDemo.
Import Demo.

Definition w0 : @world Z := mkWorld empty (fun _ => _zend_ts_hash_init 8 true false).

Definition writer : @prog Z unit :=
  _zend_ts_hash_add_or_update uninit 1 key_a 10 sizeof_ptr HASH_ADD ≫= fun _ => mret tt.
Definition reader_ : @prog Z unit := zend_ts_hash_find 1 key_a ≫= fun _ => mret tt.
Definition copier (target source : tid) : @prog Z unit :=
  zend_ts_hash_copy uninit target source None sizeof_ptr ≫= fun _ => mret tt.

Definition ps : list (@prog Z unit) := [reader_; reader_; writer; copier 2 1].

(** Two readers inside the table at the same time. *)
Definition both : list nat := [0; 0; 0; 0; 0; 1; 1; 1; 1; 0; 1; 3; 3; 3; 3; 3; 3]%nat.

Lemma w0_fresh : fresh w0.
Proof. done. Qed.

Lemma ps_clients ord : ord 1%positive 2%positive -> Forall (client uninit ord) ps.
Proof.
  intros Hord. repeat constructor; done.
Qed.

Definition halfway : @sys Z := default (spawn [] w0) (run both (spawn ps w0)).

Lemma halfway_reached : rtc step (spawn ps w0) halfway.
Proof.
  apply (run_rtc both). unfold halfway.
  assert (match run both (spawn ps w0) with Some _ => true | None => false end = true) as Hr
    by (vm_compute; reflexivity).
  by destruct (run both (spawn ps w0)).
Qed.

(** Whether a thread is done, and what it waits for. *)
Definition waiting (th : @thread Z) : option (option (tid * mutex_name)) :=
  match th_prog th with
  | Ret _ => None
  | Lock t m _ => Some (Some (t, m))
  | _ => Some None
  end.

Definition stuck (n : nat) (σ : @sys Z) : bool :=
  forallb (fun i => match exec i σ with None => true | Some _ => false end) (seq 0 n).

End TsDemo.



(** ** Where the protocol is left *)

(** What a schedule leads to: for every thread whether it is done ([None]) or
    which mutex it waits for, and whether no thread can move. *)
Definition outcome_of (schedule : list nat) (ps : list (@prog Z unit)) :
    option (list (option (option (tid * mutex_name))) * bool) :=
  σ ← run schedule (spawn ps TsDemo.w0);
  Some (map TsDemo.waiting (threads σ), TsDemo.stuck (length ps) σ).

(** [zend_ts_hash_clean] resets the counter while a reader is inside: the reader
    then takes the counter below 0, does not unlock [mx_writer], and the
    table is locked for ever. *)
Example zend_ts_hash_clean_deadlock :
  outcome_of ([0; 0; 0; 0; 0; 1; 0; 0; 0; 0; 0; 0])%nat
    [TsDemo.reader_; zend_ts_hash_clean 1 ≫= fun _ => mret tt] =
  Some ([None; Some (Some (1%positive, mx_writer_name))], true).
Proof. vm_compute. reflexivity. Qed.

(** A copy of a table into itself waits for its own reader. *)
Example zend_ts_hash_copy_self_deadlock :
  outcome_of [0; 0; 0; 0; 0]%nat [TsDemo.copier 1 1] =
  Some ([Some (Some (1%positive, mx_writer_name))], true).
Proof. vm_compute. reflexivity. Qed.

(** Two copies in opposite directions wait for each other: the order of the tables
    in [zend_ts_hash_no_deadlock] is needed. *)
Example zend_ts_hash_copy_crossed_deadlock :
  outcome_of [0; 0; 0; 0; 0; 1; 1; 1; 1; 1]%nat [TsDemo.copier 1 2; TsDemo.copier 2 1] =
  Some ([Some (Some (1%positive, mx_writer_name)); Some (Some (2%positive, mx_writer_name))], true).
Proof. vm_compute. reflexivity. Qed.

(** Two threads compare the same tables: both write to the recursion counters of
    structs that they have locked for reading. *)
Example zend_ts_hash_compare_race :
  let comparer := zend_ts_hash_compare 1 2 Z.sub false ≫= fun _ => mret tt in
  (fun σ => map accesses (threads σ)) <$>
    run [0; 0; 0; 0; 0; 0; 0; 0; 0; 0; 0; 1; 1; 1; 1; 1; 1; 1; 1; 1]%nat
      (spawn [comparer; comparer] TsDemo.w0) =
  Some [[(Hash 1, Writes); (Hash 2, Writes)]; [(Hash 1, Writes); (Hash 2, Writes)]].
Proof. vm_compute. reflexivity. Qed.

(** The first reader locks [mx_writer], the last one unlocks it: here thread 1 is
    about to unlock a mutex that thread 0 has locked. *)
Example end_read_unlocks_other_owner :
  (fun σ => (mx_writer (tabs (global σ) 1), map (fun th => match th_prog th with
       | Unlock t m _ => Some (t, m) | _ => None end) (threads σ))) <$>
    run [0; 0; 0; 0; 0; 1; 1; 1; 1; 0; 0; 0; 0; 0; 0; 1; 1; 1; 1; 1]%nat
      (spawn [TsDemo.reader_; TsDemo.reader_] TsDemo.w0) =
  Some (LockedBy 0, [None; Some (1%positive, mx_writer_name)]).
Proof. vm_compute. reflexivity. Qed.
