(* ===== verification/ZendHashSplice.v ===== *)
(** * ZendHashSplice: replacing a range of elements

    Models [_zend_hash_splice] of src/Zend/zend_hash.c: the elements from [offset]
    on, [length] of them, leave the table (for the table [removed], if one is given)
    and new elements take their place; then the integer keys are renumbered.

    The elements taken out are stored into [removed] as [sizeof(zval * )] bytes, the
    size every caller passes as [nDataSize]. *)
From S2P Require Import Prelude Memory Dllist HashFunc OrderedMap ZendHash ZendHashRep ZendHashLink.
From S2P Require Import ZendHashDelete ZendHashRehash ZendHashInsert ZendHashAppend ZendHashDestroy.
From S2P Require Import ZendHashApply ZendHashCopy ZendHashOrder ZendHashDemo.
From stdpp Require Import base list gmap.
Local Open Scope Z_scope.

Section ops.
Context {V : Type} {AL : Allocator} (uninit : Bucket V).

Abbreviation hcmd := (cmd (store (Bucket V) V)).

(** [for (pos = 0, p = ht->pListHead; pos < offset && p; pos++, p = p->pListNext);]
    [pos] is an [int], [offset] a [uint] *)
Fixpoint skip_loop (fuel : nat) (pos offset : Z) (p : option ptr) : hcmd (Z * option ptr) :=
  if u32 pos <? offset then
    match p with
    | None => mret (pos, None)
    | Some q =>
        match fuel with
        | O => cfault
        | S fuel => b ← load q; skip_loop fuel (s32 (pos + 1)) offset (pListNext b)
        end
    end
  else mret (pos, p).

(** The copy of the element at [p] into the table [removed]. *)
Definition save_removed (ctor : option (V -> V)) (removed : HashTable) (p : ptr) : hcmd HashTable :=
  b ← load p;
  v ← load_data p;
  '(_, new_entry, removed) ←
    (if nKeyLength b =? 0
     then _zend_hash_index_update_or_next_insert uninit removed 0 v sizeof_ptr HASH_NEXT_INSERT
     else _zend_hash_quick_add_or_update uninit removed (bucket_keyarg b) (b_h b) v sizeof_ptr HASH_UPDATE);
  call_ctor ctor new_entry ;;
  mret removed.

(** [while (pos < offset + length && p) { ... }] *)
Fixpoint remove_loop (fuel : nat) (ctor : option (V -> V)) (pos stop : Z) (ht : HashTable)
    (removed : option HashTable) (p : option ptr) : hcmd (HashTable * option HashTable * option ptr) :=
  if u32 pos <? stop then
    match p with
    | None => mret (ht, removed, None)
    | Some q =>
        match fuel with
        | O => cfault
        | S fuel =>
            removed ← match removed with
                      | None => mret None
                      | Some r => r ← save_removed ctor r q; mret (Some r)
                      end;
            b ← load q;
            let p_next := pListNext b in
            ht ← zend_hash_bucket_delete ht q;
            remove_loop fuel ctor (s32 (pos + 1)) stop ht removed p_next
        end
    end
  else mret (ht, removed, p).

(** [for (i = 0; i < list_count; i++) { ... }] *)
Fixpoint insert_loop (ctor : option (V -> V)) (nDataSize : Z) (ht : HashTable) (p : option ptr)
    (elems : list V) : hcmd HashTable :=
  match elems with
  | [] => mret ht
  | v :: elems =>
      q ← alloc_node uninit;
      update q (set_arKey KNull) ;;
      update q (set_nKeyLength 0) ;;
      update q (set_b_h 0) ;;
      INIT_DATA q v nDataSize ;;
      last ← match p with
             | Some n => b ← load n; mret (pListLast b)
             | None => mret (pListTail ht)
             end;
      ht ← CONNECT_TO_GLOBAL_DLLIST_EX q ht last p;
      let ht := set_nNumOfElements (u32 (nNumOfElements ht + 1)) ht in
      d ← data_loc q;
      apply_ctor ctor d ;;
      insert_loop ctor nDataSize ht p elems
  end.

(** [elems] is [list[0 .. list_count)], [None] for a NULL [list]. *)
Definition _zend_hash_splice (ht : HashTable) (nDataSize : Z) (ctor : option (V -> V)) (offset length : Z)
    (elems : option (list V)) (removed : option HashTable) : hcmd (HashTable * option HashTable) :=
  let ht := CHECK_INIT ht in
  '(pos, p) ← skip_loop (loop_bound ht) 0 offset (pListHead ht);
  '(ht, removed, p) ← remove_loop (loop_bound ht) ctor pos (u32 (offset + length)) ht removed p;
  ht ← match elems with
       | None => mret ht
       | Some elems => ht ← insert_loop ctor nDataSize ht p elems; ZEND_HASH_IF_FULL_DO_RESIZE ht
       end;
  ht ← zend_hash_reindex ht true;
  mret (ht, removed).

End ops.

(** ** Two tables in one store *)

Section tables.
Context {V : Type}.
Implicit Types (s : store (Bucket V) V) (ht : HashTable) (L R : list ptr).

(** [ht] has the buckets [L], the optional second table the buckets [R]. *)
Definition tables (s : store (Bucket V) V) ht L (removed : option HashTable) R : Prop :=
  ht_rep s ht L /\ match removed with Some r => ht_rep s r R | None => R = [] end /\ apart s L R.

Lemma owned_app s L R a : owned s (L ++ R) a <-> owned s L a \/ owned s R a.
Proof. unfold owned. setoid_rewrite elem_of_app. naive_solver. Qed.

Lemma same_rest_right s R s' R' L :
  (forall q, q ∈ L -> nodes s' !! q = nodes s !! q) -> same_rest s R s' R' ->
  same_rest s (L ++ R) s' (L ++ R').
Proof.
  intros HL [Hn Hb].
  assert (HoL : forall a, owned s' L a <-> owned s L a).
  { intros a. split; apply owned_agree; intros q Hq; by rewrite HL. }
  split.
  - intros p b. rewrite !not_elem_of_app. specialize (Hn p b). tauto.
  - intros a v. rewrite !owned_app, HoL. specialize (Hb a v). tauto.
Qed.

Lemma same_rest_swap s L R s' L' R' :
  same_rest s (R ++ L) s' (R' ++ L') -> same_rest s (L ++ R) s' (L' ++ R').
Proof.
  intros [Hn Hb]. split.
  - intros p b. specialize (Hn p b). rewrite !not_elem_of_app in *. tauto.
  - intros a v. specialize (Hb a v). rewrite !owned_app in *. tauto.
Qed.

Lemma tables_left s s' ht ht' L L' removed R :
  tables s ht L removed R -> ht_rep s' ht' L' -> same_rest s L s' L' ->
  tables s' ht' L' removed R /\ same_rest s (L ++ R) s' (L' ++ R) /\ contents s' R = contents s R.
Proof.
  intros (HR & Hrem & Hd & Hdb) HR' Hrest.
  assert (Hn : forall q, q ∈ R -> nodes s' !! q = nodes s !! q).
  { destruct removed as [r|]; [|set_solver]. by apply (same_rest_other s s' L L' r R). }
  split; [|split; [by apply same_rest_swap, same_rest_right|]].
  - destruct removed as [r|].
    + destruct (same_rest_other s s' L L' r R) as (? & _ & ? & ? & _); [done..|]. by split.
    + subst R. split; [done|]. split; [done|]. split; [set_solver|]. intros a (? & ? & ?%elem_of_nil & _). done.
  - destruct removed as [r|]; [|by subst]. by destruct (same_rest_other s s' L L' r R) as (_ & ? & _).
Qed.

Lemma tables_right s s' ht r r' L R R' :
  tables s ht L (Some r) R -> ht_rep s' r' R' -> same_rest s R s' R' ->
  tables s' ht L (Some r') R' /\ same_rest s (L ++ R) s' (L ++ R') /\ contents s' L = contents s L /\
  (forall q, q ∈ L -> nodes s' !! q = nodes s !! q).
Proof.
  intros (HR & Hrem & Hd & Hdb) HR' Hrest.
  destruct (same_rest_other s s' R R' ht L) as (HL & Hc & Hd' & Hdb' & Hn); [done|done|set_solver|naive_solver|].
  split; [|split_and!; [by apply same_rest_right|done|done]]. split; [done|]. split; [done|]. split; [set_solver|naive_solver].
Qed.

End tables.

Section rules.
Context {V : Type} {AL : Allocator} (uninit : Bucket V).
Implicit Types (m : gmap ptr (Bucket V)) (b : Bucket V) (p q : ptr) (L R : list ptr).
Implicit Types (s : store (Bucket V) V) (ht : HashTable).

(** ** Skipping and removing *)

Lemma wp_skip_loop fuel pos offset L1 L2 Q s :
  dll list_links (nodes s) (L1 ++ L2) -> (length L2 < fuel)%nat -> 0 <= pos -> 0 <= offset ->
  pos + Z.of_nat (length L2) < 2 ^ 31 ->
  (let n := Z.to_nat (offset - pos) in
   Q (pos + Z.of_nat (length (take n L2)), head (drop n L2)) s) ->
  wp (skip_loop fuel pos offset (head L2)) Q s.
Proof.
  revert pos L1 L2. induction fuel as [|fuel IH]; intros pos L1 L2 Hd Hlen Hpos Hoff Hbound HQ; [lia|].
  simpl. rewrite wrap_u_small by lia. cbv zeta in HQ. destruct (Z.ltb_spec pos offset) as [Hlt|Hge].
  - destruct L2 as [|p L2]; simpl in *.
    { wp_step. rewrite take_nil, drop_nil, Z.add_0_r in HQ. done. }
    destruct (dll_lookup _ _ _ _ _ Hd) as (b & Hb & _ & Hnext). wp_step. wp_step.
    change (pListNext b) with (lnext list_links b). rewrite Hnext.
    assert (s32 (pos + 1) = pos + 1) as -> by (apply wrap_s_small; lia).
    apply (IH (pos + 1) (L1 ++ [p])); [by rewrite <- app_assoc|lia|lia|lia|lia|]. cbv zeta.
    replace (Z.to_nat (offset - pos)) with (S (Z.to_nat (offset - (pos + 1)))) in HQ by lia. simpl in HQ.
    by replace (pos + 1 + Z.of_nat (length (take (Z.to_nat (offset - (pos + 1))) L2)))
      with (pos + Z.of_nat (S (length (take (Z.to_nat (offset - (pos + 1))) L2)))) by lia.
  - wp_step. replace (Z.to_nat (offset - pos)) with 0%nat in HQ by lia. simpl in HQ. by rewrite Z.add_0_r in HQ.
Qed.

(** The elements as they are stored in the second table. *)
Definition saved (ctor : option (V -> V)) (nf : Z) (E : list (hkey * V)) : list (hkey * V) :=
  renumber true nf ((fun kv => (kv.1, ctor_val ctor kv.2)) <$> E).

(** Elements with integer keys are appended, those with string keys are new. *)
Lemma wp_save_removed s ht L r R q b v ctor Q :
  tables s ht L (Some r) R -> q ∈ L -> nodes s !! q = Some b -> entry s q = Some (bucket_key b, v) ->
  Z.of_nat (length R) + 1 < 2 ^ 32 -> nNextFreeElement r < LONG_MAX ->
  (nKeyLength b <> 0 -> om_lookup (bucket_key b) (contents s R) = None) ->
  (forall s' r' R', tables s' ht L (Some r') R' -> contents s' L = contents s L ->
     same_rest s (L ++ R) s' (L ++ R') -> (forall x, x ∈ L -> nodes s' !! x = nodes s !! x) ->
     contents s' R' = contents s R ++ saved ctor (nNextFreeElement r) [(bucket_key b, v)] ->
     nNextFreeElement r' = nNextFreeElement r + renumbered true [(bucket_key b, v)] ->
     dtor_trace s' = dtor_trace s -> length R' = S (length R) -> Q r' s') ->
  wp (save_removed uninit ctor r q) Q s.
Proof.
  intros HT Hq Hb He Hlen Hnf Hnew HQ. pose proof HT as (HL & HR & Hap).
  assert (Hv : bucket_val (blocks s) b = Some v).
  { unfold entry in He. rewrite Hb in He. simpl in He. destruct (bucket_val _ b); by simplify_eq/=. }
  assert (Hfin : forall key nf d r' s1, om_lookup key (contents s R) = None ->
    insert_post s r R key v true nf (SUCCESS, d, r') s1 -> nf = nNextFreeElement r + renumbered true [(bucket_key b, v)] ->
    saved ctor (nNextFreeElement r) [(bucket_key b, v)] = [(key, ctor_val ctor v)] ->
    wp (call_ctor ctor d ;; mret r') Q s1).
  { intros key nf d r' s1 Hl Hpost Hnf' Hsv. unfold insert_post in Hpost. rewrite Hl in Hpost.
    destruct Hpost as (_ & p & HR1 & Hc1 & Hrest1 & Htr1 & _ & Hn1 & _ & Hd). wp_step.
    apply (wp_call_ctor s1 r' (R ++ [p]) key v); [done|done|]. intros s' HR' Hc' Hrest' Htr'. wp_step.
    destruct (tables_right s s' ht r r' L R (R ++ [p])) as (HT' & Hrs & HcL & Hn); [done|done|by eapply same_rest_trans|].
    apply (HQ s' r' (R ++ [p])); [done|done|done|done| |congruence|congruence|rewrite length_app; simpl; lia].
    rewrite Hc', Hc1, om_insert_insert, Hsv. unfold om_insert. by rewrite Hl. }
  unfold save_removed. wp_step. wp_step. wp_step. eapply wp_load_data; [done..|].
  destruct (Z.eqb_spec (nKeyLength b) 0) as [Hz|Hz].
  - assert (Hk : bucket_key b = HInt (b_h b)) by by apply bucket_key_int.
    destruct (next_free_unused _ _ _ HR Hnf) as [Hl Hnext].
    wp_step. eapply wp_mono; [apply (wp_index_update_or_next_insert uninit s r R 0 v sizeof_ptr HASH_NEXT_INSERT); [done|lia|done]|].
    intros [[res d] r'] s1 Hpost. rewrite decide_True in Hpost by done. rewrite Hk in *.
    assert (res = SUCCESS) as -> by (unfold insert_post in Hpost; rewrite Hl in Hpost; by destruct Hpost).
    eapply (Hfin (HInt (nNextFreeElement r))); [done| |exact Hnext|done].
    unfold insert_post in *. rewrite Hl in *. exact Hpost.
  - destruct (bucket_keyarg_ok _ _ _ _ _ HL Hq Hb Hz) as (Hk & Hh & Hkey). rewrite Hh, Hkey in *.
    wp_step. eapply wp_mono; [apply (wp_quick_add_or_update uninit s r R (bucket_keyarg b) v sizeof_ptr HASH_UPDATE); done|].
    intros [[res d] r'] s1 Hpost. specialize (Hnew Hz).
    assert (res = SUCCESS) as -> by (unfold insert_post in Hpost; rewrite Hnew in Hpost; by destruct Hpost).
    eapply (Hfin (HStr (k_bytes (bucket_keyarg b)))); [done| | |done].
    + unfold insert_post in *. rewrite Hnew in *. exact Hpost.
    + simpl. lia.
Qed.

Lemma saved_cons ctor nf k (v : V) E :
  saved ctor nf ((k, v) :: E) = saved ctor nf [(k, v)] ++ saved ctor (nf + renumbered true [(k, v)]) E.
Proof. unfold saved. destruct k; cbn; by rewrite ?Z.add_0_r. Qed.

(** The second table can take [n] more elements, and has none of the string keys of [E]. *)
Definition has_room s (removed : option HashTable) R (n : nat) (E : list (hkey * V)) : Prop :=
  match removed with
  | None => True
  | Some r => Z.of_nat (length R) + Z.of_nat n < 2 ^ 32 /\ nNextFreeElement r + Z.of_nat n <= LONG_MAX /\
      forall x, HStr x ∈ om_keys E -> om_lookup (HStr x) (contents s R) = None
  end.

Definition after_saving s ctor (removed : option HashTable) R (E : list (hkey * V)) : list (hkey * V) :=
  match removed with
  | None => []
  | Some r => contents s R ++ saved ctor (nNextFreeElement r) E
  end.

(** The optional copy of one element. *)
Lemma wp_save_option s ht L removed R q b v ctor n E Q :
  tables s ht L removed R -> q ∈ L -> nodes s !! q = Some b -> entry s q = Some (bucket_key b, v) ->
  NoDup (om_keys ((bucket_key b, v) :: E)) -> has_room s removed R (S n) ((bucket_key b, v) :: E) ->
  (forall s' removed' R', tables s' ht L removed' R' -> contents s' L = contents s L ->
     same_rest s (L ++ R) s' (L ++ R') -> (forall x, x ∈ L -> nodes s' !! x = nodes s !! x) ->
     dtor_trace s' = dtor_trace s -> has_room s' removed' R' n E ->
     (forall F, after_saving s' ctor removed' R' F = after_saving s ctor removed R ((bucket_key b, v) :: F)) ->
     Q removed' s') ->
  wp (match removed with None => mret None | Some r => r ← save_removed uninit ctor r q; mret (Some r) end) Q s.
Proof.
  intros HT Hq Hb He HND Hroom HQ. destruct removed as [r|].
  - destruct Hroom as (H1 & H2 & H3). wp_step.
    apply (wp_save_removed s ht L r R q b v ctor); [done|done|done|done|lia|lia| |].
    { intros Hz. unfold bucket_key in *. destruct (Z.eqb_spec (nKeyLength b) 0); [done|]. apply H3. left. }
    intros s' r' R' HT' Hc Hrest Hn HcR Hnf Htr HlR. wp_step.
    apply (HQ s' (Some r') R'); [done|done|done|done|done| |].
    + pose proof (renumbered_range true [(bucket_key b, v)]) as Hrr. cbn [length] in Hrr.
      split_and!; [lia|lia|]. intros x Hx. rewrite HcR, om_lookup_app, H3 by (by right).
      unfold om_keys in HND, Hx. rewrite fmap_cons in HND. apply NoDup_cons in HND as [Hk _].
      unfold saved. simpl in Hk |- *. destruct (bucket_key b) as [y|i]; [|done]. simpl.
      rewrite decide_False; [done|]. intros [= ->]. done.
    + intros F. unfold after_saving. rewrite HcR, Hnf, (saved_cons ctor _ _ v F). by rewrite <- app_assoc.
  - wp_step. by apply (HQ s None R).
Qed.

Lemma take_subset {A} n (l : list A) : take n l ⊆ l.
Proof. intros x [i [Hi _]%lookup_take_Some]%list_elem_of_lookup. by eapply list_elem_of_lookup_2. Qed.

Lemma drop_subset {A} n (l : list A) : drop n l ⊆ l.
Proof. intros x [i Hi]%list_elem_of_lookup. rewrite lookup_drop in Hi. by eapply list_elem_of_lookup_2. Qed.

(** Equal contents are equal element by element. *)
Lemma contents_subset s s' ht ht' L L' X :
  ht_rep s ht L -> ht_rep s' ht' L' -> L' ⊆ L -> contents s' L' = contents s L' -> X ⊆ L' ->
  contents s' X = contents s X.
Proof.
  intros HR HR' HL Hc HX. apply omap_ext_in. intros x Hx%HX. clear HX X.
  assert (Hsub : L' ⊆ L') by done. revert Hc Hsub Hx. generalize L' at 1 2 3 5.
  intros Y. induction Y as [|y Y IHY]; intros HY HYs Hx; [set_solver|].
  destruct (rep_entry _ _ _ y HR) as (? & ? & _ & _ & _ & Ey); [set_solver|].
  destruct (rep_entry _ _ _ y HR') as (? & ? & _ & _ & _ & Ey2); [set_solver|].
  rewrite (contents_cons _ _ _ _ Ey), (contents_cons _ _ _ _ Ey2) in HY. injection HY as H1 H2 H3.
  apply elem_of_cons in Hx as [->|Hx]; [congruence|]. apply IHY; [done|set_solver|done].
Qed.

Lemma wp_remove_loop fuel ctor pos stop s ht L1 L2 removed R Q :
  tables s ht (L1 ++ L2) removed R -> (length L2 < fuel)%nat -> 0 <= pos -> 0 <= stop ->
  pos + Z.of_nat (length L2) < 2 ^ 31 -> has_room s removed R (length L2) (contents s L2) ->
  (forall s' ht' removed' R', let n := Z.to_nat (stop - pos) in
     tables s' ht' (L1 ++ drop n L2) removed' R' ->
     contents s' (L1 ++ drop n L2) = contents s (L1 ++ drop n L2) ->
     contents s' R' = after_saving s ctor removed R (contents s (take n L2)) ->
     same_rest s ((L1 ++ L2) ++ R) s' ((L1 ++ drop n L2) ++ R') ->
     dtor_trace s' = dtor_trace s ++ if_dtor ht (snd <$> contents s (take n L2)) ->
     same_config ht ht' -> nTableSize ht' = nTableSize ht -> nTableMask ht' = nTableMask ht ->
     Q (ht', removed', head (drop n L2)) s') ->
  wp (remove_loop uninit fuel ctor pos stop ht removed (head L2)) Q s.
Proof.
  revert pos s ht L2 removed R Q.
  induction fuel as [|fuel IH]; intros pos s ht L2 removed R Q HT Hlen Hpos Hstop Hbound Hroom HQ; [lia|].
  assert (Hdone : take (Z.to_nat (stop - pos)) L2 = [] -> drop (Z.to_nat (stop - pos)) L2 = L2 ->
    Q (ht, removed, head L2) s).
  { intros Ht Hd. specialize (HQ s ht removed R). cbv zeta in HQ. rewrite Ht, Hd in HQ.
    apply HQ; try done; [|simpl; unfold if_dtor; destruct (pDestructor ht); by rewrite app_nil_r].
    pose proof HT as (_ & Hrem & _). destruct removed; simpl; [by rewrite app_nil_r|by subst]. }
  simpl. rewrite wrap_u_small by lia. destruct (Z.ltb_spec pos stop) as [Hlt|Hge].
  2:{ wp_step. apply Hdone; by replace (Z.to_nat (stop - pos)) with 0%nat by lia. }
  destruct L2 as [|q L2]; simpl; [wp_step; apply Hdone; [by rewrite take_nil|by rewrite drop_nil]|].
  simpl in Hlen, Hbound. pose proof HT as (HR & _). pose proof (rep_contents_keys _ _ _ HR) as HND.
  destruct (contents_mid _ _ _ _ _ HR) as (b & v & Hb & _ & _ & He & Hc). rewrite Hc in HND.
  assert (HND2 : NoDup (om_keys ((bucket_key b, v) :: contents s L2))).
  { unfold om_keys in *. rewrite fmap_app in HND. by apply NoDup_app in HND as (_ & _ & ?). }
  rewrite (contents_cons _ _ _ _ He) in Hroom.
  wp_step. apply (wp_save_option s ht (L1 ++ q :: L2) removed R q b v ctor (length L2) (contents s L2));
    [done|set_solver|done|done|done|done|].
  intros s1 removed1 R1 HT1 Hc1 Hrest1 Hn1 Htr1 Hroom1 Hsave. pose proof HT1 as (HR1 & _).
  destruct (rep_order _ _ _ HR1) as (Hd1 & _).
  destruct (dll_lookup _ _ _ _ _ Hd1) as (b1 & Hb1 & _ & Hnext). assert (b1 = b) as -> by (rewrite Hn1 in Hb1 by set_solver; congruence).
  wp_step. wp_step. change (pListNext b) with (lnext list_links b). rewrite Hnext.
  rewrite (cons_middle q L1 L2), app_assoc in HR, HR1, Hc1.
  destruct (contents_split _ _ _ _ _ _ HR HR1 Hc1) as [HcA HcB].
  rewrite <- app_assoc, <- cons_middle in HR, HR1, Hc1.
  rewrite !contents_app in HcA. apply app_inj_1 in HcA as [HcL1 Hcq].
  2:{ rewrite (rep_contents_length _ _ _ _ HR), (rep_contents_length _ _ _ _ HR1) by set_solver. done. }
  wp_step. unfold zend_hash_bucket_delete. apply (wp_bucket_delete ht L1 q L2); [done|].
  intros b' v' s2 arB Hb' He' HR2 Hc2 Hrest2 Htr2. set (ht2 := deleted_ht ht L1 q L2 arB) in *.
  assert (v' = v) as ->.
  { rewrite (contents_cons s q [] _ He), (contents_cons s1 q [] _ He') in Hcq. by injection Hcq. }
  destruct (tables_left s1 s2 ht ht2 (L1 ++ q :: L2) (L1 ++ L2) removed1 R1 HT1 HR2 Hrest2) as (HT2 & Hrest2' & HcR2).
  assert (contents s2 L1 = contents s L1 /\ contents s2 L2 = contents s L2) as [HcL1' HcL2'].
  { rewrite !contents_app in Hc2. apply app_inj_1 in Hc2 as [E1 E2]; [split; congruence|].
    rewrite (rep_contents_length _ _ _ _ HR1), (rep_contents_length _ _ _ _ HR2) by set_solver. done. }
  assert (s32 (pos + 1) = pos + 1) as -> by (apply wrap_s_small; lia).
  apply (IH (pos + 1) s2 ht2 L2 removed1 R1); [done|lia|lia|lia|lia| |].
  { rewrite HcL2'. unfold has_room in *. destruct removed1; [|done]. by rewrite HcR2. }
  cbv zeta. intros s' ht' removed' R' HT' Hc' HcR' Hrest' Htr' Hcfg Hts Htm.
  specialize (HQ s' ht' removed' R'). cbv zeta in HQ.
  replace (Z.to_nat (stop - pos)) with (S (Z.to_nat (stop - (pos + 1)))) in HQ by lia. cbn [take drop] in HQ.
  set (n := Z.to_nat (stop - (pos + 1))) in *.
  assert (Hsub : forall X, X ⊆ L1 ++ L2 -> contents s2 X = contents s X).
  { intros X HX. apply (contents_subset s s2 ht ht2 (L1 ++ q :: L2) (L1 ++ L2)); [done|done|set_solver| |done].
    by rewrite !contents_app, HcL1', HcL2'. }
  pose proof (drop_subset n L2) as Hds. pose proof (take_subset n L2) as Hts'.
  rewrite (contents_cons _ _ _ _ He) in HQ. rewrite (Hsub (take n L2)) in HcR', Htr' by set_solver. apply HQ; try done.
  - rewrite Hc'. apply Hsub. set_solver.
  - rewrite HcR'. rewrite <- Hsave. unfold after_saving. destruct removed1; [|done]. by rewrite HcR2.
  - eapply same_rest_trans; [exact Hrest1|]. eapply same_rest_trans; [exact Hrest2'|exact Hrest'].
  - rewrite Htr', Htr2, Htr1, fmap_cons. cbn [snd].
    rewrite (if_dtor_config ht ht2) by done. unfold if_dtor. destruct (pDestructor ht); by rewrite <- ?app_assoc.
Qed.

End rules.

(** ** Elements that are only in the order list *)

Section loose.
Context {V : Type} {AL : Allocator} (uninit : Bucket V).
Implicit Types (m : gmap ptr (Bucket V)) (b : Bucket V) (p q : ptr) (L R : list ptr).
Implicit Types (s : store (Bucket V) V) (ht : HashTable).

(** The invariant without the chains and without distinct keys. *)
Record loose_rep s ht L : Prop := {
  loose_order : order_ok (nodes s) ht L;
  loose_size : exists k, 3 <= k <= 31 /\ nTableSize ht = 2 ^ k;
  loose_mask : nTableMask ht = nTableSize ht - 1;
  loose_buckets : buckets_ok s L;
  loose_blocks : blocks_ok (nodes s) L;
  loose_internal : internal_ok ht L
}.

Lemma rep_loose s ht L : ht_rep s ht L -> nTableMask ht = nTableSize ht - 1 -> loose_rep s ht L.
Proof. intros HR Hm. split; try apply HR; done. Qed.

Lemma loose_owned_live s ht L a : loose_rep s ht L -> owned s L a -> is_Some (blocks s !! a).
Proof.
  intros HR (p & b & Hp & Hb & Hd). destruct (loose_buckets _ _ _ HR p b Hp Hb) as [_ Hv].
  unfold bucket_val in Hv. by rewrite Hd in Hv.
Qed.

(** What the memory [s'] with a new element [q] has in common with [s]. *)
Definition grown s s' L1 q L2 (b : Bucket V) : Prop :=
  nodes s !! q = None /\ nodes s' !! q = Some b /\
  (forall x, x <> q -> payload <$> nodes s' !! x = payload <$> nodes s !! x) /\
  (forall x, x ∉ L1 ++ q :: L2 -> nodes s' !! x = nodes s !! x) /\
  ((pData b = AtDataPtr /\ blocks s' = blocks s) \/
   exists a w, pData b = AtBlock a /\ blocks s !! a = None /\ blocks s' = <[a := w]> (blocks s)).

Section grow.
Context s s' ht L1 q L2 b (w : V) (HR : loose_rep s ht (L1 ++ L2)) (HG : grown s s' L1 q L2 b).

Lemma grow_notin : q ∉ L1 ++ L2.
Proof.
  intros Hq. destruct (loose_order _ _ _ HR) as (HL & _). destruct HG as (Hn & _).
  destruct (dll_elem _ _ _ _ HL Hq). congruence.
Qed.

Lemma grow_agree : agree payload (nodes s) (nodes s') (L1 ++ L2).
Proof. intros x Hx. destruct HG as (_ & _ & Hp & _). apply Hp. intros ->. by apply grow_notin. Qed.

Lemma grow_owned a : owned s' (L1 ++ q :: L2) a <-> owned s (L1 ++ L2) a \/ pData b = AtBlock a.
Proof.
  destruct HG as (_ & Hb & _). split.
  - intros (x & bx & Hx & Hbx & Hd). destruct (decide (x = q)) as [->|Hxq]; [right; congruence|].
    left. eapply owned_agree; [apply grow_agree|]. exists x, bx. split_and!; [set_solver|done|done].
  - intros [Ho|Hd]; [|exists q, b; set_solver]. eapply (owned_subset _ (L1 ++ L2)); [set_solver|].
    eapply owned_agree; [apply agree_sym, grow_agree|done].
Qed.

Lemma grow_new_block a : pData b = AtBlock a -> ~ owned s (L1 ++ L2) a.
Proof.
  intros Hd Ho. destruct (loose_owned_live _ _ _ _ HR Ho). destruct HG as (_ & _ & _ & _ & [[? _]|(a' & w' & ? & ? & _)]); congruence.
Qed.

Lemma grow_blocks : agree_blocks s s' (L1 ++ L2).
Proof.
  intros a Ho. destruct HG as (_ & _ & _ & _ & [[_ ->]|(a' & w' & Hd & _ & ->)]); [done|].
  rewrite lookup_insert_ne; [done|]. intros ->. by apply (grow_new_block a).
Qed.

Lemma grow_same_rest : same_rest s (L1 ++ L2) s' (L1 ++ q :: L2).
Proof.
  destruct HG as (Hn & Hb & _ & Hout & Hbl). split.
  - intros x bx. split.
    + intros [Hx Hxn]. rewrite Hout in Hx by done. set_solver.
    + intros [Hx Hxn]. assert (x <> q) by congruence. rewrite Hout by set_solver. set_solver.
  - intros a v. rewrite grow_owned. destruct Hbl as [[Hd ->]|(a' & w' & Hd & Hna & ->)]; rewrite Hd.
    + naive_solver.
    + rewrite lookup_insert_Some. naive_solver.
Qed.

Lemma grow_rep :
  dll list_links (nodes s') (L1 ++ q :: L2) -> bucket_ok q b -> bucket_val (blocks s') b = Some w ->
  Z.of_nat (length (L1 ++ L2)) + 1 < 2 ^ 32 ->
  loose_rep s' (set_nNumOfElements (u32 (nNumOfElements ht + 1)) (set_ends (L1 ++ q :: L2) ht)) (L1 ++ q :: L2).
Proof.
  intros Hd Hok Hv Hlen. destruct (loose_order _ _ _ HR) as (_ & _ & _ & Hn & _).
  pose proof HG as (_ & Hb & _). assert (Hlen' : length (L1 ++ q :: L2) = S (length (L1 ++ L2))) by (rewrite !length_app; cbn [length]; lia).
  split; simpl.
  - split_and!; [done|done|done| |]; rewrite ?Hn, Hlen'; [rewrite wrap_u_small by lia|]; cbn; lia.
  - apply HR.
  - apply HR.
  - intros x bx Hx Hbx. destruct (decide (x = q)) as [->|Hxq]; [assert (bx = b) as -> by congruence; eauto|].
    apply (buckets_ok_agree s s' (L1 ++ L2) grow_agree grow_blocks (loose_buckets _ _ _ HR)); [set_solver|done].
  - pose proof (blocks_ok_agree _ _ _ grow_agree (loose_blocks _ _ _ HR)) as HB.
    assert (Hnew : forall x bx a, x ∈ L1 ++ L2 -> nodes s' !! x = Some bx -> pData bx = AtBlock a -> pData b <> AtBlock a).
    { intros x bx a Hx Hbx Hdx Hdb. apply (grow_new_block a Hdb). eapply owned_agree; [apply grow_agree|]. by exists x, bx. }
    intros x y bx by' a Hx Hy Hbx Hby Hdx Hdy.
    destruct (decide (x = q)) as [->|Hxq], (decide (y = q)) as [->|Hyq]; [done|..].
    + exfalso. apply (Hnew y by' a); [set_solver|done|done|congruence].
    + exfalso. apply (Hnew x bx a); [set_solver|done|done|congruence].
    + apply (HB x y bx by' a); try done; set_solver.
  - intros x Hx. pose proof (loose_internal _ _ _ HR x Hx). set_solver.
Qed.

Lemma grow_contents X : X ⊆ L1 ++ L2 -> contents s' X = contents s X.
Proof.
  intros HX. apply omap_ext_in. intros x Hx. eapply entry_agree; [apply grow_agree|apply grow_blocks|by apply HX].
Qed.

End grow.

(** The copy constructor on the data of one element. *)
Lemma wp_ctor_new s q b v ctor Q :
  nodes s !! q = Some b -> bucket_val (blocks s) b = Some v ->
  (forall b' bl, strip_data b = strip_data b' -> pData b' = pData b ->
     bucket_val bl b' = Some (ctor_val ctor v) ->
     (bl = blocks s \/ exists a w, pData b = AtBlock a /\ bl = <[a := w]> (blocks s)) ->
     Q tt (Store (<[q := b']> (nodes s)) bl (dtor_trace s))) ->
  wp (apply_ctor ctor (loc_of q b)) Q s.
Proof.
  intros Hb Hv HQ. unfold apply_ctor, loc_of, bucket_val in *. destruct ctor as [f|]; simpl in *.
  - destruct (pData b) as [|a] eqn:Hd.
    + eapply wp_update; [done|]. rewrite (alter_insert_Some _ _ _ b) by done.
      apply (HQ (set_pDataPtr (f <$> pDataPtr b) b)); [by destruct b|done| |by left]. simpl. by rewrite Hd, Hv.
    + wp_step. eapply wp_load_block; [done|]. eapply wp_store_block; [done|].
      specialize (HQ b (<[a := f v]> (blocks s))). rewrite (insert_id (nodes s) q b) in HQ by done. apply HQ; [done|done| |eauto].
      rewrite Hd. apply lookup_insert_eq.
  - wp_step. specialize (HQ b (blocks s)). rewrite (insert_id (nodes s) q b) in HQ by done. destruct s. apply HQ; auto.
Qed.

(** One new element before [L2]. *)
Lemma wp_insert_one {A} s ht L1 L2 v n ctor (f : HashTable -> cmd (store (Bucket V) V) A) Q :
  loose_rep s ht (L1 ++ L2) -> Z.of_nat (length (L1 ++ L2)) + 1 < 2 ^ 32 ->
  (forall s' ht' q, loose_rep s' ht' (L1 ++ q :: L2) ->
     (forall X, X ⊆ L1 ++ L2 -> contents s' X = contents s X) -> entry s' q = Some (HInt 0, ctor_val ctor v) ->
     same_rest s (L1 ++ L2) s' (L1 ++ q :: L2) -> dtor_trace s' = dtor_trace s -> same_config ht ht' ->
     wp (f ht') Q s') ->
  wp (q ← alloc_node uninit;
      update q (set_arKey KNull) ;;
      update q (set_nKeyLength 0) ;;
      update q (set_b_h 0) ;;
      INIT_DATA q v n ;;
      last ← match head L2 with
             | Some n => b ← load n; mret (pListLast b)
             | None => mret (pListTail ht)
             end;
      ht ← CONNECT_TO_GLOBAL_DLLIST_EX q ht last (head L2);
      let ht := set_nNumOfElements (u32 (nNumOfElements ht + 1)) ht in
      d ← data_loc q;
      apply_ctor ctor d ;;
      f ht) Q s.
Proof.
  intros HR Hlen HQ. destruct (loose_order _ _ _ HR) as (HL & Hhd & Htl & Hn & Hlt).
  wp_step. apply wp_alloc_node. intros q Hq Hbq.
  do 3 (wp_step; eapply wp_update; [apply lookup_insert_eq|]; simpl;
    rewrite (alter_insert_Some _ _ _ _ (lookup_insert_eq _ _ _)), insert_insert_eq).
  wp_step. eapply wp_init_data; [apply lookup_insert_eq|]. simpl. intros b1 bl Hs Hv Hbl. rewrite insert_insert_eq.
  assert (HqL : q ∉ L1 ++ L2) by (intros Hin; destruct (dll_elem _ _ _ _ HL Hin); congruence).
  set (s1 := Store (<[q := b1]> (nodes s)) bl (dtor_trace s)).
  assert (HL1 : dll list_links (nodes s1) (L1 ++ L2)).
  { eapply dll_frame; [|exact HL]. intros x Hx. simpl. rewrite lookup_insert_ne; [done|]. by intros ->. }
  wp_step. apply (wp_mono _ (fun l s' => l = last L1 /\ s' = s1)).
  { destruct L2 as [|n2 L2]; simpl.
    - wp_step. by rewrite Htl, app_nil_r.
    - destruct (dll_lookup _ _ _ _ _ HL1) as (bn & Hbn & Hprev & _). wp_step. eapply wp_load; [exact Hbn|]. wp_step.
      split; [exact Hprev|done]. }
  intros l s' [-> ->]. wp_step. apply (wp_connect_global_ex q b1 ht L1 L2); [apply lookup_insert_eq|done|done|done|done|].
  intros m2 HL2 Hout Hobs. cbv zeta.
  assert (exists b2, m2 !! q = Some b2 /\ strip_list b2 = strip_list b1) as (b2 & Hb2 & E2).
  { specialize (Hobs q). unfold s1 in Hobs. cbn [nodes] in Hobs. rewrite lookup_insert_eq in Hobs.
    destruct (m2 !! q) as [b2|]; [|done]. exists b2. by apply (inj Some) in Hobs. }
  assert (Hpay2 : payload b2 = payload b1) by by apply strip_list_payload.
  assert (Hv2 : bucket_val bl b2 = Some v) by by rewrite (payload_val _ _ _ Hpay2).
  wp_step. eapply wp_data_loc; [exact Hb2|]. wp_step.
  apply (wp_ctor_new (set_nodes m2 s1) q b2 v ctor); [exact Hb2|exact Hv2|].
  intros b3 bl3 E3 Hd3 Hv3 Hbl3. simpl.
  set (s3 := Store (<[q := b3]> m2) bl3 (dtor_trace s)).
  assert (Hp1 : pData b2 = pData b1) by by apply payload_eq in Hpay2 as (_ & _ & ? & _).
  assert (HG : grown s s3 L1 q L2 b3).
  { split_and!; [done|apply lookup_insert_eq| | |].
    - intros x Hx. simpl. rewrite lookup_insert_ne by done.
      assert (agree payload (nodes s1) m2 [x]) as Ha by (apply (agree_weaken strip_list); [apply strip_list_payload|by intros y _]).
      rewrite Ha by set_solver. simpl. by rewrite lookup_insert_ne.
    - intros x Hx. simpl. rewrite lookup_insert_ne by set_solver. rewrite Hout by done. simpl. rewrite lookup_insert_ne; [done|set_solver].
    - simpl. rewrite Hd3, Hp1. destruct Hbl as [[Hd ->]|(a & Hd & Hna & ->)], Hbl3 as [->|(a' & w & Hd' & ->)];
        rewrite ?Hp1 in *; simpl in *; [by left|congruence|right; by exists a, v|right].
      exists a, w. split_and!; [done|done|]. assert (a' = a) as -> by congruence. by rewrite insert_insert_eq. }
  assert (bucket_ok q b3 /\ bucket_key b3 = HInt 0) as [Hok Hkey].
  { apply payload_eq in Hpay2 as (P1 & P2 & _ & _ & P3 & _). destruct b1, b2, b3. cbn in *.
    injection Hs as <- <- <- <- <- <- <- <-. injection E3 as <- <- <- <- <- <- <- <-. subst.
    split; [|done]. split; cbn; [lia|by left]. }
  assert (Hd3' : dll list_links (nodes s3) (L1 ++ q :: L2)).
  { eapply dll_frame; [|exact HL2]. intros x _. simpl. destruct (decide (x = q)) as [->|]; [|by rewrite lookup_insert_ne].
    rewrite lookup_insert_eq, Hb2. simpl. f_equal. destruct b2, b3. cbn in *. by injection E3 as <- <- <- <- <- <- <- <-. }
  apply (HQ s3 _ q); [by eapply grow_rep|by eapply grow_contents| |by eapply grow_same_rest|done|done].
  unfold entry. simpl. rewrite lookup_insert_eq. simpl. by rewrite Hv3, Hkey.
Qed.

Lemma wp_insert_loop s ht L1 L2 n ctor elems Q :
  loose_rep s ht (L1 ++ L2) -> Z.of_nat (length (L1 ++ L2)) + Z.of_nat (length elems) < 2 ^ 32 ->
  (forall s' ht' N, loose_rep s' ht' (L1 ++ N ++ L2) ->
     contents s' (L1 ++ N ++ L2) =
       contents s L1 ++ ((fun v => (HInt 0, ctor_val ctor v)) <$> elems) ++ contents s L2 ->
     same_rest s (L1 ++ L2) s' (L1 ++ N ++ L2) -> dtor_trace s' = dtor_trace s -> same_config ht ht' ->
     (N = [] -> elems = [] /\ s' = s /\ ht' = ht) -> Q ht' s') ->
  wp (insert_loop uninit ctor n ht (head L2) elems) Q s.
Proof.
  revert s ht L1 Q. induction elems as [|v elems IH]; intros s ht L1 Q HR Hlen HQ; cbn [insert_loop].
  { wp_step. apply (HQ s ht []); try done. by rewrite contents_app. }
  cbn [length] in Hlen.
  apply (wp_insert_one s ht L1 L2 v n ctor (fun ht => insert_loop uninit ctor n ht (head L2) elems)); [done|lia|]. intros s1 ht1 q HR1 Hc1 He1 Hrest1 Htr1 Hcfg1.
  rewrite (cons_middle q L1 L2), app_assoc in HR1, Hrest1.
  apply (IH s1 ht1 (L1 ++ [q])); [done|rewrite !length_app in *; cbn [length]; lia|].
  intros s' ht' N HR' Hc' Hrest' Htr' Hcfg' _. rewrite <- !(app_assoc L1 [q]) in HR', Hc', Hrest', Hrest1.
  apply (HQ s' ht' (q :: N)); [done| | |congruence| |done].
  - change ((q :: N) ++ L2) with ([q] ++ N ++ L2). rewrite Hc'.
    rewrite contents_app, (contents_cons s1 q [] _ He1), !Hc1 by set_solver. rewrite fmap_cons. by rewrite <- app_assoc.
  - eapply same_rest_trans; [exact Hrest1|]. by rewrite <- (app_assoc L1 [q] (N ++ L2)) in Hrest'.
  - unfold same_config in *. intuition congruence.
Qed.

(** Doubling the table rebuilds chains that are about to be rebuilt once more. *)
Lemma wp_resize_loose s ht L Q :
  loose_rep s ht L ->
  (forall s' ht', loose_rep s' ht' L -> contents s' L = contents s L -> same_rest s L s' L ->
     dtor_trace s' = dtor_trace s -> same_config ht ht' -> Q ht' s') ->
  wp (ZEND_HASH_IF_FULL_DO_RESIZE ht) Q s.
Proof.
  intros HR HQ. unfold ZEND_HASH_IF_FULL_DO_RESIZE, zend_hash_do_resize.
  destruct (nTableSize ht <? nNumOfElements ht) eqn:Hfull; [|wp_step; by apply HQ].
  destruct (loose_order _ _ _ HR) as (HL & Hhd & Htl & Hn & Hlt). destruct (loose_size _ _ _ HR) as (k & Hk & Hsz).
  assert (0 < 2 ^ k) as Hpow by (apply Z.pow_pos_nonneg; lia).
  destruct (0 <? u32 (Z.shiftl (nTableSize ht) 1)) eqn:Hz; [|wp_step; by apply HQ].
  assert (k <= 30).
  { destruct (decide (k = 31)) as [->|]; [|lia]. rewrite Hsz in Hz. vm_compute in Hz. done. }
  assert (u32 (Z.shiftl (nTableSize ht) 1) = 2 ^ (k + 1)) as ->.
  { rewrite Hsz, Z.shiftl_mul_pow2, <- Z.pow_add_r by lia. apply wrap_u_small.
    split; [lia|]. apply Z.pow_lt_mono_r; lia. }
  assert (u32 (2 ^ (k + 1) - 1) = 2 ^ (k + 1) - 1) as Hmask.
  { apply wrap_u_small. assert (2 ^ (k + 1) <= 2 ^ 31) by (apply Z.pow_le_mono_r; lia).
    assert (0 < 2 ^ (k + 1)) by lia. lia. }
  cbv zeta. cbn [nTableSize set_nTableSize set_arBuckets]. rewrite Hmask. set (ht1 := set_nTableMask _ _).
  apply Z.ltb_lt in Hfull. wp_step. unfold zend_hash_rehash.
  change (nNumOfElements ht1) with (nNumOfElements ht). change (pListHead (clear_slots ht1)) with (pListHead ht).
  destruct (Z.eqb_spec (nNumOfElements ht) 0); [lia|]. wp_step. change (pListHead ht1) with (pListHead ht). rewrite Hhd.
  apply (wp_rehash_loop _ (clear_slots ht1) [] L); [done| |apply clear_slots_ok|eapply (clear_slots_indices _ (k + 1)); [lia|done|done]|].
  { unfold loop_bound. change (nNumOfElements ht1) with (nNumOfElements ht). rewrite Hn, Nat2Z.id. lia. }
  intros m' arB _ _ Hobs Hout. wp_step. wp_step. destruct (agree_strip_hash (nodes s) m' L Hobs) as [Hpay Hlk].
  apply HQ; [| |by apply same_rest_agree|done|done].
  - split; simpl.
    + split_and!; [|done..]. eapply dll_frame; [exact Hlk|done].
    + exists (k + 1). split; [lia|done].
    + done.
    + eapply (buckets_ok_agree s); [exact Hpay|by apply agree_blocks_eq|apply HR].
    + eapply blocks_ok_agree; [exact Hpay|apply HR].
    + apply HR.
  - apply contents_agree; [exact Hpay|by apply agree_blocks_eq].
Qed.

End loose.

(** ** The whole operation *)

(** The string keys of a map, in order. *)
Definition is_str (k : hkey) : bool := match k with HStr _ => true | HInt _ => false end.

Definition str_keys {V} (E : list (hkey * V)) : list hkey := filter (fun k => is_str k = true) (om_keys E).

Lemma renumber_only_int_keys {V} (E : list (hkey * V)) n : NoDup (str_keys E) -> NoDup (om_keys (renumber true n E)).
Proof.
  revert n. unfold str_keys, om_keys. induction E as [|[[x|i] v] E IH]; intros n HND; cbn [renumber]; [constructor|..].
  - rewrite fmap_cons in *. rewrite filter_cons_True in HND by done. apply NoDup_cons in HND as [Hx HND].
    apply NoDup_cons. split; [|by apply IH]. intros Hin%renumber_str_key. apply Hx, list_elem_of_filter. done.
  - rewrite fmap_cons in *. rewrite filter_cons_False in HND by done. apply NoDup_cons. split; [|by apply IH].
    intros Hin%renumber_int_key. lia.
Qed.

Section spec.
Context {V : Type} {AL : Allocator} (uninit : Bucket V).
Implicit Types (s : store (Bucket V) V) (ht : HashTable) (L R : list ptr).

Lemma contents_take s ht L L' n : ht_rep s ht L' -> L ⊆ L' ->
  contents s (take n L) = take n (contents s L) /\ contents s (drop n L) = drop n (contents s L).
Proof.
  intros HR. revert n. induction L as [|p L IH]; intros n HL; [by destruct n|].
  destruct (rep_entry _ _ _ p HR) as (b & v & _ & _ & _ & He); [set_solver|].
  rewrite (contents_cons _ _ _ _ He). destruct n as [|n]; [split; [done|apply (contents_cons _ _ _ _ He)]|].
  cbn [take drop]. rewrite (contents_cons _ _ _ _ He). destruct (IH n) as [-> ->]; [set_solver|done].
Qed.

(** The keys of a table after the removal of a range, with new integer keys between. *)
Lemma spliced_keys (A B C : list (hkey * V)) (N : list V) (f : V -> V) :
  NoDup (om_keys (A ++ B ++ C)) ->
  NoDup (om_keys (renumber true 0 (A ++ ((fun v => (HInt 0, f v)) <$> N) ++ C))).
Proof.
  intros HND. apply renumber_only_int_keys. unfold str_keys, om_keys in *. rewrite !fmap_app in *. rewrite !filter_app.
  assert (filter (fun k => is_str k = true) (fst <$> ((fun v => (HInt 0, f v)) <$> N)) = []) as ->.
  { induction N as [|v N IH]; [done|]. by rewrite !fmap_cons, filter_cons_False. }
  apply NoDup_app in HND as (HA & HAB & HBC). apply NoDup_app in HBC as (_ & _ & HC). simpl.
  apply NoDup_app. split_and!; [by apply NoDup_filter| |by apply NoDup_filter].
  intros x [_ Hx]%list_elem_of_filter [_ Hx']%list_elem_of_filter. apply (HAB x Hx). set_solver.
Qed.

(** The last two steps: the new elements, and the renumbering. *)
Lemma wp_splice_finish s ht A C elems n ctor Bc Q :
  ht_rep s ht (A ++ C) -> nTableMask ht = nTableSize ht - 1 ->
  NoDup (om_keys (contents s A ++ Bc ++ contents s C)) ->
  Z.of_nat (length (A ++ C)) + Z.of_nat (length (default [] elems)) < 2 ^ 32 ->
  (forall s' ht' L', ht_rep s' ht' L' ->
     contents s' L' = renumber true 0
       (contents s A ++ ((fun v => (HInt 0, ctor_val ctor v)) <$> default [] elems) ++ contents s C) ->
     same_rest s (A ++ C) s' L' -> dtor_trace s' = dtor_trace s -> Q ht' s') ->
  wp (ht ← match elems with
           | None => mret ht
           | Some elems => ht ← insert_loop uninit ctor n ht (head C) elems; ZEND_HASH_IF_FULL_DO_RESIZE ht
           end;
      zend_hash_reindex ht true) Q s.
Proof.
  intros HR Hm HND Hlen HQ. pose proof (spliced_keys _ _ _ (default [] elems) (ctor_val ctor) HND) as Hkeys.
  assert (Hend : forall s1 ht1 N, loose_rep s1 ht1 (A ++ N ++ C) ->
    contents s1 (A ++ N ++ C) = contents s A ++ ((fun v => (HInt 0, ctor_val ctor v)) <$> default [] elems) ++ contents s C ->
    same_rest s (A ++ C) s1 (A ++ N ++ C) -> dtor_trace s1 = dtor_trace s -> A ++ N ++ C <> [] ->
    wp (zend_hash_reindex ht1 true) Q s1).
  { intros s1 ht1 N HR1 Hc1 Hrest1 Htr1 Hne. apply (wp_reindex s1 ht1 (A ++ N ++ C)); [|done|].
    - split; try apply HR1; [by rewrite Hc1|done].
    - intros s' ht' HR' Hc' Hrest' Htr' _ _ _ _. apply (HQ s' ht' (A ++ N ++ C)); [done| | |congruence].
      + by rewrite Hc', Hc1.
      + by eapply same_rest_trans. }
  assert (Hempty : A ++ C = [] -> default [] elems = [] -> wp (zend_hash_reindex ht true) Q s).
  { intros HAC Hel. unfold zend_hash_reindex. destruct (rep_order _ _ _ HR) as (_ & _ & _ & -> & _). rewrite HAC. simpl.
    apply app_nil in HAC as [-> ->]. rewrite Hel in HQ. wp_step. apply (HQ s _ []); [|done|done|done].
    destruct HR. split; try done. split; [simpl; unfold LONG_MAX; lia|set_solver]. }
  destruct elems as [elems|]; cbn [from_option id] in *; wp_step.
  - wp_step. apply (wp_insert_loop uninit s ht A C n ctor elems); [by apply rep_loose|done|].
    intros s1 ht1 N HR1 Hc1 Hrest1 Htr1 _ HN. destruct (decide (A ++ N ++ C = [])) as [Hnil|Hne].
    + apply app_nil in Hnil as [-> [-> ->]%app_nil]. destruct (HN eq_refl) as (-> & -> & ->).
      unfold ZEND_HASH_IF_FULL_DO_RESIZE. destruct (rep_order _ _ _ HR) as (_ & _ & _ & Hn & _).
      destruct (rep_geometry _ _ _ HR) as [(k & Hk & Hsz) _]. pose proof (Z.pow_pos_nonneg 2 k).
      assert (nTableSize ht <? nNumOfElements ht = false) as -> by (apply Z.ltb_ge; rewrite Hn, Hsz; simpl; lia).
      wp_step. by apply Hempty.
    + apply (wp_resize_loose s1 ht1 (A ++ N ++ C)); [done|]. intros s2 ht2 HR2 Hc2 Hrest2 Htr2 _.
      apply (Hend s2 ht2 N); [done|congruence|by eapply same_rest_trans|congruence|done].
  - wp_step. destruct (decide (A ++ C = [])) as [Hnil|Hne]; [by apply Hempty|].
    apply (Hend s ht []); [by apply rep_loose|by rewrite contents_app|done|done|done].
Qed.

(** C25: [_zend_hash_splice] replaces the elements from [offset] on, [length] of
    them, by the given ones: the table holds the elements before, the new ones
    passed through the copy constructor and the elements after, string keys kept
    and integer keys numbered from 0; the elements taken out are destructed once, in
    order, and an empty table given for them holds them, copied, in order with their
    string keys kept and the others numbered from 0.  Both tables are well formed
    and no other memory changed. *)
Theorem zend_hash_splice_correct s ht L removed n ctor offset len elems :
  tables s ht L removed [] -> (forall r, removed = Some r -> nNextFreeElement r = 0) ->
  0 <= offset -> 0 <= len -> offset + len < 2 ^ 32 ->
  Z.of_nat (length L) + Z.of_nat (length (default [] elems)) < 2 ^ 31 ->
  let E := contents s L in
  let before := take (Z.to_nat offset) E in
  let gone := take (Z.to_nat len) (drop (Z.to_nat offset) E) in
  let after := drop (Z.to_nat len) (drop (Z.to_nat offset) E) in
  wp (_zend_hash_splice uninit ht n ctor offset len elems removed) (fun '(ht', removed') s' => exists L' R',
    tables s' ht' L' removed' R' /\
    contents s' L' = renumber true 0 (before ++ ((fun v => (HInt 0, ctor_val ctor v)) <$> default [] elems) ++ after) /\
    contents s' R' = match removed with Some _ => saved ctor 0 gone | None => [] end /\
    same_rest s L s' (L' ++ R') /\ dtor_trace s' = dtor_trace s ++ if_dtor ht (snd <$> gone)) s.
Proof.
  intros HT Hnf0 Ho Hl Hol Hlen E before gone after. unfold _zend_hash_splice. cbv zeta.
  pose proof HT as (HR & Hrem & Hap). destruct (check_init_rep _ _ _ HR) as [HR1 Hm1].
  destruct (CHECK_INIT_fields ht) as (Hcfg & _). set (ht1 := CHECK_INIT ht) in *.
  destruct (rep_order _ _ _ HR1) as (HL & Hhd & Htl & Hn & Hlt).
  assert (Hbound : (length L < loop_bound ht1)%nat) by (unfold loop_bound; rewrite Hn, Nat2Z.id; lia).
  set (A := take (Z.to_nat offset) L). set (B := drop (Z.to_nat offset) L).
  assert (HAB : A ++ B = L) by apply take_drop.
  assert (HlA : Z.of_nat (length A) <= offset) by (unfold A; rewrite length_take; lia).
  destruct (contents_take s ht L L (Z.to_nat offset) HR) as [HcA HcB]; [done|]. fold A B E before in HcA, HcB.
  wp_step. rewrite Hhd. apply (wp_skip_loop _ 0 offset [] L); [done|done|lia|done|lia|]. cbv zeta.
  rewrite Z.add_0_l, Z.sub_0_r. fold A B.
  rewrite wrap_u_small by lia. wp_step.
  assert (Hcut : take (Z.to_nat (offset + len - Z.of_nat (length A))) B = take (Z.to_nat len) B /\
    drop (Z.to_nat (offset + len - Z.of_nat (length A))) B = drop (Z.to_nat len) B).
  { destruct (decide (Z.of_nat (length A) = offset)) as [->|Hne]; [by replace (offset + len - offset) with len by lia|].
    assert (B = []) as -> by (apply drop_ge; unfold A in Hne, HlA; rewrite length_take in *; lia). by rewrite !take_nil, !drop_nil. }
  assert (HBlen : length L = (length A + length B)%nat) by (rewrite <- HAB; apply length_app).
  destruct (contents_take s ht B L (Z.to_nat len) HR) as [HcG HcC]; [apply drop_subset|].
  rewrite HcB in HcG, HcC. fold gone in HcG. fold after in HcC.
  rewrite <- HAB in HT, HR1. apply (wp_remove_loop uninit _ ctor _ _ s ht1 A B removed []).
  - split; [done|]. rewrite HAB. by split.
  - lia.
  - lia.
  - lia.
  - lia.
  - destruct removed as [r|]; [|done]. split_and!; [simpl; lia|rewrite (Hnf0 r) by done; unfold LONG_MAX; lia|done].
  - cbv zeta. destruct Hcut as [-> ->]. set (C := drop (Z.to_nat len) B) in *.
    intros s1 ht2 removed' R' HT1 Hc1 HcR1 Hrest1 Htr1 Hcfg1 Hts Htm. pose proof HT1 as (HR2 & _).
    rewrite contents_app, (contents_app s) in Hc1. apply app_inj_1 in Hc1 as [HcA1 HcC1].
    2:{ rewrite (rep_contents_length _ _ _ _ HR), (rep_contents_length _ _ _ _ HR2); [done|set_solver|apply take_subset]. }
    eapply wp_eq; [symmetry; apply (bind_assoc (match elems with None => _ | Some _ => _ end) (fun ht => zend_hash_reindex ht true))|].
    wp_step. apply (wp_splice_finish s1 ht2 A C elems n ctor gone); [done|congruence| | |].
    + rewrite HcA1, HcC1, HcA, HcC. unfold gone, after. rewrite take_drop. unfold before. rewrite take_drop.
      apply (rep_contents_keys _ _ _ HR).
    + unfold C. rewrite length_app, length_drop. lia.
    + intros s' ht' L' HR' Hc' Hrest' Htr'. wp_step.
      destruct (tables_left s1 s' ht2 ht' (A ++ C) L' removed' R' HT1 HR' Hrest') as (HT' & Hrest2 & HcR).
      exists L', R'. split_and!; [done| | | |].
      * by rewrite Hc', HcA1, HcC1, HcA, HcC.
      * rewrite HcR, HcR1, HcG. destruct removed as [r|]; [|done]. cbn. by rewrite (Hnf0 r).
      * rewrite HAB, app_nil_r in Hrest1. by eapply same_rest_trans.
      * rewrite Htr', Htr1, HcG. f_equal. by apply if_dtor_config.
Qed.

End spec.

Section witness.
Import Demo.

Lemma demo_tables : tables st ht L (Some ht0) [].
Proof.
  split; [exact demo_rep|]. split; [apply empty_rep; try done; [exists 3; split; [lia|done]|by left]|].
  split; [set_solver|]. intros a (? & ? & ?%elem_of_nil & _). done.
Qed.

Lemma zend_hash_splice_witness :
  wp (_zend_hash_splice uninit ht sizeof_ptr (Some (Z.add 1)) 1 2 (Some [100; 101]) (Some ht0)) (fun '(ht', removed') s' =>
    exists L' R', tables s' ht' L' removed' R' /\
    contents s' L' = [(HStr [97; 0], 10); (HInt 0, 101); (HInt 1, 102); (HInt 2, 40)] /\
    contents s' R' = [(HInt 0, 21); (HStr [98; 0], 31)] /\
    same_rest st L s' (L' ++ R') /\ dtor_trace s' = [20; 30]) st.
Proof.
  refine (zend_hash_splice_correct uninit st ht L (Some ht0) sizeof_ptr (Some (Z.add 1)) 1 2 (Some [100; 101])
    demo_tables _ _ _ _ _); [by intros r [= <-]|lia|lia|lia|]. vm_compute. reflexivity.
Defined.

End witness.
