(* ===== verification/ZendHashUpdateKey.v ===== *)
(** * ZendHashUpdateKey: changing the key of the current element

    Models [zend_hash_update_current_key_ex] of src/Zend/zend_hash.c and
    [zend_symtable_update_current_key_ex] of src/Zend/zend_hash.h.  The element keeps
    its place in the order; its bucket moves to another chain and, when the key is
    stored differently, to new memory. *)
From S2P Require Import Prelude Memory Dllist HashFunc OrderedMap ZendHash ZendHashRep ZendHashLink.
From S2P Require Import ZendHashDelete ZendHashRehash ZendHashInsert ZendHashAppend ZendHashFind ZendHashDestroy.
From S2P Require Import ZendHashApply ZendHashIter ZendHashSort ZendHashSplice ZendHashDemo Symtable.
From stdpp Require Import base list gmap.
Local Open Scope Z_scope.

(** [int mode] *)
Definition HASH_UPDATE_KEY_IF_NONE : Z := 0.
Definition HASH_UPDATE_KEY_IF_BEFORE : Z := 1.
Definition HASH_UPDATE_KEY_IF_AFTER : Z := 2.
Definition HASH_UPDATE_KEY_ANYWAY : Z := 3.

(** [int key_type] *)
Definition KEY_IS_STRING : Z := 1.
Definition KEY_IS_LONG : Z := 2.

Section ops.
Context {V : Type} {AL : Allocator} (uninit : Bucket V).

Abbreviation hcmd := (cmd (store (Bucket V) V)).

(** [while (r) { if (r == q) { found = ...; break; } r = r->pListLast; }] *)
Fixpoint found_before (fuel : nat) (q : ptr) (r : option ptr) : hcmd Z :=
  match r with
  | None => mret HASH_UPDATE_KEY_IF_BEFORE
  | Some x =>
      if decide (x = q) then mret HASH_UPDATE_KEY_IF_AFTER
      else
        match fuel with
        | O => cfault
        | S fuel => b ← load x; found_before fuel q (pListLast b)
        end
  end.

(** Takes [p] out of its chain. *)
Definition unlink_chain (ht : HashTable) (p : ptr) : hcmd HashTable :=
  b ← load p;
  update_opt (pNext b) (set_pLast (pLast b)) ;;
  match pLast b with
  | Some l => update l (set_pNext (pNext b)) ;; mret ht
  | None => write_slot ht (hash_index ht (b_h b)) (pNext b)
  end.

(** A new bucket in place of [p] when the key needs another amount of memory. *)
Definition move_bucket (ht : HashTable) (p : ptr) (str_index : keyptr) (str_length : Z)
    (pos : option HashPosition) : hcmd (ptr * HashTable * option HashPosition) :=
  b ← load p;
  if negb (Bool.eqb (IS_INTERNED (arKey b)) (IS_INTERNED str_index)) ||
     (negb (IS_INTERNED (arKey b)) && negb (nKeyLength b =? str_length)) then
    q ← alloc_node uninit;
    update q (set_nKeyLength str_length) ;;
    update q (set_pData (match pData b with AtDataPtr => AtDataPtr | AtBlock a => AtBlock a end)) ;;
    update q (set_pDataPtr (pDataPtr b)) ;;
    ht ← CONNECT_TO_GLOBAL_DLLIST_EX q ht (pListLast b) (pListNext b);
    let ht := if decide (pInternalPointer ht = Some p) then set_pInternalPointer (Some q) ht else ht in
    let pos := match pos with Some _ => Some (Some q) | None => None end in
    free_node p ;;
    mret (q, ht, pos)
  else mret (p, ht, pos).

(** The key fields of the bucket. *)
Definition set_key (ht : HashTable) (p : ptr) (key_type : Z) (k : keyarg) (h num_index : Z) : hcmd HashTable :=
  if key_type =? KEY_IS_LONG then
    update p (set_b_h num_index) ;;
    mret (bump_next_free num_index ht)
  else
    update p (set_b_h h) ;;
    update p (set_nKeyLength (k_len k)) ;;
    if IS_INTERNED (k_ptr k) then
      update p (set_arKey (k_ptr k)) ;; mret ht
    else
      update p (set_arKey (KBucket p)) ;;
      update p (set_keybuf (take (Z.to_nat (k_len k)) (k_bytes k))) ;;
      mret ht.

(** From [HANDLE_BLOCK_INTERRUPTIONS] on: no other bucket has the key. *)
Definition rekey (ht : HashTable) (p : ptr) (key_type : Z) (k : keyarg) (str_length h num_index : Z)
    (pos : option HashPosition) : hcmd (zresult * HashTable * option HashPosition) :=
  ht ← unlink_chain ht p;
  '(p, ht, pos) ← move_bucket ht p (k_ptr k) str_length pos;
  ht ← set_key ht p key_type k h num_index;
  b ← load p;
  hd ← read_slot ht (hash_index ht (b_h b));
  CONNECT_TO_BUCKET_DLLIST p hd ;;
  ht ← write_slot ht (hash_index ht (b_h b)) (Some p);
  mret (SUCCESS, ht, pos).

(** [if (q) { ... }], then the rest. *)
Definition replace_key (ht : HashTable) (p : ptr) (q : option ptr) (key_type : Z) (k : keyarg)
    (str_length h num_index mode : Z) (pos : option HashPosition) :
    hcmd (zresult * HashTable * option HashPosition) :=
  match q with
  | None => rekey ht p key_type k str_length h num_index pos
  | Some q =>
      drop_current ← (if negb (mode =? HASH_UPDATE_KEY_ANYWAY) then
                        b ← load p;
                        found ← found_before (loop_bound ht) q (pListLast b);
                        mret (negb (Z.land mode found =? 0))
                      else mret false);
      if drop_current : bool then
        ht ← zend_hash_bucket_delete ht p;
        mret (FAILURE, ht, pos)
      else
        ht ← zend_hash_bucket_delete ht q;
        rekey ht p key_type k str_length h num_index pos
  end.

(** [k] is the pair [str_index], [str_length]. *)
Definition zend_hash_update_current_key_ex (ht : HashTable) (key_type : Z) (k : keyarg) (num_index mode : Z)
    (pos : option HashPosition) : hcmd (zresult * HashTable * option HashPosition) :=
  match get_current ht pos with
  | None => mret (FAILURE, ht, pos)
  | Some p =>
      if key_type =? KEY_IS_LONG then
        b ← load p;
        if int_match num_index b then mret (SUCCESS, ht, pos)
        else
          q ← chain_search ht (int_match num_index) num_index;
          replace_key ht p q key_type k 0 0 num_index mode pos
      else if key_type =? KEY_IS_STRING then
        let h := zend_inline_hash_func (k_bytes k) in
        b ← load p;
        if str_match k h b then mret (SUCCESS, ht, pos)
        else
          q ← chain_search ht (str_match k h) h;
          replace_key ht p q key_type k (k_len k) h num_index mode pos
      else mret (FAILURE, ht, pos)
  end.

Definition zend_symtable_update_current_key_ex (ht : HashTable) (k : keyarg) (mode : Z)
    (pos : option HashPosition) : hcmd (zresult * HashTable * option HashPosition) :=
  match ZEND_HANDLE_NUMERIC_EX (k_bytes k) with
  | Some idx => zend_hash_update_current_key_ex ht KEY_IS_LONG no_key idx mode pos
  | None => zend_hash_update_current_key_ex ht KEY_IS_STRING k 0 mode pos
  end.

End ops.

(** ** The invariant after the change of one key *)

Section rekeyed.
Context {V : Type}.
Context (s s' : store (Bucket V) V) (ht ht' : HashTable) (L1 : list ptr) (p : ptr) (L2 : list ptr) (p' : ptr) (b b' : Bucket V).
Hypothesis HR : ht_rep s ht (L1 ++ p :: L2).
Hypothesis Hb : nodes s !! p = Some b.
Hypothesis Hp' : p' ∉ L1 ++ L2.
Hypothesis Hb' : nodes s' !! p' = Some b'.
Hypothesis Hd : dll list_links (nodes s') (L1 ++ p' :: L2).
Hypothesis Hag : agree payload (nodes s) (nodes s') (L1 ++ L2).
Hypothesis Hbl : blocks s' = blocks s.
Hypothesis Hdat : pData b' = pData b /\ pDataPtr b' = pDataPtr b.

Lemma rekeyed_val : bucket_val (blocks s') b' = bucket_val (blocks s) b.
Proof. destruct Hdat as [H1 H2]. unfold bucket_val. by rewrite Hbl, H1, H2. Qed.

Lemma rekeyed_rep :
  slots_ok (nodes s') ht' (L1 ++ p' :: L2) -> bucket_ok p' b' ->
  (forall q bq, q ∈ L1 ++ L2 -> nodes s !! q = Some bq -> bucket_key bq <> bucket_key b') ->
  pListHead ht' = head (L1 ++ p' :: L2) -> pListTail ht' = last (L1 ++ p' :: L2) ->
  nNumOfElements ht' = nNumOfElements ht -> geometry_ok ht' (L1 ++ p' :: L2) -> internal_ok ht' (L1 ++ p' :: L2) ->
  nNextFreeElement ht <= nNextFreeElement ht' <= LONG_MAX ->
  (nKeyLength b' = 0 -> s64 (b_h b') < nNextFreeElement ht' \/ nNextFreeElement ht' = LONG_MAX) ->
  ht_rep s' ht' (L1 ++ p' :: L2).
Proof.
  intros HS Hok Hkey Hhd Htl Hnum Hgeo Hint Hnf Hnfb. destruct (rep_order _ _ _ HR) as (_ & _ & _ & Hn & Hlt).
  assert (Hlen : length (L1 ++ p' :: L2) = length (L1 ++ p :: L2)) by (by rewrite !length_app).
  assert (Hsub : L1 ++ L2 ⊆ L1 ++ p :: L2) by set_solver.
  assert (Hcase : forall q, q ∈ L1 ++ p' :: L2 -> q = p' \/ q ∈ L1 ++ L2 /\ q <> p').
  { intros q Hq. destruct (decide (q = p')); [by left|right; set_solver]. }
  split; try done.
  - split_and!; [done|done|done|by rewrite Hlen, Hnum|by rewrite Hlen].
  - pose proof (keys_ok_agree _ _ _ Hag (keys_ok_subset _ _ _ Hsub (rep_keys _ _ _ HR))) as HK.
    assert (Hne : forall x bx, x ∈ L1 ++ L2 -> nodes s' !! x = Some bx -> bucket_key bx <> bucket_key b').
    { intros x bx Hx Hbx. destruct (agree_Some _ _ _ _ _ _ Hag Hx Hbx) as (b0 & Hb0 & E).
      rewrite <- (payload_key _ _ E). by apply (Hkey x). }
    intros x y bx by' Hx Hy Hbx Hby Hk. destruct (Hcase x Hx) as [->|[Hx' _]], (Hcase y Hy) as [->|[Hy' _]]; [done|..].
    + destruct (Hne y by'); [done|done|]. rewrite <- Hk. congruence.
    + destruct (Hne x bx); [done|done|]. rewrite Hk. congruence.
    + by apply (HK x y bx by').
  - intros x bx Hx Hbx. destruct (Hcase x Hx) as [->|[Hx' _]].
    + assert (bx = b') as -> by congruence. split; [done|]. rewrite rekeyed_val.
      by apply (rep_buckets _ _ _ HR p b); [set_solver|].
    + eapply (buckets_ok_agree s s' (L1 ++ L2)); [done|by apply agree_blocks_eq| |done|done].
      eapply buckets_ok_subset; [exact Hsub|apply HR].
  - intros x y bx by' a Hx Hy Hbx Hby Hax Hay.
    assert (Hpre : forall z bz, z ∈ L1 ++ p' :: L2 -> nodes s' !! z = Some bz -> pData bz = AtBlock a -> exists z0 b0,
      z0 ∈ L1 ++ p :: L2 /\ nodes s !! z0 = Some b0 /\ pData b0 = AtBlock a /\ (z = p' /\ z0 = p \/ z0 = z /\ z ∈ L1 ++ L2)).
    { intros z bz Hz Hbz Haz. destruct (Hcase z Hz) as [->|[Hz' _]].
      - exists p, b. assert (bz = b') as -> by congruence. split_and!; [set_solver|done|destruct Hdat; congruence|by left].
      - destruct (agree_Some _ _ _ _ _ _ Hag Hz' Hbz) as (b0 & Hb0 & E). apply payload_eq in E as (_ & _ & E & _).
        exists z, b0. split_and!; [by apply Hsub|done|congruence|by right]. }
    destruct (Hpre x bx Hx Hbx Hax) as (x0 & b1 & Hx0 & Hb1 & Ha1 & Hc1).
    destruct (Hpre y by' Hy Hby Hay) as (y0 & b2 & Hy0 & Hb2 & Ha2 & Hc2).
    pose proof (rep_blocks _ _ _ HR x0 y0 b1 b2 a Hx0 Hy0 Hb1 Hb2 Ha1 Ha2) as ->.
    pose proof (rep_notin _ _ _ _ _ HR). destruct Hc1 as [[-> ->]|[-> ?]], Hc2 as [[-> ?]|[-> ?]]; try done; subst; done.
  - destruct (rep_next _ _ _ HR) as [Hr Hall]. split; [lia|]. intros x bx Hx Hbx Hz. destruct (Hcase x Hx) as [->|[Hx' _]].
    + assert (bx = b') as -> by congruence. by apply Hnfb.
    + destruct (agree_Some _ _ _ _ _ _ Hag Hx' Hbx) as (b0 & Hb0 & E). apply payload_eq in E as (E1 & E2 & _).
      destruct (Hall x b0) as [H|H]; [by apply Hsub|done|congruence|left; rewrite <- E1; lia|right; lia].
Qed.

Lemma rekeyed_contents v :
  bucket_val (blocks s) b = Some v ->
  contents s' (L1 ++ p' :: L2) = contents s L1 ++ (bucket_key b', v) :: contents s L2.
Proof.
  intros Hv. rewrite contents_app, (contents_cons s' p' L2 (bucket_key b', v)).
  - f_equal; [|f_equal]; apply omap_ext_in; intros x Hx; eapply entry_agree;
      [exact Hag|by apply agree_blocks_eq|set_solver|exact Hag|by apply agree_blocks_eq|set_solver].
  - unfold entry. rewrite Hb'. simpl. by rewrite rekeyed_val, Hv.
Qed.

Lemma rekeyed_rest :
  (forall q, q ∉ L1 ++ p :: L2 -> q <> p' -> nodes s' !! q = nodes s !! q) ->
  (p' <> p -> nodes s' !! p = None /\ nodes s !! p' = None) ->
  same_rest s (L1 ++ p :: L2) s' (L1 ++ p' :: L2).
Proof.
  intros Hout Hnew. split.
  - intros q bq. split; intros [Hq Hn].
    + destruct (decide (q = p)) as [->|Hqp].
      * destruct (decide (p' = p)) as [->|Hne]; [set_solver|]. destruct (Hnew Hne). congruence.
      * rewrite Hout in Hq by set_solver. set_solver.
    + assert (q <> p') as Hqp'.
      { intros ->. destruct (decide (p' = p)) as [->|Hne]; [set_solver|]. destruct (Hnew Hne). congruence. }
      rewrite Hout by done. set_solver.
  - intros a v. rewrite Hbl.
    assert (owned s' (L1 ++ p' :: L2) a <-> owned s (L1 ++ p :: L2) a) as ->; [|done].
    destruct Hdat as [Hpd _]. split; intros (q & bq & Hq & Hbq & Haq).
    + destruct (decide (q = p')) as [->|Hqp]; [exists p, b; split_and!; [set_solver|done|congruence]|].
      assert (Hq' : q ∈ L1 ++ L2) by set_solver. destruct (agree_Some _ _ _ _ _ _ Hag Hq' Hbq) as (b0 & Hb0 & E).
      apply payload_eq in E as (_ & _ & E & _). exists q, b0. split_and!; [set_solver|done|congruence].
    + destruct (decide (q = p)) as [->|Hqp]; [exists p', b'; split_and!; [set_solver|done|congruence]|].
      assert (Hq' : q ∈ L1 ++ L2) by set_solver. destruct (agree_Some _ _ _ _ _ _ (agree_sym _ _ _ _ Hag) Hq' Hbq) as (b0 & Hb0 & E).
      apply payload_eq in E as (_ & _ & E & _). exists q, b0. split_and!; [set_solver|done|congruence].
Qed.

End rekeyed.

Section rules.
Context {V : Type} {AL : Allocator} (uninit : Bucket V).
Implicit Types (m : gmap ptr (Bucket V)) (b : Bucket V) (p q : ptr) (L : list ptr).
Implicit Types (s : store (Bucket V) V) (ht : HashTable).

(** ** Out of the chain *)

Lemma alter_opt_comm (f g : Bucket V -> Bucket V) o o' m :
  (forall b, f (g b) = g (f b)) -> alter_opt f o (alter_opt g o' m) = alter_opt g o' (alter_opt f o m).
Proof.
  intros Hfg. destruct o as [x|], o' as [y|]; try done. simpl. destruct (decide (x = y)) as [->|Hxy].
  - apply map_eq. intros i. rewrite !lookup_alter. repeat case_decide; subst; try done. destruct (m !! i); simpl; by rewrite ?Hfg.
  - apply map_eq. intros i. rewrite !lookup_alter. repeat case_decide; subst; done.
Qed.

Lemma wp_unlink_chain s ht L1 p L2 b Q :
  ht_rep s ht (L1 ++ p :: L2) -> nodes s !! p = Some b ->
  (forall m' arB, length arB = length (arBuckets ht) -> slots_ok m' (set_arBuckets arB ht) (L1 ++ L2) ->
     (forall q, strip_hash <$> m' !! q = strip_hash <$> nodes s !! q) -> m' !! p = Some b ->
     (forall q, q ∉ L1 ++ p :: L2 -> m' !! q = nodes s !! q) ->
     Q (set_arBuckets arB ht) (set_nodes m' s)) ->
  wp (unlink_chain ht p) Q s.
Proof.
  intros HR Hb HQ. pose proof (hash_index_lt ht _ (b_h b) (rep_geometry _ _ _ HR)) as Hi.
  apply lookup_lt_is_Some in Hi as [o Ho]. destruct (rep_slots _ _ _ HR _ _ Ho) as (c & -> & Hc & Hin).
  assert (p ∈ c) as Hpc by (apply Hin; split; [set_solver|by exists b]).
  apply list_elem_of_split in Hpc as (c1 & c2 & ->).
  destruct (dll_lookup _ _ _ _ _ Hc) as (b0 & Hb0 & Hlast & Hnext). assert (b0 = b) as -> by congruence. simpl in Hlast, Hnext.
  pose proof (last_ne _ _ _ (proj1 Hc)) as Hln. pose proof (head_ne _ _ _ (proj1 Hc)) as Hhn.
  set (arB := match c1 with [] => <[hash_index ht (b_h b) := head c2]> (arBuckets ht) | _ => arBuckets ht end).
  set (m1 := relink hash_links (last c1) (head c2) (head c2) (last c1) (nodes s)).
  assert (Hm1p : m1 !! p = Some b) by (unfold m1; by rewrite lookup_relink_notin).
  assert (Hst : forall q, strip_hash <$> m1 !! q = strip_hash <$> nodes s !! q) by (intros q; apply relink_obs; by intros ? []).
  assert (Hout : forall q, q ∉ c1 ++ c2 -> m1 !! q = nodes s !! q).
  { intros q Hq. apply lookup_relink_notin; [intros ?%last_Some_elem_of|intros ?%head_Some_elem_of]; set_solver. }
  assert (HQ' : Q (set_arBuckets arB ht) (set_nodes m1 s)).
  { apply HQ; [by unfold arB; destruct c1; rewrite ?length_insert| |done|done|].
    - eapply (slots_delete (nodes s) m1 ht arB (L1 ++ p :: L2) (L1 ++ L2) p b _ c1 c2);
        [apply HR|set_solver|pose proof (rep_notin _ _ _ _ _ HR); set_solver|done|done|exact Hin|apply Hc|done|done|..].
      + by eapply dll_unlink; [apply _|].
      + intros q _ Hq. by rewrite Hout.
      + intros q Hq. assert (agree b_h (nodes s) m1 [q]) as Ha.
        { apply (agree_weaken strip_hash); [by intros ? ? (? & _)%strip_hash_payload%payload_eq|by intros x _]. }
        apply Ha. set_solver.
    - intros q Hq. apply Hout. intros Hqc. apply Hq, Hin. set_solver. }
  unfold unlink_chain. wp_step. wp_step. rewrite Hlast, Hnext. wp_step. apply wp_update_opt.
  { intros q Hq%head_Some_elem_of. apply (dll_elem _ _ _ _ Hc). set_solver. }
  set (m0 := alter_opt (set_pLast (last c1)) (head c2) (nodes s)).
  assert (Hm01 : alter_opt (set_pNext (head c2)) (last c1) m0 = m1) by (apply alter_opt_comm; by intros []).
  unfold arB in HQ'. destruct (last c1) as [l|] eqn:Hl1.
  - apply last_Some_elem_of in Hl1 as Hinl. destruct c1 as [|x c1]; [set_solver|].
    assert (is_Some (m0 !! l)) as [bl Hbl].
    { apply elem_of_dom. unfold m0. rewrite dom_alter_opt. apply elem_of_dom, (dll_elem _ _ _ _ Hc). set_solver. }
    wp_step. eapply wp_update; [exact Hbl|]. wp_step. simpl in Hm01 |- *. rewrite Hm01. by destruct ht.
  - apply last_None in Hl1 as ->. apply wp_write_slot; [by eapply lookup_lt_Some|]. simpl in Hm01. by rewrite Hm01.
Qed.

(** ** The bucket moves *)

(** The writes of [CONNECT_TO_GLOBAL_DLLIST_EX]. *)
Lemma wp_connect_run p b ht a z Q s :
  nodes s !! p = Some b -> (forall x, a = Some x \/ z = Some x -> is_Some (nodes s !! x)) ->
  Q (match z with
     | Some _ => match a with Some _ => ht | None => set_pListHead (Some p) ht end
     | None => set_pListTail (Some p) match a with Some _ => ht | None => set_pListHead (Some p) ht end
     end) (set_nodes (relink list_links a (Some p) z (Some p) (<[p := set_pListNext z (set_pListLast a b)]> (nodes s))) s) ->
  wp (CONNECT_TO_GLOBAL_DLLIST_EX p ht a z) Q s.
Proof.
  intros Hb Haz HQ. unfold CONNECT_TO_GLOBAL_DLLIST_EX. wp_step. eapply wp_update; [done|].
  rewrite (alter_insert_Some _ _ _ b) by done. wp_step. eapply wp_update; [apply lookup_insert_eq|].
  cbn [nodes set_nodes]. rewrite (alter_insert_Some _ _ _ _ (lookup_insert_eq _ _ _)), insert_insert_eq.
  assert (Hin : forall x, a = Some x \/ z = Some x ->
    is_Some (<[p := set_pListNext z (set_pListLast a b)]> (nodes s) !! x)).
  { intros x Hx. destruct (decide (x = p)) as [->|]; [by rewrite lookup_insert_eq|]. rewrite lookup_insert_ne by done. auto. }
  wp_step. apply wp_update_opt; [intros x Hx; apply Hin; by left|]. wp_step. apply wp_update_opt.
  { intros x Hx. cbn [nodes set_nodes]. apply elem_of_dom. rewrite dom_alter_opt. apply elem_of_dom, Hin. by right. }
  wp_step. exact HQ.
Qed.

Lemma set_ends_replace ht L1 p L2 q :
  pListHead ht = head (L1 ++ p :: L2) -> pListTail ht = last (L1 ++ p :: L2) ->
  set_ends (L1 ++ q :: L2) ht =
    match head L2 with
    | Some _ => match last L1 with Some _ => ht | None => set_pListHead (Some q) ht end
    | None => set_pListTail (Some q) match last L1 with Some _ => ht | None => set_pListHead (Some q) ht end
    end.
Proof.
  unfold set_ends. destruct ht; simpl; intros -> ->. rewrite !last_app_cons, !last_cons.
  destruct L1 as [|x L1], L2 as [|y L2]; simpl; rewrite ?last_cons; repeat destruct (last _); done.
Qed.

Definition moves b (k : keyptr) (len : Z) : bool :=
  negb (Bool.eqb (IS_INTERNED (arKey b)) (IS_INTERNED k)) || (negb (IS_INTERNED (arKey b)) && negb (nKeyLength b =? len)).

Lemma wp_move_bucket s ht L1 p L2 b k len pos Q :
  dll list_links (nodes s) (L1 ++ p :: L2) -> nodes s !! p = Some b ->
  pListHead ht = head (L1 ++ p :: L2) -> pListTail ht = last (L1 ++ p :: L2) ->
  (moves b k len = false -> Q (p, ht, pos) s) ->
  (forall q m' b', moves b k len = true -> nodes s !! q = None -> p <> q -> m' !! q = Some b' -> m' !! p = None ->
     dll list_links m' (L1 ++ q :: L2) -> (forall x, x ∉ L1 ++ p :: L2 -> x <> q -> m' !! x = nodes s !! x) ->
     (forall x, x ∈ L1 ++ L2 -> strip_list <$> m' !! x = strip_list <$> nodes s !! x) ->
     pData b' = pData b -> pDataPtr b' = pDataPtr b -> nKeyLength b' = len -> arKey b' = arKey uninit ->
     Q (q, (if decide (pInternalPointer ht = Some p) then set_pInternalPointer (Some q) else id) (set_ends (L1 ++ q :: L2) ht),
        match pos with Some _ => Some (Some q) | None => None end) (set_nodes m' s)) ->
  wp (move_bucket uninit ht p k len pos) Q s.
Proof.
  intros HL Hb Hhd Htl Hstay Hmove. unfold move_bucket. wp_step. wp_step. fold (moves b k len).
  destruct (moves b k len) eqn:Hmv; [|wp_step; by apply Hstay]. clear Hstay.
  destruct (dll_lookup _ _ _ _ _ HL) as (b0 & Hb0 & Hlast & Hnext). assert (b0 = b) as -> by congruence. simpl in Hlast, Hnext.
  wp_step. apply wp_alloc_node. intros q Hq Hbq. assert (Hpq : p <> q) by congruence.
  do 3 (wp_step; eapply wp_update; [apply lookup_insert_eq|]; simpl;
    rewrite (alter_insert_Some _ _ _ _ (lookup_insert_eq _ _ _)), insert_insert_eq).
  set (b1 := set_pDataPtr _ _). set (m1 := <[q := b1]> (nodes s)). rewrite Hlast, Hnext.
  assert (Hne : forall x, x <> q -> m1 !! x = nodes s !! x) by (intros x Hx; by apply lookup_insert_ne).
  assert (HqL : q ∉ L1 ++ p :: L2) by (intros Hin; destruct (dll_elem _ _ _ _ HL Hin); congruence).
  assert (HL1 : dll list_links m1 (L1 ++ p :: L2)) by by apply dll_insert_notin.
  wp_step. apply (wp_connect_run q b1 ht (last L1) (head L2)); [apply lookup_insert_eq| |].
  { intros x [Hx%last_Some_elem_of|Hx%head_Some_elem_of]; apply (dll_elem _ _ _ _ HL1); set_solver. }
  cbn [nodes set_nodes]. set (m2 := relink _ _ _ _ _ _).
  assert (Hm2 : forall x, x ∉ L1 ++ L2 -> m2 !! x = <[q := set_pListNext (head L2) (set_pListLast (last L1) b1)]> m1 !! x).
  { intros x Hx. apply lookup_relink_notin; [intros ?%last_Some_elem_of|intros ?%head_Some_elem_of]; set_solver. }
  assert (Hm2q : m2 !! q = Some (set_pListNext (head L2) (set_pListLast (last L1) b1))).
  { rewrite Hm2 by set_solver. apply lookup_insert_eq. }
  assert (HpL : p ∉ L1 ++ L2).
  { destruct HL as [(_ & Hdj & [Hn _]%NoDup_cons)%NoDup_app _]. set_solver. }
  assert (Hm2p : m2 !! p = Some b) by (rewrite Hm2 by done; rewrite lookup_insert_ne by done; by rewrite Hne).
  cbv zeta. wp_step. eapply wp_free_node; [exact Hm2p|]. wp_step. cbn [nodes set_nodes].
  set (ht1 := match head L2 with Some _ => _ | None => _ end).
  assert (ht1 = set_ends (L1 ++ q :: L2) ht) as -> by (symmetry; by apply (set_ends_replace ht L1 p)).
  specialize (Hmove q (delete p m2) (set_pListNext (head L2) (set_pListLast (last L1) b1))).
  unfold id in Hmove. cbn [pInternalPointer set_ends set_pListTail set_pListHead].
  assert (Hfin : forall ht2, ht2 = (if decide (pInternalPointer ht = Some p) then set_pInternalPointer (Some q) else fun x => x)
    (set_ends (L1 ++ q :: L2) ht) -> Q (q, ht2, match pos with Some _ => Some (Some q) | None => None end) (set_nodes (delete p m2) s)).
  { intros ht2 ->. apply Hmove; try done.
    - by rewrite lookup_delete_ne.
    - apply lookup_delete_eq.
    - apply dll_delete_notin; [set_solver|]. eapply (dll_replace list_links _ L1 p L2 q);
        [by apply dll_insert_notin|set_solver|apply lookup_insert_eq|done|done].
    - intros x Hx Hxq. rewrite lookup_delete_ne by set_solver. rewrite Hm2 by set_solver. rewrite lookup_insert_ne by done. by apply Hne.
    - intros x Hx. rewrite lookup_delete_ne by set_solver. unfold m2. rewrite relink_obs; [|by intros ? []|by intros ? []].
      rewrite lookup_insert_ne by set_solver. rewrite Hne by set_solver. done.
    - unfold b1. simpl. by destruct (pData b). }
  case_decide; by apply Hfin.
Qed.

(** ** The new key *)

Definition keyed (key_type : Z) (k : keyarg) (num_index : Z) p b : Bucket V :=
  if key_type =? KEY_IS_LONG then set_b_h num_index b
  else
    let b := set_nKeyLength (k_len k) (set_b_h (zend_inline_hash_func (k_bytes k)) b) in
    if IS_INTERNED (k_ptr k) then set_arKey (k_ptr k) b else set_keybuf (k_bytes k) (set_arKey (KBucket p) b).

Definition new_key (key_type : Z) (k : keyarg) (num_index : Z) : hkey :=
  if key_type =? KEY_IS_LONG then HInt num_index else HStr (k_bytes k).

(** Valid arguments: an integer with a NULL string, or a string that is not empty
    and, if interned, stands at the address of its contents. *)
Definition key_valid (key_type : Z) (k : keyarg) (num_index : Z) : Prop :=
  (key_type = KEY_IS_LONG /\ k = no_key /\ 0 <= num_index < 2 ^ 64) \/
  (key_type = KEY_IS_STRING /\ 0 < k_len k < 2 ^ 32 /\ k_ptr k <> KNull /\ forall x, k_ptr k = KInterned x -> x = k_bytes k).

Lemma wp_set_key s ht p b key_type k num Q :
  nodes s !! p = Some b ->
  Q (if key_type =? KEY_IS_LONG then bump_next_free num ht else ht) (set_nodes (<[p := keyed key_type k num p b]> (nodes s)) s) ->
  wp (set_key ht p key_type k (zend_inline_hash_func (k_bytes k)) num) Q s.
Proof.
  intros Hb HQ. unfold set_key, keyed in *. destruct (key_type =? KEY_IS_LONG).
  - wp_step. eapply wp_update; [done|]. rewrite (alter_insert_Some _ _ _ b) by done. by wp_step.
  - wp_step. eapply wp_update; [done|]. rewrite (alter_insert_Some _ _ _ b) by done.
    wp_step. eapply wp_update; [apply lookup_insert_eq|]. cbn [nodes set_nodes].
    rewrite (alter_insert_Some _ _ _ _ (lookup_insert_eq _ _ _)), insert_insert_eq.
    destruct (IS_INTERNED (k_ptr k)).
    + wp_step. eapply wp_update; [apply lookup_insert_eq|]. cbn [nodes set_nodes].
      rewrite (alter_insert_Some _ _ _ _ (lookup_insert_eq _ _ _)), insert_insert_eq. by wp_step.
    + wp_step. eapply wp_update; [apply lookup_insert_eq|]. cbn [nodes set_nodes].
      rewrite (alter_insert_Some _ _ _ _ (lookup_insert_eq _ _ _)), insert_insert_eq.
      wp_step. eapply wp_update; [apply lookup_insert_eq|]. cbn [nodes set_nodes].
      rewrite (alter_insert_Some _ _ _ _ (lookup_insert_eq _ _ _)), insert_insert_eq. wp_step.
      unfold k_len in *. by rewrite Nat2Z.id, take_ge in * by lia.
Qed.

(** The bucket before its key fields are set: it stayed, or it is new. *)
Definition prepared (key_type : Z) (k : keyarg) p b p' b' : Prop :=
  (p' = p /\ b' = b /\ bucket_ok p b /\ moves b (k_ptr k) (if key_type =? KEY_IS_LONG then 0 else k_len k) = false) \/
  (moves b (k_ptr k) (if key_type =? KEY_IS_LONG then 0 else k_len k) = true /\
   nKeyLength b' = (if key_type =? KEY_IS_LONG then 0 else k_len k) /\ arKey b' = arKey uninit).

Lemma string_bucket_ok p (c : Bucket V) k :
  0 < k_len k < 2 ^ 32 -> nKeyLength c = k_len k -> key_bytes c = k_bytes k ->
  b_h c = zend_inline_hash_func (k_bytes k) -> (exists x, arKey c = KInterned x) \/ arKey c = KBucket p ->
  bucket_ok p c /\ bucket_key c = HStr (k_bytes k).
Proof.
  intros Hlen Hn Hkb Hh Ha. assert (Hok : bucket_ok p c).
  { split; [rewrite Hh; split; [apply zend_inline_hash_func_range|lia]|]. rewrite Hn, Hkb, Hh. unfold k_len in *.
    destruct (Z.of_nat (length (k_bytes k))) eqn:E; [lia|done|lia]. }
  split; [done|]. apply (bucket_key_str p); [done|]. split; [lia|done].
Qed.

Lemma keyed_ok key_type k num p b p' b' :
  key_valid key_type k num -> prepared key_type k p b p' b' ->
  (key_type = KEY_IS_LONG -> nKeyLength b <> 0 -> arKey uninit = KNull) -> (nKeyLength b = 0 -> IS_INTERNED (arKey b) = false) ->
  let c := keyed key_type k num p' b' in
  bucket_ok p' c /\ bucket_key c = new_key key_type k num /\ lk list_links c = lk list_links b' /\
  pData c = pData b' /\ pDataPtr c = pDataPtr b'.
Proof.
  intros Hval Hprep Huninit Hint. cbv zeta. unfold keyed, new_key, prepared in *.
  destruct Hval as [(-> & -> & Hnum)|(-> & Hlen & Hnull & Hx)]; cbn [Z.eqb Pos.eqb KEY_IS_LONG KEY_IS_STRING] in *.
  - assert (nKeyLength b' = 0 /\ (arKey b' = KNull \/ arKey b' = KBucket p')) as [Hz Ha].
    { destruct Hprep as [(-> & -> & [_ Hok] & Hm)|(Hm & Hz & Ha)].
      - unfold moves in Hm. apply orb_false_iff in Hm as [H1 H2]. cbn in H1, H2.
        destruct (IS_INTERNED (arKey b)); [done|]. cbn in H2. apply negb_false_iff, Z.eqb_eq in H2.
        split; [done|]. by rewrite H2 in Hok.
      - destruct (decide (nKeyLength b = 0)) as [Hb0|Hb0]; [|split; [done|left; rewrite Ha; by apply Huninit]].
        unfold moves in Hm. rewrite (Hint Hb0), Hb0 in Hm. done. }
    split_and!; try done; [split; cbn; [lia|by rewrite Hz]|]. apply bucket_key_int. done.
  - destruct (k_ptr k) as [|x|q|a] eqn:Hk; [done|..]; cbn [IS_INTERNED].
    + specialize (Hx x eq_refl) as ->. edestruct string_bucket_ok as [H1 H2]; [exact Hlen|..|split; [exact H1|done]]; eauto.
    + edestruct string_bucket_ok as [H1 H2]; [exact Hlen|..|split; [exact H1|done]]; eauto.
    + edestruct string_bucket_ok as [H1 H2]; [exact Hlen|..|split; [exact H1|done]]; eauto.
Qed.

(** ** The element under its new key *)

Definition moved_ht ht arB L1 p L2 p' : HashTable :=
  set_pInternalPointer (if decide (pInternalPointer ht = Some p) then Some p' else pInternalPointer ht)
    (set_ends (L1 ++ p' :: L2) (set_arBuckets arB ht)).

(** The struct with the next free index after the change. *)
Lemma bump_fields key_type k num ht (c : Bucket V) :
  0 <= nNextFreeElement ht <= LONG_MAX -> key_valid key_type k num -> bucket_key c = new_key key_type k num ->
  exists nf, (if key_type =? KEY_IS_LONG then bump_next_free num ht else ht) = set_nNextFreeElement nf ht /\
    nNextFreeElement ht <= nf <= LONG_MAX /\ (nKeyLength c = 0 -> s64 (b_h c) < nf \/ nf = LONG_MAX).
Proof.
  intros Hr Hval Hk. unfold new_key in Hk. destruct Hval as [(-> & _ & Hnum)|(-> & _)]; cbn in *.
  - apply bucket_key_int in Hk as [_ Hh]. destruct (next_free_after_ok num (nNextFreeElement ht) Hnum Hr) as (H1 & H2 & H3).
    exists (next_free_after num (nNextFreeElement ht)). split_and!; [|lia|lia|by rewrite Hh].
    unfold bump_next_free, next_free_after. destruct (_ <=? _); [done|by destruct ht].
  - exists (nNextFreeElement ht). split_and!; [by destruct ht|lia|lia|]. intros Hz. unfold bucket_key in Hk. by rewrite Hz in Hk.
Qed.

(** From the bucket [p'] on, which is in the order list but in no chain. *)
Lemma wp_rekey_finish s ht L1 p L2 b v key_type k num arB m2 p' b2 (pos : option HashPosition) Q :
  ht_rep s ht (L1 ++ p :: L2) -> nodes s !! p = Some b -> bucket_val (blocks s) b = Some v ->
  key_valid key_type k num -> (key_type = KEY_IS_LONG -> nKeyLength b <> 0 -> arKey uninit = KNull) ->
  (forall q bq, q ∈ L1 ++ L2 -> nodes s !! q = Some bq -> bucket_key bq <> new_key key_type k num) ->
  length arB = length (arBuckets ht) -> slots_ok m2 (set_arBuckets arB ht) (L1 ++ L2) ->
  prepared key_type k p b p' b2 -> p' ∉ L1 ++ L2 -> m2 !! p' = Some b2 -> dll list_links m2 (L1 ++ p' :: L2) ->
  agree payload (nodes s) m2 (L1 ++ L2) -> (forall x, x ∉ L1 ++ p :: L2 -> x <> p' -> m2 !! x = nodes s !! x) ->
  (p' <> p -> m2 !! p = None /\ nodes s !! p' = None) -> pData b2 = pData b -> pDataPtr b2 = pDataPtr b ->
  (forall s' nf arB', let ht' := set_arBuckets arB' (set_nNextFreeElement nf (moved_ht ht arB L1 p L2 p')) in
     ht_rep s' ht' (L1 ++ p' :: L2) ->
     contents s' (L1 ++ p' :: L2) = contents s L1 ++ (new_key key_type k num, v) :: contents s L2 ->
     same_rest s (L1 ++ p :: L2) s' (L1 ++ p' :: L2) -> dtor_trace s' = dtor_trace s -> Q (SUCCESS, ht', pos) s') ->
  wp (ht ← set_key (moved_ht ht arB L1 p L2 p') p' key_type k (zend_inline_hash_func (k_bytes k)) num;
      b ← load p'; hd ← read_slot ht (hash_index ht (b_h b)); CONNECT_TO_BUCKET_DLLIST p' hd ;;
      ht ← write_slot ht (hash_index ht (b_h b)) (Some p'); mret (SUCCESS, ht, pos)) Q (set_nodes m2 s).
Proof.
  intros HR Hb Hv Hval Huninit Hkey HarB HS Hprep Hp' Hb2 HL2 Hag2 Hout2 Hnew Hd1 Hd2 HQ.
  destruct (rep_buckets _ _ _ HR p b) as [Hok _]; [set_solver|done|].
  assert (Hint : nKeyLength b = 0 -> IS_INTERNED (arKey b) = false).
  { intros Hz. destruct Hok as [_ Hok]. rewrite Hz in Hok. by destruct Hok as [->| ->]. }
  destruct (keyed_ok key_type k num p b p' b2 Hval Hprep Huninit Hint) as (Hok3 & Hkey3 & Hlk3 & Hd3 & Hd4).
  destruct (rep_next _ _ _ HR) as [Hnfr _]. set (b3 := keyed key_type k num p' b2) in *. set (m3 := <[p' := b3]> m2).
  assert (Hm3 : m3 !! p' = Some b3) by apply lookup_insert_eq.
  assert (Hne3 : forall x, x <> p' -> m3 !! x = m2 !! x) by (intros; by apply lookup_insert_ne).
  assert (Hag23 : forall A (f : Bucket V -> A), agree f m2 m3 (L1 ++ L2)).
  { intros A f x Hx. rewrite Hne3; [done|]. by intros ->. }
  wp_step. apply wp_set_key with b2; [done|]. cbn [nodes set_nodes]. fold b3 m3.
  destruct (bump_fields key_type k num (moved_ht ht arB L1 p L2 p') b3 Hnfr Hval Hkey3) as (nf & -> & Hnf & Hnfb).
  set (ht3 := set_nNextFreeElement nf (moved_ht ht arB L1 p L2 p')). wp_step. eapply wp_load; [exact Hm3|].
  destruct (rep_geometry _ _ _ HR) as [Hk [(_ & _ & ?)|[Hm Hl]]]; [by destruct L1|].
  apply (wp_chain_push ht3 (L1 ++ L2) (L1 ++ p' :: L2) p' b3 (fun ht => mret (SUCCESS, ht, pos))).
  - eapply (slots_ok_agree m2); [apply Hag23|..|exact HS]; done.
  - intros h. rewrite (hash_index_mask ht) by done. cbn. rewrite HarB. eapply hash_index_lt, HR.
  - done.
  - set_solver.
  - exact Hm3.
  - cbn [nodes set_nodes]. intros m4 arB' HlB HS4 Hst4 Hout4. wp_step.
    destruct (agree_strip_hash m3 m4 (L1 ++ p' :: L2) Hst4) as [Hpay4 Hlk4].
    assert (exists b4, m4 !! p' = Some b4 /\ payload b3 = payload b4) as (b4 & Hb4 & E4).
    { specialize (Hpay4 p' ltac:(set_solver)). rewrite Hm3 in Hpay4. destruct (m4 !! p') as [b4|]; [|done].
      exists b4. split; [done|]. symmetry. by apply (inj Some) in Hpay4. }
    pose proof (payload_key _ _ E4) as Hkey4. apply payload_eq in E4 as E4'. destruct E4' as (Eh & En & Ed & Edp & _).
    assert (Hag4 : agree payload (nodes s) m4 (L1 ++ L2)).
    { eapply agree_trans; [exact Hag2|]. eapply agree_trans; [apply Hag23|]. eapply agree_subset; [|exact Hpay4]. set_solver. }
    assert (HL4 : dll list_links m4 (L1 ++ p' :: L2)).
    { eapply dll_frame; [exact Hlk4|]. eapply dll_frame; [|exact HL2]. intros x _.
      destruct (decide (x = p')) as [->|Hx]; [|by rewrite Hne3]. by rewrite Hm3, Hb2; cbn; rewrite Hlk3. }
    set (s4 := set_nodes m4 (set_nodes m3 (set_nodes m2 s))). assert (Hdat : pData b4 = pData b /\ pDataPtr b4 = pDataPtr b) by (split; congruence).
    apply HQ; [| | |done].
    + apply (rekeyed_rep s s4 ht _ L1 p L2 p' b b4 HR Hb Hp' Hb4 HL4 Hag4 eq_refl Hdat); try done.
      * by apply (payload_ok p' b3).
      * intros q bq Hq Hbq. rewrite <- Hkey4, Hkey3. by apply (Hkey q).
      * split; [done|]. right. split; [done|]. cbn. rewrite HlB. cbn. by rewrite HarB.
      * intros x Hx. cbn in Hx. case_decide; [injection Hx as <-; set_solver|].
        pose proof (rep_internal _ _ _ HR x Hx). set_solver.
      * cbn. rewrite <- En, <- Eh. exact Hnfb.
    + rewrite <- Hkey3, Hkey4. by eapply (rekeyed_contents s s4).
    + eapply (rekeyed_rest s s4); try done.
      * intros q Hq Hqp. cbn. rewrite Hout4 by set_solver. rewrite Hne3 by done. by apply Hout2.
      * intros Hpp. destruct (Hnew Hpp) as [Hn1 Hn2]. split; [|done]. cbn.
        rewrite Hout4; [by rewrite Hne3|]. pose proof (rep_notin _ _ _ _ _ HR). set_solver.
Qed.

Lemma moved_ht_stay ht arB L1 p L2 :
  pListHead ht = head (L1 ++ p :: L2) -> pListTail ht = last (L1 ++ p :: L2) ->
  moved_ht ht arB L1 p L2 p = set_arBuckets arB ht.
Proof. destruct ht. unfold moved_ht, set_ends. cbn. intros -> ->. case_decide as H; [by rewrite H|done]. Qed.

Lemma wp_rekey s ht L1 p L2 b v key_type k num pos Q :
  ht_rep s ht (L1 ++ p :: L2) -> nodes s !! p = Some b -> bucket_val (blocks s) b = Some v ->
  key_valid key_type k num -> (key_type = KEY_IS_LONG -> nKeyLength b <> 0 -> arKey uninit = KNull) ->
  (forall q bq, q ∈ L1 ++ L2 -> nodes s !! q = Some bq -> bucket_key bq <> new_key key_type k num) ->
  get_current ht pos = Some p ->
  (forall s' ht' p' pos', ht_rep s' ht' (L1 ++ p' :: L2) ->
     contents s' (L1 ++ p' :: L2) = contents s L1 ++ (new_key key_type k num, v) :: contents s L2 ->
     same_rest s (L1 ++ p :: L2) s' (L1 ++ p' :: L2) -> dtor_trace s' = dtor_trace s -> same_config ht ht' ->
     get_current ht' pos' = Some p' -> Q (SUCCESS, ht', pos') s') ->
  wp (rekey uninit ht p key_type k (if key_type =? KEY_IS_LONG then 0 else k_len k) (zend_inline_hash_func (k_bytes k)) num pos) Q s.
Proof.
  intros HR Hb Hv Hval Huninit Hkey Hcur HQ. set (len := if key_type =? KEY_IS_LONG then 0 else k_len k).
  destruct (rep_order _ _ _ HR) as (HL & Hhd & Htl & _). pose proof (rep_notin _ _ _ _ _ HR) as HpL.
  destruct (rep_buckets _ _ _ HR p b) as [Hok _]; [set_solver|done|].
  unfold rekey. wp_step. apply (wp_unlink_chain s ht L1 p L2 b); [done|done|].
  intros m1 arB HarB HS1 Hst1 Hm1p Hout1. wp_step.
  destruct (agree_strip_hash (nodes s) m1 (L1 ++ p :: L2) Hst1) as [Hpay1 Hlk1].
  assert (HL1 : dll list_links m1 (L1 ++ p :: L2)) by (eapply dll_frame; [exact Hlk1|done]).
  assert (Hpay1' : agree payload (nodes s) m1 (L1 ++ L2)) by (eapply agree_subset; [|exact Hpay1]; set_solver).
  apply (wp_move_bucket (set_nodes m1 s) (set_arBuckets arB ht) L1 p L2 b); [done|done|done|done|..].
  - intros Hstay. rewrite <- (moved_ht_stay ht arB L1 p L2) by done.
    apply (wp_rekey_finish s ht L1 p L2 b v key_type k num arB m1 p b); try done; [by left| |].
    + intros x Hx _. by apply Hout1.
    + intros s' nf arB' ht' HR' Hc Hrest Htr. apply (HQ s' ht' p pos); try done. subst ht'.
      unfold get_current in *. destruct pos; [done|]. cbn. by case_decide.
  - cbn [nodes set_nodes]. intros q m2 b2 Hmv Hq Hpq Hm2q Hm2p HL2 Hout2 Hst2 Hd1 Hd2 Hlen2 Hark.
    assert (Hq0 : nodes s !! q = None).
    { specialize (Hst1 q). rewrite Hq in Hst1. by destruct (nodes s !! q). }
    set (ht2 := (if decide _ then _ else _) _).
    assert (ht2 = moved_ht ht arB L1 p L2 q) as ->.
    { unfold ht2, moved_ht. cbn. case_decide; [done|]. unfold id, set_ends. by destruct ht. }
    apply (wp_rekey_finish s ht L1 p L2 b v key_type k num arB m2 q b2); try done.
    + eapply (slots_ok_agree m1); [|done|done|exact HS1].
      apply (agree_weaken strip_list); [apply strip_list_chain_obs|]. exact Hst2.
    + right. done.
    + intros HqL. destruct (rep_entry _ _ _ q HR) as (? & ? & ? & _); [set_solver|]. congruence.
    + eapply agree_trans; [exact Hpay1'|]. apply (agree_weaken strip_list); [apply strip_list_payload|exact Hst2].
    + intros x Hx Hxq. rewrite Hout2 by done. by apply Hout1.
    + intros s' nf arB' ht' HR' Hc Hrest Htr. apply (HQ s' ht' q); try done. subst ht'.
      unfold get_current in *. destruct pos; [done|]. cbn. by rewrite decide_True.
Qed.

(** ** Which of two elements with the key goes *)

Lemma wp_found_before fuel q L1 p L2 Q s :
  dll list_links (nodes s) (L1 ++ p :: L2) -> (length L1 < fuel)%nat ->
  Q (if decide (q ∈ L1) then HASH_UPDATE_KEY_IF_AFTER else HASH_UPDATE_KEY_IF_BEFORE) s ->
  wp (found_before fuel q (last L1)) Q s.
Proof.
  revert fuel p L2. induction L1 as [|x L1 IH] using rev_ind; intros fuel p L2 Hd Hlen HQ; [destruct fuel; simpl; by wp_step|].
  destruct fuel as [|fuel]; [lia|]. rewrite last_snoc. simpl. destruct (decide (x = q)) as [->|Hx].
  - wp_step. by rewrite decide_True in HQ by set_solver.
  - rewrite <- app_assoc in Hd. destruct (dll_lookup _ _ _ _ _ Hd) as (bx & Hbx & Hlast & _). wp_step. wp_step.
    change (pListLast bx) with (lprev list_links bx). rewrite Hlast. rewrite length_app in Hlen. simpl in Hlen.
    apply (IH fuel x (p :: L2)); [done|lia|].
    destruct (decide (q ∈ L1)) as [Hq|Hq]; [by rewrite decide_True in HQ by set_solver|by rewrite decide_False in HQ by set_solver].
Qed.

End rules.

(** ** The specification *)

(** The element with key [k] renamed. *)
Definition om_rename {V} (k k' : hkey) (E : list (hkey * V)) : list (hkey * V) :=
  (fun kv => if decide (kv.1 = k) then (k', kv.2) else kv) <$> E.

(** Whether [k'] stands before [k]. *)
Fixpoint om_before {V} (k' k : hkey) (E : list (hkey * V)) : bool :=
  match E with
  | [] => false
  | (x, _) :: E => if decide (x = k) then false else if decide (x = k') then true else om_before k' k E
  end.

(** The mode asks for the current element to be dropped when another one has the key. *)
Definition drops_current (mode : Z) (before : bool) : bool :=
  negb (mode =? HASH_UPDATE_KEY_ANYWAY) &&
  negb (Z.land mode (if before then HASH_UPDATE_KEY_IF_AFTER else HASH_UPDATE_KEY_IF_BEFORE) =? 0).

(** Result, contents and destructed values of giving the element [k] of [E] the key [k']. *)
Definition rename_spec {V} (mode : Z) (k k' : hkey) (E : list (hkey * V)) : zresult * list (hkey * V) * list V :=
  if decide (k = k') then (SUCCESS, E, [])
  else
    match om_lookup k' E with
    | None => (SUCCESS, om_rename k k' E, [])
    | Some w =>
        if drops_current mode (om_before k' k E)
        then (FAILURE, om_delete k E, option_list (om_lookup k E))
        else (SUCCESS, om_rename k k' (om_delete k' E), [w])
    end.

Lemma om_rename_mid {V} k k' v (E1 E2 : list (hkey * V)) :
  NoDup (om_keys (E1 ++ (k, v) :: E2)) -> om_rename k k' (E1 ++ (k, v) :: E2) = E1 ++ (k', v) :: E2.
Proof.
  unfold om_keys, om_rename. rewrite !fmap_app, !fmap_cons. cbn [fst snd]. intros HND. rewrite decide_True by done.
  assert (Hid : forall E : list (hkey * V), k ∉ om_keys E -> (fun kv => if decide (kv.1 = k) then (k', kv.2) else kv) <$> E = E).
  { intros E. unfold om_keys. induction E as [|[x w] E IH]; [done|]. rewrite !fmap_cons. intros [? ?]%not_elem_of_cons. simpl in *.
    rewrite decide_False by done. f_equal. by apply IH. }
  apply NoDup_app in HND as (H1 & H2 & [H3 H4]%NoDup_cons). rewrite !Hid; [done|done|]. unfold om_keys. set_solver.
Qed.

Lemma om_before_mid {V} k k' v (E1 E2 : list (hkey * V)) :
  k ∉ om_keys E1 -> om_before k' k (E1 ++ (k, v) :: E2) = bool_decide (k' ∈ om_keys E1).
Proof.
  unfold om_keys. induction E1 as [|[x w] E1 IH]; simpl; intros Hk.
  - by rewrite decide_True by done.
  - apply not_elem_of_cons in Hk as [Hx Hk]. rewrite decide_False by done. destruct (decide (x = k')) as [->|Hx'].
    + symmetry. apply bool_decide_eq_true. left.
    + rewrite IH by done. apply bool_decide_ext. set_solver.
Qed.

Section spec.
Context {V : Type} {AL : Allocator} (uninit : Bucket V).
Implicit Types (s : store (Bucket V) V) (ht : HashTable) (L : list ptr) (p q : ptr) (b : Bucket V).

(** Another element than that at [p] goes. *)
Lemma wp_delete_other s ht L1 p L2 q k bq v Q :
  ht_rep s ht (L1 ++ p :: L2) -> entry s p = Some (k, v) -> q ∈ L1 ++ L2 -> nodes s !! q = Some bq ->
  (forall s' ht' L1' L2' w, ht_rep s' ht' (L1' ++ p :: L2') -> entry s' p = Some (k, v) ->
     contents s' (L1' ++ p :: L2') = om_delete (bucket_key bq) (contents s (L1 ++ p :: L2)) ->
     om_lookup (bucket_key bq) (contents s (L1 ++ p :: L2)) = Some w ->
     same_rest s (L1 ++ p :: L2) s' (L1' ++ p :: L2') -> dtor_trace s' = dtor_trace s ++ if_dtor ht [w] ->
     same_config ht ht' -> (pInternalPointer ht = Some p -> pInternalPointer ht' = Some p) -> Q ht' s') ->
  wp (zend_hash_bucket_delete ht q) Q s.
Proof.
  intros HR He Hq Hbq HQ. pose proof (rep_notin _ _ _ _ _ HR) as HpL. assert (Hqp : q <> p) by (by intros ->).
  assert (exists A B L1' L2', L1 ++ p :: L2 = A ++ q :: B /\ A ++ B = L1' ++ p :: L2') as (A & B & L1' & L2' & HL & HL').
  { apply elem_of_app in Hq as [(X & Y & ->)%list_elem_of_split|(X & Y & ->)%list_elem_of_split].
    - exists X, (Y ++ p :: L2), (X ++ Y), L2. by rewrite <- !app_assoc.
    - exists (L1 ++ p :: X), Y, L1, (X ++ Y). rewrite <- !app_assoc. done. }
  pose proof (rep_contents_keys _ _ _ HR) as HND. rewrite HL in *. unfold zend_hash_bucket_delete.
  destruct (contents_mid _ _ _ _ _ HR) as (bq' & w & Hbq' & _ & _ & Heq & Hc). assert (bq' = bq) as -> by congruence.
  rewrite Hc in HND. apply (wp_bucket_delete ht A q B); [done|].
  intros b0 w0 s' arB Hb0 He0 HR' Hc' Hrest Htr. assert (w0 = w) as -> by congruence.
  rewrite HL' in HR', Hrest. apply (HQ s' _ L1' L2' w); try done.
  - assert (Hcp : contents s' [p] = contents s [p]).
    { apply (contents_subset s s' ht (deleted_ht ht A q B arB) (A ++ q :: B) (L1' ++ p :: L2')); [done|done| |by rewrite <- HL'|set_solver].
      rewrite <- HL'. set_solver. }
    destruct (rep_entry _ _ _ p HR') as (b' & v' & _ & _ & _ & He'); [set_solver|].
    rewrite (contents_cons _ _ _ _ He), (contents_cons _ _ _ _ He') in Hcp. injection Hcp as Hk' Hv'. by rewrite He', Hk', Hv'.
  - rewrite <- HL', Hc', Hc, om_delete_mid by done. by rewrite contents_app.
  - rewrite Hc. by apply om_lookup_mid.
  - intros Hi. unfold deleted_ht. cbn. rewrite decide_False; [done|]. rewrite Hi. congruence.
Qed.

(** What the function leaves: the result, the map, and the position on the element. *)
Definition update_post s ht L mode k k' v (r : zresult * HashTable * option HashPosition) (s' : store (Bucket V) V) : Prop :=
  let '(res, E', gone) := rename_spec mode k k' (contents s L) in
  let '(res', ht', pos') := r in
  res' = res /\ exists L', ht_rep s' ht' L' /\ contents s' L' = E' /\ same_rest s L s' L' /\
    dtor_trace s' = dtor_trace s ++ if_dtor ht gone /\ same_config ht ht' /\
    (res = SUCCESS -> exists p', p' ∈ L' /\ get_current ht' pos' = Some p' /\ entry s' p' = Some (k', v)).

Lemma if_dtor_nil ht : if_dtor ht [] = @nil V.
Proof. unfold if_dtor. by destruct (pDestructor ht). Qed.

(** The renamed element is where the old one was. *)
Lemma rekeyed_entry s ht s' ht' L1 p L2 p' kv :
  ht_rep s ht (L1 ++ p :: L2) -> ht_rep s' ht' (L1 ++ p' :: L2) ->
  contents s' (L1 ++ p' :: L2) = contents s L1 ++ kv :: contents s L2 -> entry s' p' = Some kv.
Proof.
  intros HR HR' Hc. destruct (contents_mid _ _ _ _ _ HR') as (b' & v' & _ & _ & _ & He' & Hc2).
  assert (length (contents s' L1) = length (contents s L1)) as Hl.
  { rewrite (rep_contents_length _ _ _ _ HR'), (rep_contents_length _ _ _ _ HR); [done|set_solver|set_solver]. }
  rewrite Hc2 in Hc. apply app_inj_1 in Hc as [_ [= H1 _]]; [|done]. by rewrite He', H1.
Qed.

Section replace.
Context s ht L1 p L2 b (v : V) (key_type : Z) (k : keyarg) (num mode : Z) (pos : option HashPosition).
Let K := new_key key_type k num.
Hypothesis HR : ht_rep s ht (L1 ++ p :: L2).
Hypothesis Hb : nodes s !! p = Some b.
Hypothesis Hv : bucket_val (blocks s) b = Some v.
Hypothesis Hval : key_valid key_type k num.
Hypothesis Huninit : key_type = KEY_IS_LONG -> nKeyLength b <> 0 -> arKey uninit = KNull.
Hypothesis Hcur : get_current ht pos = Some p.
Hypothesis Hne : bucket_key b <> K.

Lemma entry_current : entry s p = Some (bucket_key b, v).
Proof. unfold entry. rewrite Hb. simpl. by rewrite Hv. Qed.

Lemma wp_replace_none :
  (forall q bq, q ∈ L1 ++ L2 -> nodes s !! q = Some bq -> bucket_key bq <> K) ->
  wp (replace_key uninit ht p None key_type k (if key_type =? KEY_IS_LONG then 0 else k_len k)
        (zend_inline_hash_func (k_bytes k)) num mode pos)
    (update_post s ht (L1 ++ p :: L2) mode (bucket_key b) K v) s.
Proof.
  intros Hnone. pose proof (rep_contents_keys _ _ _ HR) as HND. unfold replace_key.
  assert (Hc : contents s (L1 ++ p :: L2) = contents s L1 ++ (bucket_key b, v) :: contents s L2).
  { by rewrite contents_app, (contents_cons _ _ _ _ entry_current). }
  assert (Hl : om_lookup K (contents s (L1 ++ p :: L2)) = None).
  { apply om_lookup_None. intros (q & bq & Hq & Hbq & Hk)%contents_keys_elem.
    destruct (decide (q = p)) as [->|Hqp]; [congruence|]. by apply (Hnone q bq); [set_solver|..]. }
  apply (wp_rekey uninit s ht L1 p L2 b v); [done..|]. intros s' ht' p' pos' HR' Hc' Hrest Htr Hcfg Hcur'.
  unfold update_post, rename_spec. rewrite decide_False, Hl by done. split; [done|]. exists (L1 ++ p' :: L2).
  split_and!; [done| |done|by rewrite if_dtor_nil, app_nil_r|done|].
  - rewrite Hc', Hc, om_rename_mid; [done|]. by rewrite <- Hc.
  - intros _. exists p'. split_and!; [set_solver|done|exact (rekeyed_entry _ _ _ _ _ _ _ _ _ HR HR' Hc')].
Qed.

Lemma wp_replace_some q bq :
  q ∈ L1 ++ L2 -> nodes s !! q = Some bq -> bucket_key bq = K ->
  wp (replace_key uninit ht p (Some q) key_type k (if key_type =? KEY_IS_LONG then 0 else k_len k)
        (zend_inline_hash_func (k_bytes k)) num mode pos)
    (update_post s ht (L1 ++ p :: L2) mode (bucket_key b) K v) s.
Proof.
  intros Hq Hbq Hkq. pose proof (rep_contents_keys _ _ _ HR) as HND. pose proof (rep_notin _ _ _ _ _ HR) as HpL.
  destruct (rep_order _ _ _ HR) as (HL & _ & _ & Hn & _).
  assert (Hc : contents s (L1 ++ p :: L2) = contents s L1 ++ (bucket_key b, v) :: contents s L2).
  { by rewrite contents_app, (contents_cons _ _ _ _ entry_current). }
  assert (HqK : forall X, X ⊆ L1 ++ p :: L2 -> K ∈ om_keys (contents s X) <-> q ∈ X).
  { intros X HX. split.
    - intros (x & bx & Hx & Hbx & Hkx)%contents_keys_elem.
      by rewrite (rep_keys _ _ _ HR q x bq bx); [|set_solver|set_solver|done|done|congruence].
    - intros Hin. destruct (rep_entry _ _ _ q HR) as (bq' & w & Hbq' & _ & _ & Heq); [set_solver|].
      assert (bq' = bq) as -> by congruence. rewrite Hkq in Heq. apply list_elem_of_fmap. exists (K, w). split; [done|].
      apply list_elem_of_omap. eauto. }
  assert (Hbef : om_before K (bucket_key b) (contents s (L1 ++ p :: L2)) = bool_decide (q ∈ L1)).
  { rewrite Hc, om_before_mid; [apply bool_decide_ext, HqK; set_solver|]. rewrite Hc in HND. unfold om_keys in *.
    rewrite fmap_app, fmap_cons in HND. apply NoDup_app in HND as (_ & Hdj & _). intros Hin. apply (Hdj _ Hin). left. }
  destruct (om_lookup K (contents s (L1 ++ p :: L2))) as [w|] eqn:Hl.
  2:{ apply om_lookup_None in Hl. destruct Hl. apply HqK; [done|set_solver]. }
  unfold replace_key. wp_step.
  apply (wp_mono _ (fun d s' => d = drops_current mode (bool_decide (q ∈ L1)) /\ s' = s)).
  { unfold drops_current. destruct (mode =? HASH_UPDATE_KEY_ANYWAY); cbn [negb andb]; [by wp_step|].
    destruct (dll_lookup _ _ _ _ _ HL) as (b0 & Hb0 & Hlast & _). wp_step. wp_step. wp_step.
    change (pListLast b0) with (lprev list_links b0). rewrite Hlast.
    apply (wp_found_before _ q L1 p L2); [done|unfold loop_bound; rewrite Hn, length_app; lia|]. wp_step.
    split; [|done]. destruct (decide (q ∈ L1)); [by rewrite bool_decide_eq_true_2|by rewrite bool_decide_eq_false_2]. }
  intros d s0 [-> ->]. unfold update_post, rename_spec. rewrite decide_False, Hl, Hbef by done.
  destruct (drops_current mode _).
  - wp_step. unfold zend_hash_bucket_delete. apply (wp_bucket_delete ht L1 p L2); [done|].
    intros b0 w0 s' arB Hb0 He0 HR' Hc' Hrest Htr. assert (w0 = v) as -> by (rewrite entry_current in He0; congruence).
    wp_step. split; [done|]. exists (L1 ++ L2). split_and!; [done| |done| |done|done].
    + rewrite Hc', Hc, om_delete_mid by by rewrite <- Hc. by rewrite contents_app.
    + rewrite Htr, Hc, om_lookup_mid by by rewrite <- Hc. done.
  - wp_step. apply (wp_delete_other s ht L1 p L2 q (bucket_key b) bq v); [done|apply entry_current|done|done|].
    rewrite Hkq. intros s1 ht1 L1' L2' w1 HR1 He1 Hc1 Hl1 Hrest1 Htr1 Hcfg1 Hcur1.
    assert (w1 = w) as -> by congruence.
    destruct (rep_entry _ _ _ p HR1) as (b1 & v1 & Hb1 & _ & Hv1 & He1'); [set_solver|].
    assert (bucket_key b1 = bucket_key b /\ v1 = v) as [Hk1 ->] by (rewrite He1 in He1'; split; congruence).
    assert (Hlen1 : nKeyLength b1 <> 0 -> nKeyLength b <> 0).
    { intros Hz1 Hz. unfold bucket_key in Hk1. rewrite Hz in Hk1. simpl in Hk1. destruct (Z.eqb_spec (nKeyLength b1) 0); done. }
    assert (Hc1' : contents s1 (L1' ++ p :: L2') = contents s1 L1' ++ (bucket_key b, v) :: contents s1 L2').
    { by rewrite contents_app, (contents_cons _ _ _ _ He1). }
    pose proof (rep_contents_keys _ _ _ HR1) as HND1.
    apply (wp_rekey uninit s1 ht1 L1' p L2' b1 v); [done|done|done|done|auto| | |].
    + intros x bx Hx Hbx Hkx. destruct (rep_entry _ _ _ x HR1) as (bx' & wx & Hbx' & _ & _ & Hex); [set_solver|].
      assert (bx' = bx) as -> by congruence. fold K in Hkx. rewrite Hkx in Hex.
      assert (Hin : (K, wx) ∈ contents s1 (L1' ++ p :: L2')) by (apply list_elem_of_omap; exists x; split; [set_solver|done]).
      rewrite Hc1 in Hin. unfold om_delete in Hin. apply list_elem_of_filter in Hin as [? _]. done.
    + unfold get_current in *. destruct pos; [done|auto].
    + intros s' ht' p' pos' HR' Hc' Hrest Htr Hcfg Hcur'. split; [done|]. exists (L1' ++ p' :: L2'). split_and!; [done| | | | |].
      * rewrite Hc', <- Hc1, Hc1', om_rename_mid; [done|]. by rewrite <- Hc1'.
      * by eapply same_rest_trans.
      * congruence.
      * unfold same_config in *. intuition congruence.
      * intros _. exists p'. split_and!; [set_solver|done|exact (rekeyed_entry _ _ _ _ _ _ _ _ _ HR1 HR' Hc')].
Qed.

End replace.


End spec.

(** ** On the table of [ZendHashDemo] *)

Section witness.
Import Demo.


(** Fresh memory where a freed bucket had the interned key "z". *)
Definition uninit_z : Bucket Z := set_arKey (KInterned [122; 0]) uninit.

Definition key_z_interned : keyarg := KeyArg (KInterned [122; 0]) [122; 0].

(** "a" becomes an integer in the slot of "z", then "z" is looked up. *)
Definition garbage_key_run : cmd dstore (zresult * list (hkey * Z)) :=
  '(_, ht, _) ← zend_hash_update_current_key_ex uninit_z ht KEY_IS_LONG no_key
    (Z.land (zend_inline_hash_func [122; 0]) 7) HASH_UPDATE_KEY_ANYWAY (Some (Some 2%positive));
  '(r, _) ← zend_hash_find ht key_z_interned;
  E ← first_element ht;
  mret (r, E).

(** The new bucket of an element whose string key becomes an integer gets no
    [arKey]: whatever the memory held there is compared with the keys looked up. *)
Example update_key_uninitialised :
  fst <$> garbage_key_run st = Some (SUCCESS, [(HInt (Z.land (zend_inline_hash_func [122; 0]) 7), 10)]).
Proof. vm_compute. reflexivity. Qed.

End witness.
