(* ===== verification/ZendLlist.v ===== *)
(** * ZendLlist: the engine's doubly linked list

    Models src/Zend/zend_llist.c.  An element is a node of the store, linked
    through [le_next]/[le_prev]; its [data] bytes are one value of [V].  The
    [zend_llist] struct is passed and returned explicitly. *)
From S2P Require Import Prelude Memory Dllist.
From stdpp Require Import base list gmap sorting.
Local Open Scope Z_scope.

Record zend_llist_element (V : Type) := mkElement {
  le_next : option ptr;
  le_prev : option ptr;
  le_data : V
}.
Arguments mkElement {V}.
Arguments le_next {V} _.
Arguments le_prev {V} _.
Arguments le_data {V} _.

Record zend_llist := mkLlist {
  l_head : option ptr;
  l_tail : option ptr;
  l_count : Z;
  l_size : Z;
  l_dtor : bool;
  l_persistent : bool;
  traverse_ptr : option ptr
}.

Definition set_next {V} (v : option ptr) (e : zend_llist_element V) : zend_llist_element V :=
  mkElement v (le_prev e) (le_data e).
Definition set_prev {V} (v : option ptr) (e : zend_llist_element V) : zend_llist_element V :=
  mkElement (le_next e) v (le_data e).
Definition set_data {V} (v : V) (e : zend_llist_element V) : zend_llist_element V :=
  mkElement (le_next e) (le_prev e) v.

Definition set_head (v : option ptr) (l : zend_llist) : zend_llist :=
  mkLlist v (l_tail l) (l_count l) (l_size l) (l_dtor l) (l_persistent l) (traverse_ptr l).
Definition set_tail (v : option ptr) (l : zend_llist) : zend_llist :=
  mkLlist (l_head l) v (l_count l) (l_size l) (l_dtor l) (l_persistent l) (traverse_ptr l).
Definition set_count (v : Z) (l : zend_llist) : zend_llist :=
  mkLlist (l_head l) (l_tail l) v (l_size l) (l_dtor l) (l_persistent l) (traverse_ptr l).
Definition set_traverse (v : option ptr) (l : zend_llist) : zend_llist :=
  mkLlist (l_head l) (l_tail l) (l_count l) (l_size l) (l_dtor l) (l_persistent l) v.

Definition llist_links {V} : links (zend_llist_element V) := Links le_next le_prev set_next set_prev.

#[global] Instance llist_links_ok V : LinksOk (@llist_links V).
Proof. split; by intros v []. Qed.

Section ops.
Context {V : Type} {AL : Allocator} (uninit : zend_llist_element V).

Abbreviation lstore := (store (zend_llist_element V) V).
Abbreviation lcmd := (cmd lstore).

(** [traverse_ptr] is not written. *)
Definition zend_llist_init (l : zend_llist) (size : Z) (dtor persistent : bool) : zend_llist :=
  mkLlist None None 0 size dtor persistent (traverse_ptr l).

Definition zend_llist_add_element (l : zend_llist) (element : V) : lcmd zend_llist :=
  tmp ← alloc_node uninit;
  update tmp (set_prev (l_tail l)) ;;
  update tmp (set_next None) ;;
  l ← match l_tail l with
      | Some t => update t (set_next (Some tmp)) ;; mret l
      | None => mret (set_head (Some tmp) l)
      end;
  let l := set_tail (Some tmp) l in
  update tmp (set_data element) ;;
  mret (set_count (u64 (l_count l + 1)) l).

Definition zend_llist_prepend_element (l : zend_llist) (element : V) : lcmd zend_llist :=
  tmp ← alloc_node uninit;
  update tmp (set_next (l_head l)) ;;
  update tmp (set_prev None) ;;
  l ← match l_head l with
      | Some h => update h (set_prev (Some tmp)) ;; mret l
      | None => mret (set_tail (Some tmp) l)
      end;
  let l := set_head (Some tmp) l in
  update tmp (set_data element) ;;
  mret (set_count (u64 (l_count l + 1)) l).

Definition DEL_LLIST_ELEMENT (current : ptr) (l : zend_llist) : lcmd zend_llist :=
  e ← load current;
  l ← match le_prev e with
      | Some a => update a (set_next (le_next e)) ;; mret l
      | None => mret (set_head (le_next e) l)
      end;
  l ← match le_next e with
      | Some b => update b (set_prev (le_prev e)) ;; mret l
      | None => mret (set_tail (le_prev e) l)
      end;
  (if l_dtor l then e ← load current; call_dtor (le_data e) else mret tt) ;;
  free_node current ;;
  mret (set_count (u64 (l_count l - 1)) l).

(** Bound on the turns of a loop over the list. *)
Definition llist_bound (l : zend_llist) : nat := S (Z.to_nat (l_count l)).

(** [compare(current->data, element)] *)
Fixpoint del_loop (fuel : nat) (l : zend_llist) (element : V) (compare : V -> V -> bool)
    (current : option ptr) : lcmd zend_llist :=
  match current with
  | None => mret l
  | Some q =>
      match fuel with
      | O => cfault
      | S fuel =>
          e ← load q;
          if compare (le_data e) element then DEL_LLIST_ELEMENT q l
          else del_loop fuel l element compare (le_next e)
      end
  end.

Definition zend_llist_del_element (l : zend_llist) (element : V) (compare : V -> V -> bool) :
    lcmd zend_llist :=
  del_loop (llist_bound l) l element compare (l_head l).

Fixpoint destroy_loop (fuel : nat) (dtor : bool) (current : option ptr) : lcmd unit :=
  match current with
  | None => mret tt
  | Some q =>
      match fuel with
      | O => cfault
      | S fuel =>
          e ← load q;
          (if dtor then call_dtor (le_data e) else mret tt) ;;
          free_node q ;;
          destroy_loop fuel dtor (le_next e)
      end
  end.

(** [head] and [tail] are left as they are. *)
Definition zend_llist_destroy (l : zend_llist) : lcmd zend_llist :=
  destroy_loop (llist_bound l) (l_dtor l) (l_head l) ;;
  mret (set_count 0 l).

Definition zend_llist_clean (l : zend_llist) : lcmd zend_llist :=
  l ← zend_llist_destroy l;
  mret (set_head None (set_tail None l)).

(** The returned address is that of the data of the element that was freed. *)
Definition zend_llist_remove_tail (l : zend_llist) : lcmd (option ptr * zend_llist) :=
  match l_tail l with
  | Some old_tail =>
      e ← load old_tail;
      l ← match le_prev e with
          | Some a => update a (set_next None) ;; mret l
          | None => mret (set_head None l)
          end;
      e ← load old_tail;
      let l := set_tail (le_prev e) l in
      (if l_dtor l then call_dtor (le_data e) else mret tt) ;;
      free_node old_tail ;;
      mret (Some old_tail, set_count (u64 (l_count l - 1)) l)
  | None => mret (None, l)
  end.

Fixpoint copy_loop (fuel : nat) (dst : zend_llist) (p : option ptr) : lcmd zend_llist :=
  match p with
  | None => mret dst
  | Some q =>
      match fuel with
      | O => cfault
      | S fuel =>
          e ← load q;
          dst ← zend_llist_add_element dst (le_data e);
          e ← load q;
          copy_loop fuel dst (le_next e)
      end
  end.

Definition zend_llist_copy (dst src : zend_llist) : lcmd zend_llist :=
  let dst := zend_llist_init dst (l_size src) (l_dtor src) (l_persistent src) in
  copy_loop (llist_bound src) dst (l_head src).

(** A callback that may rewrite the data; a non-zero result asks for removal. *)
Fixpoint apply_del_loop (fuel : nat) (func : V -> bool * V) (l : zend_llist) (element : option ptr) :
    lcmd zend_llist :=
  match element with
  | None => mret l
  | Some q =>
      match fuel with
      | O => cfault
      | S fuel =>
          e ← load q;
          let next := le_next e in
          let '(del, v) := func (le_data e) in
          update q (set_data v) ;;
          l ← (if del : bool then DEL_LLIST_ELEMENT q l else mret l);
          apply_del_loop fuel func l next
      end
  end.

Definition zend_llist_apply_with_del (l : zend_llist) (func : V -> bool * V) : lcmd zend_llist :=
  apply_del_loop (llist_bound l) func l (l_head l).

(** [for (element=l->head; element; element=element->next) func(element->data)];
    the callback threads a state. *)
Fixpoint apply_loop {A} (fuel : nat) (func : V -> A -> V * A) (element : option ptr) (acc : A) : lcmd A :=
  match element with
  | None => mret acc
  | Some q =>
      match fuel with
      | O => cfault
      | S fuel =>
          e ← load q;
          let '(v, acc) := func (le_data e) acc in
          update q (set_data v) ;;
          e ← load q;
          apply_loop fuel func (le_next e) acc
      end
  end.

Definition zend_llist_apply {A} (l : zend_llist) (func : V -> A -> V * A) (acc : A) : lcmd A :=
  apply_loop (llist_bound l) func (l_head l) acc.

Definition zend_llist_apply_with_argument {A B} (l : zend_llist) (func : V -> B -> A -> V * A)
    (arg : B) (acc : A) : lcmd A :=
  apply_loop (llist_bound l) (fun v => func v arg) (l_head l) acc.

Definition zend_llist_apply_with_arguments {A B} (l : zend_llist) (func : V -> list B -> A -> V * A)
    (args : list B) (acc : A) : lcmd A :=
  apply_loop (llist_bound l) (fun v => func v args) (l_head l) acc.

Definition zend_llist_count (l : zend_llist) : Z := s32 (l_count l).

(** A [zend_llist_position *pos] argument: [None] is NULL. *)
Definition get_pos (l : zend_llist) (pos : option (option ptr)) : option ptr :=
  match pos with Some c => c | None => traverse_ptr l end.

Definition put_pos (c : option ptr) (l : zend_llist) (pos : option (option ptr)) :
    zend_llist * option (option ptr) :=
  match pos with Some _ => (l, Some c) | None => (set_traverse c l, None) end.

(** The data at a position, or NULL. *)
Definition data_at (c : option ptr) : lcmd (option V) :=
  match c with
  | Some p => e ← load p; mret (Some (le_data e))
  | None => mret None
  end.

Definition zend_llist_get_first_ex (l : zend_llist) (pos : option (option ptr)) :
    lcmd (option V * (zend_llist * option (option ptr))) :=
  d ← data_at (l_head l); mret (d, put_pos (l_head l) l pos).

Definition zend_llist_get_last_ex (l : zend_llist) (pos : option (option ptr)) :
    lcmd (option V * (zend_llist * option (option ptr))) :=
  d ← data_at (l_tail l); mret (d, put_pos (l_tail l) l pos).

Definition zend_llist_get_next_ex (l : zend_llist) (pos : option (option ptr)) :
    lcmd (option V * (zend_llist * option (option ptr))) :=
  match get_pos l pos with
  | Some p => e ← load p; d ← data_at (le_next e); mret (d, put_pos (le_next e) l pos)
  | None => mret (None, (l, pos))
  end.

Definition zend_llist_get_prev_ex (l : zend_llist) (pos : option (option ptr)) :
    lcmd (option V * (zend_llist * option (option ptr))) :=
  match get_pos l pos with
  | Some p => e ← load p; d ← data_at (le_prev e); mret (d, put_pos (le_prev e) l pos)
  | None => mret (None, (l, pos))
  end.

End ops.

(** ** The list a struct stands for *)

Section rules.
Context {V : Type} {AL : Allocator} (uninit : zend_llist_element V).
Implicit Types (s : store (zend_llist_element V) V) (l : zend_llist) (L : list ptr) (p : ptr).

Definition ldata (s : store (zend_llist_element V) V) (L : list ptr) : list V :=
  omap (fun p => le_data <$> nodes s !! p) L.

Record llist_rep (s : store (zend_llist_element V) V) (l : zend_llist) (L : list ptr) : Prop := {
  lrep_dll : dll llist_links (nodes s) L;
  lrep_head : l_head l = head L;
  lrep_tail : l_tail l = last L;
  lrep_count : l_count l = Z.of_nat (length L);
  lrep_bound : Z.of_nat (length L) < 2 ^ 64
}.

(** Everything outside the list is as it was. *)
Definition llist_frame (s : store (zend_llist_element V) V) (L : list ptr)
    (s' : store (zend_llist_element V) V) (L' : list ptr) : Prop :=
  (forall p e, (nodes s' !! p = Some e /\ p ∉ L') <-> (nodes s !! p = Some e /\ p ∉ L)) /\
  blocks s' = blocks s.

Lemma llist_frame_refl s L : llist_frame s L s L.
Proof. done. Qed.

Lemma llist_frame_trans s1 L1 s2 L2 s3 L3 :
  llist_frame s1 L1 s2 L2 -> llist_frame s2 L2 s3 L3 -> llist_frame s1 L1 s3 L3.
Proof. intros [H1 E1] [H2 E2]. split; [|congruence]. intros p e. by rewrite H2, H1. Qed.

Lemma ldata_agree s s' L :
  (forall p, p ∈ L -> le_data <$> nodes s' !! p = le_data <$> nodes s !! p) -> ldata s' L = ldata s L.
Proof.
  intros H. by apply omap_ext_in.
Qed.

Lemma ldata_app s L1 L2 : ldata s (L1 ++ L2) = ldata s L1 ++ ldata s L2.
Proof. apply omap_app. Qed.

Lemma ldata_cons s p L e : nodes s !! p = Some e -> ldata s (p :: L) = le_data e :: ldata s L.
Proof. intros He. unfold ldata. by rewrite omap_cons, He. Qed.

Lemma llist_bound_length s l L : llist_rep s l L -> (length L < llist_bound l)%nat.
Proof. intros HR. unfold llist_bound. rewrite (lrep_count _ _ _ HR), Nat2Z.id. lia. Qed.

Lemma relink_data a v b w (m : gmap ptr (zend_llist_element V)) p :
  le_data <$> relink llist_links a v b w m !! p = le_data <$> m !! p.
Proof. by apply relink_obs. Qed.

Lemma relink_other a v b w (m : gmap ptr (zend_llist_element V)) p :
  a <> Some p -> b <> Some p -> relink llist_links a v b w m !! p = m !! p.
Proof. intros Ha Hb. unfold relink. by rewrite !lookup_alter_opt_ne. Qed.

(** Linking a fresh element between [L1] and [L2]. *)
Lemma llist_link s L1 L2 tmp e :
  dll llist_links (nodes s) (L1 ++ L2) -> nodes s !! tmp = None ->
  le_prev e = last L1 -> le_next e = head L2 ->
  let m' := relink llist_links (last L1) (Some tmp) (head L2) (Some tmp) (<[tmp := e]> (nodes s)) in
  dll llist_links m' (L1 ++ tmp :: L2) /\
  (forall tr, ldata (Store m' (blocks s) tr) (L1 ++ tmp :: L2) = ldata s L1 ++ le_data e :: ldata s L2) /\
  (forall tr, llist_frame s (L1 ++ L2) (Store m' (blocks s) tr) (L1 ++ tmp :: L2)).
Proof.
  intros HL Hn Hp Hx m'.
  assert (tmp ∉ L1 ++ L2) as Ht.
  { intros Hin. destruct (dll_elem _ _ _ _ HL Hin). congruence. }
  assert (forall q, q ∈ L1 ++ L2 -> q <> tmp) as Hne by (intros q Hq ->; done).
  assert (forall q, q ∈ L1 ++ L2 -> le_data <$> m' !! q = le_data <$> nodes s !! q) as Hd.
  { intros q Hq. unfold m'. rewrite relink_data, lookup_insert_ne; [done|]. intros <-. by apply (Hne tmp). }
  assert (le_data <$> m' !! tmp = Some (le_data e)) as Hdt.
  { unfold m'. rewrite relink_data, lookup_insert_eq. done. }
  split_and!.
  - eapply (dll_link llist_links _ L1 tmp L2 e); [by apply dll_insert_notin|done|by rewrite lookup_insert_eq|done|done].
  - intros tr. apply fmap_Some in Hdt as (e' & He' & ->). rewrite ldata_app, (ldata_cons _ tmp L2 e') by done.
    f_equal; [|f_equal]; apply ldata_agree; intros q Hq; apply Hd; set_solver.
  - intros tr. split; [|done]. intros q e'. simpl. destruct (decide (q ∈ L1 ++ tmp :: L2)) as [Hin|Hin].
    + split; [tauto|]. intros [Hq Hn']. exfalso. assert (q = tmp) as -> by set_solver. congruence.
    + unfold m'. rewrite relink_other.
      * rewrite lookup_insert_ne by set_solver. set_solver.
      * intros ?%last_Some_elem_of. set_solver.
      * intros ?%head_Some_elem_of. set_solver.
Qed.

(** The memory after unlinking and freeing [p]. *)
Lemma llist_unlink s L1 p L2 :
  dll llist_links (nodes s) (L1 ++ p :: L2) ->
  let m' := delete p (relink llist_links (last L1) (head L2) (head L2) (last L1) (nodes s)) in
  dll llist_links m' (L1 ++ L2) /\
  (forall tr, ldata (Store m' (blocks s) tr) (L1 ++ L2) = ldata s (L1 ++ L2)) /\
  (forall tr, llist_frame s (L1 ++ p :: L2) (Store m' (blocks s) tr) (L1 ++ L2)).
Proof.
  intros HL m'. pose proof (dll_unlink _ _ _ _ _ HL) as HL'.
  assert (p ∉ L1 ++ L2) as Hp.
  { destruct HL as [HND _]. apply NoDup_app in HND as (_ & Hd & [Hn _]%NoDup_cons). set_solver. }
  assert (forall q, q <> p -> le_data <$> m' !! q = le_data <$> nodes s !! q) as Hd.
  { intros q Hq. unfold m'. by rewrite lookup_delete_ne, relink_data by done. }
  split_and!.
  - by apply dll_delete_notin.
  - intros tr. apply ldata_agree. intros q Hq. apply Hd. by intros ->.
  - intros tr. split; [|done]. intros q e. simpl. destruct (decide (q = p)) as [->|Hq].
    + unfold m'. rewrite lookup_delete_eq. set_solver.
    + unfold m'. rewrite lookup_delete_ne by done. destruct (decide (q ∈ L1 ++ L2)); [set_solver|].
      rewrite relink_other; [set_solver|..].
      * intros ?%last_Some_elem_of. set_solver.
      * intros ?%head_Some_elem_of. set_solver.
Qed.

Lemma wp_add_element s l L v Q :
  llist_rep s l L -> Z.of_nat (length L) + 1 < 2 ^ 64 ->
  (forall s' l' p, llist_rep s' l' (L ++ [p]) -> ldata s' (L ++ [p]) = ldata s L ++ [v] ->
     llist_frame s L s' (L ++ [p]) -> dtor_trace s' = dtor_trace s -> nodes s !! p = None ->
     l_dtor l' = l_dtor l -> Q l' s') ->
  wp (zend_llist_add_element uninit l v) Q s.
Proof.
  intros HR Hlen HQ. unfold zend_llist_add_element. wp_step. apply wp_alloc_node. intros p Hp Hbp.
  pose proof (lrep_dll _ _ _ HR) as HL. rewrite (lrep_tail _ _ _ HR).
  set (e0 := set_next None (set_prev (last L) uninit)). set (e1 := set_data v e0).
  do 2 (wp_step; eapply wp_update; [apply lookup_insert_eq|]; cbn [nodes blocks dtor_trace set_nodes];
    rewrite (alter_insert_Some _ _ _ _ (lookup_insert_eq _ _ _)), insert_insert_eq).
  fold e0. assert (last L <> Some p) as Hlp.
  { intros Hin%last_Some_elem_of. destruct (dll_elem _ _ _ _ HL Hin). congruence. }
  destruct (llist_link s L [] p e1) as (HL' & Hdat & Hfr); [by rewrite app_nil_r|done|done|done|].
  rewrite app_nil_r in Hfr. simpl in HL', Hdat, Hfr.
  set (m' := relink llist_links (last L) (Some p) None (Some p) (<[p := e1]> (nodes s))) in *.
  assert (alter (set_data v) p (alter_opt (set_next (Some p)) (last L) (<[p := e0]> (nodes s))) = m') as Hm.
  { unfold m', relink. simpl. apply map_eq. intros q. rewrite lookup_alter, !lookup_alter_opt, !lookup_insert.
    repeat case_decide; subst; try done. }
  wp_step. apply (wp_mono _ (fun l' s' => s' = set_nodes (alter_opt (set_next (Some p)) (last L)
      (<[p := e0]> (nodes s))) s /\ l' = match last L with Some _ => l | None => set_head (Some p) l end)).
  { destruct (last L) as [t|] eqn:Ht; [|by wp_step]. simpl. wp_step.
    destruct (dll_elem _ _ _ t HL) as [et Het]; [by apply last_Some_elem_of|].
    eapply wp_update; [simpl; rewrite lookup_insert_ne; [exact Het|by intros ->]|]. by wp_step. }
  intros l1 s1 [-> ->]. wp_step.
  assert (is_Some (alter_opt (set_next (Some p)) (last L) (<[p := e0]> (nodes s)) !! p)) as [ep Hep].
  { rewrite lookup_alter_opt_ne, lookup_insert_eq; eauto. }
  eapply wp_update; [exact Hep|]. cbn [nodes blocks dtor_trace set_nodes]. rewrite Hm. wp_step.
  eapply (HQ _ _ p); [|apply Hdat|apply Hfr|done|done|by destruct (last L)]. split; simpl.
  - done.
  - pose proof (lrep_head _ _ _ HR) as Hh. destruct L as [|x L]; [done|].
    destruct (last (x :: L)) eqn:Hx; [done|]. by apply last_None in Hx.
  - by rewrite last_snoc.
  - rewrite length_app. simpl. destruct (last L); simpl; rewrite (lrep_count _ _ _ HR), wrap_u_small; lia.
  - rewrite length_app. simpl. lia.
Qed.


Lemma wp_prepend_element s l L v Q :
  llist_rep s l L -> Z.of_nat (length L) + 1 < 2 ^ 64 ->
  (forall s' l' p, llist_rep s' l' (p :: L) -> ldata s' (p :: L) = v :: ldata s L ->
     llist_frame s L s' (p :: L) -> dtor_trace s' = dtor_trace s -> l_dtor l' = l_dtor l -> Q l' s') ->
  wp (zend_llist_prepend_element uninit l v) Q s.
Proof.
  intros HR Hlen HQ. unfold zend_llist_prepend_element. wp_step. apply wp_alloc_node. intros p Hp Hbp.
  pose proof (lrep_dll _ _ _ HR) as HL. rewrite (lrep_head _ _ _ HR).
  set (e0 := set_prev None (set_next (head L) uninit)). set (e1 := set_data v e0).
  do 2 (wp_step; eapply wp_update; [apply lookup_insert_eq|]; cbn [nodes blocks dtor_trace set_nodes];
    rewrite (alter_insert_Some _ _ _ _ (lookup_insert_eq _ _ _)), insert_insert_eq).
  fold e0. assert (head L <> Some p) as Hlp.
  { intros Hin%head_Some_elem_of. destruct (dll_elem _ _ _ _ HL Hin). congruence. }
  destruct (llist_link s [] L p e1) as (HL' & Hdat & Hfr); [done|done|done|done|].
  simpl app in HL', Hdat, Hfr. set (m' := relink llist_links _ _ _ _ _) in *.
  assert (alter (set_data v) p (alter_opt (set_prev (Some p)) (head L) (<[p := e0]> (nodes s))) = m') as Hm.
  { unfold m', relink. simpl. apply map_eq. intros q. rewrite lookup_alter, !lookup_alter_opt, !lookup_insert.
    repeat case_decide; subst; try done. }
  wp_step. apply (wp_mono _ (fun l' s' => s' = set_nodes (alter_opt (set_prev (Some p)) (head L)
      (<[p := e0]> (nodes s))) s /\ l' = match head L with Some _ => l | None => set_tail (Some p) l end)).
  { destruct (head L) as [t|] eqn:Ht; [|by wp_step]. simpl. wp_step.
    destruct (dll_elem _ _ _ t HL) as [et Het]; [by apply head_Some_elem_of|].
    eapply wp_update; [simpl; rewrite lookup_insert_ne; [exact Het|by intros ->]|]. by wp_step. }
  intros l1 s1 [-> ->]. wp_step.
  assert (is_Some (alter_opt (set_prev (Some p)) (head L) (<[p := e0]> (nodes s)) !! p)) as [ep Hep].
  { rewrite lookup_alter_opt_ne, lookup_insert_eq; eauto. }
  eapply wp_update; [exact Hep|]. cbn [nodes blocks dtor_trace set_nodes]. rewrite Hm. wp_step.
  eapply (HQ _ _ p); [|apply Hdat|apply Hfr|done|by destruct (head L)]. split; simpl.
  - done.
  - done.
  - pose proof (lrep_tail _ _ _ HR) as Ht. destruct L as [|x L]; done.
  - destruct (head L); simpl; rewrite (lrep_count _ _ _ HR), wrap_u_small; lia.
  - lia.
Qed.

Lemma wp_del s l L1 p L2 e Q :
  llist_rep s l (L1 ++ p :: L2) -> nodes s !! p = Some e ->
  (forall s' l', llist_rep s' l' (L1 ++ L2) -> ldata s' (L1 ++ L2) = ldata s (L1 ++ L2) ->
     llist_frame s (L1 ++ p :: L2) s' (L1 ++ L2) ->
     dtor_trace s' = dtor_trace s ++ (if l_dtor l then [le_data e] else []) ->
     l_dtor l' = l_dtor l -> Q l' s') ->
  wp (DEL_LLIST_ELEMENT p l) Q s.
Proof.
  intros HR He HQ. pose proof (lrep_dll _ _ _ HR) as HL.
  destruct (dll_lookup _ _ _ _ _ HL) as (e' & He' & Hprev & Hnext). simpl in Hprev, Hnext.
  assert (e' = e) as -> by congruence.
  destruct (llist_unlink s L1 p L2 HL) as (HL' & Hdat & Hfr).
  set (m' := delete p _) in *. unfold DEL_LLIST_ELEMENT. wp_step. wp_step. rewrite Hprev, Hnext.
  assert (forall q, q ∈ L1 ++ L2 -> is_Some (nodes s !! q)) as Hlive.
  { intros q Hq. apply (dll_elem _ _ _ q HL). set_solver. }
  wp_step. apply (wp_mono _ (fun l' s' => s' = set_nodes (alter_opt (set_next (head L2)) (last L1) (nodes s)) s /\
    l' = match last L1 with Some _ => l | None => set_head (head L2) l end)).
  { destruct (last L1) as [a|] eqn:Ha; [|wp_step; by destruct s].
    destruct (Hlive a) as [ea Hea]; [apply last_Some_elem_of in Ha; set_solver|].
    wp_step. eapply wp_update; [exact Hea|]. by wp_step. }
  intros l1 s1 [-> ->]. wp_step.
  apply (wp_mono _ (fun l' s' => s' = set_nodes (relink llist_links (last L1) (head L2) (head L2) (last L1) (nodes s)) s /\
    l' = match head L2 with Some _ => match last L1 with Some _ => l | None => set_head (head L2) l end
         | None => set_tail (last L1) (match last L1 with Some _ => l | None => set_head (head L2) l end) end)).
  { unfold relink. destruct (head L2) as [b|] eqn:Hb; [|by wp_step].
    destruct (Hlive b) as [eb Heb]; [apply head_Some_elem_of in Hb; set_solver|]. wp_step.
    assert (is_Some (alter_opt (set_next (Some b)) (last L1) (nodes s) !! b)) as [eb' Heb'].
    { rewrite lookup_alter_opt. case_decide; rewrite Heb; eauto. }
    eapply wp_update; [exact Heb'|]. by wp_step. }
  intros l2 s2 [-> ->]. cbn [nodes blocks dtor_trace set_nodes].
  assert (exists ep, relink llist_links (last L1) (head L2) (head L2) (last L1) (nodes s) !! p = Some ep /\
    le_data ep = le_data e) as (ep & Hep & Hde).
  { pose proof (relink_data (last L1) (head L2) (head L2) (last L1) (nodes s) p) as Hr.
    rewrite He in Hr. simpl in Hr. apply fmap_Some in Hr as (ep & Hep & ->). eauto. }
  set (l2 := match head L2 with Some _ => _ | None => _ end).
  assert (l_dtor l2 = l_dtor l /\ l_count l2 = l_count l) as [Hd2 Hc2].
  { unfold l2. by destruct (head L2), (last L1). }
  wp_step. apply (wp_mono _ (fun _ s' => s' = Store (relink llist_links (last L1) (head L2) (head L2) (last L1) (nodes s))
    (blocks s) (dtor_trace s ++ (if l_dtor l then [le_data e] else [])))).
  { rewrite Hd2. destruct (l_dtor l).
    - wp_step. eapply wp_load; [exact Hep|]. wp_step. by rewrite Hde.
    - wp_step. by rewrite app_nil_r. }
  intros [] ? ->. wp_step. eapply wp_free_node; [exact Hep|]. wp_step.
  apply HQ; [|apply Hdat|apply Hfr|done|done]. pose proof (lrep_head _ _ _ HR) as Hh.
  pose proof (lrep_tail _ _ _ HR) as Ht. pose proof (lrep_count _ _ _ HR) as Hc. pose proof (lrep_bound _ _ _ HR) as Hbd.
  rewrite length_app in Hc, Hbd. simpl in Hc, Hbd. split; simpl.
  - done.
  - unfold l2. destruct L1 as [|x L1]; simpl; [by destruct L2|].
    destruct (last (x :: L1)) eqn:Hx; [by destruct (head L2)|by apply last_None in Hx].
  - unfold l2. destruct L2 as [|y L2]; simpl; [by rewrite app_nil_r|].
    rewrite !last_app in *. simpl in Ht. destruct (last L1); simpl; rewrite Ht; by destruct L2.
  - rewrite Hc2, Hc, length_app, wrap_u_small; lia.
  - rewrite length_app. lia.
Qed.

(** Removal of the first element that satisfies [f]. *)
Fixpoint remove_first (f : V -> bool) (l : list V) : list V :=
  match l with
  | [] => []
  | x :: l => if f x then l else x :: remove_first f l
  end.

Definition first_match (f : V -> bool) (l : list V) : list V := take 1 (filter (fun x => f x = true) l).

Lemma wp_del_loop fuel s l element compare L1 L2 Q :
  llist_rep s l (L1 ++ L2) -> (length L2 < fuel)%nat ->
  (forall s' l' L', llist_rep s' l' L' ->
     ldata s' L' = ldata s L1 ++ remove_first (fun x => compare x element) (ldata s L2) ->
     llist_frame s (L1 ++ L2) s' L' -> dtor_trace s' = dtor_trace s ++
       (if l_dtor l then first_match (fun x => compare x element) (ldata s L2) else []) -> Q l' s') ->
  wp (del_loop fuel l element compare (head L2)) Q s.
Proof.
  revert L1 L2. induction fuel as [|fuel IH]; intros L1 L2 HR Hlen HQ; [lia|].
  destruct L2 as [|p L2]; simpl.
  { wp_step. apply (HQ s l L1); rewrite ?app_nil_r in *; try done. by destruct (l_dtor l); rewrite app_nil_r. }
  destruct (dll_lookup _ _ _ _ _ (lrep_dll _ _ _ HR)) as (e & He & _ & Hnext). simpl in Hnext.
  rewrite (ldata_cons _ _ _ _ He) in HQ. simpl in HQ. unfold first_match in HQ.
  rewrite filter_cons in HQ. wp_step. wp_step. destruct (compare (le_data e) element) eqn:Hc.
  - rewrite decide_True in HQ by done. eapply wp_del; [exact HR|exact He|].
    intros s' l' HR' Hd Hfr Htr _. eapply (HQ s' l' (L1 ++ L2)); [done| |done|done].
    by rewrite Hd, ldata_app.
  - rewrite decide_False in HQ by done. rewrite Hnext.
    apply (IH (L1 ++ [p])); [by rewrite <- app_assoc|simpl in Hlen; lia|].
    intros s' l' L' HR' Hd Hfr Htr. eapply (HQ s' l' L'); [done| | |done].
    + rewrite Hd, ldata_app, (ldata_cons _ _ [] _ He), <- app_assoc. done.
    + by rewrite <- app_assoc in Hfr.
Qed.

Lemma wp_llist_destroy_loop fuel (dtor : bool) prev L Q s :
  (length L < fuel)%nat -> NoDup L -> dseg llist_links (nodes s) prev L None ->
  (forall s', llist_frame s L s' [] ->
     dtor_trace s' = dtor_trace s ++ (if dtor then ldata s L else []) -> Q tt s') ->
  wp (destroy_loop fuel dtor (head L)) Q s.
Proof.
  revert prev L s. induction fuel as [|fuel IH]; intros prev L s Hlen HND Hd HQ; [lia|].
  destruct L as [|q L]; simpl.
  { wp_step. apply HQ; [done|]. destruct dtor; by rewrite app_nil_r. }
  apply NoDup_cons in HND as [Hq HND]. simpl in Hd. destruct Hd as [Hlk Hd].
  apply fmap_Some in Hlk as (e & He & [= Hprev Hnext]).
  set (s1 := Store (delete q (nodes s)) (blocks s) (dtor_trace s ++ if dtor then [le_data e] else [])).
  assert (forall x, x ∈ L -> nodes s1 !! x = nodes s !! x) as Ha.
  { intros x Hx. simpl. rewrite lookup_delete_ne; [done|]. by intros ->. }
  wp_step. wp_step. wp_step.
  apply (wp_mono _ (fun _ s' => s' =
    Store (nodes s) (blocks s) (dtor_trace s ++ if dtor then [le_data e] else []))).
  { destruct dtor; [by wp_step|]. wp_step. rewrite app_nil_r. by destruct s. }
  intros [] ? ->. wp_step. eapply wp_free_node; [done|]. rewrite <- Hnext, head_or_None.
  apply (IH (Some q) L s1); [simpl in Hlen; lia|done| |].
  - eapply dseg_frame; [|exact Hd]. intros x Hx. by rewrite Ha.
  - intros s' Hfr Htr. apply HQ.
    + eapply llist_frame_trans; [|exact Hfr]. split; [|done]. intros x ex. simpl.
      rewrite lookup_delete_Some, not_elem_of_cons. clear. naive_solver.
    + rewrite Htr. cbn [dtor_trace s1]. rewrite (ldata_cons _ _ _ _ He).
      assert (ldata s1 L = ldata s L) as -> by (apply ldata_agree; intros x Hx; by rewrite Ha).
      destruct dtor; by rewrite <- ?app_assoc, ?app_nil_r.
Qed.

Lemma wp_llist_destroy s l L Q :
  llist_rep s l L ->
  (forall s', llist_frame s L s' [] ->
     dtor_trace s' = dtor_trace s ++ (if l_dtor l then ldata s L else []) -> Q (set_count 0 l) s') ->
  wp (zend_llist_destroy l) Q s.
Proof.
  intros HR HQ. unfold zend_llist_destroy. wp_step. rewrite (lrep_head _ _ _ HR).
  destruct (lrep_dll _ _ _ HR) as [HND Hd].
  eapply wp_llist_destroy_loop; [by eapply llist_bound_length|done|exact Hd|].
  intros s' Hfr Htr. wp_step. by apply HQ.
Qed.

(** Operations on one list leave another one alone. *)
Lemma llist_frame_other s s' L L' l2 L2 :
  llist_rep s l2 L2 -> llist_frame s L s' L' -> (forall q, q ∈ L2 -> q ∉ L) ->
  llist_rep s' l2 L2 /\ ldata s' L2 = ldata s L2 /\ (forall q, q ∈ L2 -> q ∉ L') /\
  (forall q, q ∈ L2 -> nodes s' !! q = nodes s !! q).
Proof.
  intros HR [Hn _] Hd.
  assert (forall q, q ∈ L2 -> nodes s' !! q = nodes s !! q /\ q ∉ L') as Hq.
  { intros q Hq. destruct (dll_elem _ _ _ q (lrep_dll _ _ _ HR) Hq) as [e He]. rewrite He.
    apply Hn. split; [done|]. by apply Hd. }
  split_and!.
  - destruct HR. split; try done. eapply dll_frame; [|done]. intros q Hx. by rewrite (proj1 (Hq q Hx)).
  - apply ldata_agree. intros q Hx. by rewrite (proj1 (Hq q Hx)).
  - intros q Hx. by apply Hq.
  - intros q Hx. by apply Hq.
Qed.

Lemma wp_copy_loop fuel s dst Ld src L1 L2 Q :
  llist_rep s dst Ld -> llist_rep s src (L1 ++ L2) -> (forall q, q ∈ L1 ++ L2 -> q ∉ Ld) ->
  (length L2 < fuel)%nat -> Z.of_nat (length Ld + length L2) < 2 ^ 64 ->
  (forall s' dst' Ld', llist_rep s' dst' Ld' -> ldata s' Ld' = ldata s Ld ++ ldata s L2 ->
     llist_frame s Ld s' Ld' -> llist_rep s' src (L1 ++ L2) -> ldata s' (L1 ++ L2) = ldata s (L1 ++ L2) ->
     dtor_trace s' = dtor_trace s -> Q dst' s') ->
  wp (copy_loop uninit fuel dst (head L2)) Q s.
Proof.
  revert s dst Ld L1 L2. induction fuel as [|fuel IH]; intros s dst Ld L1 L2 HRd HRs Hap Hlen Hb HQ; [lia|].
  destruct L2 as [|p L2]; simpl.
  { wp_step. apply (HQ s dst Ld); try done. by rewrite app_nil_r. }
  destruct (dll_lookup _ _ _ _ _ (lrep_dll _ _ _ HRs)) as (e & He & _ & Hnext). simpl in Hnext, Hb, Hlen.
  wp_step. wp_step. wp_step. eapply wp_add_element; [exact HRd|lia|].
  intros s1 dst1 q HR1 Hd1 Hfr1 Htr1 _ _.
  destruct (llist_frame_other s s1 Ld (Ld ++ [q]) src (L1 ++ p :: L2)) as (HRs1 & Hds1 & Hap1 & Hn1); [done..|].
  wp_step. eapply wp_load; [rewrite Hn1 by set_solver; exact He|]. rewrite Hnext.
  assert (ldata s1 L2 = ldata s L2) as Hd2.
  { apply ldata_agree. intros x Hx. by rewrite Hn1 by set_solver. }
  rewrite (cons_middle p), app_assoc in *.
  apply (IH s1 dst1 (Ld ++ [q]) (L1 ++ [p])); [done|done|done|lia|rewrite length_app; simpl; lia|].
  intros s' dst' Ld' HR' Hd' Hfr' HRs' Hds' Htr'. apply (HQ s' dst' Ld'); try done.
  - rewrite Hd', Hd1, Hd2, (ldata_cons _ _ _ _ He), <- app_assoc. done.
  - by eapply llist_frame_trans.
  - by rewrite Hds', Hds1.
  - by rewrite Htr', Htr1.
Qed.

(** The data that stays, and the data that is removed. *)
Definition kept (func : V -> bool * V) (l : list V) : list V :=
  (fun x => (func x).2) <$> filter (fun x => (func x).1 = false) l.

Definition removed (func : V -> bool * V) (l : list V) : list V :=
  (fun x => (func x).2) <$> filter (fun x => (func x).1 = true) l.

Lemma wp_write_data s l L1 p L2 e v Q :
  llist_rep s l (L1 ++ p :: L2) -> nodes s !! p = Some e ->
  (forall s' e', llist_rep s' l (L1 ++ p :: L2) -> nodes s' !! p = Some e' -> le_data e' = v ->
     le_next e' = le_next e -> ldata s' L1 = ldata s L1 -> ldata s' L2 = ldata s L2 ->
     llist_frame s (L1 ++ p :: L2) s' (L1 ++ p :: L2) -> dtor_trace s' = dtor_trace s -> Q tt s') ->
  wp (update p (set_data v)) Q s.
Proof.
  intros HR He HQ. eapply wp_update; [exact He|]. rewrite (alter_insert_Some _ _ _ e) by done.
  assert (p ∉ L1 ++ L2) as Hp.
  { destruct (lrep_dll _ _ _ HR) as [HND _]. apply NoDup_app in HND as (_ & Hd & [Hn _]%NoDup_cons). set_solver. }
  assert (forall q, q <> p -> <[p := set_data v e]> (nodes s) !! q = nodes s !! q) as Hne.
  { intros q Hq. by rewrite lookup_insert_ne. }
  eapply (HQ _ (set_data v e)); [|apply lookup_insert_eq|done|done| | | |done].
  - destruct HR. split; try done. eapply dll_frame; [|done]. intros q _. simpl.
    destruct (decide (q = p)) as [->|Hq]; [|by rewrite Hne]. rewrite lookup_insert_eq, He. done.
  - apply ldata_agree. intros q Hq. simpl. rewrite Hne; [done|]. set_solver.
  - apply ldata_agree. intros q Hq. simpl. rewrite Hne; [done|]. set_solver.
  - split; [|done]. intros q eq. simpl. destruct (decide (q = p)) as [->|Hq]; [set_solver|]. by rewrite Hne.
Qed.

Lemma wp_apply_del_loop fuel s func l L1 L2 Q :
  llist_rep s l (L1 ++ L2) -> (length L2 < fuel)%nat ->
  (forall s' l' L', llist_rep s' l' L' -> ldata s' L' = ldata s L1 ++ kept func (ldata s L2) ->
     llist_frame s (L1 ++ L2) s' L' ->
     dtor_trace s' = dtor_trace s ++ (if l_dtor l then removed func (ldata s L2) else []) -> Q l' s') ->
  wp (apply_del_loop fuel func l (head L2)) Q s.
Proof.
  revert s l L1 L2. induction fuel as [|fuel IH]; intros s l L1 L2 HR Hlen HQ; [lia|].
  destruct L2 as [|p L2]; simpl.
  { wp_step. apply (HQ s l L1); rewrite ?app_nil_r in *; try done. by destruct (l_dtor l); rewrite app_nil_r. }
  destruct (dll_lookup _ _ _ _ _ (lrep_dll _ _ _ HR)) as (e & He & _ & Hnext). simpl in Hnext, Hlen.
  rewrite (ldata_cons _ _ _ _ He) in HQ. unfold kept, removed in HQ. rewrite !filter_cons in HQ.
  wp_step. wp_step. destruct (func (le_data e)) as [del v] eqn:Hf. wp_step.
  eapply wp_write_data; [exact HR|exact He|].
  intros s1 e1 HR1 He1 Hv1 Hn1 Hd1 Hd2 Hfr1 Htr1. rewrite Hnext. destruct del.
  - rewrite decide_False, decide_True in HQ by done. rewrite fmap_cons, Hf in HQ. simpl in HQ. wp_step.
    eapply wp_del; [exact HR1|exact He1|]. intros s2 l2 HR2 Hdd Hfr2 Htr2 Hdt2.
    apply (IH s2 l2 L1 L2); [done|lia|]. intros s' l' L' HR' Hd' Hfr' Htr'.
    assert (ldata s2 L1 = ldata s L1 /\ ldata s2 L2 = ldata s L2) as [E1 E2].
    { assert (forall q, q ∈ L1 ++ L2 -> is_Some (nodes s2 !! q)) as H2.
      { intros q Hq. by apply (dll_elem _ _ _ q (lrep_dll _ _ _ HR2)). }
      assert (forall q, q ∈ L1 ++ L2 -> is_Some (nodes s1 !! q)) as H1.
      { intros q Hq. apply (dll_elem _ _ _ q (lrep_dll _ _ _ HR1)). set_solver. }
      assert (forall s0 L, (forall q, q ∈ L -> is_Some (nodes s0 !! q)) -> length (ldata s0 L) = length L) as Hln.
      { intros s0 L. induction L as [|x L IHL]; intros Hx; [done|].
        destruct (Hx x) as [ex Hex]; [set_solver|]. rewrite (ldata_cons _ _ _ _ Hex). simpl.
        rewrite IHL; [done|]. intros q Hq. apply Hx. set_solver. }
      rewrite !ldata_app in Hdd. apply app_inj_1 in Hdd as [-> ->]; [by rewrite Hd1, Hd2|].
      rewrite !Hln; [done|intros q Hq; apply H1; set_solver|intros q Hq; apply H2; set_solver]. }
    apply (HQ s' l' L'); [done| | |].
    + by rewrite Hd', E1, E2.
    + eapply llist_frame_trans; [|exact Hfr']. by eapply llist_frame_trans.
    + rewrite Htr', Htr2, Htr1, Hdt2, E2, Hv1. destruct (l_dtor l); by rewrite <- ?app_assoc, ?app_nil_r.
  - rewrite decide_True, decide_False in HQ by done. rewrite fmap_cons, Hf in HQ. simpl in HQ. wp_step.
    wp_step. apply (IH s1 l (L1 ++ [p]) L2); [by rewrite <- app_assoc|lia|].
    intros s' l' L' HR' Hd' Hfr' Htr'. apply (HQ s' l' L'); [done| | |].
    + rewrite Hd', ldata_app, (ldata_cons _ _ [] _ He1), Hd1, Hd2, Hv1, <- app_assoc. done.
    + rewrite <- app_assoc in Hfr'. by eapply llist_frame_trans.
    + by rewrite Htr', Htr1, Hd2.
Qed.

End rules.

Section spec.
Context {V : Type} {AL : Allocator} (uninit : zend_llist_element V).
Implicit Types (s : store (zend_llist_element V) V) (l : zend_llist) (L : list ptr).

(** C32: the modifying operations of the list do on the linked memory what their
    names say on the sequence of data: append, prepend, remove the first match,
    remove all that a callback selects; the destructor sees exactly the removed
    data, and no other memory changes. *)
Theorem zend_llist_operations_correct s l L v (compare : V -> V -> bool) (func : V -> bool * V) :
  llist_rep s l L -> Z.of_nat (length L) + 1 < 2 ^ 64 ->
  let post (d gone : list V) := fun l' s' => exists L', llist_rep s' l' L' /\ ldata s' L' = d /\
    llist_frame s L s' L' /\ dtor_trace s' = dtor_trace s ++ (if l_dtor l then gone else []) in
  wp (zend_llist_add_element uninit l v) (post (ldata s L ++ [v]) []) s /\
  wp (zend_llist_prepend_element uninit l v) (post (v :: ldata s L) []) s /\
  wp (zend_llist_del_element l v compare)
    (post (remove_first (fun x => compare x v) (ldata s L)) (first_match (fun x => compare x v) (ldata s L))) s /\
  wp (zend_llist_apply_with_del l func) (post (kept func (ldata s L)) (removed func (ldata s L))) s.
Proof.
  intros HR Hlen post. pose proof (llist_bound_length _ _ _ HR) as Hb. unfold post. split_and!.
  - eapply wp_add_element; [done..|]. intros s' l' p HR' Hd Hfr Htr _ _. exists (L ++ [p]).
    rewrite Htr. split_and!; try done. destruct (l_dtor l); by rewrite app_nil_r.
  - eapply wp_prepend_element; [done..|]. intros s' l' p HR' Hd Hfr Htr _. exists (p :: L).
    rewrite Htr. split_and!; try done. destruct (l_dtor l); by rewrite app_nil_r.
  - unfold zend_llist_del_element. rewrite (lrep_head _ _ _ HR).
    eapply (wp_del_loop _ s l _ _ [] L); [done..|]. intros s' l' L' HR' Hd Hfr Htr. by exists L'.
  - unfold zend_llist_apply_with_del. rewrite (lrep_head _ _ _ HR).
    eapply (wp_apply_del_loop _ s func l [] L); [done..|]. intros s' l' L' HR' Hd Hfr Htr. by exists L'.
Qed.

(** [zend_llist_clean] and [zend_llist_destroy] destruct every element in
    order and free every node; after the former the list is usable and empty;
    [zend_llist_copy] makes a second list with the same data. *)
Theorem zend_llist_clean_copy_correct s l L dst :
  llist_rep s l L ->
  wp (zend_llist_clean l) (fun l' s' => llist_rep s' l' [] /\ llist_frame s L s' [] /\
    dtor_trace s' = dtor_trace s ++ (if l_dtor l then ldata s L else [])) s /\
  wp (zend_llist_destroy l) (fun l' s' => l_count l' = 0 /\ llist_frame s L s' []) s /\
  wp (zend_llist_copy uninit dst l) (fun dst' s' => exists L', llist_rep s' dst' L' /\
    ldata s' L' = ldata s L /\ llist_rep s' l L /\ ldata s' L = ldata s L /\ llist_frame s [] s' L') s.
Proof.
  intros HR. split_and!.
  - unfold zend_llist_clean. wp_step. eapply wp_llist_destroy; [done|]. intros s' Hfr Htr. wp_step.
    split_and!; [|done|done]. split; simpl; try done. apply dll_nil.
  - eapply wp_llist_destroy; [done|]. intros s' Hfr _. done.
  - unfold zend_llist_copy. rewrite (lrep_head _ _ _ HR).
    eapply (wp_copy_loop uninit _ s _ [] l [] L); [|done|set_solver|by eapply llist_bound_length|apply HR|].
    + split; simpl; try done. apply dll_nil.
    + intros s' dst' Ld' HR' Hd Hfr HRs Hds _. exists Ld'. split_and!; try done.
Qed.

(** [zend_llist_remove_tail] takes the last element off, destructs and
    frees it, and returns the address of its data: memory it has just freed. *)
Lemma zend_llist_remove_tail_correct s l L p v :
  llist_rep s l (L ++ [p]) -> ldata s [p] = [v] ->
  wp (zend_llist_remove_tail l) (fun r s' => r.1 = Some p /\ nodes s' !! p = None /\
    llist_rep s' r.2 L /\ ldata s' L = ldata s L /\ llist_frame s (L ++ [p]) s' L /\
    dtor_trace s' = dtor_trace s ++ (if l_dtor l then [v] else [])) s.
Proof.
  intros HR Hv. pose proof (lrep_dll _ _ _ HR) as HL.
  destruct (dll_lookup _ _ _ _ _ HL) as (e & He & Hprev & Hnext). simpl in Hprev.
  assert (le_data e = v) as Hev.
  { rewrite (ldata_cons _ _ _ _ He) in Hv. by injection Hv as ->. }
  destruct (llist_unlink s L p [] HL) as (HL' & Hdat & Hfr). rewrite app_nil_r in *. simpl in HL', Hdat, Hfr.
  assert (p ∉ L) as Hp.
  { destruct HL as [(_ & Hd & _)%NoDup_app _]. set_solver. }
  set (m1 := alter_opt (set_next None) (last L) (nodes s)) in *.
  assert (m1 !! p = Some e) as Hm1.
  { unfold m1. rewrite lookup_alter_opt_ne; [done|]. intros ?%last_Some_elem_of. done. }
  unfold zend_llist_remove_tail. rewrite (lrep_tail _ _ _ HR), last_snoc. wp_step. wp_step. rewrite Hprev.
  wp_step. apply (wp_mono _ (fun l' s' => s' = set_nodes m1 s /\
    l' = match last L with Some _ => l | None => set_head None l end)).
  { unfold m1. destruct (last L) as [a|] eqn:Ha; [|wp_step; by destruct s].
    destruct (dll_elem _ _ _ a HL) as [ea Hea]; [apply last_Some_elem_of in Ha; set_solver|].
    wp_step. eapply wp_update; [exact Hea|]. by wp_step. }
  intros l1 s1 [-> ->]. wp_step. eapply wp_load; [exact Hm1|]. rewrite Hprev.
  set (l1 := match last L with Some _ => l | None => _ end).
  assert (l_dtor l1 = l_dtor l /\ l_count l1 = l_count l) as [Hd1 Hc1] by (unfold l1; by destruct (last L)).
  wp_step. apply (wp_mono _ (fun _ s' => s' = Store m1 (blocks s)
    (dtor_trace s ++ (if l_dtor l then [v] else [])))).
  { simpl. rewrite Hd1, Hev. destruct (l_dtor l); wp_step; [done|]. by rewrite app_nil_r. }
  intros [] ? ->. wp_step. eapply wp_free_node; [exact Hm1|]. wp_step.
  pose proof (lrep_count _ _ _ HR) as Hc. pose proof (lrep_bound _ _ _ HR) as Hbd.
  rewrite length_app in Hc, Hbd. simpl in Hc, Hbd.
  split_and!; [done|apply lookup_delete_eq| |apply Hdat|apply Hfr|done]. split; simpl.
  - done.
  - unfold l1. pose proof (lrep_head _ _ _ HR) as Hh. destruct L as [|x L']; [done|].
    destruct (last (x :: L')) eqn:Hx; [done|by apply last_None in Hx].
  - done.
  - rewrite Hc1, Hc, wrap_u_small; lia.
  - lia.
Qed.

End spec.

(** ** Instances on a list of three elements *)

Module LlistDemo.

#[local] Existing Instance bump_allocator.

Definition st : store (zend_llist_element Z) Z :=
  Store (<[1%positive := mkElement (Some 2%positive) None 10]>
        (<[2%positive := mkElement (Some 3%positive) (Some 1%positive) 20]>
        (<[3%positive := mkElement None (Some 2%positive) 30]> ∅))) ∅ [].
Definition l : zend_llist := mkLlist (Some 1%positive) (Some 3%positive) 3 8 true false None.
Definition L : list ptr := [1; 2; 3]%positive.
Definition uninit : zend_llist_element Z := mkElement (Some 9%positive) (Some 9%positive) 99.

Lemma llist_demo_rep : llist_rep st l L.
Proof.
  split; try done. split; [|repeat split; reflexivity].
  apply (bool_decide_unpack (NoDup L)). vm_compute. exact I.
Qed.

End LlistDemo.

Lemma zend_llist_operations_witness :
  wp (zend_llist_del_element LlistDemo.l 20 Z.eqb) (fun l' s' => exists L',
    llist_rep s' l' L' /\ ldata s' L' = [10; 30] /\ llist_frame LlistDemo.st LlistDemo.L s' L' /\
    dtor_trace s' = [20]) LlistDemo.st.
Proof.
  refine (proj1 (proj2 (proj2 (zend_llist_operations_correct (AL := bump_allocator) LlistDemo.uninit
    LlistDemo.st LlistDemo.l LlistDemo.L 20 Z.eqb (fun v => (false, v)) LlistDemo.llist_demo_rep _)))).
  reflexivity.
Defined.

Lemma zend_llist_clean_copy_witness :
  wp (zend_llist_clean LlistDemo.l) (fun l' s' => llist_rep s' l' [] /\
    llist_frame LlistDemo.st LlistDemo.L s' [] /\ dtor_trace s' = [10; 20; 30]) LlistDemo.st.
Proof.
  exact (proj1 (zend_llist_clean_copy_correct (AL := bump_allocator) LlistDemo.uninit LlistDemo.st
    LlistDemo.l LlistDemo.L LlistDemo.l LlistDemo.llist_demo_rep)).
Defined.

Lemma zend_llist_remove_tail_witness :
  wp (zend_llist_remove_tail LlistDemo.l) (fun r s' => r.1 = Some 3%positive /\
    nodes s' !! 3%positive = None /\ llist_rep s' r.2 [1; 2]%positive /\
    ldata s' [1; 2]%positive = [10; 20] /\
    llist_frame LlistDemo.st LlistDemo.L s' [1; 2]%positive /\ dtor_trace s' = [30]) LlistDemo.st.
Proof.
  exact (zend_llist_remove_tail_correct LlistDemo.st LlistDemo.l
    [1; 2]%positive 3%positive 30 LlistDemo.llist_demo_rep eq_refl).
Defined.
