(* ===== verification/ZendLlistSort.v ===== *)
(** * ZendLlistSort: sorting the linked list

    Models [zend_llist_sort] of src/Zend/zend_llist.c on top of [zend_qsort]: the
    addresses of the elements are collected in an array, sorted, and the elements
    linked again in the order of the array. *)
From S2P Require Import Prelude Memory Dllist ZendLlist ZendQsort.
From stdpp Require Import base list gmap sorting.
Local Open Scope Z_scope.

Section ops.
Context {V : Type}.

Abbreviation lcmd := (cmd (store (zend_llist_element V) V)).

(** [comp_func] gets the addresses of two slots of the array and reads the elements. *)
Definition llist_compare : Type := store (zend_llist_element V) V -> ptr -> ptr -> Z.

(** [for (element=l->head; element; element=element->next) *ptr++ = element;] with
    [room] slots left *)
Fixpoint collect_elements (room : nat) (element : option ptr) : lcmd (list ptr) :=
  match element with
  | None => mret []
  | Some q =>
      match room with
      | O => cfault
      | S room => e ← load q; rest ← collect_elements room (le_next e); mret (q :: rest)
      end
  end.

(** [elements[i]] *)
Definition slot (elements : list ptr) (i : nat) : lcmd ptr :=
  match elements !! i with
  | Some p => mret p
  | None => cfault
  end.

(** [for (i = 1; i < l->count; i++) ...], [n] turns from [i] on *)
Fixpoint link_loop (elements : list ptr) (i n : nat) : lcmd unit :=
  match n with
  | O => mret tt
  | S n =>
      cur ← slot elements i;
      before ← slot elements (i - 1);
      update cur (set_prev (Some before)) ;;
      update before (set_next (Some cur)) ;;
      link_loop elements (i + 1) n
  end.

Definition zend_llist_sort (l : zend_llist) (comp_func : llist_compare) : lcmd zend_llist :=
  if l_count l <=? 0 then mret l
  else
    let count := Z.to_nat (l_count l) in
    elements ← collect_elements count (l_head l);
    elements ← (fun s => elements ← zend_qsort 8 (comp_func s) elements; Some (elements, s));
    first ← slot elements 0;
    let l := set_head (Some first) l in
    update first (set_prev None) ;;
    link_loop elements 1 (count - 1) ;;
    last ← slot elements (count - 1);
    update last (set_next None) ;;
    mret (set_tail (Some last) l).

End ops.

Section rules.
Context {V : Type}.
Implicit Types (s : store (zend_llist_element V) V) (m : gmap ptr (zend_llist_element V)) (L : list ptr).

Lemma wp_collect_elements room L1 L2 Q s :
  dll llist_links (nodes s) (L1 ++ L2) -> (length L2 <= room)%nat -> Q L2 s ->
  wp (collect_elements room (head L2)) Q s.
Proof.
  revert L1 L2 Q. induction room as [|room IH]; intros L1 [|p L2] Q Hd Hlen HQ; simpl in *; try (by wp_step); [lia|].
  destruct (dll_lookup _ _ _ _ _ Hd) as (e & He & _ & Hnext). wp_step. wp_step. wp_step.
  change (le_next e) with (lnext llist_links e). rewrite Hnext.
  apply (IH (L1 ++ [p])); [by rewrite <- app_assoc|lia|]. by wp_step.
Qed.

Lemma wp_slot elements i p Q s : elements !! i = Some p -> Q p s -> wp (slot (V := V) elements i) Q s.
Proof. intros Hi HQ. unfold slot. rewrite Hi. by wp_step. Qed.

Definition before (L : list ptr) (j : nat) : option ptr := if decide (j = O) then None else L !! (j - 1)%nat.

(** [m] is [m0] but for the links of the nodes of [L]; the first [i] of them have
    their [prev], and all but the last of these their [next], as in [L]. *)
Definition linked (m0 m : gmap ptr (zend_llist_element V)) (L : list ptr) (i : nat) : Prop :=
  (forall p, p ∉ L -> m !! p = m0 !! p) /\
  (forall j p, L !! j = Some p -> exists e0 e, m0 !! p = Some e0 /\ m !! p = Some e /\ le_data e = le_data e0 /\
     ((j < i)%nat -> le_prev e = before L j) /\ ((S j < i)%nat -> le_next e = L !! S j)).

Lemma linked_start m L a e :
  NoDup L -> L !! 0%nat = Some a -> m !! a = Some e -> (forall q, q ∈ L -> is_Some (m !! q)) ->
  linked m (<[a := set_prev None e]> m) L 1.
Proof.
  intros HND Ha He HmL. split.
  - intros q Hq. rewrite lookup_insert_ne; [done|]. intros ->. by apply Hq, list_elem_of_lookup_2 with 0%nat.
  - intros j q Hj. destruct (HmL q) as [e0 He0]; [by eapply list_elem_of_lookup_2|]. exists e0.
    destruct (decide (q = a)) as [->|Hq].
    + rewrite He in He0. injection He0 as ->. exists (set_prev None e0). rewrite lookup_insert_eq.
      split_and!; try done; [|lia]. intros Hj1. by replace j with 0%nat by lia.
    + exists e0. rewrite lookup_insert_ne by done. split_and!; try done; [|lia].
      intros Hj1. replace j with 0%nat in Hj by lia. congruence.
Qed.

Lemma linked_step m0 m L i cur bef :
  NoDup L -> linked m0 m L (S i) -> L !! S i = Some cur -> L !! i = Some bef ->
  linked m0 (alter (set_next (Some cur)) bef (alter (set_prev (Some bef)) cur m)) L (S (S i)).
Proof.
  intros HND [Hout Hin] Hcur Hbef.
  assert (Hne : cur <> bef).
  { intros ->. pose proof (NoDup_lookup _ _ _ _ HND Hcur Hbef). lia. }
  split.
  - intros q Hq. rewrite !lookup_alter_ne; [by apply Hout|..]; intros ->; apply Hq; by eapply list_elem_of_lookup_2.
  - intros j q Hj. destruct (Hin j q Hj) as (e0 & e & He0 & He & Hd & Hp & Hn). exists e0.
    destruct (decide (j = S i)) as [->|Hj1]; [|destruct (decide (j = i)) as [->|Hj2]].
    + rewrite Hcur in Hj. injection Hj as <-. exists (set_prev (Some bef) e).
      rewrite lookup_alter_ne, lookup_alter_eq, He by done. split_and!; try done; [|lia].
      intros _. unfold before. cbn. by rewrite Nat.sub_0_r.
    + rewrite Hbef in Hj. injection Hj as <-. exists (set_next (Some cur) e).
      rewrite lookup_alter_eq, lookup_alter_ne, He by done. split_and!; try done. intros _. apply Hp. lia.
    + exists e. rewrite !lookup_alter_ne.
      * split_and!; try done; intros; [apply Hp|apply Hn]; lia.
      * intros ->. apply Hj1. by eapply NoDup_lookup.
      * intros ->. apply Hj2. by eapply NoDup_lookup.
Qed.

Lemma wp_link_loop m0 L i n Q s :
  NoDup L -> (S i + n = length L)%nat -> linked m0 (nodes s) L (S i) ->
  (forall m', linked m0 m' L (length L) -> Q tt (set_nodes m' s)) ->
  wp (link_loop L (S i) n) Q s.
Proof.
  intros HND. revert i s. induction n as [|n IH]; intros i s Hlen Hl HQ; simpl.
  { wp_step. rewrite Nat.add_0_r in Hlen. simpl in Hlen. rewrite Hlen in Hl. specialize (HQ _ Hl). by destruct s. }
  destruct (lookup_lt_is_Some_2 L (S i)) as [cur Hcur]; [lia|].
  destruct (lookup_lt_is_Some_2 L i) as [bef Hbef]; [lia|]. rewrite Nat.sub_0_r.
  wp_step. eapply wp_slot; [done|]. wp_step. eapply wp_slot; [done|].
  pose proof (linked_step _ _ _ _ _ _ HND Hl Hcur Hbef) as Hl'. destruct Hl as [_ Hin].
  destruct (Hin _ _ Hcur) as (_ & e1 & _ & He1 & _). destruct (Hin _ _ Hbef) as (_ & e2 & _ & He2 & _).
  assert (cur <> bef) as Hne.
  { intros ->. pose proof (NoDup_lookup _ _ _ _ HND Hcur Hbef). lia. }
  wp_step. eapply wp_update; [done|]. wp_step. eapply wp_update; [by cbn; rewrite lookup_alter_ne|].
  rewrite Nat.add_1_r. apply IH; [lia|exact Hl'|]. intros m' Hm'. by apply HQ.
Qed.

Lemma linked_finish m0 m L p :
  NoDup L -> last L = Some p -> linked m0 m L (length L) ->
  dll llist_links (alter (set_next None) p m) L /\
  (forall q, q ∉ L -> alter (set_next None) p m !! q = m0 !! q) /\
  (forall q, q ∈ L -> le_data <$> alter (set_next None) p m !! q = le_data <$> m0 !! q).
Proof.
  intros HND Hp [Hout Hin]. rewrite last_lookup in Hp.
  assert (Hat : forall j q, L !! j = Some q -> exists e0 e, m0 !! q = Some e0 /\
    alter (set_next None) p m !! q = Some e /\ le_data e = le_data e0 /\ le_prev e = before L j /\ le_next e = L !! S j).
  { intros j q Hj. pose proof (lookup_lt_Some _ _ _ Hj) as Hlt.
    destruct (Hin j q Hj) as (e0 & e & He0 & He & Hd & Hpr & Hn). exists e0. destruct (decide (q = p)) as [->|Hq].
    - exists (set_next None e). rewrite lookup_alter_eq, He. split_and!; try done; [by apply Hpr|].
      pose proof (NoDup_lookup _ _ _ _ HND Hj Hp). symmetry. apply lookup_ge_None_2. lia.
    - exists e. rewrite lookup_alter_ne by done. split_and!; try done; [by apply Hpr|]. apply Hn.
      assert (j <> pred (length L)) by congruence. lia. }
  split_and!.
  - apply dll_pointwise; [done|]. intros L1 q L2 ->. destruct (Hat (length L1) q) as (_ & e & _ & He & _ & Hpr & Hn);
      [by apply list_lookup_middle|]. rewrite He. cbn. unfold lk. cbn. rewrite Hpr, Hn. f_equal. f_equal.
    + unfold before. case_decide as H0; [by destruct L1|]. rewrite last_lookup, lookup_app_l by lia. f_equal. lia.
    + rewrite lookup_app_r by lia. rewrite Nat.sub_succ_l, Nat.sub_diag by lia. simpl. by rewrite head_lookup.
  - intros q Hq. rewrite lookup_alter_ne; [by apply Hout|]. intros ->. apply Hq. by eapply list_elem_of_lookup_2.
  - intros q [j Hj]%list_elem_of_lookup. destruct (Hat j q Hj) as (e0 & e & -> & -> & Hd & _). cbn. by rewrite Hd.
Qed.

End rules.

(** [zend_llist_sort] permutes the list, with both directions of links and the
    ends rebuilt, its data kept with the elements and no other memory touched; when
    the comparison is a total preorder the list is sorted. *)
Theorem zend_llist_sort_correct {V} (s : store (zend_llist_element V) V) l L (comp_func : llist_compare) :
  llist_rep s l L ->
  wp (zend_llist_sort l comp_func) (fun l' s' => exists L', L' ≡ₚ L /\ llist_rep s' l' L' /\
    (total_preorder (comp_func s) -> StronglySorted (fun p q => comp_func s p q <= 0) L') /\
    ldata s' L' = ldata s L' /\ llist_frame s L s' L' /\ dtor_trace s' = dtor_trace s) s.
Proof.
  intros HR. pose proof HR as [HL Hhd Htl Hn Hlt]. unfold zend_llist_sort. rewrite Hn, Nat2Z.id.
  destruct (Z.leb_spec (Z.of_nat (length L)) 0) as [H0|H0].
  { destruct L; [|simpl in H0; lia]. wp_step. exists []. split_and!; try done. constructor. }
  rewrite Hhd. wp_step. apply (wp_collect_elements _ [] L); [done|done|].
  destruct (zend_qsort_sorts 8 (comp_func s) L) as (L' & HL' & HP & Hsort); [lia|done|].
  wp_step. exists L', s. split; [by rewrite HL'|]. pose proof (Permutation_length HP) as Hlen.
  assert (HND : NoDup L') by (rewrite <- HP; apply HL).
  assert (HmL : forall q, q ∈ L' -> is_Some (nodes s !! q)) by (intros q; rewrite <- HP; by eapply dll_elem).
  rewrite Hlen in *. destruct (lookup_lt_is_Some_2 L' 0) as [a Ha]; [lia|].
  destruct (lookup_lt_is_Some_2 L' (length L' - 1)) as [z Hz]; [lia|].
  destruct (HmL a) as [e He]; [by eapply list_elem_of_lookup_2|].
  wp_step. eapply wp_slot; [exact Ha|]. wp_step. eapply wp_update; [exact He|].
  rewrite (alter_insert_Some _ _ _ e) by done. wp_step.
  apply (wp_link_loop (nodes s) L' 0); [done|lia|by apply linked_start|]. intros m Hm.
  assert (Hlast : last L' = Some z) by (rewrite last_lookup, <- Hz; f_equal; lia).
  destruct (linked_finish _ _ _ _ HND Hlast Hm) as (Hd & Hout & Hdat). destruct Hm as [_ Hin].
  destruct (Hin _ _ Hz) as (_ & ez & _ & Hez & _).
  wp_step. eapply wp_slot; [exact Hz|]. wp_step. eapply wp_update; [exact Hez|]. wp_step.
  exists L'. split_and!; try done.
  - split; cbn; try done. by rewrite head_lookup.
  - by apply ldata_agree.
  - split; [|done]. intros q eq. cbn. rewrite HP. destruct (decide (q ∈ L')); [tauto|]. by rewrite Hout.
Qed.

(** Descending order of the data. *)
Definition demo_descending : llist_compare (V := Z) := fun s p q =>
  match nodes s !! p, nodes s !! q with
  | Some a, Some b => le_data b - le_data a
  | _, _ => 0
  end.

Lemma zend_llist_sort_witness :
  wp (zend_llist_sort LlistDemo.l demo_descending) (fun l' s' => exists L', L' ≡ₚ LlistDemo.L /\ llist_rep s' l' L' /\
    (total_preorder (demo_descending LlistDemo.st) -> StronglySorted (fun p q => demo_descending LlistDemo.st p q <= 0) L') /\
    ldata s' L' = ldata LlistDemo.st L' /\ llist_frame LlistDemo.st LlistDemo.L s' L' /\
    dtor_trace s' = dtor_trace LlistDemo.st) LlistDemo.st /\
  l_head <$> (fst <$> zend_llist_sort LlistDemo.l demo_descending LlistDemo.st) = Some (Some 3%positive).
Proof.
  split; [|vm_compute; reflexivity].
  exact (zend_llist_sort_correct LlistDemo.st LlistDemo.l LlistDemo.L demo_descending LlistDemo.llist_demo_rep).
Defined.
