(* ===== verification/ZendPtrStack.v ===== *)
(** * ZendPtrStack: the engine's stack of pointers

    Models src/Zend/zend_ptr_stack.h and src/Zend/zend_ptr_stack.c.  The array
    is a list of cells ([None]: not written yet); [top_element] is an offset
    into it.  An access outside the array, or through NULL, is a fault
    ([None]).  [top] and [max] are C ints. *)
From S2P Require Import Prelude.
From stdpp Require Import base list.
Local Open Scope Z_scope.

Definition PTR_STACK_BLOCK_SIZE : Z := 64.

Record zend_ptr_stack (V : Type) := mkPtrStack {
  ps_top : Z;
  ps_max : Z;
  ps_elements : option (list (option V));
  ps_top_element : option Z;
  ps_persistent : bool
}.
Arguments mkPtrStack {V}.
Arguments ps_top {V} _.
Arguments ps_max {V} _.
Arguments ps_elements {V} _.
Arguments ps_top_element {V} _.
Arguments ps_persistent {V} _.

Section ops.
Context {V : Type}.
Implicit Types (st : zend_ptr_stack V).

Definition set_ps_top (v : Z) (st : zend_ptr_stack V) : zend_ptr_stack V :=
  mkPtrStack v (ps_max st) (ps_elements st) (ps_top_element st) (ps_persistent st).

Definition zend_ptr_stack_init_ex (persistent : bool) : zend_ptr_stack V :=
  mkPtrStack 0 0 None None persistent.

Definition zend_ptr_stack_init : zend_ptr_stack V := zend_ptr_stack_init_ex false.

(** [do { max += PTR_STACK_BLOCK_SIZE; } while (top + count > max);] *)
Fixpoint grow_max (fuel : nat) (need max : Z) : Z :=
  let max := s32 (max + PTR_STACK_BLOCK_SIZE) in
  match fuel with
  | O => max
  | S fuel => if max <? need then grow_max fuel need max else max
  end.

Definition ZEND_PTR_STACK_RESIZE_IF_NEEDED (st : zend_ptr_stack V) (count : Z) : zend_ptr_stack V :=
  if ps_max st <? s32 (ps_top st + count) then
    let max := grow_max (Z.to_nat count) (s32 (ps_top st + count)) (ps_max st) in
    mkPtrStack (ps_top st) max
      (Some (resize (Z.to_nat max) None (default [] (ps_elements st)))) (Some (ps_top st)) (ps_persistent st)
  else st.

(** [*(stack->top_element++) = elem;] *)
Definition put_top (elem : V) (st : zend_ptr_stack V) : option (zend_ptr_stack V) :=
  match ps_elements st, ps_top_element st with
  | Some arr, Some i =>
      if (0 <=? i) && (i <? Z.of_nat (length arr)) then
        Some (mkPtrStack (ps_top st) (ps_max st) (Some (<[Z.to_nat i := Some elem]> arr))
                (Some (i + 1)) (ps_persistent st))
      else None
  | _, _ => None
  end.

(** [*(--stack->top_element)] *)
Definition get_top (st : zend_ptr_stack V) : option (V * zend_ptr_stack V) :=
  match ps_elements st, ps_top_element st with
  | Some arr, Some i =>
      if 0 <=? i - 1 then
        match arr !! Z.to_nat (i - 1) with
        | Some (Some v) =>
            Some (v, mkPtrStack (ps_top st) (ps_max st) (Some arr) (Some (i - 1)) (ps_persistent st))
        | _ => None
        end
      else None
  | _, _ => None
  end.

(** [while (count>0) { elem = va_arg(...); stack->top++; *(stack->top_element++) = elem; count--; }] *)
Fixpoint push_loop (elems : list V) (st : zend_ptr_stack V) : option (zend_ptr_stack V) :=
  match elems with
  | [] => Some st
  | e :: elems => st ← put_top e (set_ps_top (s32 (ps_top st + 1)) st); push_loop elems st
  end.

Definition zend_ptr_stack_n_push (st : zend_ptr_stack V) (elems : list V) : option (zend_ptr_stack V) :=
  push_loop elems (ZEND_PTR_STACK_RESIZE_IF_NEEDED st (Z.of_nat (length elems))).

(** The popped values in the order of the [void **] arguments. *)
Fixpoint zend_ptr_stack_n_pop (count : nat) (st : zend_ptr_stack V) :
    option (list V * zend_ptr_stack V) :=
  match count with
  | O => Some ([], st)
  | S count =>
      '(v, st) ← get_top st;
      '(vs, st) ← zend_ptr_stack_n_pop count (set_ps_top (s32 (ps_top st - 1)) st);
      Some (v :: vs, st)
  end.

Definition zend_ptr_stack_push (st : zend_ptr_stack V) (elem : V) : option (zend_ptr_stack V) :=
  let st := ZEND_PTR_STACK_RESIZE_IF_NEEDED st 1 in
  put_top elem (set_ps_top (s32 (ps_top st + 1)) st).

Definition zend_ptr_stack_pop (st : zend_ptr_stack V) : option (V * zend_ptr_stack V) :=
  get_top (set_ps_top (s32 (ps_top st - 1)) st).

Definition zend_ptr_stack_2_push (st : zend_ptr_stack V) (a b : V) : option (zend_ptr_stack V) :=
  let st := ZEND_PTR_STACK_RESIZE_IF_NEEDED st 2 in
  st ← put_top a (set_ps_top (s32 (ps_top st + 2)) st);
  put_top b st.

Definition zend_ptr_stack_3_push (st : zend_ptr_stack V) (a b c : V) : option (zend_ptr_stack V) :=
  let st := ZEND_PTR_STACK_RESIZE_IF_NEEDED st 3 in
  st ← put_top a (set_ps_top (s32 (ps_top st + 3)) st);
  st ← put_top b st;
  put_top c st.

Definition zend_ptr_stack_2_pop (st : zend_ptr_stack V) : option (V * V * zend_ptr_stack V) :=
  '(a, st) ← get_top st;
  '(b, st) ← get_top st;
  Some (a, b, set_ps_top (s32 (ps_top st - 2)) st).

Definition zend_ptr_stack_3_pop (st : zend_ptr_stack V) : option (V * V * V * zend_ptr_stack V) :=
  '(a, st) ← get_top st;
  '(b, st) ← get_top st;
  '(c, st) ← get_top st;
  Some (a, b, c, set_ps_top (s32 (ps_top st - 3)) st).

Definition zend_ptr_stack_top (st : zend_ptr_stack V) : option V :=
  arr ← ps_elements st;
  if 0 <=? ps_top st - 1 then mjoin (arr !! Z.to_nat (ps_top st - 1)) else None.

(** [while (--i >= 0) func(stack->elements[i]);]: the values in the order of the calls. *)
Fixpoint apply_down (i : nat) (arr : list (option V)) : option (list V) :=
  match i with
  | O => Some []
  | S i => v ← mjoin (arr !! i); vs ← apply_down i arr; Some (v :: vs)
  end.

Definition zend_ptr_stack_apply (st : zend_ptr_stack V) : option (list V) :=
  match Z.to_nat (ps_top st) with
  | O => Some []
  | n => arr ← ps_elements st; apply_down n arr
  end.

(** The values [func] is called on, the values freed, and the emptied stack. *)
Definition zend_ptr_stack_clean (st : zend_ptr_stack V) (free_elements : bool) :
    option (list V * list V * zend_ptr_stack V) :=
  called ← zend_ptr_stack_apply st;
  freed ← (if free_elements then zend_ptr_stack_apply st else Some []);
  Some (called, freed, mkPtrStack 0 (ps_max st) (ps_elements st)
    (match ps_elements st with Some _ => Some 0 | None => None end) (ps_persistent st)).

(** [if (stack->elements) pefree(stack->elements, stack->persistent);] *)
Definition zend_ptr_stack_destroy (st : zend_ptr_stack V) : bool :=
  match ps_elements st with Some _ => true | None => false end.

Definition zend_ptr_stack_num_elements (st : zend_ptr_stack V) : Z := ps_top st.

(** ** The sequence a stack holds, bottom first *)

Record ps_rep (st : zend_ptr_stack V) (l : list V) : Prop := {
  ps_rep_top : ps_top st = Z.of_nat (length l);
  ps_rep_max : ps_top st <= ps_max st;
  ps_rep_arr : exists arr, length arr = Z.to_nat (ps_max st) /\ take (length l) arr = Some <$> l /\
    (ps_elements st = Some arr /\ ps_top_element st = Some (ps_top st) \/
     ps_elements st = None /\ ps_top_element st = None /\ ps_max st = 0)
}.

Lemma grow_max_spec fuel need max :
  0 <= max < need -> need + 64 < 2 ^ 31 -> need - max <= 64 * (Z.of_nat fuel + 1) ->
  need <= grow_max fuel need max < need + 64.
Proof.
  revert max. induction fuel as [|fuel IH]; intros max Hm Hn Hf; cbn [grow_max];
    unfold PTR_STACK_BLOCK_SIZE; rewrite (wrap_s_small 32) by lia; [lia|].
  destruct (Z.ltb_spec (max + 64) need); [|lia]. apply IH; lia.
Qed.

(** After the resize there is room for [count] more. *)
Lemma resize_rep st l count :
  ps_rep st l -> 0 < count -> ps_top st + count + 64 < 2 ^ 31 ->
  let st' := ZEND_PTR_STACK_RESIZE_IF_NEEDED st count in
  ps_rep st' l /\ ps_top st' + count <= ps_max st' /\ ps_top st' = ps_top st /\ is_Some (ps_elements st').
Proof.
  intros [Ht Hm (arr & Hlen & Htake & He)] Hc Hb. unfold ZEND_PTR_STACK_RESIZE_IF_NEEDED.
  rewrite (wrap_s_small 32) by lia. destruct (Z.ltb_spec (ps_max st) (ps_top st + count)) as [H|H]; simpl.
  - destruct (grow_max_spec (Z.to_nat count) (ps_top st + count) (ps_max st)) as [Hg1 Hg2]; [lia|lia|lia|].
    set (mx := grow_max _ _ _) in *. split_and!; [|lia|done|done]. split; simpl; [done|lia|].
    eexists. split_and!; [| |by left]; [by rewrite length_resize|].
    assert (length l <= length arr)%nat as Hl.
    { rewrite Hlen. lia. }
    destruct He as [[-> _]|(-> & _ & H0)]; simpl.
    + rewrite resize_ge, take_app_le by lia. done.
    + destruct l; [|simpl in *; lia]. done.
  - split_and!; [|lia|done|].
    + split; [done|done|]. exists arr. done.
    + destruct He as [[-> _]|(_ & _ & H0)]; [done|lia].
Qed.

Lemma put_top_rep st l v :
  ps_rep st l -> ps_top st + 1 <= ps_max st -> is_Some (ps_elements st) ->
  exists st', put_top v (set_ps_top (ps_top st + 1) st) = Some st' /\ ps_rep st' (l ++ [v]) /\
    ps_max st' = ps_max st /\ is_Some (ps_elements st') /\ ps_top st' = ps_top st + 1.
Proof.
  intros [Ht Hm (arr & Hlen & Htake & He)] Hroom [a Ha].
  destruct He as [[Hel Hte]|(Hel & _)]; [|congruence]. unfold put_top. simpl. rewrite Hel, Hte.
  destruct (Z.leb_spec 0 (ps_top st)), (Z.ltb_spec (ps_top st) (Z.of_nat (length arr))); try lia. simpl.
  eexists. split; [done|]. split_and!; [|done|done|done]. split; simpl.
  - rewrite length_app. simpl. lia.
  - lia.
  - eexists. split_and!; [| |left; done]; [by rewrite length_insert|].
    rewrite length_app. simpl. rewrite Nat.add_1_r.
    rewrite (take_S_r _ _ (Some v)).
    + rewrite take_insert_ge by lia. rewrite Htake, fmap_app. done.
    + rewrite Ht, Nat2Z.id. apply list_lookup_insert_eq. lia.
Qed.

Lemma get_top_rep st l v :
  ps_rep st (l ++ [v]) -> Z.of_nat (length l) + 1 < 2 ^ 31 ->
  exists st', get_top st = Some (v, st') /\ ps_rep (set_ps_top (s32 (ps_top st' - 1)) st') l /\
    ps_top st' = ps_top st.
Proof.
  intros [Ht Hm (arr & Hlen & Htake & He)] Hb. rewrite length_app in *. simpl in *.
  destruct He as [[Hel Hte]|(Hel & _ & H0)]; [|lia]. unfold get_top. rewrite Hel, Hte.
  destruct (Z.leb_spec 0 (ps_top st - 1)); [|lia].
  assert (arr !! Z.to_nat (ps_top st - 1) = Some (Some v)) as ->.
  { replace (Z.to_nat (ps_top st - 1)) with (length l) by lia.
    rewrite <- (lookup_take_lt arr (length l + 1)) by lia. rewrite Htake, fmap_app.
    rewrite lookup_app_r; rewrite length_fmap; [by rewrite Nat.sub_diag|lia]. }
  eexists. split; [done|]. split; [|done]. rewrite wrap_s_small by (simpl; lia). split; simpl; [lia|lia|].
  exists arr. split_and!; [done| |by left].
  replace (take (length l) arr) with (take (length l) (take (length l + 1) arr)) by (rewrite take_take; f_equal; lia).
  rewrite Htake, fmap_app, take_app_le by (rewrite length_fmap; lia). rewrite take_ge; [done|]. by rewrite length_fmap.
Qed.

Lemma apply_down_rep arr l n :
  (n <= length l)%nat -> take (length l) arr = Some <$> l -> apply_down n arr = Some (reverse (take n l)).
Proof.
  intros Hn Ht. induction n as [|n IH]; [done|]. simpl.
  destruct (lookup_lt_is_Some_2 l n) as [v Hv]; [lia|].
  assert (arr !! n = Some (Some v)) as Ha.
  { rewrite <- (lookup_take_lt arr (length l)) by lia. by rewrite Ht, list_lookup_fmap, Hv. }
  rewrite Ha. simpl. rewrite IH by lia. simpl. rewrite (take_S_r _ _ _ Hv), reverse_app. done.
Qed.

End ops.

Section rules.
Context {V : Type}.
Implicit Types (st : zend_ptr_stack V) (l elems : list V).

Lemma push_loop_rep st l elems :
  ps_rep st l -> ps_top st + Z.of_nat (length elems) <= ps_max st -> is_Some (ps_elements st) ->
  Z.of_nat (length l + length elems) < 2 ^ 31 ->
  exists st', push_loop elems st = Some st' /\ ps_rep st' (l ++ elems).
Proof.
  revert st l. induction elems as [|e elems IH]; intros st l HR Hroom Hel Hb; simpl in *.
  { exists st. by rewrite app_nil_r. }
  pose proof (ps_rep_top _ _ HR) as Ht. rewrite wrap_s_small by (simpl; lia).
  destruct (put_top_rep st l e) as (st1 & -> & HR1 & Hm1 & Hel1 & Ht1); [done|lia|done|]. simpl.
  destruct (IH st1 (l ++ [e])) as (st' & Hp & HR'); [done|lia|done|rewrite length_app; simpl; lia|].
  exists st'. split; [done|]. by rewrite <- app_assoc in HR'.
Qed.

Lemma n_push_rep st l elems :
  ps_rep st l -> Z.of_nat (length l + length elems) + 64 < 2 ^ 31 ->
  exists st', zend_ptr_stack_n_push st elems = Some st' /\ ps_rep st' (l ++ elems).
Proof.
  intros HR Hb. unfold zend_ptr_stack_n_push. pose proof (ps_rep_top _ _ HR) as Ht.
  destruct elems as [|e elems].
  { simpl. exists st. rewrite app_nil_r. split; [|done]. f_equal.
    unfold ZEND_PTR_STACK_RESIZE_IF_NEEDED. simpl. rewrite Z.add_0_r, wrap_s_small by (simpl in *; lia).
    pose proof (ps_rep_max _ _ HR). destruct (Z.ltb_spec (ps_max st) (ps_top st)); [lia|done]. }
  destruct (resize_rep st l (Z.of_nat (length (e :: elems)))) as (HR1 & Hroom & Ht1 & Hel);
    [done|simpl; lia|lia|].
  apply push_loop_rep; [done|lia|done|lia].
Qed.

Lemma n_pop_rep st l elems :
  ps_rep st (l ++ elems) -> Z.of_nat (length l + length elems) < 2 ^ 31 ->
  exists st', zend_ptr_stack_n_pop (length elems) st = Some (reverse elems, st') /\ ps_rep st' l.
Proof.
  revert st. induction elems as [|e elems IH] using rev_ind; intros st HR Hb.
  { exists st. by rewrite app_nil_r in HR. }
  rewrite length_app in *. simpl in *. rewrite app_assoc in HR. rewrite Nat.add_1_r. simpl.
  destruct (get_top_rep st (l ++ elems) e HR) as (st1 & -> & HR1 & Ht1); [rewrite length_app; lia|]. simpl.
  destruct (IH _ HR1) as (st2 & -> & HR2); [lia|]. simpl. exists st2. by rewrite reverse_app.
Qed.

(** pushing any number of pointers appends them, in argument order, growing
    the array as needed, and popping as many gives them back in reverse and
    restores the stack's sequence; no access leaves the array. *)
Theorem zend_ptr_stack_push_pop st l elems :
  ps_rep st l -> Z.of_nat (length l + length elems) + 64 < 2 ^ 31 ->
  exists st', zend_ptr_stack_n_push st elems = Some st' /\ ps_rep st' (l ++ elems) /\
    zend_ptr_stack_num_elements st' = Z.of_nat (length l + length elems) /\
    exists st'', zend_ptr_stack_n_pop (length elems) st' = Some (reverse elems, st'') /\ ps_rep st'' l.
Proof.
  intros HR Hb. destruct (n_push_rep st l elems HR Hb) as (st' & Hp & HR'). exists st'.
  split_and!; [done|done| |].
  - unfold zend_ptr_stack_num_elements. rewrite (ps_rep_top _ _ HR'), length_app. lia.
  - apply n_pop_rep; [done|lia].
Qed.

Lemma put_top_set v n st :
  put_top v (set_ps_top n st) = set_ps_top n <$> put_top v st.
Proof.
  unfold put_top. simpl. destruct (ps_elements st), (ps_top_element st); try done. by destruct (_ && _).
Qed.

Lemma put_top_top v st st' : put_top v st = Some st' -> ps_top st' = ps_top st.
Proof.
  unfold put_top. destruct (ps_elements st), (ps_top_element st); try done. destruct (_ && _); [|done].
  by intros [= <-].
Qed.

(** The unrolled push functions for one, two and three pointers do exactly
    what the variadic one does. *)
Lemma zend_ptr_stack_unrolled_push st l a b c :
  ps_rep st l -> Z.of_nat (length l) + 67 < 2 ^ 31 ->
  zend_ptr_stack_push st a = zend_ptr_stack_n_push st [a] /\
  zend_ptr_stack_2_push st a b = zend_ptr_stack_n_push st [a; b] /\
  zend_ptr_stack_3_push st a b c = zend_ptr_stack_n_push st [a; b; c].
Proof.
  intros HR Hb. pose proof (ps_rep_top _ _ HR) as Ht.
  assert (forall n, 0 < n <= 3 -> ps_top (ZEND_PTR_STACK_RESIZE_IF_NEEDED st n) = Z.of_nat (length l)) as Htop.
  { intros n Hn. destruct (resize_rep st l n) as (_ & _ & -> & _); [done|lia|lia|done]. }
  unfold zend_ptr_stack_push, zend_ptr_stack_2_push, zend_ptr_stack_3_push, zend_ptr_stack_n_push.
  simpl length. change (Z.of_nat 1) with 1. change (Z.of_nat 2) with 2. change (Z.of_nat 3) with 3.
  split_and!; simpl push_loop.
  - destruct (put_top a _); done.
  - specialize (Htop 2 ltac:(lia)). set (st1 := ZEND_PTR_STACK_RESIZE_IF_NEEDED st 2) in *. rewrite !Htop.
    rewrite !put_top_set. destruct (put_top a st1) as [st2|] eqn:Hp; [|done]. simpl.
    rewrite !put_top_set. destruct (put_top b st2) as [st3|] eqn:Hp2; [|done]. simpl.
    rewrite (wrap_s_small 32 (Z.of_nat (length l) + 1)), !wrap_s_small by lia.
    unfold set_ps_top. simpl. do 2 f_equal. lia.
  - specialize (Htop 3 ltac:(lia)). set (st1 := ZEND_PTR_STACK_RESIZE_IF_NEEDED st 3) in *. rewrite !Htop.
    rewrite !put_top_set. destruct (put_top a st1) as [st2|] eqn:Hp; [|done]. simpl.
    rewrite !put_top_set. destruct (put_top b st2) as [st3|] eqn:Hp2; [|done]. simpl.
    rewrite !put_top_set. destruct (put_top c st3) as [st4|] eqn:Hp3; [|done]. simpl.
    rewrite (wrap_s_small 32 (Z.of_nat (length l) + 1)) by lia.
    rewrite (wrap_s_small 32 (Z.of_nat (length l) + 1 + 1)), !wrap_s_small by lia.
    unfold set_ps_top. simpl. do 2 f_equal. lia.
Qed.

(** Applying a function visits the stack from the top down; cleaning does
    so too, frees what it visited if asked, and leaves an empty stack. *)
Lemma zend_ptr_stack_clean_correct st l fr :
  ps_rep st l ->
  zend_ptr_stack_apply st = Some (reverse l) /\
  exists st', zend_ptr_stack_clean st fr = Some (reverse l, if fr then reverse l else [], st') /\ ps_rep st' [].
Proof.
  intros HR. destruct HR as [Ht Hm (arr & Hlen & Htake & He)].
  assert (zend_ptr_stack_apply st = Some (reverse l)) as Ha.
  { unfold zend_ptr_stack_apply. rewrite Ht, Nat2Z.id. destruct (length l) as [|n] eqn:Hl.
    { by destruct l. }
    destruct He as [[-> _]|(_ & _ & H0)]; [|lia]. simpl. rewrite <- Hl in Htake.
    change (mjoin (arr !! n) ≫= _) with (apply_down (S n) arr).
    rewrite (apply_down_rep arr l (S n)); [|lia|done]. by rewrite take_ge by lia. }
  split; [done|]. unfold zend_ptr_stack_clean. rewrite Ha. simpl.
  assert ((if fr then Some (reverse l) else Some []) = Some (if fr then reverse l else [])) as ->
    by by destruct fr.
  simpl. eexists. split; [done|]. split; simpl; [done|lia|]. exists arr. split_and!; [done|by rewrite take_0|].
  destruct He as [[-> _]|(-> & _ & ?)]; [by left|by right].
Qed.

End rules.

(** A stack of two pointers. *)
Definition demo_ptr_stack : zend_ptr_stack Z :=
  default zend_ptr_stack_init (zend_ptr_stack_n_push zend_ptr_stack_init [1; 2]).

Lemma demo_ptr_stack_rep : ps_rep demo_ptr_stack [1; 2].
Proof.
  split; [done|vm_compute; discriminate|]. eexists. split_and!; [| |left; split; reflexivity]; reflexivity.
Defined.

Lemma zend_ptr_stack_push_pop_witness :
  exists st', zend_ptr_stack_n_push demo_ptr_stack [3; 4; 5] = Some st' /\ ps_rep st' [1; 2; 3; 4; 5] /\
    zend_ptr_stack_num_elements st' = 5 /\
    exists st'', zend_ptr_stack_n_pop 3 st' = Some ([5; 4; 3], st'') /\ ps_rep st'' [1; 2].
Proof.
  refine (zend_ptr_stack_push_pop demo_ptr_stack [1; 2] [3; 4; 5] demo_ptr_stack_rep _). reflexivity.
Defined.

Lemma zend_ptr_stack_unrolled_push_witness :
  zend_ptr_stack_push demo_ptr_stack 3 = zend_ptr_stack_n_push demo_ptr_stack [3].
Proof.
  refine (proj1 (zend_ptr_stack_unrolled_push demo_ptr_stack [1; 2] 3 4 5 demo_ptr_stack_rep _)). reflexivity.
Defined.

Lemma zend_ptr_stack_clean_witness : zend_ptr_stack_apply demo_ptr_stack = Some [2; 1].
Proof. exact (proj1 (zend_ptr_stack_clean_correct demo_ptr_stack [1; 2] true demo_ptr_stack_rep)). Defined.
