(* ===== verification/ZendStack.v ===== *)
(** * ZendStack: the engine's stack of copied elements

    Models src/Zend/zend_stack.c.  Each element is a separately allocated copy
    (a block of the store); the array holds their addresses.  [erealloc] and
    [emalloc] do not return on failure. *)
From S2P Require Import Prelude Memory.
From stdpp Require Import base list gmap.
Local Open Scope Z_scope.

Definition STACK_BLOCK_SIZE : Z := 64.

(** [elements]: NULL, or the array; a cell not written yet is [None]. *)
Record zend_stack := mkStack {
  st_top : Z;
  st_max : Z;
  st_elements : option (list (option ptr))
}.

Inductive apply_type := ZEND_STACK_APPLY_TOPDOWN | ZEND_STACK_APPLY_BOTTOMUP.

Section ops.
Context {V : Type} {AL : Allocator}.

Abbreviation sstore := (store unit V).
Abbreviation scmd := (cmd sstore).

Definition zend_stack_init : zend_stack := mkStack 0 0 None.

(** [stack->elements[i]] *)
Definition cell (stack : zend_stack) (i : Z) : scmd ptr :=
  match st_elements stack with
  | Some arr =>
      if 0 <=? i then
        match arr !! Z.to_nat i with
        | Some (Some p) => mret p
        | _ => cfault
        end
      else cfault
  | None => cfault
  end.

Definition zend_stack_push (stack : zend_stack) (element : V) : scmd (Z * zend_stack) :=
  let stack := if st_max stack <=? st_top stack then
                 let max := s32 (st_max stack + STACK_BLOCK_SIZE) in
                 mkStack (st_top stack) max
                   (Some (resize (Z.to_nat max) None (default [] (st_elements stack))))
               else stack in
  match st_elements stack with
  | Some arr =>
      if (0 <=? st_top stack) && (st_top stack <? Z.of_nat (length arr)) then
        p ← alloc_block element;
        mret (st_top stack, mkStack (s32 (st_top stack + 1)) (st_max stack)
               (Some (<[Z.to_nat (st_top stack) := Some p]> arr)))
      else cfault
  | None => cfault
  end.

Definition zend_stack_top (stack : zend_stack) : scmd (zresult * option ptr) :=
  if 0 <? st_top stack then
    p ← cell stack (st_top stack - 1);
    mret (SUCCESS, Some p)
  else mret (FAILURE, None).

Definition zend_stack_del_top (stack : zend_stack) : scmd (zresult * zend_stack) :=
  if 0 <? st_top stack then
    let stack := mkStack (s32 (st_top stack - 1)) (st_max stack) (st_elements stack) in
    p ← cell stack (st_top stack);
    free_block p ;;
    mret (SUCCESS, stack)
  else mret (SUCCESS, stack).

(** [FAILURE] is -1. *)
Definition zend_stack_int_top (to_int : V -> Z) (stack : zend_stack) : scmd Z :=
  '(r, p) ← zend_stack_top stack;
  match r, p with
  | SUCCESS, Some p => v ← load_block p; mret (to_int v)
  | _, _ => mret (-1)
  end.

Definition zend_stack_is_empty (stack : zend_stack) : Z := if st_top stack =? 0 then 1 else 0.

(** [for (i = 0; i < stack->top; i++) efree(stack->elements[i]);], [n] turns from [i] on *)
Fixpoint free_loop (n : nat) (i : Z) (stack : zend_stack) : scmd unit :=
  match n with
  | O => mret tt
  | S n => p ← cell stack i; free_block p ;; free_loop n (i + 1) stack
  end.

(** [top] and [max] keep their values. *)
Definition zend_stack_destroy (stack : zend_stack) : scmd (zresult * zend_stack) :=
  match st_elements stack with
  | Some _ =>
      free_loop (Z.to_nat (st_top stack)) 0 stack ;;
      mret (SUCCESS, mkStack (st_top stack) (st_max stack) None)
  | None => mret (SUCCESS, stack)
  end.

Definition zend_stack_base (stack : zend_stack) : option (list (option ptr)) := st_elements stack.

Definition zend_stack_count (stack : zend_stack) : Z := st_top stack.

(** [n] turns of a loop from index [i] in the direction [step]; the callback
    reads an element, threads a state and may stop the loop. *)
Fixpoint apply_from {A} (n : nat) (i step : Z) (f : V -> A -> bool * A) (stack : zend_stack) (acc : A) : scmd A :=
  match n with
  | O => mret acc
  | S n =>
      p ← cell stack i;
      v ← load_block p;
      let '(stop, acc) := f v acc in
      if stop : bool then mret acc else apply_from n (i + step) step f stack acc
  end.

Definition zend_stack_apply {A} (stack : zend_stack) (type : apply_type) (f : V -> A -> bool * A)
    (acc : A) : scmd A :=
  match type with
  | ZEND_STACK_APPLY_TOPDOWN =>
      apply_from (Z.to_nat (st_top stack)) (st_top stack - 1) (-1) f stack acc
  | ZEND_STACK_APPLY_BOTTOMUP => apply_from (Z.to_nat (st_top stack)) 0 1 f stack acc
  end.

Definition zend_stack_apply_with_argument {A B} (stack : zend_stack) (type : apply_type)
    (f : V -> B -> A -> bool * A) (arg : B) (acc : A) : scmd A :=
  match type with
  | ZEND_STACK_APPLY_TOPDOWN =>
      apply_from (Z.to_nat (st_top stack)) (st_top stack - 1) (-1) (fun v => f v arg) stack acc
  | ZEND_STACK_APPLY_BOTTOMUP =>
      apply_from (Z.to_nat (st_top stack)) 0 1 (fun v => f v arg) stack acc
  end.

(** ** The sequence a stack holds, bottom first *)

Record stack_rep (s : sstore) (stack : zend_stack) (P : list ptr) (vs : list V) : Prop := {
  srep_top : st_top stack = Z.of_nat (length P);
  srep_max : st_top stack <= st_max stack;
  srep_bound : st_max stack < 2 ^ 31 - 64;
  srep_arr : exists arr, length arr = Z.to_nat (st_max stack) /\ take (length P) arr = Some <$> P /\
    (st_elements stack = Some arr \/ st_elements stack = None /\ st_max stack = 0);
  srep_nodup : NoDup P;
  srep_vals : Forall2 (fun p v => blocks s !! p = Some v) P vs
}.

(** The blocks outside the stack are as they were. *)
Definition stack_frame (s : sstore) (P : list ptr) (s' : sstore) (P' : list ptr) : Prop :=
  forall a v, (blocks s' !! a = Some v /\ a ∉ P') <-> (blocks s !! a = Some v /\ a ∉ P).

Lemma wp_cell s stack P vs i p Q :
  stack_rep s stack P vs -> P !! i = Some p -> Q p s -> wp (cell stack (Z.of_nat i)) Q s.
Proof.
  intros HR Hi HQ. destruct (srep_arr _ _ _ _ HR) as (arr & Hlen & Htake & He).
  pose proof (lookup_lt_Some _ _ _ Hi) as Hlt. pose proof (srep_top _ _ _ _ HR) as Ht.
  pose proof (srep_max _ _ _ _ HR) as Hm. destruct He as [He|[_ H0]]; [|lia].
  unfold cell. rewrite He. destruct (Z.leb_spec 0 (Z.of_nat i)); [|lia]. rewrite Nat2Z.id.
  rewrite <- (lookup_take_lt arr (length P)) by lia. rewrite Htake, list_lookup_fmap, Hi. simpl. by wp_step.
Qed.

Lemma wp_push s stack P vs v Q :
  stack_rep s stack P vs -> st_max stack < 2 ^ 31 - 128 ->
  (forall s' stack' p, stack_rep s' stack' (P ++ [p]) (vs ++ [v]) -> stack_frame s P s' (P ++ [p]) ->
     st_max stack' <= st_max stack + 64 -> Q (Z.of_nat (length P), stack') s') ->
  wp (zend_stack_push stack v) Q s.
Proof.
  intros HR Hb HQ. destruct HR as [Ht Hm Hbd (arr & Hlen & Htake & He) HND HF]. unfold zend_stack_push.
  set (stack1 := if _ <=? _ then _ else _).
  assert (exists arr1, st_elements stack1 = Some arr1 /\ length arr1 = Z.to_nat (st_max stack1) /\
    take (length P) arr1 = Some <$> P /\ st_top stack1 = st_top stack /\
    st_top stack < st_max stack1 /\ st_max stack1 <= st_max stack + 64) as (arr1 & He1 & Hlen1 & Htake1 & Ht1 & Hlt1 & Hmx1).
  { unfold stack1. destruct (Z.leb_spec (st_max stack) (st_top stack)) as [H|H].
    - unfold STACK_BLOCK_SIZE. rewrite (wrap_s_small 32) by lia. simpl. eexists. split_and!; [done| | |done|lia|lia].
      + by rewrite length_resize.
      + destruct He as [->|[-> H0]]; simpl.
        * rewrite resize_ge, take_app_le by lia. done.
        * destruct P; [done|simpl in *; lia].
    - destruct He as [He|[_ H0]]; [|lia]. exists arr. split_and!; [done..|lia|lia]. }
  rewrite He1, Ht1. destruct (Z.leb_spec 0 (st_top stack)), (Z.ltb_spec (st_top stack) (Z.of_nat (length arr1)));
    try lia. simpl. wp_step. apply wp_alloc_block. intros p _ Hp. wp_step.
  assert (p ∉ P) as HpP.
  { intros Hin. apply list_elem_of_lookup in Hin as [i Hi]. destruct (Forall2_lookup_l _ _ _ _ _ HF Hi) as (v' & _ & Hv').
    congruence. }
  rewrite Ht. eapply (HQ _ _ p); [|..|simpl; lia].
  - split; simpl.
    + rewrite length_app, wrap_s_small by lia. simpl. lia.
    + rewrite wrap_s_small by lia. lia.
    + lia.
    + eexists. split_and!; [| |by left]; [by rewrite length_insert|].
      rewrite length_app. simpl. rewrite Nat.add_1_r, (take_S_r _ _ (Some p)).
      * rewrite take_insert_ge by lia. by rewrite Htake1, fmap_app.
      * rewrite Nat2Z.id. apply list_lookup_insert_eq. lia.
    + apply NoDup_app. split_and!; [done| |apply NoDup_singleton]. set_solver.
    + apply Forall2_app.
      * eapply Forall2_impl; [exact HF|]. intros q w Hq. rewrite lookup_insert_ne; [done|]. intros ->. congruence.
      * constructor; [by rewrite lookup_insert_eq|constructor].
  - intros a w. simpl. rewrite elem_of_snoc, lookup_insert_Some. naive_solver.
Qed.

Lemma wp_del_top s stack P p vs v Q :
  stack_rep s stack (P ++ [p]) (vs ++ [v]) ->
  (forall s' stack', stack_rep s' stack' P vs -> stack_frame s (P ++ [p]) s' P -> Q (SUCCESS, stack') s') ->
  wp (zend_stack_del_top stack) Q s.
Proof.
  intros HR HQ. pose proof HR as [Ht Hm Hbd (arr & Hlen & Htake & He) HND HF].
  rewrite length_app in *. simpl in *. unfold zend_stack_del_top.
  destruct (Z.ltb_spec 0 (st_top stack)); [|lia].
  apply Forall2_app_inv in HF as [HF HF1]; [|apply Forall2_length in HF; rewrite !length_app in HF; simpl in HF; lia].
  apply Forall2_cons in HF1 as [Hv _]. apply NoDup_app in HND as (HND & Hd & _).
  simpl. rewrite wrap_s_small by lia. wp_step. destruct He as [He|[_ H0]]; [|lia].
  apply (wp_mono _ (fun q s' => q = p /\ s' = s)).
  { replace (st_top stack - 1) with (Z.of_nat (length P)) by lia. unfold cell. simpl. rewrite He.
    destruct (Z.leb_spec 0 (Z.of_nat (length P))); [|lia]. rewrite Nat2Z.id.
    rewrite <- (lookup_take_lt arr (length P + 1)) by lia. rewrite Htake, fmap_app, lookup_app_r;
      rewrite length_fmap; [|lia]. rewrite Nat.sub_diag. simpl. by wp_step. }
  intros ? ? [-> ->]. wp_step. eapply wp_free_block; [exact Hv|]. wp_step. apply HQ.
  - split; simpl; [lia|lia|lia| |done|].
    + exists arr. split_and!; [done| |by left].
      replace (take (length P) arr) with (take (length P) (take (length P + 1) arr)) by (rewrite take_take; f_equal; lia).
      rewrite Htake, fmap_app, take_app_le by (rewrite length_fmap; lia). rewrite take_ge; [done|]. by rewrite length_fmap.
    + rewrite Forall2_lookup. intros i. pose proof (proj1 (Forall2_lookup _ _ _) HF i) as Hi.
      destruct (P !! i) as [q|] eqn:Hq, (vs !! i) as [w|]; inversion Hi; subst; constructor. simpl.
      rewrite lookup_delete_ne; [done|]. intros ->. apply (Hd q); [|set_solver]. by eapply list_elem_of_lookup_2.
  - intros a w. simpl. rewrite lookup_delete_Some, elem_of_snoc. clear -Hd. naive_solver.
Qed.

(** A loop with early exit over a sequence. *)
Fixpoint apply_spec {A} (f : V -> A -> bool * A) (vs : list V) (acc : A) : A :=
  match vs with
  | [] => acc
  | v :: vs => let '(stop, acc) := f v acc in if stop : bool then acc else apply_spec f vs acc
  end.

Lemma wp_apply_from {A} n i step (f : V -> A -> bool * A) stack acc vs s Q :
  length vs = n ->
  (forall j v, vs !! j = Some v -> exists p, blocks s !! p = Some v /\
     forall Q', Q' p s -> wp (cell stack (i + Z.of_nat j * step)) Q' s) ->
  Q (apply_spec f vs acc) s -> wp (apply_from n i step f stack acc) Q s.
Proof.
  revert i acc vs. induction n as [|n IH]; intros i acc vs Hlen Hc HQ; (destruct vs as [|v vs]; [|]); try done;
    simpl in *; [by wp_step|].
  destruct (Hc 0%nat v) as (p & Hp & Hcell); [done|]. wp_step.
  replace (i + Z.of_nat 0 * step) with i in Hcell by lia. apply Hcell. wp_step.
  eapply wp_load_block; [exact Hp|]. destruct (f v acc) as [stop acc1]. destruct stop; [by wp_step|].
  apply (IH _ _ vs); [lia| |done]. intros j w Hj. destruct (Hc (S j) w Hj) as (q & Hq & Hcq).
  exists q. split; [done|]. intros Q' HQ'. replace (i + step + Z.of_nat j * step) with (i + Z.of_nat (S j) * step) by lia.
  by apply Hcq.
Qed.

(** C33: the stack's operations do on the allocated copies what their names say
    on the sequence of values: push appends a fresh copy and returns its index,
    top addresses the last value, del_top frees it, and the two directions of
    apply visit the values top-down or bottom-up until the callback stops. *)
Theorem zend_stack_correct {A} s stack P vs v (f : V -> A -> bool * A) acc :
  stack_rep s stack P vs -> st_max stack < 2 ^ 31 - 128 ->
  wp (zend_stack_push stack v) (fun r s' => r.1 = Z.of_nat (length vs) /\ exists p,
    stack_rep s' r.2 (P ++ [p]) (vs ++ [v]) /\ stack_frame s P s' (P ++ [p]) /\
    wp (zend_stack_top r.2) (fun t s'' => s'' = s' /\ t = (SUCCESS, Some p) /\ blocks s' !! p = Some v) s' /\
    wp (zend_stack_del_top r.2) (fun t s'' => stack_rep s'' t.2 P vs /\ stack_frame s' (P ++ [p]) s'' P) s') s /\
  wp (zend_stack_apply stack ZEND_STACK_APPLY_BOTTOMUP f acc) (fun r s' => s' = s /\ r = apply_spec f vs acc) s /\
  wp (zend_stack_apply stack ZEND_STACK_APPLY_TOPDOWN f acc)
    (fun r s' => s' = s /\ r = apply_spec f (reverse vs) acc) s.
Proof.
  intros HR Hb. pose proof (srep_top _ _ _ _ HR) as Ht. pose proof (srep_vals _ _ _ _ HR) as HF.
  pose proof (Forall2_length _ _ _ HF) as Hlen. split_and!.
  - eapply wp_push; [done..|]. intros s' stack' p HR' Hfr Hmx. split; [simpl; lia|]. exists p. split_and!; [done|done| |].
    + unfold zend_stack_top. simpl. rewrite (srep_top _ _ _ _ HR'), length_app. simpl.
      destruct (Z.ltb_spec 0 (Z.of_nat (length P + 1))); [|lia]. wp_step.
      replace (Z.of_nat (length P + 1) - 1) with (Z.of_nat (length P)) by lia.
      eapply wp_cell; [exact HR'|by apply list_lookup_middle|]. wp_step. split_and!; [done..|].
      pose proof (srep_vals _ _ _ _ HR') as HF'. apply Forall2_app_inv in HF' as [_ HF']; [|done].
      by apply Forall2_cons in HF' as [? _].
    + eapply wp_del_top; [exact HR'|]. intros s'' stack'' HR'' Hfr''. done.
  - unfold zend_stack_apply. rewrite Ht, Nat2Z.id. eapply (wp_apply_from _ _ _ _ _ _ vs); [lia| |done].
    intros j w Hj. destruct (Forall2_lookup_r _ _ _ _ _ HF Hj) as (p & Hp & Hw). exists p. split; [done|].
    intros Q' HQ'. replace (0 + Z.of_nat j * 1) with (Z.of_nat j) by lia. by eapply wp_cell.
  - unfold zend_stack_apply. rewrite Ht, Nat2Z.id. eapply (wp_apply_from _ _ _ _ _ _ (reverse vs)); [rewrite length_reverse; lia| |done].
    intros j w Hj. pose proof (lookup_lt_Some _ _ _ Hj) as Hjl. rewrite length_reverse in Hjl.
    rewrite reverse_lookup in Hj by done. destruct (Forall2_lookup_r _ _ _ _ _ HF Hj) as (p & Hp & Hw).
    exists p. split; [done|]. intros Q' HQ'.
    replace (Z.of_nat (length P) - 1 + Z.of_nat j * -1) with (Z.of_nat (length vs - S j)) by lia. by eapply wp_cell.
Qed.

End ops.

Module StackDemo.

Definition stack : zend_stack := mkStack 2 64 (Some (Some 1%positive :: Some 2%positive :: repeat None 62)).
Definition st : store unit Z := Store ∅ (<[1%positive := 3]> {[2%positive := 4]}) [].

Lemma stack_demo_rep : stack_rep st stack [1%positive; 2%positive] [3; 4].
Proof.
  split; try done.
  - exists (Some 1%positive :: Some 2%positive :: repeat None 62). split_and!; try done. by left.
  - repeat constructor; set_solver.
  - repeat constructor.
Qed.

End StackDemo.

Lemma zend_stack_witness :
  wp (zend_stack_apply StackDemo.stack ZEND_STACK_APPLY_BOTTOMUP (fun v acc => (false, v + 2 * acc)) 0)
    (fun r s' => s' = StackDemo.st /\ r = 10) StackDemo.st.
Proof.
  refine (proj1 (proj2 (zend_stack_correct (AL := bump_allocator) StackDemo.st StackDemo.stack _ _ 7
    (fun v acc => (false, v + 2 * acc)) 0 StackDemo.stack_demo_rep _))). reflexivity.
Defined.
