(* ===== verification/Calendar.v ===== *)
(** * Calendar: serial day numbers and the solar calendars

    Models src/ext/calendar/gregor.c, julian.c, french.c and dow.c: the
    conversions between a serial day number (SDN) and a date.  [int] arithmetic
    is written with its wrap at 32 bits and [long] with its wrap at 64, so that
    the bounds of the theorems are the bounds of the code; [/] and [%] of C
    truncate toward zero. *)
From S2P Require Import Prelude.
From stdpp Require Import base list.
From Stdlib Require Import Lia.
Local Open Scope Z_scope.

Declare Scope c_scope.
Notation "x /c y" := (Z.quot x y) (at level 40, left associativity) : c_scope.
Notation "x %c y" := (Z.rem x y) (at level 40, left associativity) : c_scope.
Local Open Scope c_scope.

(** A date: the values stored through [pYear], [pMonth] and [pDay]. *)
Record date := mkDate { pYear : Z; pMonth : Z; pDay : Z }.

#[global] Instance date_eq_dec : EqDecision date.
Proof. solve_decision. Defined.

Definition no_date : date := mkDate 0 0 0.

(** ** The Gregorian calendar *)

Definition GREGOR_SDN_OFFSET : Z := 32045.
Definition DAYS_PER_5_MONTHS : Z := 153.
Definition DAYS_PER_4_YEARS : Z := 1461.
Definition DAYS_PER_400_YEARS : Z := 146097.

Definition SdnToGregorian (sdn : Z) : date :=
  if (sdn <=? 0) || ((LONG_MAX - 4 * GREGOR_SDN_OFFSET) /c 4 <? sdn) then no_date
  else
    let temp := s64 ((sdn + GREGOR_SDN_OFFSET) * 4 - 1) in
    let century := s32 (temp /c DAYS_PER_400_YEARS) in
    let temp := ((temp %c DAYS_PER_400_YEARS) /c 4) * 4 + 3 in
    let year := s32 (s32 (century * 100) + temp /c DAYS_PER_4_YEARS) in
    let dayOfYear := s32 ((temp %c DAYS_PER_4_YEARS) /c 4 + 1) in
    let temp := s32 (dayOfYear * 5 - 3) in
    let month := s32 (temp /c DAYS_PER_5_MONTHS) in
    let day := s32 ((temp %c DAYS_PER_5_MONTHS) /c 5 + 1) in
    let '(year, month) := if month <? 10 then (year, month + 3) else (s32 (year + 1), month - 9) in
    let year := s32 (year - 4800) in
    let year := if year <=? 0 then s32 (year - 1) else year in
    mkDate year month day.

Definition GregorianToSdn (inputYear inputMonth inputDay : Z) : Z :=
  if (inputYear =? 0) || (inputYear <? -4714) || (inputMonth <=? 0) || (12 <? inputMonth) ||
     (inputDay <=? 0) || (31 <? inputDay) then 0
  else if (inputYear =? -4714) && ((inputMonth <? 11) || (inputMonth =? 11) && (inputDay <? 25)) then 0
  else
    let year := if inputYear <? 0 then s32 (inputYear + 4801) else s32 (inputYear + 4800) in
    let '(month, year) := if 2 <? inputMonth then (inputMonth - 3, year)
                          else (inputMonth + 9, s32 (year - 1)) in
    s32 (s32 (s32 (s32 (s32 ((year /c 100) * DAYS_PER_400_YEARS) /c 4
      + s32 ((year %c 100) * DAYS_PER_4_YEARS) /c 4)
      + s32 (month * DAYS_PER_5_MONTHS + 2) /c 5)
      + inputDay)
      - GREGOR_SDN_OFFSET).

(** ** The Julian calendar *)

Definition JULIAN_SDN_OFFSET : Z := 32083.
Definition INT_MAX : Z := 2 ^ 31 - 1.
Definition INT_MIN : Z := - 2 ^ 31.

Definition SdnToJulian (sdn : Z) : date :=
  if sdn <=? 0 then no_date
  else if ((LONG_MAX - JULIAN_SDN_OFFSET * 4 + 1) /c 4 <? sdn) || (sdn <? LONG_MIN /c 4) then no_date
  else
    let temp := s64 (sdn * 4 + (JULIAN_SDN_OFFSET * 4 - 1)) in
    let yearl := temp /c DAYS_PER_4_YEARS in
    if (INT_MAX <? yearl) || (yearl <? INT_MIN) then no_date
    else
      let year := s32 yearl in
      let dayOfYear := s32 ((temp %c DAYS_PER_4_YEARS) /c 4 + 1) in
      let temp := s32 (dayOfYear * 5 - 3) in
      let month := s32 (temp /c DAYS_PER_5_MONTHS) in
      let day := s32 ((temp %c DAYS_PER_5_MONTHS) /c 5 + 1) in
      let '(year, month) := if month <? 10 then (year, month + 3) else (s32 (year + 1), month - 9) in
      let year := s32 (year - 4800) in
      let year := if year <=? 0 then s32 (year - 1) else year in
      mkDate year month day.

Definition JulianToSdn (inputYear inputMonth inputDay : Z) : Z :=
  if (inputYear =? 0) || (inputYear <? -4713) || (inputMonth <=? 0) || (12 <? inputMonth) ||
     (inputDay <=? 0) || (31 <? inputDay) then 0
  else if (inputYear =? -4713) && ((inputMonth =? 1) && (inputDay =? 1)) then 0
  else
    let year := if inputYear <? 0 then s32 (inputYear + 4801) else s32 (inputYear + 4800) in
    let '(month, year) := if 2 <? inputMonth then (inputMonth - 3, year)
                          else (inputMonth + 9, s32 (year - 1)) in
    s32 (s32 (s32 (s32 (year * DAYS_PER_4_YEARS) /c 4
      + s32 (month * DAYS_PER_5_MONTHS + 2) /c 5)
      + inputDay)
      - JULIAN_SDN_OFFSET).

(** ** The French republican calendar *)

Definition FRENCH_SDN_OFFSET : Z := 2375474.
Definition DAYS_PER_MONTH : Z := 30.
Definition FIRST_VALID : Z := 2375840.
Definition LAST_VALID : Z := 2380952.

Definition SdnToFrench (sdn : Z) : date :=
  if (sdn <? FIRST_VALID) || (LAST_VALID <? sdn) then no_date
  else
    let temp := (sdn - FRENCH_SDN_OFFSET) * 4 - 1 in
    let year := temp /c DAYS_PER_4_YEARS in
    let dayOfYear := (temp %c DAYS_PER_4_YEARS) /c 4 in
    mkDate year (dayOfYear /c DAYS_PER_MONTH + 1) (dayOfYear %c DAYS_PER_MONTH + 1).

Definition FrenchToSdn (year month day : Z) : Z :=
  if (year <? 1) || (14 <? year) || (month <? 1) || (13 <? month) || (day <? 1) || (30 <? day) then 0
  else (year * DAYS_PER_4_YEARS) /c 4 + (month - 1) * DAYS_PER_MONTH + day + FRENCH_SDN_OFFSET.

(** ** The day of the week, Sunday 0 *)

Definition DayOfWeek (sdn : Z) : Z :=
  let dow := s32 (s64 (sdn + 1) %c 7) in
  if 0 <=? dow then dow else dow + 7.

(** ** The calendars by their rules

    A year has no number 0: year -1 is followed by year 1. *)

Definition astronomical (year : Z) : Z := if year <? 0 then year + 1 else year.

Definition gregorian_leap (year : Z) : bool :=
  let a := astronomical year in
  (a mod 4 =? 0) && (negb (a mod 100 =? 0) || (a mod 400 =? 0)).

Definition julian_leap (year : Z) : bool := astronomical year mod 4 =? 0.

Definition month_days (leap : Z -> bool) (year month : Z) : Z :=
  if month =? 2 then (if leap year then 29 else 28)
  else if (month =? 4) || (month =? 6) || (month =? 9) || (month =? 11) then 30 else 31.

Definition next_year (year : Z) : Z := if year =? -1 then 1 else year + 1.

Definition next_day (leap : Z -> bool) (d : date) : date :=
  if pDay d <? month_days leap (pYear d) (pMonth d) then mkDate (pYear d) (pMonth d) (pDay d + 1)
  else if pMonth d <? 12 then mkDate (pYear d) (pMonth d + 1) 1
  else mkDate (next_year (pYear d)) 1 1.

Definition valid_date (leap : Z -> bool) (d : date) : Prop :=
  pYear d <> 0 /\ 1 <= pMonth d <= 12 /\ 1 <= pDay d <= month_days leap (pYear d) (pMonth d).

(** ** Years that begin in March

    The conversions count days from 1 March 4801 B.C.: day [doy] of the year
    that begins in March of year [A], both from 0.  The leap day is the last
    day of such a year. *)

Definition year_label (A : Z) : Z := let y := A - 4800 in if y <=? 0 then y - 1 else y.

Definition civil (A doy : Z) : date :=
  let m := (5 * doy + 2) / 153 in
  let d := ((5 * doy + 2) mod 153) / 5 + 1 in
  if m <? 10 then mkDate (year_label A) (m + 3) d else mkDate (year_label (A + 1)) (m - 9) d.

Definition march_len (leap : Z -> bool) (A : Z) : Z := if leap (year_label (A + 1)) then 366 else 365.

Ltac zcase :=
  repeat match goal with
  | |- context [?a <=? ?b] => destruct (Z.leb_spec a b); try lia
  | |- context [?a <? ?b] => destruct (Z.ltb_spec a b); try lia
  | |- context [?a =? ?b] => destruct (Z.eqb_spec a b); try lia
  end.

Lemma year_label_nonzero A : year_label A <> 0.
Proof. unfold year_label. zcase. Qed.

Lemma astronomical_label A : astronomical (year_label A) = A - 4800.
Proof. unfold astronomical, year_label. zcase. Qed.

Lemma next_year_label A : next_year (year_label A) = year_label (A + 1).
Proof. unfold next_year, year_label. zcase. Qed.

Lemma year_label_inj A B : year_label A = year_label B -> A = B.
Proof. unfold year_label. zcase. Qed.

Lemma march_len_range leap A : 365 <= march_len leap A <= 366.
Proof. unfold march_len. destruct (leap _); lia. Qed.

(** The month and the day of the month by the day of the March year. *)
Lemma month_cases doy :
  0 <= doy <= 365 ->
  exists m, (5 * doy + 2) / 153 = m /\ 0 <= m <= 11 /\ (153 * m + 2) / 5 <= doy < (153 * (m + 1) + 2) / 5 /\
    ((5 * doy + 2) mod 153) / 5 + 1 = doy - (153 * m + 2) / 5 + 1.
Proof. intros H. exists ((5 * doy + 2) / 153). Z.to_euclidean_division_equations. lia. Qed.

Lemma month_enum m : 0 <= m <= 11 ->
  m = 0 \/ m = 1 \/ m = 2 \/ m = 3 \/ m = 4 \/ m = 5 \/ m = 6 \/ m = 7 \/ m = 8 \/ m = 9 \/ m = 10 \/ m = 11.
Proof. lia. Qed.

(** Evaluates the closed arithmetic of a month number. *)
Ltac is_literal v :=
  lazymatch v with Z0 => idtac | Zpos _ => idtac | Zneg _ => idtac | true => idtac | false => idtac end.
Ltac zeval t :=
  let v := eval vm_compute in t in is_literal v; progress (change t with v in * ).
Ltac zground :=
  repeat match goal with
  | |- context [(153 * ?k + 2) / 5] => zeval ((153 * k + 2) / 5)
  | H : context [(153 * ?k + 2) / 5] |- _ => zeval ((153 * k + 2) / 5)
  | |- context [?a <? 10] => zeval (a <? 10)
  | |- context [?a - 9] => zeval (a - 9)
  | |- context [?a + 3] => zeval (a + 3)
  | |- context [?a + 1] => zeval (a + 1)
  | |- context [?a =? ?b] => zeval (a =? b)
  | H : context [?a <? 10] |- _ => zeval (a <? 10)
  | H : context [?a - 9] |- _ => zeval (a - 9)
  | H : context [?a + 3] |- _ => zeval (a + 3)
  | H : context [?a =? ?b] |- _ => zeval (a =? b)
  end; cbn [orb andb negb] in *; cbv iota in *.

(** [(153 * m + 2) / 5] days come before month [m]: months of 31, 30, 31, 30, 31 days. *)
Ltac month_split m Hm :=
  destruct (month_enum m Hm) as [->|[->|[->|[->|[->|[->|[->|[->|[->|[->|[->| ->]]]]]]]]]]];
  zground.

Lemma civil_at A doy m :
  0 <= doy -> 0 <= m <= 11 -> (153 * m + 2) / 5 <= doy < (153 * (m + 1) + 2) / 5 ->
  civil A doy = mkDate (year_label (if m <? 10 then A else A + 1)) (if m <? 10 then m + 3 else m - 9)
    (doy - (153 * m + 2) / 5 + 1).
Proof.
  intros H0 Hm Hd. unfold civil.
  assert ((5 * doy + 2) / 153 = m) as -> by (Z.to_euclidean_division_equations; lia).
  assert (((5 * doy + 2) mod 153) / 5 = doy - (153 * m + 2) / 5) as -> by (Z.to_euclidean_division_equations; lia).
  by destruct (m <? 10).
Qed.

(** The length of month [m] of a March year, the last one apart. *)
Lemma month_days_at leap A m :
  0 <= m <= 10 ->
  month_days leap (year_label (if m <? 10 then A else A + 1)) (if m <? 10 then m + 3 else m - 9)
  = (153 * (m + 1) + 2) / 5 - (153 * m + 2) / 5.
Proof. intros Hm. assert (Hm' : 0 <= m <= 11) by lia. unfold month_days. month_split m Hm'; done || lia. Qed.

Lemma civil_next leap A doy :
  0 <= doy < march_len leap A ->
  next_day leap (civil A doy) = if doy + 1 <? march_len leap A then civil A (doy + 1) else civil (A + 1) 0.
Proof.
  intros Hd. pose proof (march_len_range leap A) as Hr.
  destruct (month_cases doy) as (m & _ & Hm & Hb & _); [lia|].
  rewrite (civil_at A doy m) by lia. unfold next_day; cbn [pYear pMonth pDay].
  destruct (decide (m = 11)) as [->|Hne].
  - unfold march_len, month_days in *. zground.
    destruct (leap _); zcase;
      first [rewrite (civil_at _ _ 11) by (zground; lia) | rewrite (civil_at _ _ 0) by (zground; lia)];
      zground; f_equal; lia.
  - rewrite month_days_at by lia. destruct (Z.ltb_spec (doy + 1) (march_len leap A)) as [_|].
    2: { exfalso. assert (Hm' : 0 <= m <= 11) by lia. month_split m Hm'; lia. }
    destruct (Z.ltb_spec (doy - (153 * m + 2) / 5 + 1) ((153 * (m + 1) + 2) / 5 - (153 * m + 2) / 5)).
    + rewrite (civil_at A (doy + 1) m) by lia. f_equal. lia.
    + assert (Hnx : (153 * (m + 1) + 2) / 5 <= doy + 1 < (153 * (m + 1 + 1) + 2) / 5)
        by (Z.to_euclidean_division_equations; lia).
      rewrite (civil_at A (doy + 1) (m + 1)) by lia. pose proof (next_year_label A) as Hy.
      assert (doy + 1 - (153 * (m + 1) + 2) / 5 + 1 = 1) as -> by lia.
      assert (Hm' : 0 <= m <= 11) by lia. month_split m Hm'; try done; by rewrite Hy.
Qed.

Lemma civil_valid leap A doy :
  0 <= doy < march_len leap A -> valid_date leap (civil A doy).
Proof.
  intros Hd. pose proof (march_len_range leap A) as Hr.
  destruct (month_cases doy) as (m & _ & Hm & Hb & _); [lia|].
  rewrite (civil_at A doy m) by lia. split_and!; cbn [pYear pMonth pDay]; try (zcase; lia).
  - apply year_label_nonzero.
  - destruct (decide (m = 11)) as [->|Hne].
    + unfold march_len, month_days in *. zground. destruct (leap _); lia.
    + rewrite month_days_at; lia.
Qed.

(** The March year and its day of a date. *)
Definition march_year (d : date) : Z :=
  astronomical (pYear d) + 4800 - (if 2 <? pMonth d then 0 else 1).
Definition march_day (d : date) : Z :=
  (153 * (if 2 <? pMonth d then pMonth d - 3 else pMonth d + 9) + 2) / 5 + pDay d - 1.

Lemma label_astronomical y : y <> 0 -> year_label (astronomical y + 4800) = y.
Proof. intros. unfold year_label, astronomical. zcase. Qed.

Lemma civil_march leap d :
  valid_date leap d -> 0 <= march_day d < march_len leap (march_year d) /\ civil (march_year d) (march_day d) = d.
Proof.
  intros (Hy & Hm & Hd). destruct d as [y m dd]. cbn in *.
  set (mm := if 2 <? m then m - 3 else m + 9).
  assert (Hmm : 0 <= mm <= 11) by (unfold mm; zcase).
  assert (Hl : year_label (if mm <? 10 then march_year (mkDate y m dd) else march_year (mkDate y m dd) + 1) = y).
  { unfold march_year, mm. cbn. transitivity (year_label (astronomical y + 4800)); [|by apply label_astronomical]. destruct (Z.ltb_spec 2 m); zcase; f_equal; lia. }
  assert (Hmo : (if mm <? 10 then mm + 3 else mm - 9) = m) by (unfold mm; destruct (Z.ltb_spec 2 m); zcase).
  assert (Hrange : 0 <= march_day (mkDate y m dd) < march_len leap (march_year (mkDate y m dd)) /\
    (153 * mm + 2) / 5 <= march_day (mkDate y m dd) < (153 * (mm + 1) + 2) / 5).
  { unfold march_day; cbn; fold mm. destruct (decide (mm = 11)) as [He|Hne].
    - rewrite He in *. zground. subst m. unfold march_len. rewrite Hl.
      unfold month_days in Hd. zground. destruct (leap y); lia.
    - pose proof (month_days_at leap (march_year (mkDate y m dd)) mm) as Hmd. rewrite Hl, Hmo in Hmd.
      pose proof (march_len_range leap (march_year (mkDate y m dd))). rewrite Hmd in Hd by lia.
      clear -Hmm Hne Hd H. month_split mm Hmm; lia. }
  split; [apply Hrange|]. rewrite (civil_at _ _ mm) by lia. rewrite Hl, Hmo. f_equal.
  unfold march_day; cbn; fold mm. lia.
Qed.

(** ** Serial days of a calendar given by its March years

    [D A] is the number of days before March year [A]. *)
Section march_calendar.
Context (leap : Z -> bool) (D : Z -> Z).
Hypothesis D_step : forall A, 0 <= A -> D (A + 1) = D A + march_len leap A.

Lemma D_mono A B : 0 <= A <= B -> D A <= D B.
Proof.
  intros [HA HAB]. replace B with (A + Z.of_nat (Z.to_nat (B - A))) by lia.
  induction (Z.to_nat (B - A)) as [|n IH]; [rewrite Z.add_0_r; lia|].
  replace (A + Z.of_nat (S n)) with (A + Z.of_nat n + 1) by lia. rewrite D_step by lia.
  pose proof (march_len_range leap (A + Z.of_nat n)). lia.
Qed.

Lemma D_unique A doy B doy' :
  0 <= A -> 0 <= B -> 0 <= doy < march_len leap A -> 0 <= doy' < march_len leap B ->
  D A + doy = D B + doy' -> A = B /\ doy = doy'.
Proof.
  intros HA HB Hd Hd' He. destruct (Z.lt_trichotomy A B) as [Hlt|[->|Hlt]]; [|split; lia|].
  - pose proof (D_mono (A + 1) B). rewrite D_step in H by lia. lia.
  - pose proof (D_mono (B + 1) A). rewrite D_step in H by lia. lia.
Qed.

(** Day [n] of the calendar: what the two conversions agree on. *)
Definition march_date (n : Z) (d : date) : Prop :=
  exists A doy, 0 <= A /\ 0 <= doy < march_len leap A /\ n = D A + doy /\ d = civil A doy.

Lemma march_date_next n d d' : march_date n d -> march_date (n + 1) d' -> d' = next_day leap d.
Proof.
  intros (A & doy & HA & Hd & -> & ->) (B & doy' & HB & Hd' & He & ->). rewrite civil_next by done.
  destruct (Z.ltb_spec (doy + 1) (march_len leap A)).
  - by destruct (D_unique A (doy + 1) B doy') as [-> ->]; [lia..|].
  - pose proof (march_len_range leap (A + 1)).
    pose proof (D_step A HA). by destruct (D_unique (A + 1) 0 B doy') as [-> <-]; [lia..|].
Qed.

Lemma march_date_valid n d : march_date n d -> valid_date leap d.
Proof. intros (A & doy & _ & Hd & _ & ->). by apply civil_valid. Qed.

Lemma march_date_fun n d d' : march_date n d -> march_date n d' -> d = d'.
Proof.
  intros (A & doy & HA & Hd & -> & ->) (B & doy' & HB & Hd' & He & ->).
  by destruct (D_unique A doy B doy') as [-> ->].
Qed.

Lemma march_date_index n d : march_date n d -> n = D (march_year d) + march_day d.
Proof.
  intros (A & doy & HA & Hd & -> & ->). pose proof (march_len_range leap A).
  assert (march_year (civil A doy) = A /\ march_day (civil A doy) = doy) as [-> ->]; [|done].
  destruct (month_cases doy) as (m & _ & Hm & Hb & _); [lia|]. rewrite (civil_at A doy m) by lia.
  unfold march_year, march_day. cbn [pYear pMonth pDay]. rewrite astronomical_label.
  assert ((if 2 <? (if m <? 10 then m + 3 else m - 9) then (if m <? 10 then m + 3 else m - 9) - 3
           else (if m <? 10 then m + 3 else m - 9) + 9) = m) as ->.
  { destruct (Z.ltb_spec m 10); zcase. }
  destruct (Z.ltb_spec m 10); zcase; lia.
Qed.

Lemma march_date_of d :
  valid_date leap d -> 0 <= march_year d -> march_date (D (march_year d) + march_day d) d.
Proof.
  intros Hv HA. destruct (civil_march leap d Hv) as [Hr Hc]. exists (march_year d), (march_day d). split_and!; try done; lia.
Qed.

End march_calendar.

(** ** The Gregorian conversions *)

Definition gregorian_days (A : Z) : Z := (146097 * (A / 100)) / 4 + (1461 * (A mod 100)) / 4.

Lemma gregorian_leap_label A :
  gregorian_leap (year_label A) = (A mod 4 =? 0) && (negb (A mod 100 =? 0) || (A mod 400 =? 0)).
Proof.
  unfold gregorian_leap. rewrite astronomical_label.
  assert ((A - 4800) mod 4 = A mod 4 /\ (A - 4800) mod 100 = A mod 100 /\ (A - 4800) mod 400 = A mod 400)
    as (-> & -> & ->); [|done].
  split_and!; Z.to_euclidean_division_equations; lia.
Qed.

Lemma gregorian_days_step A : 0 <= A -> gregorian_days (A + 1) = gregorian_days A + march_len gregorian_leap A.
Proof.
  intros HA. unfold gregorian_days, march_len. rewrite gregorian_leap_label.
  destruct (Z.eqb_spec ((A + 1) mod 4) 0), (Z.eqb_spec ((A + 1) mod 100) 0), (Z.eqb_spec ((A + 1) mod 400) 0);
    cbn; Z.to_euclidean_division_equations; lia.
Qed.

Ltac small32 := rewrite (wrap_s_small 32) by (cbn; lia).

Lemma quot_pos a b : 0 <= a -> 0 < b -> a /c b = a / b.
Proof. intros. by apply Z.quot_div_nonneg. Qed.

Lemma rem_pos a b : 0 <= a -> 0 < b -> a %c b = a mod b.
Proof. intros. by apply Z.rem_mod_nonneg. Qed.

(** The tail of both conversions: from the March year and its day to the date. *)
Lemma civil_tail year doy :
  0 <= year < 2 ^ 31 - 1 -> 0 <= doy <= 365 ->
  (let dayOfYear := s32 (doy + 1) in
   let temp := s32 (dayOfYear * 5 - 3) in
   let month := s32 (temp /c DAYS_PER_5_MONTHS) in
   let day := s32 ((temp %c DAYS_PER_5_MONTHS) /c 5 + 1) in
   let '(year, month) := if month <? 10 then (year, month + 3) else (s32 (year + 1), month - 9) in
   let year := s32 (year - 4800) in
   let year := if year <=? 0 then s32 (year - 1) else year in
   mkDate year month day) = civil year doy.
Proof.
  intros Hy Hd. unfold DAYS_PER_5_MONTHS. cbv zeta.
  rewrite (wrap_s_small 32 (doy + 1)) by lia. rewrite (wrap_s_small 32 ((doy + 1) * 5 - 3)) by lia.
  rewrite (quot_pos _ 153), (rem_pos _ 153) by lia.
  replace ((doy + 1) * 5 - 3) with (5 * doy + 2) by lia.
  pose proof (Z.mod_pos_bound (5 * doy + 2) 153) as Hm.
  rewrite quot_pos by lia.
  destruct (month_cases doy Hd) as (m & Hmq & Hmr & Hb & Hday). rewrite Hmq, Hday.
  rewrite (wrap_s_small 32 m) by lia.
  rewrite (wrap_s_small 32 (doy - _ + 1)) by (Z.to_euclidean_division_equations; lia).
  unfold civil. rewrite Hmq, Hday. unfold year_label.
  destruct (Z.ltb_spec m 10).
  - rewrite (wrap_s_small 32 (year - 4800)) by lia.
    destruct (Z.leb_spec (year - 4800) 0); [|done]. by rewrite (wrap_s_small 32) by lia.
  - rewrite (wrap_s_small 32 (year + 1)) by lia. rewrite (wrap_s_small 32 (year + 1 - 4800)) by lia.
    destruct (Z.leb_spec (year + 1 - 4800) 0); [|done]. by rewrite (wrap_s_small 32) by lia.
Qed.

(** The days of a century count, and those of a March year within it. *)
Lemma gregorian_split n :
  0 <= n ->
  let c := (4 * n + 3) / 146097 in
  let t := ((4 * n + 3) mod 146097) / 4 * 4 + 3 in
  0 <= t / 1461 < 100 /\
  0 <= (t mod 1461) / 4 < march_len gregorian_leap (c * 100 + t / 1461) /\
  n = gregorian_days (c * 100 + t / 1461) + (t mod 1461) / 4.
Proof.
  intros Hn c t.
  assert (Hy : 0 <= t / 1461 < 100) by (unfold t; Z.to_euclidean_division_equations; lia).
  assert (Hdiv : (c * 100 + t / 1461) / 100 = c) by (Z.to_euclidean_division_equations; lia).
  assert (Hmod : (c * 100 + t / 1461) mod 100 = t / 1461) by (Z.to_euclidean_division_equations; lia).
  split; [done|]. split.
  - unfold march_len. rewrite gregorian_leap_label. set (y := t / 1461) in *.
    destruct (decide ((t mod 1461) / 4 = 365)) as [H365|].
    + assert (y mod 4 = 3) by (unfold y; Z.to_euclidean_division_equations; lia).
      assert (y = 99 -> c mod 4 = 3) by (unfold y, t, c in *; Z.to_euclidean_division_equations; lia).
      destruct (Z.eqb_spec ((c * 100 + y + 1) mod 4) 0), (Z.eqb_spec ((c * 100 + y + 1) mod 100) 0),
        (Z.eqb_spec ((c * 100 + y + 1) mod 400) 0); cbn; try (Z.to_euclidean_division_equations; lia).
    + destruct (_ && _); Z.to_euclidean_division_equations; lia.
  - unfold gregorian_days. rewrite Hdiv, Hmod. unfold t, c. Z.to_euclidean_division_equations; lia.
Qed.

Lemma SdnToGregorian_date sdn :
  0 < sdn < 2 ^ 39 -> march_date gregorian_leap gregorian_days (sdn + 32044) (SdnToGregorian sdn).
Proof.
  intros Hs. destruct (gregorian_split (sdn + 32044)) as (Hy & Hd & Hn); [lia|].
  set (n := sdn + 32044) in *. set (c := (4 * n + 3) / 146097) in *.
  set (t := ((4 * n + 3) mod 146097) / 4 * 4 + 3) in *.
  assert (Hc : 0 <= c < 2 ^ 24) by (unfold c, n; Z.to_euclidean_division_equations; lia).
  exists (c * 100 + t / 1461), ((t mod 1461) / 4). split_and!; [lia|lia|lia|done|].
  pose proof (march_len_range gregorian_leap (c * 100 + t / 1461)).
  rewrite <- civil_tail by lia.
  unfold SdnToGregorian, GREGOR_SDN_OFFSET, DAYS_PER_400_YEARS, DAYS_PER_4_YEARS, LONG_MAX.
  destruct (Z.leb_spec sdn 0); [lia|]. rewrite (quot_pos (2 ^ 63 - 1 - 4 * 32045)) by lia.
  destruct (Z.ltb_spec ((2 ^ 63 - 1 - 4 * 32045) / 4) sdn) as [Hbad|_];
    [exfalso; Z.to_euclidean_division_equations; lia|]. cbn [orb]. cbv zeta.
  rewrite (wrap_s_small 64) by lia.
  replace ((sdn + 32045) * 4 - 1) with (4 * n + 3) by (unfold n; lia).
  pose proof (Z.mod_pos_bound (4 * n + 3) 146097) as Hm.
  rewrite (quot_pos (4 * n + 3)), (rem_pos (4 * n + 3)) by lia. rewrite (quot_pos ((4 * n + 3) mod 146097)) by lia.
  fold c t. assert (0 <= t) by (unfold t; Z.to_euclidean_division_equations; lia).
  rewrite (quot_pos t), (rem_pos t) by lia. pose proof (Z.mod_pos_bound t 1461) as Hm'.
  rewrite (quot_pos (t mod 1461)) by lia. rewrite (wrap_s_small 32 c) by lia.
  rewrite (wrap_s_small 32 (c * 100)) by lia. rewrite (wrap_s_small 32 (c * 100 + t / 1461)) by lia. done.
Qed.

(** [d] is on or after [d0]. *)
Definition from_date (d0 d : date) : Prop :=
  pYear d0 < pYear d \/
  pYear d = pYear d0 /\ (pMonth d0 < pMonth d \/ pMonth d = pMonth d0 /\ pDay d0 <= pDay d).

Lemma month_days_range leap y m : 28 <= month_days leap y m <= 31.
Proof. unfold month_days. destruct (leap y); zcase; cbn [orb]; lia. Qed.

(** The first steps of both conversions to a day number, for a date they accept. *)
Lemma march_of_date (d : date) :
  -4714 <= pYear d < 2 ^ 31 - 4801 -> pYear d <> 0 -> 1 <= pMonth d <= 12 ->
  (let year := if pYear d <? 0 then s32 (pYear d + 4801) else s32 (pYear d + 4800) in
   if 2 <? pMonth d then (pMonth d - 3, year) else (pMonth d + 9, s32 (year - 1)))
  = (if 2 <? pMonth d then pMonth d - 3 else pMonth d + 9, march_year d) /\
  0 <= march_year d <= Z.max 4800 (pYear d + 4800).
Proof.
  intros Hy Hy0 Hm. unfold march_year, astronomical.
  destruct (Z.ltb_spec (pYear d) 0), (Z.ltb_spec 2 (pMonth d)); cbv zeta;
    rewrite ?(wrap_s_small 32 (_ + _)) by lia; rewrite ?(wrap_s_small 32 (_ - 1)) by lia;
    (split; [f_equal|]; lia).
Qed.

Lemma GregorianToSdn_index d :
  valid_date gregorian_leap d -> from_date (mkDate (-4714) 11 25) d -> pYear d < 1465200 ->
  GregorianToSdn (pYear d) (pMonth d) (pDay d) = gregorian_days (march_year d) + march_day d - 32044.
Proof.
  intros (Hy & Hm & Hd) Hfr Hb. pose proof (month_days_range gregorian_leap (pYear d) (pMonth d)).
  unfold from_date in Hfr. cbn [pYear pMonth pDay] in Hfr. unfold GregorianToSdn.
  replace (_ || _) with false by (zcase; done). replace (_ && _) with false by (zcase; done).
  destruct (march_of_date d) as [Hmy HA]; [lia..|]. cbv zeta in Hmy |- *. rewrite Hmy.
  set (mm := if 2 <? pMonth d then _ else _). assert (0 <= mm <= 11) by (unfold mm; zcase).
  unfold march_day; fold mm. set (A := march_year d) in *. clearbody A mm.
  unfold gregorian_days, DAYS_PER_400_YEARS, DAYS_PER_4_YEARS, DAYS_PER_5_MONTHS, GREGOR_SDN_OFFSET.
  assert (0 <= A / 100 < 14700 /\ 0 <= A mod 100 < 100) as [Hc Hr] by (Z.to_euclidean_division_equations; lia).
  rewrite (quot_pos A), (rem_pos A) by lia. set (c := A / 100) in *. set (r := A mod 100) in *. clearbody c r.
  rewrite (wrap_s_small 32 (c * _)), (wrap_s_small 32 (r * _)), (wrap_s_small 32 (mm * _ + _)) by lia.
  rewrite (quot_pos (c * _)), (quot_pos (r * _)), (quot_pos (mm * _ + _)) by lia.
  replace (c * 146097) with (146097 * c) by lia. replace (r * 1461) with (1461 * r) by lia.
  replace (mm * 153) with (153 * mm) by lia.
  assert (0 <= 146097 * c / 4 < 2 ^ 30 /\ 0 <= 1461 * r / 4 < 2 ^ 20 /\ 0 <= (153 * mm + 2) / 5 < 2 ^ 20)
    by (Z.to_euclidean_division_equations; lia).
  rewrite (wrap_s_small 32 (_ / 4 + _ / 4)) by lia. rewrite (wrap_s_small 32 (_ + _ / 5)) by lia.
  rewrite (wrap_s_small 32 (_ + pDay d)) by lia. rewrite (wrap_s_small 32) by lia. lia.
Qed.

(** ** The Julian conversions *)

Definition julian_days (A : Z) : Z := (1461 * A) / 4.

Lemma julian_leap_label A : julian_leap (year_label A) = (A mod 4 =? 0).
Proof.
  unfold julian_leap. rewrite astronomical_label. f_equal. Z.to_euclidean_division_equations; lia.
Qed.

Lemma julian_days_step A : 0 <= A -> julian_days (A + 1) = julian_days A + march_len julian_leap A.
Proof.
  intros HA. unfold julian_days, march_len. rewrite julian_leap_label.
  destruct (Z.eqb_spec ((A + 1) mod 4) 0); Z.to_euclidean_division_equations; lia.
Qed.

Lemma long_quarter_max : (2 ^ 63 - 1 - 32083 * 4 + 1) /c 4 = 2305843009213661869.
Proof. vm_compute. reflexivity. Qed.

Lemma long_quarter_min : (- 2 ^ 63) /c 4 = - 2 ^ 61.
Proof. vm_compute. reflexivity. Qed.

Lemma SdnToJulian_date sdn :
  0 < sdn < 2 ^ 39 -> march_date julian_leap julian_days (sdn + 32082) (SdnToJulian sdn).
Proof.
  intros Hs. set (n := sdn + 32082). set (y := (4 * n + 3) / 1461). set (doy := ((4 * n + 3) mod 1461) / 4).
  assert (Hy : 0 <= y < 2 ^ 31 - 1) by (unfold y, n; Z.to_euclidean_division_equations; lia).
  assert (Hd : 0 <= doy < march_len julian_leap y).
  { unfold march_len. rewrite julian_leap_label. destruct (Z.eqb_spec ((y + 1) mod 4) 0);
      unfold y, doy in *; Z.to_euclidean_division_equations; lia. }
  exists y, doy. pose proof (march_len_range julian_leap y). split_and!; [lia|lia|lia| |].
  { unfold julian_days, y, doy. Z.to_euclidean_division_equations; lia. }
  rewrite <- civil_tail by lia.
  unfold SdnToJulian, JULIAN_SDN_OFFSET, DAYS_PER_4_YEARS, LONG_MAX, LONG_MIN, INT_MAX, INT_MIN.
  destruct (Z.leb_spec sdn 0); [lia|].
  rewrite long_quarter_max, long_quarter_min. replace ((_ <? sdn) || _) with false by (zcase; done).
  cbv zeta. rewrite (wrap_s_small 64) by lia.
  replace (sdn * 4 + (32083 * 4 - 1)) with (4 * n + 3) by (unfold n; lia).
  pose proof (Z.mod_pos_bound (4 * n + 3) 1461) as Hm.
  rewrite (quot_pos (4 * n + 3)), (rem_pos (4 * n + 3)) by lia. rewrite (quot_pos ((4 * n + 3) mod 1461)) by lia.
  fold y doy. replace ((_ <? y) || (y <? _)) with false by (zcase; done).
  rewrite (wrap_s_small 32 y) by lia. done.
Qed.

Lemma JulianToSdn_index d :
  valid_date julian_leap d -> from_date (mkDate (-4713) 1 2) d -> pYear d < 1465073 ->
  JulianToSdn (pYear d) (pMonth d) (pDay d) = julian_days (march_year d) + march_day d - 32082.
Proof.
  intros (Hy & Hm & Hd) Hfr Hb. pose proof (month_days_range julian_leap (pYear d) (pMonth d)).
  unfold from_date in Hfr. cbn [pYear pMonth pDay] in Hfr. unfold JulianToSdn.
  replace (_ || _) with false by (zcase; done). replace (_ && _) with false by (zcase; done).
  destruct (march_of_date d) as [Hmy HA]; [lia..|]. cbv zeta in Hmy |- *. rewrite Hmy.
  set (mm := if 2 <? pMonth d then _ else _). assert (0 <= mm <= 11) by (unfold mm; zcase).
  unfold march_day; fold mm. 
  set (A := march_year d) in *. clearbody A mm.
  unfold julian_days, DAYS_PER_4_YEARS, DAYS_PER_5_MONTHS, JULIAN_SDN_OFFSET.
  rewrite (wrap_s_small 32 (A * _)), (wrap_s_small 32 (mm * _ + _)) by lia.
  rewrite (quot_pos (A * _)), (quot_pos (mm * _ + _)) by lia.
  replace (A * 1461) with (1461 * A) by lia. replace (mm * 153) with (153 * mm) by lia.
  assert (0 <= 1461 * A / 4 < 2 ^ 30 /\ 0 <= (153 * mm + 2) / 5 < 2 ^ 20)
    by (Z.to_euclidean_division_equations; lia).
  rewrite (wrap_s_small 32 (_ / 4 + _ / 5)) by lia.
  rewrite (wrap_s_small 32 (_ + pDay d)) by lia. rewrite (wrap_s_small 32) by lia. lia.
Qed.

(** ** The order of dates and of day numbers *)

Lemma from_first_gregorian n d :
  march_date gregorian_leap gregorian_days n d -> 32045 <= n -> from_date (mkDate (-4714) 11 25) d.
Proof.
  intros (A & doy & HA & Hd & -> & ->) Hn. pose proof (march_len_range gregorian_leap A) as Hr.
  assert (HA87 : 88 <= A \/ A = 87 /\ 269 <= doy).
  { unfold gregorian_days in Hn. Z.to_euclidean_division_equations; lia. }
  destruct (month_cases doy) as (m & _ & Hm & Hb & _); [lia|]. rewrite (civil_at A doy m) by lia.
  unfold from_date, year_label; cbn [pYear pMonth pDay]. destruct HA87 as [H88|[-> H269]].
  - left. destruct (m <? 10); zcase.
  - month_split m Hm; zcase; lia.
Qed.

Lemma from_first_julian n d :
  march_date julian_leap julian_days n d -> 32083 <= n -> from_date (mkDate (-4713) 1 2) d.
Proof.
  intros (A & doy & HA & Hd & -> & ->) Hn. pose proof (march_len_range julian_leap A) as Hr.
  assert (HA87 : 88 <= A \/ A = 87 /\ 307 <= doy).
  { unfold julian_days in Hn. Z.to_euclidean_division_equations; lia. }
  destruct (month_cases doy) as (m & _ & Hm & Hb & _); [lia|]. rewrite (civil_at A doy m) by lia.
  unfold from_date, year_label; cbn [pYear pMonth pDay]. destruct HA87 as [H88|[-> H307]].
  - month_split m Hm; zcase; lia.
  - month_split m Hm; zcase; lia.
Qed.

(** A date not before SDN 1 has a positive SDN. *)
Lemma first_gregorian_index d :
  valid_date gregorian_leap d -> from_date (mkDate (-4714) 11 25) d -> pYear d < 1465200 ->
  0 <= march_year d /\ 32045 <= gregorian_days (march_year d) + march_day d /\
  gregorian_days (march_year d) + march_day d < 2 ^ 38.
Proof.
  intros (Hy & Hm & Hd) Hf Hb. pose proof (month_days_range gregorian_leap (pYear d) (pMonth d)).
  unfold from_date, march_year, march_day, gregorian_days, astronomical in *. cbn [pYear pMonth pDay] in *.
  destruct (Z.ltb_spec (pYear d) 0), (Z.ltb_spec 2 (pMonth d)); split_and!; try lia;
    Z.to_euclidean_division_equations; lia.
Qed.

Lemma first_julian_index d :
  valid_date julian_leap d -> from_date (mkDate (-4713) 1 2) d -> pYear d < 1465073 ->
  0 <= march_year d /\ 32083 <= julian_days (march_year d) + march_day d /\
  julian_days (march_year d) + march_day d < 2 ^ 38.
Proof.
  intros (Hy & Hm & Hd) Hf Hb. pose proof (month_days_range julian_leap (pYear d) (pMonth d)).
  unfold from_date, march_year, march_day, julian_days, astronomical in *. cbn [pYear pMonth pDay] in *.
  destruct (Z.ltb_spec (pYear d) 0), (Z.ltb_spec 2 (pMonth d)); split_and!; try lia;
    Z.to_euclidean_division_equations; lia.
Qed.

(** The year of a date by its March year. *)
Lemma march_year_bound leap D n d L :
  (forall A, 0 <= A -> D (A + 1) = D A + march_len leap A) ->
  march_date leap D n d -> 4800 <= L -> n < D L + 306 -> pYear d <= L - 4800.
Proof.
  intros HD (A & doy & HA & Hd & -> & ->) HL Hn. pose proof (march_len_range leap A) as Hr.
  assert (A <= L) by (destruct (Z.le_gt_cases A L) as [|Hgt]; [done|];
    pose proof (D_mono leap D HD (L + 1) A); rewrite (HD L) in H by lia;
    pose proof (march_len_range leap L); lia).
  destruct (month_cases doy) as (m & _ & Hm & Hb & _); [lia|]. rewrite (civil_at A doy m) by lia.
  unfold year_label; cbn [pYear].
  assert (m < 10 \/ A < L) as [Hc|Hc].
  { destruct (decide (A < L)); [by right|]. left. assert (A = L) as -> by lia.
    month_split m Hm; lia. }
  - destruct (Z.ltb_spec m 10); zcase.
  - destruct (Z.ltb_spec m 10); zcase.
Qed.

(** Succession of the days. *)
Lemma SdnToGregorian_calendar sdn :
  0 < sdn < 2 ^ 39 - 1 ->
  SdnToGregorian 1 = mkDate (-4714) 11 25 /\
  valid_date gregorian_leap (SdnToGregorian sdn) /\
  SdnToGregorian (sdn + 1) = next_day gregorian_leap (SdnToGregorian sdn).
Proof.
  intros Hs. split_and!; [by vm_compute| |].
  - eapply march_date_valid, SdnToGregorian_date. lia.
  - eapply (march_date_next _ _ gregorian_days_step); [apply SdnToGregorian_date; lia|].
    replace (sdn + 32044 + 1) with (sdn + 1 + 32044) by lia. apply SdnToGregorian_date. lia.
Qed.

(** From an SDN to its date and back, and from a date to its SDN and back. *)
Lemma gregorian_roundtrip sdn d :
  0 < sdn <= 536874370 ->
  valid_date gregorian_leap d -> from_date (mkDate (-4714) 11 25) d -> pYear d < 1465200 ->
  (let g := SdnToGregorian sdn in GregorianToSdn (pYear g) (pMonth g) (pDay g) = sdn) /\
  SdnToGregorian (GregorianToSdn (pYear d) (pMonth d) (pDay d)) = d.
Proof.
  intros Hs Hv Hf Hy. split.
  - pose proof (SdnToGregorian_date sdn ltac:(lia)) as Hm. cbv zeta.
    rewrite GregorianToSdn_index.
    + rewrite <- (march_date_index _ _ _ _ Hm). lia.
    + by eapply march_date_valid.
    + eapply from_first_gregorian; [done|lia].
    + apply (march_year_bound _ _ _ _ 1469999 gregorian_days_step) in Hm; [lia|lia|].
      assert (gregorian_days 1469999 = 536906109) as -> by (vm_compute; reflexivity). lia.
  - rewrite GregorianToSdn_index by done. destruct (first_gregorian_index d) as (HA & Hlo & Hhi); [done..|].
    eapply (march_date_fun _ _ gregorian_days_step); [|by apply march_date_of].
    replace (gregorian_days _ + _) with (gregorian_days (march_year d) + march_day d - 32044 + 32044) at 1 by lia.
    apply SdnToGregorian_date. lia.
Qed.

(** C34: Gregorian calendar: SDN 1 is 25 November 4714 B.C.; every SDN has a valid
    date; the date of the next SDN is the next day by the calendar's rules (the
    lengths of the months, leap years by 4, 100 and 400, no year 0); and from an SDN
    to its date and back, and from a valid date not before SDN 1 to its SDN and back,
    are the identity as long as the [int] arithmetic of [GregorianToSdn] does not
    overflow. *)
Theorem gregorian_correct n sdn d :
  0 < n < 2 ^ 39 - 1 -> 0 < sdn <= 536874370 ->
  valid_date gregorian_leap d -> from_date (mkDate (-4714) 11 25) d -> pYear d < 1465200 ->
  SdnToGregorian 1 = mkDate (-4714) 11 25 /\
  valid_date gregorian_leap (SdnToGregorian n) /\
  SdnToGregorian (n + 1) = next_day gregorian_leap (SdnToGregorian n) /\
  (let g := SdnToGregorian sdn in GregorianToSdn (pYear g) (pMonth g) (pDay g) = sdn) /\
  SdnToGregorian (GregorianToSdn (pYear d) (pMonth d) (pDay d)) = d.
Proof.
  intros Hn Hs Hv Hf Hy. destruct (SdnToGregorian_calendar n Hn) as (H1 & H2 & H3).
  destruct (gregorian_roundtrip sdn d Hs Hv Hf Hy) as [H4 H5]. done.
Qed.

Lemma gregorian_correct_witness :
  SdnToGregorian (2451604 + 1) = next_day gregorian_leap (SdnToGregorian 2451604) /\
  SdnToGregorian (GregorianToSdn (-1) 12 31) = mkDate (-1) 12 31.
Proof.
  destruct (gregorian_correct 2451604 2299161 (mkDate (-1) 12 31)) as (_ & _ & Hnext & _ & Hback).
  - split; reflexivity.
  - split; [reflexivity|discriminate].
  - split_and!; vm_compute; discriminate.
  - left. reflexivity.
  - reflexivity.
  - split; [exact Hnext|exact Hback].
Defined.

(** Julian calendar: SDN 1 is 2 January 4713 B.C., every SDN has a valid
    date, the date of the next SDN is the next day by the calendar's rules, and
    the two conversions are inverse to each other. *)
Theorem julian_correct sdn d :
  0 < sdn <= 536838971 ->
  valid_date julian_leap d -> from_date (mkDate (-4713) 1 2) d -> pYear d < 1465073 ->
  SdnToJulian 1 = mkDate (-4713) 1 2 /\
  valid_date julian_leap (SdnToJulian sdn) /\
  SdnToJulian (sdn + 1) = next_day julian_leap (SdnToJulian sdn) /\
  (let j := SdnToJulian sdn in JulianToSdn (pYear j) (pMonth j) (pDay j) = sdn) /\
  SdnToJulian (JulianToSdn (pYear d) (pMonth d) (pDay d)) = d.
Proof.
  intros Hs Hv Hf Hy. pose proof (SdnToJulian_date sdn ltac:(lia)) as Hm.
  assert (Hvs : valid_date julian_leap (SdnToJulian sdn)) by by eapply march_date_valid.
  split_and!; [by vm_compute|done| | |].
  - eapply (march_date_next _ _ julian_days_step); [exact Hm|].
    replace (sdn + 32082 + 1) with (sdn + 1 + 32082) by lia. apply SdnToJulian_date. lia.
  - cbv zeta. rewrite JulianToSdn_index.
    + rewrite <- (march_date_index _ _ _ _ Hm). lia.
    + done.
    + eapply from_first_julian; [done|lia].
    + apply (march_year_bound _ _ _ _ 1469872 julian_days_step) in Hm; [lia|lia|].
      assert (julian_days 1469872 = 536870748) as -> by (vm_compute; reflexivity). lia.
  - rewrite JulianToSdn_index by done. destruct (first_julian_index d) as (HA & Hlo & Hhi); [done..|].
    eapply (march_date_fun _ _ julian_days_step); [|by apply march_date_of].
    replace (julian_days _ + _) with (julian_days (march_year d) + march_day d - 32082 + 32082) at 1 by lia.
    apply SdnToJulian_date. lia.
Qed.

Lemma julian_correct_witness :
  SdnToJulian (1721424 + 1) = next_day julian_leap (SdnToJulian 1721424) /\
  SdnToJulian (JulianToSdn 1582 10 4) = mkDate 1582 10 4.
Proof.
  refine (let H := julian_correct 1721424 (mkDate 1582 10 4) _ _ _ _ in
          conj (proj1 (proj2 (proj2 H))) (proj2 (proj2 (proj2 (proj2 H))))).
  - split; [reflexivity|discriminate].
  - split_and!; vm_compute; discriminate.
  - left. reflexivity.
  - reflexivity.
Defined.

(** French republican calendar: on the days from 1 Vendemiaire I to the last
    day of year XIV the two conversions are inverse to each other, and no SDN
    outside that range has a date. *)
Theorem french_roundtrip sdn :
  let d := SdnToFrench sdn in
  if (FIRST_VALID <=? sdn) && (sdn <=? LAST_VALID)
  then FrenchToSdn (pYear d) (pMonth d) (pDay d) = sdn /\
       1 <= pYear d <= 14 /\ 1 <= pMonth d <= 13 /\
       1 <= pDay d <= (if pMonth d =? 13 then if pYear d mod 4 =? 3 then 6 else 5 else 30)
  else d = no_date.
Proof.
  unfold SdnToFrench. destruct (Z.leb_spec FIRST_VALID sdn) as [H1|H1], (Z.leb_spec sdn LAST_VALID) as [H2|H2];
    cbn [andb]; destruct (Z.ltb_spec sdn FIRST_VALID), (Z.ltb_spec LAST_VALID sdn); try lia; try done.
  cbn [orb]. cbv zeta. cbn [pYear pMonth pDay].
  unfold FIRST_VALID, LAST_VALID, FRENCH_SDN_OFFSET, DAYS_PER_4_YEARS, DAYS_PER_MONTH in *.
  set (t := (sdn - 2375474) * 4 - 1). assert (1463 <= t <= 21911) by (unfold t; lia).
  rewrite (quot_pos t), (rem_pos t) by lia. pose proof (Z.mod_pos_bound t 1461).
  rewrite (quot_pos (t mod 1461)) by lia. set (y := t / 1461). set (doy := (t mod 1461) / 4).
  assert (Hy : 1 <= y <= 14) by (unfold y; Z.to_euclidean_division_equations; lia).
  assert (Hd : 0 <= doy <= 365) by (unfold doy; Z.to_euclidean_division_equations; lia).
  assert (Hl : y mod 4 <> 3 -> doy <= 364) by (unfold y, doy; Z.to_euclidean_division_equations; lia).
  assert (Hsum : sdn = 1461 * y / 4 + doy + 1 + 2375474) by (unfold y, doy, t; Z.to_euclidean_division_equations; lia).
  rewrite (quot_pos doy), (rem_pos doy) by lia.
  assert (Hmm : 0 <= doy / 30 <= 12) by (Z.to_euclidean_division_equations; lia).
  pose proof (Z.mod_pos_bound doy 30). pose proof (Z.div_mod doy 30).
  split_and!; [|lia..|].
  - unfold FrenchToSdn, DAYS_PER_4_YEARS, DAYS_PER_MONTH, FRENCH_SDN_OFFSET.
    replace (_ || _) with false by (zcase; done). rewrite quot_pos by lia.
    replace (y * 1461) with (1461 * y) by lia. lia.
  - destruct (Z.eqb_spec (doy / 30 + 1) 13), (Z.eqb_spec (y mod 4) 3); lia.
Qed.
