(* ===== verification/Jewish.v ===== *)
(** * Jewish: the Jewish calendar

    Models src/ext/calendar/jewish.c: the molad arithmetic, the four rules that
    fix the first day of the year, and the two conversions.  A read outside an
    array and a loop that outruns its bound give [None]. *)
From S2P Require Import Prelude Calendar.
From stdpp Require Import base list option.
From Stdlib Require Import Lia.
Local Open Scope Z_scope.
Local Open Scope c_scope.

Definition HALAKIM_PER_HOUR : Z := 1080.
Definition HALAKIM_PER_DAY : Z := 25920.
Definition HALAKIM_PER_LUNAR_CYCLE : Z := 29 * HALAKIM_PER_DAY + 13753.
Definition HALAKIM_PER_METONIC_CYCLE : Z := HALAKIM_PER_LUNAR_CYCLE * (12 * 19 + 7).

Definition JEWISH_SDN_OFFSET : Z := 347997.
Definition JEWISH_SDN_MAX : Z := 324542846.
Definition NEW_MOON_OF_CREATION : Z := 31524.

Definition SUNDAY : Z := 0.
Definition MONDAY : Z := 1.
Definition TUESDAY : Z := 2.
Definition WEDNESDAY : Z := 3.
Definition FRIDAY : Z := 5.

Definition NOON : Z := 18 * HALAKIM_PER_HOUR.
Definition AM3_11_20 : Z := 9 * HALAKIM_PER_HOUR + 204.
Definition AM9_32_43 : Z := 15 * HALAKIM_PER_HOUR + 589.

Definition monthsPerYear : list Z :=
  [12; 12; 13; 12; 12; 13; 12; 13; 12; 12; 13; 12; 12; 13; 12; 12; 13; 12; 13].

Definition yearOffset : list Z :=
  [0; 12; 24; 37; 49; 61; 74; 86; 99; 111; 123; 136; 148; 160; 173; 185; 197; 210; 222].

Definition Tishri1 (metonicYear moladDay moladHalakim : Z) : Z :=
  let tishri1 := moladDay in
  let dow := s32 (tishri1 %c 7) in
  let leapYear := (metonicYear =? 2) || (metonicYear =? 5) || (metonicYear =? 7)
    || (metonicYear =? 10) || (metonicYear =? 13) || (metonicYear =? 16)
    || (metonicYear =? 18) in
  let lastWasLeapYear := (metonicYear =? 3) || (metonicYear =? 6)
    || (metonicYear =? 8) || (metonicYear =? 11) || (metonicYear =? 14)
    || (metonicYear =? 17) || (metonicYear =? 0) in
  let '(tishri1, dow) :=
    if (NOON <=? moladHalakim) ||
       (negb leapYear && (dow =? TUESDAY) && (AM3_11_20 <=? moladHalakim)) ||
       (lastWasLeapYear && (dow =? MONDAY) && (AM9_32_43 <=? moladHalakim))
    then (s64 (tishri1 + 1), if dow + 1 =? 7 then 0 else dow + 1)
    else (tishri1, dow) in
  if (dow =? WEDNESDAY) || (dow =? FRIDAY) || (dow =? SUNDAY) then s64 (tishri1 + 1)
  else tishri1.

Definition MoladOfMetonicCycle (metonicCycle : Z) : Z * Z :=
  let r1 := NEW_MOON_OF_CREATION in
  let r1 := u64 (r1 + s32 (metonicCycle * Z.land HALAKIM_PER_METONIC_CYCLE 65535)) in
  let r2 := Z.shiftr r1 16 in
  let r2 := u64 (r2 + s32 (metonicCycle * Z.land (Z.shiftr HALAKIM_PER_METONIC_CYCLE 16) 65535)) in
  let d2 := r2 / HALAKIM_PER_DAY in
  let r2 := u64 (r2 - d2 * HALAKIM_PER_DAY) in
  let r1 := Z.lor (u64 (Z.shiftl r2 16)) (Z.land r1 65535) in
  let d1 := r1 / HALAKIM_PER_DAY in
  let r1 := u64 (r1 - d1 * HALAKIM_PER_DAY) in
  (s64 (Z.lor (u64 (Z.shiftl d2 16)) d1), s64 r1).

(** [moladHalakim += n; moladDay += moladHalakim / HALAKIM_PER_DAY;
    moladHalakim = moladHalakim % HALAKIM_PER_DAY;] *)
Definition advance (n : Z) (molad : Z * Z) : Z * Z :=
  let '(moladDay, moladHalakim) := molad in
  let moladHalakim := s64 (moladHalakim + n) in
  (s64 (moladDay + moladHalakim /c HALAKIM_PER_DAY), moladHalakim %c HALAKIM_PER_DAY).

(** The [while] loop of [FindTishriMolad]: at most [fuel] turns. *)
Fixpoint cycle_loop (fuel : nat) (inputDay metonicCycle : Z) (molad : Z * Z) : option (Z * (Z * Z)) :=
  if molad.1 <? inputDay - 6940 + 310 then
    match fuel with
    | O => None
    | S fuel =>
        cycle_loop fuel inputDay (s32 (metonicCycle + 1)) (advance HALAKIM_PER_METONIC_CYCLE molad)
    end
  else Some (metonicCycle, molad).

(** The [for] loop: [n] turns are left before [metonicYear] is 18. *)
Fixpoint year_loop (n : nat) (inputDay metonicYear : Z) (molad : Z * Z) : option (Z * (Z * Z)) :=
  match n with
  | O => Some (metonicYear, molad)
  | S n =>
      if inputDay - 74 <? molad.1 then Some (metonicYear, molad)
      else
        months ← aref monthsPerYear metonicYear;
        year_loop n inputDay (metonicYear + 1) (advance (s32 (HALAKIM_PER_LUNAR_CYCLE * months)) molad)
  end.

(** Each turn of the [while] loop adds at least 6939 days to [moladDay]. *)
Definition cycle_fuel (inputDay moladDay : Z) : nat := Z.to_nat ((inputDay - moladDay) / 6939 + 1).

Definition FindTishriMolad (inputDay : Z) : option (Z * Z * (Z * Z)) :=
  let metonicCycle := s32 ((inputDay + 310) /c 6940) in
  let molad := MoladOfMetonicCycle metonicCycle in
  '(metonicCycle, molad) ← cycle_loop (cycle_fuel inputDay molad.1) inputDay metonicCycle molad;
  '(metonicYear, molad) ← year_loop 18 inputDay 0 molad;
  Some (metonicCycle, metonicYear, molad).

Definition FindStartOfYear (year : Z) : option (Z * Z * (Z * Z) * Z) :=
  let metonicCycle := s32 (year - 1) /c 19 in
  let metonicYear := s32 (year - 1) %c 19 in
  offset ← aref yearOffset metonicYear;
  let molad := advance (s32 (HALAKIM_PER_LUNAR_CYCLE * offset)) (MoladOfMetonicCycle metonicCycle) in
  Some (metonicCycle, metonicYear, molad, s32 (Tishri1 metonicYear molad.1 molad.2)).

(** The end of [SdnToJewish]: Heshvan or Kislev, with the year's length known. *)
Definition heshvan_kislev (year inputDay tishri1 tishri1After : Z) : date :=
  let yearLength := s32 (tishri1After - tishri1) in
  let day := inputDay - tishri1 - 29 in
  if (yearLength =? 355) || (yearLength =? 385) then
    if day <=? 30 then mkDate year 2 (s32 day) else mkDate year 3 (s32 (day - 30))
  else
    if day <=? 29 then mkDate year 2 (s32 day) else mkDate year 3 (s32 (day - 29)).

(** The last six months, which end at [tishri1]. *)
Definition last_months (year inputDay tishri1 : Z) : date :=
  if tishri1 - 30 <? inputDay then mkDate year 13 (s32 (inputDay - tishri1 + 30))
  else if tishri1 - 60 <? inputDay then mkDate year 12 (s32 (inputDay - tishri1 + 60))
  else if tishri1 - 89 <? inputDay then mkDate year 11 (s32 (inputDay - tishri1 + 89))
  else if tishri1 - 119 <? inputDay then mkDate year 10 (s32 (inputDay - tishri1 + 119))
  else if tishri1 - 148 <? inputDay then mkDate year 9 (s32 (inputDay - tishri1 + 148))
  else mkDate year 8 (s32 (inputDay - tishri1 + 178)).

(** Tevet to Adar II: [None] when the day is before Tevet. *)
Definition middle_months (months year inputDay tishri1 : Z) : option date :=
  let pDay := s32 (inputDay - tishri1 + 207) in
  if 0 <? pDay then Some (mkDate year 7 pDay)
  else if months =? 13 then
    let pDay := s32 (pDay + 30) in
    if 0 <? pDay then Some (mkDate year 6 pDay)
    else
      let pDay := s32 (pDay + 30) in
      if 0 <? pDay then Some (mkDate year 5 pDay)
      else
        let pDay := s32 (pDay + 29) in
        if 0 <? pDay then Some (mkDate year 4 pDay) else None
  else
    let pDay := s32 (pDay + 30) in
    if 0 <? pDay then Some (mkDate year 5 pDay)
    else
      let pDay := s32 (pDay + 29) in
      if 0 <? pDay then Some (mkDate year 4 pDay) else None.

Definition SdnToJewish (sdn : Z) : option date :=
  if (sdn <=? JEWISH_SDN_OFFSET) || (JEWISH_SDN_MAX <? sdn) then Some no_date
  else
    let inputDay := sdn - JEWISH_SDN_OFFSET in
    '(metonicCycle, metonicYear, molad) ← FindTishriMolad inputDay;
    let tishri1 := s32 (Tishri1 metonicYear molad.1 molad.2) in
    if tishri1 <=? inputDay then
      let year := s32 (metonicCycle * 19 + metonicYear + 1) in
      if inputDay <? tishri1 + 59 then
        if inputDay <? tishri1 + 30 then Some (mkDate year 1 (s32 (inputDay - tishri1 + 1)))
        else Some (mkDate year 2 (s32 (inputDay - tishri1 - 29)))
      else
        months ← aref monthsPerYear metonicYear;
        let molad := advance (s32 (HALAKIM_PER_LUNAR_CYCLE * months)) molad in
        let tishri1After := s32 (Tishri1 ((metonicYear + 1) %c 19) molad.1 molad.2) in
        Some (heshvan_kislev year inputDay tishri1 tishri1After)
    else
      let year := s32 (metonicCycle * 19 + metonicYear) in
      if tishri1 - 177 <=? inputDay then Some (last_months year inputDay tishri1)
      else
        months ← aref monthsPerYear ((year - 1) %c 19);
        match middle_months months year inputDay tishri1 with
        | Some d => Some d
        | None =>
            let tishri1After := tishri1 in
            '(metonicCycle, metonicYear, molad) ← FindTishriMolad (molad.1 - 365);
            let tishri1 := s32 (Tishri1 metonicYear molad.1 molad.2) in
            Some (heshvan_kislev year inputDay tishri1 tishri1After)
        end.

Definition JewishToSdn (year month day : Z) : option Z :=
  if (year <=? 0) || (day <=? 0) || (30 <? day) then Some 0
  else if (month =? 1) || (month =? 2) then
    '(_, _, _, tishri1) ← FindStartOfYear year;
    Some ((if month =? 1 then s32 (tishri1 + day - 1) else s32 (tishri1 + day + 29)) + JEWISH_SDN_OFFSET)
  else if month =? 3 then
    '(_, metonicYear, molad, tishri1) ← FindStartOfYear year;
    months ← aref monthsPerYear metonicYear;
    let molad := advance (s32 (HALAKIM_PER_LUNAR_CYCLE * months)) molad in
    let tishri1After := s32 (Tishri1 ((metonicYear + 1) %c 19) molad.1 molad.2) in
    let yearLength := s32 (tishri1After - tishri1) in
    Some ((if (yearLength =? 355) || (yearLength =? 385) then s32 (tishri1 + day + 59)
           else s32 (tishri1 + day + 58)) + JEWISH_SDN_OFFSET)
  else if (month =? 4) || (month =? 5) || (month =? 6) then
    '(_, _, _, tishri1After) ← FindStartOfYear (s32 (year + 1));
    months ← aref monthsPerYear ((year - 1) %c 19);
    let lengthOfAdarIAndII := if months =? 12 then 29 else 59 in
    Some ((if month =? 4 then s32 (tishri1After + day - lengthOfAdarIAndII - 237)
           else if month =? 5 then s32 (tishri1After + day - lengthOfAdarIAndII - 208)
           else s32 (tishri1After + day - lengthOfAdarIAndII - 178)) + JEWISH_SDN_OFFSET)
  else
    '(_, _, _, tishri1After) ← FindStartOfYear (s32 (year + 1));
    let from_end (n : Z) := Some (s32 (tishri1After + day - n) + JEWISH_SDN_OFFSET) in
    if month =? 7 then from_end 207
    else if month =? 8 then from_end 178
    else if month =? 9 then from_end 148
    else if month =? 10 then from_end 119
    else if month =? 11 then from_end 89
    else if month =? 12 then from_end 60
    else if month =? 13 then from_end 30
    else Some 0.

(** ** The molad of a year

    Years are counted from 0 here.  [months_before Y] months come before year
    [Y], and its molad is [molad_time Y] halakim after the start of day 0. *)

Definition months_before (Y : Z) : Z := (235 * Y + 1) / 19.

Definition molad_time (Y : Z) : Z := NEW_MOON_OF_CREATION + HALAKIM_PER_LUNAR_CYCLE * months_before Y.

Definition molad (Y : Z) : Z * Z := (molad_time Y / HALAKIM_PER_DAY, molad_time Y mod HALAKIM_PER_DAY).

Definition molad_day (Y : Z) : Z := molad_time Y / HALAKIM_PER_DAY.

(** The first day of year [Y] after the four rules. *)
Definition new_year (Y : Z) : Z := Tishri1 (Y mod 19) (molad Y).1 (molad Y).2.

Definition leap_year (Y : Z) : bool := months_before (Y + 1) - months_before Y =? 13.

Ltac euclid := Z.to_euclidean_division_equations; lia.

Lemma months_before_cycle c y : months_before (19 * c + y) = 235 * c + months_before y.
Proof. unfold months_before. euclid. Qed.

Lemma below_19 y : 0 <= y < 19 ->
  In y [0; 1; 2; 3; 4; 5; 6; 7; 8; 9; 10; 11; 12; 13; 14; 15; 16; 17; 18].
Proof. intros. cbn [In]. lia. Qed.

(** A fact of the years of a metonic cycle, checked year by year. *)
Lemma cycle_check (P : Z -> Prop) :
  Forall P [0; 1; 2; 3; 4; 5; 6; 7; 8; 9; 10; 11; 12; 13; 14; 15; 16; 17; 18] ->
  forall y, 0 <= y < 19 -> P y.
Proof. rewrite Forall_forall. intros H y Hy. by apply H, below_19. Qed.

Lemma yearOffset_months y : 0 <= y < 19 -> aref yearOffset y = Some (months_before y).
Proof. revert y. apply cycle_check. by repeat constructor. Qed.

Lemma monthsPerYear_months y :
  0 <= y < 19 -> aref monthsPerYear y = Some (months_before (y + 1) - months_before y).
Proof. revert y. apply cycle_check. by repeat constructor. Qed.

Lemma monthsPerYear_at Y :
  0 <= Y -> aref monthsPerYear (Y mod 19) = Some (months_before (Y + 1) - months_before Y).
Proof.
  intros HY. rewrite monthsPerYear_months by (apply Z.mod_pos_bound; lia).
  pose proof (months_before_cycle (Y / 19) (Y mod 19)) as H1.
  pose proof (months_before_cycle (Y / 19) (Y mod 19 + 1)) as H2.
  pose proof (Z.div_mod Y 19 ltac:(lia)).
  replace (19 * (Y / 19) + Y mod 19) with Y in H1 by lia.
  replace (19 * (Y / 19) + (Y mod 19 + 1)) with (Y + 1) in H2 by lia. f_equal. lia.
Qed.

Lemma months_in_year Y : 12 <= months_before (Y + 1) - months_before Y <= 13.
Proof. unfold months_before. euclid. Qed.

(** [MoladOfMetonicCycle] does its 37-bit arithmetic in 16-bit halves; it is exact
    as long as its [int] products do not overflow. *)
Lemma lor_low a b : 0 <= b < 65536 -> Z.lor (Z.shiftl a 16) b = a * 65536 + b.
Proof. intros Hb. rewrite Z.shiftl_mul_pow2 by lia. by apply (lor_add 16). Qed.

Lemma MoladOfMetonicCycle_exact c : 0 <= c <= 46713 -> MoladOfMetonicCycle c = molad (19 * c).
Proof.
  intros Hc. unfold MoladOfMetonicCycle.
  change (Z.land HALAKIM_PER_METONIC_CYCLE 65535) with 45971.
  change (Z.land (Z.shiftr HALAKIM_PER_METONIC_CYCLE 16) 65535) with 2744.
  unfold molad, molad_time. replace (months_before (19 * c)) with (235 * c) by (unfold months_before; euclid).
  change HALAKIM_PER_LUNAR_CYCLE with 765433. change HALAKIM_PER_DAY with 25920.
  change NEW_MOON_OF_CREATION with 31524. cbv zeta.
  rewrite (wrap_s_small 32 (c * 45971)), (wrap_s_small 32 (c * 2744)) by lia.
  rewrite (wrap_u_small 64 (31524 + _)) by lia.
  rewrite (Z.shiftr_div_pow2 _ 16) by lia. change (2 ^ 16) with 65536.
  change 65535 with (Z.ones 16). rewrite Z.land_ones by lia. change (2 ^ 16) with 65536.
  set (r1 := 31524 + c * 45971). set (r2 := r1 / 65536 + c * 2744).
  assert (0 <= r2 < 2 ^ 40) by (unfold r2, r1; euclid). rewrite (wrap_u_small 64 r2) by lia.
  rewrite (wrap_u_small 64 (r2 - _)) by euclid.
  set (q := r2 - r2 / 25920 * 25920). assert (0 <= q < 25920) by (unfold q; euclid).
  assert (0 <= r1 mod 65536 < 65536) by (apply Z.mod_pos_bound; lia).
  rewrite (wrap_u_small 64 (Z.shiftl q 16)) by (rewrite Z.shiftl_mul_pow2; lia).
  rewrite lor_low by lia. set (v := q * 65536 + r1 mod 65536).
  assert (0 <= v / 25920 < 65536) by (unfold v; euclid).
  assert (0 <= r2 / 25920 < 2 ^ 30) by euclid.
  rewrite (wrap_u_small 64 (Z.shiftl (r2 / 25920) 16)) by (rewrite Z.shiftl_mul_pow2; lia).
  rewrite lor_low by lia. rewrite (wrap_s_small 64 (_ * 65536 + _)) by lia.
  rewrite (wrap_u_small 64 (v - _)) by euclid. rewrite (wrap_s_small 64) by euclid.
  assert (Ht : 31524 + 765433 * (235 * c) = r2 * 65536 + r1 mod 65536)
    by (unfold r2, r1; euclid).
  rewrite Ht. assert (r2 * 65536 + r1 mod 65536 = (r2 / 25920 * 65536) * 25920 + v) as -> by (unfold v, q; lia).
  rewrite Z.div_add_l, (Z.add_comm _ v), Z_mod_plus_full by lia. f_equal. euclid.
Qed.

Lemma advance_time t n :
  0 <= t -> 0 <= n -> t + n < 2 ^ 62 ->
  advance n (t / HALAKIM_PER_DAY, t mod HALAKIM_PER_DAY) =
  ((t + n) / HALAKIM_PER_DAY, (t + n) mod HALAKIM_PER_DAY).
Proof.
  intros Ht Hn Hb. unfold advance. change HALAKIM_PER_DAY with 25920.
  assert (0 <= t mod 25920 < 25920) by (apply Z.mod_pos_bound; lia).
  assert (0 <= t / 25920 < 2 ^ 50) by euclid.
  rewrite (wrap_s_small 64 (t mod 25920 + n)) by lia. rewrite quot_pos, rem_pos by lia.
  rewrite (wrap_s_small 64) by euclid.
  rewrite Z.add_mod_idemp_l by lia. f_equal. euclid.
Qed.

Lemma molad_time_range Y : 0 <= Y < 2 ^ 24 -> 0 <= molad_time Y < 2 ^ 60.
Proof.
  intros HY. unfold molad_time, months_before. change HALAKIM_PER_LUNAR_CYCLE with 765433.
  change NEW_MOON_OF_CREATION with 31524. euclid.
Qed.

Lemma advance_year Y :
  0 <= Y < 2 ^ 23 ->
  advance (s32 (HALAKIM_PER_LUNAR_CYCLE * (months_before (Y + 1) - months_before Y))) (molad Y) = molad (Y + 1).
Proof.
  intros HY. pose proof (months_in_year Y). pose proof (molad_time_range Y ltac:(lia)).
  change HALAKIM_PER_LUNAR_CYCLE with 765433. rewrite (wrap_s_small 32) by lia.
  unfold molad. rewrite advance_time by lia. unfold molad_time. change HALAKIM_PER_LUNAR_CYCLE with 765433.
  by replace (NEW_MOON_OF_CREATION + 765433 * months_before (Y + 1)) with
    (NEW_MOON_OF_CREATION + 765433 * months_before Y + 765433 * (months_before (Y + 1) - months_before Y)) by lia.
Qed.

Lemma advance_cycle c :
  0 <= c < 2 ^ 18 -> advance HALAKIM_PER_METONIC_CYCLE (molad (19 * c)) = molad (19 * (c + 1)).
Proof.
  intros Hc. pose proof (molad_time_range (19 * c) ltac:(lia)).
  change HALAKIM_PER_METONIC_CYCLE with (765433 * 235). unfold molad. rewrite advance_time by lia.
  unfold molad_time. change HALAKIM_PER_LUNAR_CYCLE with 765433.
  by replace (NEW_MOON_OF_CREATION + 765433 * months_before (19 * (c + 1))) with
    (NEW_MOON_OF_CREATION + 765433 * months_before (19 * c) + 765433 * 235) by (unfold months_before; euclid).
Qed.

(** ** The four rules

    The days by which the rules delay the new year: [dow] and [h] are the day of
    the week and the time of the molad, [leap] and [last] say whether the year
    and the one before it are leap years. *)
Definition first_delay (leap last : bool) (dow h : Z) : bool :=
  (19440 <=? h) || (negb leap && (dow =? 2) && (9924 <=? h)) || (last && (dow =? 1) && (16789 <=? h)).

Definition delay (leap last : bool) (dow h : Z) : Z :=
  if first_delay leap last dow h then
    if (dow =? 2) || (dow =? 4) || (dow =? 6) then 2 else 1
  else if (dow =? 3) || (dow =? 5) || (dow =? 0) then 1 else 0.

Lemma leap_cycle y : 0 <= y < 19 ->
  leap_year y = ((y =? 2) || (y =? 5) || (y =? 7) || (y =? 10) || (y =? 13) || (y =? 16) || (y =? 18)).
Proof. revert y. apply cycle_check. by repeat constructor. Qed.

Lemma last_cycle y : 0 <= y < 19 ->
  leap_year (y + 18) = ((y =? 3) || (y =? 6) || (y =? 8) || (y =? 11) || (y =? 14) || (y =? 17) || (y =? 0)).
Proof. revert y. apply cycle_check. by repeat constructor. Qed.

Lemma leap_year_mod Y k : leap_year (Y mod 19 + k) = leap_year (Y + k).
Proof.
  unfold leap_year. pose proof (Z.div_mod Y 19 ltac:(lia)) as HY.
  pose proof (months_before_cycle (Y / 19) (Y mod 19 + k)) as H1.
  pose proof (months_before_cycle (Y / 19) (Y mod 19 + k + 1)) as H2.
  replace (19 * (Y / 19) + (Y mod 19 + k)) with (Y + k) in H1 by lia.
  replace (19 * (Y / 19) + (Y mod 19 + k + 1)) with (Y + k + 1) in H2 by lia. f_equal. lia.
Qed.

Lemma new_year_delay Y :
  0 <= Y < 2 ^ 24 ->
  new_year Y = molad_day Y + delay (leap_year Y) (leap_year (Y + 18)) (molad_day Y mod 7) (molad Y).2.
Proof.
  intros HY. unfold new_year, Tishri1. cbn [molad fst snd]. fold (molad_day Y).
  pose proof (molad_time_range Y HY) as Ht.
  assert (0 <= molad_day Y < 2 ^ 50) by (unfold molad_day; change HALAKIM_PER_DAY with 25920; euclid).
  rewrite rem_pos by lia. set (h := molad_time Y mod HALAKIM_PER_DAY).
  rewrite (wrap_s_small 32) by (pose proof (Z.mod_pos_bound (molad_day Y) 7); lia).
  assert (HY19 : 0 <= Y mod 19 < 19) by (apply Z.mod_pos_bound; lia).
  rewrite <- leap_cycle, <- last_cycle by done. rewrite (leap_year_mod Y 18).
  pose proof (leap_year_mod Y 0) as Hl. rewrite !Z.add_0_r in Hl. rewrite Hl.
  assert (Hd : 0 <= molad_day Y mod 7 < 7) by (apply Z.mod_pos_bound; lia).
  set (d := molad_day Y mod 7) in *.
  change NOON with 19440. change AM3_11_20 with 9924. change AM9_32_43 with 16789.
  unfold TUESDAY, MONDAY, WEDNESDAY, FRIDAY, SUNDAY. fold (first_delay (leap_year Y) (leap_year (Y + 18)) d h).
  unfold delay. clearbody d. rewrite !(wrap_s_small 64 (molad_day Y + 1)) by lia.
  destruct (first_delay _ _ d h).
  - rewrite (wrap_s_small 64) by lia. destruct (Z.eqb_spec (d + 1) 7); zcase; cbn [orb]; lia.
  - rewrite (wrap_s_small 64) by lia. zcase; cbn [orb]; lia.
Qed.

Lemma delay_range leap last dow h : 0 <= delay leap last dow h <= 2.
Proof. unfold delay. destruct (first_delay _ _ _ _); destruct (_ || _); lia. Qed.

(** No two leap years in a row, and the year before [Y + 1] is [Y]. *)
Lemma leap_year_alone Y : leap_year Y = true -> leap_year (Y + 18) = false /\ leap_year (Y + 1) = false.
Proof.
  unfold leap_year, months_before. intros H%Z.eqb_eq. split; apply Z.eqb_neq; euclid.
Qed.

Lemma leap_year_19 Y : leap_year (Y + 19) = leap_year Y.
Proof. unfold leap_year, months_before. f_equal. euclid. Qed.

(** The time of a molad in its week, and the time a year later. *)
Lemma molad_week Y :
  0 <= Y < 2 ^ 23 ->
  let n := if leap_year Y then 13 * 765433 else 12 * 765433 in
  let h := (molad Y).2 in
  0 <= h < 25920 /\
  (molad (Y + 1)).2 = (h + n) mod 25920 /\ molad_day (Y + 1) = molad_day Y + (h + n) / 25920.
Proof.
  intros HY n h. pose proof (months_in_year Y) as Hm. pose proof (molad_time_range Y ltac:(lia)).
  assert (Ht : molad_time (Y + 1) = molad_time Y + n).
  { unfold molad_time, n, leap_year. change HALAKIM_PER_LUNAR_CYCLE with 765433.
    destruct (Z.eqb_spec (months_before (Y + 1) - months_before Y) 13); lia. }
  unfold h, molad_day, molad; cbn [fst snd]. rewrite Ht. change HALAKIM_PER_DAY with 25920.
  assert (0 <= n) by (unfold n; destruct (leap_year Y); lia). clearbody n.
  split_and!; [euclid|euclid| |euclid]. by rewrite Z.add_mod_idemp_l by lia.
Qed.

(** The lengths of the year: with the delays at both ends they are the six of
    the calendar. *)
Definition length_ok (leap : bool) (len : Z) : Prop :=
  if leap then 383 <= len <= 385 else 353 <= len <= 355.

Lemma delay_length leap last next dow h n :
  (leap = true -> last = false /\ next = false) -> 0 <= dow < 7 -> 0 <= h < 25920 ->
  n = (if leap then 13 * 765433 else 12 * 765433) ->
  length_ok leap ((h + n) / 25920 + delay next leap ((dow + (h + n) / 25920) mod 7) ((h + n) mod 25920)
    - delay leap last dow h).
Proof.
  intros Hal Hd Hh ->.
  set (c := if h + (if leap then 23269 else 9516) <? 25920 then 0 else 1).
  assert (Hq : (h + (if leap then 13 * 765433 else 12 * 765433)) / 25920 = (if leap then 383 else 354) + c).
  { unfold c. destruct leap; zcase; euclid. }
  assert (Hr : (h + (if leap then 13 * 765433 else 12 * 765433)) mod 25920
    = h + (if leap then 23269 else 9516) - 25920 * c).
  { unfold c. destruct leap; zcase; euclid. }
  rewrite Hq, Hr.
  assert (Hw : (dow + ((if leap then 383 else 354) + c)) mod 7 =
    let e := dow + (if leap then 5 else 4) + c in if e <? 7 then e else e - 7).
  { cbv zeta. unfold c. destruct leap; zcase; euclid. }
  rewrite Hw. clear Hq Hr Hw. unfold length_ok, delay, first_delay, c. cbv zeta.
  assert (Hdow : dow = 0 \/ dow = 1 \/ dow = 2 \/ dow = 3 \/ dow = 4 \/ dow = 5 \/ dow = 6) by lia.
  destruct leap; [destruct Hal as [-> ->]; [done|]|destruct last, next]; cbn [negb andb orb];
    match goal with |- context [?a <? 25920] => destruct (Z.ltb_spec a 25920) end;
    destruct Hdow as [->|[->|[->|[->|[->|[->| ->]]]]]]; zcase; cbn [negb andb orb]; lia.
Qed.

Lemma year_length Y :
  0 <= Y < 2 ^ 23 -> length_ok (leap_year Y) (new_year (Y + 1) - new_year Y).
Proof.
  intros HY. pose proof (molad_week Y HY) as (Hh & Hh' & Hd'). rewrite !new_year_delay by lia.
  replace (Y + 1 + 18) with (Y + 19) by lia. rewrite leap_year_19, Hh', Hd'.
  rewrite <- Z.add_mod_idemp_l by lia.
  match goal with |- length_ok _ (_ + (?h + ?n) / _ + delay _ _ _ _ - _) =>
    pose proof (delay_length (leap_year Y) (leap_year (Y + 18)) (leap_year (Y + 1)) (molad_day Y mod 7) h n) as HL end.
  match type of HL with _ -> _ -> _ -> _ -> length_ok _ ?x =>
    match goal with |- length_ok _ ?y => replace y with x by lia end end.
  apply HL; [apply leap_year_alone|apply Z.mod_pos_bound; lia|done|done].
Qed.
