(* ===== verification/JewishConv.v ===== *)
(** * JewishConv: the conversions of the Jewish calendar

    Which molad [FindTishriMolad] of src/ext/calendar/jewish.c finds, and the
    round trip of the two conversions. *)
From S2P Require Import Prelude Calendar Jewish.
From stdpp Require Import base list option.
From Stdlib Require Import Lia.
Local Open Scope Z_scope.
Local Open Scope c_scope.

(** ** The molad that [FindTishriMolad] returns *)

Lemma molad_day_step Y :
  0 <= Y < 2 ^ 23 ->
  if leap_year Y then 383 <= molad_day (Y + 1) - molad_day Y <= 384
  else 354 <= molad_day (Y + 1) - molad_day Y <= 355.
Proof.
  intros HY. destruct (molad_week Y HY) as (Hh & _ & ->). destruct (leap_year Y); euclid.
Qed.

Lemma molad_day_mono A B : 0 <= A <= B -> molad_day A <= molad_day B.
Proof.
  intros H. unfold molad_day, molad_time. change HALAKIM_PER_LUNAR_CYCLE with 765433.
  change HALAKIM_PER_DAY with 25920. apply Z.div_le_mono; [lia|].
  assert (months_before A <= months_before B) by (unfold months_before; apply Z.div_le_mono; lia). lia.
Qed.

Lemma molad_day_cycle c : molad_day (19 * c) = (31524 + 765433 * 235 * c) / 25920.
Proof.
  unfold molad_day, molad_time. change HALAKIM_PER_LUNAR_CYCLE with 765433. change HALAKIM_PER_DAY with 25920.
  change NEW_MOON_OF_CREATION with 31524. f_equal. unfold months_before. euclid.
Qed.

Lemma cycle_loop_spec fuel D c :
  0 <= c -> c + Z.of_nat fuel < 2 ^ 17 -> D - 6630 - molad_day (19 * c) <= 6939 * Z.of_nat fuel ->
  molad_day (19 * c) <= D + 311 ->
  exists c', cycle_loop fuel D c (molad (19 * c)) = Some (c', molad (19 * c')) /\
    c <= c' < 2 ^ 17 /\ D - 6630 <= molad_day (19 * c') <= D + 311.
Proof.
  revert c. induction fuel as [|fuel IH]; intros c Hc Hb Hf Hu; cbn [cycle_loop];
    change (molad (19 * c)).1 with (molad_day (19 * c)); destruct (Z.ltb_spec (molad_day (19 * c)) (D - 6940 + 310)).
  - exfalso. lia.
  - exists c. split_and!; [done|lia..].
  - rewrite (wrap_s_small 32), advance_cycle by lia.
    assert (6939 <= molad_day (19 * (c + 1)) - molad_day (19 * c) <= 6940) by (rewrite !molad_day_cycle; euclid).
    destruct (IH (c + 1)) as (c' & Hr & Hc' & Hd'); [lia..|]. exists c'. split_and!; [done|lia..].
  - exists c. split_and!; [done|lia..].
Qed.

(** The years of a cycle up to its last: the loop stops at the first molad late
    enough, or at year 18. *)
Lemma year_loop_spec n D c y :
  0 <= c < 2 ^ 17 -> 0 <= y -> y + Z.of_nat n = 18 ->
  (y = 0 \/ molad_day (19 * c + y - 1) <= D - 74) ->
  exists y', year_loop n D y (molad (19 * c + y)) = Some (y', molad (19 * c + y')) /\
    y <= y' <= 18 /\ (y' = 18 \/ D - 74 < molad_day (19 * c + y')) /\
    (y' = 0 \/ molad_day (19 * c + y' - 1) <= D - 74).
Proof.
  intros Hc. revert y. induction n as [|n IH]; intros y Hy Hn Hprev; cbn [year_loop].
  { exists y. split_and!; [done|lia..|done]. }
  change (molad (19 * c + y)).1 with (molad_day (19 * c + y)).
  destruct (Z.ltb_spec (D - 74) (molad_day (19 * c + y))) as [Hs|Hs].
  { exists y. split_and!; [done|lia|lia|by right|done]. }
  assert (aref monthsPerYear y = Some (months_before (19 * c + y + 1) - months_before (19 * c + y))) as ->.
  { rewrite <- monthsPerYear_at by lia. f_equal. euclid. }
  cbn [mbind option_bind]. rewrite advance_year by lia.
  replace (19 * c + y + 1) with (19 * c + (y + 1)) by lia.
  destruct (IH (y + 1)) as (y' & Hr & Hy' & Hstop & Hpr); [lia|lia| |].
  { right. replace (19 * c + (y + 1) - 1) with (19 * c + y) by lia. lia. }
  exists y'. split_and!; [done|lia|lia|done|done].
Qed.

(** What is returned for day [D]: a year [Y] whose molad is near the day, and the
    molad of the year before well before it. *)
Lemma FindTishriMolad_spec D :
  -300 <= D <= 324194849 ->
  exists Y, FindTishriMolad D = Some (Y / 19, Y mod 19, molad Y) /\
    0 <= Y < 2 ^ 22 /\ D - 75 <= molad_day Y <= D + 311 /\
    (0 < Y mod 19 -> molad_day (Y - 1) <= D - 74).
Proof.
  intros HD. unfold FindTishriMolad. rewrite quot_pos by lia. set (c0 := (D + 310) / 6940).
  assert (Hc0 : 0 <= c0 <= 46713) by (unfold c0; euclid). rewrite (wrap_s_small 32) by lia.
  rewrite MoladOfMetonicCycle_exact by lia. change (molad (19 * c0)).1 with (molad_day (19 * c0)).
  assert (Hm : D - 6630 - 16000 <= molad_day (19 * c0) <= D + 311)
    by (rewrite molad_day_cycle; unfold c0; euclid).
  destruct (cycle_loop_spec (cycle_fuel D (molad_day (19 * c0))) D c0) as (c & -> & Hc & Hd);
    [lia|unfold cycle_fuel; euclid|unfold cycle_fuel; euclid|lia|].
  cbn [mbind option_bind]. pose proof (year_loop_spec 18 D c 0) as Hy. rewrite Z.add_0_r in Hy.
  destruct Hy as (y & -> & Hy & Hstop & Hprev); [lia|lia|done|by left|]. cbn [mbind option_bind].
  assert (Hq : (19 * c + y) / 19 = c) by euclid. assert (Hr : (19 * c + y) mod 19 = y) by euclid.
  exists (19 * c + y). rewrite Hq, Hr.
  assert (Hup : 0 < y -> molad_day (19 * c + y) <= molad_day (19 * c + y - 1) + 384).
  { intros. pose proof (molad_day_step (19 * c + y - 1) ltac:(lia)) as Hst.
    replace (19 * c + y - 1 + 1) with (19 * c + y) in Hst by lia. destruct (leap_year _); lia. }
  assert (H18 : y = 18 -> molad_day (19 * c) + 6555 <= molad_day (19 * c + y)).
  { intros ->. unfold molad_day, molad_time. change HALAKIM_PER_LUNAR_CYCLE with 765433.
    change HALAKIM_PER_DAY with 25920. change NEW_MOON_OF_CREATION with 31524.
    replace (months_before (19 * c + 18)) with (months_before (19 * c) + 222) by (unfold months_before; euclid).
    set (b := months_before _). euclid. }
  split_and!; [done|lia|lia|lia| |].
  - destruct Hprev as [->|Hp]; [rewrite Z.add_0_r; lia|]. destruct (decide (0 < y)); [lia|].
    assert (y = 0) as -> by lia. rewrite Z.add_0_r in *. lia.
  - intros. destruct Hprev; [lia|done].
Qed.

Lemma new_year_range Y : 0 <= Y < 2 ^ 22 -> molad_day Y <= new_year Y <= molad_day Y + 2 /\ 0 <= new_year Y < 2 ^ 31 - 1000.
Proof.
  intros HY. rewrite new_year_delay by lia.
  pose proof (delay_range (leap_year Y) (leap_year (Y + 18)) (molad_day Y mod 7) (molad Y).2).
  assert (0 <= molad_day Y < 2 ^ 31 - 2000); [|lia].
  unfold molad_day, molad_time, months_before. change HALAKIM_PER_LUNAR_CYCLE with 765433.
  change HALAKIM_PER_DAY with 25920. change NEW_MOON_OF_CREATION with 31524. euclid.
Qed.

(** The first day of year [Y] as the code stores it in an [int]. *)
Lemma Tishri1_at Y : 0 <= Y < 2 ^ 22 -> s32 (Tishri1 (Y mod 19) (molad Y).1 (molad Y).2) = new_year Y.
Proof. intros HY. fold (new_year Y). apply wrap_s_small; [lia|]. pose proof (new_year_range Y HY). lia. Qed.

Lemma FindStartOfYear_spec year :
  1 <= year <= 19 * 46714 ->
  FindStartOfYear year = Some ((year - 1) / 19, (year - 1) mod 19, molad (year - 1), new_year (year - 1)).
Proof.
  intros Hy. unfold FindStartOfYear. rewrite (wrap_s_small 32 (year - 1)) by lia.
  rewrite quot_pos, rem_pos by lia. set (Y := year - 1) in *.
  assert (0 <= Y mod 19 < 19) by (apply Z.mod_pos_bound; lia).
  rewrite yearOffset_months by done. cbn [mbind option_bind].
  rewrite MoladOfMetonicCycle_exact by euclid.
  assert (Hadv : advance (s32 (HALAKIM_PER_LUNAR_CYCLE * months_before (Y mod 19))) (molad (19 * (Y / 19))) = molad Y).
  { assert (Hmb : 0 <= months_before (Y mod 19) <= 235) by (unfold months_before; euclid).
    change HALAKIM_PER_LUNAR_CYCLE with 765433. rewrite (wrap_s_small 32) by lia.
    pose proof (molad_time_range (19 * (Y / 19))) as Ht.
    unfold molad. rewrite advance_time; [|apply Ht; euclid|lia|cut (molad_time (19 * (Y / 19)) < 2 ^ 60); [lia|apply Ht; euclid]].
    unfold molad_time. change HALAKIM_PER_LUNAR_CYCLE with 765433.
    replace (months_before Y) with (months_before (19 * (Y / 19)) + months_before (Y mod 19)).
    2: { rewrite (Z.div_mod Y 19) at 3 by lia. rewrite months_before_cycle.
         rewrite <- (Z.add_0_r (19 * (Y / 19))), months_before_cycle. change (months_before 0) with 0. lia. }
    by rewrite Z.mul_add_distr_l, Z.add_assoc. }
  rewrite Hadv, Tishri1_at by lia. done.
Qed.

(** [sdn] is day [k] from the start of the year, or from its end. *)
Lemma leap_of_months Y : months_before (Y + 1) - months_before Y = if leap_year Y then 13 else 12.
Proof. pose proof (months_in_year Y). unfold leap_year. destruct (Z.eqb_spec (months_before (Y + 1) - months_before Y) 13); lia. Qed.

Definition valid_jewish (d : date) : Prop :=
  1 <= pYear d /\ 1 <= pMonth d <= 13 /\ 1 <= pDay d <= 30.

Section to_sdn.
Context (Y : Z) (HY : 0 <= Y < 19 * 46714 - 1).

Ltac in_range := pose proof (new_year_range Y ltac:(lia)); pose proof (new_year_range (Y + 1) ltac:(lia)).

(** The position of a date in its year, counted from [new_year Y] or back from
    [new_year (Y + 1)]. *)
Definition jewish_day (month day : Z) : Z :=
  let T := new_year Y in
  let T' := new_year (Y + 1) in
  let adar := if leap_year Y then 59 else 29 in
  let long := if (T' - T =? 355) || (T' - T =? 385) then 59 else 58 in
  if month =? 1 then T + day - 1
  else if month =? 2 then T + day + 29
  else if month =? 3 then T + day + long
  else if month =? 4 then T' + day - adar - 237
  else if month =? 5 then T' + day - adar - 208
  else if month =? 6 then T' + day - adar - 178
  else if month =? 7 then T' + day - 207
  else if month =? 8 then T' + day - 178
  else if month =? 9 then T' + day - 148
  else if month =? 10 then T' + day - 119
  else if month =? 11 then T' + day - 89
  else if month =? 12 then T' + day - 60
  else T' + day - 30.

Lemma JewishToSdn_day month day :
  1 <= month <= 13 -> 1 <= day <= 30 ->
  JewishToSdn (Y + 1) month day = Some (jewish_day month day + JEWISH_SDN_OFFSET).
Proof.
  intros Hm Hd. in_range. unfold JewishToSdn.
  replace (_ || _ || (30 <? day)) with false by (zcase; done).
  rewrite (wrap_s_small 32 (Y + 1 + 1)) by lia.
  rewrite (FindStartOfYear_spec (Y + 1)), (FindStartOfYear_spec (Y + 1 + 1)) by lia.
  replace (Y + 1 + 1 - 1) with (Y + 1) by lia. replace (Y + 1 - 1) with Y by lia.
  rewrite (rem_pos Y) by lia. cbn [mbind option_bind]. rewrite monthsPerYear_at by lia. cbn [mbind option_bind].
  rewrite advance_year by lia.
  assert ((Y mod 19 + 1) %c 19 = (Y + 1) mod 19) as -> by (rewrite rem_pos by euclid; euclid).
  rewrite (Tishri1_at (Y + 1)) by lia. rewrite leap_of_months.
  unfold jewish_day. rewrite (wrap_s_small 32 (new_year (Y + 1) - new_year Y)) by lia.
  destruct (leap_year Y); zcase; cbn [orb]; try lia; do 2 f_equal; apply wrap_s_small; lia.
Qed.

End to_sdn.

(** The lengths of the months: Heshvan has 30 days in a long year, Kislev 29 in a
    short one, and Adar I exists in leap years only. *)
Definition jewish_month_days (Y month : Z) : Z :=
  let len := new_year (Y + 1) - new_year Y in
  if month =? 2 then if (len =? 355) || (len =? 385) then 30 else 29
  else if month =? 3 then if (len =? 353) || (len =? 383) then 29 else 30
  else if month =? 6 then if leap_year Y then 30 else 0
  else if (month =? 1) || (month =? 5) || (month =? 8) || (month =? 10) || (month =? 12) then 30
  else 29.

(** [d] is a date of the calendar and day [n] from day 0. *)
Definition jewish_date (n : Z) (d : date) : Prop :=
  exists Y, pYear d = Y + 1 /\ 0 <= Y < 2 ^ 22 /\ 1 <= pMonth d <= 13 /\
    1 <= pDay d <= jewish_month_days Y (pMonth d) /\ n = jewish_day Y (pMonth d) (pDay d) /\
    new_year Y <= n < new_year (Y + 1).

Lemma jewish_date_intro Y n m k :
  0 <= Y < 2 ^ 22 -> 1 <= m <= 13 -> 1 <= k <= jewish_month_days Y m -> n = jewish_day Y m k ->
  new_year Y <= n < new_year (Y + 1) -> jewish_date n (mkDate (Y + 1) m k).
Proof. intros. exists Y. cbn [pYear pMonth pDay]. split_and!; try done; lia. Qed.

Ltac jdate := apply jewish_date_intro; [lia|lia| | |lia]; unfold jewish_month_days, jewish_day; cbn [Z.eqb Pos.eqb orb].

Section from_sdn.
Context (n Y : Z) (HY : 0 <= Y < 2 ^ 22 - 1).
Hypothesis Hn : new_year Y <= n < new_year (Y + 1).
Let T := new_year Y.
Let T' := new_year (Y + 1).

Lemma T_range : 0 <= T < 2 ^ 31 - 1000 /\ 0 <= T' < 2 ^ 31 - 1000.
Proof. split; apply new_year_range; lia. Qed.

Lemma heshvan_kislev_date :
  59 <= n - T -> (if leap_year Y then n <= T' - 296 else n <= T' - 266) ->
  jewish_date n (heshvan_kislev (Y + 1) n T T').
Proof.
  intros Hlo Hhi. pose proof T_range as HT. pose proof (year_length Y ltac:(lia)) as Hlen. fold T T' in Hn, Hlen.
  unfold heshvan_kislev. rewrite (wrap_s_small 32 (T' - T)) by lia. unfold length_ok in Hlen.
  destruct ((T' - T =? 355) || (T' - T =? 385)) eqn:Hlong.
  - apply orb_true_iff in Hlong. rewrite !Z.eqb_eq in Hlong.
    destruct (Z.leb_spec (n - T - 29) 30); rewrite (wrap_s_small 32) by lia; jdate; fold T T';
      destruct (leap_year Y); zcase; cbn [orb]; lia.
  - apply orb_false_iff in Hlong. rewrite !Z.eqb_neq in Hlong.
    destruct (Z.leb_spec (n - T - 29) 29); rewrite (wrap_s_small 32) by lia; jdate; fold T T';
      destruct (leap_year Y); zcase; cbn [orb]; lia.
Qed.

Lemma last_months_date : T' - 177 <= n -> jewish_date n (last_months (Y + 1) n T').
Proof.
  intros Hlo. pose proof T_range as HT. fold T T' in Hn. unfold last_months.
  repeat (case_match; [rewrite (wrap_s_small 32) by lia; jdate; fold T T'; zcase; lia|]).
  rewrite (wrap_s_small 32) by lia. jdate; fold T T'; zcase; lia.
Qed.

Lemma middle_months_date :
  n < T' - 177 ->
  match middle_months (if leap_year Y then 13 else 12) (Y + 1) n T' with
  | Some d => jewish_date n d
  | None => if leap_year Y then n <= T' - 296 else n <= T' - 266
  end.
Proof.
  intros Hlo. pose proof T_range as HT. fold T T' in Hn. unfold middle_months. cbv zeta.
  rewrite !(wrap_s_small 32 (n - T' + 207)) by lia.
  rewrite !(wrap_s_small 32 (n - T' + 207 + 30)) by lia.
  rewrite !(wrap_s_small 32 (n - T' + 207 + 30 + 30)) by lia.
  rewrite !(wrap_s_small 32 (n - T' + 207 + 30 + 29)) by lia.
  rewrite !(wrap_s_small 32 (n - T' + 207 + 30 + 30 + 29)) by lia.
  destruct (leap_year Y) eqn:Hleap; cbn [Z.eqb Pos.eqb];
    repeat (match goal with |- context [0 <? ?x] => destruct (Z.ltb_spec 0 x) end;
      [jdate; rewrite ?Hleap; fold T T'; zcase; lia|]); lia.
Qed.

End from_sdn.

(** [FindTishriMolad] of the day 365 days before the molad at the end of a year
    finds the molad at its start. *)
Lemma FindTishriMolad_start Y :
  0 <= Y < 2 ^ 22 -> molad_day (Y + 1) - 365 <= 324194849 ->
  FindTishriMolad (molad_day (Y + 1) - 365) = Some (Y / 19, Y mod 19, molad Y).
Proof.
  intros HY Hb. destruct (FindTishriMolad_spec (molad_day (Y + 1) - 365)) as (Z0 & Hf & HZ & Hnear & Hprev).
  { pose proof (molad_day_mono 1 (Y + 1) ltac:(lia)) as H1.
    assert (molad_day 1 = 355) by (vm_compute; reflexivity). lia. }
  assert (Z0 = Y) as <-; [|done].
  destruct (Z.lt_trichotomy Z0 Y) as [Hlt|[?|Hgt]]; [exfalso|done|exfalso].
  - pose proof (molad_day_mono Z0 (Y - 1) ltac:(lia)).
    pose proof (molad_day_step (Y - 1) ltac:(lia)) as H1. pose proof (molad_day_step Y ltac:(lia)) as H2.
    replace (Y - 1 + 1) with Y in H1 by lia. destruct (leap_year (Y - 1)), (leap_year Y); lia.
  - pose proof (molad_day_mono (Y + 1) Z0 ltac:(lia)). destruct (decide (0 < Z0 mod 19)) as [Hp|Hp].
    + pose proof (molad_day_mono Y (Z0 - 1) ltac:(lia)). pose proof (molad_day_step Y ltac:(lia)) as H2.
      specialize (Hprev Hp). destruct (leap_year Y); lia.
    + lia.
Qed.

Lemma SdnToJewish_date sdn :
  JEWISH_SDN_OFFSET < sdn <= JEWISH_SDN_MAX ->
  exists d, SdnToJewish sdn = Some d /\ jewish_date (sdn - JEWISH_SDN_OFFSET) d.
Proof.
  unfold JEWISH_SDN_OFFSET, JEWISH_SDN_MAX. intros Hs. unfold SdnToJewish, JEWISH_SDN_OFFSET, JEWISH_SDN_MAX.
  replace (_ || _) with false by (zcase; done). set (n := sdn - 347997).
  destruct (FindTishriMolad_spec n) as (Y & -> & HY & Hnear & Hprev); [lia|]. cbn [mbind option_bind].
  rewrite (Tishri1_at Y) by lia. pose proof (new_year_range Y HY) as HT.
  pose proof (Z.div_mod Y 19 ltac:(lia)) as Hdm. pose proof (Z.mod_pos_bound Y 19 ltac:(lia)) as Hmb.
  assert (HY21 : Y < 2 ^ 21).
  { destruct Hnear as [_ Hu]. revert Hu. unfold molad_day, molad_time, months_before.
    change HALAKIM_PER_LUNAR_CYCLE with 765433. change HALAKIM_PER_DAY with 25920.
    change NEW_MOON_OF_CREATION with 31524. euclid. }
  destruct (Z.leb_spec (new_year Y) n) as [Hge|Hlt].
  - rewrite (wrap_s_small 32 (_ + 1)) by lia. replace (Y / 19 * 19 + Y mod 19 + 1) with (Y + 1) by lia.
    pose proof (year_length Y ltac:(lia)) as Hlen.
    assert (Hin : new_year Y <= n < new_year (Y + 1)) by (unfold length_ok in Hlen; destruct (leap_year Y); lia).
    assert (Hir : 59 <= n - new_year Y -> if leap_year Y then n <= new_year (Y + 1) - 296 else n <= new_year (Y + 1) - 266)
      by (unfold length_ok in Hlen; destruct (leap_year Y); lia).
    destruct (Z.ltb_spec n (new_year Y + 59)); [destruct (Z.ltb_spec n (new_year Y + 30))|].
    + eexists. split; [done|]. rewrite (wrap_s_small 32) by lia. jdate; lia.
    + eexists. split; [done|]. rewrite (wrap_s_small 32) by lia. jdate; [destruct (_ || _); lia|lia].
    + rewrite monthsPerYear_at by lia. cbn [mbind option_bind]. rewrite advance_year by lia.
      assert ((Y mod 19 + 1) %c 19 = (Y + 1) mod 19) as -> by (rewrite rem_pos by euclid; euclid).
      rewrite Tishri1_at by lia. eexists. split; [done|].
      apply heshvan_kislev_date; [lia|done|lia|apply Hir; lia].
  - assert (0 < Y).
    { destruct (decide (Y = 0)) as [->|]; [|lia]. assert (new_year 0 = 1) by (vm_compute; reflexivity). lia. }
    rewrite (wrap_s_small 32 (Y / 19 * 19 + _)) by lia. replace (Y / 19 * 19 + Y mod 19) with (Y - 1 + 1) by lia.
    set (X := Y - 1) in *. assert (HYX : Y = X + 1) by lia. clearbody X. subst Y.
    pose proof (new_year_range X ltac:(lia)) as HTX. pose proof (year_length X ltac:(lia)) as Hlen.
    pose proof (molad_day_step X ltac:(lia)) as Hst.
    assert (Hlo : 59 <= n - new_year X).
    { destruct (decide (0 < (X + 1) mod 19)) as [Hp|Hp].
      - specialize (Hprev Hp). replace (X + 1 - 1) with X in Hprev by lia. lia.
      - assert (leap_year X = true) as Hl; [|rewrite Hl in Hst; lia].
        unfold leap_year, months_before. apply Z.eqb_eq. euclid. }
    assert (Hin : new_year X <= n < new_year (X + 1)) by lia.
    destruct (Z.leb_spec (new_year (X + 1) - 177) n).
    { eexists. split; [done|]. apply last_months_date; [lia|done|lia]. }
    rewrite rem_pos by lia. replace (X + 1 - 1) with X by lia. rewrite monthsPerYear_at by lia.
    cbn [mbind option_bind]. rewrite leap_of_months.
    pose proof (middle_months_date n X ltac:(lia) Hin ltac:(lia)) as Hmid.
    destruct (middle_months _ _ _ _) as [d|]; [by exists d|].
    change (molad (X + 1)).1 with (molad_day (X + 1)). rewrite FindTishriMolad_start by lia.
    cbn [mbind option_bind]. rewrite Tishri1_at by lia. eexists. split; [done|].
    by apply heshvan_kislev_date; [lia|..].
Qed.



(** The year's molad, and so its new year, overflows [int] two cycles before the last SDN. *)
Example jewish_overflow :
  SdnToJewish JEWISH_SDN_MAX = Some (mkDate 887605 12 13) /\
  JewishToSdn 887605 12 13 = Some (-110422013).
Proof. vm_compute. done. Qed.
