(* ===== verification/CalendarExt.v ===== *)
(** * CalendarExt: the functions of the calendar extension

    Models the functions of src/ext/calendar/calendar.c, easter.c and cal_unix.c
    after their parameters are parsed.  A function returns a value of the script
    ([retval]); [RFalse true] is FALSE with a warning.  [None] is undefined
    behaviour (an array read out of range).  The clock, the local time zone and
    [mktime] of the C library are parameters. *)
From S2P Require Import Prelude Calendar Jewish JewishConv Symtable.
From stdpp Require Import base list option.
From Stdlib Require Import Lia Strings.String Strings.Ascii.
Local Open Scope Z_scope.
Local Open Scope c_scope.
Local Open Scope list_scope.
#[local] Abbreviation length := Datatypes.length.

(** The bytes of a string literal. *)
Definition lit (s : string) : list Z := (fun a => Z.of_N (N_of_ascii a)) <$> list_ascii_of_string s.
Arguments lit s%_string.

Inductive retval :=
  | RNull
  | RFalse (warning : bool)
  | RLong (n : Z)
  | RString (s : list Z)
  | RArray (fields : list (list Z * retval)).

(** ** The table of calendars *)

Definition CAL_GREGORIAN : Z := 0.
Definition CAL_JULIAN : Z := 1.
Definition CAL_JEWISH : Z := 2.
Definition CAL_FRENCH : Z := 3.
Definition CAL_NUM_CALS : Z := 4.

Definition MonthNameShort : list (list Z) :=
  [lit ""; lit "Jan"; lit "Feb"; lit "Mar"; lit "Apr"; lit "May"; lit "Jun"; lit "Jul"; lit "Aug"; lit "Sep";
   lit "Oct"; lit "Nov"; lit "Dec"].
Definition MonthNameLong : list (list Z) :=
  [lit ""; lit "January"; lit "February"; lit "March"; lit "April"; lit "May"; lit "June"; lit "July";
   lit "August"; lit "September"; lit "October"; lit "November"; lit "December"].
Definition JewishMonthNameLeap : list (list Z) :=
  [lit ""; lit "Tishri"; lit "Heshvan"; lit "Kislev"; lit "Tevet"; lit "Shevat"; lit "Adar I"; lit "Adar II";
   lit "Nisan"; lit "Iyyar"; lit "Sivan"; lit "Tammuz"; lit "Av"; lit "Elul"].
Definition JewishMonthName : list (list Z) :=
  [lit ""; lit "Tishri"; lit "Heshvan"; lit "Kislev"; lit "Tevet"; lit "Shevat"; lit ""; lit "Adar";
   lit "Nisan"; lit "Iyyar"; lit "Sivan"; lit "Tammuz"; lit "Av"; lit "Elul"].
Definition FrenchMonthName : list (list Z) :=
  [lit ""; lit "Vendemiaire"; lit "Brumaire"; lit "Frimaire"; lit "Nivose"; lit "Pluviose"; lit "Ventose";
   lit "Germinal"; lit "Floreal"; lit "Prairial"; lit "Messidor"; lit "Thermidor"; lit "Fructidor"; lit "Extra"].
Definition DayNameShort : list (list Z) :=
  [lit "Sun"; lit "Mon"; lit "Tue"; lit "Wed"; lit "Thu"; lit "Fri"; lit "Sat"].
Definition DayNameLong : list (list Z) :=
  [lit "Sunday"; lit "Monday"; lit "Tuesday"; lit "Wednesday"; lit "Thursday"; lit "Friday"; lit "Saturday"].

(** The Hebrew names are in ISO 8859-8. *)
Definition JewishMonthHebNameLeap : list (list Z) :=
  [[]; [250; 249; 248; 233]; [231; 249; 229; 239]; [235; 241; 236; 229]; [232; 225; 250]; [249; 225; 232];
   [224; 227; 248; 32; 224; 39]; [224; 227; 248; 32; 225; 39]; [240; 233; 241; 239]; [224; 233; 233; 248];
   [241; 233; 229; 239]; [250; 238; 229; 230]; [224; 225]; [224; 236; 229; 236]].
Definition JewishMonthHebName : list (list Z) :=
  [[]; [250; 249; 248; 233]; [231; 249; 229; 239]; [235; 241; 236; 229]; [232; 225; 250]; [249; 225; 232];
   []; [224; 227; 248]; [240; 233; 241; 239]; [224; 233; 233; 248];
   [241; 233; 229; 239]; [250; 238; 229; 230]; [224; 225]; [224; 236; 229; 236]].

Definition sref (a : list (list Z)) (i : Z) : option (list Z) :=
  if 0 <=? i then a !! Z.to_nat i else None.

Definition JEWISH_MONTH_NAME (year : Z) : option (list (list Z)) :=
  months ← aref monthsPerYear ((year - 1) %c 19);
  Some (if months =? 13 then JewishMonthNameLeap else JewishMonthName).

Definition JEWISH_HEB_MONTH_NAME (year : Z) : option (list (list Z)) :=
  months ← aref monthsPerYear ((year - 1) %c 19);
  Some (if months =? 13 then JewishMonthHebNameLeap else JewishMonthHebName).

Record cal_entry_t := mkCal {
  name : list Z;
  symbol : list Z;
  to_jd : Z -> Z -> Z -> option Z;
  from_jd : Z -> option date;
  num_months : Z;
  max_days_in_month : Z;
  month_name_short : list (list Z);
  month_name_long : list (list Z)
}.

Definition cal_conversion_table : list cal_entry_t :=
  [mkCal (lit "Gregorian") (lit "CAL_GREGORIAN") (fun y m d => Some (GregorianToSdn y m d))
     (fun sdn => Some (SdnToGregorian sdn)) 12 31 MonthNameShort MonthNameLong;
   mkCal (lit "Julian") (lit "CAL_JULIAN") (fun y m d => Some (JulianToSdn y m d))
     (fun sdn => Some (SdnToJulian sdn)) 12 31 MonthNameShort MonthNameLong;
   mkCal (lit "Jewish") (lit "CAL_JEWISH") JewishToSdn SdnToJewish 13 30 JewishMonthNameLeap JewishMonthNameLeap;
   mkCal (lit "French") (lit "CAL_FRENCH") (fun y m d => Some (FrenchToSdn y m d))
     (fun sdn => Some (SdnToFrench sdn)) 13 30 FrenchMonthName FrenchMonthName].

(** ** calendar.c *)

(** The [for] loop of [_jonj_cal_info], [n] turns from [i]. *)
Fixpoint name_fields (n : nat) (i : Z) (names : list (list Z)) : option (list (list Z * retval)) :=
  match n with
  | O => Some []
  | S n =>
      s ← sref names i;
      rest ← name_fields n (i + 1) names;
      Some ((print_long i, RString s) :: rest)
  end.

Definition _jonj_cal_info (cal : Z) : option retval :=
  calendar ← cal_conversion_table !! Z.to_nat cal;
  months ← name_fields (Z.to_nat (num_months calendar)) 1 (month_name_long calendar);
  smonths ← name_fields (Z.to_nat (num_months calendar)) 1 (month_name_short calendar);
  Some (RArray [(lit "months", RArray months); (lit "abbrevmonths", RArray smonths);
    (lit "maxdaysinmonth", RLong (max_days_in_month calendar));
    (lit "calname", RString (name calendar)); (lit "calsymbol", RString (symbol calendar))]).

Definition cal_info (cal : Z) : option retval :=
  if cal =? -1 then
    i0 ← _jonj_cal_info 0; i1 ← _jonj_cal_info 1; i2 ← _jonj_cal_info 2; i3 ← _jonj_cal_info 3;
    Some (RArray [(print_long 0, i0); (print_long 1, i1); (print_long 2, i2); (print_long 3, i3)])
  else if (cal <? 0) || (CAL_NUM_CALS <=? cal) then Some (RFalse true)
  else _jonj_cal_info cal.

Definition cal_days_in_month (cal month year : Z) : option retval :=
  if (cal <? 0) || (CAL_NUM_CALS <=? cal) then Some (RFalse true)
  else
    calendar ← cal_conversion_table !! Z.to_nat cal;
    sdn_start ← to_jd calendar (s32 year) (s32 month) 1;
    if sdn_start =? 0 then Some (RFalse true)
    else
      sdn_next ← to_jd calendar (s32 year) (s32 (1 + month)) 1;
      sdn_next ←
        (if sdn_next =? 0 then
           if year =? -1 then to_jd calendar 1 1 1
           else
             sdn_next ← to_jd calendar (s32 (year + 1)) 1 1;
             if (cal =? CAL_FRENCH) && (sdn_next =? 0) then Some 2380953 else Some sdn_next
         else Some sdn_next);
      Some (RLong (sdn_next - sdn_start)).

Definition cal_to_jd (cal month day year : Z) : option retval :=
  if (cal <? 0) || (CAL_NUM_CALS <=? cal) then Some (RFalse true)
  else
    calendar ← cal_conversion_table !! Z.to_nat cal;
    sdn ← to_jd calendar (s32 year) (s32 month) (s32 day);
    Some (RLong sdn).

(** [snprintf(date, sizeof(date), "%i/%i/%i", month, day, year)] with [char date[16]] *)
Definition date_string (d : date) : list Z :=
  take 15 (print_long (pMonth d) ++ lit "/" ++ print_long (pDay d) ++ lit "/" ++ print_long (pYear d)).

Definition cal_from_jd (jd cal : Z) : option retval :=
  if (cal <? 0) || (CAL_NUM_CALS <=? cal) then Some (RFalse true)
  else
    calendar ← cal_conversion_table !! Z.to_nat cal;
    d ← from_jd calendar jd;
    dow_fields ←
      (if negb (cal =? CAL_JEWISH) || (0 <? pYear d) then
         let dow := DayOfWeek jd in
         short ← sref DayNameShort dow;
         long ← sref DayNameLong dow;
         Some [(lit "dow", RLong dow); (lit "abbrevdayname", RString short); (lit "dayname", RString long)]
       else Some [(lit "dow", RNull); (lit "abbrevdayname", RString []); (lit "dayname", RString [])]);
    month_fields ←
      (if cal =? CAL_JEWISH then
         s ← (if 0 <? pYear d then names ← JEWISH_MONTH_NAME (pYear d); sref names (pMonth d) else Some []);
         Some [(lit "abbrevmonth", RString s); (lit "monthname", RString s)]
       else
         short ← sref (month_name_short calendar) (pMonth d);
         long ← sref (month_name_long calendar) (pMonth d);
         Some [(lit "abbrevmonth", RString short); (lit "monthname", RString long)]);
    Some (RArray ([(lit "date", RString (date_string d)); (lit "month", RLong (pMonth d));
                   (lit "day", RLong (pDay d)); (lit "year", RLong (pYear d))] ++ dow_fields ++ month_fields)).

Definition jdtogregorian (julday : Z) : retval := RString (date_string (SdnToGregorian julday)).
Definition gregoriantojd (month day year : Z) : retval := RLong (GregorianToSdn (s32 year) (s32 month) (s32 day)).
Definition jdtojulian (julday : Z) : retval := RString (date_string (SdnToJulian julday)).
Definition juliantojd (month day year : Z) : retval := RLong (JulianToSdn (s32 year) (s32 month) (s32 day)).
Definition jdtofrench (julday : Z) : retval := RString (date_string (SdnToFrench julday)).
Definition frenchtojd (month day year : Z) : retval := RLong (FrenchToSdn (s32 year) (s32 month) (s32 day)).
Definition jewishtojd (month day year : Z) : option retval :=
  sdn ← JewishToSdn (s32 year) (s32 month) (s32 day); Some (RLong sdn).

Definition alef_bet : list Z :=
  [48; 224; 225; 226; 227; 228; 229; 230; 231; 232; 233; 235; 236; 238; 240; 241; 242; 244; 246; 247; 248; 249; 250; 0; 0].

Definition CAL_JEWISH_ADD_ALAFIM_GERESH : Z := 2.
Definition CAL_JEWISH_ADD_ALAFIM : Z := 4.
Definition CAL_JEWISH_ADD_GERESHAYIM : Z := 8.

Definition flag (fl bit : Z) : bool := negb (Z.land bit fl =? 0).

(** [while (n >= 400) { *p = alef_bet[22]; p++; n -= 400; }]: at most two turns for [n < 1000] *)
Fixpoint tav_loop (fuel : nat) (n : Z) : option (list Z * Z) :=
  if 400 <=? n then
    match fuel with
    | O => None
    | S fuel =>
        c ← aref alef_bet 22;
        '(p, n) ← tav_loop fuel (n - 400);
        Some (c :: p, n)
    end
  else Some ([], n).

(** The letters of the thousands, with their marks. *)
Definition heb_alafim (n fl : Z) : option (list Z) :=
  if negb (n /c 1000 =? 0) then
    c ← aref alef_bet (n /c 1000);
    Some ([c] ++ (if flag fl CAL_JEWISH_ADD_ALAFIM_GERESH then [39] else [])
              ++ (if flag fl CAL_JEWISH_ADD_ALAFIM then [32; 224; 236; 244; 233; 237; 32] else []))
  else Some [].

(** The letters of a number below 1000. *)
Definition heb_letters (n : Z) : option (list Z) :=
  '(p, n) ← tav_loop 2 n;
  '(h, n) ← (if 100 <=? n then c ← aref alef_bet (18 + n /c 100); Some ([c], n %c 100) else Some ([], n));
  if (n =? 15) || (n =? 16) then
    c ← aref alef_bet 9;
    c' ← aref alef_bet (n - 9);
    Some (p ++ h ++ [c; c'])
  else
    '(t, n) ← (if 10 <=? n then c ← aref alef_bet (9 + n /c 10); Some ([c], n %c 10) else Some ([], n));
    u ← (if 0 <? n then c ← aref alef_bet n; Some [c] else Some []);
    Some (p ++ h ++ t ++ u).

(** The mark before the last letter, or after the only one. *)
Definition gereshayim (l : list Z) : list Z :=
  match reverse l with
  | [] => []
  | [c] => [c; 39]
  | c :: r => reverse r ++ [34; c]
  end.

(** The bytes of [old] before its NUL; [Some None] is a NULL result. *)
Definition heb_number_to_chars (n fl : Z) : option (option (list Z)) :=
  if (9999 <? n) || (n <? 1) then Some None
  else
    alafim ← heb_alafim n fl;
    let n := if negb (n /c 1000 =? 0) then n %c 1000 else n in
    letters ← heb_letters n;
    let letters := if flag fl CAL_JEWISH_ADD_GERESHAYIM then gereshayim letters else letters in
    Some (Some (alafim ++ letters)).

(** [%s] of a NULL pointer prints "(null)". *)
Definition str_or_null (s : option (list Z)) : list Z := default (lit "(null)") s.

Definition jdtojewish (julday : Z) (heb : bool) (fl : Z) : option retval :=
  d ← SdnToJewish julday;
  if negb heb then Some (RString (date_string d))
  else if (pYear d <=? 0) || (9999 <? pYear d) then Some (RFalse true)
  else
    dayp ← heb_number_to_chars (pDay d) (s32 fl);
    names ← JEWISH_HEB_MONTH_NAME (pYear d);
    month ← sref names (pMonth d);
    yearp ← heb_number_to_chars (pYear d) (s32 fl);
    Some (RString (take 31 (str_or_null dayp ++ lit " " ++ month ++ lit " " ++ str_or_null yearp))).

Definition CAL_DOW_DAYNO : Z := 0.
Definition CAL_DOW_LONG : Z := 1.
Definition CAL_DOW_SHORT : Z := 2.

Definition jddayofweek (julday mode : Z) : option retval :=
  let day := DayOfWeek julday in
  daynamel ← sref DayNameLong day;
  daynames ← sref DayNameShort day;
  if mode =? CAL_DOW_LONG then Some (RString daynamel)
  else if mode =? CAL_DOW_SHORT then Some (RString daynames)
  else Some (RLong day).

Definition CAL_MONTH_GREGORIAN_LONG : Z := 1.
Definition CAL_MONTH_JULIAN_SHORT : Z := 2.
Definition CAL_MONTH_JULIAN_LONG : Z := 3.
Definition CAL_MONTH_JEWISH : Z := 4.
Definition CAL_MONTH_FRENCH : Z := 5.

Definition jdmonthname (julday mode : Z) : option retval :=
  monthname ←
    (if mode =? CAL_MONTH_GREGORIAN_LONG then sref MonthNameLong (pMonth (SdnToGregorian julday))
     else if mode =? CAL_MONTH_JULIAN_SHORT then sref MonthNameShort (pMonth (SdnToJulian julday))
     else if mode =? CAL_MONTH_JULIAN_LONG then sref MonthNameLong (pMonth (SdnToJulian julday))
     else if mode =? CAL_MONTH_JEWISH then
       d ← SdnToJewish julday;
       if 0 <? pYear d then names ← JEWISH_MONTH_NAME (pYear d); sref names (pMonth d) else Some []
     else if mode =? CAL_MONTH_FRENCH then sref FrenchMonthName (pMonth (SdnToFrench julday))
     else sref MonthNameShort (pMonth (SdnToGregorian julday)));
  Some (RString monthname).

(** ** cal_unix.c *)

(** The fields of [struct tm] that are read or set. *)
Record tm := mkTm { tm_year : Z; tm_mon : Z; tm_mday : Z }.

Definition unixtojd (now : Z) (localtime : Z -> option tm) (ts : Z) : retval :=
  let convert ts :=
    match localtime ts with
    | None => RFalse false
    | Some ta => RLong (GregorianToSdn (s32 (tm_year ta + 1900)) (s32 (tm_mon ta + 1)) (tm_mday ta))
    end in
  if ts =? 0 then convert now
  else if ts <? 0 then RFalse false
  else convert ts.

Definition jdtounix (jday : Z) : retval :=
  let uday := s64 (jday - 2440588) in
  if (uday <? 0) || (24755 <? uday) then RFalse false
  else RLong (uday * 24 * 3600).

(** ** easter.c *)

Definition CAL_EASTER_DEFAULT : Z := 0.
Definition CAL_EASTER_ROMAN : Z := 1.
Definition CAL_EASTER_ALWAYS_GREGORIAN : Z := 2.
Definition CAL_EASTER_ALWAYS_JULIAN : Z := 3.

(** [x %= n; if (x < 0) x += n;] *)
Definition pos_rem (x n : Z) : Z := let r := x %c n in if r <? 0 then r + n else r.

(** The Julian reckoning is used up to 1582, up to 1752 by default, or always. *)
Definition easter_julian (year method : Z) : bool :=
  ((year <=? 1582) && negb (method =? CAL_EASTER_ALWAYS_GREGORIAN)) ||
  ((1583 <=? year) && (year <=? 1752) && negb (method =? CAL_EASTER_ROMAN) &&
     negb (method =? CAL_EASTER_ALWAYS_GREGORIAN)) ||
  (method =? CAL_EASTER_ALWAYS_JULIAN).

(** Easter as the number of days after 21 March; [year] is far from the ends of [long]. *)
Definition easter_after_march21 (year method : Z) : Z :=
  let golden := year %c 19 + 1 in
  let '(dom, pfm) :=
    if easter_julian year method then
      (pos_rem (year + year /c 4 + 5) 7, pos_rem (3 - 11 * golden - 7) 30)
    else
      let solar := (year - 1600) /c 100 - (year - 1600) /c 400 in
      let lunar := (((year - 1400) /c 100) * 8) /c 25 in
      (pos_rem (year + year /c 4 - year /c 100 + year /c 400) 7, pos_rem (3 - 11 * golden + solar - lunar) 30) in
  let pfm := if (pfm =? 29) || ((pfm =? 28) && (11 <? golden)) then pfm - 1 else pfm in
  let tmp := pos_rem (4 - pfm - dom) 7 in
  pfm + tmp + 1.

Definition _cal_easter (mktime : tm -> Z) (gm : bool) (year method : Z) : retval :=
  if gm && ((year <? 1970) || (2037 <? year)) then RFalse true
  else
    let easter := easter_after_march21 year method in
    if gm then
      if easter <? 11 then RLong (mktime (mkTm (year - 1900) 2 (easter + 21)))
      else RLong (mktime (mkTm (year - 1900) 3 (easter - 10)))
    else RLong easter.

(** ** Easter *)

Lemma pos_rem_mod x n : 0 < n -> pos_rem x n = x mod n.
Proof.
  intros Hn. unfold pos_rem. pose proof (Z.quot_rem' x n) as Hq.
  pose proof (Z.rem_bound_abs x n ltac:(lia)) as Hb.
  destruct (Z.ltb_spec (x %c n) 0).
  - apply Z.mod_unique_pos with (q := x /c n - 1); lia.
  - apply Z.mod_unique_pos with (q := x /c n); lia.
Qed.

Lemma gregorian_days_from_epoch y :
  0 <= y -> gregorian_days (y + 4800) = 1753164 + 365 * y + y / 4 - y / 100 + y / 400.
Proof. intros. unfold gregorian_days. euclid. Qed.

Lemma DayOfWeek_mod sdn : 0 <= sdn < 2 ^ 62 -> DayOfWeek sdn = (sdn + 1) mod 7.
Proof.
  intros Hs. unfold DayOfWeek. rewrite (wrap_s_small 64) by lia. rewrite rem_pos by lia.
  pose proof (Z.mod_pos_bound (sdn + 1) 7). rewrite (wrap_s_small 32) by lia. zcase.
Qed.

(** A number of days after 21 March computed from the Sunday letter is a Sunday. *)
Lemma sunday_after pfm dom base :
  (base + 6 - dom) mod 7 = 0 -> (base + (pfm + (4 - pfm - dom) mod 7 + 1) + 1) mod 7 = 0.
Proof. intros H. euclid. Qed.

Lemma march21_gregorian y :
  1 <= y <= 1000000 -> GregorianToSdn y 3 21 = 1721140 + 365 * y + y / 4 - y / 100 + y / 400.
Proof.
  intros Hy. pose proof (GregorianToSdn_index (mkDate y 3 21)) as Hi. cbn [pYear pMonth pDay] in Hi.
  rewrite Hi; [|split_and!; cbn; lia|left; cbn; lia|lia].
  unfold march_year, march_day, astronomical. cbn [pYear pMonth pDay].
  destruct (Z.ltb_spec y 0); [lia|]. change (2 <? 3) with true. cbv iota.
  rewrite Z.sub_0_r, gregorian_days_from_epoch by lia. change ((153 * (3 - 3) + 2) / 5) with 0. lia.
Qed.

Lemma march21_julian y : 1 <= y <= 1000000 -> JulianToSdn y 3 21 = 1721138 + 365 * y + y / 4.
Proof.
  intros Hy. pose proof (JulianToSdn_index (mkDate y 3 21)) as Hi. cbn [pYear pMonth pDay] in Hi.
  rewrite Hi; [|split_and!; cbn; lia|left; cbn; lia|lia].
  unfold march_year, march_day, astronomical, julian_days. cbn [pYear pMonth pDay].
  destruct (Z.ltb_spec y 0); [lia|]. change (2 <? 3) with true. cbv iota.
  change ((153 * (3 - 3) + 2) / 5) with 0. euclid.
Qed.

(** Easter: the day that [_cal_easter] computes is a Sunday of the calendar it
    reckons in, from 22 March to 25 April. *)
Theorem easter_is_sunday year method :
  1 <= year <= 1000000 ->
  let e := easter_after_march21 year method in
  let march21 := if easter_julian year method then JulianToSdn year 3 21 else GregorianToSdn year 3 21 in
  1 <= e <= 35 /\ DayOfWeek (march21 + e) = 0.
Proof.
  intros Hy. cbv zeta. unfold easter_after_march21.
  rewrite !pos_rem_mod by lia. rewrite (quot_pos year 4), (quot_pos year 100), (quot_pos year 400) by lia.
  set (golden := year %c 19 + 1). set (solar := (year - 1600) /c 100 - _). set (lunar := (_ * 8) /c 25).
  assert (Hpfm : forall p, 0 <= p < 30 ->
    0 <= (if (p =? 29) || ((p =? 28) && (11 <? golden)) then p - 1 else p) <= 28).
  { intros p Hp. zcase; cbn [andb orb]; lia. }
  destruct (easter_julian year method); rewrite !pos_rem_mod by lia.
  - rewrite (march21_julian year Hy).
    pose proof (Hpfm _ (Z.mod_pos_bound (3 - 11 * golden - 7) 30 ltac:(lia))) as Hp.
    set (pfm := if _ || _ then _ else _) in *. clearbody pfm.
    pose proof (Z.mod_pos_bound (4 - pfm - (year + year / 4 + 5) mod 7) 7 ltac:(lia)). split; [lia|].
    rewrite DayOfWeek_mod by euclid. apply sunday_after. euclid.
  - rewrite (march21_gregorian year Hy).
    pose proof (Hpfm _ (Z.mod_pos_bound (3 - 11 * golden + solar - lunar) 30 ltac:(lia))) as Hp.
    set (pfm := if _ || _ then _ else _) in *. clearbody pfm. clear solar lunar.
    set (dom := (_ - year / 100 + _) mod 7).
    pose proof (Z.mod_pos_bound (4 - pfm - dom) 7 ltac:(lia)). split; [lia|].
    rewrite DayOfWeek_mod by euclid. apply sunday_after. unfold dom. euclid.
Qed.

Lemma easter_witness :
  1 <= easter_after_march21 2000 CAL_EASTER_DEFAULT <= 35 /\
  DayOfWeek (GregorianToSdn 2000 3 21 + easter_after_march21 2000 CAL_EASTER_DEFAULT) = 0.
Proof. apply (easter_is_sunday 2000 CAL_EASTER_DEFAULT). split; discriminate. Defined.

(** ** The lengths of the months *)

(** The first day of the next month is the length of the month after the first. *)
Lemma next_month_index leap D y m :
  (forall A, 0 <= A -> D (A + 1) = D A + march_len leap A) ->
  y <> 0 -> -4714 <= y -> 1 <= m <= 12 ->
  let d := mkDate y m 1 in
  let d' := if m <? 12 then mkDate y (m + 1) 1 else mkDate (next_year y) 1 1 in
  D (march_year d') + march_day d' = D (march_year d) + march_day d + month_days leap y m.
Proof.
  intros HD Hy0 Hy Hm. cbv zeta. set (a := astronomical y). 
  assert (Ha : -4714 < a) by (unfold a, astronomical; zcase).
  assert (Hn : astronomical (next_year y) = a + 1) by (unfold a, astronomical, next_year; zcase).
  assert (Hm12 : m = 12 \/ m = 2 \/ 1 <= m <= 11 /\ m <> 2) by lia. destruct Hm12 as [->|[->|[Hm11 Hm2]]].
  - change (12 <? 12) with false. cbv iota. unfold march_year, march_day. cbn [pYear pMonth pDay].
    rewrite Hn. fold a. unfold month_days. zground. change (2 <? 1) with false. change (2 <? 12) with true. cbv iota.
    replace (a + 1 + 4800 - 1) with (a + 4800 - 0) by lia.
    change ((153 * (1 + 9) + 2) / 5) with 306. change ((153 * (12 - 3) + 2) / 5) with 275. lia.
  - change (2 <? 12) with true. cbv iota. unfold march_year, march_day. cbn [pYear pMonth pDay]. fold a.
    change (2 <? 2 + 1) with true. change (2 <? 2) with false. cbv iota.
    change ((153 * (2 + 1 - 3) + 2) / 5) with 0. change ((153 * (2 + 9) + 2) / 5) with 337.
    replace (a + 4800 - 0) with (a + 4800 - 1 + 1) by lia. rewrite HD by lia.
    unfold march_len, month_days. replace (year_label (a + 4800 - 1 + 1)) with y.
    2: { replace (a + 4800 - 1 + 1) with (a + 4800) by lia. unfold a. by rewrite label_astronomical. }
    change (2 =? 2) with true. cbv iota. destruct (leap y); lia.
  - destruct (Z.ltb_spec m 12); [|lia]. unfold march_year, march_day. cbn [pYear pMonth pDay]. fold a.
    assert (He : m ∈ [1; 3; 4; 5; 6; 7; 8; 9; 10; 11]) by (rewrite !elem_of_cons; lia).
    unfold month_days. rewrite !elem_of_cons, list.elem_of_nil in He.
    decompose [or] He; subst; try done; vm_compute (_ / 5); zcase; cbn [orb]; lia.
Qed.

(** The month of [cal_days_in_month], for a calendar whose conversion gives a
    positive serial number to the first days of the month and of the next one. *)
Lemma cal_days_by_next cal y m conv D leap lo :
  cal_conversion_table !! Z.to_nat cal = Some conv -> 0 <= cal < CAL_FRENCH ->
  -4714 <= y < 2 ^ 31 - 1 -> y <> 0 -> 1 <= m <= 12 ->
  (forall A, 0 <= A -> D (A + 1) = D A + march_len leap A) ->
  (forall d, pDay d = 1 -> d = mkDate y m 1 \/ d = mkDate y (m + 1) 1 /\ m < 12 \/ d = mkDate (next_year y) 1 1 ->
     to_jd conv (pYear d) (pMonth d) (pDay d) = Some (D (march_year d) + march_day d - lo) /\
     0 < D (march_year d) + march_day d - lo) ->
  (m = 12 -> to_jd conv y 13 1 = Some 0) ->
  cal_days_in_month cal m y = Some (RLong (month_days leap y m)).
Proof.
  intros Hcal Hc Hy Hy0 Hm HD Hconv H13. unfold CAL_FRENCH in Hc. unfold cal_days_in_month, CAL_NUM_CALS, CAL_FRENCH.
  replace (_ || _) with false by (zcase; done). rewrite Hcal. cbn [mbind option_bind].
  rewrite (wrap_s_small 32 y), (wrap_s_small 32 m), (wrap_s_small 32 (1 + m)) by lia.
  destruct (Hconv (mkDate y m 1)) as [H1 Hp1]; [done|by left|]. cbn [pYear pMonth pDay] in H1. rewrite H1.
  cbn [mbind option_bind]. destruct (Z.eqb_spec (D (march_year (mkDate y m 1)) + march_day (mkDate y m 1) - lo) 0); [lia|].
  pose proof (next_month_index leap D y m HD Hy0 ltac:(lia) Hm) as Hnext. cbv zeta in Hnext.
  destruct (Z.ltb_spec m 12) as [Hlt|Hge].
  - destruct (Hconv (mkDate y (m + 1) 1)) as [H2 Hp2]; [done|by right; left|]. cbn [pYear pMonth pDay] in H2.
    replace (1 + m) with (m + 1) by lia. rewrite H2. cbn [mbind option_bind].
    destruct (Z.eqb_spec (D (march_year (mkDate y (m + 1) 1)) + march_day (mkDate y (m + 1) 1) - lo) 0); [lia|].
    cbn [mbind option_bind]. do 2 f_equal. lia.
  - assert (m = 12) as -> by lia. replace (1 + 12) with 13 by lia. rewrite H13 by done. cbn [mbind option_bind].
    destruct (Hconv (mkDate (next_year y) 1 1)) as [H2 Hp2]; [done|by right; right|]. cbn [pYear pMonth pDay] in H2.
    change (0 =? 0) with true. cbv iota. unfold next_year in *. destruct (Z.eqb_spec y (-1)) as [->|Hne].
    + rewrite H2. cbn [mbind option_bind]. do 2 f_equal. lia.
    + rewrite (wrap_s_small 32 (y + 1)) by lia. rewrite H2. cbn [mbind option_bind].
      replace (cal =? 3) with false by (zcase; done). cbn [andb mbind option_bind]. do 2 f_equal. lia.
Qed.

(** [cal_days_in_month]: for the Gregorian, Julian and French calendars the
    difference of two serial day numbers is the length of the month by the
    calendar's rules, at the turn from 1 B.C. to 1 A.D. and at the end of the
    French calendar too; an unknown calendar is refused. *)
Theorem cal_days_in_month_correct y m :
  -4712 <= y < 1465072 -> y <> 0 -> 1 <= m <= 12 ->
  cal_days_in_month CAL_GREGORIAN m y = Some (RLong (month_days gregorian_leap y m)) /\
  cal_days_in_month CAL_JULIAN m y = Some (RLong (month_days julian_leap y m)) /\
  (forall y m, 1 <= y <= 14 -> 1 <= m <= 13 ->
     cal_days_in_month CAL_FRENCH m y =
     Some (RLong (if m =? 13 then if y mod 4 =? 3 then 6 else 5 else 30))) /\
  (forall cal, cal < 0 \/ CAL_NUM_CALS <= cal -> cal_days_in_month cal m y = Some (RFalse true)).
Proof.
  intros Hy Hy0 Hm.
  assert (Hnv : forall leap d, pDay d = 1 -> d = mkDate y m 1 \/ d = mkDate y (m + 1) 1 /\ m < 12 \/
    d = mkDate (next_year y) 1 1 -> valid_date leap d /\ y <= pYear d <= Z.max 1 (y + 1)).
  { intros leap d _ Hd. pose proof (month_days_range leap (pYear d) (pMonth d)) as Hr. unfold next_year in Hd.
    destruct Hd as [->|[[-> ?]| ->]]; cbn [pYear pMonth pDay] in *; unfold valid_date; cbn [pYear pMonth pDay];
      zcase; split_and!; lia. }
  split_and!.
  - eapply (cal_days_by_next _ _ _ _ gregorian_days _ 32044); [done|done|lia|done|done|apply gregorian_days_step| |].
    + intros d Hd1 Hd. destruct (Hnv gregorian_leap d Hd1 Hd) as [Hv Hyd]. cbn [to_jd].
      assert (Hfr : from_date (mkDate (-4714) 11 25) d) by (left; cbn; lia).
      rewrite GregorianToSdn_index by (done || lia). split; [done|].
      destruct (first_gregorian_index d Hv Hfr); lia.
    + intros ->. cbn [to_jd]. unfold GregorianToSdn. by replace (_ || _) with true by (zcase; done).
  - eapply (cal_days_by_next _ _ _ _ julian_days _ 32082); [done|done|lia|done|done|apply julian_days_step| |].
    + intros d Hd1 Hd. destruct (Hnv julian_leap d Hd1 Hd) as [Hv Hyd]. cbn [to_jd].
      assert (Hfr : from_date (mkDate (-4713) 1 2) d) by (left; cbn; lia).
      rewrite JulianToSdn_index by (done || lia). split; [done|].
      destruct (first_julian_index d Hv Hfr); lia.
    + intros ->. cbn [to_jd]. unfold JulianToSdn. by replace (_ || _) with true by (zcase; done).
  - clear. intros y m Hy Hm.
    assert (Hall : Forall (fun y => Forall (fun m => cal_days_in_month CAL_FRENCH m y =
       Some (RLong (if m =? 13 then if y mod 4 =? 3 then 6 else 5 else 30))) (seqZ 1 13)) (seqZ 1 14)).
    { repeat constructor. }
    rewrite list.Forall_forall in Hall. specialize (Hall y). rewrite elem_of_seqZ in Hall.
    specialize (Hall ltac:(lia)). rewrite list.Forall_forall in Hall. apply Hall, elem_of_seqZ. lia.
  - intros cal Hc. unfold cal_days_in_month, CAL_NUM_CALS in *. by replace (_ || _) with true by (zcase; done).
Qed.

Lemma cal_days_in_month_witness :
  cal_days_in_month CAL_GREGORIAN 12 (-1) = Some (RLong (month_days gregorian_leap (-1) 12)).
Proof. refine (proj1 (cal_days_in_month_correct (-1) 12 _ _ _)); [split; [discriminate|reflexivity]|discriminate|split; discriminate]. Defined.

(** ** Hebrew numerals *)

(** The value of a letter: units, tens, hundreds by its place in the alphabet. *)
Definition letter_value (c : Z) : Z :=
  match list_find (fun x => x = c) (take 22 (drop 1 alef_bet)) with
  | Some (i, _) => let i := Z.of_nat i + 1 in
      if i <? 10 then i else if i <? 19 then (i - 9) * 10 else (i - 18) * 100
  | None => 0
  end.

Definition numeral_value (l : list Z) : Z := foldr (fun c acc => letter_value c + acc) 0 l.

Definition letters_ok (n : Z) : bool :=
  match heb_letters n with
  | Some l => (length l <=? 5)%nat && (numeral_value l =? n)
  | None => false
  end.

Lemma letters_all : forallb letters_ok (seqZ 0 1000) = true.
Proof. vm_compute. reflexivity. Qed.

Lemma heb_letters_value n :
  0 <= n < 1000 -> exists l, heb_letters n = Some l /\ (length l <= 5)%nat /\ numeral_value l = n.
Proof.
  intros Hn. pose proof letters_all as H. rewrite forallb_forall in H.
  specialize (H n). rewrite <- list_elem_of_In, elem_of_seqZ in H. specialize (H ltac:(lia)).
  unfold letters_ok in H. destruct (heb_letters n) as [l|]; [|done].
  apply andb_true_iff in H as [H1 H2]. exists l. split_and!; [done| |lia]. by apply Nat.leb_le.
Qed.

Lemma gereshayim_length l : (length (gereshayim l) <= length l + 1)%nat.
Proof.
  unfold gereshayim. pose proof (length_reverse l) as Hl. destruct (reverse l) as [|c [|c' r]]; cbn [Datatypes.length] in *; [lia|lia|].
  rewrite length_app, length_reverse. cbn [Datatypes.length]. lia.
Qed.

(** C36: [heb_number_to_chars]: for every number it accepts, the letters after those
    of the thousands have the value of the number modulo 1000, the thousands
    have their letter, and with all the marks the text and its NUL fit in the 18
    bytes of [old]; any other number gives NULL. *)
Theorem heb_number_to_chars_correct n fl :
  if (1 <=? n) && (n <=? 9999) then
    exists alafim letters,
      heb_number_to_chars n fl =
        Some (Some (alafim ++ (if flag fl CAL_JEWISH_ADD_GERESHAYIM then gereshayim letters else letters))) /\
      numeral_value letters = n mod 1000 /\
      (if n <? 1000 then alafim = [] else exists rest, alafim = alef_bet !!! Z.to_nat (n / 1000) :: rest) /\
      (length (alafim ++ (if flag fl CAL_JEWISH_ADD_GERESHAYIM then gereshayim letters else letters)) + 1 <= 18)%nat
  else heb_number_to_chars n fl = Some None.
Proof.
  unfold heb_number_to_chars. destruct (Z.leb_spec 1 n), (Z.leb_spec n 9999); cbn [andb];
    [|by replace (_ || _) with true by (zcase; done)..].
  replace (_ || _) with false by (zcase; done).
  assert (Hn : (if negb (n /c 1000 =? 0) then n %c 1000 else n) = n mod 1000).
  { rewrite quot_pos, rem_pos by lia. destruct (Z.eqb_spec (n / 1000) 0); cbn [negb]; [|done]. euclid. }
  assert (Ha : exists alafim, heb_alafim n fl = Some alafim /\ (length alafim <= 9)%nat /\
    if n <? 1000 then alafim = [] else exists rest, alafim = alef_bet !!! Z.to_nat (n / 1000) :: rest).
  { unfold heb_alafim. rewrite quot_pos by lia. destruct (Z.eqb_spec (n / 1000) 0) as [Hz|Hz]; cbn [negb].
    - exists []. split_and!; [done|cbn; lia|]. destruct (Z.ltb_spec n 1000); [done|]. exfalso. euclid.
    - assert (Hr : 1 <= n / 1000 <= 9) by euclid. unfold aref. destruct (Z.leb_spec 0 (n / 1000)); [|lia].
      destruct (lookup_lt_is_Some_2 alef_bet (Z.to_nat (n / 1000))) as [c Hc]; [cbn; lia|]. rewrite Hc.
      cbn [mbind option_bind]. eexists. split; [done|]. rewrite (list_lookup_total_correct _ _ _ Hc).
      destruct (Z.ltb_spec n 1000); [exfalso; euclid|].
      destruct (flag fl CAL_JEWISH_ADD_ALAFIM_GERESH), (flag fl CAL_JEWISH_ADD_ALAFIM); cbn; split; first [lia|by eexists]. }
  destruct Ha as (alafim & -> & Hlen & Hth). rewrite Hn. cbn [mbind option_bind].
  destruct (heb_letters_value (n mod 1000)) as (letters & -> & Hll & Hv); [apply Z.mod_pos_bound; lia|].
  cbn [mbind option_bind]. exists alafim, letters. split_and!; [done|done|done|].
  rewrite length_app. pose proof (gereshayim_length letters). destruct (flag _ _); lia.
Qed.
