(* ===== verification/Checksums.v ===== *)
(** * Checksums: the checksum algorithms of the hash extension

    Models src/ext/hash/hash_adler32.c, hash_fnv.c, hash_joaat.c and hash_crc32.c
    with jonj_hash_crc32_tables.h.  A context is its [state] word; input bytes
    are numbers in [0, 256); an input has fewer than 2^32 bytes. *)
From S2P Require Import Prelude.
From stdpp Require Import base list.
From Stdlib Require Import Lia.
Local Open Scope Z_scope.

(** ** Adler-32 *)

Definition JONJ_ADLER32Init : Z := 1.

(** One turn of the loop over the input, on [s[0]] and [s[1]]. *)
Definition adler_step (s : Z * Z) (b : Z) : Z * Z :=
  let s0 := u32 (s.1 + b) in
  let s1 := u32 (s.2 + s0) in
  if 0x7fffffff <=? s1 then (s0 mod 65521, s1 mod 65521) else (s0, s1).

Definition JONJ_ADLER32Update (state : Z) (input : list Z) : Z :=
  let s := foldl adler_step (Z.land state 0xffff, Z.land (Z.shiftr state 16) 0xffff) input in
  let s0 := s.1 mod 65521 in
  let s1 := s.2 mod 65521 in
  u32 (s0 + u32 (Z.shiftl s1 16)).

(** Most significant byte first. *)
Definition digest4 (state : Z) : list Z :=
  [Z.land (Z.shiftr state 24) 0xff; Z.land (Z.shiftr state 16) 0xff;
   Z.land (Z.shiftr state 8) 0xff; Z.land state 0xff].

(** The digest and the state left in the context. *)
Definition JONJ_ADLER32Final (state : Z) : list Z * Z := (digest4 state, 0).

Definition JONJ_ADLER32Copy (orig_state : Z) : Z := orig_state.

(** ** FNV-1 and FNV-1a *)

Definition JONJ_FNV1_32_INIT : Z := 0x811c9dc5.
Definition JONJ_FNV_32_PRIME : Z := 0x01000193.
Definition JONJ_FNV1_64_INIT : Z := 0xcbf29ce484222325.
Definition JONJ_FNV_64_PRIME : Z := 0x100000001b3.

Definition fnv_32_buf (buf : list Z) (hval : Z) (alternate : bool) : Z :=
  foldl (fun hval b =>
    if negb alternate then Z.lxor (u32 (hval * JONJ_FNV_32_PRIME)) b
    else u32 (Z.lxor hval b * JONJ_FNV_32_PRIME)) hval buf.

Definition fnv_64_buf (buf : list Z) (hval : Z) (alternate : bool) : Z :=
  foldl (fun hval b =>
    if negb alternate then Z.lxor (u64 (hval * JONJ_FNV_64_PRIME)) b
    else u64 (Z.lxor hval b * JONJ_FNV_64_PRIME)) hval buf.

Definition JONJ_FNV132Init : Z := JONJ_FNV1_32_INIT.
Definition JONJ_FNV132Update (state : Z) (input : list Z) : Z := fnv_32_buf input state false.
Definition JONJ_FNV1a32Update (state : Z) (input : list Z) : Z := fnv_32_buf input state true.

(** The bytes of the context in memory, least significant first. *)
Fixpoint bytes_of (n : nat) (v : Z) : list Z :=
  match n with
  | O => []
  | S n => Z.land v 0xff :: bytes_of n (Z.shiftr v 8)
  end.

(** [digest[i] = c[3 - i]] on a little-endian machine *)
Definition JONJ_FNV132Final (state : Z) : list Z * Z := (reverse (bytes_of 4 state), state).

Definition JONJ_FNV164Init : Z := JONJ_FNV1_64_INIT.
Definition JONJ_FNV164Update (state : Z) (input : list Z) : Z := fnv_64_buf input state false.
Definition JONJ_FNV1a64Update (state : Z) (input : list Z) : Z := fnv_64_buf input state true.
Definition JONJ_FNV164Final (state : Z) : list Z * Z := (reverse (bytes_of 8 state), state).

(** ** Jenkins's one-at-a-time hash *)

Definition JONJ_JOAATInit : Z := 0.

Definition joaat_step (hval b : Z) : Z :=
  let hval := u32 (hval + b) in
  let hval := u32 (hval + u32 (Z.shiftl hval 10)) in
  Z.lxor hval (Z.shiftr hval 6).

Definition joaat_buf (buf : list Z) (hval : Z) : Z :=
  let hval := foldl joaat_step hval buf in
  let hval := u32 (hval + u32 (Z.shiftl hval 3)) in
  let hval := Z.lxor hval (Z.shiftr hval 11) in
  u32 (hval + u32 (Z.shiftl hval 15)).

Definition JONJ_JOAATUpdate (state : Z) (input : list Z) : Z := joaat_buf input state.
Definition JONJ_JOAATFinal (state : Z) : list Z * Z := (reverse (bytes_of 4 state), 0).

(** ** CRC-32 *)

Definition crc32_table : list Z :=
  [0x0; 0x4c11db7; 0x9823b6e; 0xd4326d9; 0x130476dc; 0x17c56b6b; 0x1a864db2; 0x1e475005;
   0x2608edb8; 0x22c9f00f; 0x2f8ad6d6; 0x2b4bcb61; 0x350c9b64; 0x31cd86d3; 0x3c8ea00a; 0x384fbdbd;
   0x4c11db70; 0x48d0c6c7; 0x4593e01e; 0x4152fda9; 0x5f15adac; 0x5bd4b01b; 0x569796c2; 0x52568b75;
   0x6a1936c8; 0x6ed82b7f; 0x639b0da6; 0x675a1011; 0x791d4014; 0x7ddc5da3; 0x709f7b7a; 0x745e66cd;
   0x9823b6e0; 0x9ce2ab57; 0x91a18d8e; 0x95609039; 0x8b27c03c; 0x8fe6dd8b; 0x82a5fb52; 0x8664e6e5;
   0xbe2b5b58; 0xbaea46ef; 0xb7a96036; 0xb3687d81; 0xad2f2d84; 0xa9ee3033; 0xa4ad16ea; 0xa06c0b5d;
   0xd4326d90; 0xd0f37027; 0xddb056fe; 0xd9714b49; 0xc7361b4c; 0xc3f706fb; 0xceb42022; 0xca753d95;
   0xf23a8028; 0xf6fb9d9f; 0xfbb8bb46; 0xff79a6f1; 0xe13ef6f4; 0xe5ffeb43; 0xe8bccd9a; 0xec7dd02d;
   0x34867077; 0x30476dc0; 0x3d044b19; 0x39c556ae; 0x278206ab; 0x23431b1c; 0x2e003dc5; 0x2ac12072;
   0x128e9dcf; 0x164f8078; 0x1b0ca6a1; 0x1fcdbb16; 0x18aeb13; 0x54bf6a4; 0x808d07d; 0xcc9cdca;
   0x7897ab07; 0x7c56b6b0; 0x71159069; 0x75d48dde; 0x6b93dddb; 0x6f52c06c; 0x6211e6b5; 0x66d0fb02;
   0x5e9f46bf; 0x5a5e5b08; 0x571d7dd1; 0x53dc6066; 0x4d9b3063; 0x495a2dd4; 0x44190b0d; 0x40d816ba;
   0xaca5c697; 0xa864db20; 0xa527fdf9; 0xa1e6e04e; 0xbfa1b04b; 0xbb60adfc; 0xb6238b25; 0xb2e29692;
   0x8aad2b2f; 0x8e6c3698; 0x832f1041; 0x87ee0df6; 0x99a95df3; 0x9d684044; 0x902b669d; 0x94ea7b2a;
   0xe0b41de7; 0xe4750050; 0xe9362689; 0xedf73b3e; 0xf3b06b3b; 0xf771768c; 0xfa325055; 0xfef34de2;
   0xc6bcf05f; 0xc27dede8; 0xcf3ecb31; 0xcbffd686; 0xd5b88683; 0xd1799b34; 0xdc3abded; 0xd8fba05a;
   0x690ce0ee; 0x6dcdfd59; 0x608edb80; 0x644fc637; 0x7a089632; 0x7ec98b85; 0x738aad5c; 0x774bb0eb;
   0x4f040d56; 0x4bc510e1; 0x46863638; 0x42472b8f; 0x5c007b8a; 0x58c1663d; 0x558240e4; 0x51435d53;
   0x251d3b9e; 0x21dc2629; 0x2c9f00f0; 0x285e1d47; 0x36194d42; 0x32d850f5; 0x3f9b762c; 0x3b5a6b9b;
   0x315d626; 0x7d4cb91; 0xa97ed48; 0xe56f0ff; 0x1011a0fa; 0x14d0bd4d; 0x19939b94; 0x1d528623;
   0xf12f560e; 0xf5ee4bb9; 0xf8ad6d60; 0xfc6c70d7; 0xe22b20d2; 0xe6ea3d65; 0xeba91bbc; 0xef68060b;
   0xd727bbb6; 0xd3e6a601; 0xdea580d8; 0xda649d6f; 0xc423cd6a; 0xc0e2d0dd; 0xcda1f604; 0xc960ebb3;
   0xbd3e8d7e; 0xb9ff90c9; 0xb4bcb610; 0xb07daba7; 0xae3afba2; 0xaafbe615; 0xa7b8c0cc; 0xa379dd7b;
   0x9b3660c6; 0x9ff77d71; 0x92b45ba8; 0x9675461f; 0x8832161a; 0x8cf30bad; 0x81b02d74; 0x857130c3;
   0x5d8a9099; 0x594b8d2e; 0x5408abf7; 0x50c9b640; 0x4e8ee645; 0x4a4ffbf2; 0x470cdd2b; 0x43cdc09c;
   0x7b827d21; 0x7f436096; 0x7200464f; 0x76c15bf8; 0x68860bfd; 0x6c47164a; 0x61043093; 0x65c52d24;
   0x119b4be9; 0x155a565e; 0x18197087; 0x1cd86d30; 0x29f3d35; 0x65e2082; 0xb1d065b; 0xfdc1bec;
   0x3793a651; 0x3352bbe6; 0x3e119d3f; 0x3ad08088; 0x2497d08d; 0x2056cd3a; 0x2d15ebe3; 0x29d4f654;
   0xc5a92679; 0xc1683bce; 0xcc2b1d17; 0xc8ea00a0; 0xd6ad50a5; 0xd26c4d12; 0xdf2f6bcb; 0xdbee767c;
   0xe3a1cbc1; 0xe760d676; 0xea23f0af; 0xeee2ed18; 0xf0a5bd1d; 0xf464a0aa; 0xf9278673; 0xfde69bc4;
   0x89b8fd09; 0x8d79e0be; 0x803ac667; 0x84fbdbd0; 0x9abc8bd5; 0x9e7d9662; 0x933eb0bb; 0x97ffad0c;
   0xafb010b1; 0xab710d06; 0xa6322bdf; 0xa2f33668; 0xbcb4666d; 0xb8757bda; 0xb5365d03; 0xb1f740b4].

Definition crc32b_table : list Z :=
  [0x0; 0x77073096; 0xee0e612c; 0x990951ba; 0x76dc419; 0x706af48f; 0xe963a535; 0x9e6495a3;
   0xedb8832; 0x79dcb8a4; 0xe0d5e91e; 0x97d2d988; 0x9b64c2b; 0x7eb17cbd; 0xe7b82d07; 0x90bf1d91;
   0x1db71064; 0x6ab020f2; 0xf3b97148; 0x84be41de; 0x1adad47d; 0x6ddde4eb; 0xf4d4b551; 0x83d385c7;
   0x136c9856; 0x646ba8c0; 0xfd62f97a; 0x8a65c9ec; 0x14015c4f; 0x63066cd9; 0xfa0f3d63; 0x8d080df5;
   0x3b6e20c8; 0x4c69105e; 0xd56041e4; 0xa2677172; 0x3c03e4d1; 0x4b04d447; 0xd20d85fd; 0xa50ab56b;
   0x35b5a8fa; 0x42b2986c; 0xdbbbc9d6; 0xacbcf940; 0x32d86ce3; 0x45df5c75; 0xdcd60dcf; 0xabd13d59;
   0x26d930ac; 0x51de003a; 0xc8d75180; 0xbfd06116; 0x21b4f4b5; 0x56b3c423; 0xcfba9599; 0xb8bda50f;
   0x2802b89e; 0x5f058808; 0xc60cd9b2; 0xb10be924; 0x2f6f7c87; 0x58684c11; 0xc1611dab; 0xb6662d3d;
   0x76dc4190; 0x1db7106; 0x98d220bc; 0xefd5102a; 0x71b18589; 0x6b6b51f; 0x9fbfe4a5; 0xe8b8d433;
   0x7807c9a2; 0xf00f934; 0x9609a88e; 0xe10e9818; 0x7f6a0dbb; 0x86d3d2d; 0x91646c97; 0xe6635c01;
   0x6b6b51f4; 0x1c6c6162; 0x856530d8; 0xf262004e; 0x6c0695ed; 0x1b01a57b; 0x8208f4c1; 0xf50fc457;
   0x65b0d9c6; 0x12b7e950; 0x8bbeb8ea; 0xfcb9887c; 0x62dd1ddf; 0x15da2d49; 0x8cd37cf3; 0xfbd44c65;
   0x4db26158; 0x3ab551ce; 0xa3bc0074; 0xd4bb30e2; 0x4adfa541; 0x3dd895d7; 0xa4d1c46d; 0xd3d6f4fb;
   0x4369e96a; 0x346ed9fc; 0xad678846; 0xda60b8d0; 0x44042d73; 0x33031de5; 0xaa0a4c5f; 0xdd0d7cc9;
   0x5005713c; 0x270241aa; 0xbe0b1010; 0xc90c2086; 0x5768b525; 0x206f85b3; 0xb966d409; 0xce61e49f;
   0x5edef90e; 0x29d9c998; 0xb0d09822; 0xc7d7a8b4; 0x59b33d17; 0x2eb40d81; 0xb7bd5c3b; 0xc0ba6cad;
   0xedb88320; 0x9abfb3b6; 0x3b6e20c; 0x74b1d29a; 0xead54739; 0x9dd277af; 0x4db2615; 0x73dc1683;
   0xe3630b12; 0x94643b84; 0xd6d6a3e; 0x7a6a5aa8; 0xe40ecf0b; 0x9309ff9d; 0xa00ae27; 0x7d079eb1;
   0xf00f9344; 0x8708a3d2; 0x1e01f268; 0x6906c2fe; 0xf762575d; 0x806567cb; 0x196c3671; 0x6e6b06e7;
   0xfed41b76; 0x89d32be0; 0x10da7a5a; 0x67dd4acc; 0xf9b9df6f; 0x8ebeeff9; 0x17b7be43; 0x60b08ed5;
   0xd6d6a3e8; 0xa1d1937e; 0x38d8c2c4; 0x4fdff252; 0xd1bb67f1; 0xa6bc5767; 0x3fb506dd; 0x48b2364b;
   0xd80d2bda; 0xaf0a1b4c; 0x36034af6; 0x41047a60; 0xdf60efc3; 0xa867df55; 0x316e8eef; 0x4669be79;
   0xcb61b38c; 0xbc66831a; 0x256fd2a0; 0x5268e236; 0xcc0c7795; 0xbb0b4703; 0x220216b9; 0x5505262f;
   0xc5ba3bbe; 0xb2bd0b28; 0x2bb45a92; 0x5cb36a04; 0xc2d7ffa7; 0xb5d0cf31; 0x2cd99e8b; 0x5bdeae1d;
   0x9b64c2b0; 0xec63f226; 0x756aa39c; 0x26d930a; 0x9c0906a9; 0xeb0e363f; 0x72076785; 0x5005713;
   0x95bf4a82; 0xe2b87a14; 0x7bb12bae; 0xcb61b38; 0x92d28e9b; 0xe5d5be0d; 0x7cdcefb7; 0xbdbdf21;
   0x86d3d2d4; 0xf1d4e242; 0x68ddb3f8; 0x1fda836e; 0x81be16cd; 0xf6b9265b; 0x6fb077e1; 0x18b74777;
   0x88085ae6; 0xff0f6a70; 0x66063bca; 0x11010b5c; 0x8f659eff; 0xf862ae69; 0x616bffd3; 0x166ccf45;
   0xa00ae278; 0xd70dd2ee; 0x4e048354; 0x3903b3c2; 0xa7672661; 0xd06016f7; 0x4969474d; 0x3e6e77db;
   0xaed16a4a; 0xd9d65adc; 0x40df0b66; 0x37d83bf0; 0xa9bcae53; 0xdebb9ec5; 0x47b2cf7f; 0x30b5ffe9;
   0xbdbdf21c; 0xcabac28a; 0x53b39330; 0x24b4a3a6; 0xbad03605; 0xcdd70693; 0x54de5729; 0x23d967bf;
   0xb3667a2e; 0xc4614ab8; 0x5d681b02; 0x2a6f2b94; 0xb40bbe37; 0xc30c8ea1; 0x5a05df1b; 0x2d02ef8d].

(** [~x] on 32 bits *)
Definition not32 (x : Z) : Z := u32 (Z.lnot x).

Definition JONJ_CRC32Init : Z := not32 0.

Definition crc32_step (state b : Z) : Z :=
  Z.lxor (u32 (Z.shiftl state 8)) (crc32_table !!! Z.to_nat (Z.lxor (Z.shiftr state 24) (Z.land b 0xff))).

Definition JONJ_CRC32Update (state : Z) (input : list Z) : Z := foldl crc32_step state input.

Definition crc32b_step (state b : Z) : Z :=
  Z.lxor (Z.shiftr state 8) (crc32b_table !!! Z.to_nat (Z.land (Z.lxor state b) 0xff)).

Definition JONJ_CRC32BUpdate (state : Z) (input : list Z) : Z := foldl crc32b_step state input.

(** Least significant byte first. *)
Definition JONJ_CRC32Final (state : Z) : list Z * Z := (reverse (digest4 (not32 state)), 0).
Definition JONJ_CRC32BFinal (state : Z) : list Z * Z := (digest4 (not32 state), 0).
Definition JONJ_CRC32Copy (orig_state : Z) : Z := orig_state.

(** ** What the hash extension relies on

    [hash_update] may be called any number of times: the result depends only on
    the concatenation of the inputs.  [valid] is the states that occur. *)
Class StreamingHash (init : Z) (update : Z -> list Z -> Z) := {
  valid : Z -> Prop;
  valid_init : valid init;
  valid_update : forall s l, valid s -> Forall (fun b => 0 <= b < 256) l -> valid (update s l);
  update_nil : forall s, valid s -> update s [] = s;
  update_app : forall s l k, valid s -> Forall (fun b => 0 <= b < 256) l -> Forall (fun b => 0 <= b < 256) k ->
    update s (l ++ k) = update (update s l) k
}.

(** A hash in several calls. *)
Definition updates (update : Z -> list Z -> Z) (s : Z) (chunks : list (list Z)) : Z := foldl update s chunks.

Lemma streaming_valid init update `{!StreamingHash init update} chunks s :
  valid s -> Forall (Forall (fun b => 0 <= b < 256)) chunks -> valid (updates update s chunks).
Proof.
  revert s. induction chunks as [|c chunks IH]; intros s Hs Hc; [done|].
  apply Forall_cons in Hc as [Hc Hcs]. apply IH; [by apply valid_update|done].
Qed.

Lemma streaming_chunks init update `{!StreamingHash init update} chunks s :
  valid s -> Forall (Forall (fun b => 0 <= b < 256)) chunks ->
  updates update s chunks = update s (mjoin chunks).
Proof.
  revert s. induction chunks as [|c chunks IH]; intros s Hs Hc; cbn.
  { symmetry. by apply update_nil. }
  apply Forall_cons in Hc as [Hc Hcs]. fold (updates update (update s c) chunks).
  rewrite IH by (done || by apply valid_update). rewrite update_app; [done|done|done|].
  clear -Hcs. induction Hcs; cbn; [done|]. by apply Forall_app.
Qed.

#[export] Instance fnv132_streaming : StreamingHash JONJ_FNV132Init JONJ_FNV132Update.
Proof. refine {| valid := fun _ => True |}; try done. intros. apply foldl_app. Defined.

#[export] Instance fnv1a32_streaming : StreamingHash JONJ_FNV132Init JONJ_FNV1a32Update.
Proof. refine {| valid := fun _ => True |}; try done. intros. apply foldl_app. Defined.

#[export] Instance fnv164_streaming : StreamingHash JONJ_FNV164Init JONJ_FNV164Update.
Proof. refine {| valid := fun _ => True |}; try done. intros. apply foldl_app. Defined.

#[export] Instance fnv1a64_streaming : StreamingHash JONJ_FNV164Init JONJ_FNV1a64Update.
Proof. refine {| valid := fun _ => True |}; try done. intros. apply foldl_app. Defined.

#[export] Instance crc32_streaming : StreamingHash JONJ_CRC32Init JONJ_CRC32Update.
Proof. refine {| valid := fun _ => True |}; try done. intros. apply foldl_app. Defined.

#[export] Instance crc32b_streaming : StreamingHash JONJ_CRC32Init JONJ_CRC32BUpdate.
Proof. refine {| valid := fun _ => True |}; try done. intros. apply foldl_app. Defined.

(** ** Adler-32 against its definition

    The sums of RFC 1950, reduced modulo 65521 at every byte. *)
Definition adler_ref (s : Z * Z) (b : Z) : Z * Z :=
  let a := (s.1 + b) mod 65521 in (a, (s.2 + a) mod 65521).

Definition adler_pack (s : Z * Z) : Z := s.1 + s.2 * 65536.

Definition adler_sums (s : Z * Z) : Prop := 0 <= s.1 < 65521 /\ 0 <= s.2 < 65521.

(** The loop reduces late: its sums are congruent to the reduced ones, and the
    first grows slowly enough against the second that no sum reaches 2^32. *)
Definition adler_lazy (s r : Z * Z) : Prop :=
  s.1 mod 65521 = r.1 /\ s.2 mod 65521 = r.2 /\
  0 <= s.1 /\ 0 <= s.2 < 0x7fffffff /\ (s.1 <= 65535 \/ (s.1 - 65535) * (s.1 - 65535) <= 510 * s.2).

Lemma adler_lazy_bound s0 s1 :
  0 <= s1 < 0x7fffffff -> s0 <= 65535 \/ (s0 - 65535) * (s0 - 65535) <= 510 * s1 -> s0 < 2 ^ 21.
Proof. intros Hs [H|H]; [lia|]. nia. Qed.

Lemma adler_step_lazy s r b : adler_lazy s r -> 0 <= b < 256 -> adler_lazy (adler_step s b) (adler_ref r b).
Proof.
  destruct s as [s0 s1], r as [r0 r1]. unfold adler_lazy, adler_step, adler_ref. cbn [fst snd].
  intros (<- & <- & H0 & H1 & Hg) Hb. pose proof (adler_lazy_bound s0 s1 ltac:(lia) Hg) as Hs0.
  rewrite (wrap_u_small 32 (s0 + b)) by lia. rewrite (wrap_u_small 32 (s1 + (s0 + b))) by lia.
  assert (Hm0 : (s0 mod 65521 + b) mod 65521 = (s0 + b) mod 65521) by (by rewrite Z.add_mod_idemp_l by lia).
  assert (Hm1 : (s1 mod 65521 + (s0 + b) mod 65521) mod 65521 = (s1 + (s0 + b)) mod 65521)
    by (by rewrite <- Z.add_mod by lia).
  rewrite Hm0, Hm1. destruct (Z.leb_spec 0x7fffffff (s1 + (s0 + b))); cbn [fst snd].
  - rewrite !Z.mod_mod by lia. pose proof (Z.mod_pos_bound (s0 + b) 65521). pose proof (Z.mod_pos_bound (s1 + (s0 + b)) 65521).
    split_and!; lia.
  - split_and!; [done|done|lia|lia|lia|]. destruct Hg as [Hg|Hg].
    + destruct (decide (s0 + b <= 65535)); [by left|]. right. nia.
    + destruct (decide (s0 + b <= 65535)); [by left|]. right. nia.
Qed.

Lemma adler_fold_lazy l s r :
  Forall (fun b => 0 <= b < 256) l -> adler_lazy s r -> adler_lazy (foldl adler_step s l) (foldl adler_ref r l).
Proof.
  intros Hl. revert s r. induction Hl as [|b l Hb Hl IH]; intros s r Hsr; [done|]. cbn. by apply IH, adler_step_lazy.
Qed.

Lemma adler_ref_sums l s : adler_sums s -> adler_sums (foldl adler_ref s l).
Proof.
  revert s. induction l as [|b l IH]; intros s Hs; [done|]. cbn. apply IH. unfold adler_sums, adler_ref. cbn.
  split; apply Z.mod_pos_bound; lia.
Qed.

Lemma adler_unpack s : adler_sums s ->
  (Z.land (adler_pack s) 0xffff, Z.land (Z.shiftr (adler_pack s) 16) 0xffff) = s.
Proof.
  destruct s as [a b]. intros [Ha Hb]. unfold adler_pack. cbn in *. change 0xffff with (Z.ones 16).
  rewrite !Z.land_ones, Z.shiftr_div_pow2 by lia. change (2 ^ 16) with 65536.
  f_equal; Z.to_euclidean_division_equations; lia.
Qed.

Lemma adler_update_ref s l :
  adler_sums s -> Forall (fun b => 0 <= b < 256) l ->
  JONJ_ADLER32Update (adler_pack s) l = adler_pack (foldl adler_ref s l).
Proof.
  intros Hs Hl. unfold JONJ_ADLER32Update. rewrite adler_unpack by done.
  assert (adler_lazy s s) as Hz.
  { unfold adler_lazy, adler_sums in *. rewrite !Z.mod_small by lia. split_and!; lia. }
  destruct (adler_fold_lazy l s s Hl Hz) as (-> & -> & _).
  destruct (adler_ref_sums l s Hs) as [Ha Hb]. unfold adler_pack.
  rewrite Z.shiftl_mul_pow2 by lia. change (2 ^ 16) with 65536.
  rewrite (wrap_u_small 32 (_ * 65536)) by lia. by rewrite (wrap_u_small 32) by lia.
Qed.

#[export] Instance adler32_streaming : StreamingHash JONJ_ADLER32Init JONJ_ADLER32Update.
Proof.
  refine {| valid := fun s => exists r, s = adler_pack r /\ adler_sums r |}.
  - exists (1, 0). done.
  - intros s l (r & -> & Hr) Hl. rewrite adler_update_ref by done. eexists. split; [done|]. by apply adler_ref_sums.
  - intros s (r & -> & Hr). by rewrite adler_update_ref.
  - intros s l k (r & -> & Hr) Hl Hk. rewrite !adler_update_ref; try done.
    + by rewrite foldl_app.
    + by apply adler_ref_sums.
    + by apply Forall_app.
Defined.

(** ** CRC-32 against the division bit by bit *)

Fixpoint iterate (n : nat) (f : Z -> Z) (x : Z) : Z :=
  match n with
  | O => x
  | S n => iterate n f (f x)
  end.

(** Least significant bit first, polynomial 0xedb88320. *)
Definition crcb_bit (x : Z) : Z := Z.lxor (Z.shiftr x 1) (if Z.odd x then 0xedb88320 else 0).

(** Most significant bit first, polynomial 0x04c11db7. *)
Definition crc_bit (x : Z) : Z := Z.lxor (u32 (Z.shiftl x 1)) (if Z.testbit x 31 then 0x04c11db7 else 0).

Definition crcb_ref (state b : Z) : Z := iterate 8 crcb_bit (Z.lxor state b).
Definition crc_ref (state b : Z) : Z := iterate 8 crc_bit (Z.lxor state (Z.shiftl b 24)).

(** Both steps are linear over exclusive or. *)
Definition linear (f : Z -> Z) : Prop := forall x y, f (Z.lxor x y) = Z.lxor (f x) (f y).

Lemma lxor_if (a b : bool) p :
  (if xorb a b then p else 0) = Z.lxor (if a then p else 0) (if b then p else 0).
Proof. destruct a, b; cbn [xorb]; by rewrite ?Z.lxor_nilpotent, ?Z.lxor_0_r, ?Z.lxor_0_l. Qed.

Lemma lxor_swap a b c d : Z.lxor (Z.lxor a b) (Z.lxor c d) = Z.lxor (Z.lxor a c) (Z.lxor b d).
Proof. apply Z.bits_inj'. intros i Hi. rewrite !Z.lxor_spec. by destruct (Z.testbit a i), (Z.testbit b i), (Z.testbit c i), (Z.testbit d i). Qed.

Lemma iterate_linear n f : linear f -> linear (iterate n f).
Proof. intros Hf. induction n as [|n IH]; intros x y; cbn; [done|]. by rewrite Hf, IH. Qed.

Lemma u32_land x : u32 x = Z.land x (Z.ones 32).
Proof. unfold wrap_u. by rewrite Z.land_ones by lia. Qed.

Lemma u32_linear : linear u32.
Proof.
  intros x y. rewrite !u32_land. apply Z.bits_inj'. intros i Hi. rewrite Z.land_spec, !Z.lxor_spec, !Z.land_spec.
  by destruct (Z.testbit x i), (Z.testbit y i), (Z.testbit (Z.ones 32) i).
Qed.

Lemma crcb_bit_linear : linear crcb_bit.
Proof.
  intros x y. unfold crcb_bit. rewrite Z.shiftr_lxor.
  assert (Z.odd (Z.lxor x y) = xorb (Z.odd x) (Z.odd y)) as -> by (by rewrite <- !Z.bit0_odd, Z.lxor_spec).
  by rewrite lxor_if, lxor_swap.
Qed.

Lemma crc_bit_linear : linear crc_bit.
Proof.
  intros x y. unfold crc_bit. rewrite Z.shiftl_lxor, u32_linear, Z.lxor_spec, lxor_if. apply lxor_swap.
Qed.

(** A word is its bits above and below position [k]. *)
Lemma lxor_split x k : 0 <= k -> x = Z.lxor (Z.shiftl (Z.shiftr x k) k) (Z.land x (Z.ones k)).
Proof.
  intros Hk. apply Z.bits_inj'. intros i Hi. rewrite Z.lxor_spec, Z.land_spec, Z.testbit_ones_nonneg by lia.
  destruct (Z.ltb_spec i k).
  - rewrite Z.shiftl_spec_low, andb_true_r by lia. by destruct (Z.testbit x i).
  - rewrite Z.shiftl_spec_high, Z.shiftr_spec by lia. replace (i - k + k) with i by lia.
    by rewrite andb_false_r, xorb_false_r.
Qed.

(** Without a bit to divide by, eight steps are a shift by eight. *)
Lemma crcb_bit_high y : crcb_bit (2 * y) = y.
Proof.
  unfold crcb_bit. rewrite Z.odd_mul. cbn [Z.odd andb]. rewrite Z.lxor_0_r, Z.shiftr_div_pow2 by lia.
  change (2 ^ 1) with 2. by rewrite Z.mul_comm, Z.div_mul by lia.
Qed.

Lemma crcb_high y : iterate 8 crcb_bit (Z.shiftl y 8) = y.
Proof.
  rewrite Z.shiftl_mul_pow2 by lia.
  replace (y * 2 ^ 8) with (2 * (2 * (2 * (2 * (2 * (2 * (2 * (2 * y)))))))) by lia.
  cbn [iterate]. by rewrite !crcb_bit_high.
Qed.

Lemma crc_bit_low x : 0 <= x < 2 ^ 31 -> crc_bit x = 2 * x.
Proof.
  intros Hx. unfold crc_bit. assert (Z.testbit x 31 = false) as ->.
  { rewrite <- (Z.mod_small x (2 ^ 31)) by lia. by apply Z.mod_pow2_bits_high. }
  rewrite Z.lxor_0_r, Z.shiftl_mul_pow2, (wrap_u_small 32) by lia. lia.
Qed.

Lemma crc_low y : 0 <= y < 2 ^ 24 -> iterate 8 crc_bit y = 256 * y.
Proof.
  intros Hy. cbn [iterate]. rewrite (crc_bit_low y) by lia. rewrite (crc_bit_low (2 * y)) by lia.
  do 6 (rewrite (crc_bit_low (2 * (2 * _))) by lia). lia.
Qed.

(** The tables hold the eight steps of every byte. *)
Lemma crc32b_table_bits : (fun i => iterate 8 crcb_bit i) <$> seqZ 0 256 = crc32b_table.
Proof. vm_compute. reflexivity. Qed.

Lemma crc32_table_bits : (fun i => iterate 8 crc_bit (Z.shiftl i 24)) <$> seqZ 0 256 = crc32_table.
Proof. vm_compute. reflexivity. Qed.

Lemma table_at (f : Z -> Z) t i : f <$> seqZ 0 256 = t -> 0 <= i < 256 -> t !!! Z.to_nat i = f i.
Proof.
  intros <- Hi. apply list_lookup_total_correct. rewrite list_lookup_fmap, lookup_seqZ_lt by lia. cbn.
  f_equal. f_equal. lia.
Qed.

Lemma crc32b_step_ref state b : 0 <= b < 256 -> crc32b_step state b = crcb_ref state b.
Proof.
  intros Hb. unfold crc32b_step, crcb_ref. change 0xff with (Z.ones 8).
  assert (Hr : 0 <= Z.land (Z.lxor state b) (Z.ones 8) < 256) by (rewrite Z.land_ones by lia; by apply Z.mod_pos_bound).
  rewrite (table_at _ _ _ crc32b_table_bits Hr).
  rewrite (lxor_split (Z.lxor state b) 8) at 2 by lia.
  rewrite (iterate_linear 8 _ crcb_bit_linear), crcb_high. f_equal.
  rewrite Z.shiftr_lxor, (Z.shiftr_div_pow2 b), (Z.div_small b) by (cbn; lia). by rewrite Z.lxor_0_r.
Qed.

Lemma crc32_step_ref state b : 0 <= state < 2 ^ 32 -> 0 <= b < 256 -> crc32_step state b = crc_ref state b.
Proof.
  intros Hs Hb. unfold crc32_step, crc_ref. change 0xff with (Z.ones 8). rewrite (Z.land_ones b), (Z.mod_small b) by (cbn; lia).
  assert (Ht : 0 <= Z.shiftr state 24 < 2 ^ 8).
  { rewrite Z.shiftr_div_pow2 by lia. Z.to_euclidean_division_equations; lia. }
  assert (Hx : 0 <= Z.lxor (Z.shiftr state 24) b < 256).
  { split; [apply Z.lxor_nonneg; lia|]. change 256 with (2 ^ 8). 
    destruct (decide (Z.lxor (Z.shiftr state 24) b = 0)) as [->|]; [lia|].
    apply Z.log2_lt_pow2; [pose proof (proj2 (Z.lxor_nonneg (Z.shiftr state 24) b)); lia|].
    pose proof (Z.log2_lxor (Z.shiftr state 24) b). pose proof (Z.log2_le_mono (Z.shiftr state 24) 255).
    pose proof (Z.log2_le_mono b 255). change (Z.log2 255) with 7 in *. lia. }
  rewrite (table_at _ _ _ crc32_table_bits Hx).
  rewrite (lxor_split state 24) at 3 by lia.
  rewrite (Z.lxor_comm (Z.shiftl _ _) (Z.land _ _)), Z.lxor_assoc, <- Z.shiftl_lxor.
  rewrite (iterate_linear 8 _ crc_bit_linear). f_equal.
  rewrite Z.land_ones by lia. pose proof (Z.mod_pos_bound state (2 ^ 24)).
  rewrite crc_low by lia. unfold wrap_u. rewrite Z.shiftl_mul_pow2 by lia.
  change (2 ^ 32) with (2 ^ 24 * 2 ^ 8). rewrite Z.mul_mod_distr_r by lia. lia.
Qed.

Lemma lxor_below k x y : 0 <= k -> 0 <= x < 2 ^ k -> 0 <= y < 2 ^ k -> 0 <= Z.lxor x y < 2 ^ k.
Proof.
  intros Hk Hx Hy. split; [apply Z.lxor_nonneg; lia|].
  replace (Z.lxor x y) with (Z.lxor x y mod 2 ^ k); [apply Z.mod_pos_bound; lia|].
  apply Z.bits_inj'. intros i Hi. destruct (Z.ltb_spec i k); [by rewrite Z.mod_pow2_bits_low by lia|].
  rewrite Z.mod_pow2_bits_high, Z.lxor_spec by lia.
  rewrite <- (Z.mod_small x (2 ^ k)), <- (Z.mod_small y (2 ^ k)) by lia. by rewrite !Z.mod_pow2_bits_high by lia.
Qed.

Lemma crc_bit_range x : 0 <= crc_bit x < 2 ^ 32.
Proof. apply lxor_below; [lia|apply wrap_u_range; lia|]. destruct (Z.testbit x 31); lia. Qed.

Lemma iterate_last n f (P : Z -> Prop) x : (forall x, P (f x)) -> P (iterate (S n) f x).
Proof. intros Hf. revert x. induction n as [|n IH]; intros x; [apply Hf|]. apply (IH (f x)). Qed.

Lemma crc_ref_range state b : 0 <= crc_ref state b < 2 ^ 32.
Proof. apply (iterate_last 7 _ (fun x => 0 <= x < 2 ^ 32)), crc_bit_range. Qed.

(** C38: CRC-32 by table, in both bit orders, is the division of the message by the
    generator polynomial bit by bit; any message may follow any 32-bit state. *)
Theorem crc32_update_bitwise state input :
  0 <= state < 2 ^ 32 -> Forall (fun b => 0 <= b < 256) input ->
  JONJ_CRC32BUpdate state input = foldl crcb_ref state input /\
  JONJ_CRC32Update state input = foldl crc_ref state input.
Proof.
  intros Hs Hl. unfold JONJ_CRC32BUpdate, JONJ_CRC32Update. split.
  - clear Hs. revert state. induction Hl as [|b l Hb Hl IH]; intros state; [done|].
    cbn [foldl]. rewrite crc32b_step_ref by done. apply IH.
  - revert state Hs. induction Hl as [|b l Hb Hl IH]; intros state Hs; [done|].
    cbn [foldl]. rewrite crc32_step_ref by done. exact (IH _ (crc_ref_range state b)).
Qed.

Lemma crc32_update_bitwise_witness :
  JONJ_CRC32BUpdate JONJ_CRC32Init [49; 50; 51] = foldl crcb_ref JONJ_CRC32Init [49; 50; 51].
Proof.
  refine (proj1 (crc32_update_bitwise JONJ_CRC32Init [49; 50; 51] _ _)).
  - vm_compute. split; [discriminate|reflexivity].
  - repeat constructor; discriminate || reflexivity.
Defined.

(** The check values of the algorithms for the text "123456789". *)
Example checksum_known_answers :
  let m := [49; 50; 51; 52; 53; 54; 55; 56; 57] in
  JONJ_ADLER32Update JONJ_ADLER32Init m = 0x091e01de /\
  (JONJ_CRC32BFinal (JONJ_CRC32BUpdate JONJ_CRC32Init m)).1 = [0xcb; 0xf4; 0x39; 0x26] /\
  JONJ_FNV1a32Update JONJ_FNV132Init m = 0xbb86b11c /\
  JONJ_FNV1a64Update JONJ_FNV164Init m = 0x06d5573923c6cdfc.
Proof. vm_compute. done. Qed.

(** C37: Adler-32 with its late reductions computes the sums of the definition,
    reduced at every byte: the 32-bit sums never overflow, whatever the input and
    however it is split into updates. *)
Theorem adler32_correct chunks :
  Forall (Forall (fun b => 0 <= b < 256)) chunks ->
  updates JONJ_ADLER32Update JONJ_ADLER32Init chunks = adler_pack (foldl adler_ref (1, 0) (mjoin chunks)).
Proof.
  intros Hc. rewrite (streaming_chunks JONJ_ADLER32Init JONJ_ADLER32Update) by (done || apply valid_init).
  assert (Forall (fun b => 0 <= b < 256) (mjoin chunks)) as Hj
    by (clear -Hc; induction Hc; cbn; [done|]; by apply Forall_app).
  assert (adler_sums (1, 0)) as H1 by done. exact (adler_update_ref (1, 0) (mjoin chunks) H1 Hj).
Qed.

Lemma adler32_correct_witness :
  updates JONJ_ADLER32Update JONJ_ADLER32Init [[255; 255]; []; [7]] = adler_pack (foldl adler_ref (1, 0) [255; 255; 7]).
Proof. apply (adler32_correct [[255; 255]; []; [7]]). repeat constructor; discriminate || reflexivity. Defined.

(** the result of FNV-1, FNV-1a and both CRC-32 variants does not depend on how
    the message is split into updates; that of the one-at-a-time hash does, since
    every update runs the final mixing. *)
Theorem checksum_streaming chunks s :
  Forall (Forall (fun b => 0 <= b < 256)) chunks ->
  updates JONJ_FNV132Update s chunks = JONJ_FNV132Update s (mjoin chunks) /\
  updates JONJ_FNV1a32Update s chunks = JONJ_FNV1a32Update s (mjoin chunks) /\
  updates JONJ_FNV164Update s chunks = JONJ_FNV164Update s (mjoin chunks) /\
  updates JONJ_FNV1a64Update s chunks = JONJ_FNV1a64Update s (mjoin chunks) /\
  updates JONJ_CRC32Update s chunks = JONJ_CRC32Update s (mjoin chunks) /\
  updates JONJ_CRC32BUpdate s chunks = JONJ_CRC32BUpdate s (mjoin chunks) /\
  updates JONJ_JOAATUpdate JONJ_JOAATInit [[1]; [2]] <> JONJ_JOAATUpdate JONJ_JOAATInit (mjoin [[1]; [2]]).
Proof.
  intros Hc. split_and!; [by apply (streaming_chunks _ _)..|]. vm_compute. discriminate.
Qed.

Lemma checksum_streaming_witness :
  updates JONJ_FNV132Update JONJ_FNV132Init [[97]; [98; 99]] = JONJ_FNV132Update JONJ_FNV132Init [97; 98; 99].
Proof.
  refine (proj1 (checksum_streaming [[97]; [98; 99]] JONJ_FNV132Init _)).
  repeat constructor; discriminate || reflexivity.
Defined.
