(* ===== verification/Base64.v ===== *)
(** * Base64: the MIME base64 codec

    Models src/ext/standard/base64.c.  A string is the list of its bytes and is
    followed in memory by a NUL.  [None] is undefined behaviour: a read past the
    terminator, a write outside the result, or a loop that outruns its bound. *)
From S2P Require Import Prelude.
From stdpp Require Import base option list.
From Stdlib Require Import Lia.
Local Open Scope Z_scope.

Definition base64_table : list Z :=
  [65; 66; 67; 68; 69; 70; 71; 72; 73; 74; 75; 76; 77;
   78; 79; 80; 81; 82; 83; 84; 85; 86; 87; 88; 89; 90;
   97; 98; 99; 100; 101; 102; 103; 104; 105; 106; 107; 108; 109;
   110; 111; 112; 113; 114; 115; 116; 117; 118; 119; 120; 121; 122;
   48; 49; 50; 51; 52; 53; 54; 55; 56; 57; 43; 47; 0].

Definition base64_pad : Z := 61.

Definition base64_reverse_table : list Z :=
  [-2; -2; -2; -2; -2; -2; -2; -2; -2; -1; -1; -2; -2; -1; -2; -2;
   -2; -2; -2; -2; -2; -2; -2; -2; -2; -2; -2; -2; -2; -2; -2; -2;
   -1; -2; -2; -2; -2; -2; -2; -2; -2; -2; -2; 62; -2; -2; -2; 63;
   52; 53; 54; 55; 56; 57; 58; 59; 60; 61; -2; -2; -2; -2; -2; -2;
   -2; 0; 1; 2; 3; 4; 5; 6; 7; 8; 9; 10; 11; 12; 13; 14;
   15; 16; 17; 18; 19; 20; 21; 22; 23; 24; 25; -2; -2; -2; -2; -2;
   -2; 26; 27; 28; 29; 30; 31; 32; 33; 34; 35; 36; 37; 38; 39; 40;
   41; 42; 43; 44; 45; 46; 47; 48; 49; 50; 51; -2; -2; -2; -2; -2;
   -2; -2; -2; -2; -2; -2; -2; -2; -2; -2; -2; -2; -2; -2; -2; -2;
   -2; -2; -2; -2; -2; -2; -2; -2; -2; -2; -2; -2; -2; -2; -2; -2;
   -2; -2; -2; -2; -2; -2; -2; -2; -2; -2; -2; -2; -2; -2; -2; -2;
   -2; -2; -2; -2; -2; -2; -2; -2; -2; -2; -2; -2; -2; -2; -2; -2;
   -2; -2; -2; -2; -2; -2; -2; -2; -2; -2; -2; -2; -2; -2; -2; -2;
   -2; -2; -2; -2; -2; -2; -2; -2; -2; -2; -2; -2; -2; -2; -2; -2;
   -2; -2; -2; -2; -2; -2; -2; -2; -2; -2; -2; -2; -2; -2; -2; -2;
   -2; -2; -2; -2; -2; -2; -2; -2; -2; -2; -2; -2; -2; -2; -2; -2].

(** ** Encoding *)

(** [base64_table[v]] *)
Definition enc (v : Z) : Z := base64_table !!! Z.to_nat v.

(** The loop over groups of three bytes and the tail of one or two. *)
Fixpoint encode_loop (current : list Z) : list Z :=
  match current with
  | c0 :: c1 :: c2 :: rest =>
      [enc (Z.shiftr c0 2);
       enc (Z.shiftl (Z.land c0 0x03) 4 + Z.shiftr c1 4);
       enc (Z.shiftl (Z.land c1 0x0f) 2 + Z.shiftr c2 6);
       enc (Z.land c2 0x3f)] ++ encode_loop rest
  | [c0; c1] =>
      [enc (Z.shiftr c0 2);
       enc (Z.shiftl (Z.land c0 0x03) 4 + Z.shiftr c1 4);
       enc (Z.shiftl (Z.land c1 0x0f) 2);
       base64_pad]
  | [c0] =>
      [enc (Z.shiftr c0 2); enc (Z.shiftl (Z.land c0 0x03) 4); base64_pad; base64_pad]
  | [] => []
  end.

(** [None]: NULL, with a warning. *)
Definition jonj_base64_encode (str : list Z) : option (list Z) :=
  if (2 ^ 31 - 1) / 4 <? (Z.of_nat (length str) + 2) / 3 then None
  else Some (encode_loop str).

(** ** Decoding *)

(** [isspace] of the C locale *)
Definition isspace (c : Z) : bool := ((9 <=? c) && (c <=? 13)) || (c =? 32).

(** [while (isspace( *(++current))) continue;]: what [current] points at then *)
Fixpoint skip_space (current : list Z) : list Z :=
  match current with
  | c :: rest => if isspace c then skip_space rest else current
  | [] => []
  end.

(** The result of the loop: NULL, or the counters, the buffer and the last [ch]. *)
Inductive decoded :=
  | DecNull
  | Dec (i j : Z) (result : list Z) (ch : Z).

(** [result[j] = v] *)
Definition put (result : list Z) (j v : Z) : option (list Z) :=
  if (0 <=? j) && (j <? Z.of_nat (length result)) then Some (<[Z.to_nat j := u8 v]> result) else None.

(** [result[j] |= v] *)
Definition put_or (result : list Z) (j v : Z) : option (list Z) :=
  x ← result !! Z.to_nat j; put result j (Z.lor x v).

(** [switch (i % 4)] with the value [ch] of a character: the new [j] and buffer *)
Definition store_sextet (i j ch : Z) (result : list Z) : option (Z * list Z) :=
  let m := i mod 4 in
  if m =? 0 then result ← put result j (Z.shiftl ch 2); Some (j, result)
  else if m =? 1 then
    result ← put_or result j (Z.shiftr ch 4);
    result ← put result (j + 1) (Z.shiftl (Z.land ch 0x0f) 4);
    Some (j + 1, result)
  else if m =? 2 then
    result ← put_or result j (Z.shiftr ch 2);
    result ← put result (j + 1) (Z.shiftl (Z.land ch 0x03) 6);
    Some (j + 1, result)
  else
    result ← put_or result j ch;
    Some (j + 1, result).

(** The main loop; [current] is what is left of the string and its terminator. *)
Fixpoint decode_loop (fuel : nat) (strict : bool) (current : list Z) (length i j : Z) (result : list Z)
    : option decoded :=
  match fuel, current with
  | S fuel, ch :: current =>
      if ch =? 0 then Some (Dec i j result ch)
      else if length <=? 0 then Some (Dec i j result ch)
      else
        let length := length - 1 in
        if ch =? base64_pad then
          next ← head current;
          if negb (next =? 61) && ((i mod 4 =? 1) || (strict && (0 <? length))) then
            if negb (i mod 4 =? 1) then
              let current := skip_space (tail current) in
              c ← head current;
              if c =? 0 then decode_loop fuel strict current length i j result else Some DecNull
            else Some DecNull
          else decode_loop fuel strict current length i j result
        else
          v ← aref base64_reverse_table ch;
          if (negb strict && (v <? 0)) || (v =? -1) then decode_loop fuel strict current length i j result
          else if v =? -2 then Some DecNull
          else
            '(j, result) ← store_sextet i j v result;
            decode_loop fuel strict current length (i + 1) j result
  | _, _ => None
  end.

(** [Some None]: NULL. *)
Definition jonj_base64_decode_ex (str : list Z) (strict : bool) : option (option (list Z)) :=
  let n := Z.of_nat (length str) in
  let result := replicate (length str + 1) 0 in
  d ← decode_loop (length str + 1) strict (str ++ [0]) n 0 0 result;
  match d with
  | DecNull => Some None
  | Dec i j result ch =>
      if (ch =? base64_pad) && (i mod 4 =? 1) then Some None
      else
        result ← (if (ch =? base64_pad) && (i mod 4 =? 2) then put result (j + 1) 0
                  else if (ch =? base64_pad) && (i mod 4 =? 3) then put result j 0
                  else Some result);
        result ← put result j 0;
        Some (Some (take (Z.to_nat j) result))
  end.

Definition jonj_base64_decode (str : list Z) : option (option (list Z)) := jonj_base64_decode_ex str false.

(** ** Bytes and sextets *)

Abbreviation byte_ok := (fun b : Z => 0 <= b < 256).

Lemma table_inverse : Forall (fun v => aref base64_reverse_table (enc v) = Some v /\ enc v <> 0 /\ enc v <> 61) (seqZ 0 64).
Proof. repeat constructor; by vm_compute. Qed.

Lemma enc_inverse v :
  0 <= v < 64 -> aref base64_reverse_table (enc v) = Some v /\ enc v <> 0 /\ enc v <> 61.
Proof. intros Hv. pose proof table_inverse as H. rewrite list.Forall_forall in H. apply H, elem_of_seqZ. lia. Qed.

(** The sextets of a group of three bytes, in arithmetic. *)
Lemma sextet_eqs c0 c1 c2 :
  0 <= c0 < 256 -> 0 <= c1 < 256 -> 0 <= c2 < 256 ->
  Z.shiftr c0 2 = c0 / 4 /\
  Z.shiftl (Z.land c0 0x03) 4 + Z.shiftr c1 4 = (c0 mod 4) * 16 + c1 / 16 /\
  Z.shiftl (Z.land c0 0x03) 4 = (c0 mod 4) * 16 /\
  Z.shiftl (Z.land c1 0x0f) 2 + Z.shiftr c2 6 = (c1 mod 16) * 4 + c2 / 64 /\
  Z.shiftl (Z.land c1 0x0f) 2 = (c1 mod 16) * 4 /\
  Z.land c2 0x3f = c2 mod 64.
Proof.
  intros. change 0x03 with (Z.ones 2). change 0x0f with (Z.ones 4). change 0x3f with (Z.ones 6).
  rewrite !Z.land_ones, !Z.shiftl_mul_pow2, !Z.shiftr_div_pow2 by lia.
  change (2 ^ 2) with 4. change (2 ^ 4) with 16. change (2 ^ 6) with 64. by split_and!.
Qed.

(** ** Writing into the buffer *)

Lemma put_app done y rest v :
  put (done ++ y :: rest) (Z.of_nat (length done)) v = Some (done ++ u8 v :: rest).
Proof.
  unfold put. rewrite length_app. cbn [length].
  destruct (Z.leb_spec 0 (Z.of_nat (length done))), (Z.ltb_spec (Z.of_nat (length done)) (Z.of_nat (length done + S (length rest)))); try lia.
  cbn [andb]. by rewrite Nat2Z.id, insert_app_r_alt, Nat.sub_diag by lia.
Qed.

Lemma put_or_app done y rest v :
  put_or (done ++ y :: rest) (Z.of_nat (length done)) v = Some (done ++ u8 (Z.lor y v) :: rest).
Proof. unfold put_or. rewrite Nat2Z.id, list_lookup_middle by done. apply put_app. Qed.

Lemma put_app_next done y z rest v :
  put (done ++ y :: z :: rest) (Z.of_nat (length done) + 1) v = Some (done ++ y :: u8 v :: rest).
Proof.
  pose proof (put_app (done ++ [y]) z rest v) as H. rewrite length_app in H. cbn [length] in H.
  replace (Z.of_nat (length done + 1)) with (Z.of_nat (length done) + 1) in H by lia.
  by rewrite <- !app_assoc in H.
Qed.

Section steps.
Context (strict : bool).

(** One turn of the loop on a character of the alphabet. *)
Lemma loop_sextet fuel v current len i j result j' result' :
  0 <= v < 64 -> 0 < len -> store_sextet i j v result = Some (j', result') ->
  decode_loop (S fuel) strict (enc v :: current) len i j result =
  decode_loop fuel strict current (len - 1) (i + 1) j' result'.
Proof.
  intros Hv Hl Hs. destruct (enc_inverse v Hv) as (Hrev & H0 & H61). cbn [decode_loop].
  destruct (Z.eqb_spec (enc v) 0); [done|]. destruct (Z.leb_spec len 0); [lia|].
  unfold base64_pad. destruct (Z.eqb_spec (enc v) 61); [done|]. rewrite Hrev. cbn [mbind option_bind].
  destruct (Z.ltb_spec v 0); [lia|]. destruct (Z.eqb_spec v (-1)); [lia|]. destruct (Z.eqb_spec v (-2)); [lia|].
  rewrite andb_false_r. cbn [orb]. by rewrite Hs.
Qed.

(** The four kinds of store, on a buffer that holds [done] already. *)
Lemma store0 i done y rest v : i mod 4 = 0 ->
  store_sextet i (Z.of_nat (length done)) v (done ++ y :: rest)
  = Some (Z.of_nat (length done), done ++ u8 (Z.shiftl v 2) :: rest).
Proof. intros Hi. unfold store_sextet. rewrite Hi. cbn [Z.eqb]. by rewrite put_app. Qed.

Lemma store1 i done y z rest v : i mod 4 = 1 ->
  store_sextet i (Z.of_nat (length done)) v (done ++ y :: z :: rest)
  = Some (Z.of_nat (length done) + 1, done ++ u8 (Z.lor y (Z.shiftr v 4)) :: u8 (Z.shiftl (Z.land v 0x0f) 4) :: rest).
Proof.
  intros Hi. unfold store_sextet. rewrite Hi. cbn [Z.eqb Pos.eqb]. rewrite put_or_app. cbn [mbind option_bind].
  by rewrite put_app_next.
Qed.

Lemma store2 i done y z rest v : i mod 4 = 2 ->
  store_sextet i (Z.of_nat (length done)) v (done ++ y :: z :: rest)
  = Some (Z.of_nat (length done) + 1, done ++ u8 (Z.lor y (Z.shiftr v 2)) :: u8 (Z.shiftl (Z.land v 0x03) 6) :: rest).
Proof.
  intros Hi. unfold store_sextet. rewrite Hi. cbn [Z.eqb Pos.eqb]. rewrite put_or_app. cbn [mbind option_bind].
  by rewrite put_app_next.
Qed.

Lemma store3 i done y rest v : i mod 4 = 3 ->
  store_sextet i (Z.of_nat (length done)) v (done ++ y :: rest)
  = Some (Z.of_nat (length done) + 1, done ++ u8 (Z.lor y v) :: rest).
Proof. intros Hi. unfold store_sextet. rewrite Hi. cbn [Z.eqb Pos.eqb]. by rewrite put_or_app. Qed.

End steps.

(** The bytes that the stores put together. *)
Lemma byte_join k a b : 0 <= k <= 8 -> 0 <= a < 2 ^ (8 - k) -> 0 <= b < 2 ^ k ->
  u8 (Z.lor (u8 (Z.shiftl a k)) b) = a * 2 ^ k + b.
Proof.
  intros Hk Ha Hb. rewrite Z.shiftl_mul_pow2 by lia.
  assert (a * 2 ^ k + b < 2 ^ 8). { replace 8 with (8 - k + k) by lia. rewrite Z.pow_add_r by lia. nia. }
  assert (0 <= a * 2 ^ k) by (apply Z.mul_nonneg_nonneg; lia).
  rewrite (wrap_u_small 8 (a * 2 ^ k)) by lia. rewrite lor_add by lia. by rewrite wrap_u_small by lia.
Qed.

(** The first two sextets of a group give its first byte and the start of the next. *)
Lemma loop_two strict fuel c0 x current len i done y0 y1 rest :
  0 <= c0 < 256 -> 0 <= x < 16 -> i mod 4 = 0 -> 2 <= len ->
  decode_loop (S (S fuel)) strict (enc (c0 / 4) :: enc ((c0 mod 4) * 16 + x) :: current) len i
    (Z.of_nat (length done)) (done ++ y0 :: y1 :: rest)
  = decode_loop fuel strict current (len - 2) (i + 2) (Z.of_nat (length (done ++ [c0])))
      ((done ++ [c0]) ++ u8 (Z.shiftl x 4) :: rest).
Proof.
  intros H0 Hx Hi Hl.
  erewrite loop_sextet; [|Z.to_euclidean_division_equations; lia|lia|by apply store0].
  erewrite loop_sextet; [|Z.to_euclidean_division_equations; lia|lia|
    apply store1; Z.to_euclidean_division_equations; lia].
  rewrite Z.shiftr_div_pow2 by lia. change (2 ^ 4) with 16. change 0x0f with (Z.ones 4). rewrite Z.land_ones by lia.
  change (2 ^ 4) with 16.
  replace ((c0 mod 4 * 16 + x) / 16) with (c0 mod 4) by (Z.to_euclidean_division_equations; lia).
  replace ((c0 mod 4 * 16 + x) mod 16) with x by (Z.to_euclidean_division_equations; lia).
  rewrite (byte_join 2) by (cbn; Z.to_euclidean_division_equations; lia).
  replace (c0 / 4 * 2 ^ 2 + c0 mod 4) with c0 by (cbn; Z.to_euclidean_division_equations; lia).
  rewrite <- app_assoc, length_app. cbn [app length]. f_equal; lia.
Qed.

Lemma loop_third strict fuel a x current len i done y1 rest :
  0 <= a < 16 -> 0 <= x < 16 -> i mod 4 = 2 -> 1 <= len ->
  forall z, 0 <= z < 4 ->
  decode_loop (S fuel) strict (enc (x * 4 + z) :: current) len i
    (Z.of_nat (length done)) (done ++ u8 (Z.shiftl a 4) :: y1 :: rest)
  = decode_loop fuel strict current (len - 1) (i + 1) (Z.of_nat (length (done ++ [a * 16 + x])))
      ((done ++ [a * 16 + x]) ++ u8 (Z.shiftl z 6) :: rest).
Proof.
  intros Ha Hx Hi Hl z Hz.
  erewrite loop_sextet; [|lia|lia|by apply store2].
  rewrite Z.shiftr_div_pow2 by lia. change 0x03 with (Z.ones 2). rewrite Z.land_ones by lia. change (2 ^ 2) with 4.
  replace ((x * 4 + z) / 4) with x by (Z.to_euclidean_division_equations; lia).
  replace ((x * 4 + z) mod 4) with z by (Z.to_euclidean_division_equations; lia).
  rewrite (byte_join 4) by (cbn; lia). change (2 ^ 4) with 16.
  rewrite <- app_assoc, length_app. cbn [app length]. f_equal; lia.
Qed.

Lemma loop_fourth strict fuel a x current len i done rest :
  0 <= a < 4 -> 0 <= x < 64 -> i mod 4 = 3 -> 1 <= len ->
  decode_loop (S fuel) strict (enc x :: current) len i
    (Z.of_nat (length done)) (done ++ u8 (Z.shiftl a 6) :: rest)
  = decode_loop fuel strict current (len - 1) (i + 1) (Z.of_nat (length (done ++ [a * 64 + x])))
      ((done ++ [a * 64 + x]) ++ rest).
Proof.
  intros Ha Hx Hi Hl. erewrite loop_sextet; [|lia|lia|by apply store3].
  rewrite (byte_join 6) by (cbn; lia). change (2 ^ 6) with 64.
  rewrite <- app_assoc, length_app. cbn [app length]. f_equal; lia.
Qed.

(** A pad before another pad, or at the end of the string, is skipped. *)
Lemma loop_pad strict fuel next current len i j result :
  0 < len -> next = 61 \/ i mod 4 <> 1 /\ len = 1 ->
  decode_loop (S fuel) strict (61 :: next :: current) len i j result =
  decode_loop fuel strict (next :: current) (len - 1) i j result.
Proof.
  intros Hl Hn. cbn [decode_loop]. destruct (Z.leb_spec len 0); [lia|]. cbn [Z.eqb head mbind option_bind].
  change (61 =? base64_pad) with true. cbv iota.
  replace (negb (next =? 61) && _) with false; [done|].
  destruct (Z.eqb_spec next 61); [done|]. cbn [negb andb]. destruct Hn as [?|[Hi ->]]; [done|].
  destruct (Z.eqb_spec (i mod 4) 1); [done|]. cbn. by rewrite andb_false_r.
Qed.

(** Induction by groups of three. *)
Lemma list_ind3 {A} (P : list A -> Prop) :
  P [] -> (forall a, P [a]) -> (forall a b, P [a; b]) -> (forall a b c l, P l -> P (a :: b :: c :: l)) ->
  forall l, P l.
Proof.
  intros H0 H1 H2 H3 l. enough (P l /\ (forall a, P (a :: l)) /\ (forall a b, P (a :: b :: l))) by tauto.
  induction l as [|x l (IH0 & IH1 & IH2)]; [done|]. split_and!; auto.
Qed.

Lemma encode_length l : (length (encode_loop l) = 4 * ((length l + 2) / 3))%nat.
Proof.
  induction l as [| | |a b c l IH] using list_ind3; [done..|]. cbn [encode_loop app length]. rewrite IH.
  replace (S (S (S (length l))) + 2)%nat with (1 * 3 + (length l + 2))%nat by lia.
  rewrite Nat.div_add_l by lia. lia.
Qed.

(** Decoding what [encode_loop] wrote, from any point between two groups. *)
Lemma decode_encoded strict s :
  Forall byte_ok s -> forall fuel len i done rest,
  (length (encode_loop s) < fuel)%nat -> len = Z.of_nat (length (encode_loop s)) -> i mod 4 = 0 ->
  (length s + 1 <= length rest)%nat ->
  exists i' rest', (1 <= length rest')%nat /\
    decode_loop fuel strict (encode_loop s ++ [0]) len i (Z.of_nat (length done)) (done ++ rest) =
    Some (Dec i' (Z.of_nat (length (done ++ s))) ((done ++ s) ++ rest') 0).
Proof.
  induction s as [|c0|c0 c1|c0 c1 c2 s IH] using list_ind3; intros Hs fuel len i done rest Hf Hl Hi Hr.
  - exists i, rest. split; [done|]. destruct fuel; [cbn in Hf; lia|]. by rewrite app_nil_r.
  - apply Forall_cons in Hs as [H0 _]. destruct rest as [|y0 [|y1 rest]]; [cbn in Hr; lia..|].
    destruct (sextet_eqs c0 c0 c0 H0 H0 H0) as (E0 & _ & E1 & _). cbn [encode_loop app length] in *.
    rewrite E0, E1. do 5 (destruct fuel as [|fuel]; [lia|]). rewrite <- (Z.add_0_r (c0 mod 4 * 16)).
    rewrite (loop_two strict (S (S (S fuel))) c0 0) by lia.
    unfold base64_pad. rewrite loop_pad by (auto || lia).
    rewrite loop_pad by (lia || (right; split; Z.to_euclidean_division_equations; lia)). eexists _, _. split; [|done]. cbn; lia.
  - apply Forall_cons in Hs as [H0 [H1 _]%Forall_cons]. destruct rest as [|y0 [|y1 [|y2 rest]]]; [cbn in Hr; lia..|].
    destruct (sextet_eqs c0 c1 c1 H0 H1 H1) as (E0 & E1 & _ & _ & E2 & _). cbn [encode_loop app length] in *.
    rewrite E0, E1, E2. do 5 (destruct fuel as [|fuel]; [lia|]).
    rewrite (loop_two strict (S (S (S fuel))) c0 (c1 / 16)) by (Z.to_euclidean_division_equations; lia).
    rewrite <- (Z.add_0_r (c1 mod 16 * 4)).
    rewrite (loop_third strict (S (S fuel)) (c1 / 16) (c1 mod 16)) by (Z.to_euclidean_division_equations; lia).
    unfold base64_pad. rewrite loop_pad by (lia || (right; split; Z.to_euclidean_division_equations; lia)).
    replace (c1 / 16 * 16 + c1 mod 16) with c1 by (Z.to_euclidean_division_equations; lia).
    rewrite <- (app_assoc done). eexists _, _. split; [|done]. cbn; lia.
  - apply Forall_cons in Hs as [H0 [H1 [H2 Hs]%Forall_cons]%Forall_cons].
    destruct rest as [|y0 [|y1 [|y2 rest]]]; [cbn in Hr; lia..|].
    destruct (sextet_eqs c0 c1 c2 H0 H1 H2) as (E0 & E1 & _ & E2 & _ & E3). cbn [encode_loop app length] in *.
    rewrite E0, E1, E2, E3. do 4 (destruct fuel as [|fuel]; [lia|]).
    rewrite (loop_two strict (S (S fuel)) c0 (c1 / 16)) by (Z.to_euclidean_division_equations; lia).
    rewrite (loop_third strict (S fuel) (c1 / 16) (c1 mod 16)) by (Z.to_euclidean_division_equations; lia).
    rewrite (loop_fourth strict fuel (c2 / 64) (c2 mod 64)) by (Z.to_euclidean_division_equations; lia).
    replace (c1 / 16 * 16 + c1 mod 16) with c1 by (Z.to_euclidean_division_equations; lia).
    replace (c2 / 64 * 64 + c2 mod 64) with c2 by (Z.to_euclidean_division_equations; lia).
    destruct (IH Hs fuel (len - 2 - 1 - 1) (i + 2 + 1 + 1) (((done ++ [c0]) ++ [c1]) ++ [c2]) rest) as (i' & rest' & Hr' & He);
      [lia|lia|Z.to_euclidean_division_equations; lia|lia|].
    exists i', rest'. split; [done|]. rewrite He. by rewrite <- !app_assoc.
Qed.

(** ** Safety of the decoder on any input *)

Lemma skip_space_end l : exists l', skip_space (l ++ [0]) = l' ++ [0] /\ (length l' <= length l)%nat.
Proof.
  induction l as [|c l (l' & IH & Hl)]; [by exists []|]. cbn [skip_space app]. destruct (isspace c).
  - exists l'. split; [done|cbn; lia].
  - by exists (c :: l).
Qed.

Lemma put_length result j v result' : put result j v = Some result' -> length result' = length result.
Proof. unfold put. destruct (_ && _); [|done]. intros [= <-]. apply length_insert. Qed.

Lemma put_total result j v : 0 <= j < Z.of_nat (length result) -> exists result', put result j v = Some result'.
Proof. intros Hj. unfold put. destruct (Z.leb_spec 0 j), (Z.ltb_spec j (Z.of_nat (length result))); try lia. by eexists. Qed.

Lemma put_or_total result j v :
  0 <= j < Z.of_nat (length result) -> exists result', put_or result j v = Some result' /\ length result' = length result.
Proof.
  intros Hj. unfold put_or. destruct (lookup_lt_is_Some_2 result (Z.to_nat j)) as [x ->]; [lia|]. cbn [mbind option_bind].
  destruct (put_total result j (Z.lor x v) Hj) as [r Hr]. exists r. eauto using put_length.
Qed.

(** [j] is three quarters of [i], rounded down; a store stays inside the buffer. *)
Lemma store_total i ch result :
  0 <= i -> i + 1 < Z.of_nat (length result) ->
  exists result', store_sextet i (3 * i / 4) ch result = Some (3 * (i + 1) / 4, result') /\ length result' = length result.
Proof.
  intros Hi Hn. unfold store_sextet. set (j := 3 * i / 4).
  assert (Hj : 0 <= j /\ j + 1 < Z.of_nat (length result)) by (unfold j; Z.to_euclidean_division_equations; lia).
  assert (Hm : i mod 4 = 0 \/ i mod 4 = 1 \/ i mod 4 = 2 \/ i mod 4 = 3) by (pose proof (Z.mod_pos_bound i 4); lia).
  assert (Hnx : 3 * (i + 1) / 4 = if i mod 4 =? 0 then j else j + 1).
  { unfold j. destruct (Z.eqb_spec (i mod 4) 0); Z.to_euclidean_division_equations; lia. }
  rewrite Hnx. destruct Hm as [->|[->|[->| ->]]]; cbn [Z.eqb Pos.eqb].
  - destruct (put_total result j (Z.shiftl ch 2)) as [r Hr]; [lia|]. rewrite Hr. eauto using put_length.
  - destruct (put_or_total result j (Z.shiftr ch 4)) as (r & -> & Hr); [lia|]. cbn [mbind option_bind].
    destruct (put_total r (j + 1) (Z.shiftl (Z.land ch 0x0f) 4)) as [r' Hr']; [lia|]. rewrite Hr'.
    apply put_length in Hr'. eexists. split; [done|lia].
  - destruct (put_or_total result j (Z.shiftr ch 2)) as (r & -> & Hr); [lia|]. cbn [mbind option_bind].
    destruct (put_total r (j + 1) (Z.shiftl (Z.land ch 0x03) 6)) as [r' Hr']; [lia|]. rewrite Hr'.
    apply put_length in Hr'. eexists. split; [done|lia].
  - destruct (put_or_total result j ch) as (r & -> & Hr); [lia|]. cbn [mbind option_bind]. by eexists.
Qed.

Lemma reverse_table_total ch : 0 <= ch < 256 -> exists v, aref base64_reverse_table ch = Some v.
Proof.
  intros Hc. unfold aref. destruct (Z.leb_spec 0 ch); [|lia]. apply lookup_lt_is_Some_2.
  change (length base64_reverse_table) with 256%nat. lia.
Qed.

Definition dec_ok (n : nat) (d : decoded) : Prop :=
  match d with
  | DecNull => True
  | Dec i j result ch => ch = 0 /\ 0 <= j /\ j = 3 * i / 4 /\ i <= Z.of_nat n /\ length result = (n + 1)%nat
  end.

Lemma loop_terminator fuel strict current len i j result :
  decode_loop (S fuel) strict (0 :: current) len i j result = Some (Dec i j result 0).
Proof. done. Qed.

Lemma decode_loop_safe strict n l : Forall byte_ok l -> forall fuel i result,
  (length l < fuel)%nat -> 0 <= i -> i + Z.of_nat (length l) <= Z.of_nat n -> length result = (n + 1)%nat ->
  exists d, decode_loop fuel strict (l ++ [0]) (Z.of_nat (length l)) i (3 * i / 4) result = Some d /\ dec_ok n d.
Proof.
  induction 1 as [|ch l Hc Hl IH]; intros fuel i result Hf Hi Hn Hr; (destruct fuel as [|fuel]; [lia|]).
  { eexists. split; [done|]. cbn. split_and!; try done; Z.to_euclidean_division_equations; lia. }
  cbn [decode_loop app length] in *.
  assert (Hdone : dec_ok n (Dec i (3 * i / 4) result 0)) by (cbn; split_and!; try done; Z.to_euclidean_division_equations; lia).
  destruct (Z.eqb_spec ch 0) as [->|Hch]; [by eexists|]. destruct (Z.leb_spec (Z.of_nat (S (length l))) 0); [lia|].
  replace (Z.of_nat (S (length l)) - 1) with (Z.of_nat (length l)) by lia.
  assert (Hnext : exists d, decode_loop fuel strict (l ++ [0]) (Z.of_nat (length l)) i (3 * i / 4) result = Some d /\ dec_ok n d)
    by (apply IH; [lia..|done]).
  destruct (ch =? base64_pad).
  - destruct (head (l ++ [0])) as [next|] eqn:Hh; [|by destruct l]. cbn [mbind option_bind].
    destruct (negb (next =? 61)); cbn [andb]; [|done]. destruct (i mod 4 =? 1); cbn [orb negb]; [by exists DecNull|].
    destruct (strict && _) eqn:Hst; [|done]. destruct l as [|c l]; [by rewrite andb_false_r in Hst|].
    cbn [tail app]. destruct (skip_space_end l) as (l' & -> & Hl').
    destruct l' as [|c' l']; cbn [app head mbind option_bind].
    + destruct fuel as [|fuel]; [cbn in Hf; lia|]. rewrite loop_terminator. by eexists.
    + destruct (Z.eqb_spec c' 0) as [->|]; [|by exists DecNull].
      destruct fuel as [|fuel]; [cbn in Hf; lia|]. rewrite loop_terminator. by eexists.
  - destruct (reverse_table_total ch Hc) as [v ->]. cbn [mbind option_bind].
    destruct (_ || _); [done|]. destruct (v =? -2); [by exists DecNull|].
    destruct (store_total i v result) as (result' & -> & Hr'); [lia|lia|]. cbn [mbind option_bind].
    apply IH; lia.
Qed.

(** C39: base64 round trip: a string of any bytes that is not too long encodes to 4
    characters for every 3 bytes or part of them, and decodes, strictly or not,
    to itself. *)
Theorem base64_roundtrip s strict :
  Forall (fun b => 0 <= b < 256) s -> Z.of_nat (length s) <= 1610612732 ->
  exists e, jonj_base64_encode s = Some e /\ length e = (4 * ((length s + 2) / 3))%nat /\
    jonj_base64_decode_ex e strict = Some (Some s).
Proof.
  intros Hs Hn. exists (encode_loop s). pose proof (encode_length s) as Hlen.
  assert (length s <= length (encode_loop s))%nat as Hle.
  { rewrite Hlen. pose proof (Nat.div_mod_eq (length s + 2) 3). pose proof (Nat.mod_upper_bound (length s + 2) 3). lia. }
  split_and!; [|done|].
  - unfold jonj_base64_encode. destruct (Z.ltb_spec ((2 ^ 31 - 1) / 4) ((Z.of_nat (length s) + 2) / 3)) as [Hlt|]; [|done].
    exfalso. Z.to_euclidean_division_equations. lia.
  - unfold jonj_base64_decode_ex.
    destruct (decode_encoded strict s Hs (length (encode_loop s) + 1) (Z.of_nat (length (encode_loop s))) 0 []
      (replicate (length (encode_loop s) + 1) 0)) as (i & rest & Hr & He); [lia|done|done|rewrite length_replicate; lia|].
    cbn [app length] in He. change (Z.of_nat 0) with 0 in He. rewrite He. cbn [mbind option_bind andb].
    change (0 =? base64_pad) with false. cbn [andb mbind option_bind].
    destruct rest as [|y rest]; [cbn in Hr; lia|]. rewrite put_app. cbn [mbind option_bind].
    by rewrite Nat2Z.id, take_app_length.
Qed.

Lemma base64_roundtrip_witness :
  exists e, jonj_base64_encode [0; 255; 128; 7] = Some e /\ length e = 8%nat /\
    jonj_base64_decode_ex e true = Some (Some [0; 255; 128; 7]).
Proof.
  apply (base64_roundtrip [0; 255; 128; 7] true); [|discriminate].
  repeat constructor; discriminate || reflexivity.
Defined.

(** C40: the decoder is safe on every input, with NULs, pads and characters outside
    the alphabet anywhere: it ends, reads no byte after the terminator, writes
    only inside its buffer, and gives NULL or at most three quarters of the input. *)
Theorem base64_decode_safe s strict :
  Forall (fun b => 0 <= b < 256) s ->
  exists r, jonj_base64_decode_ex s strict = Some r /\
    match r with Some out => Z.of_nat (length out) <= 3 * Z.of_nat (length s) / 4 | None => True end.
Proof.
  intros Hs. unfold jonj_base64_decode_ex.
  destruct (decode_loop_safe strict (length s) s Hs (length s + 1) 0 (replicate (length s + 1) 0)) as (d & Hd & Hok);
    [lia|lia|lia|apply length_replicate|].
  change (3 * 0 / 4) with 0 in Hd. rewrite Hd. cbn [mbind option_bind]. destruct d as [|i j result ch]; [by exists None|].
  destruct Hok as (-> & Hj0 & Hj & Hi & Hr). change (0 =? base64_pad) with false. cbn [andb mbind option_bind].
  assert (Hb : j <= 3 * Z.of_nat (length s) / 4) by (subst j; apply Z.div_le_mono; lia).
  destruct (put_total result j 0) as [r Hp]; [Z.to_euclidean_division_equations; lia|]. rewrite Hp. cbn [mbind option_bind].
  eexists. split; [done|]. cbn. rewrite length_take. lia.
Qed.

Lemma base64_decode_safe_witness :
  exists r, jonj_base64_decode_ex [81; 81; 61; 33] true = Some r /\
    match r with Some out => Z.of_nat (length out) <= 3 | None => True end.
Proof. apply (base64_decode_safe [81; 81; 61; 33] true). repeat constructor; discriminate || reflexivity. Defined.

(** Strict decoding does not look at the character after a pad: "QQ=!" is accepted. *)
Example base64_strict_accepts_junk : jonj_base64_decode_ex [81; 81; 61; 33] true = Some (Some [65]).
Proof. vm_compute. reflexivity. Qed.
