(* ===== verification/ZendGC.v ===== *)
(** * ZendGC: the cycle collector

    Models src/Zend/zend_gc.c and zend_gc.h: the root buffer, and the three passes of
    [gc_collect_cycles] that find cyclic garbage (trial deletion): marking grey
    subtracts the references inside the subgraph below the possible roots, scanning
    blackens again what is referenced from outside, collecting links the rest into
    the list of zvals to free.

    A zval is its type with what it refers to, its reference count and the word
    [u.buffered]/[u.next] behind it.  An array is the list of its elements in order,
    and what an object's [get_gc] handler returns (a table of zval pointers, some of
    them NULL, and perhaps a property table) is kept with the object, as the handler
    must not change what it returns during a collection.  The links of the root list
    are represented by the sequence they form. *)
From S2P Require Import Prelude Memory.
From stdpp Require Import base option list gmap.
Local Open Scope Z_scope.

(** ** Tagged words, zend_gc.h *)

Definition GC_COLOR : Z := 3.
Definition GC_BLACK : Z := 0.
Definition GC_WHITE : Z := 1.
Definition GC_GREY : Z := 2.
Definition GC_PURPLE : Z := 3.

Definition GC_ADDRESS (v : Z) : Z := Z.ldiff v GC_COLOR.
Definition GC_SET_ADDRESS (v a : Z) : Z := Z.lor (Z.land v GC_COLOR) a.
Definition GC_GET_COLOR (v : Z) : Z := Z.land v GC_COLOR.
Definition GC_SET_COLOR (v c : Z) : Z := Z.lor (Z.ldiff v GC_COLOR) c.
Definition GC_SET_BLACK (v : Z) : Z := Z.ldiff v GC_COLOR.
Definition GC_SET_PURPLE (v : Z) : Z := Z.lor v GC_PURPLE.

Abbreviation zptr := positive.
Abbreviation zhandle := positive.

(** Addresses: of zvals, here multiples of 4, and of entries of the root buffer. *)
Definition zaddr (pz : zptr) : Z := 4 * Z.pos pz.
Abbreviation rptr := Z.

Definition sizeof_gc_root_buffer : Z := 32.
Definition GC_ROOT_BUFFER_MAX_ENTRIES : Z := 10000.

Definition NULL : Z := 0.
Definition FREE_LIST_END : Z := 2 ^ 64 - 1 - GC_COLOR.

(** ** Data *)

(** [IS_GLOBALS] is an array whose table is [&EG(symbol_table)]. *)
Inductive ztype :=
  | IS_ARRAY (elements : list zptr)
  | IS_GLOBALS (elements : list zptr)
  | IS_OBJECT (handle : zhandle)
  | IS_SCALAR.

Record zval := mkZval {
  z_type : ztype;
  refcount__gc : Z;
  u_word : Z
}.

(** A bucket of the object store: its flags and its [struct _store_object], with the code
    and data pointers as addresses.  [get_gc] is what the handler of that name returns,
    [None] when there is no handler. *)
Record store_object := mkObj {
  destructor_called : bool;
  valid : bool;
  apply_count : Z;
  object : Z;
  dtor : Z;
  free_storage : Z;
  clone : Z;
  handlers : Z;
  get_gc : option (list (option zptr) * option (list zptr));
  refcount : Z;
  buffered : Z
}.

(** An entry of the root buffer stands for an object, by its handle, or for a zval. *)
Inductive root := RootObj (h : zhandle) | RootZval (pz : zptr).

Record gc := mkGc {
  zvals : gmap zptr zval;
  (** [EG(objects_store).object_buckets], [None] when it is NULL *)
  object_buckets : option (gmap zhandle store_object);
  (** [top], [size] and [free_list_head] of [EG(objects_store)] *)
  store_top : Z;
  store_size : Z;
  free_list_head : Z;
  gc_enabled : bool;
  gc_active : bool;
  buf : Z;
  (** the entries from [roots.next] to [roots.prev] *)
  roots : list (rptr * root);
  (** the entries linked by [prev] from [unused] on *)
  unused : list rptr;
  first_unused : rptr;
  last_unused : rptr;
  zval_to_free : Z;
  free_list : Z;
  next_to_free : Z;
  gc_runs : Z;
  collected : Z
}.

Definition set_word (w : Z) (z : zval) : zval := mkZval (z_type z) (refcount__gc z) w.
Definition add_zref (d : Z) (z : zval) : zval := mkZval (z_type z) (u32 (refcount__gc z + d)) (u_word z).
Definition set_buffered (w : Z) (o : store_object) : store_object :=
  mkObj (destructor_called o) (valid o) (apply_count o) (object o) (dtor o) (free_storage o)
    (clone o) (handlers o) (get_gc o) (refcount o) w.
Definition set_refcount (x : Z) (o : store_object) : store_object :=
  mkObj (destructor_called o) (valid o) (apply_count o) (object o) (dtor o) (free_storage o)
    (clone o) (handlers o) (get_gc o) x (buffered o).
Definition add_oref (d : Z) (o : store_object) : store_object := set_refcount (u32 (refcount o + d)) o.

Definition set_zvals (x : gmap zptr zval) (s : gc) : gc :=
  mkGc x (object_buckets s) (store_top s) (store_size s) (free_list_head s) (gc_enabled s)
    (gc_active s) (buf s) (roots s) (unused s) (first_unused s) (last_unused s)
    (zval_to_free s) (free_list s) (next_to_free s) (gc_runs s) (collected s).
Definition set_object_buckets (x : option (gmap zhandle store_object)) (s : gc) : gc :=
  mkGc (zvals s) x (store_top s) (store_size s) (free_list_head s) (gc_enabled s) (gc_active
    s) (buf s) (roots s) (unused s) (first_unused s) (last_unused s) (zval_to_free s)
    (free_list s) (next_to_free s) (gc_runs s) (collected s).
Definition set_buckets (x : gmap zhandle store_object) (s : gc) : gc := set_object_buckets (Some x) s.
Definition set_store_top (x : Z) (s : gc) : gc :=
  mkGc (zvals s) (object_buckets s) x (store_size s) (free_list_head s) (gc_enabled s)
    (gc_active s) (buf s) (roots s) (unused s) (first_unused s) (last_unused s)
    (zval_to_free s) (free_list s) (next_to_free s) (gc_runs s) (collected s).
Definition set_store_size (x : Z) (s : gc) : gc :=
  mkGc (zvals s) (object_buckets s) (store_top s) x (free_list_head s) (gc_enabled s)
    (gc_active s) (buf s) (roots s) (unused s) (first_unused s) (last_unused s)
    (zval_to_free s) (free_list s) (next_to_free s) (gc_runs s) (collected s).
Definition set_free_list_head (x : Z) (s : gc) : gc :=
  mkGc (zvals s) (object_buckets s) (store_top s) (store_size s) x (gc_enabled s) (gc_active
    s) (buf s) (roots s) (unused s) (first_unused s) (last_unused s) (zval_to_free s)
    (free_list s) (next_to_free s) (gc_runs s) (collected s).
Definition set_gc_active (x : bool) (s : gc) : gc :=
  mkGc (zvals s) (object_buckets s) (store_top s) (store_size s) (free_list_head s)
    (gc_enabled s) x (buf s) (roots s) (unused s) (first_unused s) (last_unused s)
    (zval_to_free s) (free_list s) (next_to_free s) (gc_runs s) (collected s).
Definition set_buf (x : Z) (s : gc) : gc :=
  mkGc (zvals s) (object_buckets s) (store_top s) (store_size s) (free_list_head s)
    (gc_enabled s) (gc_active s) x (roots s) (unused s) (first_unused s) (last_unused s)
    (zval_to_free s) (free_list s) (next_to_free s) (gc_runs s) (collected s).
Definition set_roots (x : list (rptr * root)) (s : gc) : gc :=
  mkGc (zvals s) (object_buckets s) (store_top s) (store_size s) (free_list_head s)
    (gc_enabled s) (gc_active s) (buf s) x (unused s) (first_unused s) (last_unused s)
    (zval_to_free s) (free_list s) (next_to_free s) (gc_runs s) (collected s).
Definition set_unused (x : list rptr) (s : gc) : gc :=
  mkGc (zvals s) (object_buckets s) (store_top s) (store_size s) (free_list_head s)
    (gc_enabled s) (gc_active s) (buf s) (roots s) x (first_unused s) (last_unused s)
    (zval_to_free s) (free_list s) (next_to_free s) (gc_runs s) (collected s).
Definition set_first_unused (x : rptr) (s : gc) : gc :=
  mkGc (zvals s) (object_buckets s) (store_top s) (store_size s) (free_list_head s)
    (gc_enabled s) (gc_active s) (buf s) (roots s) (unused s) x (last_unused s)
    (zval_to_free s) (free_list s) (next_to_free s) (gc_runs s) (collected s).
Definition set_last_unused (x : rptr) (s : gc) : gc :=
  mkGc (zvals s) (object_buckets s) (store_top s) (store_size s) (free_list_head s)
    (gc_enabled s) (gc_active s) (buf s) (roots s) (unused s) (first_unused s) x
    (zval_to_free s) (free_list s) (next_to_free s) (gc_runs s) (collected s).
Definition set_zval_to_free (x : Z) (s : gc) : gc :=
  mkGc (zvals s) (object_buckets s) (store_top s) (store_size s) (free_list_head s)
    (gc_enabled s) (gc_active s) (buf s) (roots s) (unused s) (first_unused s) (last_unused
    s) x (free_list s) (next_to_free s) (gc_runs s) (collected s).
Definition set_free_list (x : Z) (s : gc) : gc :=
  mkGc (zvals s) (object_buckets s) (store_top s) (store_size s) (free_list_head s)
    (gc_enabled s) (gc_active s) (buf s) (roots s) (unused s) (first_unused s) (last_unused
    s) (zval_to_free s) x (next_to_free s) (gc_runs s) (collected s).
Definition set_next_to_free (x : Z) (s : gc) : gc :=
  mkGc (zvals s) (object_buckets s) (store_top s) (store_size s) (free_list_head s)
    (gc_enabled s) (gc_active s) (buf s) (roots s) (unused s) (first_unused s) (last_unused
    s) (zval_to_free s) (free_list s) x (gc_runs s) (collected s).
Definition set_gc_runs (x : Z) (s : gc) : gc :=
  mkGc (zvals s) (object_buckets s) (store_top s) (store_size s) (free_list_head s)
    (gc_enabled s) (gc_active s) (buf s) (roots s) (unused s) (first_unused s) (last_unused
    s) (zval_to_free s) (free_list s) (next_to_free s) x (collected s).
Definition set_collected (x : Z) (s : gc) : gc :=
  mkGc (zvals s) (object_buckets s) (store_top s) (store_size s) (free_list_head s)
    (gc_enabled s) (gc_active s) (buf s) (roots s) (unused s) (first_unused s) (last_unused
    s) (zval_to_free s) (free_list s) (next_to_free s) (gc_runs s) x.

(** ** Access *)

Abbreviation gcmd := (cmd gc).

Definition zget (pz : zptr) : gcmd zval := fun s =>
  match zvals s !! pz with Some z => Some (z, s) | None => None end.

Definition zupd (pz : zptr) (f : zval -> zval) : gcmd unit := fun s =>
  match zvals s !! pz with
  | Some z => Some (tt, set_zvals (<[pz := f z]> (zvals s)) s)
  | None => None
  end.

Definition oget (h : zhandle) : gcmd store_object := fun s =>
  match object_buckets s with
  | Some m => match m !! h with Some o => Some (o, s) | None => None end
  | None => None
  end.

Definition oupd (h : zhandle) (f : store_object -> store_object) : gcmd unit := fun s =>
  match object_buckets s with
  | Some m => match m !! h with
              | Some o => Some (tt, set_buckets (<[h := f o]> m) s)
              | None => None
              end
  | None => None
  end.

Definition gets {A} (f : gc -> A) : gcmd A := fun s => Some (f s, s).
Definition modify (f : gc -> gc) : gcmd unit := fun s => Some (tt, f s).

Definition GC_ZVAL_GET_COLOR (pz : zptr) : gcmd Z := z ← zget pz; mret (GC_GET_COLOR (u_word z)).
Definition GC_ZVAL_SET_COLOR (pz : zptr) (c : Z) : gcmd unit :=
  zupd pz (fun z => set_word (GC_SET_COLOR (u_word z) c) z).
Definition GC_ZVAL_SET_BLACK (pz : zptr) : gcmd unit :=
  zupd pz (fun z => set_word (GC_SET_BLACK (u_word z)) z).
Definition GC_ZVAL_SET_ADDRESS (pz : zptr) (a : Z) : gcmd unit :=
  zupd pz (fun z => set_word (GC_SET_ADDRESS (u_word z) a) z).

(** [if (Z_TYPE_P(pz) != IS_ARRAY || Z_ARRVAL_P(pz) != &EG(symbol_table)) pz->refcount__gc += d] *)
Definition ref_child (pz : zptr) (d : Z) : gcmd unit :=
  z ← zget pz;
  match z_type z with
  | IS_GLOBALS _ => mret tt
  | _ => zupd pz (add_zref d)
  end.

(** A loop over zval pointers.  Where the code jumps back with [goto tail_call] on the
    last element, the model calls the function once more. *)
Fixpoint each (visit : zptr -> gcmd unit) (l : list zptr) : gcmd unit :=
  match l with
  | [] => mret tt
  | pz :: l => visit pz ;; each visit l
  end.

(** [for (i = 0; i < n; i++) { if (table[i]) ... }] *)
Fixpoint each_entry (visit : zptr -> gcmd unit) (table : list (option zptr)) : gcmd unit :=
  match table with
  | [] => mret tt
  | Some pz :: table => visit pz ;; each_entry visit table
  | None :: table => each_entry visit table
  end.

(** [if (valid && (get_gc = Z_OBJ_HANDLER_P(pz, get_gc)) != NULL)]: the table, then the
    properties, if there are any. *)
Definition each_child (visit : zptr -> gcmd unit) (o : store_object) : gcmd unit :=
  match valid o, get_gc o with
  | true, Some (table, props) =>
      each_entry visit table ;;
      match props with
      | Some l => each visit l
      | None => mret tt
      end
  | _, _ => mret tt
  end.

(** Whether [EG(objects_store).object_buckets] is there. *)
Definition store_alive : gcmd bool := gets (fun s => bool_decide (is_Some (object_buckets s))).

(** As many calls of a pass can be nested as there are zvals. *)
Definition nesting : gcmd nat := gets (fun s => S (size (zvals s))).

(** ** Scanning black *)

Definition black_child (visit : zptr -> gcmd unit) (pz : zptr) : gcmd unit :=
  ref_child pz 1 ;;
  c ← GC_ZVAL_GET_COLOR pz;
  if c =? GC_BLACK then mret tt else visit pz.

Fixpoint zval_scan_black (fuel : nat) (pz : zptr) : gcmd unit :=
  match fuel with
  | O => cfault
  | S fuel =>
      GC_ZVAL_SET_BLACK pz ;;
      z ← zget pz;
      alive ← store_alive;
      match z_type z, alive with
      | IS_OBJECT h, true =>
          oupd h (add_oref 1) ;;
          o ← oget h;
          if GC_GET_COLOR (buffered o) =? GC_BLACK then mret tt
          else
            oupd h (fun o => set_buffered (GC_SET_BLACK (buffered o)) o) ;;
            each_child (black_child (zval_scan_black fuel)) o
      | IS_ARRAY l, _ => each (black_child (zval_scan_black fuel)) l
      | _, _ => mret tt
      end
  end.

Definition zobj_scan_black (fuel : nat) (h : zhandle) : gcmd unit :=
  oupd h (fun o => set_buffered (GC_SET_BLACK (buffered o)) o) ;;
  o ← oget h;
  each_child (black_child (zval_scan_black fuel)) o.

(** ** Marking grey *)

Definition grey_child (visit : zptr -> gcmd unit) (pz : zptr) : gcmd unit :=
  ref_child pz (-1) ;;
  visit pz.

Fixpoint zval_mark_grey (fuel : nat) (pz : zptr) : gcmd unit :=
  match fuel with
  | O => cfault
  | S fuel =>
      c ← GC_ZVAL_GET_COLOR pz;
      if c =? GC_GREY then mret tt
      else
        GC_ZVAL_SET_COLOR pz GC_GREY ;;
        z ← zget pz;
        alive ← store_alive;
        match z_type z, alive with
        | IS_OBJECT h, true =>
            oupd h (add_oref (-1)) ;;
            o ← oget h;
            if GC_GET_COLOR (buffered o) =? GC_GREY then mret tt
            else
              oupd h (fun o => set_buffered (GC_SET_COLOR (buffered o) GC_GREY) o) ;;
              each_child (grey_child (zval_mark_grey fuel)) o
        | IS_GLOBALS _, _ => GC_ZVAL_SET_BLACK pz
        | IS_ARRAY l, _ => each (grey_child (zval_mark_grey fuel)) l
        | _, _ => mret tt
        end
  end.

Definition zobj_mark_grey (fuel : nat) (h : zhandle) : gcmd unit :=
  o ← oget h;
  if GC_GET_COLOR (buffered o) =? GC_GREY then mret tt
  else
    oupd h (fun o => set_buffered (GC_SET_COLOR (buffered o) GC_GREY) o) ;;
    each_child (grey_child (zval_mark_grey fuel)) o.

(** Unlinks an entry of the root list. *)
Definition gc_remove_from_buffer (r : rptr) : gcmd unit := fun s =>
  if decide (r ∈ (roots s).*1) then
    Some (tt, set_unused (r :: unused s) (set_roots (filter (fun x => x.1 <> r) (roots s)) s))
  else None.

Fixpoint mark_roots_loop (l : list (rptr * root)) : gcmd unit :=
  match l with
  | [] => mret tt
  | (current, RootObj h) :: l =>
      alive ← store_alive;
      (if alive : bool then
         o ← oget h;
         if GC_GET_COLOR (buffered o) =? GC_PURPLE then n ← nesting; zobj_mark_grey n h
         else
           oupd h (fun o => set_buffered (GC_SET_ADDRESS (buffered o) NULL) o) ;;
           gc_remove_from_buffer current
       else mret tt) ;;
      mark_roots_loop l
  | (current, RootZval pz) :: l =>
      c ← GC_ZVAL_GET_COLOR pz;
      (if c =? GC_PURPLE then n ← nesting; zval_mark_grey n pz
       else GC_ZVAL_SET_ADDRESS pz NULL ;; gc_remove_from_buffer current) ;;
      mark_roots_loop l
  end.

(** The loop reads [current->next] after the entry may have been removed; a removed
    entry keeps its [next]. *)
Definition gc_mark_roots : gcmd unit := l ← gets roots; mark_roots_loop l.

(** ** Scanning *)

Fixpoint zval_scan (fuel : nat) (pz : zptr) : gcmd unit :=
  match fuel with
  | O => cfault
  | S fuel =>
      c ← GC_ZVAL_GET_COLOR pz;
      if c =? GC_GREY then
        z ← zget pz;
        if 0 <? refcount__gc z then n ← nesting; zval_scan_black n pz
        else
          GC_ZVAL_SET_COLOR pz GC_WHITE ;;
          alive ← store_alive;
          match z_type z, alive with
          | IS_OBJECT h, true =>
              o ← oget h;
              if GC_GET_COLOR (buffered o) =? GC_GREY then
                if 0 <? refcount o then n ← nesting; zobj_scan_black n h
                else
                  oupd h (fun o => set_buffered (GC_SET_COLOR (buffered o) GC_WHITE) o) ;;
                  each_child (zval_scan fuel) o
              else mret tt
          | IS_GLOBALS _, _ => GC_ZVAL_SET_BLACK pz
          | IS_ARRAY l, _ => each (zval_scan fuel) l
          | _, _ => mret tt
          end
      else mret tt
  end.

Definition zobj_scan (fuel : nat) (h : zhandle) : gcmd unit :=
  alive ← store_alive;
  if alive : bool then
    o ← oget h;
    if GC_GET_COLOR (buffered o) =? GC_GREY then
      if 0 <? refcount o then n ← nesting; zobj_scan_black n h
      else
        oupd h (fun o => set_buffered (GC_SET_COLOR (buffered o) GC_WHITE) o) ;;
        each_child (zval_scan fuel) o
    else mret tt
  else mret tt.

Fixpoint scan_roots_loop (l : list (rptr * root)) : gcmd unit :=
  match l with
  | [] => mret tt
  | (_, RootObj h) :: l => n ← nesting; zobj_scan n h ;; scan_roots_loop l
  | (_, RootZval pz) :: l => n ← nesting; zval_scan n pz ;; scan_roots_loop l
  end.

Definition gc_scan_roots : gcmd unit := l ← gets roots; scan_roots_loop l.

(** ** Collecting *)

(** [pz->refcount__gc++; pz->u.next = GC_G(zval_to_free); GC_G(zval_to_free) = pz;] *)
Definition put_to_free (pz : zptr) : gcmd unit :=
  zupd pz (add_zref 1) ;;
  next ← gets zval_to_free;
  zupd pz (set_word next) ;;
  modify (set_zval_to_free (zaddr pz)).

Definition white_child (visit : zptr -> gcmd unit) (pz : zptr) : gcmd unit :=
  ref_child pz 1 ;;
  visit pz.

Fixpoint zval_collect_white (fuel : nat) (pz : zptr) : gcmd unit :=
  match fuel with
  | O => cfault
  | S fuel =>
      let visit := white_child (zval_collect_white fuel) in
      z ← zget pz;
      if u_word z =? GC_WHITE then
        GC_ZVAL_SET_BLACK pz ;;
        alive ← store_alive;
        match z_type z, alive with
        | IS_OBJECT h, true =>
            o ← oget h;
            if buffered o =? GC_WHITE then
              oupd h (fun o => set_buffered (GC_SET_PURPLE (buffered o)) o) ;;
              match valid o, get_gc o with
              | true, Some (table, None) => put_to_free pz ;; each_entry visit table
              | true, Some (table, Some props) =>
                  each_entry visit table ;; put_to_free pz ;; each visit props
              | _, _ => put_to_free pz
              end
            else put_to_free pz
        | IS_ARRAY l, _ | IS_GLOBALS l, _ => put_to_free pz ;; each visit l
        | _, _ => put_to_free pz
        end
      else mret tt
  end.

Definition zobj_collect_white (fuel : nat) (h : zhandle) : gcmd unit :=
  alive ← store_alive;
  if alive : bool then
    o ← oget h;
    if buffered o =? GC_WHITE then
      oupd h (fun o => set_buffered (GC_SET_PURPLE (buffered o)) o) ;;
      each_child (white_child (zval_collect_white fuel)) o
    else mret tt
  else mret tt.

Fixpoint collect_roots_loop (l : list (rptr * root)) : gcmd unit :=
  match l with
  | [] => mret tt
  | (current, RootObj h) :: l =>
      alive ← store_alive;
      (if alive : bool then
         oupd h (fun o => set_buffered (GC_SET_ADDRESS (buffered o) NULL) o) ;;
         n ← nesting; zobj_collect_white n h
       else mret tt) ;;
      gc_remove_from_buffer current ;;
      collect_roots_loop l
  | (current, RootZval pz) :: l =>
      GC_ZVAL_SET_ADDRESS pz NULL ;;
      n ← nesting; zval_collect_white n pz ;;
      gc_remove_from_buffer current ;;
      collect_roots_loop l
  end.

Definition gc_collect_roots : gcmd unit := l ← gets roots; collect_roots_loop l.

(** The part of [gc_collect_cycles] that finds the garbage: when it is done, [free_list]
    is the list of the zvals to destroy.  [false] when there is nothing to do or a
    collection is going on. *)
Definition gc_find_garbage : gcmd bool :=
  l ← gets roots;
  active ← gets gc_active;
  match l with
  | [] => mret false
  | _ =>
      if active : bool then mret false
      else
        modify (fun s => set_gc_runs (u32 (gc_runs s + 1)) s) ;;
        modify (set_zval_to_free FREE_LIST_END) ;;
        modify (set_gc_active true) ;;
        gc_mark_roots ;;
        gc_scan_roots ;;
        gc_collect_roots ;;
        modify (fun s => set_free_list (zval_to_free s) s) ;;
        modify (set_zval_to_free NULL) ;;
        modify (set_gc_active false) ;;
        mret true
  end.

(** ** The root buffer *)

Definition gc_globals_ctor_ex (s : gc) : gc :=
  mkGc (zvals s) (object_buckets s) (store_top s) (store_size s) (free_list_head s) false false NULL [] []
    (first_unused s) (last_unused s) NULL NULL NULL 0 0.

Definition gc_reset : gcmd unit :=
  modify (set_gc_runs 0) ;;
  modify (set_collected 0) ;;
  modify (set_roots []) ;;
  b ← gets buf;
  if b =? NULL then
    modify (set_unused []) ;; modify (set_first_unused NULL) ;; modify (set_last_unused NULL)
  else
    modify (set_unused []) ;; modify (set_first_unused b) ;; modify (set_zval_to_free NULL).

(** [mem] is the address that malloc returns. *)
Definition gc_init (mem : Z) : gcmd unit :=
  b ← gets buf;
  e ← gets gc_enabled;
  if (b =? NULL) && e then
    modify (set_buf mem) ;;
    modify (set_last_unused (mem + GC_ROOT_BUFFER_MAX_ENTRIES * sizeof_gc_root_buffer)) ;;
    gc_reset
  else mret tt.

(** The word of a zval that waits in [free_list] links it to the next one: it looks black
    and its address is not in the buffer. *)
Definition being_freed (w : Z) (s : gc) : bool :=
  negb (free_list s =? NULL) && (GC_GET_COLOR w =? GC_BLACK) &&
  ((GC_ADDRESS w <? buf s) || (last_unused s <=? GC_ADDRESS w)).

(** An entry for a new root: one that was used before, or the first that never was, or
    one that a collection has freed; [None] when there is none.  [keep] and [release]
    are the [refcount__gc++] and [refcount__gc--] around the collection. *)
Definition new_root (gc_collect_cycles keep release : gcmd unit) : gcmd (option rptr) :=
  l ← gets unused;
  match l with
  | r :: rest => modify (set_unused rest) ;; mret (Some r)
  | [] =>
      f ← gets first_unused;
      e ← gets last_unused;
      if negb (f =? e) then
        modify (set_first_unused (f + sizeof_gc_root_buffer)) ;; mret (Some f)
      else
        enabled ← gets gc_enabled;
        if enabled : bool then
          keep ;; gc_collect_cycles ;; release ;;
          l ← gets unused;
          match l with
          | r :: rest => modify (set_unused rest) ;; mret (Some r)
          | [] => mret None
          end
        else mret None
  end.

Definition gc_zobj_possible_root (gc_collect_cycles : gcmd unit) (zv : zptr) (h : zhandle) : gcmd unit :=
  alive ← store_alive;
  if alive : bool then
    o ← oget h;
    match get_gc o with
    | None => mret tt
    | Some _ =>
        if negb (GC_GET_COLOR (buffered o) =? GC_PURPLE) && (GC_ADDRESS (buffered o) =? NULL) then
          newRoot ← new_root gc_collect_cycles (zupd zv (add_zref 1)) (zupd zv (add_zref (-1)));
          match newRoot with
          | None => mret tt
          | Some r =>
              oupd h (fun o => set_buffered (GC_SET_PURPLE (buffered o)) o) ;;
              modify (fun s => set_roots ((r, RootObj h) :: roots s) s) ;;
              oupd h (fun o => set_buffered (GC_SET_ADDRESS (buffered o) r) o)
          end
        else mret tt
    end
  else mret tt.

Definition GC_ZOBJ_CHECK_POSSIBLE_ROOT (gc_collect_cycles : gcmd unit) (zv : zptr) (h : zhandle) : gcmd unit :=
  alive ← store_alive;
  if alive : bool then
    o ← oget h;
    if valid o then gc_zobj_possible_root gc_collect_cycles zv h else mret tt
  else mret tt.

Definition gc_zval_possible_root (gc_collect_cycles : gcmd unit) (zv : zptr) : gcmd unit :=
  z ← zget zv;
  skip ← gets (fun s => being_freed (u_word z) s && negb (GC_ADDRESS (u_word z) =? NULL));
  if skip : bool then mret tt
  else
    match z_type z with
    | IS_OBJECT h => GC_ZOBJ_CHECK_POSSIBLE_ROOT gc_collect_cycles zv h
    | _ =>
        if negb (GC_GET_COLOR (u_word z) =? GC_PURPLE) && (GC_ADDRESS (u_word z) =? NULL) then
          newRoot ← new_root gc_collect_cycles (zupd zv (add_zref 1)) (zupd zv (add_zref (-1)));
          match newRoot with
          | None => mret tt
          | Some r =>
              zupd zv (fun z => set_word (GC_SET_PURPLE (u_word z)) z) ;;
              modify (fun s => set_roots ((r, RootZval zv) :: roots s) s) ;;
              GC_ZVAL_SET_ADDRESS zv r
          end
        else mret tt
    end.

Definition gc_remove_zval_from_buffer (zv : zptr) : gcmd unit :=
  z ← zget zv;
  freed ← gets (being_freed (u_word z));
  if freed : bool then
    next ← gets next_to_free;
    if next =? zaddr zv then modify (set_next_to_free (u_word z)) else mret tt
  else
    gc_remove_from_buffer (GC_ADDRESS (u_word z)) ;;
    zupd zv (set_word NULL).

(** ** The macros of zend_gc.h around them *)

Definition GC_REMOVE_ZVAL_FROM_BUFFER (zv : zptr) : gcmd unit :=
  z ← zget zv;
  if GC_ADDRESS (u_word z) =? NULL then mret tt else gc_remove_zval_from_buffer zv.

Definition GC_REMOVE_ZOBJ_FROM_BUFFER (h : zhandle) : gcmd unit :=
  o ← oget h;
  active ← gets gc_active;
  if negb (GC_ADDRESS (buffered o) =? NULL) && negb active then
    gc_remove_from_buffer (GC_ADDRESS (buffered o)) ;;
    oupd h (set_buffered NULL)
  else mret tt.

Definition gc_zval_check_possible_root (gc_collect_cycles : gcmd unit) (z : zptr) : gcmd unit :=
  v ← zget z;
  match z_type v with
  | IS_SCALAR => mret tt
  | _ => gc_zval_possible_root gc_collect_cycles z
  end.

Definition root_buffer_dtor : gcmd unit :=
  b ← gets buf;
  if b =? NULL then mret tt else modify (set_buf NULL).
