(* ===== verification/ZendGCGraph.v ===== *)
(** * ZendGCGraph: the graph the collector walks

    Zvals and objects as the nodes of one graph, the references they hold as its edges;
    the reference counts and tagged words of the nodes as functions of the state, and
    the rules of the primitive steps of [ZendGC] in these terms. *)
From S2P Require Import Prelude Memory ZendGC.
From stdpp Require Import base option list gmap.
Local Open Scope Z_scope.

Inductive node := NZ (p : zptr) | NO (h : zhandle).

#[global] Instance node_eq_dec : EqDecision node.
Proof. solve_decision. Defined.

(** ** What a state says about a node *)

Definition obj_at (s : gc) (h : zhandle) : option store_object := m ← object_buckets s; m !! h.

Definition word (s : gc) (n : node) : Z :=
  match n with
  | NZ p => from_option u_word 0 (zvals s !! p)
  | NO h => from_option buffered 0 (obj_at s h)
  end.

Definition rc (s : gc) (n : node) : Z :=
  match n with
  | NZ p => from_option refcount__gc 0 (zvals s !! p)
  | NO h => from_option refcount 0 (obj_at s h)
  end.

Definition is_globals (t : ztype) : bool := match t with IS_GLOBALS _ => true | _ => false end.

(** The type of a zval, and what an object refers to. *)
Definition type_at (s : gc) (p : zptr) : option ztype := z_type <$> zvals s !! p.
(** What of an object the collector never looks at. *)
Definition attrs_at (s : gc) (h : zhandle) : option (bool * Z * Z * Z * Z * Z * Z) :=
  (fun o => (destructor_called o, apply_count o, object o, dtor o, free_storage o, clone o, handlers o)) <$> obj_at s h.
Definition refs_at (s : gc) (h : zhandle) : option (bool * option (list (option zptr) * option (list zptr))) :=
  (fun o => (valid o, get_gc o)) <$> obj_at s h.

(** A zval that is not the array of global variables: that one is left alone. *)
Definition plain (s : gc) (p : zptr) : bool :=
  match type_at s p with Some t => negb (is_globals t) | None => false end.

Definition is_node (s : gc) (n : node) : Prop :=
  match n with
  | NZ p => plain s p = true
  | NO h => is_Some (obj_at s h)
  end.

Definition plain_nodes (s : gc) (l : list zptr) : list node := NZ <$> filter (fun p => plain s p = true) l.

(** The pointers in what [get_gc] returns. *)
Definition pointers (x : bool * option (list (option zptr) * option (list zptr))) : list zptr :=
  match x with
  | (true, Some (table, props)) => omap id table ++ default [] props
  | _ => []
  end.

Definition kids (s : gc) (n : node) : list node :=
  match n with
  | NZ p =>
      match type_at s p with
      | Some (IS_ARRAY l) => plain_nodes s l
      | Some (IS_OBJECT h) => if bool_decide (is_Some (object_buckets s)) then [NO h] else []
      | _ => []
      end
  | NO h => from_option (fun x => plain_nodes s (pointers x)) [] (refs_at s h)
  end.

(** ** The same graph *)

Record same_graph (s s' : gc) : Prop := {
  same_type : forall p, type_at s' p = type_at s p;
  same_refs : forall h, refs_at s' h = refs_at s h;
  same_attrs : forall h, attrs_at s' h = attrs_at s h;
  same_store : is_Some (object_buckets s') <-> is_Some (object_buckets s)
}.

#[global] Instance same_graph_preorder : PreOrder same_graph.
Proof.
  split; [by split|]. intros s1 s2 s3 [A1 B1 D1 C1] [A2 B2 D2 C2].
  split; intros; [by rewrite A2, A1|by rewrite B2, B1|by rewrite D2, D1|by rewrite C2, C1].
Qed.

Lemma same_plain s s' p : same_graph s s' -> plain s' p = plain s p.
Proof. intros HG. unfold plain. by rewrite (same_type _ _ HG). Qed.

Lemma same_plain_nodes s s' l : same_graph s s' -> plain_nodes s' l = plain_nodes s l.
Proof.
  intros HG. unfold plain_nodes. f_equal. apply list_filter_iff. intros p. by rewrite (same_plain _ _ _ HG).
Qed.

Lemma refs_obj s h : is_Some (refs_at s h) <-> is_Some (obj_at s h).
Proof. unfold refs_at. apply fmap_is_Some. Qed.

Lemma same_node s s' n : same_graph s s' -> is_node s' n <-> is_node s n.
Proof.
  intros HG. destruct n as [p|h]; simpl; [by rewrite (same_plain _ _ _ HG)|].
  by rewrite <- !refs_obj, (same_refs _ _ HG).
Qed.

Lemma same_kids s s' n : same_graph s s' -> kids s' n = kids s n.
Proof.
  intros HG. destruct n as [p|h]; simpl.
  - rewrite (same_type _ _ HG). destruct (type_at s p) as [[]|]; try done; [by apply same_plain_nodes|].
    by rewrite (bool_decide_ext _ _ (same_store _ _ HG)).
  - rewrite (same_refs _ _ HG). destruct (refs_at s h); simpl; [by apply same_plain_nodes|done].
Qed.

(** ** Well-formed graphs *)

(** Every pointer is to a zval, every handle to an object while there is a store. *)
Record closed (s : gc) : Prop := {
  closed_array : forall p l, type_at s p = Some (IS_ARRAY l) -> Forall (fun q => is_Some (type_at s q)) l;
  closed_object : forall p h, type_at s p = Some (IS_OBJECT h) -> is_Some (object_buckets s) ->
    is_Some (obj_at s h);
  closed_refs : forall h x, refs_at s h = Some x -> Forall (fun q => is_Some (type_at s q)) (pointers x)
}.

Lemma closed_same s s' : same_graph s s' -> closed s -> closed s'.
Proof.
  intros HG [H1 H2 H3]. split.
  - intros p l. rewrite (same_type _ _ HG). intros Hp. eapply Forall_impl; [by eapply H1|].
    intros q. by rewrite (same_type _ _ HG).
  - intros p h. rewrite (same_type _ _ HG), (same_store _ _ HG), <- refs_obj, (same_refs _ _ HG), refs_obj. apply H2.
  - intros h x. rewrite (same_refs _ _ HG). intros Hh. eapply Forall_impl; [by eapply H3|].
    intros q. by rewrite (same_type _ _ HG).
Qed.

Lemma plain_nodes_elem s l n : n ∈ plain_nodes s l <-> exists p, n = NZ p /\ p ∈ l /\ plain s p = true.
Proof.
  unfold plain_nodes. rewrite list_elem_of_fmap. setoid_rewrite list_elem_of_filter. naive_solver.
Qed.

Lemma kids_nodes s n k : closed s -> k ∈ kids s n -> is_node s k.
Proof.
  intros Hc Hk. assert (forall l, k ∈ plain_nodes s l -> is_node s k) as Hpl.
  { intros l (p & -> & _ & Hp)%plain_nodes_elem. done. }
  destruct n as [p|h]; simpl in Hk.
  - destruct (type_at s p) as [[l| |h|]|] eqn:Ht; try by apply elem_of_nil in Hk.
    + by eapply Hpl.
    + case_bool_decide as Ho; [|by apply elem_of_nil in Hk].
      apply list_elem_of_singleton in Hk as ->. by eapply closed_object.
  - destruct (refs_at s h); simpl in Hk; [by eapply Hpl|by apply elem_of_nil in Hk].
Qed.

(** ** Updates of one node *)

Definition put_word (n : node) (w : Z) (s : gc) : gc :=
  match n with
  | NZ p => set_zvals (alter (set_word w) p (zvals s)) s
  | NO h => match object_buckets s with
            | Some m => set_buckets (alter (set_buffered w) h m) s
            | None => s
            end
  end.

Definition put_rc (n : node) (d : Z) (s : gc) : gc :=
  match n with
  | NZ p => set_zvals (alter (add_zref d) p (zvals s)) s
  | NO h => match object_buckets s with
            | Some m => set_buckets (alter (add_oref d) h m) s
            | None => s
            end
  end.

(** The globals no pass changes. *)
Definition rest (s : gc) : Z * Z * Z * bool * bool * Z * Z * Z * Z * Z * Z * Z :=
  (buf s, first_unused s, last_unused s, gc_enabled s, gc_active s, free_list s, next_to_free s, gc_runs s,
   collected s, store_top s, store_size s, free_list_head s).

(** Everything but words and counts. *)
Definition same_lists (s s' : gc) : Prop :=
  roots s' = roots s /\ unused s' = unused s /\ rest s' = rest s.

#[global] Instance same_lists_preorder : PreOrder same_lists.
Proof. split; [by repeat split|]. unfold same_lists. intros s1 s2 s3 (? & ? & ?) (? & ? & ?). split_and!; congruence. Qed.

Lemma obj_at_alter s m f h h' :
  object_buckets s = Some m ->
  obj_at (set_buckets (alter f h m) s) h' = if decide (h = h') then f <$> obj_at s h' else obj_at s h'.
Proof. intros Hm. unfold obj_at. rewrite Hm. simpl. rewrite lookup_alter. by case_decide; subst. Qed.

Lemma put_word_same n w s : same_graph s (put_word n w s) /\ same_lists s (put_word n w s).
Proof.
  destruct n as [p|h]; simpl.
  - split; [|done]. split; intros; [|done..].
    unfold type_at. simpl. rewrite lookup_alter. case_decide; [subst|done]. by destruct (zvals s !! _).
  - destruct (object_buckets s) as [m|] eqn:Hm; [|done]. split; [|done]. split; intros; [done| | |by rewrite Hm].
    all: unfold refs_at, attrs_at; rewrite (obj_at_alter _ _ _ _ _ Hm); case_decide; [|done]; by destruct (obj_at s _).
Qed.

Lemma put_rc_same n d s : same_graph s (put_rc n d s) /\ same_lists s (put_rc n d s).
Proof.
  destruct n as [p|h]; simpl.
  - split; [|done]. split; intros; [|done..].
    unfold type_at. simpl. rewrite lookup_alter. case_decide; [subst|done]. by destruct (zvals s !! _).
  - destruct (object_buckets s) as [m|] eqn:Hm; [|done]. split; [|done]. split; intros; [done| | |by rewrite Hm].
    all: unfold refs_at, attrs_at; rewrite (obj_at_alter _ _ _ _ _ Hm); case_decide; [|done]; by destruct (obj_at s _).
Qed.

Lemma node_zval s p : is_node s (NZ p) -> exists z, zvals s !! p = Some z /\ is_globals (z_type z) = false.
Proof.
  simpl. unfold plain, type_at. destruct (zvals s !! p) as [z|] eqn:E; simpl; [|done].
  intros H%negb_true_iff. by exists z.
Qed.

Lemma node_obj s h : is_node s (NO h) -> exists m o, object_buckets s = Some m /\ m !! h = Some o /\ obj_at s h = Some o.
Proof.
  simpl. unfold obj_at. destruct (object_buckets s) as [m|]; simpl; [|by intros []].
  intros [o Ho]. by exists m, o.
Qed.

(** A node of the graph, or the array of global variables. *)
Definition is_there (s : gc) (n : node) : Prop :=
  match n with
  | NZ p => is_Some (type_at s p)
  | NO h => is_Some (obj_at s h)
  end.

Lemma node_there s n : is_node s n -> is_there s n.
Proof. destruct n as [p|h]; simpl; [|done]. unfold plain. by destruct (type_at s p). Qed.

Lemma there_zval s p : is_there s (NZ p) -> exists z, zvals s !! p = Some z /\ type_at s p = Some (z_type z).
Proof. simpl. unfold type_at. intros [t Ht]. destruct (zvals s !! p) as [z|] eqn:E; [|done]. by exists z. Qed.

Lemma word_put_word n w s m : is_there s n -> word (put_word n w s) m = if decide (m = n) then w else word s m.
Proof.
  destruct n as [p|h]; intros Hn; simpl.
  - destruct (there_zval _ _ Hn) as (z & Hz & _). destruct m as [q|h]; simpl; [|done].
    rewrite lookup_alter. destruct (decide (p = q)) as [->|]; [rewrite Hz|]; by case_decide; simplify_eq.
  - destruct (node_obj _ _ Hn) as (b & o & Hb & _ & Ho). rewrite Hb. destruct m as [q|h']; simpl; [done|].
    rewrite (obj_at_alter _ _ _ _ _ Hb). destruct (decide (h = h')) as [->|]; [rewrite Ho|]; by case_decide; simplify_eq.
Qed.

Lemma rc_put_word n w s m : rc (put_word n w s) m = rc s m.
Proof.
  destruct n as [p|h]; simpl.
  - destruct m as [q|h]; simpl; [|done]. rewrite lookup_alter. case_decide; [subst|done]. by destruct (zvals s !! _).
  - destruct (object_buckets s) as [b|] eqn:Hb; [|done]. destruct m as [q|h']; simpl; [done|].
    rewrite (obj_at_alter _ _ _ _ _ Hb). case_decide; [subst|done]. by destruct (obj_at s _).
Qed.

Lemma word_put_rc n d s m : word (put_rc n d s) m = word s m.
Proof.
  destruct n as [p|h]; simpl.
  - destruct m as [q|h]; simpl; [|done]. rewrite lookup_alter. case_decide; [subst|done]. by destruct (zvals s !! _).
  - destruct (object_buckets s) as [b|] eqn:Hb; [|done]. destruct m as [q|h']; simpl; [done|].
    rewrite (obj_at_alter _ _ _ _ _ Hb). case_decide; [subst|done]. by destruct (obj_at s _).
Qed.

Lemma rc_put_rc n d s m : is_node s n ->
  rc (put_rc n d s) m = if decide (m = n) then u32 (rc s m + d) else rc s m.
Proof.
  destruct n as [p|h]; intros Hn; simpl.
  - destruct (node_zval _ _ Hn) as (z & Hz & _). destruct m as [q|h]; simpl; [|done].
    rewrite lookup_alter. destruct (decide (p = q)) as [->|]; [rewrite Hz|]; by case_decide; simplify_eq.
  - destruct (node_obj _ _ Hn) as (b & o & Hb & _ & Ho). rewrite Hb. destruct m as [q|h']; simpl; [done|].
    rewrite (obj_at_alter _ _ _ _ _ Hb). destruct (decide (h = h')) as [->|]; [rewrite Ho|]; by case_decide; simplify_eq.
Qed.

Lemma rc_put_rc_zval p d s m : is_there s (NZ p) ->
  rc (put_rc (NZ p) d s) m = if decide (m = NZ p) then u32 (rc s m + d) else rc s m.
Proof.
  intros Hn. destruct (there_zval _ _ Hn) as (z & Hz & _). destruct m as [q|h]; simpl; [|done].
  rewrite lookup_alter. destruct (decide (p = q)) as [->|]; [rewrite Hz|]; by case_decide; simplify_eq.
Qed.

Lemma put_word_twice p w1 w2 s : put_word (NZ p) w2 (put_word (NZ p) w1 s) = put_word (NZ p) w2 s.
Proof.
  simpl. unfold set_zvals. simpl. f_equal. apply map_eq. intros q. rewrite !lookup_alter.
  repeat case_decide; subst; try done. by destruct (zvals s !! _).
Qed.

Lemma to_free_put_word n w s : zval_to_free (put_word n w s) = zval_to_free s.
Proof. destruct n; simpl; [done|]. by destruct (object_buckets s). Qed.

Lemma to_free_put_rc n w s : zval_to_free (put_rc n w s) = zval_to_free s.
Proof. destruct n; simpl; [done|]. by destruct (object_buckets s). Qed.

(** ** Rules of the primitive steps *)

Lemma wp_gets {A} (f : gc -> A) Q s : Q (f s) s -> wp (gets f) Q s.
Proof. intros HQ. by exists (f s), s. Qed.

Lemma wp_modify f Q s : Q tt (f s) -> wp (modify f) Q s.
Proof. intros HQ. by exists tt, (f s). Qed.

Lemma wp_zget p z Q s : zvals s !! p = Some z -> Q z s -> wp (zget p) Q s.
Proof. intros Hp HQ. exists z, s. unfold zget. by rewrite Hp. Qed.

Lemma wp_oget h o Q s : obj_at s h = Some o -> Q o s -> wp (oget h) Q s.
Proof.
  intros Hh HQ. exists o, s. unfold oget, obj_at in *. destruct (object_buckets s); simplify_eq/=. by rewrite Hh.
Qed.

Lemma wp_zupd_word p w f Q s :
  is_Some (type_at s p) -> (forall z, zvals s !! p = Some z -> f z = set_word w z) ->
  Q tt (put_word (NZ p) w s) -> wp (zupd p f) Q s.
Proof.
  unfold type_at. intros [t Ht] Hf HQ. destruct (zvals s !! p) as [z|] eqn:Hz; [|done].
  eexists tt, _. unfold zupd. rewrite Hz. split; [done|].
  rewrite (Hf _ eq_refl). by rewrite <- (alter_insert_Some (set_word w) _ _ _ Hz).
Qed.

Lemma wp_zupd_rc p d Q s : is_Some (type_at s p) -> Q tt (put_rc (NZ p) d s) -> wp (zupd p (add_zref d)) Q s.
Proof.
  unfold type_at. intros [t Ht] HQ. destruct (zvals s !! p) as [z|] eqn:Hz; [|done].
  eexists tt, _. unfold zupd. rewrite Hz. split; [done|].
  by rewrite <- (alter_insert_Some (add_zref d) _ _ _ Hz).
Qed.

Lemma wp_oupd_word h w f Q s :
  is_node s (NO h) -> (forall o, obj_at s h = Some o -> f o = set_buffered w o) ->
  Q tt (put_word (NO h) w s) -> wp (oupd h f) Q s.
Proof.
  intros (m & o & Hm & Ho & Hobj)%node_obj Hf HQ. eexists tt, _. unfold oupd. rewrite Hm, Ho. split; [done|].
  rewrite (Hf _ Hobj). simpl in HQ. rewrite Hm in HQ. by rewrite <- (alter_insert_Some (set_buffered w) _ _ _ Ho).
Qed.

Lemma wp_oupd_rc h d Q s : is_node s (NO h) -> Q tt (put_rc (NO h) d s) -> wp (oupd h (add_oref d)) Q s.
Proof.
  intros (m & o & Hm & Ho & Hobj)%node_obj HQ. eexists tt, _. unfold oupd. rewrite Hm, Ho. split; [done|].
  simpl in HQ. rewrite Hm in HQ. by rewrite <- (alter_insert_Some (add_oref d) _ _ _ Ho).
Qed.
