(* ===== verification/ZendGCSweep.v ===== *)
(** * ZendGCSweep: depth-first sweeps over the graph

    Marking grey, scanning black and collecting white are the same walk: a node that
    has not been visited gets a new word, every reference it holds changes the count
    of its target, and the targets are visited in turn.  A [stage] says what is
    visited and what changes; [full] is the result of such a walk, and the rules here
    build it up along the code. *)
From S2P Require Import Prelude Memory ZendGC ZendGCGraph.
From stdpp Require Import base option list gmap relations.
Local Open Scope Z_scope.

(** ** Tagged words as numbers *)

Lemma GC_GET_COLOR_mod w : GC_GET_COLOR w = w mod 4.
Proof. apply (Z.land_ones w 2). lia. Qed.

Lemma GC_ADDRESS_div w : GC_ADDRESS w = 4 * (w / 4).
Proof.
  unfold GC_ADDRESS, GC_COLOR. change 3 with (Z.ones 2). rewrite Z.ldiff_ones_r by lia.
  rewrite Z.shiftl_mul_pow2, Z.shiftr_div_pow2 by lia. change (2 ^ 2) with 4. lia.
Qed.

Lemma lor_color a c : 0 <= c < 4 -> Z.lor (4 * a) c = 4 * a + c.
Proof. intros Hc. rewrite (Z.mul_comm 4). apply (lor_add 2 a c); [lia|]. by change (2 ^ 2) with 4. Qed.

Lemma GC_SET_COLOR_eq w c : 0 <= c < 4 -> GC_SET_COLOR w c = 4 * (w / 4) + c.
Proof.
  intros Hc. unfold GC_SET_COLOR. change (Z.ldiff w GC_COLOR) with (GC_ADDRESS w).
  by rewrite GC_ADDRESS_div, lor_color.
Qed.

Lemma GC_SET_BLACK_eq w : GC_SET_BLACK w = 4 * (w / 4).
Proof. apply GC_ADDRESS_div. Qed.

Lemma GC_SET_ADDRESS_NULL w : GC_SET_ADDRESS w NULL = w mod 4.
Proof. unfold GC_SET_ADDRESS, NULL. rewrite Z.lor_0_r. apply GC_GET_COLOR_mod. Qed.

(** Facts on colours by arithmetic. *)
Ltac gc_words :=
  rewrite ?GC_GET_COLOR_mod, ?GC_SET_BLACK_eq, ?GC_SET_ADDRESS_NULL, ?GC_ADDRESS_div,
    ?GC_SET_COLOR_eq in * by (unfold GC_GREY, GC_WHITE; lia);
  unfold GC_BLACK, GC_WHITE, GC_GREY, GC_PURPLE, NULL in *;
  Z.to_euclidean_division_equations; try lia.

(** ** Stages *)

Record stage := {
  vis : Z -> bool;
  w_edge : node -> Z;
  changed : node -> Z -> Z -> Prop;
  links : bool;
  changed_linked : forall p w w', links = true -> changed (NZ p) w w'
}.

Definition cnt (n : node) (l : list node) : Z := Z.of_nat (count_occ node_eq_dec l n).

Lemma cnt_app n l1 l2 : cnt n (l1 ++ l2) = cnt n l1 + cnt n l2.
Proof. unfold cnt. rewrite count_occ_app. lia. Qed.

Lemma cnt_cons n k l : cnt n (k :: l) = (if decide (n = k) then 1 else 0) + cnt n l.
Proof.
  unfold cnt. simpl. destruct (node_eq_dec k n) as [->|Hne]; [rewrite decide_True by done; lia|].
  rewrite decide_False by congruence. lia.
Qed.

Lemma cnt_perm n l1 l2 : l1 ≡ₚ l2 -> cnt n l1 = cnt n l2.
Proof. intros HP. unfold cnt. f_equal. by apply (Permutation_count_occ node_eq_dec). Qed.

Lemma cnt_nonneg n l : 0 <= cnt n l.
Proof. unfold cnt. lia. Qed.

Lemma cnt_pos n l : n ∈ l <-> 0 < cnt n l.
Proof.
  unfold cnt. rewrite list_elem_of_In. rewrite (count_occ_In node_eq_dec). lia.
Qed.

(** The zvals from [a] on, linked by their words, up to [b]. *)
Fixpoint seg (w : node -> Z) (a : Z) (F : list zptr) (b : Z) : Prop :=
  match F with
  | [] => a = b
  | p :: F => a = zaddr p /\ seg w (w (NZ p)) F b
  end.

Lemma seg_app w a F1 F2 b c : seg w a F1 b -> seg w b F2 c -> seg w a (F1 ++ F2) c.
Proof.
  revert a. induction F1 as [|p F1 IH]; intros a; simpl; [by intros ->|].
  intros [-> H1] H2. split; [done|]. by apply IH.
Qed.

Lemma seg_ext w w' a F b : (forall p, p ∈ F -> w' (NZ p) = w (NZ p)) -> seg w a F b -> seg w' a F b.
Proof.
  revert a. induction F as [|p F IH]; intros a He; simpl; [done|].
  intros [-> H]. split; [done|]. rewrite He by set_solver. apply IH; [|done]. intros q Hq. apply He. set_solver.
Qed.

Definition in_range (s : gc) : Prop := forall n, is_node s n -> 0 <= rc s n < 2 ^ 32.

Definition globals_kept (s s' : gc) : Prop := forall p l, type_at s p = Some (IS_GLOBALS l) ->
  (word s' (NZ p) = word s (NZ p) \/ word s' (NZ p) = GC_SET_BLACK (word s (NZ p))) /\ rc s' (NZ p) = rc s (NZ p).

Lemma globals_kept_trans s s1 s2 :
  same_graph s s1 -> globals_kept s s1 -> globals_kept s1 s2 -> globals_kept s s2.
Proof.
  intros HG H1 H2 p l Ht. destruct (H1 p l Ht) as [G1 R1].
  rewrite <- (same_type _ _ HG) in Ht. destruct (H2 p l Ht) as [G2 R2]. split; [|by rewrite R2].
  destruct G2 as [-> | ->], G1 as [-> | ->]; auto. right. by gc_words.
Qed.

Section sweeps.
Context (st : stage).
Abbreviation vis := (vis st).
Abbreviation w_edge := (w_edge st).

(** From [s] to [s'] the nodes [T] were visited, the zvals [F] linked, and the
    references to the nodes in [E] followed. *)
Record raw (E T : list node) (F : list zptr) (s s' : gc) : Prop := {
  sw_graph : same_graph s s';
  sw_lists : same_lists s s';
  sw_nodup : NoDup T /\ NoDup F;
  sw_new : forall n, n ∈ T -> is_node s n /\ vis (word s n) = false;
  sw_keep : forall n, is_node s n -> n ∉ T -> (forall p, n = NZ p -> p ∉ F) -> word s' n = word s n;
  sw_changed : forall n, n ∈ T -> changed st n (word s n) (word s' n) /\ vis (word s' n) = true;
  sw_linked : forall p, p ∈ F -> is_node s (NZ p) /\ vis (word s' (NZ p)) = true;
  sw_links : links st = false -> F = [];
  sw_rc : forall n, is_node s n ->
    rc s' n mod 2 ^ 32 = (rc s n + w_edge n * cnt n E + cnt n (NZ <$> F)) mod 2 ^ 32;
  sw_range : in_range s -> in_range s';
  sw_seg : seg (word s') (zval_to_free s') F (zval_to_free s);
  sw_globals : globals_kept s s'
}.

Lemma raw_refl s : raw [] [] [] s s.
Proof.
  split; try done; try (intros ? H; by apply elem_of_nil in H).
  - split; constructor.
  - intros n _. unfold cnt. simpl. f_equal. lia.
  - split; [by left|done].
Qed.

Lemma raw_vis E T F s s' n :
  raw E T F s s' -> is_node s n -> vis (word s n) = true -> vis (word s' n) = true.
Proof.
  intros HS Hn Hv. destruct (decide (n ∈ T)) as [HT|HT]; [by apply (sw_changed _ _ _ _ _ HS)|].
  destruct n as [p|h].
  - destruct (decide (p ∈ F)) as [HF|HF]; [by apply (sw_linked _ _ _ _ _ HS)|].
    rewrite (sw_keep _ _ _ _ _ HS); [done..|]. by intros ? [= <-].
  - by rewrite (sw_keep _ _ _ _ _ HS).
Qed.

Lemma raw_perm E E' T F s s' : E ≡ₚ E' -> raw E T F s s' -> raw E' T F s s'.
Proof. intros HP []. split; try done. intros n Hn. rewrite <- (cnt_perm n _ _ HP). auto. Qed.

Lemma raw_trans E1 T1 F1 E2 T2 F2 s s1 s2 :
  raw E1 T1 F1 s s1 -> raw E2 T2 F2 s1 s2 -> F1 ## F2 ->
  raw (E1 ++ E2) (T1 ++ T2) (F2 ++ F1) s s2.
Proof.
  intros H1 H2 HF. pose proof (sw_graph _ _ _ _ _ H1) as HG.
  assert (forall n, n ∈ T1 -> n ∉ T2) as HT.
  { intros n Hn1 Hn2. pose proof (proj2 (sw_changed _ _ _ _ _ H1 _ Hn1)).
    pose proof (proj2 (sw_new _ _ _ _ _ H2 _ Hn2)). congruence. }
  assert (forall p, p ∈ F1 -> NZ p ∉ T2) as HFT.
  { intros p Hp Hn2. pose proof (proj2 (sw_linked _ _ _ _ _ H1 _ Hp)).
    pose proof (proj2 (sw_new _ _ _ _ _ H2 _ Hn2)). congruence. }
  assert (forall n, n ∈ T1 -> is_node s1 n) as HT1n.
  { intros n Hn. apply (same_node _ _ _ HG), (sw_new _ _ _ _ _ H1 _ Hn). }
  split.
  - etrans; [apply HG|apply (sw_graph _ _ _ _ _ H2)].
  - etrans; [apply (sw_lists _ _ _ _ _ H1)|apply (sw_lists _ _ _ _ _ H2)].
  - destruct (sw_nodup _ _ _ _ _ H1), (sw_nodup _ _ _ _ _ H2).
    split; apply NoDup_app; split_and!; try done. intros p ? ?. by apply (HF p).
  - intros n [Hn|Hn]%elem_of_app; [by apply (sw_new _ _ _ _ _ H1)|].
    destruct (sw_new _ _ _ _ _ H2 _ Hn) as [Hnode Hv]. apply (same_node _ _ _ HG) in Hnode. split; [done|].
    apply not_true_is_false. intros Hv'. apply (raw_vis _ _ _ _ _ _ H1 Hnode) in Hv'. congruence.
  - intros n Hn HnT HnF. rewrite elem_of_app in HnT.
    rewrite (sw_keep _ _ _ _ _ H2), (sw_keep _ _ _ _ _ H1); try done; try tauto.
    + intros p Hp Hin. apply (HnF p Hp). set_solver.
    + by apply (same_node _ _ _ HG).
    + intros p Hp Hin. apply (HnF p Hp). set_solver.
  - intros n [Hn|Hn]%elem_of_app.
    + destruct (sw_changed _ _ _ _ _ H1 _ Hn) as [Hc Hv]. split.
      * destruct n as [p|h]; [|rewrite (sw_keep _ _ _ _ _ H2); eauto; done].
        destruct (decide (p ∈ F2)) as [HpF|HpF].
        -- apply changed_linked. apply not_false_is_true. intros Hl. rewrite (sw_links _ _ _ _ _ H2 Hl) in HpF.
           by apply elem_of_nil in HpF.
        -- rewrite (sw_keep _ _ _ _ _ H2); eauto. by intros ? [= <-].
      * eapply raw_vis; eauto.
    + destruct (sw_changed _ _ _ _ _ H2 _ Hn) as [Hc Hv]. split; [|done].
      destruct (sw_new _ _ _ _ _ H2 _ Hn) as [Hnode Hv1]. apply (same_node _ _ _ HG) in Hnode.
      replace (word s n) with (word s1 n); [done|]. apply (sw_keep _ _ _ _ _ H1); [done|naive_solver|].
      intros p -> Hp. by apply (HFT p).
  - intros p [Hp|Hp]%elem_of_app.
    + destruct (sw_linked _ _ _ _ _ H2 _ Hp) as [Hn Hv]. split; [|done]. by apply (same_node _ _ _ HG).
    + destruct (sw_linked _ _ _ _ _ H1 _ Hp) as [Hn Hv]. split; [done|]. eapply raw_vis; eauto.
      by apply (same_node _ _ _ HG).
  - intros Hl. by rewrite (sw_links _ _ _ _ _ H1 Hl), (sw_links _ _ _ _ _ H2 Hl).
  - intros n Hn. rewrite (sw_rc _ _ _ _ _ H2) by by apply (same_node _ _ _ HG).
    rewrite <- (Z.add_assoc (rc s1 n)), <- Zplus_mod_idemp_l, (sw_rc _ _ _ _ _ H1) by done.
    rewrite Zplus_mod_idemp_l, fmap_app, !cnt_app. f_equal. ring.
  - intros Hr. apply (sw_range _ _ _ _ _ H2), (sw_range _ _ _ _ _ H1), Hr.
  - eapply seg_app; [apply (sw_seg _ _ _ _ _ H2)|]. eapply seg_ext; [|apply (sw_seg _ _ _ _ _ H1)].
    intros p Hp. apply (sw_keep _ _ _ _ _ H2); [|by apply HFT|].
    + apply (same_node _ _ _ HG), (sw_linked _ _ _ _ _ H1 _ Hp).
    + intros ? [= <-] Hin. by apply (HF p).
  - eapply globals_kept_trans; [exact HG|apply (sw_globals _ _ _ _ _ H1)|apply (sw_globals _ _ _ _ _ H2)].
Qed.

(** *** Single steps *)

Lemma raw_edge n s : is_node s n -> raw [n] [] [] s (put_rc n (w_edge n) s).
Proof.
  intros Hn. destruct (put_rc_same n (w_edge n) s) as [HG HL].
  split; try done; try (intros ? H; by apply elem_of_nil in H).
  - split; constructor.
  - intros m _ _ _. apply word_put_rc.
  - intros m _. rewrite rc_put_rc by done. rewrite cnt_cons. unfold cnt. simpl. case_decide.
    + unfold wrap_u. rewrite Zmod_mod. f_equal. subst. lia.
    + f_equal. lia.
  - intros Hr m Hm. apply (same_node _ _ _ HG) in Hm. rewrite rc_put_rc by done.
    case_decide; [apply wrap_u_range; lia|by apply Hr].
  - simpl. apply to_free_put_rc.
  - intros p l Hp. split; [left; apply word_put_rc|]. rewrite rc_put_rc, decide_False; [done| |done].
    intros <-. simpl in Hn. unfold plain in Hn. by rewrite Hp in Hn.
Qed.

Lemma raw_enter n w s :
  is_node s n -> vis (word s n) = false -> changed st n (word s n) w -> vis w = true ->
  raw [] [n] [] s (put_word n w s).
Proof.
  intros Hn Hv Hc Hw. destruct (put_word_same n w s) as [HG HL]. pose proof (node_there _ _ Hn) as Ht.
  split; try done; try (intros ? H; by apply elem_of_nil in H).
  - split; [apply NoDup_singleton|constructor].
  - by intros m ->%list_elem_of_singleton.
  - intros m _ Hm _. rewrite word_put_word by done. rewrite decide_False; [done|]. set_solver.
  - intros m ->%list_elem_of_singleton. rewrite word_put_word, decide_True by done. done.
  - intros m _. rewrite rc_put_word. unfold cnt. simpl. f_equal. lia.
  - intros Hr m Hm. rewrite rc_put_word. apply Hr. by apply (same_node _ _ _ HG).
  - simpl. apply to_free_put_word.
  - intros p l Hp. split; [left|by apply rc_put_word]. rewrite word_put_word by done. rewrite decide_False; [done|].
    intros <-. simpl in Hn. unfold plain in Hn. by rewrite Hp in Hn.
Qed.

(** The array of global variables gets black. *)
Lemma raw_globals p l s w :
  type_at s p = Some (IS_GLOBALS l) -> w = GC_SET_BLACK (word s (NZ p)) ->
  raw [] [] [] s (put_word (NZ p) w s).
Proof.
  intros Hp ->. set (w := GC_SET_BLACK _). destruct (put_word_same (NZ p) w s) as [HG HL].
  assert (is_there s (NZ p)) as Ht by (simpl; rewrite Hp; eauto).
  split; try done; try (intros ? H; by apply elem_of_nil in H).
  - split; constructor.
  - intros m Hm _ _. rewrite word_put_word by done. rewrite decide_False; [done|]. intros ->.
    simpl in Hm. unfold plain in Hm. by rewrite Hp in Hm.
  - intros m _. rewrite rc_put_word. unfold cnt. simpl. f_equal. lia.
  - intros Hr m Hm. rewrite rc_put_word. apply Hr. by apply (same_node _ _ _ HG).
  - intros q l' Hq. split; [|by apply rc_put_word]. rewrite word_put_word by done. case_decide as Heq; [|by left]. injection Heq as ->. by right.
Qed.

Definition linked (p : zptr) (s : gc) : gc :=
  set_zval_to_free (zaddr p) (put_word (NZ p) (zval_to_free s) (put_rc (NZ p) 1 s)).

Lemma raw_push p s :
  links st = true -> is_node s (NZ p) -> vis (word s (NZ p)) = true -> vis (zval_to_free s) = true ->
  raw [] [] [p] s (linked p s).
Proof.
  intros Hl Hn Hv Hf. destruct (put_rc_same (NZ p) 1 s) as [HG1 HL1].
  destruct (put_word_same (NZ p) (zval_to_free s) (put_rc (NZ p) 1 s)) as [HG2 HL2].
  assert (is_there (put_rc (NZ p) 1 s) (NZ p)) as Ht by (apply node_there, (same_node _ _ _ HG1), Hn).
  assert (forall m, word (linked p s) m = if decide (m = NZ p) then zval_to_free s else word s m) as Hw.
  { intros m. change (word (linked p s) m) with (word (put_word (NZ p) (zval_to_free s) (put_rc (NZ p) 1 s)) m).
    rewrite word_put_word by done. case_decide; [done|]. apply word_put_rc. }
  assert (forall m, rc (linked p s) m = if decide (m = NZ p) then u32 (rc s m + 1) else rc s m) as Hrc.
  { intros m. change (rc (linked p s) m) with (rc (put_word (NZ p) (zval_to_free s) (put_rc (NZ p) 1 s)) m).
    rewrite rc_put_word. by apply rc_put_rc. }
  assert (same_graph s (linked p s)) as HG by (etrans; [exact HG1|by destruct HG2; split]).
  split; try done; try (intros ? H; by apply elem_of_nil in H).
  - split; [constructor|apply NoDup_singleton].
  - intros m _ _ Hm. rewrite Hw, decide_False; [done|]. intros ->. apply (Hm p); [done|set_solver].
  - intros q ->%list_elem_of_singleton. by rewrite Hw, decide_True.
  - by rewrite Hl.
  - intros m _. rewrite Hrc. simpl. rewrite cnt_cons. unfold cnt. simpl. case_decide; [|f_equal; lia].
    unfold wrap_u. rewrite Zmod_mod. f_equal. lia.
  - intros Hr m Hm. apply (same_node _ _ _ HG) in Hm. rewrite Hrc.
    case_decide; [apply wrap_u_range; lia|by apply Hr].
  - split; [done|]. change (word (linked p s) (NZ p) = zval_to_free s). by rewrite Hw, decide_True.
  - intros q l Hq. assert (NZ q <> NZ p) as Hne
      by (intros [= ->]; simpl in Hn; unfold plain in Hn; by rewrite Hq in Hn).
    split; [left; by rewrite Hw, decide_False|by rewrite Hrc, decide_False].
Qed.

(** *** Whole walks *)

Definition zval_of (n : node) : option zptr := match n with NZ p => Some p | NO _ => None end.

Definition below (s : gc) : relation node := fun a b => b ∈ kids s a.

Definition kids_of (s : gc) (T : list node) : list node := T ≫= kids s.

(** A walk from [src] that follows the references to the nodes in [l] on the way: it
    ends when everything below is visited, and a stage that links has linked
    the zvals it has visited, besides those in [P], which were visited before. *)
Record walk (l src : list node) (P : list zptr) (T : list node) (F : list zptr) (s s' : gc) : Prop := {
  full_raw : raw (l ++ kids_of s T) T F s s';
  full_closed : forall k, k ∈ src ++ kids_of s T -> vis (word s' k) = true;
  full_reach : forall n, n ∈ T -> exists k, k ∈ src /\ rtc (below s) k n;
  full_links : links st = true -> F ≡ₚ P ++ omap zval_of T
}.

Abbreviation full l src := (walk l src []).

Lemma kids_of_same s s' T : same_graph s s' -> kids_of s' T = kids_of s T.
Proof. intros HG. unfold kids_of. apply list_bind_ext; [|done]. intros n. by apply same_kids. Qed.

Lemma kids_of_app s T1 T2 : kids_of s (T1 ++ T2) = kids_of s T1 ++ kids_of s T2.
Proof. apply bind_app. Qed.

Lemma kids_of_elem s T k : k ∈ kids_of s T <-> exists n, n ∈ T /\ k ∈ kids s n.
Proof. unfold kids_of. rewrite list_elem_of_bind. naive_solver. Qed.

Lemma below_same s s' a b : same_graph s s' -> rtc (below s') a b -> rtc (below s) a b.
Proof. intros HG. apply rtc_congruence with (f := id). intros x y. unfold below. by rewrite (same_kids _ _ _ HG). Qed.

Lemma full_visited s src : (forall k, k ∈ src -> vis (word s k) = true) -> full [] src [] [] s s.
Proof.
  intros Hs. split; [apply raw_refl| | |done].
  - intros k. unfold kids_of. simpl. rewrite app_nil_r. apply Hs.
  - intros n Hn. by apply elem_of_nil in Hn.
Qed.

Lemma full_raw_disjoint E1 T1 F1 E2 T2 F2 s s1 s2 :
  raw E1 T1 F1 s s1 -> raw E2 T2 F2 s1 s2 -> T1 ## T2.
Proof.
  intros H1 H2 n Hn1 Hn2. pose proof (proj2 (sw_changed _ _ _ _ _ H1 _ Hn1)).
  pose proof (proj2 (sw_new _ _ _ _ _ H2 _ Hn2)). congruence.
Qed.

Lemma omap_zval_elem (T : list node) p : p ∈ omap zval_of T <-> NZ p ∈ T.
Proof.
  rewrite list_elem_of_omap. split; [|by exists (NZ p)]. intros ([q|h] & Hn & [=]). by subst.
Qed.

Lemma walk_F l src P T F s s' p : walk l src P T F s s' -> p ∈ F -> p ∈ P \/ NZ p ∈ T.
Proof.
  intros HS Hp. destruct (links st) eqn:Hl.
  - rewrite (full_links _ _ _ _ _ _ _ HS Hl), elem_of_app, omap_zval_elem in Hp. done.
  - rewrite (sw_links _ _ _ _ _ (full_raw _ _ _ _ _ _ _ HS) Hl) in Hp. by apply elem_of_nil in Hp.
Qed.

Lemma walk_app l1 src1 P1 T1 F1 l2 src2 P2 T2 F2 s s1 s2 :
  closed s -> Forall (is_node s) src1 -> P1 ## P2 ->
  Forall (fun p => vis (word s (NZ p)) = true) (P1 ++ P2) -> Forall (fun p => is_node s (NZ p)) (P1 ++ P2) ->
  walk l1 src1 P1 T1 F1 s s1 -> walk l2 src2 P2 T2 F2 s1 s2 ->
  walk (l1 ++ l2) (src1 ++ src2) (P1 ++ P2) (T1 ++ T2) (F2 ++ F1) s s2.
Proof.
  intros Hcl Hsrc HP HPv HPn H1 H2.
  pose proof (full_raw _ _ _ _ _ _ _ H1) as R1. pose proof (full_raw _ _ _ _ _ _ _ H2) as R2.
  pose proof (sw_graph _ _ _ _ _ R1) as HG. pose proof (full_raw_disjoint _ _ _ _ _ _ _ _ _ R1 R2) as HT.
  assert (F1 ## F2) as HF.
  { rewrite Forall_forall in HPv, HPn. intros p Hp1 Hp2.
    apply (walk_F _ _ _ _ _ _ _ _ H1) in Hp1. apply (walk_F _ _ _ _ _ _ _ _ H2) in Hp2.
    destruct Hp1 as [Hp1|Hp1], Hp2 as [Hp2|Hp2]; [by apply (HP p)| | |by apply (HT (NZ p))].
    - pose proof (proj2 (sw_new _ _ _ _ _ R2 _ Hp2)) as Hv.
      rewrite (raw_vis _ _ _ _ _ _ R1) in Hv; [done|apply HPn|apply HPv]; set_solver.
    - pose proof (proj2 (sw_new _ _ _ _ _ R1 _ Hp1)) as Hv. rewrite HPv in Hv; [done|set_solver]. }
  rewrite (kids_of_same _ _ _ HG) in R2. split.
  - rewrite kids_of_app. eapply raw_perm; [|by eapply raw_trans]. solve_Permutation.
  - intros k Hk. rewrite kids_of_app in Hk.
    assert (k ∈ src1 ++ kids_of s T1 \/ k ∈ src2 ++ kids_of s T2) as [Hk1|Hk2] by set_solver.
    + eapply (raw_vis _ _ _ _ _ _ R2); [|by apply (full_closed _ _ _ _ _ _ _ H1)].
      apply (same_node _ _ _ HG). apply elem_of_app in Hk1 as [Hk1|(n & _ & Hk1)%kids_of_elem].
      * by eapply Forall_forall in Hsrc.
      * by eapply kids_nodes.
    + apply (full_closed _ _ _ _ _ _ _ H2). by rewrite (kids_of_same _ _ _ HG).
  - intros n [Hn|Hn]%elem_of_app.
    + destruct (full_reach _ _ _ _ _ _ _ H1 n Hn) as (k & Hk & Hr). exists k. set_solver.
    + destruct (full_reach _ _ _ _ _ _ _ H2 n Hn) as (k & Hk & Hr). exists k.
      split; [set_solver|]. by eapply below_same.
  - intros Hl. rewrite omap_app, (full_links _ _ _ _ _ _ _ H1 Hl), (full_links _ _ _ _ _ _ _ H2 Hl).
    solve_Permutation.
Qed.

Lemma full_app l1 src1 T1 F1 l2 src2 T2 F2 s s1 s2 :
  closed s -> Forall (is_node s) src1 ->
  full l1 src1 T1 F1 s s1 -> full l2 src2 T2 F2 s1 s2 ->
  full (l1 ++ l2) (src1 ++ src2) (T1 ++ T2) (F2 ++ F1) s s2.
Proof. intros Hc Hs H1 H2. apply (walk_app l1 src1 [] T1 F1 l2 src2 [] T2 F2 s s1 s2); try done. set_solver. Qed.

(** The visit of [n], put together from its own change, the walk below it and perhaps
    its linking. *)
Lemma full_visit n T F s s' :
  raw (kids s n ++ kids_of s T) (n :: T) F s s' ->
  (forall k, k ∈ kids s n ++ kids_of s T -> vis (word s' k) = true) ->
  (forall m, m ∈ T -> exists k, k ∈ kids s n /\ rtc (below s) k m) ->
  (links st = true -> F ≡ₚ omap zval_of (n :: T)) ->
  full [] [n] (n :: T) F s s'.
Proof.
  intros HR Hc Hre Hl. split; [exact HR| | |done].
  - intros k [->%list_elem_of_singleton|Hk]%elem_of_app; [|by apply Hc].
    apply (sw_changed _ _ _ _ _ HR). set_solver.
  - intros m [->|Hm]%elem_of_cons; exists n; (split; [set_solver|]); [done|].
    destruct (Hre m Hm) as (k & Hk & Hr). by eapply rtc_l.
Qed.

(** *** What the walks need *)

Definition globals_ok (s : gc) : Prop := forall p l, type_at s p = Some (IS_GLOBALS l) ->
  word s (NZ p) mod 4 = GC_BLACK \/ word s (NZ p) mod 4 = GC_PURPLE.

Record ready (s : gc) : Prop := {
  ready_closed : closed s;
  ready_to_free : zval_to_free s mod 4 = 0;
  ready_globals : globals_ok s
}.

Lemma raw_ready E T F s s' : raw E T F s s' -> ready s -> ready s'.
Proof.
  intros HR [Hc Hf Hg]. pose proof (sw_graph _ _ _ _ _ HR) as HG. split.
  - by eapply closed_same.
  - pose proof (sw_seg _ _ _ _ _ HR) as Hs. destruct F as [|p F]; simpl in Hs; [by rewrite Hs|].
    destruct Hs as [-> _]. unfold zaddr. rewrite Z.mul_comm. apply Z.mod_mul. lia.
  - intros p l Hp. rewrite (same_type _ _ HG) in Hp. destruct (Hg p l Hp) as [H|H];
      destruct (sw_globals _ _ _ _ _ HR p l Hp) as [[E1|E1] _]; rewrite E1; gc_words.
Qed.

(** The zvals that are not visited yet bound the depth of a walk. *)
Definition pending (s : gc) : gset zptr :=
  dom (filter (fun x => plain s x.1 = true /\ vis (u_word x.2) = false) (zvals s)).

Lemma pending_elem s p : p ∈ pending s <-> is_node s (NZ p) /\ vis (word s (NZ p)) = false.
Proof.
  unfold pending. rewrite elem_of_dom. split.
  - intros [z [Hz [Hp Hv]]%map_lookup_filter_Some]. simpl in *. split; [done|]. by rewrite Hz.
  - intros [Hn Hv]. destruct (node_zval _ _ Hn) as (z & Hz & _). exists z.
    apply map_lookup_filter_Some. simpl in Hv. rewrite Hz in Hv. done.
Qed.

Lemma raw_pending E T F s s' : raw E T F s s' -> (size (pending s') <= size (pending s))%nat.
Proof.
  intros HR. apply subseteq_size. intros p. rewrite !pending_elem, (same_node _ _ _ (sw_graph _ _ _ _ _ HR)).
  intros [Hn Hv]. split; [done|]. apply not_true_is_false. intros Hv'.
  apply (raw_vis _ _ _ _ _ _ HR Hn) in Hv'. congruence.
Qed.

Lemma raw_pending_lt E T F s s' p :
  raw E T F s s' -> NZ p ∈ T -> (size (pending s') < size (pending s))%nat.
Proof.
  intros HR Hp. apply subset_size. split.
  - intros q. rewrite !pending_elem, (same_node _ _ _ (sw_graph _ _ _ _ _ HR)).
    intros [Hn Hv]. split; [done|]. apply not_true_is_false. intros Hv'.
    apply (raw_vis _ _ _ _ _ _ HR Hn) in Hv'. congruence.
  - intros Hsub. pose proof (sw_new _ _ _ _ _ HR _ Hp) as Hnew. apply pending_elem, Hsub, pending_elem in Hnew.
    destruct Hnew as [_ Hv]. rewrite (proj2 (sw_changed _ _ _ _ _ HR _ Hp)) in Hv. done.
Qed.

Lemma pending_nesting s : (size (pending s) < S (size (zvals s)))%nat.
Proof.
  apply Nat.lt_succ_r. rewrite <- (size_dom (D := gset zptr) (zvals s)). apply subseteq_size.
  unfold pending. apply dom_filter_subseteq.
Qed.

(** *** Loops *)

Definition child_ok (N : nat) (visit : zptr -> gcmd unit) : Prop := forall s p Q,
  ready s -> is_Some (type_at s p) -> (size (pending s) < N)%nat ->
  (forall T F s', full (plain_nodes s [p]) (plain_nodes s [p]) T F s s' -> Q tt s') -> wp (visit p) Q s.

Lemma plain_nodes_app s l1 l2 : plain_nodes s (l1 ++ l2) = plain_nodes s l1 ++ plain_nodes s l2.
Proof. unfold plain_nodes. by rewrite filter_app, fmap_app. Qed.

Lemma plain_nodes_nodes s l : Forall (is_node s) (plain_nodes s l).
Proof. apply Forall_forall. by intros n (p & -> & _ & Hp)%plain_nodes_elem. Qed.

Lemma wp_each N visit l s Q :
  child_ok N visit -> ready s -> Forall (fun p => is_Some (type_at s p)) l -> (size (pending s) < N)%nat ->
  (forall T F s', full (plain_nodes s l) (plain_nodes s l) T F s s' -> Q tt s') -> wp (each visit l) Q s.
Proof.
  intros Hv. revert s Q. induction l as [|p l IH]; intros s Q Hr Hl Hp HQ; simpl.
  { apply wp_ret. apply (HQ [] []), full_visited. intros k Hk. by apply elem_of_nil in Hk. }
  apply Forall_cons in Hl as [Hlp Hl]. apply wp_bind, Hv; [done..|]. intros T1 F1 s1 H1.
  pose proof (full_raw _ _ _ _ _ _ _ H1) as R1. pose proof (sw_graph _ _ _ _ _ R1) as HG.
  apply IH.
  - by eapply raw_ready.
  - eapply Forall_impl; [done|]. intros q. by rewrite (same_type _ _ HG).
  - pose proof (raw_pending _ _ _ _ _ R1). lia.
  - intros T2 F2 s2 H2. rewrite (same_plain_nodes _ _ _ HG) in H2. eapply HQ.
    change (p :: l) with ([p] ++ l). rewrite plain_nodes_app. eapply full_app; [apply Hr|apply plain_nodes_nodes|done..].
Qed.

Lemma each_entry_each visit table s : each_entry visit table s = each visit (omap id table) s.
Proof.
  revert s. induction table as [|[p|] table IH]; intros s; [done| |by apply IH].
  simpl. apply bind_ext. intros _ s'. apply IH.
Qed.

Lemma each_app visit l1 l2 s : each visit (l1 ++ l2) s = (each visit l1 ;; each visit l2) s.
Proof.
  revert s. induction l1 as [|p l1 IH]; intros s; [done|]. simpl. rewrite bind_assoc.
  apply bind_ext. intros _ s'. apply IH.
Qed.

Lemma each_child_each visit o s : each_child visit o s = each visit (pointers (valid o, get_gc o)) s.
Proof.
  unfold each_child, pointers. destruct (valid o); [|done]. destruct (get_gc o) as [[table props]|]; [|done].
  rewrite each_app. rewrite (bind_ext_l _ _ _ _ (each_entry_each visit table s)).
  apply bind_ext. intros _ s'. by destruct props.
Qed.

(** *** Visits *)

Lemma full_edge n s : is_node s n -> full [n] [] [] [] s (put_rc n (w_edge n) s).
Proof.
  intros Hn. split; [by apply raw_edge| | |done].
  - intros k Hk. by apply elem_of_nil in Hk.
  - intros m Hm. by apply elem_of_nil in Hm.
Qed.

Lemma full_after_edge n T F s s' :
  closed s -> is_node s n -> full [] [n] T F (put_rc n (w_edge n) s) s' -> full [n] [n] T F s s'.
Proof.
  intros Hc Hn HS. pose proof (full_app [n] [] [] [] [] [n] T F _ _ _ Hc (Forall_nil_2 _) (full_edge n s Hn) HS) as H.
  simpl in H. by rewrite app_nil_r in H.
Qed.

Lemma plain_nodes_one s p : plain_nodes s [p] = if plain s p then [NZ p] else [].
Proof. unfold plain_nodes. rewrite filter_cons. destruct (plain s p); by simpl. Qed.

(** [ref_child], then whatever visits the child. *)
Lemma wp_ref_child p s Q :
  is_Some (type_at s p) ->
  Q tt (if plain s p then put_rc (NZ p) (w_edge (NZ p)) s else s) ->
  wp (ref_child p (w_edge (NZ p))) Q s.
Proof.
  intros Hp HQ. destruct (there_zval s p Hp) as (z & Hz & Ht). unfold ref_child.
  apply wp_bind. eapply wp_zget; [done|]. unfold plain in HQ. rewrite Ht in HQ.
  destruct (z_type z); simpl in HQ; try (by apply wp_zupd_rc); by apply wp_ret.
Qed.

Definition visit_ok (N : nat) (visit : zptr -> gcmd unit) : Prop := forall s p Q,
  ready s -> is_Some (type_at s p) -> (size (pending s) < N)%nat ->
  (forall T F s', full [] (plain_nodes s [p]) T F s s' -> Q tt s') -> wp (visit p) Q s.

Lemma visit_child N visit :
  visit_ok N visit -> child_ok N (fun p => ref_child p (w_edge (NZ p)) ;; visit p).
Proof.
  intros Hv s p Q Hr Hp Hlt HQ. apply wp_bind, wp_ref_child; [done|].
  destruct (plain s p) eqn:Hpl.
  - pose proof (raw_edge (NZ p) s Hpl) as Re. pose proof (sw_graph _ _ _ _ _ Re) as HG. apply Hv.
    + by eapply raw_ready.
    + by rewrite (same_type _ _ HG).
    + pose proof (raw_pending _ _ _ _ _ Re). lia.
    + intros T F s' HS. eapply HQ. rewrite (same_plain_nodes _ _ _ HG), plain_nodes_one, Hpl in HS.
      rewrite plain_nodes_one, Hpl. by apply full_after_edge; [apply Hr|..].
  - apply Hv; [done..|]. intros T F s' HS. eapply HQ. by rewrite plain_nodes_one, Hpl in *.
Qed.

(** The walk below a node whose word has just been changed. *)
Lemma wp_below n l N visit w s Q :
  child_ok N visit -> ready s -> is_node s n -> vis (word s n) = false -> changed st n (word s n) w ->
  vis w = true -> Forall (fun p => is_Some (type_at s p)) l -> kids s n = plain_nodes s l ->
  (size (pending (put_word n w s)) < N)%nat ->
  (forall T F s', raw (kids s n ++ kids_of s T) (n :: T) F s s' ->
    (forall k, k ∈ kids s n ++ kids_of s T -> vis (word s' k) = true) ->
    (forall m, m ∈ T -> exists k, k ∈ kids s n /\ rtc (below s) k m) ->
    (links st = true -> F ≡ₚ omap zval_of T) -> Q tt s') ->
  wp (each visit l) Q (put_word n w s).
Proof.
  intros Hch Hr Hn Hv Hc Hw Hl Hk Hlt HQ. pose proof (raw_enter n w s Hn Hv Hc Hw) as Re.
  pose proof (sw_graph _ _ _ _ _ Re) as HG.
  apply (wp_each N); [done|by eapply raw_ready| |done|].
  { eapply Forall_impl; [done|]. intros q. by rewrite (same_type _ _ HG). }
  intros T F s' HS. pose proof (full_raw _ _ _ _ _ _ _ HS) as R.
  rewrite (same_plain_nodes _ _ _ HG), <- Hk in HS, R. rewrite (kids_of_same _ _ _ HG) in R. eapply HQ.
  - pose proof (raw_trans _ _ _ _ _ _ _ _ _ Re R) as H. rewrite app_nil_r in H. apply H. set_solver.
  - intros k Hin. apply (full_closed _ _ _ _ _ _ _ HS). by rewrite (kids_of_same _ _ _ HG).
  - intros m Hm. destruct (full_reach _ _ _ _ _ _ _ HS m Hm) as (k & Hin & Hre). exists k. split; [done|].
    by eapply below_same.
  - apply (full_links _ _ _ _ _ _ _ HS).
Qed.

(** The visit of an object. *)
Lemma wp_object h o N visit w s Q :
  child_ok N visit -> ready s -> is_node s (NO h) -> vis (word s (NO h)) = false ->
  changed st (NO h) (word s (NO h)) w -> vis w = true -> refs_at s h = Some (valid o, get_gc o) ->
  (size (pending s) < N)%nat ->
  (forall T F s', full [] [NO h] T F s s' -> Q tt s') ->
  wp (each_child visit o) Q (put_word (NO h) w s).
Proof.
  intros Hch Hr Hn Hv Hc Hw Href Hlt HQ. eapply wp_eq; [apply each_child_each|].
  eapply (wp_below (NO h)); try done.
  - by eapply closed_refs; [apply Hr|].
  - simpl. by rewrite Href.
  - pose proof (raw_pending _ _ _ _ _ (raw_enter _ _ _ Hn Hv Hc Hw)). lia.
  - intros T F s' HR Hcl Hre Hli. eapply HQ, full_visit; done.
Qed.

(** The visit of an array, where zvals are not linked. *)
Lemma wp_array p l N visit w s Q :
  child_ok N visit -> ready s -> is_node s (NZ p) -> vis (word s (NZ p)) = false ->
  changed st (NZ p) (word s (NZ p)) w -> vis w = true -> type_at s p = Some (IS_ARRAY l) ->
  links st = false -> (size (pending s) < S N)%nat ->
  (forall T F s', full [] [NZ p] T F s s' -> Q tt s') ->
  wp (each visit l) Q (put_word (NZ p) w s).
Proof.
  intros Hch Hr Hn Hv Hc Hw Ht Hli Hlt HQ. eapply (wp_below (NZ p)); try done.
  - by eapply closed_array; [apply Hr|].
  - simpl. by rewrite Ht.
  - pose proof (raw_pending_lt _ _ _ _ _ p (raw_enter _ _ _ Hn Hv Hc Hw)). set_solver by lia.
  - intros T F s' HR Hcl Hre _. eapply HQ, full_visit; try done. by rewrite Hli.
Qed.

(** A zval that has been visited with everything below it. *)
Lemma full_enter n w T F s s' :
  is_node s n -> vis (word s n) = false -> changed st n (word s n) w -> vis w = true -> links st = false ->
  full (kids s n) (kids s n) T F (put_word n w s) s' -> full [] [n] (n :: T) F s s'.
Proof.
  intros Hn Hv Hc Hw Hli HS. pose proof (raw_enter n w s Hn Hv Hc Hw) as Re.
  pose proof (sw_graph _ _ _ _ _ Re) as HG. pose proof (full_raw _ _ _ _ _ _ _ HS) as R.
  rewrite (kids_of_same _ _ _ HG) in R. apply full_visit.
  - pose proof (raw_trans _ _ _ _ _ _ _ _ _ Re R) as H. rewrite app_nil_r in H. apply H. set_solver.
  - intros k Hk. apply (full_closed _ _ _ _ _ _ _ HS). by rewrite (kids_of_same _ _ _ HG).
  - intros m Hm. destruct (full_reach _ _ _ _ _ _ _ HS m Hm) as (k & Hk & Hr). exists k. split; [done|].
    by eapply below_same.
  - by rewrite Hli.
Qed.

Lemma full_leaf n w s :
  is_node s n -> vis (word s n) = false -> changed st n (word s n) w -> vis w = true -> links st = false ->
  kids s n = [] -> full [] [n] [n] [] s (put_word n w s).
Proof.
  intros Hn Hv Hc Hw Hli Hk. eapply full_enter; [done..|]. rewrite Hk. apply full_visited.
  intros k Hin. by apply elem_of_nil in Hin.
Qed.

(** An object zval: the reference to its object, then the object. *)
Lemma full_enter_object p h w T F s s' :
  ready s -> is_node s (NZ p) -> vis (word s (NZ p)) = false -> changed st (NZ p) (word s (NZ p)) w ->
  vis w = true -> links st = false -> kids s (NZ p) = [NO h] ->
  full [] [NO h] T F (put_rc (NO h) (w_edge (NO h)) (put_word (NZ p) w s)) s' ->
  full [] [NZ p] (NZ p :: T) F s s'.
Proof.
  intros Hr Hn Hv Hc Hw Hli Hk HS. pose proof (raw_enter _ _ _ Hn Hv Hc Hw) as Re.
  eapply full_enter; [done..|]. rewrite Hk. apply full_after_edge; [| |done].
  - by eapply ready_closed, raw_ready.
  - apply (same_node _ _ _ (sw_graph _ _ _ _ _ Re)), (kids_nodes s (NZ p)); [apply Hr|]. rewrite Hk. set_solver.
Qed.

Lemma full_globals p l s :
  type_at s p = Some (IS_GLOBALS l) -> full [] [] [] [] s (put_word (NZ p) (GC_SET_BLACK (word s (NZ p))) s).
Proof.
  intros Ht. split; [by eapply raw_globals| | |done].
  - intros k Hk. by apply elem_of_nil in Hk.
  - intros m Hm. by apply elem_of_nil in Hm.
Qed.

End sweeps.

Abbreviation full st l src := (walk st l src []).
