(* ===== verification/ZendGCPasses.v ===== *)
(** * ZendGCPasses: the walks of the three passes

    [zval_mark_grey], [zval_scan_black] and [zval_collect_white] of [ZendGC] as walks in the
    sense of [ZendGCSweep]. *)
From S2P Require Import Prelude Memory ZendGC ZendGCGraph ZendGCSweep.
From stdpp Require Import base option list gmap relations.
Local Open Scope Z_scope.

Program Definition grey : stage := {|
  vis := fun w => GC_GET_COLOR w =? GC_GREY;
  w_edge := fun _ => -1;
  changed := fun _ w w' => w' = GC_SET_COLOR w GC_GREY;
  links := false
|}.
Next Obligation. done. Qed.

Program Definition black : stage := {|
  vis := fun w => GC_GET_COLOR w =? GC_BLACK;
  w_edge := fun _ => 1;
  changed := fun _ w w' => w' = GC_SET_BLACK w;
  links := false
|}.
Next Obligation. done. Qed.

(** A white zval or object that is still in the root buffer is left to its own root. *)
Program Definition white : stage := {|
  vis := fun w => negb (w =? GC_WHITE);
  w_edge := fun n => match n with NZ _ => 1 | NO _ => 0 end;
  changed := fun n w w' => match n with NZ _ => True | NO _ => w' = GC_SET_PURPLE w end;
  links := true
|}.
Next Obligation. done. Qed.

Lemma vis_grey w : vis grey (GC_SET_COLOR w GC_GREY) = true.
Proof. simpl. apply Z.eqb_eq. gc_words. Qed.

Lemma vis_black w : vis black (GC_SET_BLACK w) = true.
Proof. simpl. apply Z.eqb_eq. gc_words. Qed.

(** What the type of a plain zval says about its kids. *)
Lemma kids_array s p l : type_at s p = Some (IS_ARRAY l) -> kids s (NZ p) = plain_nodes s l.
Proof. intros Ht. simpl. by rewrite Ht. Qed.

Lemma kids_object s p h :
  type_at s p = Some (IS_OBJECT h) -> is_Some (object_buckets s) -> kids s (NZ p) = [NO h].
Proof. intros Ht Ho. simpl. by rewrite Ht, bool_decide_true. Qed.

Lemma kids_detached s p h :
  type_at s p = Some (IS_OBJECT h) -> ~ is_Some (object_buckets s) -> kids s (NZ p) = [].
Proof. intros Ht Ho. simpl. by rewrite Ht, bool_decide_false. Qed.

Lemma plain_of s p z : type_at s p = Some (z_type z) -> plain s p = negb (is_globals (z_type z)).
Proof. intros Ht. unfold plain. by rewrite Ht. Qed.

Lemma refs_of s h o : obj_at s h = Some o -> refs_at s h = Some (valid o, get_gc o).
Proof. intros Ho. unfold refs_at. by rewrite Ho. Qed.

(** Reading a zval and the store after a change of its word. *)
Lemma wp_type_alive {A} p s (c : zval -> bool -> gcmd A) Q t :
  type_at s p = Some t ->
  (forall z, z_type z = t -> zvals s !! p = Some z ->
    wp (c z (bool_decide (is_Some (object_buckets s)))) Q s) ->
  wp (z ← zget p; alive ← store_alive; c z alive) Q s.
Proof.
  intros Ht HQ. unfold type_at in Ht. destruct (zvals s !! p) as [z|] eqn:Hz; simplify_eq/=.
  apply wp_bind. eapply wp_zget; [done|]. apply wp_bind, wp_gets. by apply HQ.
Qed.

(** The visit of a zval whose word has just been changed, for marking and for scanning
    black: [obj] visits its object, [glob] is done for the array of global variables. *)
Lemma wp_zval_body st d p w N visit (obj : zhandle -> gcmd unit) (glob : gcmd unit) s Q :
  links st = false -> (forall n, w_edge st n = d) -> child_ok st N visit -> ready s ->
  is_Some (type_at s p) ->
  (is_node s (NZ p) -> vis st (word s (NZ p)) = false /\ changed st (NZ p) (word s (NZ p)) w) ->
  vis st w = true -> (size (pending st s) < S N)%nat ->
  (forall h s1 Q1, ready s1 -> is_node s1 (NO h) -> (size (pending st s1) < N)%nat ->
    (forall T F s', full st [] [NO h] T F s1 s' -> Q1 tt s') -> wp (obj h) Q1 s1) ->
  (forall l, type_at s p = Some (IS_GLOBALS l) -> wp glob Q (put_word (NZ p) w s)) ->
  (forall T F s', plain s p = true -> full st [] [NZ p] T F s s' -> Q tt s') ->
  wp (z ← zget p;
      alive ← store_alive;
      match z_type z, alive with
      | IS_OBJECT h, true => oupd h (add_oref d) ;; obj h
      | IS_GLOBALS _, _ => glob
      | IS_ARRAY l, _ => each visit l
      | _, _ => mret tt
      end) Q (put_word (NZ p) w s).
Proof.
  intros Hli Hd Hch Hr Hp Hv Hvw Hlt Hobj Hglob HQ. destruct (there_zval s p Hp) as (z & Hz & Ht).
  destruct (put_word_same (NZ p) w s) as [HG HL].
  assert (is_globals (z_type z) = false -> is_node s (NZ p)) as Hn
    by (intros H; simpl; by rewrite (plain_of _ _ _ Ht), H).
  eapply (wp_type_alive _ _ _ _ (z_type z)); [by rewrite (same_type _ _ HG)|].
  intros z1 Hz1 _. rewrite Hz1, (bool_decide_ext _ _ (same_store _ _ HG)).
  destruct (z_type z) as [l|l|h|] eqn:Htz; [specialize (Hn eq_refl)| |specialize (Hn eq_refl)..].
  2: by eapply Hglob.
  all: destruct (Hv Hn) as [Hv1 Hv2].
  - eapply (wp_array st); eauto.
  - case_bool_decide as Ho.
    + pose proof (kids_object _ _ _ Ht Ho) as Hk. pose proof (raw_enter st _ _ _ Hn Hv1 Hv2 Hvw) as Re.
      assert (is_node (put_word (NZ p) w s) (NO h)) as Hno.
      { apply (same_node _ _ _ HG), (kids_nodes s (NZ p)); [apply Hr|]. rewrite Hk. set_solver. }
      pose proof (raw_edge st _ _ Hno) as Rd. rewrite Hd in Rd. apply wp_bind, wp_oupd_rc; [done|].
      apply Hobj; [by eapply raw_ready, raw_ready| | |].
      * by apply (same_node _ _ _ (sw_graph _ _ _ _ _ _ Rd)).
      * pose proof (raw_pending_lt st _ _ _ _ _ p Re). pose proof (raw_pending st _ _ _ _ _ Rd). set_solver by lia.
      * intros T F s' HS. eapply HQ; [done|]. eapply full_enter_object; try done. by rewrite Hd.
    + apply wp_ret. eapply HQ; [done|]. eapply full_leaf; try done. by eapply kids_detached.
  - apply wp_ret. eapply HQ; [done|]. eapply full_leaf; try done. simpl. by rewrite Ht.
Qed.

(** ** Marking grey *)

Lemma wp_zobj_mark_grey N s h Q :
  child_ok grey N (grey_child (zval_mark_grey N)) -> ready s -> is_node s (NO h) ->
  (size (pending grey s) < N)%nat ->
  (forall T F s', full grey [] [NO h] T F s s' -> Q tt s') -> wp (zobj_mark_grey N h) Q s.
Proof.
  intros Hch Hr Hn Hlt HQ. destruct (node_obj _ _ Hn) as (m & o & _ & _ & Ho).
  unfold zobj_mark_grey. apply wp_bind. eapply wp_oget; [done|].
  assert (buffered o = word s (NO h)) as Hb by (simpl; by rewrite Ho).
  destruct (GC_GET_COLOR (buffered o) =? GC_GREY) eqn:Hc; rewrite Hb in Hc.
  - apply wp_ret, (HQ [] []), full_visited. by intros k ->%list_elem_of_singleton.
  - apply wp_bind. eapply (wp_oupd_word h (GC_SET_COLOR (word s (NO h)) GC_GREY)); [done| |].
    { intros o' Ho'. simpl. by rewrite Ho'. }
    eapply (wp_object grey); try done; [apply vis_grey|by apply refs_of].
Qed.

Lemma wp_zval_mark_grey N : visit_ok grey N (zval_mark_grey N).
Proof.
  induction N as [|N IH]; intros s p Q Hr Hp Hlt HQ; [lia|].
  assert (child_ok grey N (grey_child (zval_mark_grey N))) as Hch by (apply (visit_child grey), IH).
  destruct (there_zval s p Hp) as (z & Hz & Ht).
  assert (word s (NZ p) = u_word z) as Hw by (simpl; by rewrite Hz).
  cbn [zval_mark_grey]. apply wp_bind. unfold GC_ZVAL_GET_COLOR. apply wp_bind. eapply wp_zget; [done|]. apply wp_ret.
  destruct (GC_GET_COLOR (u_word z) =? GC_GREY) eqn:Hc.
  { apply wp_ret, (HQ [] []), full_visited. intros k (q & -> & ->%list_elem_of_singleton & _)%plain_nodes_elem.
    by rewrite Hw. }
  set (w := GC_SET_COLOR (u_word z) GC_GREY). apply wp_bind.
  eapply (wp_zupd_word p w); [done|intros z' Hz'; by simplify_eq|]. rewrite plain_nodes_one in HQ.
  apply (wp_zval_body grey (-1) p w N _ (zobj_mark_grey N)); try done.
  - intros _. by rewrite Hw.
  - apply vis_grey.
  - intros h s1 Q1. by apply wp_zobj_mark_grey.
  - intros l Hl. destruct (put_word_same (NZ p) w s) as [HG HL].
    eapply (wp_zupd_word p (GC_SET_BLACK w)); [by rewrite (same_type _ _ HG)| |].
    { intros z' Hz'. f_equal. f_equal. transitivity (word (put_word (NZ p) w s) (NZ p)); [cbn [word]; by rewrite Hz'|].
      by rewrite word_put_word, decide_True. }
    rewrite put_word_twice. eapply HQ. unfold plain. rewrite Hl. simpl.
    replace (GC_SET_BLACK w) with (GC_SET_BLACK (word s (NZ p))); [by eapply full_globals|].
    rewrite Hw. unfold w. gc_words.
  - intros T F s' Hpl HS. eapply HQ. by rewrite Hpl.
Qed.

(** ** Scanning black *)

Lemma wp_zobj_scan_black N s h Q :
  child_ok black N (black_child (zval_scan_black N)) -> ready s -> is_node s (NO h) ->
  vis black (word s (NO h)) = false -> (size (pending black s) < N)%nat ->
  (forall T F s', full black [] [NO h] T F s s' -> Q tt s') -> wp (zobj_scan_black N h) Q s.
Proof.
  intros Hch Hr Hn Hv Hlt HQ. unfold zobj_scan_black. apply wp_bind.
  set (w := GC_SET_BLACK (word s (NO h))). eapply (wp_oupd_word h w); [done| |].
  { intros o' Ho'. unfold w. simpl. by rewrite Ho'. }
  destruct (put_word_same (NO h) w s) as [HG HL].
  assert (is_node (put_word (NO h) w s) (NO h)) as Hn' by by apply (same_node _ _ _ HG).
  destruct (node_obj _ _ Hn') as (m & o & _ & _ & Ho). apply wp_bind. eapply wp_oget; [done|].
  eapply (wp_object black); try done; [apply vis_black|]. by rewrite <- (same_refs _ _ HG), (refs_of _ _ _ Ho).
Qed.

(** Unlike the other two, [zval_scan_black] does not look whether the zval was visited. *)
Definition scan_black_ok (N : nat) : Prop := forall s p Q,
  ready s -> is_Some (type_at s p) -> (is_node s (NZ p) -> vis black (word s (NZ p)) = false) ->
  (size (pending black s) < N)%nat ->
  (forall T F s', full black [] (plain_nodes s [p]) T F s s' -> Q tt s') -> wp (zval_scan_black N p) Q s.

Lemma scan_black_child N : scan_black_ok N -> child_ok black N (black_child (zval_scan_black N)).
Proof.
  intros Hok. apply (visit_child black N (fun p => c ← GC_ZVAL_GET_COLOR p; if c =? GC_BLACK then mret tt else zval_scan_black N p)).
  intros s p Q Hr Hp Hlt HQ. destruct (there_zval s p Hp) as (z & Hz & Ht).
  assert (word s (NZ p) = u_word z) as Hw by (simpl; by rewrite Hz).
  unfold GC_ZVAL_GET_COLOR. apply wp_bind, wp_bind. eapply wp_zget; [done|]. apply wp_ret.
  destruct (GC_GET_COLOR (u_word z) =? GC_BLACK) eqn:Hc.
  - apply wp_ret, (HQ [] []), full_visited. intros k (q & -> & ->%list_elem_of_singleton & _)%plain_nodes_elem.
    by rewrite Hw.
  - apply Hok; try done. intros _. by rewrite Hw.
Qed.

Lemma wp_zval_scan_black N : scan_black_ok N.
Proof.
  induction N as [|N IH]; intros s p Q Hr Hp Hv Hlt HQ; [lia|].
  pose proof (scan_black_child N IH) as Hch. destruct (there_zval s p Hp) as (z & Hz & Ht).
  assert (word s (NZ p) = u_word z) as Hw by (simpl; by rewrite Hz).
  cbn [zval_scan_black]. apply wp_bind. unfold GC_ZVAL_SET_BLACK. set (w := GC_SET_BLACK (u_word z)).
  eapply (wp_zupd_word p w); [done|intros z' Hz'; by simplify_eq|]. rewrite plain_nodes_one in HQ.
  apply (wp_zval_body black 1 p w N _ (fun h => o ← oget h;
     if GC_GET_COLOR (buffered o) =? GC_BLACK then mret tt
     else oupd h (fun o => set_buffered (GC_SET_BLACK (buffered o)) o) ;;
          each_child (black_child (zval_scan_black N)) o) (mret tt)); try done.
  - intros Hn. rewrite Hw in *. by split; [apply Hv|].
  - apply vis_black.
  - intros h s1 Q1 Hr1 Hn1 Hlt1 HQ1. destruct (node_obj _ _ Hn1) as (m & o & _ & _ & Ho).
    apply wp_bind. eapply wp_oget; [done|].
    assert (buffered o = word s1 (NO h)) as Hb by (simpl; by rewrite Ho).
    destruct (GC_GET_COLOR (buffered o) =? GC_BLACK) eqn:Hc; rewrite Hb in Hc.
    + apply wp_ret, (HQ1 [] []), full_visited. by intros k ->%list_elem_of_singleton.
    + apply wp_bind. eapply (wp_oupd_word h (GC_SET_BLACK (word s1 (NO h)))); [done| |].
      { intros o' Ho'. simpl. by rewrite Ho'. }
      eapply (wp_object black); try done; [apply vis_black|by apply refs_of].
  - intros l Hl. apply wp_ret. eapply HQ. unfold plain. rewrite Hl. simpl.
    replace w with (GC_SET_BLACK (word s (NZ p))); [by eapply full_globals|]. by rewrite Hw.
  - intros T F s' Hpl HS. eapply HQ. by rewrite Hpl.
Qed.

(** ** Collecting white *)

Lemma wp_put_to_free p s Q : is_Some (type_at s p) -> Q tt (linked p s) -> wp (put_to_free p) Q s.
Proof.
  intros Hp HQ. destruct (put_rc_same (NZ p) 1 s) as [HG _]. unfold put_to_free.
  apply wp_bind, wp_zupd_rc; [done|]. apply wp_bind, wp_gets. rewrite to_free_put_rc.
  apply wp_bind. eapply (wp_zupd_word p (zval_to_free s)); [by rewrite (same_type _ _ HG)|done|].
  by apply wp_modify.
Qed.

Lemma vis_white_to_free s : ready s -> vis white (zval_to_free s) = true.
Proof.
  intros Hr. simpl. apply negb_true_iff, Z.eqb_neq. intros He. pose proof (ready_to_free _ Hr) as H.
  by rewrite He in H.
Qed.

Lemma walk_push p s :
  ready s -> is_node s (NZ p) -> vis white (word s (NZ p)) = true -> walk white [] [] [p] [] [p] s (linked p s).
Proof.
  intros Hr Hn Hv. split; [apply raw_push; [done..|by apply vis_white_to_free]| | |done].
  - intros k Hk. by apply elem_of_nil in Hk.
  - intros m Hm. by apply elem_of_nil in Hm.
Qed.

(** The walk below a zval, with its linking on the way. *)
Lemma wp_push_walk N visit p l1 l2 s Q :
  child_ok white N visit -> ready s -> is_node s (NZ p) -> vis white (word s (NZ p)) = true ->
  Forall (fun q => is_Some (type_at s q)) (l1 ++ l2) -> (size (pending white s) < N)%nat ->
  (forall T F s', walk white (plain_nodes s (l1 ++ l2)) (plain_nodes s (l1 ++ l2)) [p] T F s s' -> Q tt s') ->
  wp (each visit l1 ;; put_to_free p ;; each visit l2) Q s.
Proof.
  intros Hch Hr Hn Hv Hl Hlt HQ. apply Forall_app in Hl as [Hl1 Hl2].
  apply wp_bind, (wp_each white N); [done..|].
  intros T1 F1 s1 H1. pose proof (full_raw _ _ _ _ _ _ _ _ H1) as R1. pose proof (sw_graph _ _ _ _ _ _ R1) as G1.
  assert (is_node s1 (NZ p)) as Hn1 by by apply (same_node _ _ _ G1).
  pose proof (raw_ready _ _ _ _ _ _ R1 Hr) as Hr1.
  apply wp_bind, wp_put_to_free; [by apply node_there in Hn1|].
  pose proof (walk_push p s1 Hr1 Hn1 (raw_vis _ _ _ _ _ _ _ R1 Hn Hv)) as H2.
  assert (walk white (plain_nodes s l1) (plain_nodes s l1) [p] T1 (p :: F1) s (linked p s1)) as H12.
  { assert (forall P : zptr -> Prop, P p -> Forall P ([] ++ [p])) as HP by (intros P HP; by constructor).
    assert (@nil zptr ## [p]) as Hd by set_solver.
    pose proof (walk_app white _ _ [] _ _ _ _ [p] _ _ _ _ _ (ready_closed _ Hr) (plain_nodes_nodes s l1) Hd
      (HP _ Hv) (HP _ Hn) H1 H2) as H. by rewrite !app_nil_r in H. }
  pose proof (full_raw _ _ _ _ _ _ _ _ H12) as R12. pose proof (sw_graph _ _ _ _ _ _ R12) as G12.
  apply (wp_each white N); [done|by eapply raw_ready| | |].
  { eapply Forall_impl; [exact Hl2|]. intros q. by rewrite (same_type _ _ G12). }
  { pose proof (raw_pending _ _ _ _ _ _ R12). lia. }
  intros T3 F3 s3 H3. rewrite (same_plain_nodes _ _ _ G12) in H3. eapply HQ. rewrite plain_nodes_app.
  eapply (walk_app white _ _ [p] _ _ _ _ []); [apply Hr|apply plain_nodes_nodes|set_solver| | |exact H12|exact H3];
    by constructor.
Qed.

(** A visit of a zval, from its own change and the walk below it that links it. *)
Lemma full_collect p T F l s s1 s' :
  raw white [] [NZ p] [] s s1 -> kids s (NZ p) = l -> walk white l l [p] T F s1 s' ->
  full white [] [NZ p] (NZ p :: T) F s s'.
Proof.
  intros Re Hk HS. pose proof (sw_graph _ _ _ _ _ _ Re) as HG. pose proof (full_raw _ _ _ _ _ _ _ _ HS) as R.
  rewrite (kids_of_same _ _ _ HG) in R. apply full_visit; rewrite ?Hk.
  - pose proof (raw_trans _ _ _ _ _ _ _ _ _ _ Re R) as H. rewrite app_nil_r in H. apply H. set_solver.
  - intros k Hin. apply (full_closed _ _ _ _ _ _ _ _ HS). by rewrite (kids_of_same _ _ _ HG).
  - intros m Hm. destruct (full_reach _ _ _ _ _ _ _ _ HS m Hm) as (k & Hin & Hr). exists k. split; [done|].
    by eapply below_same.
  - apply (full_links _ _ _ _ _ _ _ _ HS).
Qed.

(** References to objects are not counted here. *)
Lemma walk_object_edge h l src P T F s s' :
  walk white l src P T F s s' -> walk white (NO h :: l) src P T F s s'.
Proof.
  intros [HR Hc Hre Hl]. split; try done. destruct HR. split; try done. intros n Hn.
  rewrite sw_rc by done. simpl. rewrite cnt_cons. destruct n as [q|h']; [|f_equal; lia].
  rewrite decide_False by done. done.
Qed.

(** The object of a zval: its own change, then the walk below it, which links the zval. *)
Lemma walk_object h P T F s s' :
  is_node s (NO h) -> word s (NO h) = GC_WHITE ->
  walk white (kids s (NO h)) (kids s (NO h)) P T F (put_word (NO h) (GC_SET_PURPLE GC_WHITE) s) s' ->
  walk white [NO h] [NO h] P (NO h :: T) F s s'.
Proof.
  intros Hn Hw HS. apply walk_object_edge.
  assert (raw white [] [NO h] [] s (put_word (NO h) (GC_SET_PURPLE GC_WHITE) s)) as Re.
  { apply raw_enter; [done|by rewrite Hw|by rewrite Hw|done]. }
  pose proof (sw_graph _ _ _ _ _ _ Re) as HG. pose proof (full_raw _ _ _ _ _ _ _ _ HS) as R.
  rewrite (kids_of_same _ _ _ HG) in R.
  pose proof (raw_trans _ _ _ _ _ _ _ _ _ _ Re R) as Ra. rewrite app_nil_r in Ra. specialize (Ra ltac:(set_solver)).
  split; [exact Ra| | |].
  - intros k [->%list_elem_of_singleton|Hin]%elem_of_app; [apply (sw_changed _ _ _ _ _ _ Ra); set_solver|].
    apply (full_closed _ _ _ _ _ _ _ _ HS). by rewrite (kids_of_same _ _ _ HG).
  - intros m [->|Hm]%elem_of_cons; exists (NO h); (split; [set_solver|]); [done|].
    destruct (full_reach _ _ _ _ _ _ _ _ HS m Hm) as (k & Hin & Hr). eapply rtc_l; [exact Hin|]. by eapply below_same.
  - apply (full_links _ _ _ _ _ _ _ _ HS).
Qed.

(** The code below a zval links it before, between or after its walks. *)
Lemma push_first visit p l s :
  (put_to_free p ;; each visit l) s = (each visit [] ;; put_to_free p ;; each visit l) s.
Proof. done. Qed.

Lemma push_only visit p s : put_to_free p s = (each visit [] ;; put_to_free p ;; each visit []) s.
Proof. simpl. unfold mbind, cmd_bind. simpl. by destruct (put_to_free p s) as [[[] s']|]. Qed.

Lemma wp_collect_object N p h s Q :
  let visit := white_child (zval_collect_white N) in
  child_ok white N visit -> ready s -> is_node s (NZ p) -> vis white (word s (NZ p)) = true ->
  is_node s (NO h) -> (size (pending white s) < N)%nat ->
  (forall T F s', walk white [NO h] [NO h] [p] T F s s' -> Q tt s') ->
  wp (o ← oget h;
      if buffered o =? GC_WHITE then
        oupd h (fun o => set_buffered (GC_SET_PURPLE (buffered o)) o) ;;
        match valid o, get_gc o with
        | true, Some (table, None) => put_to_free p ;; each_entry visit table
        | true, Some (table, Some props) => each_entry visit table ;; put_to_free p ;; each visit props
        | _, _ => put_to_free p
        end
      else put_to_free p) Q s.
Proof.
  intros visit Hch Hr Hn Hv Hno Hlt HQ. destruct (node_obj _ _ Hno) as (m & o & _ & _ & Ho).
  apply wp_bind. eapply wp_oget; [done|].
  assert (word s (NO h) = buffered o) as Hb by (simpl; by rewrite Ho).
  destruct (buffered o =? GC_WHITE) eqn:Hc.
  2: { apply wp_put_to_free; [by apply node_there in Hn|]. eapply HQ, walk_object_edge.
       destruct (walk_push p s Hr Hn Hv) as [HR Hcl Hre Hl]. split; try done.
       - intros k ->%list_elem_of_singleton. eapply raw_vis; [done..|].
         change (negb (word s (NO h) =? GC_WHITE) = true). by rewrite Hb, Hc.
       - intros n Hnil. by apply elem_of_nil in Hnil. }
  apply Z.eqb_eq in Hc. rewrite Hc in Hb. set (w := GC_SET_PURPLE GC_WHITE).
  apply wp_bind. eapply (wp_oupd_word h w); [done|intros o' Ho'; simplify_eq; by rewrite Hc|].
  assert (raw white [] [NO h] [] s (put_word (NO h) w s)) as Re
    by (apply raw_enter; [done|by rewrite Hb|by rewrite Hb|done]).
  pose proof (sw_graph _ _ _ _ _ _ Re) as HG. pose proof (refs_of _ _ _ Ho) as Href.
  assert (forall l1 l2, pointers (valid o, get_gc o) = l1 ++ l2 ->
    wp (each visit l1 ;; put_to_free p ;; each visit l2) Q (put_word (NO h) w s)) as Hpush.
  { intros l1 l2 Hl. apply (wp_push_walk N); [done|by eapply raw_ready|by apply (same_node _ _ _ HG)| | | |].
    - by eapply raw_vis.
    - rewrite <- Hl. eapply Forall_impl; [by eapply closed_refs; [apply Hr|]|]. intros q. by rewrite (same_type _ _ HG).
    - pose proof (raw_pending _ _ _ _ _ _ Re). lia.
    - intros T F s' HS. eapply HQ, walk_object; [done|done|].
      rewrite (same_plain_nodes _ _ _ HG), <- Hl in HS. simpl. by rewrite Href. }
  unfold pointers in Hpush.
  destruct (valid o); [destruct (get_gc o) as [[table [props|]]|]|].
  - eapply wp_eq; [|by apply (Hpush (omap id table) props)]. apply bind_ext_l, each_entry_each.
  - eapply wp_eq; [apply bind_ext; intros; apply each_entry_each|].
    eapply wp_eq; [apply push_first|]. apply Hpush. by rewrite app_nil_r.
  - eapply wp_eq; [apply (push_only visit)|]. by apply Hpush.
  - eapply wp_eq; [apply (push_only visit)|]. by apply Hpush.
Qed.

Lemma wp_zval_collect_white N : visit_ok white N (zval_collect_white N).
Proof.
  induction N as [|N IH]; intros s p Q Hr Hp Hlt HQ; [lia|].
  assert (child_ok white N (white_child (zval_collect_white N))) as Hch by (apply (visit_child white), IH).
  destruct (there_zval s p Hp) as (z & Hz & Ht).
  assert (word s (NZ p) = u_word z) as Hw by (simpl; by rewrite Hz).
  cbn [zval_collect_white]. apply wp_bind. eapply wp_zget; [done|].
  destruct (u_word z =? GC_WHITE) eqn:Hc.
  2: { apply wp_ret, (HQ [] []), full_visited. intros k (q & -> & ->%list_elem_of_singleton & _)%plain_nodes_elem.
       change (negb (word s (NZ p) =? GC_WHITE) = true). by rewrite Hw, Hc. }
  apply Z.eqb_eq in Hc. rewrite Hc in Hw.
  assert (is_globals (z_type z) = false) as Hng.
  { destruct (z_type z) eqn:E; try done. destruct (ready_globals _ Hr _ _ Ht) as [H|H]; by rewrite Hw in H. }
  assert (is_node s (NZ p)) as Hn by (simpl; by rewrite (plain_of _ _ _ Ht), Hng).
  rewrite plain_nodes_one, (plain_of _ _ _ Ht), Hng in HQ.
  apply wp_bind. eapply (wp_zupd_word p 0); [done|intros z' Hz'; simplify_eq; by rewrite Hc|].
  assert (raw white [] [NZ p] [] s (put_word (NZ p) 0 s)) as Re by (apply raw_enter; [done|by rewrite Hw|done..]).
  set (s1 := put_word (NZ p) 0 s) in *. pose proof (sw_graph _ _ _ _ _ _ Re) as HG.
  pose proof (raw_ready _ _ _ _ _ _ Re Hr) as Hr1.
  assert (is_node s1 (NZ p)) as Hn1 by by apply (same_node _ _ _ HG).
  assert (vis white (word s1 (NZ p)) = true) as Hv1 by (apply (sw_changed _ _ _ _ _ _ Re); set_solver).
  assert (size (pending white s1) < N)%nat as Hlt1.
  { pose proof (raw_pending_lt _ _ _ _ _ _ p Re). set_solver by lia. }
  apply wp_bind, wp_gets. rewrite (bool_decide_ext _ _ (same_store _ _ HG)).
  assert (forall l, kids s (NZ p) = plain_nodes s l -> Forall (fun q => is_Some (type_at s q)) l ->
    wp (put_to_free p ;; each (white_child (zval_collect_white N)) l) Q s1) as Hpush.
  { intros l Hk Hl. eapply wp_eq; [apply push_first|]. apply (wp_push_walk N); try done.
    - eapply Forall_impl; [done|]. intros q. by rewrite (same_type _ _ HG).
    - intros T F s' HS. rewrite (same_plain_nodes _ _ _ HG) in HS. by eapply HQ, full_collect. }
  assert (kids s (NZ p) = [] -> wp (put_to_free p) Q s1) as Hleaf.
  { intros Hk. eapply wp_eq; [apply (push_only (white_child (zval_collect_white N)))|].
    eapply wp_eq; [symmetry; apply push_first|]. by apply Hpush. }
  destruct (z_type z) as [l|l|h|]; try done.
  - apply Hpush; [by apply kids_array|]. by eapply closed_array; [apply Hr|].
  - case_bool_decide as Ho; [|by eapply Hleaf, kids_detached].
    pose proof (kids_object _ _ _ Ht Ho) as Hk. apply wp_collect_object; try done.
    + apply (same_node _ _ _ HG), (kids_nodes s (NZ p)); [apply Hr|]. rewrite Hk. set_solver.
    + intros T F s' HS. by eapply HQ, full_collect.
  - apply Hleaf. simpl. by rewrite Ht.
Qed.

Lemma wp_zobj_collect_white N s h Q :
  ready s -> is_node s (NO h) -> (size (pending white s) < N)%nat ->
  (forall T F s', full white [] [NO h] T F s s' -> Q tt s') -> wp (zobj_collect_white N h) Q s.
Proof.
  intros Hr Hn Hlt HQ. destruct (node_obj _ _ Hn) as (m & o & Hm & _ & Ho).
  assert (child_ok white N (white_child (zval_collect_white N))) as Hch
    by (apply (visit_child white), wp_zval_collect_white).
  unfold zobj_collect_white. apply wp_bind, wp_gets. rewrite bool_decide_true by (by rewrite Hm).
  apply wp_bind. eapply wp_oget; [done|].
  assert (word s (NO h) = buffered o) as Hb by (simpl; by rewrite Ho).
  destruct (buffered o =? GC_WHITE) eqn:Hc.
  - apply Z.eqb_eq in Hc. rewrite Hc in Hb. apply wp_bind.
    eapply (wp_oupd_word h (GC_SET_PURPLE GC_WHITE)); [done|intros o' Ho'; simplify_eq; by rewrite Hc|].
    eapply (wp_object white); try done; [by rewrite Hb|by rewrite Hb|by apply refs_of].
  - apply wp_ret, (HQ [] []), full_visited. intros k ->%list_elem_of_singleton.
    change (negb (word s (NO h) =? GC_WHITE) = true). by rewrite Hb, Hc.
Qed.
