(* ===== verification/ZendGCScan.v ===== *)
(** * ZendGCScan: the scan of the marked subgraph

    After marking, the count of a marked node is the number of references to it from
    outside the marked subgraph.  Scanning leaves the nodes that can be reached from a
    node with such references black, with their counts restored, and the others
    white, with count 0. *)
From S2P Require Import Prelude Memory ZendGC ZendGCGraph ZendGCSweep ZendGCPasses.
From stdpp Require Import base option list gmap relations.
Local Open Scope Z_scope.

Definition color (s : gc) (n : node) : Z := GC_GET_COLOR (word s n).
Definition address (s : gc) (n : node) : Z := GC_ADDRESS (word s n).

(** Counting references from subsets. *)
Lemma cnt_kids_sub s n T M : NoDup T -> T ⊆ M -> cnt n (kids_of s T) <= cnt n (kids_of s M).
Proof.
  intros HT. revert M. induction HT as [|x T Hx HT IH]; intros M Hsub; [apply cnt_nonneg|].
  destruct (list_elem_of_split M x) as (M1 & M2 & ->); [set_solver|].
  change (x :: T) with ([x] ++ T). change (x :: M2) with ([x] ++ M2). rewrite !kids_of_app, !cnt_app.
  assert (T ⊆ M1 ++ M2) as HTM by set_solver. specialize (IH _ HTM). rewrite kids_of_app, cnt_app in IH. lia.
Qed.

Lemma cnt_kids_perm s n T T' : T ≡ₚ T' -> cnt n (kids_of s T) = cnt n (kids_of s T').
Proof. intros HT. apply cnt_perm. unfold kids_of. by rewrite HT. Qed.

(** Nodes that are not grey have been scanned: a stage only for its measure. *)
Program Definition seen : stage := {|
  vis := fun w => negb (GC_GET_COLOR w =? GC_GREY);
  w_edge := fun _ => 0;
  changed := fun _ _ _ => True;
  links := false
|}.
Next Obligation. done. Qed.

Section scan.
Context (M : list node) (s1 : gc).
Context (M_nodup : NoDup M) (M_nodes : forall n, n ∈ M -> is_node s1 n).
Context (M_closed : forall n k, n ∈ M -> k ∈ kids s1 n -> k ∈ M).
Context (M_bound : forall n, is_node s1 n -> 0 <= rc s1 n /\ rc s1 n + cnt n (kids_of s1 M) < 2 ^ 32).

Definition is_black (s : gc) (n : node) : Prop := color s n = GC_BLACK.

#[global] Instance is_black_dec s n : Decision (is_black s n).
Proof. unfold is_black. apply _. Defined.

Definition blacks (s : gc) : list node := filter (is_black s) M.

Record scan_inv (s : gc) : Prop := {
  sc_graph : same_graph s1 s;
  sc_lists : same_lists s1 s;
  sc_free : zval_to_free s = zval_to_free s1;
  sc_ready : ready s;
  sc_globals : globals_kept s1 s;
  sc_other : forall n, is_node s1 n -> n ∉ M -> word s n = word s1 n;
  sc_address : forall n, n ∈ M -> address s n = address s1 n;
  sc_colors : forall n, n ∈ M -> color s n = GC_GREY \/ color s n = GC_WHITE \/ color s n = GC_BLACK;
  sc_black : forall n k, n ∈ M -> is_black s n -> k ∈ kids s1 n -> is_black s k;
  sc_rc : forall n, is_node s1 n -> rc s n = rc s1 n + cnt n (kids_of s1 (blacks s));
  sc_white : forall n, n ∈ M -> color s n = GC_WHITE -> rc s n = 0;
  sc_live : forall n, n ∈ M -> is_black s n -> exists m, m ∈ M /\ 0 < rc s1 m /\ rtc (below s1) m n
}.

Lemma M_reach n m : n ∈ M -> rtc (below s1) n m -> m ∈ M.
Proof. intros Hn Hr. induction Hr as [|x y z Hxy _ IH]; [done|]. by eapply IH, M_closed. Qed.

(** A node that is referenced from a black one is black. *)
Lemma edge_black s n : scan_inv s -> n ∈ M -> 0 < cnt n (kids_of s1 (blacks s)) -> is_black s n.
Proof.
  intros HI Hn (m & Hm & Hk)%cnt_pos%kids_of_elem. apply list_elem_of_filter in Hm as [Hb Hm].
  by eapply sc_black.
Qed.

Lemma scan_inv_range s : scan_inv s -> in_range s.
Proof.
  intros HI n Hn. apply (same_node _ _ _ (sc_graph _ HI)) in Hn. rewrite (sc_rc _ HI n Hn).
  destruct (M_bound n Hn) as [H0 Hb]. pose proof (cnt_nonneg n (kids_of s1 (blacks s))).
  assert (cnt n (kids_of s1 (blacks s)) <= cnt n (kids_of s1 M)); [|lia].
  apply cnt_kids_sub; [by apply NoDup_filter|]. intros m. unfold blacks. rewrite list_elem_of_filter. tauto.
Qed.

(** *** Scanning black *)

(** What a walk that blackens [T] does to colours and counts. *)
Record blackened (T : list node) (s s' : gc) : Prop := {
  bl_sub : T ⊆ M;
  bl_keep : forall m, m ∈ M -> m ∉ T -> word s' m = word s m;
  bl_new : forall m, m ∈ T -> word s' m = GC_SET_BLACK (word s m) /\ is_black s' m;
  bl_mono : forall m, m ∈ M -> is_black s m -> is_black s' m;
  bl_closed : forall k, k ∈ kids_of s1 T -> is_black s' k;
  bl_blacks : blacks s' ≡ₚ blacks s ++ T;
  bl_rc : forall m, is_node s1 m -> rc s' m = rc s m + cnt m (kids_of s1 T)
}.

Lemma full_blackened n T s s' :
  scan_inv s -> n ∈ M -> full black [] [n] T [] s s' -> blackened T s s'.
Proof.
  intros HI Hn HS. pose proof (full_raw _ _ _ _ _ _ _ _ HS) as R. pose proof (sc_graph _ HI) as G.
  pose proof (sw_graph _ _ _ _ _ _ R) as G'. rewrite (kids_of_same _ _ _ G) in R.
  assert (forall m, m ∈ M -> is_node s m) as HMn by (intros m Hm; by apply (same_node _ _ _ G), M_nodes).
  assert (T ⊆ M) as HTM.
  { intros m Hm. destruct (full_reach _ _ _ _ _ _ _ _ HS m Hm) as (k & ->%list_elem_of_singleton & Hr).
    eapply M_reach; [done|]. by eapply below_same. }
  assert (forall m, m ∈ M -> m ∉ T -> word s' m = word s m) as Hkeep.
  { intros m Hm HmT. apply (sw_keep _ _ _ _ _ _ R); [auto|done|set_solver]. }
  assert (forall m, m ∈ T -> word s' m = GC_SET_BLACK (word s m) /\ is_black s' m) as Hnew.
  { intros m Hm. destruct (sw_changed _ _ _ _ _ _ R m Hm) as [Hc Hv]. split; [exact Hc|]. by apply Z.eqb_eq in Hv. }
  assert (forall m, m ∈ T -> ~ is_black s m) as HTn.
  { intros m Hm Hb. pose proof (proj2 (sw_new _ _ _ _ _ _ R m Hm)) as Hv. by apply Z.eqb_neq in Hv. }
  assert (blacks s' ≡ₚ blacks s ++ T) as Hbl.
  { apply NoDup_Permutation; [by apply NoDup_filter| |].
    - apply NoDup_app. split_and!; [by apply NoDup_filter| |apply (sw_nodup _ _ _ _ _ _ R)].
      intros m [Hb _]%list_elem_of_filter Hm. by apply (HTn m).
    - intros m. rewrite elem_of_app. unfold blacks. rewrite !list_elem_of_filter. destruct (decide (m ∈ T)) as [HT|HT].
      + pose proof (Hnew m HT). set_solver.
      + unfold is_black, color. split.
        * intros [Hb Hm]. left. by rewrite Hkeep in Hb.
        * intros [[Hb Hm]|Hm]; [|done]. by rewrite Hkeep. }
  split; try done.
  - intros m Hm Hb. destruct (decide (m ∈ T)) as [HT|HT]; [by apply Hnew|].
    unfold is_black, color. by rewrite Hkeep.
  - intros k Hk. pose proof (full_closed _ _ _ _ _ _ _ _ HS k) as Hv. rewrite (kids_of_same _ _ _ G) in Hv.
    apply Z.eqb_eq, Hv. set_solver.
  - intros m Hm. assert (is_node s m) as Hms by by apply (same_node _ _ _ G).
    pose proof (scan_inv_range s HI) as Hr. pose proof (sw_range _ _ _ _ _ _ R Hr m) as Hr'.
    rewrite (same_node _ _ _ G') in Hr'. specialize (Hr' Hms).
    pose proof (sw_rc _ _ _ _ _ _ R m Hms) as Hrc. simpl in Hrc.
    rewrite (sc_rc _ HI m Hm) in Hrc |- *. destruct (M_bound m Hm) as [H0 Hb].
    pose proof (cnt_kids_sub s1 m (blacks s ++ T) M) as Hsub. rewrite kids_of_app, cnt_app in Hsub.
    assert (NoDup (blacks s ++ T)) as Hnd by (rewrite <- Hbl; by apply NoDup_filter).
    assert (blacks s ++ T ⊆ M) as Hin by (rewrite <- Hbl; intros x; unfold blacks; rewrite list_elem_of_filter; tauto).
    specialize (Hsub Hnd Hin). pose proof (cnt_nonneg m (kids_of s1 T)). pose proof (cnt_nonneg m (kids_of s1 (blacks s))).
    rewrite !Z.mod_small in Hrc; unfold cnt in *; simpl in *; lia.
Qed.

Lemma scan_inv_black n T F s s' :
  scan_inv s -> n ∈ M -> color s n = GC_GREY -> 0 < rc s n -> full black [] [n] T F s s' ->
  scan_inv s' /\ blackened T s s' /\ n ∈ T.
Proof.
  intros HI Hn Hc Hrc HS. pose proof (full_raw _ _ _ _ _ _ _ _ HS) as R.
  assert (F = []) as -> by by apply (sw_links _ _ _ _ _ _ R). pose proof (full_blackened _ _ _ _ HI Hn HS) as B.
  pose proof (sc_graph _ HI) as G. pose proof (sw_graph _ _ _ _ _ _ R) as G'.
  assert (n ∈ T) as HnT.
  { destruct (decide (n ∈ T)) as [|HT]; [done|]. pose proof (full_closed _ _ _ _ _ _ _ _ HS n ltac:(set_solver)) as Hv.
    apply Z.eqb_eq in Hv. rewrite (bl_keep _ _ _ B n Hn HT) in Hv. unfold color in Hc. by rewrite Hc in Hv. }
  split_and!; [|done..]. split.
  - by transitivity s.
  - transitivity s; [apply (sc_lists _ HI)|apply (sw_lists _ _ _ _ _ _ R)].
  - pose proof (sw_seg _ _ _ _ _ _ R) as Hs. simpl in Hs. rewrite Hs. apply (sc_free _ HI).
  - eapply raw_ready; [exact R|apply HI].
  - eapply globals_kept_trans; [exact G|apply (sc_globals _ HI)|apply (sw_globals _ _ _ _ _ _ R)].
  - intros m Hm HmM. rewrite <- (sc_other _ HI m Hm HmM).
    apply (sw_keep _ _ _ _ _ _ R); [by apply (same_node _ _ _ G)| |set_solver].
    intros HT. by apply HmM, (bl_sub _ _ _ B).
  - intros m Hm. rewrite <- (sc_address _ HI m Hm). unfold address. destruct (decide (m ∈ T)) as [HT|HT].
    + rewrite (proj1 (bl_new _ _ _ B m HT)). gc_words.
    + by rewrite (bl_keep _ _ _ B).
  - intros m Hm. destruct (decide (m ∈ T)) as [HT|HT].
    + right; right. by apply (bl_new _ _ _ B m HT).
    + unfold color. rewrite (bl_keep _ _ _ B) by done. by apply (sc_colors _ HI).
  - intros m k Hm Hb Hk. destruct (decide (m ∈ T)) as [HT|HT].
    + apply (bl_closed _ _ _ B). apply kids_of_elem. eauto.
    + apply (bl_mono _ _ _ B); [by eapply M_closed|]. eapply (sc_black _ HI m); [done| |done].
      unfold is_black, color in *. by rewrite (bl_keep _ _ _ B) in Hb.
  - intros m Hm. rewrite (bl_rc _ _ _ B m Hm), (sc_rc _ HI m Hm). 
    rewrite (cnt_kids_perm _ _ _ _ (bl_blacks _ _ _ B)), kids_of_app, cnt_app. lia.
  - intros m Hm Hw. assert (m ∉ T) as HT.
    { intros HT. pose proof (proj2 (bl_new _ _ _ B m HT)) as Hb. unfold is_black in Hb. rewrite Hw in Hb. done. }
    unfold color in Hw. rewrite (bl_keep _ _ _ B) in Hw by done. rewrite (bl_rc _ _ _ B) by auto.
    rewrite (sc_white _ HI m Hm Hw). pose proof (cnt_nonneg m (kids_of s1 T)).
    destruct (decide (0 < cnt m (kids_of s1 T))) as [Hp|]; [|lia]. apply cnt_pos in Hp.
    apply (bl_closed _ _ _ B) in Hp. unfold is_black, color in Hp. rewrite (bl_keep _ _ _ B) in Hp by done.
    by rewrite Hp in Hw.
  - intros m Hm Hb. destruct (decide (m ∈ T)) as [HT|HT].
    + exists n. split; [done|]. split.
      * rewrite (sc_rc _ HI n) in Hrc by auto. pose proof (cnt_nonneg n (kids_of s1 (blacks s))).
        destruct (decide (0 < cnt n (kids_of s1 (blacks s)))) as [Hp|]; [|lia].
        pose proof (edge_black s n HI Hn Hp) as Hbn. unfold is_black in Hbn. by rewrite Hc in Hbn.
      * destruct (full_reach _ _ _ _ _ _ _ _ HS m HT) as (k & ->%list_elem_of_singleton & Hre). by eapply below_same.
    + apply (sc_live _ HI m Hm). unfold is_black, color in *. by rewrite (bl_keep _ _ _ B) in Hb.
Qed.

(** *** Turning white *)

Definition whiten (n : node) (s : gc) : gc := put_word n (GC_SET_COLOR (word s n) GC_WHITE) s.

Lemma color_whiten n m s : is_there s n -> color (whiten n s) m = if decide (m = n) then GC_WHITE else color s m.
Proof. intros Hn. unfold color, whiten. rewrite word_put_word by done. case_decide; [gc_words|done]. Qed.

Lemma scan_inv_white n s : scan_inv s -> n ∈ M -> color s n = GC_GREY -> rc s n <= 0 -> scan_inv (whiten n s).
Proof.
  intros HI Hn Hc Hrc. pose proof (sc_graph _ HI) as G.
  assert (is_node s n) as Hns by by apply (same_node _ _ _ G), M_nodes.
  pose proof (node_there _ _ Hns) as Hth. set (w := GC_SET_COLOR (word s n) GC_WHITE).
  destruct (put_word_same n w s) as [G' L']. fold (whiten n s) in *.
  assert (forall m, is_black (whiten n s) m <-> is_black s m) as Hbl.
  { intros m. unfold is_black. rewrite color_whiten by done. case_decide; [subst; rewrite Hc; done|done]. }
  assert (blacks (whiten n s) = blacks s) as Hbls by (unfold blacks; by apply list_filter_iff).
  assert (forall p l, type_at s p = Some (IS_GLOBALS l) -> NZ p <> n) as Hglob.
  { intros p l Hp <-. simpl in Hns. unfold plain in Hns. by rewrite Hp in Hns. }
  destruct (HI) as [? ? ? [Hcl Hf Hg] Hgk ? ? ? ? ? ? ?]. split.
  - by transitivity s.
  - by transitivity s.
  - unfold whiten. by rewrite to_free_put_word.
  - split; [by eapply closed_same|unfold whiten; by rewrite to_free_put_word|].
    intros p l Hp. rewrite (same_type _ _ G') in Hp. unfold whiten. rewrite word_put_word by done.
    rewrite decide_False; [by eapply Hg|]. by eapply Hglob.
  - intros p l Hp. unfold whiten. rewrite rc_put_word, word_put_word by done. rewrite decide_False; [by eapply Hgk|].
    rewrite <- (same_type _ _ G) in Hp. by eapply Hglob.
  - intros m Hm HmM. unfold whiten. rewrite word_put_word by done. rewrite decide_False; [auto|]. by intros ->.
  - intros m Hm. unfold address, whiten. rewrite word_put_word by done. case_decide; [|by apply (sc_address _ HI)].
    subst. transitivity (address s n); [unfold address; gc_words|by apply (sc_address _ HI)].
  - intros m Hm. rewrite color_whiten by done. case_decide; auto.
  - intros m k Hm Hb Hk. apply Hbl. apply Hbl in Hb. eauto.
  - intros m Hm. unfold whiten at 1. rewrite rc_put_word, Hbls. auto.
  - intros m Hm. rewrite color_whiten by done. unfold whiten. rewrite rc_put_word. case_decide as E; [|by auto].
    subst m. intros _. pose proof (scan_inv_range s HI n Hns). lia.
  - intros m Hm Hb. apply Hbl in Hb. eauto.
Qed.

(** *** Progress of the scan *)

Record scanned (l : list node) (s s' : gc) : Prop := {
  pr_mono : forall m, m ∈ M -> color s m <> GC_GREY -> color s' m <> GC_GREY;
  pr_done : forall m, m ∈ l -> color s' m <> GC_GREY;
  pr_back : forall m, m ∈ M -> color s' m = GC_WHITE -> color s m = GC_GREY \/ color s m = GC_WHITE;
  pr_white : forall m k, m ∈ M -> color s m = GC_GREY -> color s' m = GC_WHITE -> k ∈ kids s1 m ->
    color s' k <> GC_GREY
}.

Lemma scanned_refl l s : (forall m, m ∈ l -> color s m <> GC_GREY) -> scanned l s s.
Proof. intros Hl. split; try done; [by right|]. intros m k _ H1 H2. by rewrite H1 in H2. Qed.

Lemma scanned_app l1 l2 s s' s'' :
  l1 ⊆ M -> scanned l1 s s' -> scanned l2 s' s'' -> scanned (l1 ++ l2) s s''.
Proof.
  intros Hl H1 H2.
  assert (forall m, m ∈ M -> color s' m = GC_GREY -> color s m = GC_GREY) as Hback.
  { intros m Hm Hg. destruct (decide (color s m = GC_GREY)) as [|Hn]; [done|]. by apply (pr_mono _ _ _ H1) in Hn. }
  split.
  - intros m Hm Hc. by apply (pr_mono _ _ _ H2), (pr_mono _ _ _ H1).
  - intros m [Hm|Hm]%elem_of_app; [|by apply (pr_done _ _ _ H2)].
    apply (pr_mono _ _ _ H2); [by apply Hl|]. by apply (pr_done _ _ _ H1).
  - intros m Hm Hw. destruct (pr_back _ _ _ H2 m Hm Hw) as [Hg|Hg]; [by left; apply Hback|].
    by apply (pr_back _ _ _ H1).
  - intros m k Hm Hg Hw Hk. destruct (pr_back _ _ _ H2 m Hm Hw) as [Hg'|Hw'].
    + by eapply (pr_white _ _ _ H2 m).
    + apply (pr_mono _ _ _ H2); [by eapply M_closed|]. by eapply (pr_white _ _ _ H1 m).
Qed.

Lemma blackened_scanned n T s s' : blackened T s s' -> n ∈ T -> scanned [n] s s'.
Proof.
  intros B Hn.
  assert (forall m, m ∈ T -> color s' m = GC_BLACK) as HT by (intros m Hm; by apply (bl_new _ _ _ B m Hm)).
  assert (forall m, m ∈ M -> m ∉ T -> color s' m = color s m) as HM
    by (intros m Hm HmT; unfold color; by rewrite (bl_keep _ _ _ B)).
  split.
  - intros m Hm Hc. destruct (decide (m ∈ T)) as [H|H]; [by rewrite HT|by rewrite HM].
  - intros m ->%list_elem_of_singleton. by rewrite HT.
  - intros m Hm Hw. destruct (decide (m ∈ T)) as [H|H]; [by rewrite HT in Hw|]. rewrite HM in Hw by done. by right.
  - intros m k Hm Hg Hw. destruct (decide (m ∈ T)) as [H|H]; [by rewrite HT in Hw|].
    rewrite HM, Hg in Hw by done. done.
Qed.

Lemma whiten_scanned n s s' :
  scan_inv s -> n ∈ M -> color s n = GC_GREY -> scanned (kids s1 n) (whiten n s) s' -> scanned [n] s s'.
Proof.
  intros HI Hn Hc HP. assert (is_there s n) as Hth by by apply node_there, (same_node _ _ _ (sc_graph _ HI)), M_nodes.
  assert (forall m, m <> n -> color (whiten n s) m = color s m) as Hne
    by (intros m Hm; by rewrite color_whiten, decide_False).
  assert (color (whiten n s) n = GC_WHITE) as Heq by by rewrite color_whiten, decide_True.
  split.
  - intros m Hm Hg. apply (pr_mono _ _ _ HP); [done|]. by destruct (decide (m = n)) as [->|]; [rewrite Heq|rewrite Hne].
  - intros m ->%list_elem_of_singleton. apply (pr_mono _ _ _ HP); [done|]. by rewrite Heq.
  - intros m Hm Hw. destruct (decide (m = n)) as [->|]; [by left|]. rewrite <- (Hne m) by done.
    by apply (pr_back _ _ _ HP).
  - intros m k Hm Hg Hw Hk. destruct (decide (m = n)) as [->|]; [by apply (pr_done _ _ _ HP)|].
    eapply (pr_white _ _ _ HP m); try done. by rewrite Hne.
Qed.

Lemma scanned_pending l s s' :
  scan_inv s -> scan_inv s' -> scanned l s s' -> (size (pending seen s') <= size (pending seen s))%nat.
Proof.
  intros HI HI' HP. apply subseteq_size. intros p. rewrite !pending_elem.
  rewrite (same_node _ _ _ (sc_graph _ HI)), (same_node _ _ _ (sc_graph _ HI')). intros [Hn Hv]. split; [done|].
  destruct (decide (NZ p ∈ M)) as [HM|HM].
  - apply not_true_is_false. intros Hg. apply negb_true_iff, Z.eqb_neq in Hg.
    by apply (pr_mono _ _ _ HP (NZ p) HM) in Hg; apply Hg, Z.eqb_eq, negb_false_iff.
  - by rewrite (sc_other _ HI), <- (sc_other _ HI') by done.
Qed.

Lemma whiten_pending p s :
  is_node s (NZ p) -> color s (NZ p) = GC_GREY ->
  (size (pending seen (whiten (NZ p) s)) < size (pending seen s))%nat.
Proof.
  intros Hn Hc. apply (raw_pending_lt seen [] [NZ p] [] _ _ p); [|set_solver].
  apply raw_enter; [done| |done|].
  - apply negb_false_iff, Z.eqb_eq, Hc.
  - apply negb_true_iff, Z.eqb_neq. gc_words.
Qed.

Lemma whiten_pending_le n s :
  is_node s n -> color s n = GC_GREY -> (size (pending seen (whiten n s)) <= size (pending seen s))%nat.
Proof.
  intros Hn Hc. eapply (raw_pending seen [] [n] []). apply raw_enter; [done| |done|].
  - apply negb_false_iff, Z.eqb_eq, Hc.
  - apply negb_true_iff, Z.eqb_neq. gc_words.
Qed.

(** *** The code *)

Definition scan_ok (N : nat) (visit : zptr -> gcmd unit) : Prop := forall s p Q,
  scan_inv s -> is_Some (type_at s1 p) -> plain_nodes s1 [p] ⊆ M -> (size (pending seen s) < N)%nat ->
  (forall s', scan_inv s' -> scanned (plain_nodes s1 [p]) s s' -> Q tt s') -> wp (visit p) Q s.

Lemma wp_scan_each N visit l s Q :
  scan_ok N visit -> scan_inv s -> Forall (fun p => is_Some (type_at s1 p)) l -> plain_nodes s1 l ⊆ M ->
  (size (pending seen s) < N)%nat ->
  (forall s', scan_inv s' -> scanned (plain_nodes s1 l) s s' -> Q tt s') -> wp (each visit l) Q s.
Proof.
  intros Hv. revert s Q. induction l as [|p l IH]; intros s Q HI Hl HM Hlt HQ; simpl.
  { apply wp_ret, HQ; [done|]. apply scanned_refl. intros m Hm. by apply elem_of_nil in Hm. }
  apply Forall_cons in Hl as [Hp Hl]. change (p :: l) with ([p] ++ l) in HM, HQ. rewrite plain_nodes_app in HM, HQ.
  assert (plain_nodes s1 [p] ⊆ M) as HM1 by set_solver. assert (plain_nodes s1 l ⊆ M) as HM2 by set_solver.
  apply wp_bind, Hv; [done..|]. intros s' HI' HP. apply IH; [done..| |].
  - pose proof (scanned_pending _ _ _ HI HI' HP). lia.
  - intros s'' HI'' HP'. apply HQ; [done|]. by eapply scanned_app.
Qed.

(** Blackening below a node with references from outside. *)
Lemma wp_scan_zval_black p s Q :
  scan_inv s -> NZ p ∈ M -> color s (NZ p) = GC_GREY -> 0 < rc s (NZ p) ->
  (forall s', scan_inv s' -> scanned [NZ p] s s' -> Q tt s') ->
  wp (n ← nesting; zval_scan_black n p) Q s.
Proof.
  intros HI Hp Hc Hrc HQ. apply wp_bind, wp_gets.
  assert (is_node s (NZ p)) as Hn by by apply (same_node _ _ _ (sc_graph _ HI)), M_nodes.
  apply wp_zval_scan_black; [apply HI|by apply node_there in Hn| |apply pending_nesting|].
  - intros _. apply Z.eqb_neq. unfold color in Hc. by rewrite Hc.
  - intros T F s'. rewrite plain_nodes_one. simpl in Hn. rewrite Hn. intros HS.
    destruct (scan_inv_black _ _ _ _ _ HI Hp Hc Hrc HS) as (HI' & B & HT). apply HQ; [done|].
    by eapply blackened_scanned.
Qed.

Lemma wp_scan_object_black h s Q :
  scan_inv s -> NO h ∈ M -> color s (NO h) = GC_GREY -> 0 < rc s (NO h) ->
  (forall s', scan_inv s' -> scanned [NO h] s s' -> Q tt s') ->
  wp (n ← nesting; zobj_scan_black n h) Q s.
Proof.
  intros HI Hp Hc Hrc HQ. apply wp_bind, wp_gets.
  assert (is_node s (NO h)) as Hn by by apply (same_node _ _ _ (sc_graph _ HI)), M_nodes.
  apply wp_zobj_scan_black; [by apply scan_black_child, wp_zval_scan_black|apply HI|done| |apply pending_nesting|].
  - apply Z.eqb_neq. unfold color in Hc. by rewrite Hc.
  - intros T F s' HS. destruct (scan_inv_black _ _ _ _ _ HI Hp Hc Hrc HS) as (HI' & B & HT). apply HQ; [done|].
    by eapply blackened_scanned.
Qed.

(** An object: what [zval_scan] and [zobj_scan] both do with it. *)
Lemma wp_scan_object N h s Q :
  scan_ok N (zval_scan N) -> scan_inv s -> NO h ∈ M -> (size (pending seen s) < N)%nat ->
  (forall s', scan_inv s' -> scanned [NO h] s s' -> Q tt s') ->
  wp (o ← oget h;
      if GC_GET_COLOR (buffered o) =? GC_GREY then
        if 0 <? refcount o then n ← nesting; zobj_scan_black n h
        else
          oupd h (fun o => set_buffered (GC_SET_COLOR (buffered o) GC_WHITE) o) ;;
          each_child (zval_scan N) o
      else mret tt) Q s.
Proof.
  intros Hok HI Hh Hlt HQ. pose proof (sc_graph _ HI) as G.
  assert (is_node s (NO h)) as Hn by by apply (same_node _ _ _ G), M_nodes.
  destruct (node_obj _ _ Hn) as (m & o & _ & _ & Ho). apply wp_bind. eapply wp_oget; [done|].
  assert (word s (NO h) = buffered o) as Hw by (simpl; by rewrite Ho).
  assert (rc s (NO h) = refcount o) as Hr by (simpl; by rewrite Ho).
  destruct (GC_GET_COLOR (buffered o) =? GC_GREY) eqn:Hc.
  2: { apply wp_ret, HQ; [done|]. apply scanned_refl. intros k ->%list_elem_of_singleton.
       apply Z.eqb_neq in Hc. unfold color. by rewrite Hw. }
  apply Z.eqb_eq in Hc. rewrite <- Hw in Hc. fold (color s (NO h)) in Hc.
  destruct (0 <? refcount o) eqn:Hz; [apply Z.ltb_lt in Hz|apply Z.ltb_ge in Hz]; rewrite <- Hr in Hz.
  { by apply wp_scan_object_black. }
  apply wp_bind. eapply (wp_oupd_word h (GC_SET_COLOR (word s (NO h)) GC_WHITE)); [done| |].
  { intros o' Ho'. simplify_eq. by rewrite Hw. }
  fold (whiten (NO h) s). eapply wp_eq; [apply each_child_each|].
  assert (refs_at s1 h = Some (valid o, get_gc o)) as Href by by rewrite <- (same_refs _ _ G), (refs_of _ _ _ Ho).
  assert (kids s1 (NO h) = plain_nodes s1 (pointers (valid o, get_gc o))) as Hk by (simpl; by rewrite Href).
  eapply wp_scan_each; [done|by apply scan_inv_white| | | |].
  - rewrite <- (same_refs _ _ G) in Href. eapply Forall_impl; [eapply closed_refs; [apply (sc_ready _ HI)|done]|].
    intros q. cbv beta. by rewrite (same_type _ _ G).
  - rewrite <- Hk. intros k. by apply M_closed.
  - pose proof (whiten_pending_le _ _ Hn Hc). lia.
  - intros s' HI' HP. apply HQ; [done|]. apply whiten_scanned; try done. by rewrite Hk.
Qed.

Lemma wp_zval_scan N : scan_ok N (zval_scan N).
Proof.
  induction N as [|N IH]; intros s p Q HI Hp HM Hlt HQ; [lia|]. pose proof (sc_graph _ HI) as G.
  rewrite <- (same_type _ _ G) in Hp. destruct (there_zval s p Hp) as (z & Hz & Ht).
  assert (word s (NZ p) = u_word z) as Hw by (simpl; by rewrite Hz).
  assert (rc s (NZ p) = refcount__gc z) as Hr by (simpl; by rewrite Hz).
  cbn [zval_scan]. unfold GC_ZVAL_GET_COLOR. apply wp_bind, wp_bind. eapply wp_zget; [done|]. apply wp_ret.
  rewrite plain_nodes_one in HM, HQ. rewrite <- (same_plain _ _ _ G) in HM, HQ.
  destruct (GC_GET_COLOR (u_word z) =? GC_GREY) eqn:Hc.
  2: { apply wp_ret, HQ; [done|]. apply scanned_refl. intros k. destruct (plain s p); [|by intros ?%elem_of_nil].
       intros ->%list_elem_of_singleton. apply Z.eqb_neq in Hc. unfold color. by rewrite Hw. }
  apply Z.eqb_eq in Hc. rewrite <- Hw in Hc. fold (color s (NZ p)) in Hc.
  assert (is_globals (z_type z) = false) as Hng.
  { destruct (z_type z) eqn:E; try done. pose proof (ready_globals _ (sc_ready _ HI) _ _ Ht) as Hg.
    unfold color in Hc. rewrite GC_GET_COLOR_mod in Hc. rewrite Hc in Hg. by destruct Hg. }
  assert (plain s p = true) as Hpl by by rewrite (plain_of _ _ _ Ht), Hng.
  rewrite Hpl in HM, HQ. assert (NZ p ∈ M) as HpM by set_solver.
  apply wp_bind. eapply wp_zget; [done|].
  destruct (0 <? refcount__gc z) eqn:H0; [apply Z.ltb_lt in H0|apply Z.ltb_ge in H0]; rewrite <- Hr in H0.
  { by apply wp_scan_zval_black. }
  unfold GC_ZVAL_SET_COLOR. apply wp_bind.
  eapply (wp_zupd_word p (GC_SET_COLOR (word s (NZ p)) GC_WHITE)); [done|intros z' Hz'; simplify_eq; by rewrite Hw|].
  fold (whiten (NZ p) s). pose proof (scan_inv_white _ _ HI HpM Hc H0) as HIw.
  pose proof (sc_graph _ HIw) as Gw. pose proof (whiten_pending p s Hpl Hc) as Hpd.
  assert (forall s', scan_inv s' -> scanned (kids s1 (NZ p)) (whiten (NZ p) s) s' -> Q tt s') as HQ'.
  { intros s' HI' HP. apply HQ; [done|]. by apply whiten_scanned. }
  pose proof (M_closed (NZ p)) as Hkids.
  rewrite (same_type _ _ G) in Ht. apply wp_bind, wp_gets. rewrite (bool_decide_ext _ _ (same_store _ _ Gw)).
  assert (kids s1 (NZ p) = [] -> wp (mret tt : gcmd unit) Q (whiten (NZ p) s)) as Hleaf.
  { intros Hk. apply wp_ret, HQ'; [done|]. rewrite Hk. apply scanned_refl. by intros m ?%elem_of_nil. }
  destruct (z_type z) as [l|l|h|]; [| done | |].
  - rewrite (kids_array _ _ _ Ht) in HQ', Hkids. eapply wp_scan_each; try done; [| |lia].
    + rewrite <- (same_type _ _ G) in Ht. eapply Forall_impl; [by eapply closed_array; [apply (sc_ready _ HI)|]|].
      intros q. cbv beta. by rewrite (same_type _ _ G).
    + intros k. by apply Hkids.
  - case_bool_decide as Ho; [|by eapply Hleaf, kids_detached].
    rewrite (kids_object _ _ _ Ht Ho) in HQ', Hkids. apply wp_scan_object; try done; [|lia].
    apply Hkids; set_solver.
  - apply Hleaf. simpl. by rewrite Ht.
Qed.

Lemma wp_zobj_scan N h s Q :
  scan_inv s -> NO h ∈ M -> (size (pending seen s) < N)%nat ->
  (forall s', scan_inv s' -> scanned [NO h] s s' -> Q tt s') -> wp (zobj_scan N h) Q s.
Proof.
  intros HI Hh Hlt HQ. assert (is_node s (NO h)) as Hn by by apply (same_node _ _ _ (sc_graph _ HI)), M_nodes.
  destruct (node_obj _ _ Hn) as (m & o & Hm & _ & _). unfold zobj_scan. apply wp_bind, wp_gets.
  rewrite bool_decide_true by (by rewrite Hm). apply wp_scan_object; try done. apply wp_zval_scan.
Qed.

End scan.
