(* ===== verification/ZendGCRoots.v ===== *)
(** * ZendGCRoots: marking and scanning from the root buffer

    What a state must satisfy before a collection, and what [gc_mark_roots] and
    [gc_scan_roots] leave behind: the candidates (all that can be reached from a purple
    root) with the references among them subtracted, then their colours. *)
From S2P Require Import Prelude Memory ZendGC ZendGCGraph ZendGCSweep ZendGCPasses ZendGCScan.
From stdpp Require Import base option list gmap relations.
Local Open Scope Z_scope.

#[global] Instance root_eq_dec : EqDecision root.
Proof. solve_decision. Defined.

#[global] Instance is_node_dec s n : Decision (is_node s n).
Proof. destruct n; simpl; apply _. Defined.

(** ** Entries of the buffer *)

Abbreviation entry := (rptr * root)%type.

Definition target (e : entry) : node :=
  match e.2 with RootObj h => NO h | RootZval p => NZ p end.

(** The node of the graph an entry stands for, if it is one. *)
Definition root_nodes (s : gc) (e : entry) : list node :=
  match e.2 with
  | RootObj h => if bool_decide (is_Some (obj_at s h)) then [NO h] else []
  | RootZval p => plain_nodes s [p]
  end.

Lemma root_nodes_elem s e k : k ∈ root_nodes s e <-> k = target e /\ is_node s k.
Proof.
  destruct e as [r [h|p]]; unfold root_nodes, target; cbn [snd].
  - case_bool_decide as Ho; [rewrite list_elem_of_singleton; naive_solver|].
    split; [by intros ?%elem_of_nil|]. by intros [-> ?].
  - rewrite plain_nodes_elem. setoid_rewrite list_elem_of_singleton. naive_solver.
Qed.

Lemma root_nodes_same s s' e : same_graph s s' -> root_nodes s' e = root_nodes s e.
Proof.
  intros HG. unfold root_nodes. destruct (e.2) as [h|p]; [|by apply same_plain_nodes].
  rewrite (bool_decide_ext (is_Some (obj_at s' h)) (is_Some (obj_at s h))); [done|].
  by rewrite <- !refs_obj, (same_refs _ _ HG).
Qed.

(** The target is there, or it is an object and the store is gone. *)
Definition entry_ok (s : gc) (e : entry) : Prop :=
  is_there s (target e) \/ (exists h, e.2 = RootObj h) /\ object_buckets s = None.

Lemma there_same s s' n : same_graph s s' -> is_there s' n <-> is_there s n.
Proof.
  intros HG. destruct n as [p|h]; simpl; [by rewrite (same_type _ _ HG)|].
  by rewrite <- !refs_obj, (same_refs _ _ HG).
Qed.

Lemma entry_ok_same s s' e : same_graph s s' -> entry_ok s e -> entry_ok s' e.
Proof.
  intros HG [H|[He Ho]]; [left; by apply (there_same _ _ _ HG)|right]. split; [done|].
  apply eq_None_not_Some. rewrite (same_store _ _ HG), Ho. by intros [].
Qed.

Lemma entry_object s r h :
  entry_ok s (r, RootObj h) ->
  if bool_decide (is_Some (object_buckets s)) then is_node s (NO h) else ~ is_there s (NO h).
Proof.
  intros [H|[_ Ho]]; unfold target in *; cbn [snd] in *.
  - destruct (node_obj _ _ H) as (m & o & Hm & _). by rewrite bool_decide_true by by rewrite Hm.
  - rewrite bool_decide_false by by (rewrite Ho; intros []). simpl. unfold obj_at. rewrite Ho. by intros [].
Qed.

(** *** Removing an entry *)

Definition dropped (r : rptr) (s : gc) : gc :=
  set_unused (r :: unused s) (set_roots (filter (fun x => x.1 <> r) (roots s)) s).

Lemma wp_remove_from_buffer e Q s : e ∈ roots s -> Q tt (dropped e.1 s) -> wp (gc_remove_from_buffer e.1) Q s.
Proof.
  intros He HQ. exists tt, (dropped e.1 s). unfold gc_remove_from_buffer. rewrite decide_True; [done|].
  by apply list_elem_of_fmap_2.
Qed.

Lemma dropped_graph r s : same_graph s (dropped r s).
Proof. by split. Qed.

Lemma dropped_ready r s : ready s -> ready (dropped r s).
Proof. intros [Hc Hf Hg]. split; [|done|done]. eapply closed_same; [apply dropped_graph|done]. Qed.

(** The word of the target without its address. *)
Definition cleared (n : node) (s : gc) : gc := put_word n (GC_SET_ADDRESS (word s n) NULL) s.

Lemma word_cleared n m s : is_there s n -> word (cleared n s) m = if decide (m = n) then word s n mod 4 else word s m.
Proof. intros Hn. unfold cleared. rewrite word_put_word by done. by rewrite GC_SET_ADDRESS_NULL. Qed.

Lemma color_cleared n m s : is_there s n -> color (cleared n s) m = color s m.
Proof.
  intros Hn. unfold color. rewrite word_cleared by done. case_decide; [subst|done].
  rewrite !GC_GET_COLOR_mod. apply Zmod_mod.
Qed.

Lemma address_cleared n m s : is_there s n -> address (cleared n s) m = if decide (m = n) then NULL else address s m.
Proof.
  intros Hn. unfold address. rewrite word_cleared by done. case_decide; [|done].
  rewrite GC_ADDRESS_div, Z.div_small; [done|]. apply Z.mod_pos_bound. lia.
Qed.

Lemma cleared_roots n s : roots (cleared n s) = roots s.
Proof. apply put_word_same. Qed.

Lemma cleared_graph n s : same_graph s (cleared n s).
Proof. apply put_word_same. Qed.

Lemma cleared_ready n s : is_there s n -> ready s -> ready (cleared n s).
Proof.
  intros Hn [Hc Hf Hg]. split.
  - by eapply closed_same; [apply cleared_graph|].
  - unfold cleared. by rewrite to_free_put_word.
  - intros p l Hp. rewrite (same_type _ _ (cleared_graph n s)) in Hp. rewrite word_cleared by done.
    case_decide as E; [|by eapply Hg]. rewrite Zmod_mod, <- E. by eapply Hg.
Qed.

Lemma filter_ids_head (e : entry) l :
  NoDup (e :: l).*1 -> filter (fun x : entry => x.1 <> e.1) (e :: l) = l.
Proof.
  rewrite fmap_cons, NoDup_cons. intros [He _]. rewrite filter_cons_False by tauto.
  assert (forall x, x ∈ l -> x.1 <> e.1) as Hl
    by (intros x Hx Heq; apply He; rewrite <- Heq; by apply list_elem_of_fmap_2).
  clear He. induction l as [|x l IH]; [done|]. rewrite filter_cons_True by set_solver. f_equal. set_solver.
Qed.

Lemma ids_inj (l : list entry) e e' : NoDup l.*1 -> e ∈ l -> e' ∈ l -> e.1 = e'.1 -> e = e'.
Proof.
  intros Hnd (i & Hi)%list_elem_of_lookup (j & Hj)%list_elem_of_lookup Heq.
  assert (i = j) as ->; [|congruence]. eapply NoDup_lookup; [exact Hnd|by rewrite list_lookup_fmap, Hi|].
  by rewrite list_lookup_fmap, Hj, Heq.
Qed.

(** ** States to collect from *)

Record gc_wf (s : gc) : Prop := {
  wf_closed : closed s;
  wf_globals : globals_ok s;
  wf_range : forall n, is_node s n -> 0 <= rc s n < 2 ^ 32 - 1;
  (** a count is never less than the references there are *)
  wf_counts : forall T n, NoDup T -> (forall m, m ∈ T -> is_node s m) -> is_node s n ->
    cnt n (kids_of s T) <= rc s n;
  wf_colors : forall n, is_node s n -> color s n = GC_BLACK \/ color s n = GC_PURPLE;
  wf_ids : NoDup (roots s).*1;
  wf_roots : forall e, e ∈ roots s -> entry_ok s e;
  wf_entries : forall e, e ∈ roots s -> is_there s (target e) -> address s (target e) = e.1 /\ e.1 <> NULL;
  wf_address : forall n, is_there s n -> address s n <> NULL -> exists e, e ∈ roots s /\ target e = n
}.

(** A node that can be reached from a purple root. *)
Definition candidate (s : gc) (n : node) : Prop := exists e, e ∈ roots s /\ is_node s (target e) /\
  color s (target e) = GC_PURPLE /\ rtc (below s) (target e) n.

(** ** Marking *)

(** The entries [l] are still to be looked at; [M] is marked. *)
Record marked (s0 : gc) (l : list entry) (M : list node) (s : gc) : Prop := {
  mk_graph : same_graph s0 s;
  mk_ready : ready s;
  mk_free : zval_to_free s = zval_to_free s0;
  mk_nodup : NoDup M;
  mk_nodes : forall n, n ∈ M -> is_node s0 n;
  mk_closed : forall n k, n ∈ M -> k ∈ kids s0 n -> k ∈ M;
  mk_grey : forall n, is_node s0 n -> color s n = GC_GREY <-> n ∈ M;
  mk_color : forall n, is_node s0 n -> n ∉ M -> color s n = color s0 n;
  mk_rc : forall n, is_node s0 n -> rc s n = rc s0 n - cnt n (kids_of s0 M);
  mk_sub : roots s `sublist_of` roots s0;
  mk_entries : forall e, e ∈ roots s -> is_there s0 (target e) -> address s (target e) = e.1;
  mk_address : forall n, is_there s0 n -> address s n <> NULL -> exists e, e ∈ roots s /\ target e = n;
  mk_todo : l ⊆ roots s /\ NoDup l;
  mk_done : forall e, e ∈ roots s -> e ∉ l -> is_node s0 (target e) -> target e ∈ M;
  mk_purple : forall e, e ∈ roots s0 -> e ∉ l -> is_node s0 (target e) -> color s0 (target e) = GC_PURPLE ->
    target e ∈ M;
  mk_reach : forall n, n ∈ M -> exists e, e ∈ roots s /\ e ∉ l /\ target e ∈ M /\
    color s0 (target e) = GC_PURPLE /\ rtc (below s0) (target e) n;
  mk_buffer : (roots s).*1 ++ unused s ≡ₚ (roots s0).*1 ++ unused s0;
  mk_rest : rest s = rest s0;
  mk_globals : forall p l, type_at s0 p = Some (IS_GLOBALS l) -> rc s (NZ p) = rc s0 (NZ p)
}.

Section mark.
Context (s0 : gc) (Hwf : gc_wf s0).

Lemma marked_range l M s : marked s0 l M s -> in_range s.
Proof.
  intros HM n Hn. apply (same_node _ _ _ (mk_graph _ _ _ _ HM)) in Hn. rewrite (mk_rc _ _ _ _ HM) by done.
  pose proof (wf_range _ Hwf n Hn). pose proof (cnt_nonneg n (kids_of s0 M)).
  pose proof (wf_counts _ Hwf M n (mk_nodup _ _ _ _ HM) (mk_nodes _ _ _ _ HM) Hn). lia.
Qed.

(** Words after a grey walk. *)
Lemma grey_walk_words src T F s s' :
  full grey [] src T F s s' ->
  (forall n, is_node s n -> color s' n = GC_GREY <-> color s n = GC_GREY \/ n ∈ T) /\
  (forall n, is_node s n -> n ∉ T -> color s' n = color s n) /\
  (forall n, is_there s n -> address s' n = address s n).
Proof.
  intros HS. pose proof (full_raw _ _ _ _ _ _ _ _ HS) as R.
  assert (F = []) as -> by by apply (sw_links _ _ _ _ _ _ R).
  assert (forall n, is_node s n -> n ∉ T -> word s' n = word s n) as Hk
    by (intros n Hn HT; apply (sw_keep _ _ _ _ _ _ R); [done..|set_solver]).
  assert (forall n, n ∈ T -> word s' n = GC_SET_COLOR (word s n) GC_GREY) as Hc
    by (intros n HT; by apply (sw_changed _ _ _ _ _ _ R)).
  unfold color, address. split_and!.
  - intros n Hn. destruct (decide (n ∈ T)) as [HT|HT]; [|rewrite Hk by done; tauto].
    split; [tauto|intros _]. rewrite Hc by done. gc_words.
  - intros n Hn HT. by rewrite Hk.
  - intros n Hn. destruct (decide (is_node s n)) as [Hn'|Hn'].
    + destruct (decide (n ∈ T)) as [HT|HT]; [rewrite Hc by done; gc_words|by rewrite Hk].
    + destruct n as [p|h]; [|done]. destruct (there_zval _ _ Hn) as (z & Hz & Ht).
      destruct (z_type z) as [|l| |] eqn:E; try (exfalso; apply Hn'; simpl; unfold plain; by rewrite Ht).
      destruct (sw_globals _ _ _ _ _ _ R p l Ht) as [[-> | ->] _]; [done|gc_words].
Qed.

Lemma mark_walk e l M T F s s' :
  marked s0 (e :: l) M s -> color s (target e) = GC_PURPLE ->
  full grey [] (root_nodes s e) T F s s' -> marked s0 l (M ++ T) s'.
Proof.
  intros HM Hcol HS. pose proof (full_raw _ _ _ _ _ _ _ _ HS) as R.
  pose proof (mk_graph _ _ _ _ HM) as G. pose proof (sw_graph _ _ _ _ _ _ R) as G'.
  pose proof (sw_lists _ _ _ _ _ _ R) as (Lr & Lu & Lo).
  destruct (grey_walk_words _ _ _ _ _ HS) as (Wg & Wc & Wa).
  assert (forall n, n ∈ T -> is_node s0 n /\ n ∉ M) as HT.
  { intros n Hn. destruct (sw_new _ _ _ _ _ _ R n Hn) as [Hnode Hv]. apply (same_node _ _ _ G) in Hnode. split; [done|].
    intros HnM. apply (mk_grey _ _ _ _ HM n Hnode) in HnM. apply Z.eqb_neq in Hv. by unfold color in HnM. }
  assert (forall n, is_node s0 n -> color s' n = GC_GREY <-> n ∈ M ++ T) as Hgrey.
  { intros n Hn. rewrite Wg by by apply (same_node _ _ _ G). rewrite (mk_grey _ _ _ _ HM n Hn), elem_of_app. done. }
  assert (NoDup (M ++ T)) as Hnd.
  { apply NoDup_app. split_and!; [apply HM| |apply (sw_nodup _ _ _ _ _ _ R)]. intros n Hn HnT. by apply HT in HnT as [_ ?]. }
  assert (forall n, n ∈ M ++ T -> is_node s0 n) as Hnodes
    by (intros n [Hn|Hn]%elem_of_app; [by apply (mk_nodes _ _ _ _ HM)|by apply HT]).
  pose proof (full_closed _ _ _ _ _ _ _ _ HS) as Hcl. rewrite (kids_of_same _ _ _ G), (root_nodes_same _ _ _ G) in Hcl.
  assert (is_node s0 (target e) -> target e ∈ M ++ T) as He.
  { intros Hn. apply Hgrey; [done|]. apply Z.eqb_eq, Hcl, elem_of_app. left. by apply root_nodes_elem. }
  destruct (mk_todo _ _ _ _ HM) as [Hsub [Hel Hnl]%NoDup_cons]. split.
  - by transitivity s.
  - eapply raw_ready; [exact R|apply HM].
  - pose proof (sw_seg _ _ _ _ _ _ R) as Hs. rewrite (sw_links _ _ _ _ _ _ R eq_refl) in Hs. simpl in Hs.
    rewrite Hs. apply HM.
  - done.
  - done.
  - intros n k [Hn|Hn]%elem_of_app Hk; [apply elem_of_app; left; by eapply (mk_closed _ _ _ _ HM)|].
    apply Hgrey; [by eapply kids_nodes; [apply Hwf|]|]. apply Z.eqb_eq, Hcl, elem_of_app. right.
    apply kids_of_elem. eauto.
  - done.
  - intros n Hn HnMT. rewrite elem_of_app in HnMT. rewrite Wc; [|by apply (same_node _ _ _ G)|tauto].
    apply (mk_color _ _ _ _ HM); tauto.
  - intros n Hn. assert (is_node s n) as Hns by by apply (same_node _ _ _ G).
    pose proof (sw_rc _ _ _ _ _ _ R n Hns) as Hrc. simpl in Hrc. rewrite (sw_links _ _ _ _ _ _ R eq_refl) in Hrc.
    rewrite (kids_of_same _ _ _ G), (mk_rc _ _ _ _ HM n Hn) in Hrc.
    pose proof (sw_range _ _ _ _ _ _ R (marked_range _ _ _ HM) n (proj2 (same_node _ _ _ G') Hns)) as Hr.
    pose proof (wf_range _ Hwf n Hn). pose proof (wf_counts _ Hwf (M ++ T) n Hnd Hnodes Hn) as Hcn.
    rewrite kids_of_app, cnt_app in Hcn |- *. pose proof (cnt_nonneg n (kids_of s0 M)).
    pose proof (cnt_nonneg n (kids_of s0 T)). rewrite !Z.mod_small in Hrc; unfold cnt in *; simpl in *; lia.
  - rewrite Lr. apply HM.
  - intros e' He' Hth. rewrite Lr in He'. rewrite Wa by by apply (there_same _ _ _ G). by apply (mk_entries _ _ _ _ HM).
  - intros n Hth Ha. rewrite Lr. rewrite Wa in Ha by by apply (there_same _ _ _ G). by apply (mk_address _ _ _ _ HM).
  - rewrite Lr. split; [set_solver|done].
  - intros e' He' Hl Hn. rewrite Lr in He'. destruct (decide (e' = e)) as [->|Hne]; [by apply He|].
    apply elem_of_app. left. apply (mk_done _ _ _ _ HM); set_solver.
  - intros e' He' Hl Hn Hp. destruct (decide (e' = e)) as [->|Hne]; [by apply He|].
    apply elem_of_app. left. apply (mk_purple _ _ _ _ HM); set_solver.
  - intros n [Hn|Hn]%elem_of_app.
    + destruct (mk_reach _ _ _ _ HM n Hn) as (e' & H1 & H2 & H3 & H4 & H5). exists e'. rewrite Lr. set_solver.
    + destruct (full_reach _ _ _ _ _ _ _ _ HS n Hn) as (k & [-> Hk]%root_nodes_elem & Hre).
      apply (same_node _ _ _ G) in Hk. exists e. rewrite Lr. split_and!; [set_solver|done|by apply He| |by eapply below_same].
      rewrite <- (mk_color _ _ _ _ HM); [done..|]. intros HeM. apply (mk_grey _ _ _ _ HM _ Hk) in HeM. by rewrite Hcol in HeM.
  - rewrite Lr, Lu. apply HM.
  - rewrite Lo. apply HM.
  - intros p l0 Hp. rewrite <- (mk_globals _ _ _ _ HM p l0 Hp). rewrite <- (same_type _ _ G) in Hp.
    apply (sw_globals _ _ _ _ _ _ R p l0 Hp).
Qed.

Lemma dropped_roots e s : NoDup (roots s).*1 -> e ∈ roots s ->
  roots s ≡ₚ e :: roots (dropped e.1 s) /\ (forall e', e' ∈ roots (dropped e.1 s) <-> e' ∈ roots s /\ e' <> e).
Proof.
  intros Hnd He.
  assert (forall e', e' ∈ roots (dropped e.1 s) <-> e' ∈ roots s /\ e' <> e) as Hr.
  { intros e'. simpl. rewrite list_elem_of_filter. split; [intros [H1 H2]; split; [done|by intros ->]|].
    intros [H1 H2]. split; [|done]. intros Heq. by apply H2, (ids_inj (roots s)). }
  split; [|done]. apply NoDup_Permutation; [by eapply NoDup_fmap_1| |].
  - apply NoDup_cons. split; [rewrite Hr; tauto|]. simpl. apply NoDup_filter. by eapply NoDup_fmap_1.
  - intros e'. rewrite elem_of_cons, Hr. destruct (decide (e' = e)) as [->|]; naive_solver.
Qed.

Lemma mark_remove e l M s :
  marked s0 (e :: l) M s -> is_there s0 (target e) -> color s (target e) <> GC_PURPLE ->
  marked s0 l M (dropped e.1 (cleared (target e) s)).
Proof.
  intros HM Hth Hcol. pose proof (mk_graph _ _ _ _ HM) as G. set (n := target e) in *.
  assert (is_there s n) as Hs by by apply (there_same _ _ _ G).
  pose proof (cleared_graph n s) as G'. destruct (put_word_same n (GC_SET_ADDRESS (word s n) NULL) s) as [_ (Lr & Lu & Lo)].
  fold (cleared n s) in Lr, Lu, Lo. set (s' := cleared n s) in *.
  destruct (mk_todo _ _ _ _ HM) as [Hsub [Hel Hnl]%NoDup_cons].
  assert (NoDup (roots s').*1) as Hids.
  { rewrite Lr. eapply sublist_NoDup; [apply (wf_ids _ Hwf)|]. apply fmap_sublist, HM. }
  destruct (dropped_roots e s' Hids) as [Hperm Hroots]; [rewrite Lr; set_solver|]. rewrite Lr in Hroots, Hperm.
  assert (forall m, color (dropped e.1 s') m = color s m) as Hc by (intros m; by apply color_cleared).
  assert (forall m, address (dropped e.1 s') m = if decide (m = n) then NULL else address s m) as Ha
    by (intros m; by apply address_cleared).
  destruct (HM) as [? Hrd ? ? ? ? Hg Hcl Hrc Hsl Hen Had _ Hdn Hpu Hre Hbu Hrs Hgl]. split; try done.
  - transitivity s; [done|]. by transitivity s'.
  - by apply dropped_ready, cleared_ready.
  - simpl. unfold s', cleared. by rewrite to_free_put_word.
  - intros m Hm. rewrite Hc. by apply Hg.
  - intros m Hm HmM. rewrite Hc. by apply Hcl.
  - intros m Hm. rewrite <- Hrc by done. apply (rc_put_word n).
  - simpl. etrans; [apply sublist_filter|]. by rewrite Lr.
  - intros e' [He' Hne]%Hroots Ht. rewrite Ha. case_decide as Heq; [|by apply Hen]. exfalso. apply Hne.
    apply (ids_inj (roots s)); [by rewrite <- Lr|done|set_solver|].
    rewrite <- (Hen e') by done. rewrite Heq. apply Hen; [set_solver|done].
  - intros m Hm. rewrite Ha. case_decide as Heq; [done|]. intros Hm'. destruct (Had m Hm Hm') as (e' & He' & <-).
    exists e'. split; [|done]. apply Hroots. split; [done|]. by intros ->.
  - split; [|done]. intros e' He'. apply Hroots. split; [set_solver|]. by intros ->.
  - intros e' [He' Hne]%Hroots Hl Hn. apply Hdn; set_solver.
  - intros e' He' Hl Hn Hp. destruct (decide (e' = e)) as [->|Hne]; [|apply Hpu; set_solver].
    destruct (decide (n ∈ M)) as [|HnM]; [done|]. by rewrite Hcl in Hcol.
  - intros m Hm. destruct (Hre m Hm) as (e' & H1 & H2 & H3). exists e'. split_and!; [|set_solver|naive_solver..].
    apply Hroots. split; [done|]. intros ->. set_solver.
  - rewrite <- Hbu, Hperm. simpl. rewrite Lu. solve_Permutation.
  - rewrite <- Hrs. exact Lo.
  - intros p l0 Hp. rewrite <- (Hgl p l0 Hp). exact (rc_put_word n _ s (NZ p)).
Qed.

Lemma mark_skip e l M s : marked s0 (e :: l) M s -> ~ is_there s0 (target e) -> marked s0 l M s.
Proof.
  intros HM Hth. assert (forall e', is_node s0 (target e') -> e' ∉ l -> e' ∉ e :: l) as Hne.
  { intros e' Hn Hl [->|]%elem_of_cons; [|done]. by apply Hth, node_there. }
  destruct HM as [? ? ? ? Hnd ? ? ? ? ? ? ? [Hsub [Hel Hnl]%NoDup_cons] Hdn Hpu Hre ? ? ?]. split; try done.
  - split; [set_solver|done].
  - intros e' He' Hl Hn. by apply Hdn; auto.
  - intros e' He' Hl Hn Hp. by apply Hpu; auto.
  - intros n Hn. destruct (Hre n Hn) as (e' & ? & ? & ? & ?). exists e'. set_solver.
Qed.

Lemma marked_start : zval_to_free s0 mod 4 = 0 -> marked s0 (roots s0) [] s0.
Proof.
  intros Hf. pose proof (fun n Hn => wf_colors _ Hwf n Hn) as Hc.
  split; try done; try (intros n Hn; by apply elem_of_nil in Hn).
  - split; [apply Hwf|done|apply Hwf].
  - constructor.
  - intros n k Hn. by apply elem_of_nil in Hn.
  - intros n Hn. split; [|by intros ?%elem_of_nil]. by destruct (Hc n Hn) as [-> | ->].
  - intros n Hn. unfold cnt. simpl. lia.
  - intros e He Ht. by apply (wf_entries _ Hwf).
  - apply (wf_address _ Hwf).
  - split; [done|]. eapply NoDup_fmap_1, (wf_ids _ Hwf).
Qed.

Lemma marked_todo e l M s : marked s0 (e :: l) M s -> e ∈ roots s.
Proof. intros HM. apply (proj1 (mk_todo _ _ _ _ HM)). set_solver. Qed.

Lemma marked_entry e l M s : marked s0 (e :: l) M s -> entry_ok s e.
Proof.
  intros HM. eapply entry_ok_same; [apply HM|]. apply (wf_roots _ Hwf). eapply elem_of_sublist; [|apply (mk_sub _ _ _ _ HM)].
  apply (proj1 (mk_todo _ _ _ _ HM)). set_solver.
Qed.

Lemma wp_mark_roots_loop l M s Q :
  marked s0 l M s -> (forall M' s', marked s0 [] M' s' -> Q tt s') -> wp (mark_roots_loop l) Q s.
Proof.
  revert M s. induction l as [|[r [h|p]] l IH]; intros M s HM HQ; [by apply wp_ret, (HQ M)|..].
  all: pose proof (mk_graph _ _ _ _ HM) as G; pose proof (mk_ready _ _ _ _ HM) as Hr.
  all: pose proof (marked_entry _ _ _ _ HM) as Hok; cbn [mark_roots_loop].
  - apply wp_bind, wp_gets. apply entry_object in Hok. case_bool_decide as Ho; apply wp_bind.
    2: { apply wp_ret. eapply IH; [|done]. eapply mark_skip; [done|]. by rewrite <- (there_same _ _ _ G). }
    destruct (node_obj _ _ Hok) as (m & o & _ & _ & Hobj). apply wp_bind. eapply wp_oget; [done|].
    assert (word s (NO h) = buffered o) as Hw by (simpl; by rewrite Hobj).
    destruct (GC_GET_COLOR (buffered o) =? GC_PURPLE) eqn:Hc.
    + apply Z.eqb_eq in Hc. rewrite <- Hw in Hc. apply wp_bind, wp_gets.
      apply wp_zobj_mark_grey; [by apply (visit_child grey), wp_zval_mark_grey|done|done|apply pending_nesting|].
      intros T F s' HS. eapply IH; [|done]. eapply mark_walk; [done|done|].
      unfold root_nodes. cbn [snd]. by rewrite bool_decide_true.
    + apply Z.eqb_neq in Hc. rewrite <- Hw in Hc. apply wp_bind.
      eapply (wp_oupd_word h (GC_SET_ADDRESS (word s (NO h)) NULL)); [done|intros o' Ho'; simplify_eq; by rewrite Hw|].
      fold (cleared (NO h) s). apply (wp_remove_from_buffer (r, RootObj h)); [by rewrite cleared_roots; eapply marked_todo|].
      eapply IH; [|done]. eapply (mark_remove (r, RootObj h)); try done.
      by apply (there_same _ _ _ G), node_there.
  - destruct Hok as [Hok|[[? ?] _]]; [|done]. destruct (there_zval _ _ Hok) as (z & Hz & Ht).
    assert (word s (NZ p) = u_word z) as Hw by (simpl; by rewrite Hz).
    unfold GC_ZVAL_GET_COLOR. apply wp_bind, wp_bind. eapply wp_zget; [done|]. apply wp_ret, wp_bind.
    destruct (GC_GET_COLOR (u_word z) =? GC_PURPLE) eqn:Hc.
    + apply Z.eqb_eq in Hc. rewrite <- Hw in Hc. apply wp_bind, wp_gets.
      apply wp_zval_mark_grey; [done|done|apply pending_nesting|].
      intros T F s' HS. eapply IH; [|done]. by eapply mark_walk.
    + apply Z.eqb_neq in Hc. rewrite <- Hw in Hc. apply wp_bind.
      eapply (wp_zupd_word p (GC_SET_ADDRESS (word s (NZ p)) NULL)); [done|intros z' Hz'; simplify_eq; by rewrite Hw|].
      fold (cleared (NZ p) s). apply (wp_remove_from_buffer (r, RootZval p)); [by rewrite cleared_roots; eapply marked_todo|].
      eapply IH; [|done]. eapply (mark_remove (r, RootZval p)); try done.
      by apply (there_same _ _ _ G).
Qed.

Lemma wp_gc_mark_roots Q :
  zval_to_free s0 mod 4 = 0 -> (forall M s', marked s0 [] M s' -> Q tt s') -> wp gc_mark_roots Q s0.
Proof. intros Hf HQ. apply wp_bind, wp_gets. by eapply wp_mark_roots_loop; [apply marked_start|]. Qed.

(** The marked nodes are the candidates. *)
Lemma marked_candidates M s n : marked s0 [] M s -> n ∈ M <-> candidate s0 n.
Proof.
  intros HM. split.
  - intros Hn. destruct (mk_reach _ _ _ _ HM n Hn) as (e & He & _ & HeM & Hc & Hre). exists e. split_and!; try done.
    + eapply elem_of_sublist; [done|apply HM].
    + by apply (mk_nodes _ _ _ _ HM).
  - intros (e & He & Hn & Hc & Hre). assert (target e ∈ M) as HeM.
    { apply (mk_purple _ _ _ _ HM); [done|by intros ?%elem_of_nil|done..]. }
    clear Hn Hc He. revert HeM. generalize (target e) Hre. clear e Hre. intros x Hre.
    induction Hre as [|x y z Hxy _ IH]; intros Hx; [done|]. apply IH. by eapply (mk_closed _ _ _ _ HM).
Qed.
End mark.

(** ** Scanning *)

Section scan_roots.
Context (s0 : gc) (Hwf : gc_wf s0) (M : list node) (s1 : gc) (HM : marked s0 [] M s1).

Lemma marked_M_nodes n : n ∈ M -> is_node s1 n.
Proof. intros Hn. by apply (same_node _ _ _ (mk_graph _ _ _ _ HM)), (mk_nodes _ _ _ _ HM). Qed.

Lemma marked_M_closed n k : n ∈ M -> k ∈ kids s1 n -> k ∈ M.
Proof. rewrite (same_kids _ _ _ (mk_graph _ _ _ _ HM)). apply (mk_closed _ _ _ _ HM). Qed.

Lemma marked_M_bound n : is_node s1 n -> 0 <= rc s1 n /\ rc s1 n + cnt n (kids_of s1 M) < 2 ^ 32.
Proof.
  intros Hn. pose proof (marked_range _ Hwf _ _ _ HM n Hn). apply (same_node _ _ _ (mk_graph _ _ _ _ HM)) in Hn.
  rewrite (kids_of_same _ _ _ (mk_graph _ _ _ _ HM)). pose proof (mk_rc _ _ _ _ HM n Hn). pose proof (wf_range _ Hwf n Hn). lia.
Qed.

Lemma scan_start : scan_inv M s1 s1.
Proof.
  assert (forall n, n ∈ M -> color s1 n = GC_GREY) as Hg
    by (intros n Hn; apply (mk_grey _ _ _ _ HM); [by apply (mk_nodes _ _ _ _ HM)|done]).
  split; try done.
  - apply HM.
  - split; [by left|done].
  - intros n Hn. by left; apply Hg.
  - intros n k Hn Hb. unfold is_black in Hb. by rewrite Hg in Hb.
  - intros n Hn. replace (blacks M s1) with (@nil node); [unfold cnt; simpl; lia|]. symmetry. apply elem_of_nil_inv.
    intros m [Hb Hm]%list_elem_of_filter. unfold is_black in Hb. by rewrite Hg in Hb.
  - intros n Hn Hw. by rewrite Hg in Hw.
  - intros n Hn Hb. unfold is_black in Hb. by rewrite Hg in Hb.
Qed.

Lemma wp_scan_roots_loop l s Q :
  scan_inv M s1 s -> (forall e, e ∈ l -> entry_ok s1 e /\ root_nodes s1 e ⊆ M) ->
  (forall s', scan_inv M s1 s' -> scanned M s1 (l ≫= root_nodes s1) s s' -> Q tt s') ->
  wp (scan_roots_loop l) Q s.
Proof.
  revert s Q. induction l as [|[r [h|p]] l IH]; intros s Q HI Hl HQ; cbn [scan_roots_loop].
  { apply wp_ret, HQ; [done|]. apply scanned_refl. by intros m ?%elem_of_nil. }
  all: destruct (Hl _ (list_elem_of_here _ _)) as [Hok Hsub]; pose proof (sc_graph _ _ _ HI) as G.
  all: assert (forall e, e ∈ l -> entry_ok s1 e /\ root_nodes s1 e ⊆ M) as Hl' by (intros e He; apply Hl; set_solver).
  all: apply wp_bind, wp_gets, wp_bind.
  - assert (forall s', scan_inv M s1 s' -> scanned M s1 (root_nodes s1 (r, RootObj h)) s s' ->
      wp (scan_roots_loop l) Q s') as Hnext.
    { intros s' HI' HP. apply IH; [done..|]. intros s'' HI'' HP'. apply HQ; [done|].
      rewrite bind_cons. eapply scanned_app; [apply marked_M_closed|done..]. }
    apply entry_object in Hok. unfold root_nodes in Hsub, Hnext. cbn [snd] in Hsub, Hnext.
    destruct (bool_decide_reflect (is_Some (object_buckets s1))) as [Ho|Ho].
    + simpl in Hok. rewrite bool_decide_true in Hsub, Hnext by done.
      eapply wp_zobj_scan; [apply HM|apply marked_M_nodes|apply marked_M_closed|apply marked_M_bound|..]; try done.
      * set_solver.
      * apply pending_nesting.
    + rewrite bool_decide_false in Hnext by done. unfold zobj_scan. apply wp_bind, wp_gets.
      rewrite bool_decide_false; [|by rewrite (same_store _ _ G)]. apply wp_ret, Hnext; [done|].
      apply scanned_refl. by intros m ?%elem_of_nil.
  - destruct Hok as [Hok|[[? ?] _]]; [|done].
    eapply wp_zval_scan; [apply HM|apply marked_M_nodes|apply marked_M_closed|apply marked_M_bound|..]; try done.
    + apply pending_nesting.
    + intros s' HI' HP. apply IH; [done..|]. intros s'' HI'' HP'. apply HQ; [done|].
      rewrite bind_cons. eapply scanned_app; [apply marked_M_closed|done..].
Qed.

(** Everything marked is black or white when the scan is over. *)
Definition scan_done (s2 : gc) : Prop :=
  scan_inv M s1 s2 /\ forall n, n ∈ M -> color s2 n = GC_WHITE \/ color s2 n = GC_BLACK.

Lemma wp_gc_scan_roots Q : (forall s2, scan_done s2 -> Q tt s2) -> wp gc_scan_roots Q s1.
Proof.
  intros HQ. apply wp_bind, wp_gets. pose proof (mk_graph _ _ _ _ HM) as G. apply wp_scan_roots_loop; [apply scan_start| |].
  - intros e He. split.
    + eapply entry_ok_same; [done|]. apply (wf_roots _ Hwf). eapply elem_of_sublist; [done|apply HM].
    + intros k [-> Hk]%root_nodes_elem. apply (mk_done _ _ _ _ HM); [done|by intros ?%elem_of_nil|].
      by apply (same_node _ _ _ G).
  - intros s2 HI HP. apply HQ. split; [done|]. intros n Hn.
    assert (color s2 n <> GC_GREY) as Hng; [|by destruct (sc_colors _ _ _ HI n Hn) as [|[|]]; auto].
    destruct (mk_reach _ _ _ _ HM n Hn) as (e & He & _ & HeM & _ & Hre).
    assert (color s2 (target e) <> GC_GREY) as Hroot.
    { apply (pr_done _ _ _ _ _ HP), list_elem_of_bind. exists e. split; [|done]. apply root_nodes_elem.
      split; [done|]. by apply marked_M_nodes. }
    clear He. revert HeM Hroot. generalize (target e) Hre. clear e Hre. intros x Hre.
    induction Hre as [|x y z Hxy _ IH]; intros Hx Hxg; [done|]. unfold below in Hxy. rewrite <- (same_kids _ _ _ G) in Hxy.
    apply IH; [done|by eapply marked_M_closed|].
    destruct (sc_colors _ _ _ HI x Hx) as [Hc|[Hc|Hc]]; [done| |].
    + eapply (pr_white _ _ _ _ _ HP x); try done. apply (mk_grey _ _ _ _ HM); [by apply (mk_nodes _ _ _ _ HM)|done].
    + pose proof (sc_black _ _ _ HI x y Hx Hc Hxy) as Hb. unfold is_black in Hb. by rewrite Hb.
Qed.
End scan_roots.
