(* ===== verification/ZendGCCollect.v ===== *)
(** * ZendGCCollect: collecting the white nodes

    [gc_collect_roots] empties the root buffer and links the white zvals.  A white node
    that is still in the buffer is not entered from another one, so that its word keeps
    the address of its entry; its own entry collects it later. *)
From S2P Require Import Prelude Memory ZendGC ZendGCGraph ZendGCSweep ZendGCPasses ZendGCScan ZendGCRoots.
From stdpp Require Import base option list gmap relations.
Local Open Scope Z_scope.

(** A walk does not depend on the lists of the buffer. *)
Lemma walk_dropped st l src P T F r s s' :
  walk st l src P T F s s' -> walk st l src P T F (dropped r s) (dropped r s').
Proof.
  intros [R Hc Hr Hl]. destruct R as [G L ? ? ? ? ? ? ? Hrg ? ?].
  assert (same_graph (dropped r s) (dropped r s')) as G'.
  { transitivity s; [by split|]. transitivity s'; [done|by split]. }
  assert (kids_of (dropped r s) T = kids_of s T) as Hk by by apply kids_of_same.
  split; rewrite ?Hk; try done. split; try done. destruct L as (L1 & L2 & L3). split_and!; simpl; [by rewrite L1|by rewrite L2|exact L3].
Qed.

Lemma walk_root st l src P T F s s' e l' :
  walk st l src P T F s s' -> roots s = e :: l' -> e ∈ roots s'.
Proof.
  intros HS Hr. destruct (sw_lists _ _ _ _ _ _ (full_raw _ _ _ _ _ _ _ _ HS)) as (Lr & _).
  rewrite Lr, Hr. set_solver.
Qed.

Lemma white_word s n : color s n = GC_WHITE -> address s n = NULL -> word s n = GC_WHITE.
Proof. unfold color, address. intros Hc Ha. gc_words. Qed.

Lemma white_word_inv s n : word s n = GC_WHITE -> color s n = GC_WHITE /\ address s n = NULL.
Proof. unfold color, address. by intros ->. Qed.

Section collect.
Context (s2 : gc) (W : list node).
Context (W_spec : forall n, n ∈ W <-> is_node s2 n /\ color s2 n = GC_WHITE).

(** The entries [l] remain, [T] is collected and its zvals are linked as [F]; the nodes
    in [X] have just lost their entry and are about to be visited. *)
Record collecting (l : list entry) (X T : list node) (F : list zptr) (s : gc) : Prop := {
  cl_graph : same_graph s2 s;
  cl_ready : ready s;
  cl_range : in_range s;
  cl_nodup : NoDup T;
  cl_sub : T ⊆ W;
  cl_roots : roots s = l;
  cl_ids : NoDup l.*1;
  cl_ok : forall e, e ∈ l -> entry_ok s2 e;
  cl_entries : forall e, e ∈ l -> is_there s2 (target e) ->
    address s (target e) = e.1 /\ e.1 <> NULL /\ target e ∉ T;
  cl_address : forall n, is_there s2 n -> n ∉ T -> address s n <> NULL -> exists e, e ∈ l /\ target e = n;
  cl_color : forall n, is_node s2 n -> n ∉ T -> color s n = color s2 n;
  cl_objects : forall h, NO h ∈ T -> word s (NO h) = GC_PURPLE;
  cl_visited : forall n, n ∈ T -> vis white (word s n) = true;
  cl_closed : forall n k, n ∈ T -> k ∈ kids s2 n -> k ∈ W -> k ∈ T \/ k ∈ X \/ exists e, e ∈ l /\ target e = k;
  cl_done : forall e, e ∈ roots s2 -> target e ∈ W -> target e ∈ T \/ target e ∈ X \/ e ∈ l;
  cl_cleared : forall n, n ∈ X -> is_there s2 n -> address s n = NULL;
  cl_links : F ≡ₚ omap zval_of T;
  cl_seg : seg (word s) (zval_to_free s) F (zval_to_free s2);
  cl_rc : forall n, is_node s2 n -> rc s n mod 2 ^ 32 =
    (rc s2 n + w_edge white n * cnt n (kids_of s2 T) + cnt n (NZ <$> F)) mod 2 ^ 32;
  cl_buffer : l.*1 ++ unused s ≡ₚ (roots s2).*1 ++ unused s2;
  cl_rest : rest s = rest s2;
  cl_globals : forall p l, type_at s2 p = Some (IS_GLOBALS l) -> rc s (NZ p) = rc s2 (NZ p)
}.

Lemma collect_start :
  ready s2 -> in_range s2 -> NoDup (roots s2).*1 -> (forall e, e ∈ roots s2 -> entry_ok s2 e) ->
  (forall e, e ∈ roots s2 -> is_there s2 (target e) -> address s2 (target e) = e.1 /\ e.1 <> NULL) ->
  (forall n, is_there s2 n -> address s2 n <> NULL -> exists e, e ∈ roots s2 /\ target e = n) ->
  collecting (roots s2) [] [] [] s2.
Proof.
  intros Hr Hrg Hids Hok Hen Had. split; try done; try (intros n Hn; by apply elem_of_nil in Hn).
  - constructor.
  - intros e He Ht. destruct (Hen e He Ht). split_and!; [done..|]. by intros ?%elem_of_nil.
  - intros n Hn _. by apply Had.
  - intros n k Hn. by apply elem_of_nil in Hn.
  - intros e He _. by right; right.
  - intros n Hn. unfold cnt. simpl. f_equal. lia.
Qed.

(** The head entry is cleared and removed. *)
Lemma collect_clear e l T F s :
  collecting (e :: l) [] T F s -> is_there s2 (target e) ->
  collecting l [target e] T F (dropped e.1 (cleared (target e) s)).
Proof.
  intros HC Hth. pose proof (cl_graph _ _ _ _ _ HC) as G. set (n := target e) in *.
  assert (is_there s n) as Hs by by apply (there_same _ _ _ G).
  destruct (put_word_same n (GC_SET_ADDRESS (word s n) NULL) s) as [_ (Lr & Lu & Lo)].
  fold (cleared n s) in Lr, Lu, Lo. pose proof (cleared_graph n s) as G'. set (s' := cleared n s) in *.
  destruct (HC) as [_ Hrd Hrg ? ? Hroots Hids Hok Hen Had Hco Hob Hvi Hcl Hdn _ Hli Hsg Hrc Hbu Hrs Hgl].
  destruct (Hen e ltac:(set_solver) Hth) as (Hea & Hen0 & HnT). fold n in HnT.
  assert (forall m, color (dropped e.1 s') m = color s m) as Hc by (intros m; by apply color_cleared).
  assert (forall m, address (dropped e.1 s') m = if decide (m = n) then NULL else address s m) as Ha
    by (intros m; by apply address_cleared).
  assert (forall m, m <> n -> word (dropped e.1 s') m = word s m) as Hw.
  { intros m Hm. change (word s' m = word s m). unfold s'. by rewrite word_cleared, decide_False. }
  assert (forall m, m ∈ T -> m <> n) as HTn by (intros m Hm ->; done).
  assert (forall e', e' ∈ l -> e'.1 <> e.1) as Hne.
  { intros e' He' Heq. apply NoDup_cons in Hids as [Hn _]. apply Hn. rewrite <- Heq. by apply list_elem_of_fmap_2. }
  split; try done.
  - transitivity s; [done|]. by transitivity s'.
  - by apply dropped_ready, cleared_ready.
  - intros m Hm. pose proof (rc_put_word n (GC_SET_ADDRESS (word s n) NULL) s m) as E.
    change (0 <= rc s' m < 2 ^ 32). unfold s', cleared. rewrite E. apply Hrg.
    by apply (same_node _ _ _ G'), (same_node _ _ _ (dropped_graph e.1 s')).
  - simpl. rewrite Lr, Hroots. by apply filter_ids_head.
  - by apply NoDup_cons in Hids as [_ ?].
  - intros e' He'. apply Hok. set_solver.
  - intros e' He' Ht. destruct (Hen e' ltac:(set_solver) Ht) as (H1 & H2 & H3). split_and!; try done.
    rewrite Ha, decide_False; [done|]. intros Heq. apply (Hne e' He'). rewrite <- H1, Heq. by unfold n.
  - intros m Hm HmT. rewrite Ha. case_decide as Heq; [done|]. intros Hm'.
    destruct (Had m Hm HmT Hm') as (e' & He' & Ht). exists e'. split; [|done].
    apply elem_of_cons in He' as [->|]; [|done]. by rewrite <- Ht in Heq.
  - intros m Hm HmT. rewrite Hc. by apply Hco.
  - intros h Hh. rewrite Hw by auto. by apply Hob.
  - intros m Hm. rewrite Hw by auto. by apply Hvi.
  - intros m k Hm Hk HkW. destruct (Hcl m k Hm Hk HkW) as [|[?%elem_of_nil|(e' & [->|He']%elem_of_cons & <-)]]; [by left|done| |].
    + right; left. set_solver.
    + right; right. eauto.
  - intros e' He' HeW. destruct (Hdn e' He' HeW) as [|[?%elem_of_nil|[->|]%elem_of_cons]]; [by left|done| |].
    + right; left. set_solver.
    + by right; right.
  - intros m ->%list_elem_of_singleton _. by rewrite Ha, decide_True.
  - eapply seg_ext; [|change (zval_to_free (dropped e.1 s')) with (zval_to_free (cleared n s));
      unfold cleared; rewrite to_free_put_word; exact Hsg].
    intros p Hp. apply Hw, HTn, omap_zval_elem. by rewrite <- Hli.
  - intros m Hm. rewrite <- Hrc by done. f_equal. apply (rc_put_word n).
  - rewrite <- Hbu. simpl. rewrite Lu. solve_Permutation.
  - rewrite <- Hrs. exact Lo.
  - intros p l0 Hp. rewrite <- (Hgl p l0 Hp). exact (rc_put_word n _ s (NZ p)).
Qed.

(** What a white walk does to words. *)
Lemma white_walk_words src T' F' s s' :
  full white [] src T' F' s s' ->
  (forall n, n ∈ T' -> is_node s n /\ word s n = GC_WHITE) /\
  (forall n, is_node s n -> n ∉ T' -> word s' n = word s n) /\
  (forall h, NO h ∈ T' -> word s' (NO h) = GC_PURPLE) /\
  (forall n, is_there s n -> n ∉ T' -> address s' n = address s n).
Proof.
  intros HS. pose proof (full_raw _ _ _ _ _ _ _ _ HS) as R.
  pose proof (full_links _ _ _ _ _ _ _ _ HS eq_refl) as HF. simpl in HF.
  assert (forall n, n ∈ T' -> is_node s n /\ word s n = GC_WHITE) as Hnew.
  { intros n Hn. destruct (sw_new _ _ _ _ _ _ R n Hn) as [H1 H2]. split; [done|].
    by apply negb_false_iff, Z.eqb_eq in H2. }
  assert (forall n, is_node s n -> n ∉ T' -> word s' n = word s n) as Hk.
  { intros n Hn HT. apply (sw_keep _ _ _ _ _ _ R); [done..|]. intros p ->. rewrite HF. by rewrite omap_zval_elem. }
  split_and!; [done|done| |].
  - intros h Hh. pose proof (proj1 (sw_changed _ _ _ _ _ _ R _ Hh)) as Hc. simpl in Hc.
    change (word s' (NO h) = GC_SET_PURPLE (word s (NO h))) in Hc. rewrite Hc. by rewrite (proj2 (Hnew _ Hh)).
  - intros n Hn HT. destruct (decide (is_node s n)) as [Hn'|Hn']; [unfold address; by rewrite Hk|].
    destruct n as [p|h]; [|done]. destruct (there_zval _ _ Hn) as (z & Hz & Ht).
    destruct (z_type z) as [|l| |] eqn:E; try (exfalso; apply Hn'; simpl; unfold plain; by rewrite Ht).
    unfold address. destruct (sw_globals _ _ _ _ _ _ R p l Ht) as [[-> | ->] _]; [done|gc_words].
Qed.

Lemma collect_walk l X src T F T' F' s s' :
  collecting l X T F s -> (forall n, n ∈ X -> n ∈ W -> n ∈ src) ->
  full white [] src T' F' s s' -> collecting l [] (T ++ T') (F' ++ F) s'.
Proof.
  intros HC HX HS. pose proof (full_raw _ _ _ _ _ _ _ _ HS) as R. pose proof (cl_graph _ _ _ _ _ HC) as G.
  pose proof (sw_graph _ _ _ _ _ _ R) as G'. pose proof (sw_lists _ _ _ _ _ _ R) as (Lr & Lu & Lo).
  destruct (white_walk_words _ _ _ _ _ HS) as (Wn & Wk & Wo & Wa).
  pose proof (full_links _ _ _ _ _ _ _ _ HS eq_refl) as HF. simpl in HF.
  destruct (HC) as [_ Hrd Hrg Hnd Hsub Hroots Hids Hok Hen Had Hco Hob Hvi Hcl Hdn Hxc Hli Hsg Hrc Hbu Hrs Hgl].
  assert (forall n, n ∈ T' -> n ∉ T) as HTT.
  { intros n Hn HnT. apply Hvi in HnT. destruct (Wn n Hn) as [_ Hw]. by rewrite Hw in HnT. }
  assert (T' ⊆ W) as HT'.
  { intros n Hn. destruct (Wn n Hn) as [Hns Hw]. apply (same_node _ _ _ G) in Hns. apply W_spec. split; [done|].
    rewrite <- Hco by auto. by apply white_word_inv. }
  assert (forall n, is_there s2 n -> address s n <> NULL -> n ∉ T') as Hbuf.
  { intros n Hn Ha HnT. apply Ha. by apply white_word_inv, Wn. }
  (** a white node that was met is collected, unless it has an entry *)
  assert (forall k, k ∈ W -> vis white (word s' k) = true -> k ∈ T ++ T' \/ exists e, e ∈ l /\ target e = k) as Hmet.
  { intros k Hk Hv. destruct (decide (k ∈ T ++ T')) as [|Hn]; [by left|right]. rewrite elem_of_app in Hn.
    apply W_spec in Hk as [Hkn Hkc]. rewrite Wk in Hv; [|by apply (same_node _ _ _ G)|tauto].
    apply Had; [by apply node_there|tauto|]. intros Ha. rewrite white_word in Hv; [done| |done].
    rewrite Hco; [done..|tauto]. }
  assert (forall k, k ∈ X -> k ∈ W -> k ∈ T ++ T') as HXT.
  { intros k HkX HkW. destruct (Hmet k HkW) as [|(e & He & <-)]; [|done|].
    - apply (full_closed _ _ _ _ _ _ _ _ HS). set_solver.
    - apply W_spec in HkW as [Hkn _]. apply node_there in Hkn. destruct (Hen e He Hkn) as (H1 & H2 & _).
      rewrite Hxc in H1 by done. by destruct H2. }
  split.
  - by transitivity s.
  - by eapply raw_ready.
  - by apply (sw_range _ _ _ _ _ _ R).
  - apply NoDup_app. split_and!; [done| |apply (sw_nodup _ _ _ _ _ _ R)]. intros n ? ?. by eapply HTT.
  - set_solver.
  - by rewrite Lr.
  - done.
  - done.
  - intros e He Ht. destruct (Hen e He Ht) as (H1 & H2 & H3).
    assert (target e ∉ T') as H4 by (apply Hbuf; [done|by rewrite H1]).
    split_and!; [|done|set_solver]. rewrite Wa; [done|by apply (there_same _ _ _ G)|done].
  - intros n Hn HT Ha. rewrite elem_of_app in HT. apply Had; [done|tauto|].
    rewrite Wa in Ha; [done|by apply (there_same _ _ _ G)|tauto].
  - intros n Hn HT. rewrite elem_of_app in HT. unfold color. rewrite Wk; [|by apply (same_node _ _ _ G)|tauto].
    apply Hco; tauto.
  - intros h [Hh|Hh]%elem_of_app; [|by apply Wo]. rewrite Wk; [by apply Hob| |].
    + apply Hsub, W_spec in Hh as [Hh _]. by apply (same_node _ _ _ G).
    + intros Hh'. by eapply HTT.
  - intros n [Hn|Hn]%elem_of_app; [|by apply (sw_changed _ _ _ _ _ _ R)]. eapply raw_vis; [done| |by apply Hvi].
    apply Hsub, W_spec in Hn as [Hn _]. by apply (same_node _ _ _ G).
  - intros n k [Hn|Hn]%elem_of_app Hk HkW.
    + destruct (Hcl n k Hn Hk HkW) as [H|[H|H]]; [left; set_solver|left; by apply HXT|by right; right].
    + destruct (Hmet k HkW) as [|]; [|by left|by right; right].
      apply (full_closed _ _ _ _ _ _ _ _ HS). rewrite (kids_of_same _ _ _ G). apply elem_of_app. right.
      apply kids_of_elem. eauto.
  - intros e He HeW. destruct (Hdn e He HeW) as [H|[H|H]]; [left; set_solver|left; by apply HXT|by right; right].
  - intros n Hn. by apply elem_of_nil in Hn.
  - rewrite HF, Hli, omap_app. solve_Permutation.
  - eapply seg_app; [apply (sw_seg _ _ _ _ _ _ R)|]. eapply seg_ext; [|exact Hsg]. intros p Hp.
    rewrite Hli, omap_zval_elem in Hp. apply Wk.
    + apply Hsub, W_spec in Hp as [Hp _]. by apply (same_node _ _ _ G).
    + intros Hp'. by eapply HTT.
  - intros n Hn. rewrite (sw_rc _ _ _ _ _ _ R) by by apply (same_node _ _ _ G).
    rewrite <- (Z.add_assoc (rc s n)), <- Zplus_mod_idemp_l, Hrc by done.
    rewrite app_nil_l, Zplus_mod_idemp_l, fmap_app, kids_of_app, (kids_of_same _ _ _ G), !cnt_app. f_equal. ring.
  - by rewrite Lu.
  - by rewrite Lo.
  - intros p l0 Hp. rewrite <- (Hgl p l0 Hp). rewrite <- (same_type _ _ G) in Hp.
    apply (sw_globals _ _ _ _ _ _ R p l0 Hp).
Qed.

(** An object entry when the store is gone. *)
Lemma collect_skip e l T F s :
  collecting (e :: l) [] T F s -> ~ is_there s2 (target e) -> collecting l [] T F (dropped e.1 s).
Proof.
  intros HC Hth. destruct (HC) as [G Hrd Hrg ? ? Hroots Hids Hok Hen Had Hco Hob Hvi Hcl Hdn _ Hli Hsg Hrc Hbu Hrs Hgl].
  split; try done.
  - transitivity s; [done|apply dropped_graph].
  - by apply dropped_ready.
  - simpl. rewrite Hroots. by apply filter_ids_head.
  - by apply NoDup_cons in Hids as [_ ?].
  - intros e' He'. apply Hok. set_solver.
  - intros e' He'. apply Hen. set_solver.
  - intros m Hm HmT Ha. destruct (Had m Hm HmT Ha) as (e' & [->|He']%elem_of_cons & <-); [done|eauto].
  - intros m k Hm Hk HkW. destruct (Hcl m k Hm Hk HkW) as [|[|(e' & [->|He']%elem_of_cons & <-)]]; [by left|by right; left| |].
    + apply W_spec in HkW as [Hn%node_there _]. done.
    + right; right. eauto.
  - intros e' He' HeW. destruct (Hdn e' He' HeW) as [|[|[->|]%elem_of_cons]]; [by left|by right; left| |by right; right].
    apply W_spec in HeW as [Hn%node_there _]. done.
  - intros n Hn. by apply elem_of_nil in Hn.
  - rewrite <- Hbu. simpl. solve_Permutation.
Qed.

Lemma wp_collect_roots_loop l T F s Q :
  collecting l [] T F s -> (forall T' F' s', collecting [] [] T' F' s' -> Q tt s') -> wp (collect_roots_loop l) Q s.
Proof.
  revert T F s. induction l as [|[r [h|p]] l IH]; intros T F s HC HQ; [by eapply wp_ret, HQ|..].
  all: pose proof (cl_graph _ _ _ _ _ HC) as G; pose proof (cl_ready _ _ _ _ _ HC) as Hr; cbn [collect_roots_loop].
  all: pose proof (entry_ok_same _ _ _ G (cl_ok _ _ _ _ _ HC _ (list_elem_of_here _ _))) as Hok.
  all: pose proof (cl_roots _ _ _ _ _ HC) as Hro.
  - apply wp_bind, wp_gets. apply entry_object in Hok. case_bool_decide as Ho; apply wp_bind.
    2: { apply wp_ret, wp_bind, (wp_remove_from_buffer (r, RootObj h)); [by rewrite Hro; set_solver|].
         eapply IH; [|done]. apply (collect_skip (r, RootObj h)); [done|].
         by rewrite <- (there_same _ _ _ G). }
    pose proof (node_there _ _ Hok) as Hth.
    apply wp_bind. eapply (wp_oupd_word h (GC_SET_ADDRESS (word s (NO h)) NULL)); [done| |].
    { intros o Hobj. cbn [word]. by rewrite Hobj. }
    fold (cleared (NO h) s). apply wp_bind, wp_gets. apply wp_zobj_collect_white.
    + by apply cleared_ready.
    + by apply (same_node _ _ _ (cleared_graph (NO h) s)).
    + apply pending_nesting.
    + intros T' F' s' HS. apply wp_bind, (wp_remove_from_buffer (r, RootObj h)).
      { by eapply walk_root; [exact HS|rewrite cleared_roots, Hro]. }
      eapply IH; [|done]. apply (walk_dropped _ _ _ _ _ _ r) in HS.
      eapply collect_walk; [by apply (collect_clear (r, RootObj h)); [done|apply (there_same _ _ _ G)]| |exact HS].
      by intros n Hn _.
  - destruct Hok as [Hth|[[? ?] _]]; [|done].
    apply wp_bind. eapply (wp_zupd_word p (GC_SET_ADDRESS (word s (NZ p)) NULL)); [done| |].
    { intros z Hz. cbn [word]. by rewrite Hz. }
    fold (cleared (NZ p) s). apply wp_bind, wp_gets, wp_bind. apply wp_zval_collect_white.
    + by apply cleared_ready.
    + by rewrite (same_type _ _ (cleared_graph (NZ p) s)).
    + apply pending_nesting.
    + intros T' F' s' HS. apply wp_bind, (wp_remove_from_buffer (r, RootZval p)).
      { by eapply walk_root; [exact HS|rewrite cleared_roots, Hro]. }
      eapply IH; [|done]. apply (walk_dropped _ _ _ _ _ _ r) in HS.
      eapply collect_walk; [by apply (collect_clear (r, RootZval p)); [done|apply (there_same _ _ _ G)]| |done].
      intros n Hn [Hnode _]%W_spec. apply list_elem_of_singleton in Hn as ->. unfold target in *. cbn [snd] in *.
      apply plain_nodes_elem. exists p. split_and!; [done|set_solver|].
      rewrite (same_plain _ _ _ (cleared_graph (NZ p) s)), (same_plain _ _ _ G). done.
Qed.
End collect.
