(* ===== verification/ZendGCSpec.v ===== *)
(** * ZendGCSpec: what a collection finds

    The three passes together: [gc_find_garbage] of [ZendGC] finds exactly the candidates that
    nothing outside the candidates holds, and restores everything else. *)
From S2P Require Import Prelude Memory ZendGC ZendGCGraph ZendGCSweep ZendGCPasses ZendGCScan ZendGCRoots ZendGCCollect.
From stdpp Require Import base option list gmap relations.
Local Open Scope Z_scope.

(** A node with more references than [M] holds. *)
Definition held (s : gc) (M : list node) (m : node) : Prop := cnt m (kids_of s M) < rc s m.

(** [W] is the garbage among the candidates [M]. *)
Record is_garbage (s : gc) (M W : list node) : Prop := {
  ig_candidates : NoDup M /\ forall n, n ∈ M <-> candidate s n;
  ig_garbage : NoDup W /\ forall n, n ∈ W <-> n ∈ M /\ ~ exists m, m ∈ M /\ held s M m /\ rtc (below s) m n;
  (** all references to garbage come from garbage *)
  ig_isolated : forall n, n ∈ W -> rc s n = cnt n (kids_of s W)
}.

(** From [s] to [s'], [W] was found to be garbage among the candidates [M], and its zvals
    were linked as [F]. *)
Record garbage_found (s s' : gc) (M W : list node) (F : list zptr) : Prop := {
  gf_garbage : is_garbage s M W;
  gf_list : F ≡ₚ omap zval_of W /\ seg (word s') (free_list s') F FREE_LIST_END;
  (** the zvals have their counts back, those to be freed have one more; an object has
      lost the references of the garbage *)
  gf_zvals : forall p, is_node s (NZ p) ->
    rc s' (NZ p) = rc s (NZ p) + (if decide (NZ p ∈ W) then 1 else 0);
  gf_objects : forall h, is_node s (NO h) -> rc s' (NO h) = rc s (NO h) - cnt (NO h) (kids_of s W);
  gf_words : forall n, is_node s n -> n ∉ W ->
    word s' n = if decide (n ∈ M) then GC_BLACK else color s n;
  gf_purple : forall h, NO h ∈ W -> word s' (NO h) = GC_PURPLE;
  gf_graph : same_graph s s';
  gf_buffer : roots s' = [] /\ unused s' ≡ₚ (roots s).*1 ++ unused s;
  gf_address : forall n, is_there s n -> n ∉ W -> address s' n = NULL;
  gf_globals : globals_ok s' /\ forall p l, type_at s p = Some (IS_GLOBALS l) -> rc s' (NZ p) = rc s (NZ p);
  gf_rest : zval_to_free s' = NULL /\
    rest s' = rest (set_gc_active false (set_free_list (free_list s') (set_gc_runs (u32 (gc_runs s + 1)) s)))
}.

Lemma cnt_zvals n F : NoDup F ->
  cnt n (NZ <$> F) = match n with NZ p => if decide (p ∈ F) then 1 else 0 | NO _ => 0 end.
Proof.
  intros HF. induction HF as [|q F Hq HF IH]; [by destruct n|]. rewrite fmap_cons, cnt_cons, IH.
  destruct n as [p|h]; [|done]. destruct (decide (NZ p = NZ q)) as [[= ->]|Hne].
  - rewrite decide_False by done. rewrite decide_True by set_solver. done.
  - destruct (decide (p ∈ F)); [rewrite decide_True|rewrite decide_False]; set_solver.
Qed.

Lemma nodup_zvals (T : list node) : NoDup T -> NoDup (omap zval_of T).
Proof.
  induction 1 as [|[p|h] T Hn HT IH]; [constructor| |done]. simpl. apply NoDup_cons. split; [|done].
  by rewrite omap_zval_elem.
Qed.

Lemma white_black_perm (s : gc) (M : list node) :
  NoDup M -> (forall n, n ∈ M -> color s n = GC_WHITE \/ color s n = GC_BLACK) ->
  M ≡ₚ blacks M s ++ filter (fun n => color s n = GC_WHITE) M.
Proof.
  intros Hnd Hc. unfold blacks, is_black. apply NoDup_Permutation; [done| |].
  - apply NoDup_app. split_and!; [by apply NoDup_filter| |by apply NoDup_filter].
    intros n [H1 _]%list_elem_of_filter [H2 _]%list_elem_of_filter. by rewrite H1 in H2.
  - intros n. rewrite elem_of_app, !list_elem_of_filter. pose proof (Hc n). tauto.
Qed.

Section found.
Context (s0 : gc) (Hwf : gc_wf s0) (M : list node) (s1 : gc) (HM : marked s0 [] M s1).
Context (s2 : gc) (HD : scan_done M s1 s2).

Definition whites : list node := filter (fun n => color s2 n = GC_WHITE) M.

Let HI : scan_inv M s1 s2 := proj1 HD.
Let G1 : same_graph s0 s1 := mk_graph _ _ _ _ HM.
Let G2 : same_graph s1 s2 := sc_graph _ _ _ HI.

Lemma graph02 : same_graph s0 s2.
Proof. by transitivity s1. Qed.

Lemma whites_elem n : n ∈ whites <-> n ∈ M /\ color s2 n = GC_WHITE.
Proof. unfold whites. rewrite list_elem_of_filter. tauto. Qed.

Lemma whites_spec n : n ∈ whites <-> is_node s2 n /\ color s2 n = GC_WHITE.
Proof.
  rewrite whites_elem, (same_node _ _ _ graph02). split.
  - intros [Hn Hc]. split; [by apply (mk_nodes _ _ _ _ HM)|done].
  - intros [Hn Hc]. split; [|done]. destruct (decide (n ∈ M)) as [|HnM]; [done|]. exfalso.
    unfold color in Hc. rewrite (sc_other _ _ _ HI) in Hc; [|by apply (same_node _ _ _ G1)|done].
    fold (color s1 n) in Hc. rewrite (mk_color _ _ _ _ HM) in Hc by done.
    destruct (wf_colors _ Hwf n Hn) as [E|E]; by rewrite E in Hc.
Qed.

(** The counts after the scan. *)
Lemma scan_rc n : is_node s0 n -> rc s2 n = rc s0 n - cnt n (kids_of s0 whites).
Proof.
  intros Hn. rewrite (sc_rc _ _ _ HI) by by apply (same_node _ _ _ G1). rewrite (mk_rc _ _ _ _ HM) by done.
  rewrite (kids_of_same _ _ _ G1).
  rewrite (cnt_kids_perm s0 n _ _ (white_black_perm s2 M (mk_nodup _ _ _ _ HM) (proj2 HD))), kids_of_app, cnt_app.
  fold whites. lia.
Qed.

Lemma white_isolated n : n ∈ whites -> rc s0 n = cnt n (kids_of s0 whites).
Proof.
  intros [Hn Hc]%whites_elem. pose proof (sc_white _ _ _ HI n Hn Hc) as H0.
  rewrite scan_rc in H0 by by apply (mk_nodes _ _ _ _ HM). lia.
Qed.

Lemma white_not_held n : n ∈ whites -> ~ held s0 M n.
Proof.
  intros Hn Hh. pose proof (white_isolated n Hn) as Hr. unfold held in Hh.
  pose proof (cnt_kids_sub s0 n whites M) as Hs. apply whites_elem in Hn as [Hn _].
  assert (cnt n (kids_of s0 whites) <= cnt n (kids_of s0 M)) as H; [|lia].
  apply Hs; [apply NoDup_filter, HM|]. intros m. rewrite whites_elem. tauto.
Qed.

Lemma black_reach x n : rtc (below s0) x n -> x ∈ M -> is_black s2 x -> is_black s2 n.
Proof.
  induction 1 as [|x y z Hxy _ IH]; intros Hx Hb; [done|].
  apply IH; [by eapply (mk_closed _ _ _ _ HM)|]. eapply (sc_black _ _ _ HI x); [done..|].
  by rewrite (same_kids _ _ _ G1).
Qed.

Lemma whites_garbage n :
  n ∈ whites <-> n ∈ M /\ ~ exists m, m ∈ M /\ held s0 M m /\ rtc (below s0) m n.
Proof.
  split.
  - intros Hn. pose proof (proj1 (whites_elem n) Hn) as [HnM Hc]. split; [done|]. intros (m & Hm & Hh & Hr).
    destruct (proj2 HD m Hm) as [Hw|Hb].
    + apply (white_not_held m); [by apply whites_elem|done].
    + pose proof (black_reach _ _ Hr Hm Hb) as Hnb. unfold is_black in Hnb. by rewrite Hc in Hnb.
  - intros [Hn Hno]. apply whites_elem. split; [done|]. destruct (proj2 HD n Hn) as [|Hb]; [done|]. exfalso.
    apply Hno. destruct (sc_live _ _ _ HI n Hn Hb) as (m & Hm & Hpos & Hr). exists m. split; [done|]. split.
    + unfold held. rewrite (mk_rc _ _ _ _ HM) in Hpos by by apply (mk_nodes _ _ _ _ HM). lia.
    + by eapply below_same.
Qed.

(** What [gc_collect_roots] needs. *)
Lemma scan_address n : is_there s0 n -> address s2 n = address s1 n.
Proof.
  intros Hn. destruct (decide (n ∈ M)) as [HnM|HnM]; [by apply (sc_address _ _ _ HI)|].
  destruct (decide (is_node s1 n)) as [Hn'|Hn'].
  { unfold address. by rewrite (sc_other _ _ _ HI). }
  apply (there_same _ _ _ G1) in Hn. destruct n as [p|h]; [|done]. destruct (there_zval _ _ Hn) as (z & Hz & Ht).
  destruct (z_type z) as [|l| |] eqn:E; try (exfalso; apply Hn'; simpl; unfold plain; by rewrite Ht).
  unfold address. destruct (sc_globals _ _ _ HI p l Ht) as [[-> | ->] _]; [done|gc_words].
Qed.

Lemma scan_range : in_range s2.
Proof.
  eapply scan_inv_range; [apply HM|by eapply marked_M_bound|exact HI].
Qed.

Lemma collecting_start : collecting s2 whites (roots s2) [] [] [] s2.
Proof.
  pose proof (sc_lists _ _ _ HI) as (Lr & _). pose proof graph02 as G.
  assert (forall e, e ∈ roots s2 -> e ∈ roots s0) as Hsub.
  { intros e He. rewrite Lr in He. eapply elem_of_sublist; [done|apply HM]. }
  apply collect_start.
  - apply HI.
  - apply scan_range.
  - rewrite Lr. eapply sublist_NoDup; [apply (wf_ids _ Hwf)|]. apply fmap_sublist, HM.
  - intros e He. eapply entry_ok_same; [exact G|]. apply (wf_roots _ Hwf). auto.
  - intros e He Ht. apply (there_same _ _ _ G) in Ht. rewrite scan_address by done.
    split; [|by apply (wf_entries _ Hwf); auto]. apply (mk_entries _ _ _ _ HM); [by rewrite <- Lr|done].
  - intros n Hn Ha. apply (there_same _ _ _ G) in Hn. rewrite scan_address in Ha by done. rewrite Lr.
    by apply (mk_address _ _ _ _ HM).
Qed.

(** All white nodes are collected. *)
Lemma collect_all T F s3 : collecting s2 whites [] [] T F s3 -> T ≡ₚ whites.
Proof.
  intros HC. apply NoDup_Permutation; [apply HC|apply NoDup_filter, HM|]. intros n.
  split; [by apply (cl_sub _ _ _ _ _ _ _ HC)|]. intros Hn. pose proof (proj1 (whites_elem n) Hn) as [HnM Hc].
  destruct (mk_reach _ _ _ _ HM n HnM) as (e & He & _ & HeM & _ & Hr).
  assert (target e ∈ whites -> target e ∈ T) as Hroot.
  { intros HeW. pose proof (sc_lists _ _ _ HI) as (Lr & _). rewrite <- Lr in He.
    by destruct (cl_done _ _ _ _ _ _ _ HC e He HeW) as [|[?%elem_of_nil|?%elem_of_nil]]. }
  clear He. revert HeM Hroot. generalize (target e) Hr. clear e Hr. intros x Hr.
  induction Hr as [|x y z Hxy Hyz IH]; intros Hx Hroot; [by apply Hroot|].
  apply IH; [done..|by eapply (mk_closed _ _ _ _ HM)|]. intros HyW.
  assert (x ∈ whites) as HxW.
  { apply whites_elem. split; [done|]. destruct (proj2 HD x Hx) as [|Hb]; [done|].
    pose proof (black_reach x z (rtc_l _ _ _ _ Hxy Hyz) Hx Hb) as Hz. unfold is_black in Hz. by rewrite Hc in Hz. }
  unfold below in Hxy. rewrite <- (same_kids _ _ _ graph02) in Hxy.
  by destruct (cl_closed _ _ _ _ _ _ _ HC x y (Hroot HxW) Hxy HyW) as [|[?%elem_of_nil|(? & ?%elem_of_nil & _)]].
Qed.

(** The counts when all is done. *)
Lemma collect_rc T F s3 n :
  collecting s2 whites [] [] T F s3 -> is_node s0 n ->
  rc s3 n = rc s0 n - (1 - w_edge white n) * cnt n (kids_of s0 whites) +
    match n with NZ p => if decide (NZ p ∈ whites) then 1 else 0 | NO _ => 0 end.
Proof.
  intros HC Hn. pose proof (collect_all _ _ _ HC) as HT. pose proof graph02 as G.
  assert (is_node s2 n) as Hn2 by by apply (same_node _ _ _ G).
  pose proof (cl_rc _ _ _ _ _ _ _ HC n Hn2) as Hrc.
  assert (NoDup F) as HF.
  { rewrite (cl_links _ _ _ _ _ _ _ HC). apply nodup_zvals, HC. }
  rewrite cnt_zvals, (kids_of_same _ _ _ G), (cnt_kids_perm _ _ _ _ HT), (scan_rc n Hn) in Hrc by done.
  assert (is_node s3 n) as Hn3 by by apply (same_node _ _ _ (cl_graph _ _ _ _ _ _ _ HC)).
  pose proof (cl_range _ _ _ _ _ _ _ HC n Hn3) as Hr3. pose proof (scan_range n Hn2) as Hr2.
  rewrite (scan_rc n Hn) in Hr2. pose proof (wf_range _ Hwf n Hn) as Hr0.
  pose proof (cnt_nonneg n (kids_of s0 whites)).
  assert (forall p, n = NZ p -> p ∈ F <-> NZ p ∈ whites) as Hin.
  { intros p _. rewrite (cl_links _ _ _ _ _ _ _ HC), omap_zval_elem, <- HT. done. }
  destruct n as [p|h]; simpl w_edge in *.
  - specialize (Hin p eq_refl). rewrite (decide_ext _ (NZ p ∈ whites) _ _ Hin) in Hrc.
    destruct (decide (NZ p ∈ whites)); rewrite !Z.mod_small in Hrc; lia.
  - rewrite !Z.mod_small in Hrc; lia.
Qed.

Lemma collect_address T F s3 n :
  collecting s2 whites [] [] T F s3 -> is_there s0 n -> n ∉ whites -> address s3 n = NULL.
Proof.
  intros HC Hn HnW. rewrite <- (collect_all _ _ _ HC) in HnW. apply (there_same _ _ _ graph02) in Hn.
  destruct (decide (address s3 n = NULL)) as [|Hne]; [done|].
  destruct (cl_address _ _ _ _ _ _ _ HC n Hn HnW Hne) as (e & ?%elem_of_nil & _). done.
Qed.

Lemma collect_globals T F s3 p l :
  collecting s2 whites [] [] T F s3 -> type_at s0 p = Some (IS_GLOBALS l) -> rc s3 (NZ p) = rc s0 (NZ p).
Proof.
  intros HC Hp. rewrite <- (mk_globals _ _ _ _ HM p l Hp). rewrite <- (same_type _ _ G1) in Hp.
  rewrite <- (proj2 (sc_globals _ _ _ HI p l Hp)). rewrite <- (same_type _ _ G2) in Hp.
  by apply (cl_globals _ _ _ _ _ _ _ HC p l).
Qed.

Lemma collect_words T F s3 n :
  collecting s2 whites [] [] T F s3 -> is_node s0 n -> n ∉ whites ->
  word s3 n = if decide (n ∈ M) then GC_BLACK else color s0 n.
Proof.
  intros HC Hn HnW. pose proof (collect_all _ _ _ HC) as HT. pose proof graph02 as G.
  assert (n ∉ T) as HnT by by rewrite HT. assert (is_node s2 n) as Hn2 by by apply (same_node _ _ _ G).
  pose proof (collect_address _ _ _ _ HC (node_there _ _ Hn) HnW) as Ha.
  pose proof (cl_color _ _ _ _ _ _ _ HC n Hn2 HnT) as Hc.
  transitivity (color s3 n); [unfold color, address in *; gc_words|]. rewrite Hc. case_decide as HnM.
  - destruct (proj2 HD n HnM) as [Hw|]; [|done]. by destruct HnW; apply whites_elem.
  - unfold color. rewrite (sc_other _ _ _ HI); [|by apply (same_node _ _ _ G1)|done].
    by apply (mk_color _ _ _ _ HM).
Qed.
End found.

(** ** The whole search *)

Lemma wf_start s s' :
  zvals s' = zvals s -> object_buckets s' = object_buckets s -> roots s' = roots s -> gc_wf s -> gc_wf s'.
Proof.
  intros Hz Ho Hr. destruct s, s'. simpl in *. subst. intros [Hc ? ? ? ? ? ? ? ?].
  split; try done. by destruct Hc; split.
Qed.

Lemma find_garbage s :
  gc_wf s -> gc_active s = false -> roots s <> [] ->
  exists s' M W F, gc_find_garbage s = Some (true, s') /\ garbage_found s s' M W F.
Proof.
  intros Hwf0 Ha Hne. set (s0 := set_gc_active true (set_zval_to_free FREE_LIST_END (set_gc_runs (u32 (gc_runs s + 1)) s))).
  assert (gc_wf s0) as Hwf by by apply (wf_start s).
  assert (wp gc_find_garbage (fun b s' => b = true /\ exists M W F, garbage_found s s' M W F) s) as (b & s' & Hrun & -> & M & W & F & HF).
  2: { by exists s', M, W, F. }
  unfold gc_find_garbage. apply wp_bind, wp_gets, wp_bind, wp_gets. rewrite Ha.
  destruct (roots s) as [|e0 l0] eqn:Hroots; [done|]. clear Hne.
  do 3 apply wp_bind, wp_modify. fold s0. apply wp_bind, (wp_gc_mark_roots s0 Hwf); [done|]. intros M s1 HM.
  apply wp_bind, (wp_gc_scan_roots s0 Hwf M s1 HM). intros s2 HD.
  apply wp_bind, wp_bind, wp_gets.
  eapply (wp_collect_roots_loop s2 (whites M s2)); [by eapply whites_spec|by eapply collecting_start|].
  intros T F s3 HC. do 3 apply wp_bind, wp_modify. apply wp_ret. split; [done|].
  exists M, (whites M s2), F. pose proof (collect_all s0 M s1 HM s2 HD _ _ _ HC) as HT.
  pose proof (fun n => collect_rc s0 Hwf M s1 HM s2 HD T F s3 n HC) as Hrc.
  pose proof (sc_lists _ _ _ (proj1 HD)) as (Lr & Lu & Lo). split.
  - split; [split; [apply HM|]; intros n; by apply (marked_candidates s0 M s1 n HM)| |].
    + split; [apply NoDup_filter, HM|]. by apply (whites_garbage s0 M s1 HM s2 HD).
    + by apply (white_isolated s0 M s1 HM s2 HD).
  - rewrite <- HT. split; [apply HC|]. pose proof (cl_seg _ _ _ _ _ _ _ HC) as Hs.
    rewrite (sc_free _ _ _ (proj1 HD)), (mk_free _ _ _ _ HM) in Hs. exact Hs.
  - intros p Hp. specialize (Hrc (NZ p) Hp). simpl in Hrc |- *. rewrite Hrc. lia.
  - intros h Hh. specialize (Hrc (NO h) Hh). cbn [w_edge white] in Hrc.
    change (rc s3 (NO h) = rc s0 (NO h) - cnt (NO h) (kids_of s0 (whites M s2))). lia.
  - intros n. by apply (collect_words s0 M s1 HM s2 HD T F s3).
  - intros h Hh. rewrite <- HT in Hh. by apply (cl_objects _ _ _ _ _ _ _ HC).
  - transitivity s0; [by split|]. transitivity s2; [by apply (graph02 s0 M s1 HM s2)|].
    transitivity s3; [apply HC|by split].
  - split; [apply HC|]. pose proof (cl_buffer _ _ _ _ _ _ _ HC) as Hb. simpl in Hb |- *.
    rewrite Hb, Lr, Lu. rewrite (mk_buffer _ _ _ _ HM). by simpl; rewrite Hroots.
  - intros n Hn HnW. by apply (collect_address s0 M s1 HM s2 HD T F s3).
  - split; [apply (cl_ready _ _ _ _ _ _ _ HC)|]. intros p l Hp. by apply (collect_globals s0 M s1 HM s2 HD T F s3 p l).
  - split; [done|]. pose proof (cl_rest _ _ _ _ _ _ _ HC) as E. rewrite Lo, (mk_rest _ _ _ _ HM) in E.
    unfold rest in E |- *. simpl in E |- *. congruence.
Qed.


(** ** A heap with a cycle *)

(** An array that holds an object that holds the array, and a second array that the object and
    a variable hold; the first array is a possible root. *)
Definition heap : gc :=
  mkGc (list_to_map
         [ (1%positive, mkZval (IS_ARRAY [2%positive]) 1 (32 + GC_PURPLE));
           (2%positive, mkZval (IS_OBJECT 1) 1 0);
           (3%positive, mkZval (IS_ARRAY []) 2 0) ])
    (Some {[ 1%positive := mkObj false true 0 8 8 8 NULL NULL (Some ([None; Some 1%positive; Some 3%positive], None)) 1 0 ]})
    2 1024 (-1) true false 32 [(32, RootZval 1)] [] 64 (32 + 320000) NULL NULL NULL 0 0.

Definition heap_nodes : list node := [NZ 1; NZ 2; NZ 3; NO 1].

(** The search unlinks the first array and the object's zval from the program, and leaves the
    second array with both of its references. *)
Example heap_search :
  match gc_find_garbage heap with
  | Some (b, s') =>
      b && (free_list s' =? zaddr 2) && (word s' (NZ 2) =? zaddr 1) && (word s' (NZ 1) =? FREE_LIST_END) &&
      (rc s' (NZ 1) =? 2) && (rc s' (NZ 2) =? 2) && (rc s' (NO 1) =? 0) && (rc s' (NZ 3) =? 2) &&
      (word s' (NZ 3) =? GC_BLACK)
  | None => false
  end = true.
Proof. vm_compute. reflexivity. Qed.

Lemma heap_there n : is_there heap n -> n ∈ heap_nodes.
Proof.
  destruct n as [p|h].
  - intros (z & Hz & _)%there_zval. apply elem_of_list_to_map_2 in Hz. unfold heap_nodes. set_solver.
  - intros (m & o & [= <-] & Ho & _)%node_obj. apply lookup_singleton_Some in Ho as [<- _]. set_solver.
Qed.

(** A property of the nodes of the heap, by looking at each of them. *)
Ltac heap_cases Hn :=
  apply heap_there in Hn; unfold heap_nodes in Hn; rewrite !elem_of_cons, elem_of_nil in Hn;
  destruct_or! Hn; simplify_eq.

Lemma heap_closed : closed heap.
Proof.
  split.
  - intros p l Ht. assert (is_there heap (NZ p)) as Hn by by exists (IS_ARRAY l).
    heap_cases Hn; vm_compute in Ht; simplify_eq; repeat constructor; by eexists.
  - intros p h Ht _. assert (is_there heap (NZ p)) as Hn by by exists (IS_OBJECT h).
    heap_cases Hn; vm_compute in Ht; simplify_eq. by eexists.
  - intros h x Ht. assert (is_there heap (NO h)) as Hn by by apply refs_obj; exists x.
    heap_cases Hn; vm_compute in Ht; simplify_eq. repeat constructor; by eexists.
Qed.

Lemma heap_wf : gc_wf heap.
Proof.
  split.
  - apply heap_closed.
  - intros p l Ht. assert (is_there heap (NZ p)) as Hn by by exists (IS_GLOBALS l).
    heap_cases Hn; by vm_compute in Ht.
  - intros n Hn%node_there. heap_cases Hn; by vm_compute.
  - intros T n HT HTn Hn%node_there. transitivity (cnt n (kids_of heap heap_nodes)).
    + apply cnt_kids_sub; [done|]. intros m Hm. by apply heap_there, node_there, HTn.
    + heap_cases Hn; by vm_compute.
  - intros n Hn%node_there. heap_cases Hn; vm_compute; tauto.
  - apply NoDup_singleton.
  - intros e ->%list_elem_of_singleton. left. by eexists.
  - intros e ->%list_elem_of_singleton _. by vm_compute.
  - intros n Hn. heap_cases Hn; intros Ha; try (by destruct Ha). exists (32, RootZval 1). split; [set_solver|done].
Qed.

