(* ===== verification/ZendObjectsStore.v ===== *)
(** * ZendObjectsStore: the object store

    Models src/Zend/zend_objects_API.c on the state of [ZendGC]: the array of buckets with its
    free list, reference counts, and the destruction of objects.  The destructor and the
    free function of an object are pointers to code; what calling them does is given by
    [run_dtor] and [run_free], which return [false] when the callee bails out
    ([zend_try]/[zend_catch]).  A bucket that is reused is written field by field, so a
    bucket that was never used is simply absent; bucket 0 has no handle. *)
From S2P Require Import Prelude Memory ZendGC ZendGCGraph ZendGCSweep.
From stdpp Require Import base option list gmap.
Local Open Scope Z_scope.

(** ** Fields of a bucket *)

Definition set_destructor_called (x : bool) (o : store_object) : store_object :=
  mkObj x (valid o) (apply_count o) (object o) (dtor o) (free_storage o) (clone o) (handlers o) (get_gc o)
    (refcount o) (buffered o).
Definition set_valid (x : bool) (o : store_object) : store_object :=
  mkObj (destructor_called o) x (apply_count o) (object o) (dtor o) (free_storage o) (clone o) (handlers o)
    (get_gc o) (refcount o) (buffered o).
Definition set_object (x : Z) (o : store_object) : store_object :=
  mkObj (destructor_called o) (valid o) (apply_count o) x (dtor o) (free_storage o) (clone o) (handlers o)
    (get_gc o) (refcount o) (buffered o).
Definition set_handlers (x : Z) (o : store_object) : store_object :=
  mkObj (destructor_called o) (valid o) (apply_count o) (object o) (dtor o) (free_storage o) (clone o) x
    (get_gc o) (refcount o) (buffered o).

(** [bucket.free_list.next] is an int in the same union as the [struct _store_object]: it
    occupies the low half of the pointer [object]. *)
Definition free_next (o : store_object) : Z := s32 (object o).
Definition set_free_next (n : Z) (o : store_object) : store_object :=
  set_object (Z.lor (Z.ldiff (object o) (2 ^ 32 - 1)) (u32 n)) o.

(** ** Life of the store *)

Definition zend_objects_store_init (init_size : Z) : gcmd unit :=
  modify (set_buckets ∅) ;;
  modify (set_store_top 1) ;;
  modify (set_store_size init_size) ;;
  modify (set_free_list_head (-1)).

Definition zend_objects_store_destroy : gcmd unit := modify (set_object_buckets None).

Section store.
Context (zend_objects_destroy_object : Z).
Context (run_dtor run_free : Z -> Z -> zhandle -> gcmd bool).
Context (gc_collect_cycles : gcmd unit).

(** The loops go over the handles up to [top], which is read again each time. *)
Fixpoint call_destructors_loop (fuel : nat) (i : Z) : gcmd bool :=
  match fuel with
  | O => cfault
  | S fuel =>
      top ← gets store_top;
      if i <? top then
        let h := Z.to_pos i in
        o ← oget h;
        ok ← (if valid o && negb (destructor_called o) then
                oupd h (set_destructor_called true) ;;
                if negb (dtor o =? NULL) && negb (object o =? NULL) then
                  oupd h (add_oref 1) ;;
                  ok ← run_dtor (dtor o) (object o) h;
                  if ok : bool then
                    oupd h (add_oref (-1)) ;;
                    o ← oget h;
                    (if refcount o =? 0 then GC_REMOVE_ZOBJ_FROM_BUFFER h else mret tt) ;;
                    mret true
                  else mret false
                else mret true
              else mret true);
        if ok : bool then call_destructors_loop fuel (u32 (i + 1)) else mret false
      else mret true
  end.

Definition zend_objects_store_call_destructors (fuel : nat) : gcmd bool := call_destructors_loop fuel 1.

Fixpoint mark_destructed_loop (n : nat) (i : Z) : gcmd unit :=
  match n with
  | O => mret tt
  | S n =>
      let h := Z.to_pos i in
      o ← oget h;
      (if valid o then oupd h (set_destructor_called true) else mret tt) ;;
      mark_destructed_loop n (i + 1)
  end.

Definition zend_objects_store_mark_destructed : gcmd unit :=
  alive ← store_alive;
  if alive : bool then top ← gets store_top; mark_destructed_loop (Z.to_nat (top - 1)) 1 else mret tt.

Fixpoint free_object_storage_loop (fuel : nat) (i : Z) : gcmd bool :=
  match fuel with
  | O => cfault
  | S fuel =>
      top ← gets store_top;
      if i <? top then
        let h := Z.to_pos i in
        o ← oget h;
        ok ← (if valid o then
                GC_REMOVE_ZOBJ_FROM_BUFFER h ;;
                oupd h (set_valid false) ;;
                if negb (free_storage o =? NULL) then run_free (free_storage o) (object o) h else mret true
              else mret true);
        if ok : bool then free_object_storage_loop fuel (u32 (i + 1)) else mret false
      else mret true
  end.

Definition zend_objects_store_free_object_storage (fuel : nat) : gcmd bool := free_object_storage_loop fuel 1.

(** ** Objects *)

(** The handle of a new object: the head of the free list, or the next one. *)
Definition new_handle : gcmd Z :=
  head ← gets free_list_head;
  if negb (head =? -1) then
    o ← oget (Z.to_pos head);
    modify (set_free_list_head (free_next o)) ;;
    mret head
  else
    top ← gets store_top;
    size ← gets store_size;
    (if top =? size then modify (set_store_size (u32 (Z.shiftl size 1))) else mret tt) ;;
    modify (set_store_top (u32 (top + 1))) ;;
    mret top.

(** [gc_data] is what [get_gc] will return for the object. *)
Definition zend_objects_store_put (obj dtor free_storage clone : Z)
    (gc_data : option (list (option zptr) * option (list zptr))) : gcmd Z :=
  handle ← new_handle;
  b ← gets object_buckets;
  match b with
  | Some m =>
      modify (set_buckets (<[Z.to_pos handle :=
        mkObj false true 0 obj (if dtor =? NULL then zend_objects_destroy_object else dtor) free_storage clone
          NULL gc_data 1 NULL]> m)) ;;
      mret handle
  | None => cfault
  end.

Definition zend_objects_store_get_refcount (h : zhandle) : gcmd Z := o ← oget h; mret (refcount o).

Definition zend_objects_store_add_ref_by_handle (h : zhandle) : gcmd unit := oupd h (add_oref 1).

Definition ZEND_OBJECTS_STORE_ADD_TO_FREE_LIST (h : zhandle) : gcmd unit :=
  head ← gets free_list_head;
  oupd h (set_free_next head) ;;
  modify (set_free_list_head (Z.pos h)) ;;
  oupd h (set_valid false).

(** The destructor of the last reference: [false] when it bails out. *)
Definition destruct_object (h : zhandle) (hts : Z) : gcmd bool :=
  o ← oget h;
  if negb (destructor_called o) then
    oupd h (set_destructor_called true) ;;
    if negb (dtor o =? NULL) then
      (if negb (hts =? NULL) && (handlers o =? NULL) then oupd h (set_handlers hts) else mret tt) ;;
      run_dtor (dtor o) (object o) h
    else mret true
  else mret true.

(** Freeing an object that its destructor did not resurrect.  After it the caller still goes
    through the pointer [obj] that was read before: if the free function has made the array
    grow, that is a write to freed memory. *)
Definition free_object (h : zhandle) : gcmd bool :=
  GC_REMOVE_ZOBJ_FROM_BUFFER h ;;
  o ← oget h;
  size ← gets store_size;
  ok ← (if negb (free_storage o =? NULL) then run_free (free_storage o) (object o) h else mret true);
  ZEND_OBJECTS_STORE_ADD_TO_FREE_LIST h ;;
  size' ← gets store_size;
  if size' =? size then mret ok else cfault.

(** [false]: the function ends in [zend_bailout]. *)
Definition zend_objects_store_del_ref_by_handle_ex (h : zhandle) (hts : Z) : gcmd bool :=
  alive ← store_alive;
  if alive : bool then
    o ← oget h;
    ok ← (if valid o && (refcount o =? 1) then
            ok1 ← destruct_object h hts;
            o ← oget h;
            if refcount o =? 1 then ok2 ← free_object h; mret (ok1 && ok2) else mret ok1
          else mret true);
    oupd h (add_oref (-1)) ;;
    mret ok
  else mret true.

(** The handle and the handlers of a zval do not change. *)
Definition zend_objects_store_del_ref (zobject : zptr) (h : zhandle) (hts : Z) : gcmd bool :=
  zupd zobject (add_zref 1) ;;
  ok ← zend_objects_store_del_ref_by_handle_ex h hts;
  if ok : bool then
    zupd zobject (add_zref (-1)) ;;
    GC_ZOBJ_CHECK_POSSIBLE_ROOT gc_collect_cycles zobject h ;;
    mret true
  else mret false.

(** [clone] makes the new object from the old one; [false] for the fatal error that the
    object cannot be cloned. *)
Definition zend_objects_store_clone_obj (run_clone : Z -> Z -> gcmd (Z * option (list (option zptr) * option (list zptr))))
    (h : zhandle) (hts : Z) : gcmd (option Z) :=
  o ← oget h;
  if clone o =? NULL then mret None
  else
    x ← run_clone (clone o) (object o);
    o ← oget h;
    handle ← zend_objects_store_put x.1 (dtor o) (free_storage o) (clone o) x.2;
    oupd h (set_handlers hts) ;;
    mret (Some handle).

Definition zend_object_store_get_object_by_handle (h : zhandle) : gcmd Z := o ← oget h; mret (object o).

Definition zend_object_store_set_object (h : zhandle) (obj : Z) : gcmd unit := oupd h (set_object obj).

Definition zend_object_store_ctor_failed (h : zhandle) (hts : Z) : gcmd unit :=
  oupd h (set_handlers hts) ;;
  oupd h (set_destructor_called true).

End store.
