(* ===== verification/ZendObjectsStoreSpec.v ===== *)
(** * ZendObjectsStoreSpec: what the object store promises

    The buckets that are not valid are exactly those in the free list, whatever the
    destructors and free functions do and whether or not they bail out. *)
From S2P Require Import Prelude Memory ZendGC ZendGCGraph ZendGCRoots ZendObjectsStore.
From stdpp Require Import base option list gmap relations.
Local Open Scope Z_scope.

(** ** Changes of one object *)

(** From [t] to [t'] the object [h] has changed by [g], and perhaps the head of the store's free
    list. *)
Record obj_changed (h : zhandle) (g : store_object -> store_object) (t t' : gc) : Prop := {
  oc_zvals : zvals t' = zvals t;
  oc_obj : forall h', obj_at t' h' = if decide (h' = h) then g <$> obj_at t h' else obj_at t h';
  oc_store : is_Some (object_buckets t') <-> is_Some (object_buckets t);
  oc_roots : roots t' = roots t /\ unused t' = unused t;
  oc_rest : rest t' = rest (set_free_list_head (free_list_head t') t)
}.

Lemma obj_changed_refl h t : obj_changed h id t t.
Proof. split; try done. intros h'. case_decide; [|done]. by destruct (obj_at t h'). Qed.

Lemma obj_changed_trans h g1 g2 t t1 t2 :
  obj_changed h g1 t t1 -> obj_changed h g2 t1 t2 -> obj_changed h (g2 ∘ g1) t t2.
Proof.
  intros [Z1 O1 S1 [R1 U1] E1] [Z2 O2 S2 [R2 U2] E2]. split.
  - by rewrite Z2.
  - intros h'. rewrite O2, O1. case_decide; [|done]. by destruct (obj_at t h').
  - by rewrite S2.
  - by rewrite R2, U2.
  - rewrite E2. unfold rest in *. simpl in *. congruence.
Qed.

Lemma wp_oupd_any h f Q t :
  is_there t (NO h) -> (forall t', obj_changed h f t t' -> Q tt t') -> wp (oupd h f) Q t.
Proof.
  intros (m & o & Hm & Ho & Hobj)%node_obj HQ. eexists tt, _. unfold oupd. rewrite Hm, Ho. split; [done|].
  apply HQ. split; [done| |by rewrite Hm|done|done]. intros h'. unfold obj_at. simpl. rewrite Hm. simpl.
  destruct (decide (h' = h)) as [->|Hne]; [by rewrite lookup_insert_eq, Ho|by rewrite lookup_insert_ne].
Qed.

Lemma obj_changed_head h x t : obj_changed h id t (set_free_list_head x t).
Proof. split; try done. intros h'. change (obj_at (set_free_list_head x t) h') with (obj_at t h'). case_decide; [|done]. by destruct (obj_at t h'). Qed.

Lemma obj_changed_there h g t t' n : obj_changed h g t t' -> is_there t' n <-> is_there t n.
Proof.
  intros HO. destruct n as [p|h']; simpl.
  - unfold type_at. by rewrite (oc_zvals _ _ _ _ HO).
  - rewrite (oc_obj _ _ _ _ HO). case_decide; [|done]. by rewrite fmap_is_Some.
Qed.

(** ** The invariant *)

(** The links of the free list from [a] on. *)
Fixpoint chain (s : gc) (a : Z) (L : list zhandle) : Prop :=
  match L with
  | [] => a = -1
  | h :: L => a = Z.pos h /\ exists o, obj_at s h = Some o /\ chain s (free_next o) L
  end.

(** [L] is the free list. *)
Record store_wf (L : list zhandle) (s : gc) : Prop := {
  st_alive : is_Some (object_buckets s);
  st_handles : forall h, is_Some (obj_at s h) <-> Z.pos h < store_top s;
  st_bounds : 1 <= store_top s <= store_size s /\ store_top s <= 2 ^ 31 /\ store_size s < 2 ^ 32;
  st_free : chain s (free_list_head s) L;
  st_nodup : NoDup L;
  st_dead : forall h, h ∈ L <-> valid <$> obj_at s h = Some false;
  st_ids : NoDup (roots s).*1;
  st_roots : forall h o, obj_at s h = Some o -> valid o = true ->
    GC_ADDRESS (buffered o) = NULL \/ (GC_ADDRESS (buffered o), RootObj h) ∈ roots s
}.

Lemma chain_ext s s' a L :
  (forall h, h ∈ L -> object <$> obj_at s' h = object <$> obj_at s h) -> chain s a L -> chain s' a L.
Proof.
  revert a. induction L as [|h L IH]; intros a Hext; [done|]. intros (-> & o & Ho & Hc). split; [done|].
  specialize (Hext h ltac:(set_solver)) as E. rewrite Ho in E. destruct (obj_at s' h) as [o'|] eqn:Ho'; [|done].
  exists o'. split; [done|]. assert (free_next o' = free_next o) as -> by (unfold free_next; simpl in E; congruence).
  apply IH; [|done]. intros h' Hh'. apply Hext. set_solver.
Qed.

Lemma live_at L s h o : store_wf L s -> obj_at s h = Some o -> valid o = true -> h ∉ L.
Proof. intros HS Ho Hv Hh%(st_dead _ _ HS). rewrite Ho in Hh. simpl in Hh. congruence. Qed.

Lemma store_same L s s' :
  store_wf L s -> object_buckets s' = object_buckets s -> free_list_head s' = free_list_head s -> roots s' = roots s ->
  store_top s' = store_top s -> store_size s' = store_size s -> store_wf L s'.
Proof.
  intros [] Ho Hf Hr Ht Hs. assert (forall h, obj_at s' h = obj_at s h) as E by (intros; unfold obj_at; by rewrite Ho).
  split; rewrite ?Ho, ?Hf, ?Hr, ?Ht, ?Hs; try done.
  - intros h. rewrite E. auto.
  - eapply chain_ext; [|done]. intros h _. by rewrite E.
  - intros h. rewrite E. auto.
  - intros h o. rewrite E. auto.
Qed.

(** A change of one bucket that leaves the flag, the link of a free bucket and the root of a
    live one. *)
Definition harmless (g : store_object -> store_object) (o : store_object) : Prop :=
  valid (g o) = valid o /\ (valid o = false -> object (g o) = object o) /\
  (valid o = true -> GC_ADDRESS (buffered (g o)) = GC_ADDRESS (buffered o)).

Lemma store_wf_upd L h g s s' :
  store_wf L s -> obj_changed h g s s' -> free_list_head s' = free_list_head s ->
  (forall o, obj_at s h = Some o -> harmless g o) -> store_wf L s'.
Proof.
  intros HS HO Hf Hg. pose proof (oc_rest _ _ _ _ HO) as E. unfold rest in E. simpl in E.
  assert (store_top s' = store_top s /\ store_size s' = store_size s) as [Et Es] by (split; congruence).
  assert (forall h', valid <$> obj_at s' h' = valid <$> obj_at s h') as Hv.
  { intros h'. rewrite (oc_obj _ _ _ _ HO). case_decide as Hh; [subst h'|done].
    destruct (obj_at s h) as [o|] eqn:Ho; [|done]. simpl. f_equal. by apply Hg. }
  split; rewrite ?Et, ?Es, ?Hf, ?(proj1 (oc_roots _ _ _ _ HO)).
  - apply (oc_store _ _ _ _ HO), HS.
  - intros h'. rewrite <- (st_handles _ _ HS). rewrite <- !(fmap_is_Some valid). by rewrite Hv.
  - apply HS.
  - eapply chain_ext; [|apply (st_free _ _ HS)]. intros h' Hh'. rewrite (oc_obj _ _ _ _ HO). case_decide as E'; [subst h'|done].
    apply (st_dead _ _ HS) in Hh'. destruct (obj_at s h) as [o|]; [|done]. simpl in *. f_equal. apply Hg; congruence.
  - apply HS.
  - intros h'. rewrite Hv. apply HS.
  - apply HS.
  - intros h' o'. rewrite (oc_obj _ _ _ _ HO). case_decide as E'; [subst h'|apply (st_roots _ _ HS)].
    destruct (obj_at s h) as [o|] eqn:Ho; [|done]. intros [= <-]. destruct (Hg o eq_refl) as (-> & _ & Hb). intros Hvo.
    rewrite Hb by done. by apply (st_roots _ _ HS).
Qed.

(** ** The free list *)

Lemma s32_mod x y : x mod 2 ^ 32 = y mod 2 ^ 32 -> s32 x = s32 y.
Proof. intros E. unfold wrap_s. f_equal. by rewrite (Z.add_mod x), (Z.add_mod y), E. Qed.

Lemma free_next_set n o : - 2 ^ 31 <= n < 2 ^ 31 -> free_next (set_free_next n o) = n.
Proof.
  intros Hn. unfold free_next, set_free_next. cbn [object set_object]. rewrite <- (wrap_s_small 32 n) at 2 by lia.
  apply s32_mod. unfold wrap_u. rewrite <- !Z.land_ones, Z.land_lor_distr_l by lia.
  change (2 ^ 32 - 1) with (Z.ones 32). rewrite <- Z.land_assoc, Z.land_diag.
  assert (Z.land (Z.ldiff (object o) (Z.ones 32)) (Z.ones 32) = 0) as ->; [|by rewrite Z.lor_0_l].
  apply Z.bits_inj'. intros i Hi. rewrite Z.land_spec, Z.ldiff_spec, Z.bits_0. destruct (Z.testbit (object o) i), (Z.testbit (Z.ones 32) i); done.
Qed.

Lemma head_range L s : store_wf L s -> - 2 ^ 31 <= free_list_head s < 2 ^ 31.
Proof.
  intros HS. pose proof (st_free _ _ HS) as Hc. destruct L as [|h L]; simpl in Hc; [lia|].
  destruct Hc as (-> & o & Ho & _). assert (Z.pos h < store_top s) by (apply (st_handles _ _ HS); by rewrite Ho).
  pose proof (st_bounds _ _ HS). lia.
Qed.

Lemma wp_update_at h g o Q s :
  obj_at s h = Some o -> (forall s', obj_changed h g s s' -> free_list_head s' = free_list_head s -> Q tt s') ->
  wp (oupd h g) Q s.
Proof.
  intros Ho HQ. unfold oupd. destruct (object_buckets s) as [m|] eqn:Hm; [|unfold obj_at in Ho; by rewrite Hm in Ho].
  assert (m !! h = Some o) as Hmo by (unfold obj_at in Ho; by rewrite Hm in Ho).
  eexists tt, _. rewrite Hm, Hmo. split; [done|]. apply HQ; [|done].
  split; [done| |by rewrite Hm|done|done]. intros h'. unfold obj_at. simpl. rewrite Hm. simpl.
  destruct (decide (h' = h)) as [->|Hne]; [by rewrite lookup_insert_eq, Hmo|by rewrite lookup_insert_ne].
Qed.

Lemma changed_at h g s s' o : obj_changed h g s s' -> obj_at s h = Some o -> obj_at s' h = Some (g o).
Proof. intros HO Ho. by rewrite (oc_obj _ _ _ _ HO), decide_True, Ho. Qed.

(** An update of a bucket that keeps the invariant. *)
Lemma wp_bucket_update L h g o Q s :
  store_wf L s -> obj_at s h = Some o -> harmless g o ->
  (forall s', store_wf L s' -> obj_at s' h = Some (g o) -> free_list_head s' = free_list_head s -> Q tt s') ->
  wp (oupd h g) Q s.
Proof.
  intros HS Ho Hg HQ. eapply wp_update_at; [done|]. intros s' HO Hf. apply HQ; [|by eapply changed_at|done].
  eapply store_wf_upd; [done..|]. intros o' Ho'. rewrite Ho in Ho'. by injection Ho' as <-.
Qed.

Lemma wp_add_to_free_list L h o Q s :
  store_wf L s -> obj_at s h = Some o -> valid o = true ->
  (forall s' o', store_wf (h :: L) s' -> obj_at s' h = Some o' -> refcount o' = refcount o -> valid o' = false ->
    destructor_called o' = destructor_called o -> store_size s' = store_size s -> Q tt s') ->
  wp (ZEND_OBJECTS_STORE_ADD_TO_FREE_LIST h) Q s.
Proof.
  intros HS Ho Hv HQ. pose proof (live_at _ _ _ _ HS Ho Hv) as HhL. pose proof (head_range _ _ HS) as Hr.
  unfold ZEND_OBJECTS_STORE_ADD_TO_FREE_LIST. apply wp_bind, wp_gets, wp_bind.
  eapply wp_update_at; [done|]. intros s1 HO1 _. apply wp_bind, wp_modify.
  set (s2 := set_free_list_head (Z.pos h) s1). pose proof (obj_changed_trans _ _ _ _ _ _ HO1 (obj_changed_head h (Z.pos h) s1)) as HO2.
  fold s2 in HO2. eapply wp_update_at; [by eapply changed_at|]. intros s' HO3 Hhead.
  pose proof (obj_changed_trans _ _ _ _ _ _ HO2 HO3) as HO. clear HO1 HO2 HO3.
  pose proof (oc_rest _ _ _ _ HO) as E. unfold rest in E. simpl in E.
  assert (store_top s' = store_top s /\ store_size s' = store_size s) as [Et Es] by (split; congruence).
  eapply HQ; [|by eapply changed_at|done..].
  assert (forall h', h' <> h -> obj_at s' h' = obj_at s h') as Hother.
  { intros h' Hh'. by rewrite (oc_obj _ _ _ _ HO), decide_False. }
  split; rewrite ?Et, ?Es, ?(proj1 (oc_roots _ _ _ _ HO)); try apply HS.
  - apply (oc_store _ _ _ _ HO), HS.
  - intros h'. rewrite <- (st_handles _ _ HS). rewrite (oc_obj _ _ _ _ HO). case_decide; [|done]. by rewrite fmap_is_Some.
  - split; [by rewrite Hhead|]. eexists. split; [by eapply changed_at|].
    change (chain s' (free_next (set_free_next (free_list_head s) o)) L). rewrite free_next_set by done.
    eapply chain_ext; [|apply (st_free _ _ HS)]. intros h' Hh'. rewrite Hother; [done|set_solver].
  - constructor; [done|apply HS].
  - intros h'. destruct (decide (h' = h)) as [->|Hne].
    + rewrite (changed_at _ _ _ _ _ HO Ho). split; [done|set_solver].
    + rewrite Hother by done. rewrite <- (st_dead _ _ HS). set_solver.
  - intros h' o'. destruct (decide (h' = h)) as [->|Hne]; [|rewrite Hother by done; apply HS].
    rewrite (changed_at _ _ _ _ _ HO Ho). by intros [= <-].
Qed.

(** Removing the object's entry from the root buffer, if it has one. *)
Lemma wp_remove_zobj L h o Q s :
  store_wf L s -> obj_at s h = Some o -> valid o = true ->
  (forall s' o', store_wf L s' -> obj_at s' h = Some o' -> (exists w, o' = set_buffered w o) -> Q tt s') ->
  wp (GC_REMOVE_ZOBJ_FROM_BUFFER h) Q s.
Proof.
  intros HS Ho Hv HQ. unfold GC_REMOVE_ZOBJ_FROM_BUFFER. apply wp_bind. eapply wp_oget; [done|]. apply wp_bind, wp_gets.
  destruct (GC_ADDRESS (buffered o) =? NULL) eqn:Ha; cbn [negb andb].
  { apply wp_ret. eapply HQ; [done..|]. exists (buffered o). by destruct o. }
  destruct (gc_active s); cbn [negb andb].
  { apply wp_ret. eapply HQ; [done..|]. exists (buffered o). by destruct o. }
  apply Z.eqb_neq in Ha. destruct (st_roots _ _ HS _ _ Ho Hv) as [|Hin]; [done|].
  set (r := GC_ADDRESS (buffered o)) in *.
  apply wp_bind. unfold gc_remove_from_buffer. eexists tt, _. rewrite decide_True; [split; [done|]|by apply list_elem_of_fmap; exists (r, RootObj h)].
  set (s1 := set_unused _ _).
  eapply wp_update_at; [exact Ho|]. intros s' HO Hf. eapply HQ; [|by eapply changed_at|by exists NULL].
  pose proof (oc_rest _ _ _ _ HO) as E. unfold rest in E. simpl in E.
  assert (store_top s' = store_top s /\ store_size s' = store_size s) as [Et Es] by (split; congruence).
  assert (forall h', obj_at s1 h' = obj_at s h') as E1 by done.
  assert (forall h', h' <> h -> obj_at s' h' = obj_at s h') as Hother.
  { intros h' Hh'. by rewrite (oc_obj _ _ _ _ HO), decide_False. }
  assert (obj_at s' h = Some (set_buffered NULL o)) as Hh by by apply (changed_at _ _ _ _ _ HO).
  split; rewrite ?Et, ?Es, ?Hf, ?(proj1 (oc_roots _ _ _ _ HO)); try apply HS.
  - apply (oc_store _ _ _ _ HO), HS.
  - intros h'. rewrite <- (st_handles _ _ HS). destruct (decide (h' = h)) as [->|Hne]; [|by rewrite Hother]. by rewrite Hh, Ho.
  - eapply chain_ext; [|apply (st_free _ _ HS)]. intros h' _. destruct (decide (h' = h)) as [->|Hne]; [|by rewrite Hother]. by rewrite Hh, Ho.
  - intros h'. rewrite (st_dead _ _ HS). destruct (decide (h' = h)) as [->|Hne]; [|by rewrite Hother]. by rewrite Hh, Ho.
  - eapply sublist_NoDup; [apply (st_ids _ _ HS)|]. apply fmap_sublist, sublist_filter.
  - intros h' o'. destruct (decide (h' = h)) as [->|Hne]; [rewrite Hh; intros [= <-]; by left|].
    rewrite Hother by done. intros Ho' Hv'. destruct (st_roots _ _ HS _ _ Ho' Hv') as [|Hin']; [by left|]. right.
    apply list_elem_of_filter. split; [|done]. simpl. intros E'. apply Hne. rewrite E' in Hin'.
    pose proof (ids_inj (roots s) _ _ (st_ids _ _ HS) Hin Hin' eq_refl). congruence.
Qed.

(** ** New objects *)

Lemma chain_head L s : store_wf L s -> (free_list_head s =? -1) = bool_decide (L = []).
Proof.
  intros HS. pose proof (st_free _ _ HS) as Hc. destruct L as [|h L]; simpl in Hc.
  - rewrite Hc. done.
  - destruct Hc as [-> _]. by rewrite bool_decide_false.
Qed.

(** The handle that the next object gets. *)
Definition next_handle (L : list zhandle) (s : gc) : Z :=
  match L with h :: _ => Z.pos h | [] => store_top s end.

Definition room (L : list zhandle) (s : gc) : Prop := L = [] -> store_top s < 2 ^ 31.

Lemma wp_new_handle L s Q :
  store_wf L s -> room L s ->
  (forall s', object_buckets s' = object_buckets s -> roots s' = roots s -> chain s' (free_list_head s') (tail L) ->
     1 <= store_top s' <= store_size s' -> store_top s' <= 2 ^ 31 -> store_size s' < 2 ^ 32 ->
     (forall h, Z.pos h < store_top s' <-> Z.pos h = next_handle L s \/ Z.pos h < store_top s) -> Q (next_handle L s) s') ->
  wp new_handle Q s.
Proof.
  intros HS Hroom HQ. destruct (st_bounds _ _ HS) as (Hts & Ht & Hs). pose proof (st_free _ _ HS) as Hc.
  unfold new_handle. apply wp_bind, wp_gets. rewrite (chain_head _ _ HS). destruct L as [|h L]; cbn [bool_decide negb].
  - rewrite bool_decide_true by done. cbn [negb]. specialize (Hroom eq_refl). apply wp_bind, wp_gets, wp_bind, wp_gets, wp_bind.
    destruct (Z.eqb_spec (store_top s) (store_size s)) as [Heq|Hne].
    + apply wp_modify, wp_bind, wp_modify, wp_ret. apply HQ; simpl; rewrite ?Z.shiftl_mul_pow2, ?(wrap_u_small 32) by lia; try done; lia.
    + apply wp_ret, wp_bind, wp_modify, wp_ret. apply HQ; simpl; rewrite ?(wrap_u_small 32) by lia; try done; lia.
  - rewrite bool_decide_false by done. cbn [negb]. destruct Hc as (-> & o & Ho & Hc). cbn [Z.to_pos]. apply wp_bind.
    eapply wp_oget; [done|]. apply wp_bind, wp_modify, wp_ret. apply HQ; simpl; try done.
    + eapply chain_ext; [|exact Hc]. done.
    + intros h'. split; [by right|]. intros [[= ->]|]; [|done]. apply (st_handles _ _ HS). by rewrite Ho.
Qed.

Definition new_object (destroy obj dtor free_storage clone : Z) (g : option (list (option zptr) * option (list zptr))) : store_object :=
  mkObj false true 0 obj (if dtor =? NULL then destroy else dtor) free_storage clone NULL g 1 NULL.

Lemma wp_put destroy L s obj d f c g Q :
  store_wf L s -> room L s ->
  (forall h s', Z.pos h = next_handle L s -> valid <$> obj_at s h <> Some true ->
     obj_at s' h = Some (new_object destroy obj d f c g) -> (forall h', h' <> h -> obj_at s' h' = obj_at s h') ->
     store_wf (tail L) s' -> Q (Z.pos h) s') ->
  wp (zend_objects_store_put destroy obj d f c g) Q s.
Proof.
  intros HS Hroom HQ. unfold zend_objects_store_put. apply wp_bind, (wp_new_handle L); [done..|].
  intros s1 Hb Hr Hc Hts Ht Hs Hhandles. apply wp_bind, wp_gets. rewrite Hb.
  destruct (st_alive _ _ HS) as [m Hm]. rewrite Hm.
  assert (exists h, Z.pos h = next_handle L s) as [h Hh].
  { pose proof (st_bounds _ _ HS). destruct L as [|h L]; simpl; [|by exists h]. exists (Z.to_pos (store_top s)). lia. }
  rewrite <- Hh. cbn [Z.to_pos]. apply wp_bind, wp_modify, wp_ret.
  set (o := mkObj _ _ _ _ _ _ _ _ _ _ _). set (s' := set_buckets _ _).
  assert (obj_at s' h = Some o) as Hho by apply lookup_insert_eq.
  assert (forall h', h' <> h -> obj_at s' h' = obj_at s h') as Hother.
  { intros h' Hne. unfold obj_at. simpl. rewrite Hm. simpl. by rewrite lookup_insert_ne. }
  assert (valid <$> obj_at s h <> Some true) as Hdead.
  { destruct L as [|h0 L]; simpl in Hh.
    - destruct (obj_at s h) as [o'|] eqn:Ho; [|done]. assert (Z.pos h < store_top s); [|lia]. apply (st_handles _ _ HS). by rewrite Ho.
    - injection Hh as ->. assert (h0 ∈ h0 :: L) as Hin by set_solver. rewrite (proj1 (st_dead _ _ HS h0) Hin). done. }
  assert (h ∉ tail L) as HhL.
  { destruct L as [|h0 L]; simpl; [apply not_elem_of_nil|]. injection Hh as ->.
    by pose proof (proj1 (NoDup_cons _ _) (st_nodup _ _ HS)) as []. }
  apply HQ; [done..|]. split; simpl; rewrite ?Hr; try apply HS.
  - by eexists.
  - intros h'. rewrite Hhandles. rewrite <- Hh. destruct (decide (h' = h)) as [->|Hne]; [rewrite Hho; split; [by left|by eexists]|].
    rewrite Hother by done. rewrite (st_handles _ _ HS). split; [by right|]. intros [[= ->]|]; done.
  - done.
  - eapply chain_ext; [|exact Hc]. intros h' Hh'. rewrite Hother by set_solver. unfold obj_at. by rewrite Hb.
  - pose proof (st_nodup _ _ HS) as Hnd. destruct L; [done|]. by apply NoDup_cons in Hnd as [].
  - intros h'. destruct (decide (h' = h)) as [->|Hne]; [rewrite Hho; by split|]. rewrite Hother by done.
    rewrite <- (st_dead _ _ HS). destruct L as [|h0 L]; [done|]. simpl in Hh |- *. injection Hh as ->. set_solver.
  - intros h' o'. destruct (decide (h' = h)) as [->|Hne]; [rewrite Hho; intros [= <-]; by left|].
    rewrite Hother by done. apply HS.
Qed.

(** ** The last reference *)

(** What the store relies on when it calls the destructor or the free function of object [h]:
    the callee may use the store in any way, and may bail out, but keeps the store consistent
    and does not release [h] itself. *)
Definition calls_ok (h : zhandle) (run : gcmd bool) : Prop := forall L s o,
  store_wf L s -> obj_at s h = Some o -> valid o = true -> destructor_called o = true ->
  exists ok s' L' o', run s = Some (ok, s') /\ store_wf L' s' /\ obj_at s' h = Some o' /\ valid o' = true /\
    destructor_called o' = true.

(** The free function must also not make the array grow. *)
Definition frees_ok (h : zhandle) (run : gcmd bool) : Prop :=
  calls_ok h run /\ forall s ok s', run s = Some (ok, s') -> store_size s' = store_size s.

Section callbacks.
Context (zend_objects_destroy_object : Z).
Context (run_dtor run_free : Z -> Z -> zhandle -> gcmd bool).
Context (run_clone : Z -> Z -> gcmd (Z * option (list (option zptr) * option (list zptr)))).
Context (run_dtor_ok : forall f o h, calls_ok h (run_dtor f o h)).
Context (run_free_ok : forall f o h, frees_ok h (run_free f o h)).

Lemma destruct_object_ok L s h hts o :
  store_wf L s -> obj_at s h = Some o -> valid o = true ->
  exists ok s1 L1 o1, destruct_object run_dtor h hts s = Some (ok, s1) /\ store_wf L1 s1 /\ obj_at s1 h = Some o1 /\
    valid o1 = true /\ destructor_called o1 = true /\ (destructor_called o = true -> ok = true /\ s1 = s).
Proof.
  intros HS Ho Hv. assert (wp (destruct_object run_dtor h hts) (fun ok s1 => exists L1 o1, store_wf L1 s1 /\
    obj_at s1 h = Some o1 /\ valid o1 = true /\ destructor_called o1 = true /\
    (destructor_called o = true -> ok = true /\ s1 = s)) s) as (ok & s1 & Hrun & L1 & o1 & H1); [|by exists ok, s1, L1, o1].
  unfold destruct_object. apply wp_bind. eapply wp_oget; [done|]. destruct (destructor_called o) eqn:Hd; cbn [negb].
  { apply wp_ret. by exists L, o. }
  apply wp_bind. eapply wp_bucket_update; [exact HS|exact Ho|done|]. intros s1 HS1 Ho1 _.
  assert (forall s2 o2, store_wf L s2 -> obj_at s2 h = Some o2 -> valid o2 = true -> destructor_called o2 = true ->
    wp (run_dtor (dtor o) (object o) h) (fun ok s1 => exists L1 o1, store_wf L1 s1 /\ obj_at s1 h = Some o1 /\
      valid o1 = true /\ destructor_called o1 = true /\ (false = true -> ok = true /\ s1 = s)) s2) as Hrun.
  { intros s2 o2 HS2 Ho2 Hv2 Hd2. destruct (run_dtor_ok (dtor o) (object o) h L s2 o2 HS2 Ho2 Hv2 Hd2)
      as (ok & s3 & L3 & o3 & Hr & HS3 & Ho3 & Hv3 & Hd3). exists ok, s3. split; [done|]. by exists L3, o3. }
  destruct (dtor o =? NULL); cbn [negb]; [apply wp_ret; by exists L, (set_destructor_called true o)|].
  apply wp_bind. destruct (negb (hts =? NULL) && (handlers o =? NULL)).
  - eapply wp_bucket_update; [exact HS1|exact Ho1|done|]. intros s2 HS2 Ho2 _. by eapply Hrun.
  - apply wp_ret. by eapply Hrun.
Qed.

(** How the last reference ends: the object is freed, its handle is the next one to be used,
    and the result is [false] exactly when its destructor or its free function bailed out. *)
Record freed_object (h : zhandle) (s1 : gc) (o1 : store_object) (ok : bool) (s' : gc) : Prop := {
  fo_list : exists L, store_wf (h :: L) s';
  fo_invalid : exists o', obj_at s' h = Some o' /\ valid o' = false /\ destructor_called o' = true;
  fo_result : exists s2 s3, run_free (free_storage o1) (object o1) h s2 = Some (ok, s3) \/ (free_storage o1 = NULL /\ ok = true)
}.

Lemma wp_free_live L s h o Q :
  store_wf L s -> obj_at s h = Some o -> valid o = true -> destructor_called o = true ->
  (forall ok s', freed_object h s o ok s' -> Q ok s') -> wp (free_object run_free h) Q s.
Proof.
  intros HS Ho Hv Hd HQ. unfold free_object. apply wp_bind. eapply wp_remove_zobj; [done..|]. intros s1 o1 HS1 Ho1 [w ->].
  apply wp_bind. eapply wp_oget; [done|]. cbn [set_buffered free_storage object]. apply wp_bind, wp_gets, wp_bind.
  assert (forall ok s2 L2 o2, store_wf L2 s2 -> store_size s2 = store_size s1 -> obj_at s2 h = Some o2 -> valid o2 = true -> destructor_called o2 = true ->
    (exists s2 s3, run_free (free_storage o) (object o) h s2 = Some (ok, s3) \/ (free_storage o = NULL /\ ok = true)) ->
    wp (ZEND_OBJECTS_STORE_ADD_TO_FREE_LIST h ;; size' ← gets store_size; if size' =? store_size s1 then mret ok else cfault) Q s2) as Hlast.
  { intros ok s2 L2 o2 HS2 Hsz Ho2 Hv2 Hd2 Hres. apply wp_bind. eapply wp_add_to_free_list; [done..|].
    intros s3 o3 HS3 Ho3 _ Hv3 Hd3 Hsz3. apply wp_bind, wp_gets. rewrite Hsz3, Hsz, Z.eqb_refl. apply wp_ret, HQ. split; [by exists L2| |done]. exists o3. by rewrite Hd3. }
  destruct (free_storage o =? NULL) eqn:Hf; cbn [negb].
  - apply wp_ret. eapply Hlast; [done..|]. exists s1, s1. right. split; [by apply Z.eqb_eq|done].
  - destruct (run_free_ok (free_storage o) (object o) h) as [Hcalls Hsize].
    destruct (Hcalls L s1 _ HS1 Ho1 Hv Hd) as (ok & s2 & L2 & o2 & Hr & HS2 & Ho2 & Hv2 & Hd2).
    exists ok, s2. split; [done|]. eapply Hlast; [exact HS2|by eapply Hsize|done..|]. exists s1, s2. by left.
Qed.

(** What giving up one reference to object [o] under handle [h] can lead to. *)
Inductive del_outcome (h : zhandle) (hts : Z) (s : gc) (o : store_object) : bool -> gc -> Prop :=
  | outcome_shared L s' :
      refcount o <> 1 -> store_wf L s' -> obj_at s' h = Some (add_oref (-1) o) -> del_outcome h hts s o true s'
  | outcome_resurrected ok L s1 o1 s' :
      refcount o = 1 -> destruct_object run_dtor h hts s = Some (ok, s1) -> obj_at s1 h = Some o1 -> refcount o1 <> 1 ->
      store_wf L s' -> obj_at s' h = Some (add_oref (-1) o1) -> valid o1 = true -> destructor_called o1 = true ->
      del_outcome h hts s o ok s'
  | outcome_freed ok1 ok2 s1 o1 s' :
      refcount o = 1 -> destruct_object run_dtor h hts s = Some (ok1, s1) -> obj_at s1 h = Some o1 -> refcount o1 = 1 ->
      freed_object h s1 o1 ok2 s' -> del_outcome h hts s o (ok1 && ok2) s'.

Lemma harmless_count d o : harmless (add_oref d) o.
Proof. by split. Qed.

Lemma wp_del_ref L s h hts o Q :
  store_wf L s -> obj_at s h = Some o -> valid o = true ->
  (forall ok s', del_outcome h hts s o ok s' -> Q ok s') ->
  wp (zend_objects_store_del_ref_by_handle_ex run_dtor run_free h hts) Q s.
Proof.
  intros HS Ho Hv HQ. unfold zend_objects_store_del_ref_by_handle_ex. apply wp_bind, wp_gets.
  rewrite bool_decide_true by apply HS. apply wp_bind. eapply wp_oget; [done|]. rewrite Hv. cbn [andb]. apply wp_bind.
  destruct (Z.eqb_spec (refcount o) 1) as [Hone|Hmore].
  - destruct (destruct_object_ok L s h hts o HS Ho Hv) as (ok1 & s1 & L1 & o1 & Hrun & HS1 & Ho1 & Hv1 & Hd1 & _).
    apply wp_bind. exists ok1, s1. split; [done|]. apply wp_bind. eapply wp_oget; [done|].
    destruct (Z.eqb_spec (refcount o1) 1) as [Hone1|Hmore1].
    + apply wp_bind. eapply wp_free_live; [done..|]. intros ok2 s2 HF. apply wp_ret, wp_bind.
      destruct (fo_list _ _ _ _ _ HF) as [L2 HS2]. destruct (fo_invalid _ _ _ _ _ HF) as (o2 & Ho2 & Hv2 & Hd2).
      eapply wp_bucket_update; [exact HS2|exact Ho2|apply harmless_count|]. intros s3 HS3 Ho3 _. apply wp_ret, HQ.
      eapply outcome_freed; [done..|]. split; [by exists L2|by eexists|apply HF].
    + apply wp_ret, wp_bind. eapply wp_bucket_update; [exact HS1|exact Ho1|apply harmless_count|]. intros s3 HS3 Ho3 _. apply wp_ret, HQ.
      by eapply outcome_resurrected.
  - apply wp_ret, wp_bind. eapply wp_bucket_update; [exact HS|exact Ho|apply harmless_count|]. intros s3 HS3 Ho3 _. apply wp_ret, HQ.
    by eapply outcome_shared.
Qed.


(** ** Any sequence of operations *)

(** The clone function may use the store too, but not release the object it clones. *)
Context (run_clone_ok : forall c p h L s o x s', store_wf L s -> obj_at s h = Some o -> valid o = true ->
  run_clone c p s = Some (x, s') -> exists L' o', store_wf L' s' /\ obj_at s' h = Some o' /\ valid o' = true).

Definition live (s : gc) (h : zhandle) : Prop := exists o, obj_at s h = Some o /\ valid o = true.

Notation put := (zend_objects_store_put zend_objects_destroy_object).

(** The operations that the engine uses while a script runs; the number of handles stays below
    2^31, as the links of the free list are of type [int]. *)
Inductive store_step (s : gc) : gc -> Prop :=
  | step_put obj d f c g n s' :
      store_top s < 2 ^ 31 -> put obj d f c g s = Some (n, s') -> store_step s s'
  | step_add_ref h s' : live s h -> zend_objects_store_add_ref_by_handle h s = Some (tt, s') -> store_step s s'
  | step_del_ref h hts ok s' :
      live s h -> zend_objects_store_del_ref_by_handle_ex run_dtor run_free h hts s = Some (ok, s') -> store_step s s'
  | step_clone h hts n s' :
      live s h -> (forall c p x s1, run_clone c p s = Some (x, s1) -> store_top s1 < 2 ^ 31) ->
      zend_objects_store_clone_obj zend_objects_destroy_object run_clone h hts s = Some (n, s') -> store_step s s'
  | step_set_object h obj s' : live s h -> zend_object_store_set_object h obj s = Some (tt, s') -> store_step s s'
  | step_ctor_failed h hts s' : live s h -> zend_object_store_ctor_failed h hts s = Some (tt, s') -> store_step s s'
  | step_mark_destructed s' : zend_objects_store_mark_destructed s = Some (tt, s') -> store_step s s'
  | step_call_destructors fuel ok s' : zend_objects_store_call_destructors run_dtor fuel s = Some (ok, s') -> store_step s s'.

Definition store_ok (s : gc) : Prop := exists L, store_wf L s.

Lemma wp_inv {A} (c : gcmd A) Q s a s' : wp c Q s -> c s = Some (a, s') -> Q a s'.
Proof. intros (b & s1 & -> & HQ) [= <- <-]. done. Qed.

(** An update of one bucket as a step. *)
Lemma update_ok L h g o s s' : store_wf L s -> obj_at s h = Some o -> harmless g o -> oupd h g s = Some (tt, s') -> store_ok s'.
Proof. intros HS Ho Hg Hrun. eapply (wp_inv _ (fun _ => store_ok)); [|exact Hrun]. eapply wp_bucket_update; [done..|]. intros t Ht _ _. by exists L. Qed.

Lemma handle_at L s i : store_wf L s -> 1 <= i < store_top s -> exists o, obj_at s (Z.to_pos i) = Some o.
Proof. intros HS Hi. apply (st_handles _ _ HS). lia. Qed.

Lemma mark_destructed_ok n i L s s' :
  store_wf L s -> 1 <= i -> i + Z.of_nat n <= store_top s -> mark_destructed_loop n i s = Some (tt, s') -> store_ok s'.
Proof.
  intros HS Hi Hn Hrun. eapply (wp_inv _ (fun _ => store_ok)); [|exact Hrun]. clear Hrun s'.
  revert i s HS Hi Hn. induction n as [|n IH]; intros i s HS Hi Hn; [apply wp_ret; by exists L|].
  destruct (handle_at L s i HS ltac:(lia)) as [o Ho]. simpl. apply wp_bind. eapply wp_oget; [done|]. apply wp_bind.
  destruct (valid o) eqn:Hv; [|apply wp_ret, IH; [done|lia..]].
  eapply wp_update_at; [done|]. intros t HO Hf. pose proof (oc_rest _ _ _ _ HO) as E. unfold rest in E. simpl in E.
  apply IH; [eapply store_wf_upd; [done..|]|lia|]; [|assert (store_top t = store_top s) by congruence; lia].
  intros o' Ho'. by split.
Qed.

Lemma bind_inv {A B} (c : gcmd A) (f : A -> gcmd B) s b s' :
  (c ≫= f) s = Some (b, s') -> exists a s1, c s = Some (a, s1) /\ f a s1 = Some (b, s').
Proof. unfold mbind, cmd_bind. destruct (c s) as [[a s1]|]; [|done]. intros Hf. by exists a, s1. Qed.

Lemma wp_store_destructor L h o s :
  store_wf L s -> obj_at s h = Some o ->
  wp (if valid o && negb (destructor_called o) then
        oupd h (set_destructor_called true) ;;
        if negb (dtor o =? NULL) && negb (object o =? NULL) then
          oupd h (add_oref 1) ;;
          ok ← run_dtor (dtor o) (object o) h;
          if ok : bool then
            oupd h (add_oref (-1)) ;;
            o ← oget h;
            (if refcount o =? 0 then GC_REMOVE_ZOBJ_FROM_BUFFER h else mret tt) ;;
            mret true
          else mret false
        else mret true
      else mret true) (fun _ => store_ok) s.
Proof.
  intros HS Ho. destruct (valid o) eqn:Hv; cbn [andb]; [|apply wp_ret; by exists L].
  destruct (destructor_called o) eqn:Hd; cbn [negb]; [apply wp_ret; by exists L|].
  apply wp_bind. eapply wp_bucket_update; [exact HS|exact Ho|done|]. intros s1 HS1 Ho1 _.
  destruct (negb (dtor o =? NULL) && negb (object o =? NULL)); [|apply wp_ret; by exists L].
  apply wp_bind. eapply wp_bucket_update; [exact HS1|exact Ho1|apply harmless_count|]. intros s2 HS2 Ho2 _. apply wp_bind.
  destruct (run_dtor_ok (dtor o) (object o) h L s2 _ HS2 Ho2 Hv eq_refl) as (ok & s3 & L3 & o3 & Hr & HS3 & Ho3 & Hv3 & Hd3).
  exists ok, s3. split; [done|]. destruct ok; [|apply wp_ret; by exists L3].
  apply wp_bind. eapply wp_bucket_update; [exact HS3|exact Ho3|apply harmless_count|]. intros s4 HS4 Ho4 _. apply wp_bind.
  eapply wp_oget; [done|]. apply wp_bind. destruct (refcount _ =? 0).
  - eapply wp_remove_zobj; [exact HS4|exact Ho4|done|]. intros s5 o5 HS5 _ _. apply wp_ret. by exists L3.
  - apply wp_ret, wp_ret. by exists L3.
Qed.

Lemma call_destructors_ok fuel i ok s s' :
  store_ok s -> 1 <= i -> call_destructors_loop run_dtor fuel i s = Some (ok, s') -> store_ok s'.
Proof.
  revert i s. induction fuel as [|fuel IH]; intros i s [L HS] Hi Hrun; [done|]. simpl in Hrun.
  apply bind_inv in Hrun as (top & s1 & [= <- <-] & Hrun). destruct (Z.ltb_spec i (store_top s)) as [Hlt|_].
  2: { injection Hrun as _ <-. by exists L. }
  destruct (handle_at L s i HS ltac:(lia)) as [o Ho].
  apply bind_inv in Hrun as (o' & s1 & Hget & Hrun).
  assert (o' = o /\ s1 = s) as [-> ->].
  { destruct (wp_oget (Z.to_pos i) o (fun a t => a = o /\ t = s) s Ho (conj eq_refl eq_refl)) as (a & t & Ha & -> & ->). rewrite Ha in Hget. by injection Hget as <- <-. }
  apply bind_inv in Hrun as (b & s1 & Hbody & Hrun).
  pose proof (wp_inv _ _ _ _ _ (wp_store_destructor L _ o s HS Ho) Hbody) as HS1.
  destruct b; [|by injection Hrun as _ <-]. eapply IH; [exact HS1| |exact Hrun].
  pose proof (st_bounds _ _ HS). rewrite wrap_u_small by lia. lia.
Qed.

Lemma wp_clone L s h hts o :
  store_wf L s -> obj_at s h = Some o -> valid o = true ->
  (forall c p x s1, run_clone c p s = Some (x, s1) -> store_top s1 < 2 ^ 31) ->
  forall n s', zend_objects_store_clone_obj zend_objects_destroy_object run_clone h hts s = Some (n, s') -> store_ok s'.
Proof.
  intros HS Ho Hv Hroom n s' Hrun. unfold zend_objects_store_clone_obj in Hrun.
  apply bind_inv in Hrun as (o' & s1 & Hget & Hrun).
  assert (o' = o /\ s1 = s) as [-> ->].
  { destruct (wp_oget h o (fun a t => a = o /\ t = s) s Ho (conj eq_refl eq_refl)) as (a & t & Ha & -> & ->). rewrite Ha in Hget. by injection Hget as <- <-. }
  destruct (clone o =? NULL); [injection Hrun as _ <-; by exists L|].
  apply bind_inv in Hrun as (x & s1 & Hclone & Hrun). specialize (Hroom _ _ _ _ Hclone).
  destruct (run_clone_ok _ _ h L s o x s1 HS Ho Hv Hclone) as (L1 & o1 & HS1 & Ho1 & Hv1).
  eapply (wp_inv _ (fun _ => store_ok)); [|exact Hrun]. apply wp_bind. eapply wp_oget; [done|]. apply wp_bind.
  eapply wp_put; [done|by intros _|]. intros h' s2 Hh' Hdead Ho' Hother HS2.
  assert (h <> h') as Hne by (intros ->; apply Hdead; rewrite Ho1; simpl; congruence). apply wp_bind.
  eapply wp_bucket_update; [exact HS2|by rewrite Hother by done|done|]. intros s3 HS3 _ _. apply wp_ret. by exists (tail L1).
Qed.

Lemma store_step_ok s s' : store_ok s -> store_step s s' -> store_ok s'.
Proof.
  intros [L HS] Hstep. destruct Hstep as [obj d f c g n s' Hroom Hrun|h s' (o & Ho & Hv) Hrun|h hts ok s' (o & Ho & Hv) Hrun
    |h hts n s' (o & Ho & Hv) Hroom Hrun|h obj s' (o & Ho & Hv) Hrun|h hts s' (o & Ho & Hv) Hrun|s' Hrun|fuel ok s' Hrun].
  - eapply (wp_inv _ (fun _ => store_ok)); [|exact Hrun]. eapply wp_put; [done|by intros _|]. intros h s1 _ _ _ _ HS1. by exists (tail L).
  - eapply update_ok; [done..|apply harmless_count|done].
  - eapply (wp_inv _ (fun _ => store_ok)); [|exact Hrun]. eapply wp_del_ref; [done..|]. clear s' ok Hrun. intros ok s' Hout.
    destruct Hout as [L' s' _ HS' _|ok L' s1 o1 s' _ _ _ _ HS' _ _ _|ok1 ok2 s1 o1 s' _ _ _ _ HF]; [by exists L'..|].
    destruct (fo_list _ _ _ _ _ HF) as [L' HL']. by eexists.
  - by eapply wp_clone.
  - eapply update_ok; [done..| |exact Hrun]. split_and!; [done| |done]. intros Hf. congruence.
  - unfold zend_object_store_ctor_failed in Hrun. eapply (wp_inv _ (fun _ => store_ok)); [|exact Hrun]. apply wp_bind.
    eapply wp_bucket_update; [exact HS|exact Ho|done|]. intros s1 HS1 Ho1 _.
    eapply wp_bucket_update; [exact HS1|exact Ho1|done|]. intros s2 HS2 _ _. by exists L.
  - unfold zend_objects_store_mark_destructed in Hrun. apply bind_inv in Hrun as (al & s1 & [= <- <-] & Hrun).
    rewrite bool_decide_true in Hrun by apply HS. apply bind_inv in Hrun as (top & s1 & [= <- <-] & Hrun).
    pose proof (st_bounds _ _ HS). eapply mark_destructed_ok; [done| | |done]; lia.
  - eapply call_destructors_ok; [by exists L| |done]. done.
Qed.

(** The next new object gets a handle inside the array that no live object has, and all other
    buckets stay. *)
Definition serves (L : list zhandle) (s : gc) : Prop := forall obj d f c g, room L s ->
  exists h s', put obj d f c g s = Some (Z.pos h, s') /\ ~ live s h /\ Z.pos h < store_size s' /\
    obj_at s' h = Some (new_object zend_objects_destroy_object obj d f c g) /\
    (forall h', h' <> h -> obj_at s' h' = obj_at s h') /\ store_wf (tail L) s'.

Lemma put_serves L s : store_wf L s -> serves L s.
Proof.
  intros HS obj d f c g Hroom.
  destruct (wp_put zend_objects_destroy_object L s obj d f c g (fun n s' => exists h, n = Z.pos h /\ ~ live s h /\ Z.pos h < store_size s' /\
      obj_at s' h = Some (new_object zend_objects_destroy_object obj d f c g) /\
      (forall h', h' <> h -> obj_at s' h' = obj_at s h') /\ store_wf (tail L) s') HS Hroom) as (n & s' & Hrun & h & -> & Hrest).
  - intros h s' Hh Hdead Hho Hother HS'. exists h. split_and!; try done.
    + intros (o & Ho & Hv). apply Hdead. rewrite Ho. simpl. by rewrite Hv.
    + pose proof (st_bounds _ _ HS'). assert (Z.pos h < store_top s'); [|lia]. apply (st_handles _ _ HS'). by rewrite Hho.
  - by exists h, s'.
Qed.

Lemma init_ok init_size s0 s1 :
  1 <= init_size < 2 ^ 31 -> NoDup (roots s0).*1 -> zend_objects_store_init init_size s0 = Some (tt, s1) -> store_wf [] s1.
Proof.
  intros Hsize Hnd [= <-].
  assert (forall h, obj_at (set_free_list_head (-1) (set_store_size init_size (set_store_top 1 (set_buckets ∅ s0)))) h = None) as E
    by (intros h; apply lookup_empty).
  split; try done; [intros h; rewrite E; split; [by intros []|simpl; lia]|simpl; lia|apply NoDup_nil_2|].
  intros h. rewrite E. split; [by intros ?%elem_of_nil|done].
Qed.

(** C22: in whatever order the engine creates, shares, clones and releases objects, and
    whatever their destructors do, the store stays consistent: from an empty store on, the
    free list holds exactly the handles that are not in use, and the next new object gets
    a handle inside the array that no live object has, with the other buckets unchanged. *)
Theorem zend_objects_store_reachable init_size s0 s1 s :
  1 <= init_size < 2 ^ 31 -> NoDup (roots s0).*1 ->
  zend_objects_store_init init_size s0 = Some (tt, s1) -> rtc store_step s1 s ->
  exists L, store_wf L s /\ serves L s.
Proof.
  intros Hsize Hnd Hinit Hsteps.
  assert (store_ok s) as [L HS]; [|by exists L; split; [|apply put_serves]].
  refine (rtc_ind_l (fun t => store_ok t -> store_ok s) s _ _ _ Hsteps _).
  - done.
  - intros x y Hxy _ IH Hx. by eapply IH, store_step_ok.
  - exists []. by eapply init_ok.
Qed.

End callbacks.

(** ** A store with an object *)

(** A destructor that makes a new object, and bails out when its code is at address 16. *)
Definition busy_destructor (f o : Z) (h : zhandle) : gcmd bool :=
  top ← gets store_top;
  (if top <? 2 ^ 31 then zend_objects_store_put 8 o NULL 24 NULL None ;; mret tt else mret tt) ;;
  mret (negb (f =? 16)).

Lemma busy_destructor_ok f o h : calls_ok h (busy_destructor f o h).
Proof.
  intros L s ob HS Ho Hv Hd.
  assert (wp (busy_destructor f o h) (fun _ s' => exists L' o', store_wf L' s' /\ obj_at s' h = Some o' /\ valid o' = true /\
    destructor_called o' = true) s) as (ok & s' & Hrun & L' & o' & Hpost); [|by exists ok, s', L', o'].
  unfold busy_destructor. apply wp_bind, wp_gets, wp_bind. destruct (Z.ltb_spec (store_top s) (2 ^ 31)) as [Hlt|_].
  - apply wp_bind. eapply wp_put; [done|by intros _|]. intros h' s' _ Hdead _ Hother HS'. apply wp_ret, wp_ret.
    exists (tail L), ob. split_and!; try done. rewrite Hother; [done|]. intros ->. apply Hdead. rewrite Ho. simpl. by rewrite Hv.
  - apply wp_ret, wp_ret. by exists L, ob.
Qed.

Definition nothing : gc := mkGc ∅ None 0 0 0 true false 32 [] [] 32 (32 + 320000) NULL NULL NULL 0 0.

(** A store with room for one object, and one object in it whose destructor will bail out. *)
Definition one_object : gc :=
  from_option snd nothing ((zend_objects_store_init 1 ;; zend_objects_store_put 8 40 16 24 NULL None) nothing).

Lemma one_object_wf : store_wf [] one_object.
Proof.
  destruct (put_serves 8 [] _ (init_ok 1 nothing _ ltac:(lia) (NoDup_nil_2) eq_refl) 40 16 24 NULL None) as (h & s' & Hrun & _ & _ & _ & _ & HS).
  { intros _. by vm_compute. }
  assert (s' = one_object) as <-; [|exact HS]. unfold one_object, mbind, cmd_bind. cbn [zend_objects_store_init].
  change (zend_objects_store_init 1 nothing) with (Some (tt, set_free_list_head (-1) (set_store_size 1 (set_store_top 1 (set_buckets ∅ nothing))))).
  cbv beta iota. by rewrite Hrun.
Qed.

(** A free function that makes a new object if the array has room for it, and bails out. *)
Definition busy_free (f o : Z) (h : zhandle) : gcmd bool :=
  top ← gets store_top;
  size ← gets store_size;
  (if (top <? size) && (top <? 2 ^ 31) then zend_objects_store_put 8 o NULL 24 NULL None ;; mret tt else mret tt) ;;
  mret false.

Lemma busy_free_ok f o h : frees_ok h (busy_free f o h).
Proof.
  split.
  - intros L s ob HS Ho Hv Hd.
    assert (wp (busy_free f o h) (fun _ s' => exists L' o', store_wf L' s' /\ obj_at s' h = Some o' /\ valid o' = true /\
      destructor_called o' = true) s) as (ok & s' & Hrun & L' & o' & Hpost); [|by exists ok, s', L', o'].
    unfold busy_free. apply wp_bind, wp_gets, wp_bind, wp_gets, wp_bind.
    destruct (_ <? store_size s); cbn [andb]; [|apply wp_ret, wp_ret; by exists L, ob].
    destruct (Z.ltb_spec (store_top s) (2 ^ 31)) as [Hlt|_]; [|apply wp_ret, wp_ret; by exists L, ob].
    apply wp_bind. eapply wp_put; [done|by intros _|]. intros h' s' _ Hdead _ Hother HS'. apply wp_ret, wp_ret.
    exists (tail L), ob. split_and!; try done. rewrite Hother; [done|]. intros ->. apply Hdead. rewrite Ho. simpl. by rewrite Hv.
  - intros s ok s' Hrun. unfold busy_free in Hrun. apply bind_inv in Hrun as (top & s1 & [= <- <-] & Hrun).
    apply bind_inv in Hrun as (size & s1 & [= <- <-] & Hrun). apply bind_inv in Hrun as (u & s1 & Hput & [= _ <-]).
    destruct (Z.ltb_spec (store_top s) (store_size s)) as [Hlt|_]; cbn [andb] in Hput; [|by injection Hput as _ <-].
    destruct (_ <? 2 ^ 31); [|by injection Hput as _ <-].
    apply bind_inv in Hput as (n & s2 & Hput & [= _ <-]). apply bind_inv in Hput as (hd & s3 & Hnew & Hput).
    assert (store_size s3 = store_size s) as <-.
    { apply bind_inv in Hnew as (x & s4 & [= <- <-] & Hnew). destruct (negb _).
      - apply bind_inv in Hnew as (ob & s4 & Hget & Hnew). apply bind_inv in Hnew as ([] & s5 & [= <-] & [= _ <-]).
        unfold oget in Hget. destruct (object_buckets s) as [m|]; [|done]. destruct (m !! _); [|done]. by injection Hget as _ <-.
      - apply bind_inv in Hnew as (x & s4 & [= <- <-] & Hnew). apply bind_inv in Hnew as (y & s4 & [= <- <-] & Hnew).
        destruct (Z.eqb_spec (store_top s) (store_size s)); [lia|]. apply bind_inv in Hnew as (y & s4 & [= <- <-] & Hnew).
        by apply bind_inv in Hnew as ([] & s5 & [= <-] & [= _ <-]). }
    apply bind_inv in Hput as (b & s4 & [= <- <-] & Hput). destruct (object_buckets s3); [|done].
    by apply bind_inv in Hput as ([] & s5 & [= <-] & [= _ <-]).
Qed.

(** The destructor puts a second object into the array, which grows, and bails out; the free
    function puts a third one there; the first object is freed all the same, the failure is
    reported, and the next object gets its handle. *)
Example release_one :
  match zend_objects_store_del_ref_by_handle_ex busy_destructor busy_free 1 NULL one_object with
  | Some (ok, s') =>
      negb ok && (store_size s' =? 4) && (store_top s' =? 4) && (free_list_head s' =? 1) &&
      match zend_objects_store_put 8 48 NULL 24 NULL None s' with Some (n, _) => n =? 1 | None => false end
  | None => false
  end = true.
Proof. vm_compute. reflexivity. Qed.

(** A free function that makes the array grow leaves the caller with a dangling pointer: here the
    destructor has been called before, and the new object needs a larger array. *)
Example free_storage_grows_store :
  exists s, zend_object_store_ctor_failed 1 32 one_object = Some (tt, s) /\
    zend_objects_store_del_ref_by_handle_ex busy_destructor busy_destructor 1 NULL s = None.
Proof. eexists. split; [reflexivity|]. vm_compute. reflexivity. Qed.


Definition plain_clone (c p : Z) : gcmd (Z * option (list (option zptr) * option (list zptr))) := mret (p, None).

(** Cloning gives the handlers to the object that is cloned, not to the new one. *)
Example clone_handlers :
  match (zend_objects_store_put 8 48 NULL 24 56 None ;; zend_objects_store_clone_obj 8 plain_clone 2 64) one_object with
  | Some (n, s') =>
      bool_decide (n = Some 3) && bool_decide (handlers <$> obj_at s' 2%positive = Some 64) &&
      bool_decide (handlers <$> obj_at s' 3%positive = Some NULL)
  | None => false
  end = true.
Proof. vm_compute. reflexivity. Qed.

Lemma zend_objects_store_reachable_witness :
  exists L, store_wf L one_object /\ serves 8 L one_object.
Proof.
  apply (zend_objects_store_reachable 8 busy_destructor busy_free plain_clone busy_destructor_ok busy_free_ok
    ltac:(intros c p h L s o x s' HS Ho Hv Hrun; injection Hrun as _ <-; exists L, o; exact (conj HS (conj Ho Hv)))
    1 nothing (set_free_list_head (-1) (set_store_size 1 (set_store_top 1 (set_buckets ∅ nothing)))) one_object).
  - lia.
  - apply NoDup_nil_2.
  - reflexivity.
  - apply rtc_once. apply (step_put 8 busy_destructor busy_free plain_clone _ 40 16 24 NULL None 1); [reflexivity|vm_compute; reflexivity].
Defined.
