(* ===== verification/ZendVariables.v ===== *)
(** * ZendVariables: the destruction of values

    Models [i_zval_ptr_dtor] of src/Zend/zend_execute.h, [_zval_dtor_func] of zend_variables.c
    and [zend_object_std_dtor] of zend_objects.c on the state of [ZendGC].

    Objects are those of [zend_objects_new]: their free function is
    [zend_objects_free_object_storage], which destroys the properties that [zend_std_get_gc]
    returns.  Bailing out of a destructor is the result [false]. *)
From S2P Require Import Prelude Memory ZendGC ZendGCGraph ZendObjectsStore.
From stdpp Require Import base option list gmap.
Local Open Scope Z_scope.

Definition set_type (t : ztype) (z : zval) : zval := mkZval t (refcount__gc z) (u_word z).

Definition efree_zval (p : zptr) : gcmd unit := fun s =>
  match zvals s !! p with
  | Some _ => Some (tt, set_zvals (delete p (zvals s)) s)
  | None => None
  end.

(** A loop that stops when its body bails out. *)
Fixpoint each_ok (visit : zptr -> gcmd bool) (l : list zptr) : gcmd bool :=
  match l with
  | [] => mret true
  | p :: l => ok ← visit p; if ok : bool then each_ok visit l else mret false
  end.

(** The properties of a standard object: the table of properties if there is one,
    otherwise the slots of the declared ones.  [zend_hash_destroy] calls the destructor on
    the elements in order. *)
Definition zend_object_std_dtor (zval_ptr_dtor : zptr -> gcmd bool) (o : store_object) : gcmd bool :=
  match get_gc o with
  | Some (_, Some properties) => each_ok zval_ptr_dtor properties
  | Some (properties_table, None) => each_ok zval_ptr_dtor (omap id properties_table)
  | None => mret true
  end.

Definition zend_objects_free_object_storage (zval_ptr_dtor : zptr -> gcmd bool) (h : zhandle) : gcmd bool :=
  o ← oget h;
  zend_object_std_dtor zval_ptr_dtor o.

Section destruction.
Context (run_dtor : Z -> Z -> zhandle -> gcmd bool).
Context (gc_collect_cycles : gcmd unit).

Definition run_free (zval_ptr_dtor : zptr -> gcmd bool) (_ _ : Z) (h : zhandle) : gcmd bool :=
  zend_objects_free_object_storage zval_ptr_dtor h.

(** [_zval_dtor_func], with [zval_ptr_dtor] for the elements.  The handlers of a zval are not
    kept, its object remembers the standard ones. *)
Definition zval_dtor (zval_ptr_dtor : zptr -> gcmd bool) (std_object_handlers : Z) (p : zptr) : gcmd bool :=
  z ← zget p;
  match z_type z with
  | IS_ARRAY l => zupd p (set_type IS_SCALAR) ;; each_ok zval_ptr_dtor l
  | IS_OBJECT h =>
      zend_objects_store_del_ref run_dtor (run_free zval_ptr_dtor) gc_collect_cycles p h std_object_handlers
  | IS_GLOBALS _ | IS_SCALAR => mret true
  end.

Context (std_object_handlers : Z).

(** As many destructions can be nested as there are references. *)
Fixpoint zval_ptr_dtor (fuel : nat) (p : zptr) : gcmd bool :=
  match fuel with
  | O => cfault
  | S fuel =>
      zupd p (add_zref (-1)) ;;
      z ← zget p;
      if refcount__gc z =? 0 then
        GC_REMOVE_ZVAL_FROM_BUFFER p ;;
        ok ← zval_dtor (zval_ptr_dtor fuel) std_object_handlers p;
        if ok : bool then efree_zval p ;; mret true else mret false
      else
        gc_zval_check_possible_root gc_collect_cycles p ;;
        mret true
  end.

End destruction.
