(* ===== verification/ZendGCCycles.v ===== *)
(** * ZendGCCycles: a whole collection

    [gc_collect_cycles] of src/Zend/zend_gc.c: the search of [ZendGC], then the destructors of the
    objects found, the destruction of the zvals in the free list and their release. *)
From S2P Require Import Prelude Memory ZendGC ZendObjectsStore ZendVariables.
From stdpp Require Import base option list gmap.
Local Open Scope Z_scope.

Section cycles.
Context (run_dtor : Z -> Z -> zhandle -> gcmd bool).
Context (gc_collect_cycles : gcmd unit).
Context (std_object_handlers : Z).

Definition zval_at (a : Z) : gcmd zptr :=
  if (0 <? a) && (a mod 4 =? 0) then mret (Z.to_pos (a / 4)) else cfault.

(** What is done once to an object without references. *)
Definition call_destructor (h : zhandle) : gcmd bool :=
  alive ← store_alive;
  if alive : bool then
    o ← oget h;
    if valid o && (refcount o <=? 0) && negb (dtor o =? NULL) && negb (destructor_called o) then
      oupd h (set_destructor_called true) ;;
      oupd h (add_oref 1) ;;
      ok ← run_dtor (dtor o) (object o) h;
      if ok : bool then oupd h (add_oref (-1)) ;; mret true else mret false
    else mret true
  else mret true.

(** "First call destructors": the number of zvals in the list, [None] when one bails out. *)
Fixpoint destructors_loop (fuel : nat) (p count : Z) : gcmd (option Z) :=
  match fuel with
  | O => cfault
  | S fuel =>
      if p =? FREE_LIST_END then mret (Some count)
      else
        pz ← zval_at p;
        z ← zget pz;
        ok ← match z_type z with IS_OBJECT h => call_destructor h | _ => mret true end;
        if ok : bool then z ← zget pz; destructors_loop fuel (u_word z) (count + 1) else mret None
  end.

(** One turn of "Destroy zvals". *)
Definition destroy_zval (fuel : nat) (pz : zptr) : gcmd bool :=
  z ← zget pz;
  match z_type z with
  | IS_OBJECT h =>
      alive ← store_alive;
      if alive : bool then
        o ← oget h;
        if valid o && (refcount o <=? 0) then
          oupd h (set_refcount 1) ;;
          zupd pz (set_type IS_SCALAR) ;;
          zend_objects_store_del_ref_by_handle_ex run_dtor (run_free (zval_ptr_dtor run_dtor gc_collect_cycles std_object_handlers fuel)) h std_object_handlers
        else mret true
      else mret true
  | IS_ARRAY l | IS_GLOBALS l => zupd pz (set_type IS_SCALAR) ;; each_ok (zval_ptr_dtor run_dtor gc_collect_cycles std_object_handlers fuel) l
  | IS_SCALAR => zupd pz (set_type IS_SCALAR) ;; mret true
  end.

Fixpoint destroy_loop (depth fuel : nat) (p : Z) : gcmd bool :=
  match fuel with
  | O => cfault
  | S fuel =>
      if p =? FREE_LIST_END then mret true
      else
        pz ← zval_at p;
        z ← zget pz;
        modify (set_next_to_free (u_word z)) ;;
        ok ← destroy_zval depth pz;
        if ok : bool then next ← gets next_to_free; destroy_loop depth fuel next else mret false
  end.

(** "Free zvals" *)
Fixpoint free_loop (fuel : nat) (p : Z) : gcmd unit :=
  match fuel with
  | O => cfault
  | S fuel =>
      if p =? FREE_LIST_END then mret tt
      else
        pz ← zval_at p;
        z ← zget pz;
        efree_zval pz ;;
        free_loop fuel (u_word z)
  end.

(** [gc_collect_cycles]: the number of zvals freed, [None] when a destructor bails out.
    The collections that a full root buffer starts on the way are [gc_collect_cycles]
    again, here the parameter. *)
Definition gc_collect_cycles_body : gcmd (option Z) :=
  orig_free_list ← gets free_list;
  orig_next_to_free ← gets next_to_free;
  found ← gc_find_garbage;
  if found : bool then
    n ← nesting;
    p ← gets free_list;
    count ← destructors_loop n p 0;
    match count with
    | None => mret None
    | Some count =>
        p ← gets free_list;
        ok ← destroy_loop n n p;
        if ok : bool then
          p ← gets free_list;
          free_loop n p ;;
          modify (fun s => set_collected (u32 (collected s + count)) s) ;;
          modify (set_free_list orig_free_list) ;;
          modify (set_next_to_free orig_next_to_free) ;;
          mret (Some count)
        else mret None
    end
  else mret (Some 0).

End cycles.

(** The collector with at most [depth] collections nested. *)
Fixpoint gc_collect_cycles (run_dtor : Z -> Z -> zhandle -> gcmd bool) (std_object_handlers : Z) (depth : nat) : gcmd (option Z) :=
  match depth with
  | O => cfault
  | S depth =>
      gc_collect_cycles_body run_dtor (gc_collect_cycles run_dtor std_object_handlers depth ;; mret tt) std_object_handlers
  end.
