(* ===== verification/ZendGCBuffer.v ===== *)
(** * ZendGCBuffer: possible roots

    The root buffer as the functions outside of a collection use it: [gc_zval_possible_root]
    and the functions that remove a value again keep the entries, the words of the nodes and
    the unused entries consistent.  During the destruction of garbage the zvals of the
    free list use their words as links; they are the parameter [F]. *)
From S2P Require Import Prelude Memory ZendGC ZendGCGraph ZendGCSweep ZendGCScan ZendGCRoots.
From stdpp Require Import base option list gmap.
Local Open Scope Z_scope.

(** ** The entries of the buffer *)

(** The used part of the buffer consists of the entries in the root list, the unused ones
    and those in [l]. *)
Record buffer_with (l : list rptr) (s : gc) : Prop := {
  bw_buf : 0 < buf s /\ buf s mod 4 = 0;
  bw_first : exists k, 0 <= k /\ first_unused s = buf s + 32 * k;
  bw_last : exists k, 0 <= k /\ last_unused s = first_unused s + 32 * k;
  bw_end : last_unused s <= FREE_LIST_END;
  bw_ids : NoDup (l ++ (roots s).*1 ++ unused s);
  bw_range : forall r, r ∈ l ++ (roots s).*1 ++ unused s -> exists k, 0 <= k /\ r = buf s + 32 * k /\ r < first_unused s;
  bw_count : first_unused s = buf s + 32 * Z.of_nat (length (l ++ (roots s).*1 ++ unused s));
  bw_apart : forall p, is_Some (type_at s p) -> zaddr p < buf s \/ last_unused s <= zaddr p
}.

Abbreviation buffer_wf := (buffer_with []).

Definition capacity (s : gc) : Z := (last_unused s - buf s) / 32.

Lemma buffer_entry l s r : buffer_with l s -> r ∈ l ++ (roots s).*1 ++ unused s ->
  r <> NULL /\ r mod 4 = 0 /\ buf s <= r < last_unused s.
Proof.
  intros HB Hr. destruct (bw_range _ _ HB r Hr) as (k & Hk & -> & Hlt). destruct (bw_buf _ _ HB) as [Hb Hm].
  destruct (bw_last _ _ HB) as (j & Hj & Hl). unfold NULL. split_and!; try lia.
  Z.to_euclidean_division_equations. lia.
Qed.

(** Everything but the lists of the buffer. *)
Definition aside (s s' : gc) : Prop :=
  zvals s' = zvals s /\ object_buckets s' = object_buckets s /\ roots s' = roots s /\
  rest s' = rest (set_first_unused (first_unused s') s).

Lemma aside_graph s s' : aside s s' -> same_graph s s' /\ (forall n, word s' n = word s n) /\ (forall n, rc s' n = rc s n).
Proof.
  intros (Hz & Ho & _). unfold word, rc, obj_at. split_and!; [split|intros [?|?]|intros [?|?]]; intros;
    unfold type_at, refs_at, attrs_at, obj_at; by rewrite ?Hz, ?Ho.
Qed.

Lemma wp_new_root c keep release s Q :
  buffer_wf s -> gc_enabled s = false \/ Z.of_nat (length (roots s)) < capacity s ->
  (gc_enabled s = false -> Q None s) ->
  (forall r s', aside s s' -> buffer_with [r] s' -> Q (Some r) s') ->
  wp (new_root c keep release) Q s.
Proof.
  intros HB Hroom Hnone Hsome. destruct (HB) as [Hb [k [Hk Hf]] [j [Hj Hl]] He Hids Hrg Hct Hap].
  unfold new_root. apply wp_bind, wp_gets. destruct (unused s) as [|r un] eqn:Hu.
  - apply wp_bind, wp_gets, wp_bind, wp_gets. destruct (first_unused s =? last_unused s) eqn:Heq; cbn [negb].
    + apply wp_bind, wp_gets. apply Z.eqb_eq in Heq. destruct (gc_enabled s); [|by apply wp_ret, Hnone]. exfalso.
      destruct Hroom as [|Hroom]; [done|]. unfold capacity in Hroom. simpl in Hct.
      rewrite app_nil_r, length_fmap in Hct. rewrite <- Heq, Hct in Hroom.
      replace (buf s + 32 * Z.of_nat (length (roots s)) - buf s) with (Z.of_nat (length (roots s)) * 32) in Hroom by lia.
      rewrite Z.div_mul in Hroom by lia. lia.
    + apply Z.eqb_neq in Heq. apply wp_bind, wp_modify, wp_ret. apply Hsome; [by split_and!|].
      simpl in Hids, Hrg, Hct. rewrite app_nil_r in Hids, Hrg, Hct.
      assert (32 <= last_unused s - first_unused s) as Hge by (destruct (decide (j = 0)); lia).
      split; simpl; rewrite ?Hu, ?app_nil_r; try done.
      * exists (k + 1). unfold sizeof_gc_root_buffer. lia.
      * exists (j - 1). unfold sizeof_gc_root_buffer. lia.
      * apply NoDup_cons. split; [|done]. intros Hin. destruct (Hrg _ Hin) as (? & ? & ? & ?). lia.
      * intros r [->|Hin]%elem_of_cons; [exists k; unfold sizeof_gc_root_buffer; lia|].
        destruct (Hrg _ Hin) as (i & ? & ? & ?). exists i. unfold sizeof_gc_root_buffer. lia.
      * unfold sizeof_gc_root_buffer. rewrite Hct at 1. lia.
  - apply wp_bind, wp_modify, wp_ret. apply Hsome; [by split_and!|]. simpl in Hids, Hrg, Hct.
    assert ((roots s).*1 ++ r :: un ≡ₚ r :: (roots s).*1 ++ un) as HP by solve_Permutation.
    split; simpl; try done; [eauto..| | |].
    + by rewrite <- HP.
    + intros r'. change (r' ∈ r :: (roots s).*1 ++ un -> exists k, 0 <= k /\ r' = buf s + 32 * k /\ r' < first_unused s).
      rewrite <- HP. apply Hrg.
    + rewrite Hct at 1. by rewrite HP.
Qed.

(** ** Words and entries *)

(** The entries stand for values outside [NZ <$> F], and the words of these values say so. *)
Record roots_wf (F : list zptr) (s : gc) : Prop := {
  rw_there : forall e, e ∈ roots s -> is_there s (target e);
  rw_entries : forall e, e ∈ roots s -> address s (target e) = e.1 /\ target e ∉ NZ <$> F;
  rw_address : forall n, is_there s n -> n ∉ NZ <$> F -> address s n <> NULL -> exists e, e ∈ roots s /\ target e = n;
  rw_color : forall n, is_there s n -> n ∉ NZ <$> F -> color s n = GC_BLACK \/ color s n = GC_PURPLE
}.

Lemma set_entry_word w r : r mod 4 = 0 -> GC_SET_ADDRESS (GC_SET_PURPLE w) r = r + GC_PURPLE.
Proof.
  intros Hr. unfold GC_SET_ADDRESS, GC_SET_PURPLE, GC_COLOR, GC_PURPLE.
  replace (Z.land (Z.lor w 3) 3) with 3.
  - rewrite Z.lor_comm. replace r with (4 * (r / 4)) at 1 by (Z.to_euclidean_division_equations; lia).
    rewrite lor_color by lia. Z.to_euclidean_division_equations. lia.
  - apply Z.bits_inj'. intros i _. rewrite Z.land_spec, Z.lor_spec. by destruct (Z.testbit w i), (Z.testbit 3 i).
Qed.

Definition registered (n : node) (e : entry) (s : gc) : gc :=
  put_word n (e.1 + GC_PURPLE) (set_roots (e :: roots s) (put_word n (GC_SET_PURPLE (word s n)) s)).

Lemma registered_spec n e s :
  is_there s n ->
  same_graph s (registered n e s) /\
  (forall m, word (registered n e s) m = if decide (m = n) then e.1 + GC_PURPLE else word s m) /\
  (forall m, rc (registered n e s) m = rc s m) /\
  roots (registered n e s) = e :: roots s /\ unused (registered n e s) = unused s /\
  rest (registered n e s) = rest s.
Proof.
  intros Hn. unfold registered. set (w1 := GC_SET_PURPLE (word s n)).
  destruct (put_word_same n w1 s) as [G1 (R1 & U1 & O1)]. set (t := put_word n w1 s) in *.
  set (u := set_roots (e :: roots s) t). assert (same_graph t u) as Gu by by split.
  destruct (put_word_same n (e.1 + GC_PURPLE) u) as [G2 (R2 & U2 & O2)].
  assert (is_there u n) as Hu by (apply (there_same _ _ _ Gu), (there_same _ _ _ G1), Hn).
  split_and!.
  - transitivity t; [done|]. by transitivity u.
  - intros m. rewrite word_put_word by done. case_decide; [done|].
    change (word t m = word s m). unfold t. by rewrite word_put_word, decide_False.
  - intros m. rewrite rc_put_word. change (rc t m = rc s m). apply rc_put_word.
  - by rewrite R2.
  - rewrite U2. exact U1.
  - rewrite O2. exact O1.
Qed.

Lemma registered_wf F n e s :
  roots_wf F s -> buffer_with [e.1] s -> is_there s n -> n ∉ NZ <$> F -> target e = n -> address s n = NULL ->
  roots_wf F (registered n e s) /\ buffer_wf (registered n e s).
Proof.
  intros [Ht He Ha Hc] HB Hn HnF Hte Hnull. destruct (registered_spec n e s Hn) as (G & Hw & Hrc & Hr & Hu & Ho).
  set (t := registered n e s) in *.
  destruct (buffer_entry _ _ e.1 HB ltac:(set_solver)) as (He0 & He4 & Herange).
  assert (address t n = e.1) as Han.
  { unfold address. rewrite Hw, decide_True by done. unfold GC_PURPLE. gc_words. }
  assert (color t n = GC_PURPLE) as Hcn.
  { unfold color. rewrite Hw, decide_True by done. unfold GC_PURPLE. gc_words. }
  assert (forall m, m <> n -> address t m = address s m /\ color t m = color s m) as Hother
    by (intros m Hm; unfold address, color; by rewrite Hw, decide_False).
  split.
  - split.
    + intros e'. rewrite Hr, (there_same _ _ _ G). intros [->|]%elem_of_cons; [by rewrite Hte|auto].
    + intros e'. rewrite Hr. intros [->|He']%elem_of_cons; [by rewrite Hte|].
      destruct (He e' He') as [H1 H2]. split; [|done]. assert (target e' <> n) as Hne; [|by rewrite (proj1 (Hother _ Hne))].
      intros Heq. rewrite Heq, Hnull in H1. destruct (buffer_entry _ _ e'.1 HB) as [Hne _]; [|by destruct Hne].
      apply elem_of_app. right. apply elem_of_app. left. by apply list_elem_of_fmap_2.
    + intros m Hm HmF Hma. rewrite Hr. apply (there_same _ _ _ G) in Hm.
      destruct (decide (m = n)) as [->|Hne]; [exists e; set_solver|]. rewrite (proj1 (Hother m Hne)) in Hma.
      destruct (Ha m Hm HmF Hma) as (e' & He' & Heq). exists e'. set_solver.
    + intros m Hm HmF. apply (there_same _ _ _ G) in Hm. destruct (decide (m = n)) as [->|Hne]; [by right|].
      rewrite (proj2 (Hother m Hne)). by apply Hc.
  - destruct HB as [Hb Hf Hl Hend Hids Hrg Hct Hap]. unfold rest in Ho. injection Ho as E1 E2 E3 _.
    split; rewrite ?Hr, ?Hu, ?E1, ?E2, ?E3; try done. intros p. rewrite (same_type _ _ G). apply Hap.
Qed.

(** ** Room in the buffer *)

(** The buffer has room for all values, or is not to start collections when it is full. *)
Definition fits (s : gc) : Prop := gc_enabled s = false \/
  forall l, NoDup l -> Forall (is_there s) l -> Z.of_nat (length l) <= capacity s.

Lemma roots_targets F s : roots_wf F s -> NoDup (roots s).*1 -> NoDup (target <$> roots s).
Proof.
  intros HR Hids. assert (forall e e', e ∈ roots s -> e' ∈ roots s -> target e = target e' -> e = e') as Hinj.
  { intros e e' He He' Heq. apply (ids_inj (roots s)); try done.
    by rewrite <- (proj1 (rw_entries _ _ HR e He)), <- (proj1 (rw_entries _ _ HR e' He')), Heq. }
  apply NoDup_fmap_1 in Hids. induction Hids as [|e l He Hl IH]; simpl; [constructor|].
  apply NoDup_cons. split; [|apply IH; intros; apply Hinj; set_solver].
  intros (e' & Heq & He')%list_elem_of_fmap. apply He. rewrite (Hinj e e'); set_solver.
Qed.

Lemma roots_room F s n :
  roots_wf F s -> buffer_wf s -> fits s -> is_there s n -> n ∉ NZ <$> F -> address s n = NULL ->
  gc_enabled s = false \/ Z.of_nat (length (roots s)) < capacity s.
Proof.
  intros HR HB [Hf|Hf] Hn HnF Ha; [by left|right].
  assert (NoDup (roots s).*1) as Hids by (pose proof (bw_ids _ _ HB) as H; simpl in H; by apply NoDup_app in H as (? & _ & _)).
  specialize (Hf (n :: (target <$> roots s))). rewrite length_cons, length_fmap in Hf.
  assert (Z.of_nat (S (length (roots s))) <= capacity s); [apply Hf|lia].
  - apply NoDup_cons. split; [|by eapply roots_targets]. intros (e & -> & He)%list_elem_of_fmap.
    rewrite (proj1 (rw_entries _ _ HR e He)) in Ha. destruct (buffer_entry _ _ e.1 HB) as [Hne _]; [|done].
    simpl. apply elem_of_app. left. by apply list_elem_of_fmap_2.
  - constructor; [done|]. apply Forall_forall. intros m (e & -> & He)%list_elem_of_fmap. by apply (rw_there _ _ HR).
Qed.

(** ** The functions *)

(** Only the buffer and the words of values outside [F] change. *)
Record buffer_step (F : list zptr) (s s' : gc) : Prop := {
  bs_graph : same_graph s s';
  bs_rc : forall n, rc s' n = rc s n;
  bs_words : forall p, p ∈ F -> word s' (NZ p) = word s (NZ p);
  bs_purple : forall n, color s n = GC_PURPLE -> word s' n = word s n;
  bs_rest : rest s' = rest (set_first_unused (first_unused s') s)
}.

Lemma buffer_step_refl F s : buffer_step F s s.
Proof. by split. Qed.

Lemma buffer_step_fits F s s' : buffer_step F s s' -> fits s -> fits s'.
Proof.
  intros [G _ _ _ Ho]. unfold rest in Ho. simpl in Ho. unfold fits, capacity.
  injection Ho as E1 E2 E3 _ _ _ _ _ _ _. rewrite E1, E2, E3. intros [Hf|Hf]; [by left|right].
  intros l Hl Hall. apply Hf; [done|]. eapply Forall_impl; [done|]. intros n. by rewrite (there_same _ _ _ G).
Qed.

Definition fresh_root (s : gc) (n : node) : Prop := color s n <> GC_PURPLE /\ address s n = NULL.

(** The entry for [n] once it has been found. *)
Lemma register_step F n e s s1 :
  roots_wf F s -> aside s s1 -> buffer_with [e.1] s1 -> is_there s n -> n ∉ NZ <$> F -> target e = n ->
  fresh_root s n ->
  let s' := registered n e s1 in
  roots_wf F s' /\ buffer_wf s' /\ buffer_step F s s' /\ (is_node s n -> candidate s' n).
Proof.
  intros HR Has HB Hn HnF Hte [Hfc Ha] s'. destruct (aside_graph _ _ Has) as (G & Hw & Hrc).
  destruct Has as (_ & _ & Hro & Hre).
  assert (roots_wf F s1) as HR1.
  { destruct HR as [H1 H2 H3 H4]. unfold address, color in *. split; intros *; rewrite ?Hro, ?Hw, ?(there_same _ _ _ G);
      unfold address, color; rewrite ?Hw; auto. }
  assert (is_there s1 n) as Hn1 by by apply (there_same _ _ _ G).
  assert (address s1 n = NULL) as Ha1 by (unfold address in *; by rewrite Hw).
  destruct (registered_wf F n e s1 HR1 HB Hn1 HnF Hte Ha1) as [HR' HB'].
  destruct (registered_spec n e s1 Hn1) as (G' & Hw' & Hrc' & Hr' & Hu' & Ho').
  split_and!; [done..| |].
  - split.
    + by transitivity s1.
    + intros m. unfold s'. by rewrite Hrc', Hrc.
    + intros p Hp. unfold s'. rewrite Hw', decide_False; [done|]. intros <-. by apply HnF, list_elem_of_fmap_2.
    + intros m Hm. unfold s'. rewrite Hw', decide_False; [done|]. by intros ->.
    + unfold s'. rewrite Ho', Hre. unfold rest in Ho'. injection Ho' as _ E _. by rewrite E.
  - intros Hnode. exists e. unfold s'. rewrite Hr', Hte. split_and!; [set_solver| | |done].
    + apply (same_node _ _ _ G'), (same_node _ _ _ G), Hnode.
    + unfold color. rewrite Hw', decide_True by done.
      destruct (buffer_entry _ _ e.1 HB ltac:(set_solver)) as (_ & He4 & _). unfold GC_PURPLE. gc_words.
Qed.

(** The node a zval is registered as, if any. *)
Definition root_of (s : gc) (zv : zptr) : option node :=
  match type_at s zv with
  | Some (IS_OBJECT h) =>
      match refs_at s h with Some (true, Some _) => Some (NO h) | _ => None end
  | Some IS_SCALAR | None => None
  | Some _ => Some (NZ zv)
  end.

Section possible_root.
Context (c : gcmd unit) (F : list zptr).

(** What a call for [n] leaves. *)
Definition rooted (n : node) (s s' : gc) : Prop :=
  roots_wf F s' /\ buffer_wf s' /\ buffer_step F s s' /\
  (fresh_root s n -> is_node s n -> gc_enabled s = true -> candidate s' n).

Lemma rooted_same n s : roots_wf F s -> buffer_wf s -> ~ fresh_root s n \/ gc_enabled s = false -> rooted n s s.
Proof.
  intros HR HB Hno. split_and!; [done..|apply buffer_step_refl|]. intros Hf _ He. destruct Hno as [?|Hno]; [done|].
  by rewrite He in Hno.
Qed.

Lemma wp_zobj_possible_root zv h s Q :
  roots_wf F s -> buffer_wf s -> fits s -> (is_Some (object_buckets s) -> is_there s (NO h)) ->
  (forall s', roots_wf F s' -> buffer_wf s' -> buffer_step F s s' ->
    (forall b x, refs_at s h = Some (b, Some x) -> rooted (NO h) s s') -> Q tt s') ->
  wp (gc_zobj_possible_root c zv h) Q s.
Proof.
  intros HR HB Hfits Hh HQ. unfold gc_zobj_possible_root. apply wp_bind, wp_gets. case_bool_decide as Ho.
  2: { apply wp_ret, HQ; try done. intros b x Hx.
       assert (is_Some (obj_at s h)) as [o Hobj] by (apply refs_obj; by rewrite Hx). unfold obj_at in Hobj.
       by destruct (object_buckets s); [destruct Ho|]. }
  specialize (Hh Ho). destruct (node_obj _ _ Hh) as (m & o & _ & _ & Hobj).
  apply wp_bind. eapply wp_oget; [done|].
  assert (word s (NO h) = buffered o) as Hw by (simpl; by rewrite Hobj).
  assert (refs_at s h = Some (valid o, get_gc o)) as Href by (unfold refs_at; by rewrite Hobj).
  destruct (get_gc o) as [data|]; [|by apply wp_ret, HQ; [..|intros b x Hx; simplify_eq]].
  assert (forall s', rooted (NO h) s s' -> Q tt s') as HQ'
    by (intros s' Hs'; pose proof Hs' as (? & ? & ? & _); by apply HQ).
  destruct (negb (GC_GET_COLOR (buffered o) =? GC_PURPLE) && (GC_ADDRESS (buffered o) =? NULL)) eqn:Hc.
  2: { apply wp_ret, HQ', rooted_same; [done..|left]. intros [H1 H2]. unfold color, address in *. rewrite Hw in *.
       apply Z.eqb_neq in H1. apply Z.eqb_eq in H2. by rewrite H1, H2 in Hc. }
  apply andb_true_iff in Hc as [Hc1 Hc2]. apply negb_true_iff, Z.eqb_neq in Hc1. apply Z.eqb_eq in Hc2.
  rewrite <- Hw in Hc1, Hc2. fold (color s (NO h)) in Hc1. fold (address s (NO h)) in Hc2.
  assert (NO h ∉ NZ <$> F) as HnF by by intros (? & ? & _)%list_elem_of_fmap.
  apply wp_bind, wp_new_root; [done|by eapply roots_room| |].
  { intros He. apply wp_ret, HQ', rooted_same; auto. }
  intros r s1 Has HB1. destruct (aside_graph _ _ Has) as (G & Hw1 & _).
  destruct (buffer_entry _ _ r HB1 ltac:(set_solver)) as (_ & Hr4 & _).
  assert (is_there s1 (NO h)) as Hn1 by by apply (there_same _ _ _ G).
  apply wp_bind. eapply (wp_oupd_word h (GC_SET_PURPLE (word s1 (NO h)))); [done| |].
  { intros o' Ho'. cbn [word]. by rewrite Ho'. }
  set (w1 := GC_SET_PURPLE (word s1 (NO h))). destruct (put_word_same (NO h) w1 s1) as [G2 (Hr2 & _)].
  apply wp_bind, wp_modify. eapply (wp_oupd_word h (r + GC_PURPLE)).
  { change (is_there (put_word (NO h) w1 s1) (NO h)). by apply (there_same _ _ _ G2). }
  { intros o' Ho'. change (obj_at (put_word (NO h) w1 s1) h = Some o') in Ho'. f_equal.
    rewrite <- (set_entry_word (word s1 (NO h)) r Hr4). f_equal.
    pose proof (word_put_word (NO h) w1 s1 (NO h) Hn1) as E. rewrite decide_True in E by done.
    cbn [word] in E. by rewrite Ho' in E. }
  rewrite Hr2. apply HQ'. destruct (register_step F (NO h) (r, RootObj h) s s1) as (? & ? & ? & Hcand); try done.
  by split_and!; auto.
Qed.

Lemma wp_zval_register zv s Q :
  roots_wf F s -> buffer_wf s -> fits s -> is_there s (NZ zv) -> zv ∉ F ->
  (forall s', rooted (NZ zv) s s' -> Q tt s') ->
  wp (if negb (GC_GET_COLOR (word s (NZ zv)) =? GC_PURPLE) && (GC_ADDRESS (word s (NZ zv)) =? NULL) then
        newRoot ← new_root c (zupd zv (add_zref 1)) (zupd zv (add_zref (-1)));
        match newRoot with
        | None => mret tt
        | Some r =>
            zupd zv (fun z => set_word (GC_SET_PURPLE (u_word z)) z) ;;
            modify (fun s => set_roots ((r, RootZval zv) :: roots s) s) ;;
            GC_ZVAL_SET_ADDRESS zv r
        end
      else mret tt) Q s.
Proof.
  intros HR HB Hfits Hn HzF HQ. assert (NZ zv ∉ NZ <$> F) as HnF by (rewrite list_elem_of_fmap; naive_solver).
  destruct (negb _ && _) eqn:Hc.
  2: { apply wp_ret, HQ, rooted_same; [done..|left]. intros [H1 H2]. unfold color, address in *.
       apply Z.eqb_neq in H1. apply Z.eqb_eq in H2. by rewrite H1, H2 in Hc. }
  apply andb_true_iff in Hc as [Hc Ha]. apply negb_true_iff, Z.eqb_neq in Hc. apply Z.eqb_eq in Ha.
  fold (color s (NZ zv)) in Hc. fold (address s (NZ zv)) in Ha.
  apply wp_bind, wp_new_root; [done|by eapply roots_room| |].
  { intros He. apply wp_ret, HQ, rooted_same; auto. }
  intros r s1 Has HB1. destruct (aside_graph _ _ Has) as (G & Hw1 & _).
  destruct (buffer_entry _ _ r HB1 ltac:(set_solver)) as (_ & Hr4 & _).
  assert (is_there s1 (NZ zv)) as Hn1 by by apply (there_same _ _ _ G).
  apply wp_bind. eapply (wp_zupd_word zv (GC_SET_PURPLE (word s1 (NZ zv)))); [done| |].
  { intros z' Hz'. cbn [word]. by rewrite Hz'. }
  set (w1 := GC_SET_PURPLE (word s1 (NZ zv))). destruct (put_word_same (NZ zv) w1 s1) as [G2 (Hr2 & _)].
  apply wp_bind, wp_modify. eapply (wp_zupd_word zv (r + GC_PURPLE)).
  { change (is_there (put_word (NZ zv) w1 s1) (NZ zv)). by apply (there_same _ _ _ G2). }
  { intros z' Hz'. change (zvals (put_word (NZ zv) w1 s1) !! zv = Some z') in Hz'. f_equal.
    rewrite <- (set_entry_word (word s1 (NZ zv)) r Hr4). f_equal.
    pose proof (word_put_word (NZ zv) w1 s1 (NZ zv) Hn1) as E. rewrite decide_True in E by done.
    cbn [word] in E. by rewrite Hz' in E. }
  rewrite Hr2. apply HQ. destruct (register_step F (NZ zv) (r, RootZval zv) s s1) as (? & ? & ? & Hcand); try done.
  by split_and!; auto.
Qed.

(** The word of a zval in the free list. *)
Definition link_word (s : gc) (w : Z) : Prop :=
  free_list s <> NULL /\ w mod 4 = 0 /\ w <> 0 /\ (w < buf s \/ last_unused s <= w).

Lemma being_freed_link s w : link_word s w -> being_freed w s && negb (GC_ADDRESS w =? NULL) = true.
Proof.
  intros (Hf & H4 & H0 & Hr). assert (GC_ADDRESS w = w) as Ha by gc_words. unfold being_freed. rewrite Ha.
  assert (GC_GET_COLOR w = GC_BLACK) as -> by gc_words.
  rewrite (proj2 (Z.eqb_neq _ _) Hf), (proj2 (Z.eqb_neq w NULL) H0). simpl. rewrite andb_true_r.
  apply orb_true_iff. rewrite Z.ltb_lt, Z.leb_le. done.
Qed.

Lemma being_freed_entry s zv :
  roots_wf F s -> buffer_wf s -> is_there s (NZ zv) -> zv ∉ F ->
  being_freed (word s (NZ zv)) s && negb (GC_ADDRESS (word s (NZ zv)) =? NULL) = false.
Proof.
  intros HR HB Hn HF. apply not_true_is_false. intros [Hb Ha]%andb_true_iff.
  apply negb_true_iff, Z.eqb_neq in Ha. fold (address s (NZ zv)) in Ha.
  assert (NZ zv ∉ NZ <$> F) as HnF by (rewrite list_elem_of_fmap; naive_solver).
  destruct (rw_address _ _ HR _ Hn HnF Ha) as (e & He & Heq). pose proof (proj1 (rw_entries _ _ HR e He)) as Hae.
  rewrite Heq in Hae. destruct (buffer_entry _ _ e.1 HB) as (_ & _ & Hrange).
  { simpl. apply elem_of_app. left. by apply list_elem_of_fmap_2. }
  unfold being_freed in Hb. fold (address s (NZ zv)) in Hb. rewrite Hae in Hb.
  apply andb_true_iff in Hb as [_ [Hb|Hb]%orb_true_iff]; [apply Z.ltb_lt in Hb|apply Z.leb_le in Hb]; lia.
Qed.

Lemma wp_check_possible_root zv s Q :
  roots_wf F s -> buffer_wf s -> fits s -> closed s -> is_there s (NZ zv) ->
  (zv ∈ F -> link_word s (word s (NZ zv))) ->
  (forall s', roots_wf F s' -> buffer_wf s' -> buffer_step F s s' ->
    (forall n, zv ∉ F -> root_of s zv = Some n -> rooted n s s') -> Q tt s') ->
  wp (gc_zval_check_possible_root c zv) Q s.
Proof.
  intros HR HB Hfits Hcl Hn Hlink HQ. destruct (there_zval _ _ Hn) as (z & Hz & Ht).
  assert (word s (NZ zv) = u_word z) as Hw by (simpl; by rewrite Hz).
  unfold gc_zval_check_possible_root. apply wp_bind. eapply wp_zget; [done|].
  destruct (z_type z) as [l|l|h|] eqn:Htz.
  4: { apply wp_ret, HQ; try done. intros n _. unfold root_of. by rewrite Ht. }
  all: unfold gc_zval_possible_root; apply wp_bind; eapply wp_zget; [done|]; apply wp_bind, wp_gets.
  all: destruct (decide (zv ∈ F)) as [HF|HF];
    [rewrite being_freed_link by (rewrite <- Hw; auto); apply wp_ret, HQ; [done..|by intros n []]|].
  all: rewrite <- Hw, being_freed_entry by done; rewrite Htz.
  1, 2: apply wp_zval_register; try done; intros s' Hs'; pose proof Hs' as (? & ? & ? & _); apply HQ; [done..|];
    intros n _; unfold root_of; rewrite Ht; by intros [= <-].
  unfold GC_ZOBJ_CHECK_POSSIBLE_ROOT. apply wp_bind, wp_gets. case_bool_decide as Ho.
  - pose proof (closed_object _ Hcl _ _ Ht Ho) as [o Hobj]. apply wp_bind. eapply wp_oget; [done|].
    assert (refs_at s h = Some (valid o, get_gc o)) as Href by (unfold refs_at; by rewrite Hobj).
    destruct (valid o) eqn:Hv.
    + apply wp_zobj_possible_root; try done; [by eexists|]. intros s' H1 H2 H3 H4. apply HQ; [done..|]. intros n _. unfold root_of.
      rewrite Ht, Href. destruct (get_gc o); [|done]. intros [= <-]. by eapply H4.
    + apply wp_ret, HQ; try done. intros n _. unfold root_of. by rewrite Ht, Href.
  - apply wp_ret, HQ; try done. intros n _. unfold root_of. rewrite Ht.
    assert (refs_at s h = None) as ->; [|done]. unfold refs_at, obj_at. by destruct (object_buckets s); [destruct Ho|].
Qed.
End possible_root.
