(* ===== verification/ZendGCFree.v ===== *)
(** * ZendGCFree: the release of garbage

    After the search, [gc_collect_cycles] destroys the zvals of the free list: every reference
    that garbage holds is dropped once.  The extra reference that each zval of the list
    has got keeps it until the list itself is freed, survivors keep the references they have
    from outside, and the arrays and objects among them become possible roots. *)
From S2P Require Import Prelude Memory ZendGC ZendGCGraph ZendGCSweep ZendGCPasses ZendGCScan ZendGCRoots.
From S2P Require Import ZendGCCollect ZendGCSpec ZendGCBuffer ZendObjectsStore ZendObjectsStoreSpec ZendVariables ZendGCCycles.
From stdpp Require Import base option list gmap relations.
Local Open Scope Z_scope.

(** ** References held *)

(** The zvals that a node holds, the array of global variables among them. *)
Definition drops (s : gc) (n : node) : list zptr :=
  match n with
  | NZ p => match type_at s p with Some (IS_ARRAY l) => l | _ => [] end
  | NO h => from_option pointers [] (refs_at s h)
  end.

Definition drops_of (s : gc) (T : list node) : list zptr := T ≫= drops s.

Definition pcnt (p : zptr) (l : list zptr) : Z := Z.of_nat (count_occ Pos.eq_dec l p).

Lemma pcnt_app p l1 l2 : pcnt p (l1 ++ l2) = pcnt p l1 + pcnt p l2.
Proof. unfold pcnt. rewrite count_occ_app. lia. Qed.

Lemma pcnt_cons p q l : pcnt p (q :: l) = (if decide (p = q) then 1 else 0) + pcnt p l.
Proof.
  unfold pcnt. simpl. destruct (Pos.eq_dec q p) as [->|Hne]; [rewrite decide_True by done; lia|].
  rewrite decide_False by congruence. lia.
Qed.

Lemma pcnt_here p l : pcnt p (p :: l) = 1 + pcnt p l.
Proof. by rewrite pcnt_cons, decide_True. Qed.

Lemma pcnt_nonneg p l : 0 <= pcnt p l.
Proof. unfold pcnt. lia. Qed.

Lemma pcnt_pos p l : p ∈ l <-> 0 < pcnt p l.
Proof. unfold pcnt. rewrite list_elem_of_In, (count_occ_In Pos.eq_dec). lia. Qed.

Lemma drops_of_perm s p T T' : T ≡ₚ T' -> pcnt p (drops_of s T) = pcnt p (drops_of s T').
Proof. intros HT. unfold pcnt. f_equal. apply (Permutation_count_occ Pos.eq_dec). unfold drops_of. by rewrite HT. Qed.

Lemma cnt_plain_nodes s p l : plain s p = true -> cnt (NZ p) (plain_nodes s l) = pcnt p l.
Proof.
  intros Hp. induction l as [|q l IH]; [done|]. change (q :: l) with ([q] ++ l).
  rewrite plain_nodes_app, cnt_app, IH, pcnt_app, plain_nodes_one. f_equal.
  rewrite pcnt_cons. change (pcnt p []) with 0. destruct (decide (p = q)) as [->|Hne].
  - by rewrite Hp, cnt_cons, decide_True.
  - destruct (plain s q); [|done]. rewrite cnt_cons, decide_False by congruence. done.
Qed.

Lemma drops_kids s p n : plain s p = true -> cnt (NZ p) (kids s n) = pcnt p (drops s n).
Proof.
  intros Hp. destruct n as [q|h]; simpl.
  - destruct (type_at s q) as [[l|l|h|]|]; try done; [by apply cnt_plain_nodes|]. by case_bool_decide.
  - destruct (refs_at s h) as [x|]; [by apply cnt_plain_nodes|done].
Qed.

Lemma drops_of_kids s p T : plain s p = true -> cnt (NZ p) (kids_of s T) = pcnt p (drops_of s T).
Proof.
  intros Hp. induction T as [|n T IH]; [done|].
  change (n :: T) with ([n] ++ T). rewrite kids_of_app, cnt_app, IH.
  unfold drops_of. rewrite bind_app, pcnt_app. f_equal. unfold kids_of. simpl. rewrite !app_nil_r. by apply drops_kids.
Qed.

Lemma drops_elem s p T : p ∈ drops_of s T <-> exists n, n ∈ T /\ p ∈ drops s n.
Proof. unfold drops_of. rewrite list_elem_of_bind. naive_solver. Qed.

(** ** Who holds what *)

Section holders.
Context (s : gc) (Hwf : gc_wf s) (M W : list node) (HG : is_garbage s M W).

Lemma garbage_sub n : n ∈ W -> n ∈ M.
Proof. intros Hn. by apply (proj2 (ig_garbage _ _ _ HG)). Qed.

Lemma candidate_node n : candidate s n -> is_node s n.
Proof.
  intros (e & He & Hn & _ & Hr). revert Hn. induction Hr as [|x y z Hxy _ IH]; intros Hx; [done|].
  apply IH. by eapply kids_nodes; [apply Hwf|].
Qed.

Lemma M_node n : n ∈ M -> is_node s n.
Proof. rewrite (proj2 (ig_candidates _ _ _ HG) n). apply candidate_node. Qed.

Lemma garbage_node n : n ∈ W -> is_node s n.
Proof. intros Hn. by apply M_node, garbage_sub. Qed.

Lemma M_kids n k : n ∈ M -> k ∈ kids s n -> k ∈ M.
Proof.
  rewrite !(proj2 (ig_candidates _ _ _ HG)). intros (e & He & Hn & Hc & Hr) Hk. exists e. split_and!; try done.
  eapply rtc_r; [done|]. exact Hk.
Qed.

Lemma counts_with T n : NoDup T -> T ## W -> (forall m, m ∈ T -> is_node s m) -> is_node s n ->
  cnt n (kids_of s T) + cnt n (kids_of s W) <= rc s n.
Proof.
  intros HT Hd Hn Hnn. rewrite <- cnt_app, <- kids_of_app. apply (wf_counts _ Hwf); [| |done].
  - apply NoDup_app. split_and!; [done| |apply HG]. intros m H1 H2. by apply (Hd m).
  - intros m [Hm|Hm]%elem_of_app; [by apply Hn|by apply garbage_node].
Qed.

(** Nothing outside refers to garbage. *)
Lemma garbage_unreferenced n k : is_node s n -> n ∉ W -> k ∈ kids s n -> k ∉ W.
Proof.
  intros Hn HnW Hk HkW. pose proof (counts_with [n] k) as Hc.
  assert (0 < cnt k (kids_of s [n])) as Hp by (apply cnt_pos; unfold kids_of; simpl; by rewrite app_nil_r).
  rewrite (ig_isolated _ _ _ HG k HkW) in Hc.
  specialize (Hc (NoDup_singleton _) ltac:(set_solver) ltac:(set_solver) (garbage_node k HkW)). lia.
Qed.

(** A survivor has a reference that garbage does not hold. *)
Lemma survivor_held n : n ∈ M -> n ∉ W -> cnt n (kids_of s W) < rc s n.
Proof.
  intros Hn HnW. pose proof (counts_with [] n ltac:(constructor) ltac:(set_solver) ltac:(set_solver) (M_node n Hn)) as Hle.
  change (kids_of s []) with (@nil node) in Hle. change (cnt n []) with 0 in Hle.
  destruct (decide (cnt n (kids_of s W) < rc s n)) as [|Hge]; [done|]. exfalso. apply HnW.
  apply (proj2 (ig_garbage _ _ _ HG)). split; [done|]. intros (m & Hm & Hh & Hr).
  destruct (rtc_inv_r _ _ Hr) as [<-|(y & Hmy & Hyn)].
  - unfold held in Hh. pose proof (cnt_kids_sub s m W M (proj1 (ig_garbage _ _ _ HG)) garbage_sub). lia.
  - assert (y ∈ M) as HyM.
    { clear Hyn Hh Hr. induction Hmy as [|x y z Hxy _ IH]; [done|]. by apply IH, (M_kids x). }
    assert (y ∉ W) as HyW.
    { intros [_ Hno]%(proj2 (ig_garbage _ _ _ HG)). apply Hno. eauto. }
    pose proof (counts_with [y] n (NoDup_singleton _) ltac:(set_solver)) as Hc.
    specialize (Hc ltac:(intros ? ->%list_elem_of_singleton; by apply M_node) (M_node n Hn)).
    assert (0 < cnt n (kids_of s [y])) by (apply cnt_pos; unfold kids_of; simpl; by rewrite app_nil_r). lia.
Qed.
End holders.

(** ** The heaps the theorem is about *)

Definition storage_at (s : gc) (h : zhandle) : option Z := free_storage <$> obj_at s h.

Record collectable (s : gc) : Prop := {
  co_wf : gc_wf s;
  co_buffer : buffer_wf s;
  co_fits : fits s;
  co_addresses : forall p, is_Some (type_at s p) -> zaddr p < FREE_LIST_END;
  (** no collection is going on *)
  co_idle : gc_active s = false /\ free_list s = NULL;
  (** objects are standard ones, and live ones are referenced *)
  co_live : forall h x, refs_at s h = Some (true, x) -> 0 < rc s (NO h);
  co_storage : forall h, is_Some (obj_at s h) -> storage_at s h <> Some NULL;
  co_std : forall h b table props, refs_at s h = Some (b, Some (table, Some props)) -> table = [];
  (** the array of global variables is also referenced from outside *)
  co_globals : forall p l T, type_at s p = Some (IS_GLOBALS l) -> NoDup T -> (forall m, m ∈ T -> is_node s m) ->
    pcnt p (drops_of s T) < rc s (NZ p) < 2 ^ 32 - 1
}.

(** ** Links of the free list *)

Lemma seg_word w a F b p : seg w a F b -> p ∈ F -> w (NZ p) = b \/ exists q, q ∈ F /\ w (NZ p) = zaddr q.
Proof.
  revert a. induction F as [|q F IH]; intros a; [by intros _ ?%elem_of_nil|]. simpl. intros [-> Hs] [->|Hp]%elem_of_cons.
  - destruct F as [|q' F]; simpl in Hs; [by left|]. right. exists q'. destruct Hs as [-> _]. set_solver.
  - destruct (IH _ Hs Hp) as [|(q' & Hq & ->)]; [by left|]. right. exists q'. set_solver.
Qed.

Section release.
Context (run_dtor : Z -> Z -> zhandle -> gcmd bool).
Context (dtor_none : forall f o h s, run_dtor f o h s = Some (true, s)).
Context (c : gcmd unit) (hts : Z).
Context (s : gc) (Hco : collectable s).
Context (s3 : gc) (M W : list node) (F : list zptr) (HF : garbage_found s s3 M W F).

Let Hwf : gc_wf s := co_wf _ Hco.
Let HG : is_garbage s M W := gf_garbage _ _ _ _ _ HF.

Lemma F_elem p : p ∈ F <-> NZ p ∈ W.
Proof. rewrite (proj1 (gf_list _ _ _ _ _ HF)). apply omap_zval_elem. Qed.

Lemma F_there p : p ∈ F -> is_there s (NZ p).
Proof. intros Hp. by apply node_there, (garbage_node s Hwf M W HG), F_elem. Qed.

(** *** What stays true during the release *)

(** The words, the buffer and the list itself. *)
Record buf_ok (nx : Z) (t : gc) : Prop := {
  bo_words : forall p, p ∈ F -> word t (NZ p) = word s3 (NZ p);
  bo_purple : forall h, NO h ∈ W -> word t (NO h) = GC_PURPLE;
  bo_roots : roots_wf F t;
  bo_buffer : buffer_wf t;
  bo_fits : fits t;
  bo_list : free_list t = free_list s3 /\ gc_active t = false;
  bo_next : next_to_free t = nx;
  bo_size : store_size t = store_size s3
}.

Lemma buf_ok_ext nx nx' t t' :
  (forall n, word t' n = word t n) -> (forall n, is_there t' n <-> is_there t n) ->
  roots t' = roots t -> unused t' = unused t ->
  rest t' = rest (set_next_to_free nx' (set_free_list_head (free_list_head t') t)) ->
  buf_ok nx t -> buf_ok nx' t'.
Proof.
  intros Hw Ht Hr Hu Ho [B1 B2 B3 B4 B5 B6 _ B8]. unfold rest in Ho. simpl in Ho.
  assert (store_size t' = store_size t) as E8 by congruence.
  injection Ho as E1 E2 E3 E4 E5 E6 E7 _ _ _. split.
  - intros p Hp. rewrite Hw. auto.
  - intros h Hh. rewrite Hw. auto.
  - destruct B3 as [H1 H2 H3 H4]. unfold address, color in *. split; intros *; rewrite ?Hr, ?Ht;
      unfold address, color; rewrite ?Hw; auto.
  - destruct B4 as [? ? ? ? ? ? ? Hap]. split; rewrite ?E1, ?E2, ?E3, ?Hr, ?Hu; try done. intros p Hp. apply Hap. by apply (Ht (NZ p)).
  - unfold fits, capacity in *. rewrite E1, E3, E4. destruct B5 as [|Hf]; [by left|right]. intros l Hl Hall.
    apply Hf; [done|]. eapply Forall_impl; [done|]. intros n. by rewrite Ht.
  - by rewrite E5, E6.
  - done.
  - by rewrite E8.
Qed.

(** The list goes on at [nx]. *)
Section step.
Context (nx : Z).

Lemma buf_ok_same t t' :
  (forall n, word t' n = word t n) -> (forall n, is_there t' n <-> is_there t n) ->
  roots t' = roots t -> unused t' = unused t -> rest t' = rest (set_free_list_head (free_list_head t') t) ->
  buf_ok nx t -> buf_ok nx t'.
Proof.
  intros Hw Ht Hr Hu Ho HB. eapply buf_ok_ext; try done. rewrite Ho, <- (bo_next _ _ HB). done.
Qed.

Lemma buf_ok_step t t' : buffer_step F t t' -> roots_wf F t' -> buffer_wf t' -> buf_ok nx t -> buf_ok nx t'.
Proof.
  intros Hs HR HB [B1 B2 B3 B4 B5 B6 B7 B8]. split; try done.
  - intros p Hp. rewrite (bs_words _ _ _ Hs) by done. auto.
  - intros h Hh. rewrite (bs_purple _ _ _ Hs); [auto|]. unfold color. by rewrite B2.
  - by eapply buffer_step_fits.
  - pose proof (bs_rest _ _ _ Hs) as Ho. unfold rest in Ho. simpl in Ho. injection Ho as E1 E2 E3 E4 E5 _ _ _ _.
    by rewrite E4, E5.
  - pose proof (bs_rest _ _ _ Hs) as Ho. unfold rest in Ho. simpl in Ho. congruence.
  - pose proof (bs_rest _ _ _ Hs) as Ho. unfold rest in Ho. simpl in Ho. congruence.
Qed.
(** The values: the zvals in [todo] are still to be destroyed, the objects of [W] in [left]
    or held at the moment are still valid. *)
Record shape (todo : list zptr) (left : list node) (held : option zhandle) (t : gc) : Prop := {
  sh_there : forall p, is_Some (type_at t p) <-> is_Some (type_at s p);
  sh_todo : forall p, p ∉ F \/ p ∈ todo -> type_at t p = type_at s p;
  sh_types : forall p, type_at t p = type_at s p \/ is_Some (type_at s p) /\ type_at t p = Some IS_SCALAR;
  sh_refs : forall h, refs_at t h =
    if decide (NO h ∈ W /\ NO h ∉ left /\ held <> Some h) then (fun x => (false, x.2)) <$> refs_at s h else refs_at s h;
  sh_store : is_Some (object_buckets t) <-> is_Some (object_buckets s);
  sh_storage : forall h, storage_at t h = storage_at s h
}.

(** The counts, when the references in [pend] and those that [left] holds are still to be dropped. *)
Record counted (left : list node) (pend : list zptr) (held : option zhandle) (t : gc) : Prop := {
  ct_pend : forall p, pcnt p (pend ++ drops_of s left) <= pcnt p (drops_of s W);
  ct_zval : forall p, is_Some (type_at s p) -> rc t (NZ p) =
    rc s (NZ p) + (if decide (NZ p ∈ W) then 1 else 0) - pcnt p (drops_of s W) + pcnt p (pend ++ drops_of s left);
  ct_obj : forall h, is_Some (obj_at s h) -> rc t (NO h) =
    if decide (held = Some h) then 1 else rc s (NO h) - cnt (NO h) (kids_of s W)
}.

Definition destroying todo left pend held t : Prop :=
  shape todo left held t /\ counted left pend held t /\ buf_ok nx t.

Lemma shape_there todo left held t n : shape todo left held t -> is_there t n <-> is_there s n.
Proof.
  intros HS. destruct n as [p|h]; simpl; [apply (sh_there _ _ _ _ HS)|].
  rewrite <- !refs_obj, (sh_refs _ _ _ _ HS). case_decide; [|done]. by rewrite fmap_is_Some.
Qed.

Lemma shape_closed todo left held t : shape todo left held t -> closed t.
Proof.
  intros HS. destruct (wf_closed _ Hwf) as [C1 C2 C3].
  assert (forall l, Forall (fun q => is_Some (type_at s q)) l -> Forall (fun q => is_Some (type_at t q)) l) as Hall.
  { intros l Hl. eapply Forall_impl; [done|]. intros q. by rewrite (sh_there _ _ _ _ HS). }
  split.
  - intros p l Hp. destruct (sh_types _ _ _ _ HS p) as [E|[_ E]]; rewrite E in Hp; [|done]. by eapply Hall, C1.
  - intros p h Hp Ho. destruct (sh_types _ _ _ _ HS p) as [E|[_ E]]; rewrite E in Hp; [|done].
    apply (shape_there _ _ _ _ (NO h) HS). eapply C2; [done|]. by apply (sh_store _ _ _ _ HS).
  - intros h x. rewrite (sh_refs _ _ _ _ HS). case_decide.
    + destruct (refs_at s h) as [y|]; [|done]. intros [= <-]. constructor.
    + intros Hx. by eapply Hall, C3.
Qed.

Lemma shape_graph todo left held t t' : same_graph t t' -> shape todo left held t -> shape todo left held t'.
Proof.
  intros G [S1 S2 S3 S4 S5 S6]. split; intros *; rewrite ?(same_type _ _ G), ?(same_refs _ _ G), ?(same_store _ _ G); auto.
  rewrite <- S6. unfold storage_at. pose proof (same_attrs _ _ G h) as E. unfold attrs_at in E.
  destruct (obj_at t h), (obj_at t' h); simpl in *; congruence.
Qed.

(** A reference of garbage is to a value with more references. *)
Lemma dropped_count p : p ∈ drops_of s W ->
  is_Some (type_at s p) /\
  0 < rc s (NZ p) + (if decide (NZ p ∈ W) then 1 else 0) - pcnt p (drops_of s W) /\ rc s (NZ p) + 1 < 2 ^ 32.
Proof.
  intros Hp. pose proof Hp as (n & Hn & Hpn)%drops_elem.
  assert (is_Some (type_at s p)) as [ty Hty].
  { destruct n as [q|h]; simpl in Hpn.
    - destruct (type_at s q) as [[l|l|h|]|] eqn:E; try by apply elem_of_nil in Hpn.
      pose proof (closed_array _ (wf_closed _ Hwf) _ _ E) as Hall. by eapply Forall_forall in Hall.
    - destruct (refs_at s h) as [x|] eqn:E; simpl in Hpn; [|by apply elem_of_nil in Hpn].
      pose proof (closed_refs _ (wf_closed _ Hwf) _ _ E) as Hall. by eapply Forall_forall in Hall. }
  split; [by eexists|]. destruct (plain s p) eqn:Hpl.
  - pose proof (wf_range _ Hwf (NZ p) Hpl). rewrite <- drops_of_kids by done. case_decide as HW.
    + rewrite (ig_isolated _ _ _ HG _ HW) in *. lia.
    + assert (NZ p ∈ M) as HpM.
      { eapply (M_kids s M W HG n); [by eapply garbage_sub|]. apply cnt_pos. rewrite drops_kids by done. by apply pcnt_pos. }
      pose proof (survivor_held s Hwf M W HG (NZ p) HpM HW). lia.
  - unfold plain in Hpl. rewrite Hty in Hpl. destruct ty as [|l| |]; try done.
    pose proof (co_globals _ Hco p l W Hty (proj1 (ig_garbage _ _ _ HG)) (garbage_node s Hwf M W HG)). case_decide; lia.
Qed.

Lemma link_ok t p : buf_ok nx t -> (forall q, q ∈ F -> is_Some (type_at t q)) -> p ∈ F -> link_word t (word t (NZ p)).
Proof.
  intros [B1 B2 B3 B4 B5 [B6 _] _] Hth Hp. destruct (gf_list _ _ _ _ _ HF) as [_ Hseg]. rewrite B1 by done.
  unfold link_word. rewrite B6. split.
  { destruct F as [|q F']; [by apply elem_of_nil in Hp|]. simpl in Hseg. destruct Hseg as [-> _]. by unfold zaddr. }
  destruct (seg_word _ _ _ _ _ Hseg Hp) as [->|(q & Hq & ->)].
  - split_and!; [done..|right]. apply (bw_end _ _ B4).
  - unfold zaddr. split_and!; [by rewrite Z.mul_comm; apply Z.mod_mul|lia|]. apply (bw_apart _ _ B4). by apply Hth.
Qed.

(** Dropping one reference. *)
Lemma wp_drop fuel p todo left pend held t Q :
  destroying todo left (p :: pend) held t ->
  (forall t', destroying todo left pend held t' -> Q true t') ->
  wp (zval_ptr_dtor run_dtor c hts (S fuel) p) Q t.
Proof.
  intros (HS & HC & HB) HQ. pose proof (ct_pend _ _ _ _ HC p) as Hpe. simpl in Hpe. rewrite pcnt_here in Hpe.
  pose proof (pcnt_nonneg p (pend ++ drops_of s left)).
  destruct (dropped_count p) as (Hp & Hpos & Hlt); [apply pcnt_pos; lia|].
  assert (is_there t (NZ p)) as Hth by by apply (sh_there _ _ _ _ HS).
  pose proof (ct_zval _ _ _ _ HC p Hp) as Hrc. cbn [app] in Hrc. rewrite pcnt_here in Hrc.
  cbn [zval_ptr_dtor]. apply wp_bind, wp_zupd_rc; [done|]. destruct (put_rc_same (NZ p) (-1) t) as [G (Lr & Lu & Lo)].
  set (t1 := put_rc (NZ p) (-1) t) in *.
  assert (forall m, rc t1 m = if decide (m = NZ p) then rc t m - 1 else rc t m) as Hrc1.
  { intros m. unfold t1. rewrite rc_put_rc_zval by done.
    destruct (decide (m = NZ p)) as [->|]; [|done]. rewrite Hrc.
    unfold wrap_u. rewrite Z.mod_small; [lia|]. case_decide; lia. }
  assert (is_there t1 (NZ p)) as Hth1 by by apply (there_same _ _ _ G).
  destruct (there_zval _ _ Hth1) as (z & Hz & _). apply wp_bind. eapply wp_zget; [done|].
  assert (refcount__gc z = rc t1 (NZ p)) as Hzr by (cbn [rc]; by rewrite Hz).
  assert (refcount__gc z =? 0 = false) as ->.
  { apply Z.eqb_neq. rewrite Hzr, Hrc1, decide_True, Hrc by done. lia. }
  pose proof (shape_graph _ _ _ _ _ G HS) as HS1.
  assert (buf_ok nx t1) as HB1.
  { eapply buf_ok_same; [..|exact HB]; try done; [intros n; apply word_put_rc|intros n; by apply there_same]. }
  apply wp_bind. apply (wp_check_possible_root c F); try apply HB1; [by eapply shape_closed|done| |].
  { intros HpF. apply link_ok; try done. intros q Hq. apply (sh_there _ _ _ _ HS1).
    by apply (F_there q). }
  intros t2 HR2 HB2 Hstep _. apply wp_ret, HQ. split_and!.
  - eapply shape_graph; [apply Hstep|done].
  - split.
    + intros q. pose proof (ct_pend _ _ _ _ HC q) as Hq. simpl in Hq. rewrite pcnt_cons in Hq. destruct (decide (q = p)); lia.
    + intros q Hq. rewrite (bs_rc _ _ _ Hstep), Hrc1. pose proof (ct_zval _ _ _ _ HC q Hq) as E. cbn [app] in E.
      rewrite pcnt_cons in E. destruct (decide (q = p)) as [->|Hne]; [rewrite decide_True by done; lia|].
      rewrite (decide_False (P := NZ q = NZ p)) by congruence. lia.
    + intros h Hh. rewrite (bs_rc _ _ _ Hstep), Hrc1, decide_False by done. by apply (ct_obj _ _ _ _ HC).
  - by eapply buf_ok_step.
Qed.

Lemma wp_drop_all fuel l todo left pend held t Q :
  destroying todo left (l ++ pend) held t ->
  (forall t', destroying todo left pend held t' -> Q true t') ->
  wp (each_ok (zval_ptr_dtor run_dtor c hts (S fuel)) l) Q t.
Proof.
  revert t. induction l as [|p l IH]; intros t HD HQ; cbn [each_ok]; [by apply wp_ret, HQ|].
  apply wp_bind. eapply wp_drop; [exact HD|]. intros t' HD'. by apply IH.
Qed.
(** *** Changes of one object during the release *)

Lemma buf_ok_obj h g t t' :
  obj_changed h g t t' -> (forall o, obj_at t h = Some o -> buffered (g o) = buffered o) -> buf_ok nx t -> buf_ok nx t'.
Proof.
  intros HO Hg. apply buf_ok_same; try apply HO.
  - intros [p|h']; simpl; [by rewrite (oc_zvals _ _ _ _ HO)|]. rewrite (oc_obj _ _ _ _ HO).
    case_decide; [subst|done]. destruct (obj_at t h) as [o|] eqn:Ho; [|done]. by apply Hg.
  - intros n. by eapply obj_changed_there.
Qed.

(** The object [h] changes its validity and its count, as the new parameters say. *)
Lemma destroying_obj h g todo left left' pend pend' held held' t t' :
  destroying todo left pend held t -> obj_changed h g t t' ->
  (forall o, obj_at t h = Some o -> buffered (g o) = buffered o /\ get_gc (g o) = get_gc o /\
    free_storage (g o) = free_storage o /\
    Some (valid (g o), get_gc o) = (if decide (NO h ∈ W /\ NO h ∉ left' /\ held' <> Some h)
      then (fun x => (false, x.2)) <$> refs_at s h else refs_at s h) /\
    refcount (g o) = if decide (held' = Some h) then 1 else rc s (NO h) - cnt (NO h) (kids_of s W)) ->
  (forall h', h' <> h -> (NO h' ∈ left' <-> NO h' ∈ left) /\ (held' = Some h' <-> held = Some h')) ->
  (forall p, pcnt p (pend' ++ drops_of s left') = pcnt p (pend ++ drops_of s left)) ->
  destroying todo left' pend' held' t'.
Proof.
  intros (HS & HC & HB) HO Hg Hother Hpend. split_and!.
  - destruct HS as [S1 S2 S3 S4 S5 S6].
    assert (forall p, type_at t' p = type_at t p) as Hty by (intros p; unfold type_at; by rewrite (oc_zvals _ _ _ _ HO)).
    split; intros *; rewrite ?Hty, ?(oc_store _ _ _ _ HO); auto.
    + unfold refs_at at 1. rewrite (oc_obj _ _ _ _ HO). destruct (decide (h0 = h)) as [->|Hne].
      * destruct (obj_at t h) as [o|] eqn:Ho.
        -- destruct (Hg o eq_refl) as (_ & Hgc & _ & <- & _). simpl. by rewrite Hgc.
        -- simpl. assert (refs_at s h = None) as ->; [|by case_decide]. apply eq_None_not_Some. rewrite refs_obj.
           rewrite <- (shape_there todo left held t (NO h)) by by split. simpl. rewrite Ho. by intros [].
      * fold (refs_at t h0). rewrite S4. destruct (Hother h0 Hne) as [H1 H2].
        clear Hg. repeat case_decide; try done; exfalso; tauto.
    + rewrite <- S6. unfold storage_at. rewrite (oc_obj _ _ _ _ HO). destruct (decide (h0 = h)) as [->|]; [|done].
      destruct (obj_at t h) as [o|] eqn:Ho; [|done]. simpl. f_equal. by apply Hg.
  - destruct HC as [C1 C2 C3]. split.
    + intros p. by rewrite Hpend.
    + intros p Hp. rewrite Hpend, <- C2 by done. simpl. by rewrite (oc_zvals _ _ _ _ HO).
    + intros h' Hh'. simpl. rewrite (oc_obj _ _ _ _ HO). destruct (decide (h' = h)) as [->|Hne].
      * apply (shape_there _ _ _ _ (NO h) HS) in Hh' as [o Ho]. rewrite Ho. simpl. by apply Hg.
      * pose proof (proj2 (Hother h' Hne)). pose proof (C3 h' Hh') as E. simpl in E. rewrite E. clear Hg E. repeat case_decide; try done; exfalso; tauto.
  - eapply buf_ok_obj; [done| |done]. intros o Ho. by apply Hg.
Qed.
(** What the state says about an object. *)
Lemma destroying_get todo left pend held t h :
  destroying todo left pend held t -> is_Some (obj_at s h) ->
  exists o, obj_at t h = Some o /\ is_there t (NO h) /\ is_Some (object_buckets t) /\
    refs_at t h = Some (valid o, get_gc o) /\ refcount o = rc t (NO h) /\ buffered o = word t (NO h) /\
    storage_at t h = Some (free_storage o).
Proof.
  intros (HS & _ & _) Hh. apply (shape_there _ _ _ _ (NO h) HS) in Hh as [o Ho]. exists o.
  split_and!; [done|by exists o| | | | |]; try (unfold refs_at, storage_at, rc, word; by rewrite Ho).
  unfold obj_at in Ho. by destruct (object_buckets t).
Qed.

Lemma destroying_keep h g todo left pend held t t' :
  destroying todo left pend held t -> is_Some (obj_at s h) -> obj_changed h g t t' ->
  (forall o, obj_at t h = Some o -> buffered (g o) = buffered o /\ get_gc (g o) = get_gc o /\ free_storage (g o) = free_storage o /\
    valid (g o) = valid o /\ refcount (g o) = refcount o) ->
  destroying todo left pend held t'.
Proof.
  intros HD Hh HO Hg. eapply destroying_obj; [exact HD|exact HO| |done|done]. intros o Ho.
  destruct (Hg o Ho) as (H1 & H2 & H3 & H4 & H5). split_and!; try done.
  - rewrite H4. transitivity (refs_at t h); [unfold refs_at; by rewrite Ho|]. apply (sh_refs _ _ _ _ (proj1 HD)).
  - rewrite H5. transitivity (rc t (NO h)); [simpl; by rewrite Ho|]. by apply (ct_obj _ _ _ _ (proj1 (proj2 HD))).
Qed.

Lemma wp_run_dtor f o h Q t : Q true t -> wp (run_dtor f o h) Q t.
Proof. intros HQ. exists true, t. by rewrite dtor_none. Qed.

Lemma wp_destruct_object h todo left pend held t Q :
  destroying todo left pend held t -> is_Some (obj_at s h) ->
  (forall t', destroying todo left pend held t' -> Q true t') -> wp (destruct_object run_dtor h hts) Q t.
Proof.
  intros HD Hh HQ. destruct (destroying_get _ _ _ _ _ _ HD Hh) as (o & Ho & Hth & _). unfold destruct_object.
  apply wp_bind. eapply wp_oget; [done|]. destruct (destructor_called o); cbn [negb]; [by apply wp_ret, HQ|].
  apply wp_bind, wp_oupd_any; [done|]. intros t1 HO1.
  assert (destroying todo left pend held t1) as HD1 by by eapply destroying_keep.
  destruct (dtor o =? NULL); cbn [negb]; [by apply wp_ret, HQ|]. apply wp_bind.
  destruct (negb (hts =? NULL) && (handlers o =? NULL)); [|by apply wp_ret, wp_run_dtor, HQ].
  apply wp_oupd_any; [by apply (obj_changed_there _ _ _ _ _ HO1)|]. intros t2 HO2. apply wp_run_dtor, HQ.
  by eapply destroying_keep.
Qed.

(** The references of a standard object. *)
Lemma wp_std_dtor fuel h b x todo left pend held t o Q :
  refs_at s h = Some (b, x) -> get_gc o = x ->
  destroying todo left (pointers (true, x) ++ pend) held t ->
  (forall t', destroying todo left pend held t' -> Q true t') ->
  wp (zend_object_std_dtor (zval_ptr_dtor run_dtor c hts (S fuel)) o) Q t.
Proof.
  intros Hx Ho HD HQ. unfold zend_object_std_dtor. rewrite Ho.
  destruct x as [[table [props|]]|]; cbn [pointers default] in HD.
  - rewrite (co_std _ Hco _ _ _ _ Hx) in HD. by eapply wp_drop_all.
  - rewrite app_nil_r in HD. by eapply wp_drop_all.
  - by apply wp_ret, HQ.
Qed.

Lemma wp_free_object fuel h x todo left t Q :
  refs_at s h = Some (true, x) -> NO h ∈ W -> NO h ∉ left ->
  destroying todo left (pointers (true, x)) (Some h) t ->
  (forall t', destroying todo left [] None t' -> Q true t') ->
  wp (zend_objects_store_del_ref_by_handle_ex run_dtor (run_free (zval_ptr_dtor run_dtor c hts (S fuel))) h hts) Q t.
Proof.
  intros Hx HhW Hhl HD HQ. assert (is_Some (obj_at s h)) as Hh by (apply refs_obj; by rewrite Hx).
  assert (forall left' pend t' o, destroying todo left' pend (Some h) t' -> obj_at t' h = Some o ->
    valid o = true /\ get_gc o = x /\ refcount o = 1) as Hheld.
  { intros left' pend t' o HD' Ho. destruct (destroying_get _ _ _ _ _ _ HD' Hh) as (o' & Ho' & _ & _ & Hr & Hc & _).
    rewrite Ho in Ho'. injection Ho' as <-. rewrite (sh_refs _ _ _ _ (proj1 HD')), decide_False, Hx in Hr by tauto.
    rewrite Hc, (ct_obj _ _ _ _ (proj1 (proj2 HD'))), decide_True by done. by simplify_eq. }
  unfold zend_objects_store_del_ref_by_handle_ex. apply wp_bind, wp_gets.
  destruct (destroying_get _ _ _ _ _ _ HD Hh) as (o & Ho & _ & Hst & _). rewrite bool_decide_true by done.
  apply wp_bind. eapply wp_oget; [done|]. destruct (Hheld _ _ _ _ HD Ho) as (-> & _ & ->). cbn [Z.eqb andb].
  change (1 =? 1) with true. cbn [andb]. apply wp_bind, wp_bind. eapply wp_destruct_object; [done..|]. intros t1 HD1.
  destruct (destroying_get _ _ _ _ _ _ HD1 Hh) as (o1 & Ho1 & _). apply wp_bind. eapply wp_oget; [done|].
  destruct (Hheld _ _ _ _ HD1 Ho1) as (_ & _ & ->). change (1 =? 1) with true. cbv iota.
  destruct (destroying_get _ _ _ _ _ _ HD1 Hh) as (o2 & Ho2 & Hth1 & _ & _ & _ & Hb2 & Hs2).
  rewrite Ho1 in Ho2. injection Ho2 as <-. apply wp_bind. unfold free_object. apply wp_bind.
  unfold GC_REMOVE_ZOBJ_FROM_BUFFER. apply wp_bind. eapply wp_oget; [done|]. apply wp_bind, wp_gets.
  rewrite Hb2, (bo_purple _ _ (proj2 (proj2 HD1)) h HhW).
  change (negb (GC_ADDRESS GC_PURPLE =? NULL)) with false. cbn [andb]. apply wp_ret, wp_bind. eapply wp_oget; [done|]. apply wp_bind, wp_gets.
  assert (free_storage o1 =? NULL = false) as ->.
  { apply Z.eqb_neq. intros E. rewrite E, (sh_storage _ _ _ _ (proj1 HD1)) in Hs2. by apply (co_storage _ Hco h Hh). }
  cbn [negb]. apply wp_bind. unfold run_free, zend_objects_free_object_storage. apply wp_bind. eapply wp_oget; [done|].
  eapply wp_std_dtor; [exact Hx|by apply (Hheld _ _ _ _ HD1 Ho1)|by rewrite app_nil_r|]. intros t2 HD2.
  destruct (destroying_get _ _ _ _ _ _ HD2 Hh) as (o3 & Ho3 & Hth3 & _).
  destruct (Hheld _ _ _ _ HD2 Ho3) as (_ & Hgc3 & Hrc3).
  unfold ZEND_OBJECTS_STORE_ADD_TO_FREE_LIST. apply wp_bind, wp_bind, wp_gets, wp_bind, wp_oupd_any; [done|]. intros t3 HO3.
  apply wp_bind, wp_modify.
  pose proof (obj_changed_trans _ _ _ _ _ _ HO3 (obj_changed_head h (Z.pos h) t3)) as HO4.
  apply wp_oupd_any; [by apply (obj_changed_there _ _ _ _ _ HO4)|]. intros t5 HO5.
  pose proof (obj_changed_trans _ _ _ _ _ _ HO4 HO5) as HO6. apply wp_bind, wp_gets.
  assert (store_size t5 = store_size t1) as ->.
  { pose proof (oc_rest _ _ _ _ HO6) as E. unfold rest in E. simpl in E.
    assert (store_size t5 = store_size t2) as -> by congruence.
    by rewrite (bo_size _ _ (proj2 (proj2 HD1))), (bo_size _ _ (proj2 (proj2 HD2))). }
  rewrite Z.eqb_refl. do 2 apply wp_ret.
  apply wp_bind, wp_oupd_any; [by apply (obj_changed_there _ _ _ _ _ HO6)|]. intros t7 HO7.
  pose proof (obj_changed_trans _ _ _ _ _ _ HO6 HO7) as HO8. apply wp_ret, HQ.
  eapply destroying_obj; [exact HD2|exact HO8| |intros h' Hne; split; [done|split; congruence]|done].
  intros o4 Ho4. rewrite Ho3 in Ho4. injection Ho4 as <-. split_and!; try done.
  - rewrite decide_True by done. by rewrite Hx, Hgc3.
  - change (u32 (refcount o3 + -1) = rc s (NO h) - cnt (NO h) (kids_of s W)).
    rewrite Hrc3, (ig_isolated _ _ _ HG _ HhW). change (u32 (1 + -1)) with 0. lia.
Qed.
(** *** One zval of the list *)

Definition retyped (p : zptr) (t : gc) : gc := set_zvals (alter (set_type IS_SCALAR) p (zvals t)) t.

Lemma wp_retype p Q t : is_there t (NZ p) -> Q tt (retyped p t) -> wp (zupd p (set_type IS_SCALAR)) Q t.
Proof.
  intros Hp HQ. destruct (there_zval _ _ Hp) as (z & Hz & _). eexists tt, _. unfold zupd. rewrite Hz. split; [done|].
  by rewrite <- (alter_insert_Some (set_type IS_SCALAR) _ _ _ Hz).
Qed.

Lemma retyped_views p t n :
  (match n with NZ q => is_Some (type_at t p) -> type_at (retyped p t) q = if decide (q = p) then Some IS_SCALAR else type_at t q
   | NO h => obj_at (retyped p t) h = obj_at t h end) /\ word (retyped p t) n = word t n /\ rc (retyped p t) n = rc t n.
Proof.
  destruct n as [q|h]; [|done]. unfold type_at, word, rc. simpl. rewrite lookup_alter.
  destruct (decide (p = q)) as [->|Hne].
  - rewrite decide_True by done. destruct (zvals t !! q) as [z|]; [done|]. split; [|done]. by intros [].
  - by rewrite decide_False.
Qed.

Lemma destroying_retype p todo left pend held t :
  destroying (p :: todo) left pend held t -> p ∈ F -> p ∉ todo -> destroying todo left pend held (retyped p t).
Proof.
  intros (HS & HC & HB) Hp Hpt. assert (is_Some (type_at t p)) as Hth by by apply (sh_there _ _ _ _ HS), (F_there p).
  assert (forall q, type_at (retyped p t) q = if decide (q = p) then Some IS_SCALAR else type_at t q) as Hty
    by (intros q; by apply (retyped_views p t (NZ q))).
  assert (forall n, is_there (retyped p t) n <-> is_there t n) as Hthere.
  { intros [q|h]; [|done]. simpl. rewrite Hty. case_decide; [subst|done]. by split. }
  split_and!.
  - destruct HS as [S1 S2 S3 S4 S5 S6]. split; try done.
    + intros q. rewrite (Hthere (NZ q)). apply S1.
    + intros q Hq. rewrite Hty. rewrite decide_False; [apply S2; set_solver|]. intros ->. tauto.
    + intros q. rewrite Hty. case_decide; [|apply S3]. subst. right. split; [|done]. by apply S1.
  - destruct HC as [C1 C2 C3]. split; [done| |done]. intros q Hq. rewrite <- C2 by done. apply (retyped_views p t (NZ q)).
  - eapply buf_ok_same; [..|exact HB]; try done. intros n. apply (retyped_views p t n).
Qed.

(** What is left to be done. *)
Record leftover (todo : list zptr) (left : list node) : Prop := {
  lo_nodup : NoDup todo /\ NoDup left;
  lo_sub : left ⊆ W;
  lo_zval : forall p, NZ p ∈ left <-> p ∈ todo;
  lo_obj : forall h x, NO h ∈ left -> refs_at s h = Some (true, x) ->
    exists p, p ∈ todo /\ type_at s p = Some (IS_OBJECT h)
}.

Lemma counted_ext left left' pend pend' held t :
  (forall p, pcnt p (pend' ++ drops_of s left') = pcnt p (pend ++ drops_of s left)) ->
  counted left pend held t -> counted left' pend' held t.
Proof.
  intros Hp [C1 C2 C3]. split; [|intros p Hq; rewrite Hp; auto|done]. intros p. by rewrite Hp.
Qed.

Lemma shape_left todo todo' left left' held t :
  (forall h, NO h ∈ left' <-> NO h ∈ left) -> todo' ⊆ todo ->
  shape todo left held t -> shape todo' left' held t.
Proof.
  intros Hl Ht [S1 S2 S3 S4 S5 S6]. split; try done.
  - intros p Hp. apply S2. set_solver.
  - intros h. rewrite S4. pose proof (Hl h). repeat case_decide; try done; exfalso; tauto.
Qed.

(** The head of the list leaves [left], and what it holds is dropped next. *)
Lemma destroying_next p todo left t :
  leftover (p :: todo) left -> destroying (p :: todo) left [] None t ->
  exists left1, left ≡ₚ NZ p :: left1 /\ (forall h, NO h ∈ left1 <-> NO h ∈ left) /\
    destroying (p :: todo) left1 (drops s (NZ p)) None t.
Proof.
  intros HL (HS & HC & HB). destruct (proj1 (elem_of_Permutation left (NZ p))) as [left1 Hl];
    [apply (lo_zval _ _ HL); set_solver|]. exists left1.
  assert (forall h, NO h ∈ left1 <-> NO h ∈ left) as Hno by (intros h; rewrite Hl; set_solver).
  split_and!; [done|done|]. split; [by eapply shape_left|]. split; [|done].
  eapply counted_ext; [|exact HC]. intros q. rewrite app_nil_l, (drops_of_perm s q _ _ Hl). done.
Qed.

Lemma leftover_next p todo left X left1 :
  leftover (p :: todo) left -> left ≡ₚ NZ p :: X ++ left1 -> (forall q, NZ q ∉ X) ->
  (forall h x, type_at s p = Some (IS_OBJECT h) -> NO h ∈ left1 -> refs_at s h <> Some (true, x)) ->
  leftover todo left1.
Proof.
  intros [[N1 N2] L2 L3 L4] Hl HX Hp. apply NoDup_cons in N1 as [Np N1]. rewrite Hl in N2.
  apply NoDup_cons in N2 as [Npl N2]. split.
  - split; [done|]. by apply NoDup_app in N2 as (_ & _ & ?).
  - intros n Hn. apply L2. rewrite Hl. set_solver.
  - intros q. pose proof (L3 q) as Hq. pose proof (HX q). rewrite Hl in Hq.
    destruct (decide (q = p)) as [->|Hne]; [set_solver|]. rewrite !elem_of_cons, elem_of_app in Hq. naive_solver.
  - intros h x Hh Hx. destruct (L4 h x) as (q & [->|Hq]%elem_of_cons & Hty); [rewrite Hl; set_solver|done| |eauto].
    by destruct (Hp h x Hty Hh).
Qed.

(** An object of the list's head that is not freed now: it is not valid, or it survives. *)
Lemma destroying_skip p h o todo left t :
  destroying (p :: todo) left [] None t -> p ∈ F -> type_at s p = Some (IS_OBJECT h) -> obj_at t h = Some o ->
  is_Some (object_buckets s) -> (forall x, NO h ∈ left -> refs_at s h <> Some (true, x)) ->
  valid o && (refcount o <=? 0) = false.
Proof.
  intros (HS & HC & HB) Hp Hty Ho Hst Hno. assert (refs_at t h = Some (valid o, get_gc o)) as Hr by (unfold refs_at; by rewrite Ho).
  rewrite (sh_refs _ _ _ _ HS) in Hr. destruct (decide (NO h ∈ W)) as [HhW|HhW].
  - apply andb_false_iff. left. destruct (decide (NO h ∈ left)) as [Hl|Hl].
    + rewrite decide_False in Hr by tauto. destruct (valid o) eqn:E; [|done]. by destruct (Hno (get_gc o) Hl).
    + rewrite decide_True in Hr by done. destruct (refs_at s h); by simplify_eq/=.
  - apply andb_false_iff. right. apply Z.leb_gt.
    assert (NO h ∈ M) as HhM.
    { eapply (M_kids s M W HG (NZ p)); [by apply (garbage_sub s M W HG), F_elem|]. rewrite (kids_object _ _ _ Hty Hst). set_solver. }
    pose proof (survivor_held s Hwf M W HG _ HhM HhW) as Hlt.
    assert (is_Some (obj_at s h)) as Hh by apply (M_node s Hwf M W HG _ HhM).
    pose proof (ct_obj _ _ _ _ HC h Hh) as E. rewrite decide_False in E by done.
    assert (refcount o = rc t (NO h)) as -> by (simpl; by rewrite Ho). rewrite E. lia.
Qed.

Lemma wp_destroy_zval fuel p todo left t Q :
  leftover (p :: todo) left -> destroying (p :: todo) left [] None t -> p ∈ F ->
  (forall left' t', leftover todo left' -> destroying todo left' [] None t' -> Q true t') ->
  wp (destroy_zval run_dtor c hts (S fuel) p) Q t.
Proof.
  intros HL HD Hp HQ. destruct (destroying_next _ _ _ _ HL HD) as (left1 & Hl1 & Hno1 & HD1).
  assert (p ∉ todo) as Hpt by (destruct (lo_nodup _ _ HL) as [N _]; by apply NoDup_cons in N as [? _]).
  pose proof (sh_todo _ _ _ _ (proj1 HD) p ltac:(set_solver)) as Hty.
  assert (is_there t (NZ p)) as Hth by by apply (shape_there _ _ _ _ _ (proj1 HD)), F_there.
  destruct (there_zval _ _ Hth) as (z & Hz & Hzt). rewrite Hty in Hzt. unfold destroy_zval. apply wp_bind. eapply wp_zget; [done|].
  assert (is_node s (NZ p)) as Hn by by apply (garbage_node s Hwf M W HG), F_elem.
  assert (forall left', left ≡ₚ NZ p :: [] ++ left' -> (forall h, type_at s p <> Some (IS_OBJECT h)) -> leftover todo left') as Hlo.
  { intros left' Hl Hnt. eapply leftover_next; [done..|set_solver|]. intros h x E. by destruct (Hnt h). }
  assert (destroying (p :: todo) left1 [] None t -> destroying todo left1 [] None t) as Hweak.
  { intros (H1 & H2 & H3). split; [by eapply shape_left; [| |exact H1]; [done|set_solver]|done]. }
  simpl in HD1. rewrite Hzt in HD1. destruct (z_type z) as [l|l|h|] eqn:Htz.
  - apply wp_bind, wp_retype; [done|]. eapply wp_drop_all; [by rewrite app_nil_r; apply destroying_retype|].
    intros t' HD'. eapply HQ; [|done]. apply Hlo; [done|]. intros h. by rewrite Hzt.
  - simpl in Hn. unfold plain in Hn. by rewrite Hzt in Hn.
  - apply wp_bind, wp_gets. pose proof (sh_store _ _ _ _ (proj1 HD)) as Hst.
    assert (forall left', left' ⊆ left1 -> (is_Some (object_buckets s) -> forall x, NO h ∈ left' -> refs_at s h <> Some (true, x)) ->
      forall h' x, type_at s p = Some (IS_OBJECT h') -> NO h' ∈ left' -> refs_at s h' <> Some (true, x)) as Hcond.
    { intros left' Hsub Hc h' x Hh' Hin Hx. rewrite Hzt in Hh'. injection Hh' as <-. eapply Hc; [|done..].
      assert (is_Some (obj_at s h)) as [o Ho] by (apply refs_obj; by rewrite Hx). unfold obj_at in Ho.
      by destruct (object_buckets s). }
    case_bool_decide as Ho.
    2: { apply wp_ret. eapply HQ; [|by apply Hweak]. eapply (leftover_next p todo left []); [done..|set_solver|].
         apply Hcond; [done|]. intros Hs. by apply Hst in Hs. }
    apply Hst in Ho. pose proof (closed_object _ (wf_closed _ Hwf) _ _ Hzt Ho) as Hh.
    destruct (destroying_get _ _ _ _ _ _ HD1 Hh) as (o & Hobj & Htho & _ & Href & Hrc & _). apply wp_bind. eapply wp_oget; [done|].
    assert (Decision (NO h ∈ left1 /\ exists x, refs_at s h = Some (true, x))) as Hdec.
    { destruct (refs_at s h) as [[[] x]|]; [|right; naive_solver..]. destruct (decide (NO h ∈ left1)); [left; eauto|right; tauto]. }
    destruct Hdec as [[Hhl [x Hx]]|Hskip].
    2: { erewrite destroying_skip; [|done..|intros x Hin Hx; apply Hskip; eauto]. apply wp_ret.
         eapply HQ; [|by apply Hweak]. eapply (leftover_next p todo left []); [done..|set_solver|].
         apply Hcond; [done|]. intros _ x Hin Hx. apply Hskip. eauto. }
    destruct (proj1 (elem_of_Permutation left1 (NO h)) Hhl) as [left2 Hl2].
    assert (NoDup left1) as Hnd1 by (destruct (lo_nodup _ _ HL) as [_ N]; rewrite Hl1 in N; by apply NoDup_cons in N as [_ ?]).
    rewrite Hl2 in Hnd1. apply NoDup_cons in Hnd1 as [Hh2 _].
    assert (NO h ∈ W) as HhW by (apply (lo_sub _ _ HL), Hno1, Hhl).
    rewrite (sh_refs _ _ _ _ (proj1 HD1)), decide_False, Hx in Href by tauto. injection Href as Hv Hgc.
    rewrite (ct_obj _ _ _ _ (proj1 (proj2 HD1)) h Hh), decide_False, (ig_isolated _ _ _ HG _ HhW), Z.sub_diag in Hrc by done.
    rewrite <- Hv, Hrc. change (0 <=? 0) with true. cbn [andb].
    apply wp_bind, wp_oupd_any; [done|]. intros t1 HO.
    assert (destroying (p :: todo) left2 (pointers (true, x)) (Some h) t1) as HD2.
    { eapply destroying_obj; [exact HD1|exact HO| | |].
      - intros o' Ho'. rewrite Hobj in Ho'. injection Ho' as <-. split_and!; try done.
        + rewrite decide_False by tauto. by rewrite Hx, <- Hgc, Hv.
        + by rewrite decide_True.
      - intros h' Hne. split; [rewrite Hl2; set_solver|split; congruence].
      - intros q. rewrite app_nil_l, (drops_of_perm s q _ _ Hl2). unfold drops_of. simpl. by rewrite Hx. }
    apply wp_bind, wp_retype; [by apply (obj_changed_there _ _ _ _ _ HO)|].
    eapply wp_free_object; [done..|by apply destroying_retype|]. intros t' HD'. eapply HQ; [|done].
    eapply (leftover_next p todo left [NO h]); [done|by rewrite Hl1, Hl2|set_solver|].
    apply Hcond; [rewrite Hl2; set_solver|]. intros _ x' Hin. by destruct Hh2.
  - apply wp_bind, wp_retype; [done|]. apply wp_ret. eapply HQ; [|by apply destroying_retype].
    apply Hlo; [done|]. intros h. by rewrite Hzt.
Qed.
End step.

(** *** The loops *)

Lemma wp_zval_at p Q t : Q p t -> wp (zval_at (zaddr p)) Q t.
Proof.
  intros HQ. unfold zval_at, zaddr. assert (0 <? 4 * Z.pos p = true) as -> by (apply Z.ltb_lt; lia).
  assert (4 * Z.pos p mod 4 =? 0 = true) as -> by (apply Z.eqb_eq; rewrite Z.mul_comm; apply Z.mod_mul; lia).
  simpl andb. cbv iota. rewrite Z.mul_comm, Z.div_mul by lia. by apply wp_ret.
Qed.

Lemma F_not_end p : p ∈ F -> zaddr p =? FREE_LIST_END = false.
Proof. intros Hp. apply Z.eqb_neq. pose proof (co_addresses _ Hco p (F_there p Hp)). lia. Qed.

Lemma destroying_word nx todo left pend held t p :
  destroying nx todo left pend held t -> p ∈ F ->
  exists z, zvals t !! p = Some z /\ u_word z = word s3 (NZ p) /\ type_at t p = Some (z_type z).
Proof.
  intros (HS & _ & HB) Hp. assert (is_there t (NZ p)) as Hth by by apply (shape_there _ _ _ _ _ HS), F_there.
  destruct (there_zval _ _ Hth) as (z & Hz & Ht). exists z. split_and!; [done| |done].
  rewrite <- (bo_words _ _ HB p Hp). simpl. by rewrite Hz.
Qed.

Lemma destroying_nx nx nx' todo left pend held t :
  destroying nx todo left pend held t -> destroying nx' todo left pend held (set_next_to_free nx' t).
Proof.
  intros (HS & HC & HB). split_and!.
  - eapply shape_graph; [|done]. by split.
  - by destruct HC; split.
  - by eapply buf_ok_ext; [..|exact HB].
Qed.

Lemma refcount_restored r : 0 <= r < 2 ^ 32 -> u32 (u32 (r + 1) + -1) = r.
Proof. intros Hr. unfold wrap_u. rewrite Zplus_mod_idemp_l. rewrite Z.mod_small; lia. Qed.

Lemma wp_call_idle_destructor nx left h todo t Q :
  destroying nx todo left [] None t -> (is_Some (object_buckets s) -> is_Some (obj_at s h)) ->
  (forall t', destroying nx todo left [] None t' -> Q true t') -> wp (call_destructor run_dtor h) Q t.
Proof.
  intros HD Hh HQ. unfold call_destructor. apply wp_bind, wp_gets. case_bool_decide as Ho; [|by apply wp_ret, HQ].
  apply (sh_store _ _ _ _ (proj1 HD)) in Ho. specialize (Hh Ho).
  destruct (destroying_get _ _ _ _ _ _ _ HD Hh) as (o & Hobj & Hth & _ & _ & Hrc & _). apply wp_bind. eapply wp_oget; [done|].
  destruct (_ && negb (destructor_called o)); [|by apply wp_ret, HQ].
  apply wp_bind, wp_oupd_any; [done|]. intros t1 O1.
  apply wp_bind, wp_oupd_any; [by apply (obj_changed_there _ _ _ _ _ O1)|]. intros t2 O2.
  pose proof (obj_changed_trans _ _ _ _ _ _ O1 O2) as O12. apply wp_bind, wp_run_dtor.
  apply wp_bind, wp_oupd_any; [by apply (obj_changed_there _ _ _ _ _ O12)|]. intros t3 O3.
  pose proof (obj_changed_trans _ _ _ _ _ _ O12 O3) as O. apply wp_ret, HQ. eapply destroying_keep; [done|done|exact O|].
  intros o' Ho'. rewrite Hobj in Ho'. injection Ho' as <-. split_and!; try done. apply refcount_restored. rewrite Hrc.
  rewrite (ct_obj _ _ _ _ (proj1 (proj2 HD)) h Hh), decide_False by done. pose proof (wf_range _ Hwf (NO h) Hh).
  pose proof (cnt_nonneg (NO h) (kids_of s W)).
  pose proof (wf_counts _ Hwf W (NO h) (proj1 (ig_garbage _ _ _ HG)) (garbage_node s Hwf M W HG) Hh). lia.
Qed.

Lemma wp_destructors_loop nx left fuel a l n t Q :
  seg (word s3) a l FREE_LIST_END -> l ⊆ F -> destroying nx F left [] None t -> (length l < fuel)%nat ->
  (forall t', destroying nx F left [] None t' -> Q (Some (n + Z.of_nat (length l))) t') ->
  wp (destructors_loop run_dtor fuel a n) Q t.
Proof.
  revert fuel a n t. induction l as [|p l IH]; intros [|fuel] a n t Hs Hl HD Hf HQ; simpl in Hf; try lia;
    cbn [destructors_loop]; simpl in Hs.
  { subst a. rewrite Z.eqb_refl. apply wp_ret. specialize (HQ t HD). by rewrite Z.add_0_r in HQ. }
  destruct Hs as [-> Hs]. assert (p ∈ F) as Hp by set_solver. rewrite F_not_end by done. apply wp_bind, wp_zval_at.
  destruct (destroying_word _ _ _ _ _ _ _ HD Hp) as (z & Hz & _ & Ht). apply wp_bind. eapply wp_zget; [done|]. apply wp_bind.
  assert (forall t', destroying nx F left [] None t' ->
    wp (z ← zget p; destructors_loop run_dtor fuel (u_word z) (n + 1)) Q t') as Hnext.
  { intros t' HD'. destruct (destroying_word _ _ _ _ _ _ _ HD' Hp) as (z' & Hz' & Hw' & _). apply wp_bind.
    eapply wp_zget; [done|]. rewrite Hw'. apply IH; [done|set_solver|done|lia|].
    intros t2 HD2. specialize (HQ t2 HD2). rewrite length_cons in HQ.
    by replace (n + 1 + Z.of_nat (length l)) with (n + Z.of_nat (S (length l))) by lia. }
  rewrite (sh_todo _ _ _ _ (proj1 HD)) in Ht by by right.
  destruct (z_type z) as [| |h|] eqn:E; try by apply wp_ret, Hnext.
  eapply wp_call_idle_destructor; [done| |exact Hnext]. intros Ho. by eapply (closed_object _ (wf_closed _ Hwf)).
Qed.

Lemma wp_destroy_list nx depth fuel a todo left t Q :
  seg (word s3) a todo FREE_LIST_END -> todo ⊆ F -> leftover todo left -> destroying nx todo left [] None t ->
  (length todo < fuel)%nat ->
  (forall nx' left' t', leftover [] left' -> destroying nx' [] left' [] None t' -> Q true t') ->
  wp (destroy_loop run_dtor c hts (S depth) fuel a) Q t.
Proof.
  revert nx fuel a left t. induction todo as [|p todo IH]; intros nx [|fuel] a left t Hs Hsub HL HD Hf HQ; simpl in Hf; try lia;
    cbn [destroy_loop]; simpl in Hs.
  { subst a. rewrite Z.eqb_refl. by eapply wp_ret, HQ. }
  destruct Hs as [-> Hs]. assert (p ∈ F) as Hp by set_solver. rewrite F_not_end by done. apply wp_bind, wp_zval_at.
  destruct (destroying_word _ _ _ _ _ _ _ HD Hp) as (z & Hz & Hw & _). apply wp_bind. eapply wp_zget; [done|].
  rewrite Hw. apply wp_bind, wp_modify. apply (destroying_nx _ (word s3 (NZ p))) in HD.
  apply wp_bind. eapply wp_destroy_zval; [done..|]. intros left' t' HL' HD'.
  apply wp_bind, wp_gets. rewrite (bo_next _ _ (proj2 (proj2 HD'))). eapply IH; [done|set_solver|done|done|lia|done].
Qed.
(** *** The start of the release *)

Lemma found_shape : shape F W None s3.
Proof.
  pose proof (gf_graph _ _ _ _ _ HF) as G. eapply shape_graph; [exact G|]. split; try done; [by left|].
  intros h. by rewrite decide_False by tauto.
Qed.

Lemma found_counted : counted W [] None s3.
Proof.
  split; [done| |].
  - intros p [ty Hty]. rewrite app_nil_l. destruct (plain s p) eqn:Hpl.
    + rewrite (gf_zvals _ _ _ _ _ HF p Hpl). lia.
    + rewrite decide_False by (intros HpW; apply (garbage_node s Hwf M W HG) in HpW; simpl in HpW; congruence).
      unfold plain in Hpl. rewrite Hty in Hpl. destruct ty as [|l| |]; try done.
      rewrite (proj2 (gf_globals _ _ _ _ _ HF) p l Hty). lia.
  - intros h Hh. rewrite decide_False by done. by apply (gf_objects _ _ _ _ _ HF).
Qed.

Lemma found_roots : roots_wf F s3.
Proof.
  pose proof (gf_graph _ _ _ _ _ HF) as G. destruct (gf_buffer _ _ _ _ _ HF) as [Hr _].
  assert (forall n, n ∉ NZ <$> F -> n ∈ W -> word s3 n = GC_PURPLE) as HW.
  { intros [p|h] HnF HnW; [|by apply (gf_purple _ _ _ _ _ HF)]. destruct HnF. by apply list_elem_of_fmap_2, F_elem. }
  split; rewrite ?Hr; try (intros e He; by apply elem_of_nil in He).
  - intros n Hn HnF Ha. destruct Ha. destruct (decide (n ∈ W)) as [HnW|HnW].
    + unfold address. by rewrite HW.
    + apply (gf_address _ _ _ _ _ HF); [|done]. by apply (there_same _ _ _ G).
  - intros n Hn HnF. destruct (decide (n ∈ W)) as [HnW|HnW]; [right; unfold color; by rewrite HW|].
    apply (there_same _ _ _ G) in Hn. destruct (decide (is_node s n)) as [Hnode|Hnode].
    + pose proof (wf_colors _ Hwf n Hnode) as Hc. pose proof (gf_words _ _ _ _ _ HF n Hnode HnW) as Hw. unfold color in *.
      rewrite Hw. case_decide; [by left|]. destruct Hc as [-> | ->]; [by left|by right].
    + destruct n as [p|h]; [|done]. destruct (there_zval _ _ Hn) as (z & Hz & Ht).
      destruct (z_type z) as [|l| |] eqn:E; try (exfalso; apply Hnode; simpl; unfold plain; by rewrite Ht).
      rewrite <- (same_type _ _ G) in Ht. pose proof (proj1 (gf_globals _ _ _ _ _ HF) p l Ht).
      unfold color. by rewrite GC_GET_COLOR_mod.
Qed.

Lemma found_buf_ok : buf_ok (next_to_free s) s3.
Proof.
  pose proof (gf_graph _ _ _ _ _ HF) as G. destruct (gf_buffer _ _ _ _ _ HF) as [Hr Hu].
  destruct (gf_rest _ _ _ _ _ HF) as [_ Ho]. unfold rest in Ho. simpl in Ho. injection Ho as E1 E2 E3 E4 E5 E6 _ _ _ _ _.
  split; try done.
  - apply (gf_purple _ _ _ _ _ HF).
  - apply found_roots.
  - destruct (co_buffer _ Hco) as [B1 B2 B3 B4 B5 B6 B7 B8]. simpl in *.
    split; rewrite ?E1, ?E2, ?E3, ?Hr; simpl; try done.
    + by rewrite Hu.
    + intros r. rewrite Hu. apply B6.
    + rewrite B7. by rewrite Hu.
    + intros p. rewrite (same_type _ _ G). apply B8.
  - pose proof (co_fits _ Hco) as Hf. unfold fits, capacity in *. rewrite E1, E3, E4. destruct Hf as [|Hf]; [by left|right].
    intros l Hl Hall. apply Hf; [done|]. eapply Forall_impl; [done|]. intros n. by rewrite (there_same _ _ _ G).
Qed.

Lemma F_nodup : NoDup F.
Proof. rewrite (proj1 (gf_list _ _ _ _ _ HF)). apply nodup_zvals, HG. Qed.

Lemma found_leftover : leftover F W.
Proof.
  split.
  - split; [apply F_nodup|apply HG].
  - done.
  - intros p. by rewrite F_elem.
  - intros h x HhW Hx. pose proof (co_live _ Hco h x Hx) as Hlive. rewrite (ig_isolated _ _ _ HG _ HhW) in Hlive.
    apply cnt_pos, kids_of_elem in Hlive as (n & HnW & Hk). destruct n as [p|h'].
    + exists p. rewrite F_elem. split; [done|]. simpl in Hk. destruct (type_at s p) as [[l|l|h'|]|]; try by apply elem_of_nil in Hk.
      * by apply plain_nodes_elem in Hk as (? & ? & _).
      * case_bool_decide; [|by apply elem_of_nil in Hk]. by apply list_elem_of_singleton in Hk as [= ->].
    + simpl in Hk. destruct (refs_at s h'); [|by apply elem_of_nil in Hk]. by apply plain_nodes_elem in Hk as (? & ? & _).
Qed.

Lemma found_destroying : destroying (next_to_free s) F W [] None s3.
Proof. split_and!; [apply found_shape|apply found_counted|apply found_buf_ok]. Qed.

Lemma F_fuel : (length F < S (size (zvals s3)))%nat.
Proof.
  apply Nat.lt_succ_r. rewrite <- (size_dom (D := gset zptr)), <- (size_list_to_set (C := gset zptr) F) by apply F_nodup.
  apply subseteq_size. intros p. rewrite elem_of_list_to_set, elem_of_dom. intros Hp.
  pose proof (F_there p Hp) as Hth. apply (there_same _ _ _ (gf_graph _ _ _ _ _ HF)) in Hth.
  destruct (there_zval _ _ Hth) as (z & -> & _). by eexists.
Qed.

(** *** The end of the release *)

(** All that is left holds nothing. *)
Lemma left_nothing left p : leftover [] left -> pcnt p (drops_of s left) = 0.
Proof.
  intros [_ _ L3 L4]. destruct (drops_of s left) as [|q l] eqn:E; [done|]. exfalso.
  assert (q ∈ drops_of s left) as (n & Hn & Hq)%drops_elem by (rewrite E; set_solver). destruct n as [r|h].
  - apply L3 in Hn. by apply elem_of_nil in Hn.
  - simpl in Hq. destruct (refs_at s h) as [[[] x]|] eqn:Hr; try by apply elem_of_nil in Hq.
    destruct (L4 h x Hn Hr) as (? & ?%elem_of_nil & _). done.
Qed.

Definition freed (l : list zptr) (t : gc) : gc := set_zvals (foldl (fun m p => delete p m) (zvals t) l) t.

Lemma freed_lookup l m q : foldl (fun (m : gmap zptr zval) p => delete p m) m l !! q = if decide (q ∈ l) then None else m !! q.
Proof.
  revert m. induction l as [|p l IH]; intros m.
  { rewrite decide_False; [done|apply not_elem_of_nil]. }
  cbn [foldl]. rewrite IH. destruct (decide (q = p)) as [->|Hne].
  - rewrite lookup_delete_eq. rewrite (decide_True (P := p ∈ p :: l)) by set_solver. by case_decide.
  - rewrite lookup_delete_ne by done. destruct (decide (q ∈ l)); [rewrite decide_True|rewrite decide_False]; set_solver.
Qed.

Lemma wp_free_loop fuel a l t Q :
  seg (word t) a l FREE_LIST_END -> NoDup l -> l ⊆ F -> (forall p, p ∈ l -> is_there t (NZ p)) ->
  (length l < fuel)%nat -> Q tt (freed l t) -> wp (free_loop fuel a) Q t.
Proof.
  revert fuel a t. induction l as [|p l IH]; intros [|fuel] a t Hs Hnd Hl Hth Hf HQ; simpl in Hf; try lia;
    cbn [free_loop]; simpl in Hs.
  { subst a. rewrite Z.eqb_refl. apply wp_ret. destruct t. exact HQ. }
  destruct Hs as [-> Hs]. apply NoDup_cons in Hnd as [Hp Hnd]. rewrite F_not_end by set_solver. apply wp_bind, wp_zval_at.
  destruct (there_zval t p ltac:(apply Hth; set_solver)) as (z & Hz & _). apply wp_bind. eapply wp_zget; [done|].
  simpl in Hs. rewrite Hz in Hs. simpl in Hs.
  assert (forall q, q <> p -> zvals (set_zvals (delete p (zvals t)) t) !! q = zvals t !! q) as Hne
    by (intros q Hq; simpl; by rewrite lookup_delete_ne).
  apply wp_bind. exists tt, (set_zvals (delete p (zvals t)) t). unfold efree_zval. rewrite Hz. split; [done|].
  apply IH; [|done|set_solver| |lia|].
  - eapply seg_ext; [|exact Hs]. intros q Hq. simpl. rewrite lookup_delete_ne; [done|]. by intros ->.
  - intros q Hq. simpl. unfold type_at. rewrite Hne; [by apply Hth; set_solver|]. by intros ->.
  - exact HQ.
Qed.
(** *** The heap after the release *)

Section after.
Context (nx : Z) (left : list node) (t : gc) (HL : leftover [] left) (HD : destroying nx [] left [] None t).
Context (u : gc) (Hz : zvals u = zvals (freed F t)) (Ho : object_buckets u = object_buckets t).
Context (Hr : roots u = roots t /\ unused u = unused t).
Context (x : Z) (Hrest : rest u = rest (set_free_list NULL (set_next_to_free (next_to_free s) (set_collected x t)))).

Let HS : shape [] left None t := proj1 HD.
Let HC : counted left [] None t := proj1 (proj2 HD).
Let HB : buf_ok nx t := proj2 (proj2 HD).

Lemma after_type p : type_at u p = if decide (p ∈ F) then None else type_at s p.
Proof.
  unfold type_at at 1. rewrite Hz. simpl. rewrite freed_lookup. case_decide as Hp; [done|].
  fold (type_at t p). apply (sh_todo _ _ _ _ HS). by left.
Qed.

Lemma after_obj h : obj_at u h = obj_at t h.
Proof. unfold obj_at. by rewrite Ho. Qed.

Lemma after_refs h : refs_at u h = if decide (NO h ∈ W) then (fun x => (false, x.2)) <$> refs_at s h else refs_at s h.
Proof.
  unfold refs_at at 1. rewrite after_obj. fold (refs_at t h). rewrite (sh_refs _ _ _ _ HS).
  destruct (decide (NO h ∈ W)) as [HW|HW]; [|by rewrite decide_False by tauto].
  destruct (decide (NO h ∈ left)) as [Hl|Hl]; [|by rewrite decide_True]. rewrite decide_False by tauto.
  destruct (refs_at s h) as [[[] y]|] eqn:E; [|done..]. destruct (lo_obj _ _ HL h y Hl E) as (? & ?%elem_of_nil & _). done.
Qed.

Lemma after_there n : is_there u n <-> is_there s n /\ n ∉ NZ <$> F.
Proof.
  destruct n as [p|h]; simpl.
  - rewrite after_type. rewrite list_elem_of_fmap. case_decide as Hp; [|naive_solver].
    split; [by intros []|]. intros [_ Hn]. destruct Hn. eauto.
  - rewrite after_obj, (shape_there _ _ _ _ (NO h) HS). rewrite list_elem_of_fmap. naive_solver.
Qed.

Lemma after_word n : n ∉ NZ <$> F -> word u n = word t n /\ rc u n = rc t n.
Proof.
  intros Hn. destruct n as [p|h]; cbn [word rc]; [|by rewrite after_obj]. rewrite Hz. simpl. rewrite freed_lookup.
  rewrite decide_False; [done|]. intros Hp. by apply Hn, list_elem_of_fmap_2.
Qed.

Lemma not_garbage n : n ∉ W -> n ∉ NZ <$> F.
Proof. intros Hn (p & -> & Hp)%list_elem_of_fmap. by apply Hn, F_elem. Qed.

Lemma after_node n : is_node u n <-> is_node s n /\ n ∉ NZ <$> F.
Proof.
  destruct n as [p|h]; [|apply (after_there (NO h))]. simpl. unfold plain. rewrite after_type.
  case_decide as Hp; [split; [done|]; intros [_ Hn]; destruct Hn; by apply list_elem_of_fmap_2|].
  split; [|by intros [? _]]. intros H. split; [done|]. intros (? & [= <-] & ?)%list_elem_of_fmap. done.
Qed.

(** Counts: what garbage held is gone. *)
Lemma after_rc_zval p : is_Some (type_at s p) -> p ∉ F -> rc u (NZ p) = rc s (NZ p) - pcnt p (drops_of s W).
Proof.
  intros Hp HpF. assert (NZ p ∉ W) as HpW by by rewrite <- F_elem. rewrite (proj2 (after_word _ (not_garbage _ HpW))).
  rewrite (ct_zval _ _ _ _ HC p Hp), decide_False by done. rewrite app_nil_l, (left_nothing left p HL). lia.
Qed.

Lemma after_rc n : is_node u n -> rc u n = rc s n - cnt n (kids_of s W).
Proof.
  intros [Hn HnF]%after_node. destruct n as [p|h].
  - rewrite (drops_of_kids _ _ _ Hn). apply after_rc_zval; [by apply (node_there s (NZ p))|].
    intros Hp. by apply HnF, list_elem_of_fmap_2.
  - rewrite (proj2 (after_word _ HnF)), (ct_obj _ _ _ _ HC h Hn), decide_False by done. done.
Qed.

(** Survivors do not refer to what is freed. *)
Lemma survivor_refs n q : is_node s n -> n ∉ W -> q ∈ drops s n -> q ∉ F.
Proof.
  intros Hn HnW Hq HqF. assert (NZ q ∈ W) as HqW by by apply F_elem.
  apply (garbage_unreferenced s Hwf M W HG n (NZ q)); try done. apply cnt_pos.
  rewrite drops_kids by apply (garbage_node s Hwf M W HG _ HqW). by apply pcnt_pos.
Qed.

Lemma after_drops n : is_node s n -> drops u n = if decide (n ∈ W) then [] else drops s n.
Proof.
  intros Hn. destruct n as [p|h]; simpl.
  - rewrite after_type, (decide_ext _ (NZ p ∈ W) _ _ (F_elem p)). by case_decide.
  - rewrite after_refs. case_decide; [|done]. by destruct (refs_at s h).
Qed.

Lemma plain_nodes_ext l : (forall q, q ∈ l -> q ∉ F) -> plain_nodes u l = plain_nodes s l.
Proof.
  induction l as [|q l IH]; intros Hl; [done|]. change (q :: l) with ([q] ++ l). rewrite !plain_nodes_app, IH by set_solver.
  f_equal. rewrite !plain_nodes_one. unfold plain. by rewrite after_type, decide_False by set_solver.
Qed.

Lemma after_kids n : is_node s n -> kids u n = if decide (n ∈ W) then [] else kids s n.
Proof.
  intros Hn. pose proof (survivor_refs n) as Hsr. destruct n as [p|h]; simpl in *.
  - rewrite after_type, (decide_ext _ (NZ p ∈ W) _ _ (F_elem p)). case_decide as HW; [done|].
    destruct (type_at s p) as [[l|l|h|]|]; try done; [by apply plain_nodes_ext; auto|].
    rewrite (bool_decide_ext (is_Some (object_buckets u)) (is_Some (object_buckets s))); [done|]. rewrite Ho. apply HS.
  - rewrite after_refs. case_decide as HW; [by destruct (refs_at s h)|]. destruct (refs_at s h) as [y|]; [|done].
    simpl in *. apply plain_nodes_ext; auto.
Qed.

(** References from a list of survivors. *)
Lemma after_kids_of T n : (forall m, m ∈ T -> is_node s m) ->
  cnt n (kids_of u T) = cnt n (kids_of s (filter (fun m => m ∉ W) T)).
Proof.
  induction T as [|m T IH]; intros HT; [done|]. change (m :: T) with ([m] ++ T).
  rewrite kids_of_app, cnt_app, IH by set_solver. rewrite filter_app, kids_of_app, cnt_app. f_equal.
  unfold kids_of. simpl. rewrite app_nil_r, after_kids by set_solver. rewrite filter_cons.
  destruct (decide (m ∈ W)) as [HW|HW]; [by rewrite decide_False by tauto|]. rewrite decide_True by done.
  simpl. by rewrite app_nil_r.
Qed.

Lemma after_drops_of T p : (forall m, m ∈ T -> is_node s m) ->
  pcnt p (drops_of u T) = pcnt p (drops_of s (filter (fun m => m ∉ W) T)).
Proof.
  induction T as [|m T IH]; intros HT; [done|]. change (m :: T) with ([m] ++ T).
  unfold drops_of in *. rewrite bind_app, pcnt_app, IH by set_solver. rewrite filter_app, bind_app, pcnt_app. f_equal.
  simpl. rewrite app_nil_r, after_drops by set_solver. rewrite filter_cons.
  destruct (decide (m ∈ W)) as [HW|HW]; [by rewrite decide_False by tauto|]. rewrite decide_True by done.
  simpl. by rewrite app_nil_r.
Qed.

Lemma after_closed : closed u.
Proof.
  destruct (wf_closed _ Hwf) as [C1 C2 C3]. split.
  - intros p l. rewrite after_type. case_decide as HpF; [done|]. intros Hp. apply Forall_forall. intros q Hq.
    rewrite after_type, decide_False; [by pose proof (C1 p l Hp) as Hall; eapply Forall_forall in Hall|].
    eapply (survivor_refs (NZ p)); [simpl; unfold plain; by rewrite Hp|by rewrite <- F_elem|]. simpl. by rewrite Hp.
  - intros p h. rewrite after_type. case_decide; [done|]. intros Hp Hst. apply (after_there (NO h)). split.
    + eapply C2; [done|]. rewrite Ho in Hst. by apply (sh_store _ _ _ _ HS).
    + by intros (? & ? & _)%list_elem_of_fmap.
  - intros h y. rewrite after_refs. case_decide as HW; [destruct (refs_at s h); [|done]; intros [= <-]; constructor|].
    intros Hy. apply Forall_forall. intros q Hq.
    rewrite after_type, decide_False; [by pose proof (C3 h y Hy) as Hall; eapply Forall_forall in Hall|].
    eapply (survivor_refs (NO h)); [|done|simpl; by rewrite Hy]. simpl. apply refs_obj. by rewrite Hy.
Qed.

Lemma after_color n : n ∉ NZ <$> F -> color u n = color t n /\ address u n = address t n.
Proof. intros Hn. unfold color, address. by rewrite (proj1 (after_word n Hn)). Qed.

Lemma after_there_t n : is_there u n -> is_there t n /\ n ∉ NZ <$> F.
Proof. intros [Hn HnF]%after_there. split; [|done]. by apply (shape_there _ _ _ _ _ HS). Qed.

Lemma after_wf : gc_wf u.
Proof.
  destruct Hr as [Hro Hun]. pose proof (bo_roots _ _ HB) as HR. pose proof (bo_buffer _ _ HB) as HBu.
  assert (forall e, e ∈ roots t -> is_there u (target e)) as Hthere.
  { intros e He. apply after_there. rewrite <- (shape_there _ _ _ _ _ HS). split; [by apply (rw_there _ _ HR)|].
    by apply (rw_entries _ _ HR). }
  split.
  - apply after_closed.
  - intros p l Hp. assert (is_there u (NZ p)) as Hth by by exists (IS_GLOBALS l).
    apply after_there_t in Hth as [Hth HF']. pose proof (rw_color _ _ HR _ Hth HF') as Hc.
    rewrite <- (proj1 (after_color _ HF')) in Hc. unfold color in Hc. by rewrite GC_GET_COLOR_mod in Hc.
  - intros n Hn. rewrite after_rc by done. apply after_node in Hn as [Hn _]. pose proof (wf_range _ Hwf n Hn).
    pose proof (cnt_nonneg n (kids_of s W)).
    pose proof (wf_counts _ Hwf W n (proj1 (ig_garbage _ _ _ HG)) (garbage_node s Hwf M W HG) Hn). lia.
  - intros T n HT HTn Hn. rewrite after_rc by done. apply after_node in Hn as [Hn _].
    assert (forall m, m ∈ T -> is_node s m) as HTs by (intros m Hm; by apply HTn, after_node in Hm as [? _]).
    rewrite after_kids_of by done.
    pose proof (counts_with s Hwf M W HG (filter (fun m => m ∉ W) T) n) as Hc.
    assert (cnt n (kids_of s (filter (fun m => m ∉ W) T)) + cnt n (kids_of s W) <= rc s n); [|lia]. apply Hc; [by apply NoDup_filter| | |done].
    + intros m [Hm _]%list_elem_of_filter Hm'. done.
    + intros m [_ Hm]%list_elem_of_filter. auto.
  - intros n Hn%node_there. apply after_there_t in Hn as [Hn HnF]. rewrite (proj1 (after_color _ HnF)). by apply (rw_color _ _ HR).
  - rewrite Hro. pose proof (bw_ids _ _ HBu) as Hids. simpl in Hids. by apply NoDup_app in Hids as (? & _).
  - intros e. rewrite Hro. intros He. left. auto.
  - intros e. rewrite Hro. intros He _. destruct (rw_entries _ _ HR e He) as [Ha HeF].
    rewrite (proj2 (after_color _ HeF)). split; [done|].
    apply (buffer_entry _ _ _ HBu). simpl. apply elem_of_app. left. by apply list_elem_of_fmap_2.
  - intros n Hn Ha. rewrite Hro. apply after_there_t in Hn as [Hn HnF]. rewrite (proj2 (after_color _ HnF)) in Ha.
    by apply (rw_address _ _ HR).
Qed.

Lemma after_buffer : buffer_wf u /\ fits u.
Proof.
  destruct Hr as [Hro Hun]. pose proof Hrest as E. unfold rest in E. simpl in E. injection E as E1 E2 E3 E4 _ _ _ _. split.
  - destruct (bo_buffer _ _ HB) as [B1 B2 B3 B4 B5 B6 B7 B8]. split; rewrite ?E1, ?E2, ?E3, ?Hro, ?Hun; try done.
    intros p Hp. apply B8. by apply (after_there_t (NZ p)).
  - pose proof (bo_fits _ _ HB) as Hf. unfold fits, capacity in *. rewrite E1, E3, E4. destruct Hf as [|Hf]; [by left|right].
    intros l Hl Hall. apply Hf; [done|]. eapply Forall_impl; [done|]. intros n Hn. by apply after_there_t in Hn as [? _].
Qed.

Lemma after_collectable : collectable u.
Proof.
  destruct after_buffer as [Hbuf Hfits]. split; try done.
  - apply after_wf.
  - intros p. rewrite after_type. case_decide; [by intros []|]. apply (co_addresses _ Hco).
  - pose proof Hrest as E. unfold rest in E. simpl in E. injection E as _ _ _ _ E5 E6 _. rewrite E5, E6. split; [|done]. apply (bo_list _ _ HB).
  - intros h y. rewrite after_refs. case_decide as HW; [by destruct (refs_at s h)|]. intros Hy.
    assert (is_node s (NO h)) as Hn by (simpl; apply refs_obj; by rewrite Hy).
    rewrite after_rc by (apply after_node; split; [done|by apply not_garbage]).
    destruct (decide (NO h ∈ M)) as [HM|HM]; [pose proof (survivor_held s Hwf M W HG _ HM HW); lia|].
    pose proof (co_live _ Hco h y Hy). destruct (decide (0 < cnt (NO h) (kids_of s W))) as [Hp|Hp];
      [|pose proof (cnt_nonneg (NO h) (kids_of s W)); lia].
    apply cnt_pos, kids_of_elem in Hp as (n & HnW & Hk). destruct HM. eapply (M_kids s M W HG n); [|done].
    by apply (garbage_sub s M W HG).
  - intros h Hh. unfold storage_at. rewrite after_obj. fold (storage_at t h). rewrite (sh_storage _ _ _ _ HS).
    apply (co_storage _ Hco). apply (after_there (NO h)) in Hh as [? _]. done.
  - intros h b table props. rewrite after_refs. case_decide; [|apply (co_std _ Hco)].
    destruct (refs_at s h) as [[b' y]|] eqn:E; [|done]. simpl. intros [= <- ->]. by eapply (co_std _ Hco).
  - intros p l T Hp HT HTn. rewrite after_type in Hp. case_decide as HpF; [done|].
    assert (forall m, m ∈ T -> is_node s m) as HTs by (intros m Hm; by apply HTn, after_node in Hm as [? _]).
    rewrite after_drops_of, after_rc_zval by done.
    pose proof (co_globals _ Hco p l (filter (fun m => m ∉ W) T ++ W) Hp) as Hc.
    unfold drops_of in *. rewrite bind_app, pcnt_app in Hc. pose proof (pcnt_nonneg p (W ≫= drops s)).
    assert (pcnt p (filter (fun m => m ∉ W) T ≫= drops s) + pcnt p (W ≫= drops s) < rc s (NZ p) < 2 ^ 32 - 1); [|lia].
    apply Hc.
    + apply NoDup_app. split_and!; [by apply NoDup_filter| |apply HG]. intros m [Hm _]%list_elem_of_filter. done.
    + intros m [[_ Hm]%list_elem_of_filter|Hm]%elem_of_app; [auto|by apply (garbage_node s Hwf M W HG)].
Qed.
End after.
End release.
