(* ===== verification/ZendGCCyclesSpec.v ===== *)
(** * ZendGCCyclesSpec: what a collection does

    The whole of [gc_collect_cycles]: the search of [ZendGCSpec] and the release of
    [ZendGCFree]. *)
From S2P Require Import Prelude Memory ZendGC ZendGCGraph ZendGCSweep ZendGCScan ZendGCRoots ZendGCSpec ZendGCBuffer.
From S2P Require Import ZendObjectsStore ZendVariables ZendGCCycles ZendGCFree.
From stdpp Require Import base option list gmap relations.
Local Open Scope Z_scope.

(** From [s] to [u] the garbage [W] has gone: its zvals are freed, its objects are no longer
    valid, and everything else has lost exactly the references that garbage held. *)
Record released (s u : gc) (W : list node) : Prop := {
  re_zvals : forall p, type_at u p = if decide (NZ p ∈ W) then None else type_at s p;
  re_objects : forall h, refs_at u h =
    if decide (NO h ∈ W) then (fun x => (false, x.2)) <$> refs_at s h else refs_at s h;
  re_counts : forall n, is_node u n -> rc u n = rc s n - cnt n (kids_of s W)
}.

Lemma released_nothing s : roots s = [] -> is_garbage s [] [] /\ released s s [].
Proof.
  intros Hr. split.
  - split.
    + split; [constructor|]. intros n. split; [by intros ?%elem_of_nil|]. intros (e & He & _). rewrite Hr in He.
      by apply elem_of_nil in He.
    + split; [constructor|]. intros n. split; [by intros ?%elem_of_nil|]. by intros [?%elem_of_nil _].
    + intros n Hn. by apply elem_of_nil in Hn.
  - split.
    + intros p. rewrite decide_False; [done|apply not_elem_of_nil].
    + intros h. rewrite decide_False; [done|apply not_elem_of_nil].
    + intros n _. change (cnt n (kids_of s [])) with 0. lia.
Qed.


(** ** The heap with a cycle *)

(** Destructors that do nothing. *)
Definition no_destructor (_ _ : Z) (_ : zhandle) : gcmd bool := mret true.

(** A collection frees both zvals of the cycle and the object; the array that survives has
    one reference left and is not in the free list of the store. *)
Example heap_collect :
  match gc_collect_cycles no_destructor 8 1 heap with
  | Some (n, s') =>
      bool_decide (n = Some 2) && bool_decide (zvals s' !! 1%positive = None) && bool_decide (zvals s' !! 2%positive = None) &&
      (rc s' (NZ 3) =? 1) && (free_list_head s' =? 1) && bool_decide (valid <$> obj_at s' 1%positive = Some false)
  | None => false
  end = true.
Proof. vm_compute. reflexivity. Qed.

Lemma heap_buffer : buffer_wf heap.
Proof.
  split.
  - by vm_compute.
  - by exists 1.
  - by exists 9999.
  - by vm_compute.
  - apply NoDup_singleton.
  - intros r ->%list_elem_of_singleton. by exists 0.
  - done.
  - intros p Hn. change (is_there heap (NZ p)) in Hn. heap_cases Hn; by left.
Qed.

Lemma heap_collectable : collectable heap.
Proof.
  split.
  - apply heap_wf.
  - apply heap_buffer.
  - right. intros l Hnd Hl. assert (length l <= length heap_nodes)%nat as Hle.
    { apply submseteq_length, NoDup_submseteq; [done|]. intros n Hn. by eapply heap_there, Forall_forall. }
    change (capacity heap) with 10000. simpl in Hle. lia.
  - intros p Hn. change (is_there heap (NZ p)) in Hn. heap_cases Hn; by vm_compute.
  - done.
  - intros h x Ht. assert (is_there heap (NO h)) as Hn by (apply refs_obj; by eexists). heap_cases Hn; by vm_compute.
  - intros h Hn. change (is_there heap (NO h)) in Hn. heap_cases Hn; by vm_compute.
  - intros h b table props Ht. assert (is_there heap (NO h)) as Hn by (apply refs_obj; by eexists).
    heap_cases Hn; by vm_compute in Ht.
  - intros p l T Ht. assert (is_there heap (NZ p)) as Hn by by exists (IS_GLOBALS l). heap_cases Hn; by vm_compute in Ht.
Qed.

