(* ===== verification/HeapProp.v ===== *)
(** * HeapProp: assertions about memory

    The memory of C code that handles raw addresses is a finite map from the addresses of its
    scalar objects to their values.  Assertions about parts of a memory form a logic of bunched
    implications, so that Iris's proof mode works on them; [hwp c Q] says that [c] runs without
    fault in any memory that contains the part described, leaves the rest of it alone, and ends
    in [Q]. *)
From S2P Require Import Prelude Memory.
From iris.proofmode Require Import proofmode.
From stdpp Require Import gmap.
Local Open Scope Z_scope.

Abbreviation mem := (gmap Z Z).

(** ** Assertions

    An assertion holds of every memory that contains one of which it holds. *)

Record hprop := HProp {
  holds :> mem -> Prop;
  holds_mono (s1 s2 : mem) : holds s1 -> s1 ⊆ s2 -> holds s2
}.

Bind Scope bi_scope with hprop.
Arguments holds : simpl never.
Add Printing Constructor hprop.

Record hequiv (P Q : hprop) : Prop := { hequiv_at : forall s, P s <-> Q s }.

#[global] Instance hprop_equiv : Equiv hprop := hequiv.

#[global] Instance hprop_equivalence : Equivalence (≡@{hprop}).
Proof.
  split; [by intros P; split|intros P Q [HPQ]; split; intros s; by symmetry|].
  intros P Q R [HPQ] [HQR]. split. intros s. by trans (Q s).
Qed.

Canonical Structure hpropO := discreteO hprop.

Record hentails (P Q : hprop) : Prop := { hentails_at : forall s, P s -> Q s }.

Program Definition hemp : hprop := HProp (fun _ => True) _.
Next Obligation. done. Qed.

Program Definition hpure (φ : Prop) : hprop := HProp (fun _ => φ) _.
Next Obligation. done. Qed.

Program Definition hand (P Q : hprop) : hprop := HProp (fun s => P s /\ Q s) _.
Next Obligation. intros P Q s1 s2 [HP HQ] Hs. split; by eapply holds_mono. Qed.

Program Definition hor (P Q : hprop) : hprop := HProp (fun s => P s \/ Q s) _.
Next Obligation. intros P Q s1 s2 [HP|HQ] Hs; [left|right]; by eapply holds_mono. Qed.

Program Definition himpl (P Q : hprop) : hprop := HProp (fun s => forall s', s ⊆ s' -> P s' -> Q s') _.
Next Obligation. intros P Q s1 s2 HPQ Hs s' Hs' HP. apply HPQ; [by etrans|done]. Qed.

Program Definition hforall {A} (P : A -> hprop) : hprop := HProp (fun s => forall x, P x s) _.
Next Obligation. intros A P s1 s2 HP Hs x. by eapply holds_mono. Qed.

Program Definition hexist {A} (P : A -> hprop) : hprop := HProp (fun s => exists x, P x s) _.
Next Obligation. intros A P s1 s2 [x HP] Hs. exists x. by eapply holds_mono. Qed.

Program Definition hsep (P Q : hprop) : hprop :=
  HProp (fun s => exists s1 s2, s = s1 ∪ s2 /\ s1 ##ₘ s2 /\ P s1 /\ Q s2) _.
Next Obligation.
  intros P Q s1 s2 (t1 & t2 & -> & Hd & HP & HQ) Hs. exists t1, (s2 ∖ t1). split_and!; [|by apply map_disjoint_difference_r1|done|].
  - symmetry. apply map_difference_union. etrans; [|done]. apply map_union_subseteq_l.
  - eapply holds_mono; [exact HQ|]. apply map_subseteq_spec. intros i v Hi. apply lookup_difference_Some. split.
    + eapply lookup_weaken; [|exact Hs]. by apply lookup_union_Some_r.
    + by eapply map_disjoint_Some_r.
Qed.

Program Definition hwand (P Q : hprop) : hprop :=
  HProp (fun s => forall s', s ##ₘ s' -> P s' -> Q (s ∪ s')) _.
Next Obligation.
  intros P Q s1 s2 HPQ Hs s' Hd HP. eapply holds_mono; [apply (HPQ s'); [|done]|].
  - eapply map_disjoint_weaken_l; [exact Hd|done].
  - by apply map_union_mono_r.
Qed.

Definition hpersistently (P : hprop) : hprop := hpure (hentails hemp P).
Definition hlater (P : hprop) : hprop := P.

Lemma hprop_bi_mixin : BiMixin hentails hemp hpure hand hor himpl (@hforall) (@hexist) hsep hwand.
Proof.
  split.
  - split; [by intros P; split|]. intros P Q R [HPQ] [HQR]. split. auto.
  - intros P Q. split.
    + intros [HPQ]. split; split; intros s; apply HPQ.
    + intros [[H1] [H2]]. split. intros s. split; auto.
  - intros n φ ψ Hφ. split. intros s. exact Hφ.
  - intros n P P' [HP] Q Q' [HQ]. split. intros s. split; intros [H1 H2]; split; by [apply HP|apply HQ].
  - intros n P P' [HP] Q Q' [HQ]. split. intros s. split; (intros [H1|H1]; [left; by apply HP|right; by apply HQ]).
  - intros n P P' [HP] Q Q' [HQ]. split. intros s. split; intros Himp s' Hs H1; apply HQ, Himp; [done|by apply HP|done|by apply HP].
  - intros A n P P' HP. split. intros s. split; intros Hall x; destruct (HP x) as [Hx]; apply Hx, Hall.
  - intros A n P P' HP. split. intros s. split; intros [x Hx]; exists x; destruct (HP x) as [Hx']; by apply Hx'.
  - intros n P P' [HP] Q Q' [HQ]. split. intros s.
    split; intros (s1 & s2 & -> & Hd & H1 & H2); exists s1, s2; split_and!; try done; by [apply HP|apply HQ].
  - intros n P P' [HP] Q Q' [HQ]. split. intros s. split; intros Hw s' Hd H1; apply HQ, Hw; [done|by apply HP|done|by apply HP].
  - intros φ P Hφ. by split.
  - intros φ P HP. split. intros s Hφ. by apply (HP Hφ).
  - intros P Q. split. by intros s [].
  - intros P Q. split. by intros s [].
  - intros P Q R [HQ] [HR]. split. intros s HP. split; auto.
  - intros P Q. split. intros s HP. by left.
  - intros P Q. split. intros s HP. by right.
  - intros P Q R [HP] [HQ]. split. intros s [|]; auto.
  - intros P Q R [HR]. split. intros s HP s' Hs HQ. apply HR. split; [by eapply holds_mono|done].
  - intros P Q R [HR]. split. intros s [HP HQ]. by apply (HR s).
  - intros A P Ψ HΨ. split. intros s HP x. by apply (HΨ x).
  - intros A Ψ x. split. intros s HΨ. apply HΨ.
  - intros A Ψ x. split. intros s HΨ. by exists x.
  - intros A Φ Q HQ. split. intros s [x Hx]. by apply (HQ x).
  - intros P P' Q Q' [HP] [HQ]. split. intros s (s1 & s2 & -> & Hd & H1 & H2). exists s1, s2. split_and!; auto.
  - intros P. split. intros s HP. exists ∅, s. split_and!; [by rewrite left_id_L|by apply map_disjoint_empty_l|done|done].
  - intros P. split. intros s (s1 & s2 & -> & Hd & _ & HP). eapply holds_mono; [exact HP|]. by apply map_union_subseteq_r.
  - intros P Q. split. intros s (s1 & s2 & -> & Hd & H1 & H2). exists s2, s1. split_and!; [by apply map_union_comm|done..].
  - intros P Q R. split. intros s (s12 & s3 & -> & Hd & (s1 & s2 & -> & Hd' & H1 & H2) & H3).
    apply map_disjoint_union_l in Hd as [Hd1 Hd2]. exists s1, (s2 ∪ s3). split_and!; [by rewrite assoc_L|by apply map_disjoint_union_r|done|].
    by exists s2, s3.
  - intros P Q R [HR]. split. intros s HP s' Hd HQ. apply HR. by exists s, s'.
  - intros P Q R [HR]. split. intros s (s1 & s2 & -> & Hd & H1 & H2). by apply HR.
Qed.

Lemma hprop_bi_persistently_mixin : BiPersistentlyMixin hentails hemp hand (@hexist) hsep hpersistently.
Proof.
  eapply bi_persistently_mixin_discrete, hprop_bi_mixin; [done| |done].
  intros A Φ [HΦ]. destruct (HΦ ∅ I) as [x Hx]. exists x. split. intros s _. eapply holds_mono; [exact Hx|apply map_empty_subseteq].
Qed.

Lemma hprop_bi_later_mixin : BiLaterMixin hentails hpure hor himpl (@hforall) (@hexist) hsep hpersistently hlater.
Proof. by eapply bi_later_mixin_id, hprop_bi_mixin. Qed.

Canonical Structure hpropI : bi := {|
  bi_ofe_mixin := ofe_mixin_of hprop;
  bi_bi_mixin := hprop_bi_mixin;
  bi_bi_persistently_mixin := hprop_bi_persistently_mixin;
  bi_bi_later_mixin := hprop_bi_later_mixin
|}.

#[global] Instance hprop_affine : BiAffine hpropI.
Proof. intros P. by split. Qed.

#[global] Instance hprop_pure_forall : BiPureForall hpropI.
Proof. intros A φ. split. by intros s. Qed.

(** ** Memory cells *)

Program Definition pointsto (p v : Z) : hprop := HProp (fun s => s !! p = Some v) _.
Next Obligation. intros p v s1 s2 Hp Hs. exact (lookup_weaken _ _ _ _ Hp Hs). Qed.

Notation "p ↦ v" := (pointsto p v) (at level 20, format "p  ↦  v") : bi_scope.

Lemma pointsto_ne p q v w : p ↦ v -∗ q ↦ w -∗ ⌜p <> q⌝.
Proof.
  apply bi.wand_intro_r. rewrite left_id. apply bi.wand_intro_r. split. intros s (s1 & s2 & -> & Hd & H1 & H2) ->.
  change (s1 !! q = Some v) in H1. change (s2 !! q = Some w) in H2. by eapply map_disjoint_spec.
Qed.

(** ** Commands on memory *)

Abbreviation hcmd := (cmd mem).

Definition load (p : Z) : hcmd Z := fun s => match s !! p with Some v => Some (v, s) | None => None end.

Definition storev (p v : Z) : hcmd unit := fun s =>
  match s !! p with Some _ => Some (tt, <[p := v]> s) | None => None end.

(** More than the number of cells: a bound for loops over data structures. *)
Definition bound : hcmd nat := fun s => Some (S (size s), s).

Program Definition hwp {A} (c : hcmd A) (Q : A -> hprop) : hprop :=
  HProp (fun s => forall f, s ##ₘ f -> exists a s', c (s ∪ f) = Some (a, s' ∪ f) /\ s' ##ₘ f /\ Q a s') _.
Next Obligation.
  intros A c Q s1 s2 Hc Hs f Hd. assert (s2 = s1 ∪ (s2 ∖ s1)) as E by (symmetry; by apply map_difference_union).
  assert (s1 ##ₘ s2 ∖ s1) as Hd1 by by apply map_disjoint_difference_r1.
  rewrite E in Hd. apply map_disjoint_union_l in Hd as [Hf1 Hf2].
  destruct (Hc ((s2 ∖ s1) ∪ f)) as (a & s' & Hrun & Hds & HQ); [by apply map_disjoint_union_r|].
  apply map_disjoint_union_r in Hds as [Hs1 Hs2]. exists a, (s' ∪ (s2 ∖ s1)). split_and!.
  - rewrite {1}E -(assoc_L (∪)) Hrun (assoc_L (∪)). done.
  - by apply map_disjoint_union_l.
  - eapply holds_mono; [exact HQ|]. apply map_union_subseteq_l.
Qed.

(** What an entailment says of runs. *)
Lemma hwp_adequate {A} P (c : hcmd A) Q s :
  (P ⊢ hwp c Q) -> P s -> exists a s', c s = Some (a, s') /\ Q a s'.
Proof.
  intros [Hc] HP. destruct (Hc s HP ∅) as (a & s' & Hrun & _ & HQ); [apply map_disjoint_empty_r|].
  rewrite !right_id_L in Hrun. by exists a, s'.
Qed.

Lemma hwp_ret {A} (a : A) Q : Q a -∗ hwp (mret a) Q.
Proof.
  apply bi.wand_intro_r. rewrite left_id. split. intros s HQ f Hd. by exists a, s.
Qed.

Lemma hwp_bind {A B} (c : hcmd A) (f : A -> hcmd B) Q : hwp c (fun a => hwp (f a) Q) -∗ hwp (c ≫= f) Q.
Proof.
  apply bi.wand_intro_r. rewrite left_id. split. intros s Hc t Hd. destruct (Hc t Hd) as (a & s1 & Hrun & Hd1 & Hf).
  destruct (Hf t Hd1) as (b & s2 & Hrun2 & Hd2 & HQ). exists b, s2. split; [|done]. unfold mbind, cmd_bind. by rewrite Hrun.
Qed.

Lemma hwp_assoc {A B C} (c : hcmd A) (f : A -> hcmd B) (g : B -> hcmd C) Q :
  hwp ((c ≫= f) ≫= g) Q -∗ hwp (x ← c; f x ≫= g) Q.
Proof.
  apply bi.wand_intro_r. rewrite left_id. split. intros s Hc t Hd. destruct (Hc t Hd) as (a & s1 & Hrun & Hrest). exists a, s1. split; [|done].
  rewrite -Hrun. unfold mbind, cmd_bind. by destruct (c (s ∪ t)) as [[x s2]|].
Qed.

Lemma hwp_wand {A} (c : hcmd A) Q R : hwp c Q -∗ (∀ a, Q a -∗ R a) -∗ hwp c R.
Proof.
  apply bi.wand_intro_r. rewrite left_id. apply bi.wand_intro_r. split. intros s (s1 & s2 & -> & Hd & Hc & HQR) f Hf.
  apply map_disjoint_union_l in Hf as [Hf1 Hf2].
  destruct (Hc (s2 ∪ f)) as (a & s' & Hrun & Hds & HQ); [by apply map_disjoint_union_r|].
  apply map_disjoint_union_r in Hds as [Hs1 Hs2]. exists a, (s' ∪ s2). split_and!.
  - rewrite -!(assoc_L (∪)). done.
  - by apply map_disjoint_union_l.
  - rewrite map_union_comm; [|done]. apply (HQR a s'); [by symmetry|done].
Qed.

Lemma hwp_run {A} (c : hcmd A) (a : A) Q :
  (forall s, c s = Some (a, s)) -> Q a -∗ hwp c Q.
Proof. intros Hc. apply bi.wand_intro_r. rewrite left_id. split. intros s HQ f Hd. exists a, s. by rewrite Hc. Qed.

Lemma hwp_load p v Q : p ↦ v -∗ (p ↦ v -∗ Q v) -∗ hwp (load p) Q.
Proof.
  apply bi.wand_intro_r. rewrite left_id. apply bi.wand_intro_r. split. intros s (s1 & s2 & -> & Hd & Hp & HQ) f Hf.
  change (s1 !! p = Some v) in Hp. exists v, (s1 ∪ s2). split_and!; [|done|].
  - unfold load. rewrite (lookup_union_Some_l _ _ _ v); [done|by apply lookup_union_Some_l].
  - rewrite map_union_comm; [|done]. by apply HQ.
Qed.

Lemma hwp_store p v w Q : p ↦ v -∗ (p ↦ w -∗ Q tt) -∗ hwp (storev p w) Q.
Proof.
  apply bi.wand_intro_r. rewrite left_id. apply bi.wand_intro_r. split. intros s (s1 & s2 & -> & Hd & Hp & HQ) f Hf.
  change (s1 !! p = Some v) in Hp. apply map_disjoint_union_l in Hf as [Hf1 Hf2].
  assert (forall t, s1 ##ₘ t -> <[p:=w]> s1 ##ₘ t) as Hins.
  { intros t Ht. apply map_disjoint_insert_l_2; [|done]. by eapply map_disjoint_Some_l. }
  exists tt, (<[p:=w]> s1 ∪ s2). split_and!.
  - unfold storev. rewrite -(assoc_L (∪)). rewrite (lookup_union_Some_l _ _ _ v); [|done].
    by rewrite insert_union_l (assoc_L (∪)).
  - apply map_disjoint_union_l. auto.
  - rewrite map_union_comm; [|by auto]. apply HQ; [by symmetry; auto|]. apply lookup_insert_eq.
Qed.

(** The bound is larger than the number of cells the assertion speaks of. *)
Lemma hwp_bound (l : list Z) Q :
  ([∗ list] p ∈ l, ∃ v, p ↦ v) ∧ (∀ n, ⌜(length l < n)%nat⌝ → Q n) ⊢ hwp bound Q.
Proof.
  split. intros s [Hl HQ] f Hd. exists (S (size (s ∪ f))), s. split_and!; [done..|]. refine (HQ _ s _ _); [done|].
  enough (length l <= size (s ∪ f))%nat as Hle by exact (le_n_S _ _ Hle). trans (size s).
  - clear HQ Hd f. enough (exists k : gset Z, k ⊆ dom s /\ size k = length l) as (k & Hk & <-).
    { rewrite -size_dom. by apply subseteq_size. }
    revert s Hl. induction l as [|p l IH]; intros s Hl; [by exists ∅|].
    destruct Hl as (s1 & s2 & -> & Hd & [v Hv] & Hl). change (s1 !! p = Some v) in Hv.
    destruct (IH s2 Hl) as (k & Hk & Hsz). exists ({[p]} ∪ k). assert (p ∈ dom s1) as Hp by by apply elem_of_dom.
    apply map_disjoint_dom in Hd. split; [rewrite dom_union_L; set_solver|].
    rewrite size_union; [|set_solver]. rewrite size_singleton. simpl. lia.
  - rewrite -!size_dom. apply subseteq_size. rewrite dom_union_L. set_solver.
Qed.

(** ** The rules as the proofs use them *)

Lemma hwp_load_bind {B} p v (f : Z -> hcmd B) Q : p ↦ v -∗ (p ↦ v -∗ hwp (f v) Q) -∗ hwp (load p ≫= f) Q.
Proof. iIntros "Hp Hf". iApply hwp_bind. iApply (hwp_load with "Hp"). iExact "Hf". Qed.

Lemma hwp_store_bind {B} p v w (f : unit -> hcmd B) Q : p ↦ v -∗ (p ↦ w -∗ hwp (f tt) Q) -∗ hwp (storev p w ≫= f) Q.
Proof. iIntros "Hp Hf". iApply hwp_bind. iApply (hwp_store with "Hp"). iExact "Hf". Qed.

Ltac hload H := iApply (hwp_load_bind with H); iIntros H.
Ltac hstore H := iApply (hwp_store_bind with H); iIntros H.
