(* ===== verification/ZendAlloc.v ===== *)
(** * ZendAlloc: the memory manager

    Models the heap manager of src/Zend/zend_alloc.c on an LP64 machine, as it is built without
    debugging: blocks with a header at each end, lists of small free blocks, search trees
    of large ones, the list of rest blocks and the cache, all as words of memory at their
    addresses.  A cell of the memory is a scalar object of C; user data is made of words.
    The storage handlers, which get segments from the operating system, are parameters.
    A corrupted heap, where the code ends the process, is a fault. *)
From S2P Require Import Prelude Memory HeapProp.
From stdpp Require Import base list gmap.
Local Open Scope Z_scope.

(** ** Layout *)

Definition NULL : Z := 0.

Definition ZEND_MM_ALIGNMENT : Z := 8.
Definition ZEND_MM_ALIGNMENT_LOG2 : Z := 3.
Definition ZEND_MM_ALIGNED_SIZE (size : Z) : Z :=
  Z.ldiff (u64 (size + ZEND_MM_ALIGNMENT - 1)) (ZEND_MM_ALIGNMENT - 1).

Definition ZEND_MM_NUM_BUCKETS : Z := 64.
Definition ZEND_MM_CACHE_SIZE : Z := ZEND_MM_NUM_BUCKETS * 4 * 1024.
Definition ZEND_MM_MAX_REST_BLOCKS : Z := 16.

(** [sizeof(zend_mm_block)], [sizeof(zend_mm_small_free_block)], [sizeof(zend_mm_segment)] *)
Definition ZEND_MM_ALIGNED_HEADER_SIZE : Z := ZEND_MM_ALIGNED_SIZE 16.
Definition ZEND_MM_ALIGNED_FREE_HEADER_SIZE : Z := ZEND_MM_ALIGNED_SIZE 32.
Definition ZEND_MM_ALIGNED_SEGMENT_SIZE : Z := ZEND_MM_ALIGNED_SIZE 16.
Definition ZEND_MM_MIN_ALLOC_BLOCK_SIZE : Z := ZEND_MM_ALIGNED_SIZE ZEND_MM_ALIGNED_HEADER_SIZE.
Definition ZEND_MM_ALIGNED_MIN_HEADER_SIZE : Z :=
  if ZEND_MM_ALIGNED_FREE_HEADER_SIZE <? ZEND_MM_MIN_ALLOC_BLOCK_SIZE
  then ZEND_MM_MIN_ALLOC_BLOCK_SIZE else ZEND_MM_ALIGNED_FREE_HEADER_SIZE.
Definition ZEND_MM_MIN_SIZE : Z :=
  if ZEND_MM_ALIGNED_HEADER_SIZE <? ZEND_MM_ALIGNED_MIN_HEADER_SIZE
  then ZEND_MM_ALIGNED_MIN_HEADER_SIZE - ZEND_MM_ALIGNED_HEADER_SIZE else 0.
Definition ZEND_MM_MAX_SMALL_SIZE : Z :=
  Z.shiftl ZEND_MM_NUM_BUCKETS ZEND_MM_ALIGNMENT_LOG2 + ZEND_MM_ALIGNED_MIN_HEADER_SIZE.

Definition ZEND_MM_TRUE_SIZE (size : Z) : Z :=
  if size <? ZEND_MM_MIN_SIZE then ZEND_MM_ALIGNED_MIN_HEADER_SIZE
  else ZEND_MM_ALIGNED_SIZE (u64 (size + ZEND_MM_ALIGNED_HEADER_SIZE)).

Definition ZEND_MM_BUCKET_INDEX (true_size : Z) : Z :=
  Z.shiftr true_size ZEND_MM_ALIGNMENT_LOG2 - Z.shiftr ZEND_MM_ALIGNED_MIN_HEADER_SIZE ZEND_MM_ALIGNMENT_LOG2.

Definition ZEND_MM_SMALL_SIZE (true_size : Z) : bool := true_size <? ZEND_MM_MAX_SMALL_SIZE.

(** Fields of blocks: [info._size], [info._prev], and those of free ones; of segments. *)
Definition b_size (b : Z) : Z := b.
Definition b_prev (b : Z) : Z := b + 8.
Definition prev_free_block (b : Z) : Z := b + 16.
Definition next_free_block (b : Z) : Z := b + 24.
Definition parent (b : Z) : Z := b + 32.
Definition child (b i : Z) : Z := b + 40 + 8 * i.
Definition seg_size (s : Z) : Z := s.
Definition next_segment (s : Z) : Z := s + 8.

(** Fields of [struct _zend_mm_heap] at [heap]. *)
Definition free_bitmap (heap : Z) : Z := heap + 32.
Definition large_free_bitmap (heap : Z) : Z := heap + 40.
Definition block_size (heap : Z) : Z := heap + 48.
Definition compact_size (heap : Z) : Z := heap + 56.
Definition segments_list (heap : Z) : Z := heap + 64.
Definition real_size (heap : Z) : Z := heap + 80.
Definition real_peak (heap : Z) : Z := heap + 88.
Definition limit (heap : Z) : Z := heap + 96.
Definition h_size (heap : Z) : Z := heap + 104.
Definition h_peak (heap : Z) : Z := heap + 112.
Definition reserve_size (heap : Z) : Z := heap + 120.
Definition reserve (heap : Z) : Z := heap + 128.
Definition overflow (heap : Z) : Z := heap + 136.
Definition cached (heap : Z) : Z := heap + 144.
Definition cache (heap i : Z) : Z := heap + 152 + 8 * i.
Definition free_buckets (heap i : Z) : Z := heap + 664 + 8 * i.
Definition large_free_buckets (heap i : Z) : Z := heap + 1688 + 8 * i.
Definition rest_buckets (heap i : Z) : Z := heap + 2200 + 8 * i.
Definition rest_count (heap : Z) : Z := heap + 2216.

(** The addresses of blocks whose [prev_free_block] and [next_free_block] are two words of an
    array of the heap: the ends of the lists. *)
Definition ZEND_MM_SMALL_FREE_BUCKET (heap index : Z) : Z := free_buckets heap (index * 2) + 8 * 2 - 32.
Definition ZEND_MM_REST_BUCKET (heap : Z) : Z := rest_buckets heap 0 + 8 * 2 - 32.
Definition ZEND_MM_REST_BLOCK : Z := 1.

(** ** Headers *)

Definition ZEND_MM_TYPE_MASK : Z := 3.
Definition ZEND_MM_FREE_BLOCK : Z := 0.
Definition ZEND_MM_USED_BLOCK : Z := 1.
Definition ZEND_MM_GUARD_BLOCK : Z := 3.

Definition ZEND_MM_BLOCK (b type size : Z) : hcmd unit :=
  storev (b_size b) (Z.lor type size) ;;
  storev (b_prev (b + size)) (Z.lor type size).

Definition ZEND_MM_LAST_BLOCK (b : Z) : hcmd unit :=
  storev (b_size b) (Z.lor ZEND_MM_GUARD_BLOCK ZEND_MM_ALIGNED_HEADER_SIZE).

Definition ZEND_MM_BLOCK_SIZE (b : Z) : hcmd Z := s ← load (b_size b); mret (Z.ldiff s ZEND_MM_TYPE_MASK).
Definition ZEND_MM_FREE_BLOCK_SIZE (b : Z) : hcmd Z := load (b_size b).
Definition ZEND_MM_IS_FREE_BLOCK (b : Z) : hcmd bool :=
  s ← load (b_size b); mret (Z.land s ZEND_MM_USED_BLOCK =? 0).
Definition ZEND_MM_IS_GUARD_BLOCK (b : Z) : hcmd bool :=
  s ← load (b_size b); mret (Z.land s ZEND_MM_TYPE_MASK =? ZEND_MM_GUARD_BLOCK).
Definition ZEND_MM_NEXT_BLOCK (b : Z) : hcmd Z := n ← ZEND_MM_BLOCK_SIZE b; mret (b + n).
Definition ZEND_MM_PREV_BLOCK (b : Z) : hcmd Z := p ← load (b_prev b); mret (b - Z.ldiff p ZEND_MM_TYPE_MASK).
Definition ZEND_MM_PREV_BLOCK_IS_FREE (b : Z) : hcmd bool :=
  p ← load (b_prev b); mret (Z.land p ZEND_MM_USED_BLOCK =? 0).
Definition ZEND_MM_MARK_FIRST_BLOCK (b : Z) : hcmd unit := storev (b_prev b) ZEND_MM_GUARD_BLOCK.
Definition ZEND_MM_IS_FIRST_BLOCK (b : Z) : hcmd bool := p ← load (b_prev b); mret (p =? ZEND_MM_GUARD_BLOCK).

Definition ZEND_MM_DATA_OF (b : Z) : Z := b + ZEND_MM_ALIGNED_HEADER_SIZE.
Definition ZEND_MM_HEADER_OF (p : Z) : Z := p - ZEND_MM_ALIGNED_HEADER_SIZE.

(** [zend_mm_panic] when the check fails *)
Definition check (b : bool) : hcmd unit := if b then mret tt else cfault.

Definition ZEND_MM_CHECK_BLOCK_LINKAGE (b : Z) : hcmd unit :=
  s ← load (b_size b);
  p ← load (b_prev (b + s));
  check (s =? p) ;;
  first ← ZEND_MM_IS_FIRST_BLOCK b;
  if first : bool then mret tt
  else
    q ← ZEND_MM_PREV_BLOCK b;
    s ← load (b_size q);
    p ← load (b_prev b);
    check (s =? p).

Definition ZEND_MM_CHECK_TREE (b : Z) : hcmd unit :=
  p ← load (parent b);
  x ← load p;
  check (x =? b).

(** ** Bits *)

(** The branches in C; those in assembler give the same for non-zero words. *)
Fixpoint high_bit_loop (fuel : nat) (size n : Z) : Z :=
  match fuel with
  | O => n
  | S fuel => if size =? 0 then n else high_bit_loop fuel (Z.shiftr size 1) (n + 1)
  end.

Definition zend_mm_high_bit (size : Z) : Z := high_bit_loop 64 size 0 - 1.

Definition low_bit_offset : list Z := [4; 0; 1; 0; 2; 0; 1; 0; 3; 0; 1; 0; 2; 0; 1; 0].

Fixpoint low_bit_loop (fuel : nat) (size index : Z) : Z :=
  let n := low_bit_offset !!! Z.to_nat (Z.land size 15) in
  match fuel with
  | O => index + n
  | S fuel => if n =? 4 then low_bit_loop fuel (Z.shiftr size 4) (index + n) else index + n
  end.

Definition zend_mm_low_bit (size : Z) : Z := low_bit_loop 16 size 0.

Definition ZEND_MM_LARGE_BUCKET_INDEX (size : Z) : Z := zend_mm_high_bit size.

Section heap.
Context (heap : Z).

(** ** Free blocks *)

(** [parent = p; prev_free_block = next_free_block = mm_block] *)
Definition new_tree_node (mm_block p : Z) : hcmd unit :=
  storev p mm_block ;;
  storev (parent mm_block) p ;;
  storev (next_free_block mm_block) mm_block ;;
  storev (prev_free_block mm_block) mm_block.

(** Puts [mm_block] between [prev] and [next]. *)
Definition link_between (mm_block prev next : Z) : hcmd unit :=
  storev (prev_free_block mm_block) prev ;;
  storev (next_free_block mm_block) next ;;
  storev (prev_free_block next) mm_block ;;
  storev (next_free_block prev) mm_block.

(** [prev->next_free_block = next; next->prev_free_block = prev] *)
Definition unlink (prev next : Z) : hcmd unit :=
  storev (next_free_block prev) next ;;
  storev (prev_free_block next) prev.

(** The walk down a search tree, one bit of the size after the other. *)
Fixpoint add_loop (fuel : nat) (mm_block size p m : Z) : hcmd unit :=
  match fuel with
  | O => cfault
  | S fuel =>
      prev ← load p;
      s ← ZEND_MM_FREE_BLOCK_SIZE prev;
      if negb (s =? size) then
        let p := child prev (Z.land (Z.shiftr m (ZEND_MM_NUM_BUCKETS - 1)) 1) in
        c ← load p;
        if c =? NULL then new_tree_node mm_block p
        else add_loop fuel mm_block size p (u64 (Z.shiftl m 1))
      else
        next ← load (next_free_block prev);
        storev (prev_free_block next) mm_block ;;
        storev (next_free_block prev) mm_block ;;
        storev (next_free_block mm_block) next ;;
        storev (prev_free_block mm_block) prev ;;
        storev (parent mm_block) NULL
  end.

Definition zend_mm_add_to_free_list (mm_block : Z) : hcmd unit :=
  size ← ZEND_MM_FREE_BLOCK_SIZE mm_block;
  if negb (ZEND_MM_SMALL_SIZE size) then
    let index := ZEND_MM_LARGE_BUCKET_INDEX size in
    let p := large_free_buckets heap index in
    storev (child mm_block 1) NULL ;;
    storev (child mm_block 0) NULL ;;
    b ← load p;
    if b =? NULL then
      new_tree_node mm_block p ;;
      bitmap ← load (large_free_bitmap heap);
      storev (large_free_bitmap heap) (Z.lor bitmap (Z.shiftl 1 index))
    else add_loop 64 mm_block size p (u64 (Z.shiftl size (ZEND_MM_NUM_BUCKETS - index)))
  else
    let index := ZEND_MM_BUCKET_INDEX size in
    let prev := ZEND_MM_SMALL_FREE_BUCKET heap index in
    q ← load (prev_free_block prev);
    (if q =? prev then
       bitmap ← load (free_bitmap heap);
       storev (free_bitmap heap) (Z.lor bitmap (Z.shiftl 1 index))
     else mret tt) ;;
    next ← load (next_free_block prev);
    link_between mm_block prev next.

(** [while ( *(cp = &(prev->child[prev->child[1] != NULL])) != NULL) { prev = *cp; rp = cp; }] *)
Fixpoint descend (fuel : nat) (prev rp : Z) : hcmd (Z * Z) :=
  match fuel with
  | O => cfault
  | S fuel =>
      c1 ← load (child prev 1);
      let cp := child prev (if c1 =? NULL then 0 else 1) in
      c ← load cp;
      if c =? NULL then mret (prev, rp) else descend fuel c cp
  end.

Definition adopt (prev mm_block i : Z) : hcmd unit :=
  c ← load (child mm_block i);
  storev (child prev i) c ;;
  if c =? NULL then mret tt
  else
    ZEND_MM_CHECK_TREE c ;;
    storev (parent c) (child prev i).

(** The code after the label [subst_block]: [prev] takes the place of [mm_block] in the tree. *)
Definition subst_block (mm_block prev : Z) : hcmd unit :=
  ZEND_MM_CHECK_TREE mm_block ;;
  p ← load (parent mm_block);
  storev p prev ;;
  p ← load (parent mm_block);
  storev (parent prev) p ;;
  adopt prev mm_block 0 ;;
  adopt prev mm_block 1.

Definition zend_mm_remove_from_free_list (mm_block : Z) : hcmd unit :=
  prev ← load (prev_free_block mm_block);
  next ← load (next_free_block mm_block);
  if prev =? mm_block then
    check (next =? mm_block) ;;
    c1 ← load (child mm_block 1);
    let rp := child mm_block (if c1 =? NULL then 0 else 1) in
    prev ← load rp;
    if prev =? NULL then
      size ← ZEND_MM_FREE_BLOCK_SIZE mm_block;
      let index := ZEND_MM_LARGE_BUCKET_INDEX size in
      ZEND_MM_CHECK_TREE mm_block ;;
      p ← load (parent mm_block);
      storev p NULL ;;
      p ← load (parent mm_block);
      if p =? large_free_buckets heap index then
        bitmap ← load (large_free_bitmap heap);
        storev (large_free_bitmap heap) (Z.ldiff bitmap (Z.shiftl 1 index))
      else mret tt
    else
      '(prev, rp) ← descend 64 prev rp;
      storev rp NULL ;;
      subst_block mm_block prev
  else
    n ← load (next_free_block prev);
    p ← load (prev_free_block next);
    check ((n =? mm_block) && (p =? mm_block)) ;;
    unlink prev next ;;
    size ← ZEND_MM_FREE_BLOCK_SIZE mm_block;
    if ZEND_MM_SMALL_SIZE size then
      if prev =? next then
        let index := ZEND_MM_BUCKET_INDEX size in
        a ← load (free_buckets heap (index * 2));
        b ← load (free_buckets heap (index * 2 + 1));
        if a =? b then
          bitmap ← load (free_bitmap heap);
          storev (free_bitmap heap) (Z.ldiff bitmap (Z.shiftl 1 index))
        else mret tt
      else mret tt
    else
      p ← load (parent mm_block);
      if p =? ZEND_MM_REST_BLOCK then
        n ← load (rest_count heap);
        storev (rest_count heap) (s32 (n - 1))
      else if negb (p =? NULL) then subst_block mm_block prev
      else mret tt.

(** The oldest rest blocks go to the free lists until there is room for one more. *)
Fixpoint evict_loop (fuel : nat) : hcmd unit :=
  match fuel with
  | O => cfault
  | S fuel =>
      n ← load (rest_count heap);
      if ZEND_MM_MAX_REST_BLOCKS <=? n then
        p ← load (rest_buckets heap 1);
        size ← ZEND_MM_FREE_BLOCK_SIZE p;
        (if negb (ZEND_MM_SMALL_SIZE size) then storev (rest_count heap) (s32 (n - 1)) else mret tt) ;;
        prev ← load (prev_free_block p);
        next ← load (next_free_block p);
        unlink prev next ;;
        zend_mm_add_to_free_list p ;;
        evict_loop fuel
      else mret tt
  end.

Definition zend_mm_add_to_rest_list (mm_block : Z) : hcmd unit :=
  n ← bound;
  evict_loop n ;;
  size ← ZEND_MM_FREE_BLOCK_SIZE mm_block;
  (if negb (ZEND_MM_SMALL_SIZE size) then
     storev (parent mm_block) ZEND_MM_REST_BLOCK ;;
     n ← load (rest_count heap);
     storev (rest_count heap) (s32 (n + 1))
   else mret tt) ;;
  prev ← load (rest_buckets heap 0);
  next ← load (next_free_block prev);
  link_between mm_block prev next.

(** [p] and [i] of the loop over the buckets *)
Fixpoint init_loop (fuel : nat) (p i : Z) : hcmd unit :=
  match fuel with
  | O => mret tt
  | S fuel =>
      storev (next_free_block p) p ;;
      storev (prev_free_block p) p ;;
      storev (large_free_buckets heap i) NULL ;;
      init_loop fuel (p + 16) (i + 1)
  end.

Fixpoint clear_cache (fuel : nat) (i : Z) : hcmd unit :=
  match fuel with
  | O => mret tt
  | S fuel => storev (cache heap i) NULL ;; clear_cache fuel (i + 1)
  end.

Definition zend_mm_init : hcmd unit :=
  storev (free_bitmap heap) 0 ;;
  storev (large_free_bitmap heap) 0 ;;
  storev (cached heap) 0 ;;
  clear_cache 64 0 ;;
  init_loop 64 (ZEND_MM_SMALL_FREE_BUCKET heap 0) 0 ;;
  storev (rest_buckets heap 1) (ZEND_MM_REST_BUCKET heap) ;;
  storev (rest_buckets heap 0) (ZEND_MM_REST_BUCKET heap) ;;
  storev (rest_count heap) 0.

(** ** The search for a large block *)

(** The walk along the bits of the size wanted: the block of just that size, or the best one on
    the way and the last subtree of larger ones that was passed. *)
Fixpoint search_loop (fuel : nat) (true_size p m rst best_fit best_size : Z) : hcmd (Z + Z * Z * Z) :=
  match fuel with
  | O => cfault
  | S fuel =>
      s ← ZEND_MM_FREE_BLOCK_SIZE p;
      if s =? true_size then n ← load (next_free_block p); mret (inl n)
      else
        let '(best_fit, best_size) :=
          if (true_size <=? s) && (s <? best_size) then (p, s) else (best_fit, best_size) in
        c1 ← load (child p 1);
        if Z.land m (Z.shiftl 1 (ZEND_MM_NUM_BUCKETS - 1)) =? 0 then
          let rst := if c1 =? NULL then rst else c1 in
          c0 ← load (child p 0);
          if c0 =? NULL then mret (inr (rst, best_fit, best_size))
          else search_loop fuel true_size c0 (u64 (Z.shiftl m 1)) rst best_fit best_size
        else if c1 =? NULL then mret (inr (rst, best_fit, best_size))
        else search_loop fuel true_size c1 (u64 (Z.shiftl m 1)) rst best_fit best_size
  end.

(** [for (p = rst; p; p = p->child[p->child[0] != NULL])] *)
Fixpoint rest_loop (fuel : nat) (true_size p best_fit best_size : Z) : hcmd (Z + Z) :=
  match fuel with
  | O => cfault
  | S fuel =>
      if p =? NULL then mret (inr best_fit)
      else
        s ← ZEND_MM_FREE_BLOCK_SIZE p;
        if s =? true_size then n ← load (next_free_block p); mret (inl n)
        else
          let '(best_fit, best_size) :=
            if (true_size <? s) && (s <? best_size) then (p, s) else (best_fit, best_size) in
          c0 ← load (child p 0);
          p ← load (child p (if c0 =? NULL then 0 else 1));
          rest_loop fuel true_size p best_fit best_size
  end.

(** [while ((p = p->child[p->child[0] != NULL]))] *)
Fixpoint smallest_loop (fuel : nat) (p best_fit : Z) : hcmd Z :=
  match fuel with
  | O => cfault
  | S fuel =>
      c0 ← load (child p 0);
      p ← load (child p (if c0 =? NULL then 0 else 1));
      if p =? NULL then mret best_fit
      else
        s ← ZEND_MM_FREE_BLOCK_SIZE p;
        t ← ZEND_MM_FREE_BLOCK_SIZE best_fit;
        smallest_loop fuel p (if s <? t then p else best_fit)
  end.

(** "Search for smallest large free block" *)
Definition search_smallest (index bitmap : Z) : hcmd Z :=
  p ← load (large_free_buckets heap (index + zend_mm_low_bit bitmap));
  best_fit ← smallest_loop 65 p p;
  load (next_free_block best_fit).

Definition zend_mm_search_large_block (true_size : Z) : hcmd Z :=
  let index := ZEND_MM_LARGE_BUCKET_INDEX true_size in
  bm ← load (large_free_bitmap heap);
  let bitmap := Z.shiftr bm index in
  if bitmap =? 0 then mret NULL
  else if negb (Z.land bitmap 1 =? 0) then
    p ← load (large_free_buckets heap index);
    found ← search_loop 64 true_size p (u64 (Z.shiftl true_size (ZEND_MM_NUM_BUCKETS - index))) NULL NULL (2 ^ 64 - 1);
    match found with
    | inl b => mret b
    | inr (rst, best_fit, best_size) =>
        found ← rest_loop 65 true_size rst best_fit best_size;
        match found with
        | inl b => mret b
        | inr best_fit =>
            if negb (best_fit =? NULL) then load (next_free_block best_fit)
            else
              let bitmap := Z.shiftr bitmap 1 in
              if bitmap =? 0 then mret NULL else search_smallest (index + 1) bitmap
        end
    end
  else search_smallest index bitmap.

End heap.
