(* ===== verification/ZendAllocOps.v ===== *)
(** * ZendAllocOps: allocation, release and resizing

    The operations of the heap manager of src/Zend/zend_alloc.c, over those on its free blocks:
    segments, the cache, [_zend_mm_alloc_int], [_zend_mm_free_int], [_zend_mm_realloc_int] and
    the functions around them.  A fatal error ends in a bailout.  The storage handlers and the
    report of an error are parameters. *)
From S2P Require Import Prelude Memory HeapProp ZendAlloc.
From stdpp Require Import base list gmap.
Local Open Scope Z_scope.

(** The handlers of a storage that the heap manager calls. *)
Record zend_mm_mem_handlers := {
  storage_alloc : Z -> hcmd Z;
  storage_realloc : Z -> Z -> hcmd Z;
  storage_free : Z -> hcmd unit;
  storage_dtor : hcmd unit;
  storage_compact : hcmd unit
}.

(** A call returns or ends in [zend_bailout]. *)
Inductive outcome (A : Type) :=
  | Done (a : A)
  | Bailout.
Arguments Done {A} a.
Arguments Bailout {A}.

Definition then_ {A B} (c : hcmd (outcome A)) (f : A -> hcmd (outcome B)) : hcmd (outcome B) :=
  r ← c; match r with Done a => f a | Bailout => mret Bailout end.

(** [memcpy] of whole words *)
Fixpoint memcpy (fuel : nat) (dest src : Z) : hcmd unit :=
  match fuel with
  | O => mret tt
  | S fuel => v ← load src; storev dest v ;; memcpy fuel (dest + 8) (src + 8)
  end.

Section ops.
Context (heap : Z) (storage : zend_mm_mem_handlers) (zend_error : hcmd unit).

(** ** Segments *)

(** [while ( *p != segment) p = &( *p)->next_segment] *)
Fixpoint find_segment (fuel : nat) (p segment : Z) : hcmd Z :=
  match fuel with
  | O => cfault
  | S fuel =>
      s ← load p;
      if s =? segment then mret p else find_segment fuel (next_segment s) segment
  end.

Definition zend_mm_del_segment (segment : Z) : hcmd unit :=
  n ← bound;
  p ← find_segment n (segments_list heap) segment;
  next ← load (next_segment segment);
  storev p next ;;
  size ← load (seg_size segment);
  real ← load (real_size heap);
  storev (real_size heap) (u64 (real - size)) ;;
  storage_free storage segment.

(** Whether the block of [size] bytes at [mm_block] is all of its segment. *)
Definition is_whole_segment (mm_block size : Z) : hcmd bool :=
  first ← ZEND_MM_IS_FIRST_BLOCK mm_block;
  if first : bool then ZEND_MM_IS_GUARD_BLOCK (mm_block + size) else mret false.

(** ** The cache *)

Definition cache_pop (index : Z) : hcmd Z :=
  best_fit ← load (cache heap index);
  q ← load (prev_free_block best_fit);
  storev (cache heap index) q ;;
  mret best_fit.

Definition cache_push (index mm_block : Z) : hcmd unit :=
  q ← load (cache heap index);
  storev (prev_free_block mm_block) q ;;
  storev (cache heap index) mm_block.

(** [cached] is an [unsigned int]. *)
Definition add_cached (n : Z) : hcmd unit := c ← load (cached heap); storev (cached heap) (u32 (c + n)).

(** One turn of the inner loop of [zend_mm_free_cache]; it gives the next block. *)
Definition free_cached (mm_block : Z) : hcmd Z :=
  size ← ZEND_MM_BLOCK_SIZE mm_block;
  q ← load (prev_free_block mm_block);
  next_block ← ZEND_MM_NEXT_BLOCK mm_block;
  add_cached (- size) ;;
  prev_free ← ZEND_MM_PREV_BLOCK_IS_FREE mm_block;
  '(mm_block, size) ←
    (if prev_free : bool then
       mm_block ← ZEND_MM_PREV_BLOCK mm_block;
       n ← ZEND_MM_FREE_BLOCK_SIZE mm_block;
       zend_mm_remove_from_free_list heap mm_block ;;
       mret (mm_block, u64 (size + n))
     else mret (mm_block, size));
  next_free ← ZEND_MM_IS_FREE_BLOCK next_block;
  size ←
    (if next_free : bool then
       n ← ZEND_MM_FREE_BLOCK_SIZE next_block;
       zend_mm_remove_from_free_list heap next_block ;;
       mret (u64 (size + n))
     else mret size);
  ZEND_MM_BLOCK mm_block ZEND_MM_FREE_BLOCK size ;;
  n ← ZEND_MM_BLOCK_SIZE mm_block;
  whole ← is_whole_segment mm_block n;
  (if whole : bool then zend_mm_del_segment (mm_block - ZEND_MM_ALIGNED_SEGMENT_SIZE)
   else zend_mm_add_to_free_list heap mm_block) ;;
  mret q.

Fixpoint free_cache_list (fuel : nat) (mm_block : Z) : hcmd unit :=
  match fuel with
  | O => cfault
  | S fuel => if mm_block =? NULL then mret tt else q ← free_cached mm_block; free_cache_list fuel q
  end.

Fixpoint free_cache_loop (fuel : nat) (i : Z) : hcmd unit :=
  match fuel with
  | O => mret tt
  | S fuel =>
      c ← load (cache heap i);
      (if c =? NULL then mret tt
       else n ← bound; free_cache_list n c ;; storev (cache heap i) NULL) ;;
      free_cache_loop fuel (i + 1)
  end.

Definition zend_mm_free_cache : hcmd unit := free_cache_loop 64 0.

(** ** Release *)

Definition _zend_mm_free_int (p : Z) : hcmd unit :=
  if p =? NULL then mret tt
  else
    let mm_block := ZEND_MM_HEADER_OF p in
    size ← ZEND_MM_BLOCK_SIZE mm_block;
    c ← load (cached heap);
    if ZEND_MM_SMALL_SIZE size && (c <? ZEND_MM_CACHE_SIZE) then
      cache_push (ZEND_MM_BUCKET_INDEX size) mm_block ;;
      add_cached size
    else
      n ← load (h_size heap);
      storev (h_size heap) (u64 (n - size)) ;;
      let next_block := mm_block + size in
      next_free ← ZEND_MM_IS_FREE_BLOCK next_block;
      size ←
        (if next_free : bool then
           zend_mm_remove_from_free_list heap next_block ;;
           n ← ZEND_MM_FREE_BLOCK_SIZE next_block;
           mret (u64 (size + n))
         else mret size);
      prev_free ← ZEND_MM_PREV_BLOCK_IS_FREE mm_block;
      '(mm_block, size) ←
        (if prev_free : bool then
           mm_block ← ZEND_MM_PREV_BLOCK mm_block;
           zend_mm_remove_from_free_list heap mm_block ;;
           n ← ZEND_MM_FREE_BLOCK_SIZE mm_block;
           mret (mm_block, u64 (size + n))
         else mret (mm_block, size));
      whole ← is_whole_segment mm_block size;
      if whole : bool then zend_mm_del_segment (mm_block - ZEND_MM_ALIGNED_SEGMENT_SIZE)
      else
        ZEND_MM_BLOCK mm_block ZEND_MM_FREE_BLOCK size ;;
        zend_mm_add_to_free_list heap mm_block.

(** ** Errors *)

(** The message goes through [zend_error], whose own bailout is caught. *)
Definition zend_mm_safe_error {A} : hcmd (outcome A) :=
  r ← load (reserve heap);
  (if r =? NULL then mret tt else _zend_mm_free_int r ;; storev (reserve heap) NULL) ;;
  o ← load (overflow heap);
  (if o =? 0 then storev (overflow heap) 1 ;; zend_error else storev (overflow heap) 2) ;;
  mret Bailout.

(** ** Allocation *)

(** The search through the rest blocks, from the last one on. *)
Fixpoint rest_search (fuel : nat) (p true_size best_fit best_size : Z) : hcmd Z :=
  match fuel with
  | O => cfault
  | S fuel =>
      if p =? ZEND_MM_REST_BUCKET heap then mret best_fit
      else
        s ← ZEND_MM_FREE_BLOCK_SIZE p;
        if s =? true_size then mret p
        else
          let '(best_fit, best_size) :=
            if (true_size <? s) && (s <? best_size) then (p, s) else (best_fit, best_size) in
          p ← load (prev_free_block p);
          rest_search fuel p true_size best_fit best_size
  end.

(** The size of a segment for a block, and whether what is left of it is to be a rest block. *)
Definition segment_size_for (block_size true_size : Z) : Z * bool :=
  if u64 (block_size - (ZEND_MM_ALIGNED_SEGMENT_SIZE + ZEND_MM_ALIGNED_HEADER_SIZE)) <? true_size then
    (Z.ldiff (u64 (u64 (true_size + ZEND_MM_ALIGNED_SEGMENT_SIZE + ZEND_MM_ALIGNED_HEADER_SIZE) + u64 (block_size - 1)))
       (u64 (block_size - 1)), true)
  else (block_size, false).

Definition add_real_size (n : Z) : hcmd unit :=
  real ← load (real_size heap);
  storev (real_size heap) (u64 (real + n)) ;;
  real ← load (real_size heap);
  peak ← load (real_peak heap);
  if peak <? real then storev (real_peak heap) real else mret tt.

Definition change_size (f : Z -> Z) : hcmd unit :=
  n ← load (h_size heap);
  storev (h_size heap) (u64 (f n)) ;;
  n ← load (h_size heap);
  peak ← load (h_peak heap);
  if peak <? n then storev (h_peak heap) n else mret tt.

(** Makes [mm_block] of [block_size] bytes a used block of [true_size] bytes; what is left goes to
    the list [add].  The result is the size it gets. *)
Definition split_block (add : Z -> hcmd unit) (mm_block block_size true_size : Z) : hcmd Z :=
  let remaining_size := u64 (block_size - true_size) in
  if remaining_size <? ZEND_MM_ALIGNED_MIN_HEADER_SIZE then
    ZEND_MM_BLOCK mm_block ZEND_MM_USED_BLOCK block_size ;;
    mret block_size
  else
    ZEND_MM_BLOCK mm_block ZEND_MM_USED_BLOCK true_size ;;
    let new_free_block := mm_block + true_size in
    ZEND_MM_BLOCK new_free_block ZEND_MM_FREE_BLOCK remaining_size ;;
    add new_free_block ;;
    mret true_size.

(** Puts a segment from the storage into the list; it gives its block and the size of that. *)
Definition setup_segment (segment segment_size : Z) : hcmd (Z * Z) :=
  add_real_size segment_size ;;
  storev (seg_size segment) segment_size ;;
  next ← load (segments_list heap);
  storev (next_segment segment) next ;;
  storev (segments_list heap) segment ;;
  let best_fit := segment + ZEND_MM_ALIGNED_SEGMENT_SIZE in
  ZEND_MM_MARK_FIRST_BLOCK best_fit ;;
  let block_size := u64 (segment_size - ZEND_MM_ALIGNED_SEGMENT_SIZE - ZEND_MM_ALIGNED_HEADER_SIZE) in
  ZEND_MM_LAST_BLOCK (best_fit + block_size) ;;
  mret (best_fit, block_size).

(** A new segment with room for [true_size] bytes: its block, its size, and where the rest goes. *)
Definition new_segment (true_size : Z) : hcmd (outcome (Z * Z * bool)) :=
  bs ← load (block_size heap);
  let '(segment_size, keep_rest) := segment_size_for bs true_size in
  real ← load (real_size heap);
  lim ← load (limit heap);
  if (segment_size <? true_size) || (lim <? u64 (real + segment_size)) then
    zend_mm_free_cache ;; zend_mm_safe_error
  else
    segment ← storage_alloc storage segment_size;
    if segment =? NULL then zend_mm_free_cache ;; zend_mm_safe_error
    else
      '(best_fit, block_size) ← setup_segment segment segment_size;
      mret (Done (best_fit, block_size, keep_rest)).

Definition add_to (keep_rest : bool) : Z -> hcmd unit :=
  if keep_rest then zend_mm_add_to_rest_list heap else zend_mm_add_to_free_list heap.

(** From the label [zend_mm_finished_searching_for_block] on. *)
Definition use_block (best_fit block_size true_size : Z) (keep_rest : bool) : hcmd (outcome Z) :=
  true_size ← split_block (add_to keep_rest) best_fit block_size true_size;
  change_size (fun n => n + true_size) ;;
  mret (Done (ZEND_MM_DATA_OF best_fit)).

Definition use_free_block (best_fit true_size : Z) : hcmd (outcome Z) :=
  ZEND_MM_CHECK_BLOCK_LINKAGE best_fit ;;
  zend_mm_remove_from_free_list heap best_fit ;;
  block_size ← ZEND_MM_FREE_BLOCK_SIZE best_fit;
  use_block best_fit block_size true_size false.

(** The part for sizes that no small block will do for. *)
Definition alloc_large (true_size : Z) : hcmd (outcome Z) :=
  best_fit ← zend_mm_search_large_block heap true_size;
  real ← load (real_size heap);
  lim ← load (limit heap);
  bs ← load (block_size heap);
  best_fit ←
    (if (best_fit =? NULL) && (u64 (lim - bs) <=? real) then
       n ← bound;
       p ← load (rest_buckets heap 0);
       rest_search n p true_size NULL (2 ^ 64 - 1)
     else mret best_fit);
  if best_fit =? NULL then
    then_ (new_segment true_size)
      (fun '(best_fit, block_size, keep_rest) => use_block best_fit block_size true_size keep_rest)
  else use_free_block best_fit true_size.

Definition _zend_mm_alloc_int (size : Z) : hcmd (outcome Z) :=
  let true_size := ZEND_MM_TRUE_SIZE size in
  if ZEND_MM_SMALL_SIZE true_size then
    let index := ZEND_MM_BUCKET_INDEX true_size in
    if true_size <? size then zend_mm_safe_error
    else
      c ← load (cache heap index);
      if negb (c =? NULL) then
        best_fit ← cache_pop index;
        add_cached (- true_size) ;;
        mret (Done (ZEND_MM_DATA_OF best_fit))
      else
        bm ← load (free_bitmap heap);
        let bitmap := Z.shiftr bm index in
        if negb (bitmap =? 0) then
          best_fit ← load (free_buckets heap ((index + zend_mm_low_bit bitmap) * 2));
          use_free_block best_fit true_size
        else alloc_large true_size
  else alloc_large true_size.

(** ** Resizing *)

(** The bytes of user data of a block, as words to copy. *)
Definition copy_data (dest src orig_size : Z) : hcmd unit :=
  memcpy (Z.to_nat ((orig_size - ZEND_MM_ALIGNED_HEADER_SIZE) / 8)) dest src.

Definition realloc_shrink (mm_block true_size orig_size : Z) : hcmd unit :=
  let remaining_size := u64 (orig_size - true_size) in
  if ZEND_MM_ALIGNED_MIN_HEADER_SIZE <=? remaining_size then
    let next_block := mm_block + orig_size in
    next_free ← ZEND_MM_IS_FREE_BLOCK next_block;
    remaining_size ←
      (if next_free : bool then
         n ← ZEND_MM_FREE_BLOCK_SIZE next_block;
         zend_mm_remove_from_free_list heap next_block ;;
         mret (u64 (remaining_size + n))
       else mret remaining_size);
    ZEND_MM_BLOCK mm_block ZEND_MM_USED_BLOCK true_size ;;
    let new_free_block := mm_block + true_size in
    ZEND_MM_BLOCK new_free_block ZEND_MM_FREE_BLOCK remaining_size ;;
    zend_mm_add_to_free_list heap new_free_block ;;
    n ← load (h_size heap);
    storev (h_size heap) (u64 (n + u64 (true_size - orig_size)))
  else mret tt.

(** A cached block of the right size takes the data. *)
Definition realloc_cached (mm_block p true_size orig_size : Z) : hcmd Z :=
  best_fit ← cache_pop (ZEND_MM_BUCKET_INDEX true_size);
  let ptr := ZEND_MM_DATA_OF best_fit in
  copy_data ptr p orig_size ;;
  add_cached (- (true_size - orig_size)) ;;
  cache_push (ZEND_MM_BUCKET_INDEX orig_size) mm_block ;;
  mret ptr.

(** The free block behind [mm_block] makes room. *)
Definition realloc_in_place (mm_block next_block true_size orig_size : Z) : hcmd unit :=
  n ← ZEND_MM_FREE_BLOCK_SIZE next_block;
  let block_size := u64 (orig_size + n) in
  zend_mm_remove_from_free_list heap next_block ;;
  true_size ←
    split_block
      (fun new_free_block =>
         whole ← (first ← ZEND_MM_IS_FIRST_BLOCK mm_block;
                  if first : bool then ZEND_MM_IS_GUARD_BLOCK (mm_block + block_size) else mret false);
         add_to whole new_free_block)
      mm_block block_size true_size;
  change_size (fun n => n + true_size - orig_size).

(** [segment] takes the place of [segment_copy], whose data it has, with [segment_size] bytes; it
    gives its block and the size of that. *)
Definition replace_segment (mm_block segment_copy segment segment_size : Z) : hcmd (Z * Z) :=
  old ← load (seg_size segment);
  add_real_size (u64 (segment_size - old)) ;;
  storev (seg_size segment) segment_size ;;
  mm_block ←
    (if negb (segment =? segment_copy) then
       n ← bound;
       seg ← find_segment n (segments_list heap) segment_copy;
       storev seg segment ;;
       let mm_block := segment + ZEND_MM_ALIGNED_SEGMENT_SIZE in
       ZEND_MM_MARK_FIRST_BLOCK mm_block ;;
       mret mm_block
     else mret mm_block);
  let block_size := u64 (segment_size - ZEND_MM_ALIGNED_SEGMENT_SIZE - ZEND_MM_ALIGNED_HEADER_SIZE) in
  ZEND_MM_LAST_BLOCK (mm_block + block_size) ;;
  mret (mm_block, block_size).

(** After the label [realloc_segment]: [mm_block] is alone in its segment, which becomes larger. *)
Definition realloc_segment (mm_block next_block true_size orig_size : Z) : hcmd (outcome Z) :=
  bs ← load (block_size heap);
  let '(segment_size, _) := segment_size_for bs true_size in
  let segment_copy := mm_block - ZEND_MM_ALIGNED_SEGMENT_SIZE in
  real ← load (real_size heap);
  old ← load (seg_size segment_copy);
  lim ← load (limit heap);
  if (segment_size <? true_size) || (lim <? u64 (u64 (real + segment_size) - old)) then
    next_free ← ZEND_MM_IS_FREE_BLOCK next_block;
    (if next_free : bool then zend_mm_add_to_free_list heap next_block else mret tt) ;;
    zend_mm_free_cache ;; zend_mm_safe_error
  else
    segment ← storage_realloc storage segment_copy segment_size;
    if segment =? NULL then zend_mm_free_cache ;; zend_mm_safe_error
    else
      '(mm_block, block_size) ← replace_segment mm_block segment_copy segment segment_size;
      true_size ← split_block (zend_mm_add_to_rest_list heap) mm_block block_size true_size;
      change_size (fun n => n + true_size - orig_size) ;;
      mret (Done (ZEND_MM_DATA_OF mm_block)).

(** A new block, a copy and the release of the old block. *)
Definition realloc_move (p size orig_size : Z) : hcmd (outcome Z) :=
  then_ (_zend_mm_alloc_int size) (fun ptr =>
    copy_data ptr p orig_size ;;
    _zend_mm_free_int p ;;
    mret (Done ptr)).

Definition realloc_grow (mm_block p size true_size orig_size : Z) : hcmd (outcome Z) :=
  let next_block := mm_block + orig_size in
  next_free ← ZEND_MM_IS_FREE_BLOCK next_block;
  if next_free : bool then
    ZEND_MM_CHECK_BLOCK_LINKAGE next_block ;;
    n ← ZEND_MM_FREE_BLOCK_SIZE next_block;
    if true_size <=? u64 (orig_size + n) then
      realloc_in_place mm_block next_block true_size orig_size ;;
      mret (Done p)
    else
      whole ← (first ← ZEND_MM_IS_FIRST_BLOCK mm_block;
               if first : bool then ZEND_MM_IS_GUARD_BLOCK (next_block + n) else mret false);
      if whole : bool then
        zend_mm_remove_from_free_list heap next_block ;;
        realloc_segment mm_block next_block true_size orig_size
      else realloc_move p size orig_size
  else
    whole ← is_whole_segment mm_block orig_size;
    if whole : bool then realloc_segment mm_block next_block true_size orig_size
    else realloc_move p size orig_size.

Definition _zend_mm_realloc_int (p size : Z) : hcmd (outcome Z) :=
  if p =? NULL then _zend_mm_alloc_int size
  else
    let mm_block := ZEND_MM_HEADER_OF p in
    let true_size := ZEND_MM_TRUE_SIZE size in
    orig_size ← ZEND_MM_BLOCK_SIZE mm_block;
    if true_size <? size then zend_mm_safe_error
    else if true_size <=? orig_size then
      realloc_shrink mm_block true_size orig_size ;;
      mret (Done p)
    else
      c ← (if ZEND_MM_SMALL_SIZE true_size then load (cache heap (ZEND_MM_BUCKET_INDEX true_size)) else mret NULL);
      if negb (c =? NULL) then
        ptr ← realloc_cached mm_block p true_size orig_size;
        mret (Done ptr)
      else realloc_grow mm_block p size true_size orig_size.

Definition _zend_mm_block_size (p : Z) : hcmd Z :=
  if p =? NULL then mret 0 else ZEND_MM_BLOCK_SIZE (ZEND_MM_HEADER_OF p).

(** ** Requests for arrays *)

(** The branch for amd64: the product of two words and the sum, with what does not fit a word. *)
Definition safe_address (nmemb size offset : Z) : hcmd (outcome Z) :=
  let res := u64 (nmemb * size) in
  let overflow := (nmemb * size) / 2 ^ 64 in
  let carry := (res + offset) / 2 ^ 64 in
  let overflow := u64 (overflow + carry) in
  if negb (overflow =? 0) then zend_error ;; mret Bailout else mret (Done (u64 (res + offset))).

Definition _emalloc (size : Z) : hcmd (outcome Z) := _zend_mm_alloc_int size.
Definition _efree (ptr : Z) : hcmd unit := _zend_mm_free_int ptr.
Definition _erealloc (ptr size : Z) : hcmd (outcome Z) := _zend_mm_realloc_int ptr size.

Definition _safe_emalloc (nmemb size offset : Z) : hcmd (outcome Z) :=
  then_ (safe_address nmemb size offset) _emalloc.

Definition INT_MAX : Z := 2 ^ 31 - 1.

(** The length of a string is an [int]. *)
Definition _safe_emalloc_string (nmemb size offset : Z) : hcmd (outcome Z) :=
  then_ (safe_address nmemb size offset) (fun str_size =>
    if INT_MAX <? str_size then zend_error ;; mret Bailout else _emalloc str_size).

Definition _safe_erealloc (ptr nmemb size offset : Z) : hcmd (outcome Z) :=
  then_ (safe_address nmemb size offset) (_erealloc ptr).

(** ** Limits and usage *)

Definition zend_set_memory_limit (memory_limit : Z) : hcmd unit :=
  bs ← load (block_size heap);
  storev (limit heap) (if bs <=? memory_limit then memory_limit else bs).

Definition zend_memory_usage (real_usage : bool) : hcmd Z :=
  if real_usage then load (real_size heap)
  else
    usage ← load (h_size heap);
    c ← load (cached heap);
    mret (u64 (usage - c)).

Definition zend_memory_peak_usage (real_usage : bool) : hcmd Z :=
  if real_usage then load (real_peak heap) else load (h_peak heap).

(** ** Startup *)

(** [zend_mm_startup_ex] on the memory of the heap structure, for a heap outside the storage. *)
Definition zend_mm_startup_ex (bs rs : Z) : hcmd (outcome unit) :=
  storev (block_size heap) bs ;;
  storev (compact_size heap) 0 ;;
  storev (segments_list heap) NULL ;;
  zend_mm_init heap ;;
  storev (real_size heap) 0 ;;
  storev (overflow heap) 0 ;;
  storev (real_peak heap) 0 ;;
  storev (limit heap) (2 ^ 62) ;;
  storev (h_size heap) 0 ;;
  storev (h_peak heap) 0 ;;
  storev (reserve heap) NULL ;;
  storev (reserve_size heap) rs ;;
  if 0 <? rs then
    then_ (_zend_mm_alloc_int rs) (fun r => storev (reserve heap) r ;; mret (Done tt))
  else mret (Done tt).

(** ** Shutdown *)

(** The loops over the segments: all of them, or all but the last one in the list. *)
Fixpoint free_segments (fuel : nat) (segment : Z) : hcmd unit :=
  match fuel with
  | O => cfault
  | S fuel =>
      if segment =? NULL then mret tt
      else next ← load (next_segment segment); storage_free storage segment ;; free_segments fuel next
  end.

Fixpoint free_but_last (fuel : nat) (segment : Z) : hcmd Z :=
  match fuel with
  | O => cfault
  | S fuel =>
      next ← load (next_segment segment);
      if next =? NULL then mret segment else storage_free storage segment ;; free_but_last fuel next
  end.

(** "mark segment as a free block" *)
Definition mark_free_segment (segment : Z) : hcmd unit :=
  let b := segment + ZEND_MM_ALIGNED_SEGMENT_SIZE in
  size ← load (seg_size segment);
  let block_size := u64 (size - ZEND_MM_ALIGNED_SEGMENT_SIZE - ZEND_MM_ALIGNED_HEADER_SIZE) in
  ZEND_MM_MARK_FIRST_BLOCK b ;;
  ZEND_MM_LAST_BLOCK (b + block_size) ;;
  ZEND_MM_BLOCK b ZEND_MM_FREE_BLOCK block_size ;;
  zend_mm_add_to_free_list heap b.

(** The segments at the end of a request: the last one is kept when there is to be a reserve. *)
Definition release_segments : hcmd unit :=
  segment ← load (segments_list heap);
  if segment =? NULL then mret tt
  else
    n ← bound;
    rs ← load (reserve_size heap);
    if negb (rs =? 0) then
      segment ← free_but_last n segment;
      storev (segments_list heap) segment
    else
      free_segments n segment ;;
      storev (segments_list heap) NULL.

Definition full_release (libc_free : Z -> hcmd unit) : hcmd unit :=
  segment ← load (segments_list heap);
  n ← bound;
  free_segments n segment ;;
  storev (segments_list heap) NULL ;;
  storage_dtor storage ;;
  libc_free heap.

(** [zend_mm_shutdown] of a heap outside the storage, whose memory [libc_free] takes back. *)
Definition zend_mm_shutdown (libc_free : Z -> hcmd unit) (full_shutdown : bool) : hcmd (outcome unit) :=
  r ← load (reserve heap);
  (if r =? NULL then mret tt else storev (reserve heap) NULL) ;;
  if full_shutdown then full_release libc_free ;; mret (Done tt)
  else
    release_segments ;;
    compact ← load (compact_size heap);
    peak ← load (real_peak heap);
    (if negb (compact =? 0) && (compact <? peak) then storage_compact storage else mret tt) ;;
    zend_mm_init heap ;;
    segment ← load (segments_list heap);
    size ← (if segment =? NULL then mret 0 else load (seg_size segment));
    storev (real_size heap) size ;;
    storev (real_peak heap) size ;;
    storev (h_size heap) 0 ;;
    storev (h_peak heap) 0 ;;
    (if segment =? NULL then mret tt else mark_free_segment segment) ;;
    rs ← load (reserve_size heap);
    if negb (rs =? 0) then
      then_ (_zend_mm_alloc_int rs) (fun r => storev (reserve heap) r ;; storev (overflow heap) 0 ;; mret (Done tt))
    else
      storev (overflow heap) 0 ;;
      mret (Done tt).

End ops.
