(* ===== verification/ZendAllocBits.v ===== *)
(** * ZendAllocBits: sizes and bits

    The sizes of blocks, the bucket of a size, and the bit scans of the memory manager. *)
From S2P Require Import Prelude Memory HeapProp ZendAlloc.
From stdpp Require Import base list.
From Stdlib Require Import ZArith Lia.
Local Open Scope Z_scope.

(** ** Bit scans *)

Lemma high_bit_loop_spec fuel s n :
  0 <= s < 2 ^ Z.of_nat fuel -> high_bit_loop fuel s n = if decide (s = 0) then n else n + Z.log2 s + 1.
Proof.
  revert s n. induction fuel as [|fuel IH]; intros s n Hs; simpl; [rewrite decide_True by (simpl in Hs; lia); done|].
  destruct (Z.eqb_spec s 0) as [->|Hne]; [done|]. rewrite decide_False by done.
  rewrite Z.shiftr_div_pow2 by lia. change (2 ^ 1) with 2. rewrite IH.
  - destruct (decide (s / 2 = 0)) as [E|E].
    + assert (s = 1) as -> by (Z.to_euclidean_division_equations; lia). simpl. lia.
    + assert (2 <= s) by (Z.to_euclidean_division_equations; lia).
      assert (Z.log2 s = Z.log2 (s / 2) + 1) as ->; [|lia].
      pose proof (Z.log2_shiftr s 1) as El. rewrite Z.shiftr_div_pow2 in El by lia. change (2 ^ 1) with 2 in El.
      rewrite El by lia. assert (1 <= Z.log2 s) by (apply Z.log2_le_pow2; lia). lia.
  - rewrite Nat2Z.inj_succ, Z.pow_succ_r in Hs by lia. Z.to_euclidean_division_equations. lia.
Qed.

Lemma zend_mm_high_bit_log2 s : 0 < s < 2 ^ 64 -> zend_mm_high_bit s = Z.log2 s.
Proof. intros Hs. unfold zend_mm_high_bit. rewrite high_bit_loop_spec, decide_False by (simpl; lia). lia. Qed.

(** The offset table is right for a nibble. *)
Lemma low_bit_offset_spec x : 0 <= x < 16 ->
  let n := low_bit_offset !!! Z.to_nat x in
  (x = 0 /\ n = 4) \/ (0 <= n < 4 /\ Z.testbit x n = true /\ forall j, 0 <= j < n -> Z.testbit x j = false).
Proof.
  intros Hx. assert (x = 0 \/ x = 1 \/ x = 2 \/ x = 3 \/ x = 4 \/ x = 5 \/ x = 6 \/ x = 7 \/ x = 8 \/ x = 9 \/ x = 10 \/ x = 11 \/
    x = 12 \/ x = 13 \/ x = 14 \/ x = 15) as Hin by lia.
  cbv zeta. destruct_or! Hin; subst x;
    match goal with |- context [low_bit_offset !!! ?i] =>
      let v := eval vm_compute in (low_bit_offset !!! i) in change (low_bit_offset !!! i) with v end;
    try (by left); right; (split; [lia|]); (split; [done|]);
    intros j Hj; assert (j = 0 \/ j = 1 \/ j = 2) as Hj3 by lia; destruct Hj3 as [->|[->| ->]]; done || lia.
Qed.

Lemma low_bit_loop_spec fuel s index :
  0 < s < 2 ^ (4 * Z.of_nat fuel) ->
  exists k, low_bit_loop fuel s index = index + k /\ 0 <= k < 4 * Z.of_nat fuel /\ Z.testbit s k = true /\
    forall j, 0 <= j < k -> Z.testbit s j = false.
Proof.
  revert s index. induction fuel as [|fuel IH]; intros s index Hs; [simpl in Hs; lia|].
  assert (Z.land s 15 = s mod 16) as El by (change 15 with (Z.ones 4); by rewrite Z.land_ones by lia).
  pose proof (Z.mod_pos_bound s 16 ltac:(lia)) as Hm. cbn [low_bit_loop]. rewrite El.
  assert (forall j, 0 <= j < 4 -> Z.testbit (s mod 16) j = Z.testbit s j) as Hlow.
  { intros j Hj. change 16 with (2 ^ 4). apply Z.mod_pow2_bits_low. lia. }
  destruct (low_bit_offset_spec (s mod 16) Hm) as [[E ->]|(Hn & Hbit & Hno)].
  - rewrite Z.eqb_refl. destruct (IH (Z.shiftr s 4) (index + 4)) as (k & -> & Hk & Hb & Hz).
    { rewrite Z.shiftr_div_pow2 by lia. change (2 ^ 4) with 16. rewrite Nat2Z.inj_succ in Hs.
      replace (4 * Z.succ (Z.of_nat fuel)) with (4 * Z.of_nat fuel + 4) in Hs by lia. rewrite Z.pow_add_r in Hs by lia.
      change (2 ^ 4) with 16 in Hs. pose proof (Z.div_mod s 16 ltac:(lia)) as Ed. rewrite E in Ed.
      set (q := s / 16) in *. set (m := 2 ^ (4 * Z.of_nat fuel)) in *. lia. }
    exists (4 + k). rewrite Z.shiftr_spec in Hb by lia. split_and!; [lia..|by rewrite Z.add_comm|].
    intros j Hj. destruct (decide (j < 4)) as [Hj4|Hj4].
    + rewrite <- Hlow, E by lia. apply Z.bits_0.
    + specialize (Hz (j - 4) ltac:(lia)). rewrite Z.shiftr_spec in Hz by lia. by replace (j - 4 + 4) with j in Hz by lia.
  - set (n := low_bit_offset !!! Z.to_nat (s mod 16)) in *. destruct (Z.eqb_spec n 4) as [|_]; [lia|]. exists n.
    split_and!; [done|lia|lia|by rewrite <- Hlow by lia|]. intros j Hj. rewrite <- Hlow by lia. auto.
Qed.

Lemma zend_mm_low_bit_spec s : 0 < s < 2 ^ 64 ->
  0 <= zend_mm_low_bit s < 64 /\ Z.testbit s (zend_mm_low_bit s) = true /\
  forall j, 0 <= j < zend_mm_low_bit s -> Z.testbit s j = false.
Proof.
  intros Hs. unfold zend_mm_low_bit. destruct (low_bit_loop_spec 16 s 0) as (k & -> & Hk & Hb & Hz); [done|].
  rewrite Z.add_0_l. split_and!; [lia|lia|done|done].
Qed.

(** ** Sizes *)

Lemma aligned_size x : 0 <= x -> x + 7 < 2 ^ 64 ->
  ZEND_MM_ALIGNED_SIZE x mod 8 = 0 /\ x <= ZEND_MM_ALIGNED_SIZE x < x + 8.
Proof.
  intros Hx Hx'. unfold ZEND_MM_ALIGNED_SIZE, ZEND_MM_ALIGNMENT. rewrite wrap_u_small by lia.
  change (8 - 1) with (Z.ones 3). rewrite Z.ldiff_ones_r, Z.shiftl_mul_pow2, Z.shiftr_div_pow2 by lia. change (2 ^ 3) with 8.
  Z.to_euclidean_division_equations. lia.
Qed.

(** A request that can be met at all gets a block with room for it; one near the end of the
    address space wraps around to a smaller number. *)
Lemma true_size_spec size : 0 <= size < 2 ^ 64 ->
  let t := ZEND_MM_TRUE_SIZE size in
  0 <= t < 2 ^ 64 /\ t mod 8 = 0 /\
  (size <= 2 ^ 64 - 24 -> 32 <= t /\ size + 16 <= t <= Z.max 32 (size + 23)) /\
  (2 ^ 64 - 24 < size -> t < 32).
Proof.
  intros Hs. unfold ZEND_MM_TRUE_SIZE. change ZEND_MM_MIN_SIZE with 16. change ZEND_MM_ALIGNED_MIN_HEADER_SIZE with 32.
  change ZEND_MM_ALIGNED_HEADER_SIZE with 16. destruct (Z.ltb_spec size 16) as [Hlt|Hge]; [simpl; split_and!; lia || done|].
  destruct (decide (size + 16 < 2 ^ 64)) as [Hf|Hf].
  - rewrite (wrap_u_small 64) by lia. destruct (decide (size + 23 < 2 ^ 64)) as [Hf'|Hf'].
    + destruct (aligned_size (size + 16)) as [H8 Hb]; [lia..|]. cbv zeta. split_and!; lia || done.
    + unfold ZEND_MM_ALIGNED_SIZE, ZEND_MM_ALIGNMENT. unfold wrap_u.
      replace ((size + 16 + 8 - 1) mod 2 ^ 64) with (size + 23 - 2 ^ 64) by (rewrite <- (Z.mod_small (size + 23 - 2 ^ 64) (2 ^ 64)) by lia;
        rewrite <- (Z.mod_add _ 1) by lia; f_equal; lia).
      change (8 - 1) with (Z.ones 3). rewrite Z.ldiff_ones_r, Z.shiftl_mul_pow2, Z.shiftr_div_pow2 by lia. change (2 ^ 3) with 8.
      cbv zeta. Z.to_euclidean_division_equations. lia.
  - replace (u64 (size + 16)) with (size + 16 - 2 ^ 64) by (unfold wrap_u; rewrite <- (Z.mod_small (size + 16 - 2 ^ 64) (2 ^ 64)) by lia;
        rewrite <- (Z.mod_add _ 1) by lia; f_equal; lia).
    destruct (aligned_size (size + 16 - 2 ^ 64)) as [H8 Hb]; [lia..|]. cbv zeta. split_and!; lia || done.
Qed.

(** The bucket of a small size. *)
Lemma bucket_index n : n mod 8 = 0 -> 32 <= n -> ZEND_MM_SMALL_SIZE n = true ->
  0 <= ZEND_MM_BUCKET_INDEX n < 64 /\ n = 32 + 8 * ZEND_MM_BUCKET_INDEX n.
Proof.
  unfold ZEND_MM_SMALL_SIZE, ZEND_MM_BUCKET_INDEX. change ZEND_MM_MAX_SMALL_SIZE with 544. intros H8 H32 Hs%Z.ltb_lt.
  rewrite Z.shiftr_div_pow2 by (unfold ZEND_MM_ALIGNMENT_LOG2; lia).
  change (2 ^ ZEND_MM_ALIGNMENT_LOG2) with 8. change (Z.shiftr ZEND_MM_ALIGNED_MIN_HEADER_SIZE ZEND_MM_ALIGNMENT_LOG2) with 4.
  Z.to_euclidean_division_equations. lia.
Qed.

Lemma not_small n : ZEND_MM_SMALL_SIZE n = false <-> 544 <= n.
Proof. unfold ZEND_MM_SMALL_SIZE. change ZEND_MM_MAX_SMALL_SIZE with 544. apply Z.ltb_ge. Qed.

(** ** Bitmaps *)

Lemma bitmap_set bm i j : 0 <= i -> 0 <= j -> Z.testbit (Z.lor bm (Z.shiftl 1 i)) j = Z.testbit bm j || (i =? j).
Proof.
  intros Hi Hj. rewrite Z.lor_spec, Z.shiftl_spec by lia. f_equal. destruct (Z.eqb_spec i j) as [->|Hne]; [by rewrite Z.sub_diag|].
  destruct (decide (j < i)); [by apply Z.testbit_neg_r; lia|]. apply Z.bits_above_log2; simpl; lia.
Qed.

Lemma bitmap_clear bm i j : 0 <= i -> 0 <= j -> Z.testbit (Z.ldiff bm (Z.shiftl 1 i)) j = Z.testbit bm j && negb (i =? j).
Proof.
  intros Hi Hj. rewrite Z.ldiff_spec, Z.shiftl_spec by lia. do 2 f_equal. destruct (Z.eqb_spec i j) as [->|Hne]; [by rewrite Z.sub_diag|].
  destruct (decide (j < i)); [by apply Z.testbit_neg_r; lia|]. apply Z.bits_above_log2; simpl; lia.
Qed.
