(* ===== verification/ZendAllocRing.v ===== *)
(** * ZendAllocRing: memory of blocks, and their circular lists

    Stretches of words, and the rings of blocks that [prev_free_block] and
    [next_free_block] form: the lists of small free blocks and of rest blocks, whose ends are
    fields of the heap, and the blocks of one size in a search tree. *)
From S2P Require Import Prelude Memory HeapProp ZendAlloc.
From iris.proofmode Require Import proofmode.
From stdpp Require Import list.
Local Open Scope Z_scope.

(** ** Stretches of memory *)

Definition words (a : Z) (ws : list Z) : hprop := [∗ list] k ↦ w ∈ ws, (a + 8 * Z.of_nat k) ↦ w.

(** [n] bytes of memory at [a], with any contents. *)
Definition region (a n : Z) : hprop := ∃ ws, ⌜(n = 8 * Z.of_nat (length ws))%Z⌝ ∗ words a ws.

Lemma words_app a ws1 ws2 : words a (ws1 ++ ws2) ⊣⊢ words a ws1 ∗ words (a + 8 * Z.of_nat (length ws1)) ws2.
Proof.
  unfold words. rewrite big_sepL_app. apply bi.sep_proper; [done|]. apply big_sepL_proper. intros k w _.
  by replace (a + 8 * Z.of_nat (length ws1 + k)) with (a + 8 * Z.of_nat (length ws1) + 8 * Z.of_nat k) by lia.
Qed.

Lemma words_cons a w ws : words a (w :: ws) ⊣⊢ a ↦ w ∗ words (a + 8) ws.
Proof.
  change (w :: ws) with ([w] ++ ws). rewrite words_app. unfold words at 1. rewrite big_sepL_singleton.
  by replace (a + 8 * Z.of_nat 0) with a by lia.
Qed.

Lemma region_split a n m : 0 <= n -> 0 <= m -> n mod 8 = 0 -> region a (n + m) ⊣⊢ region a n ∗ region (a + n) m.
Proof.
  intros Hn Hm Hd. iSplit.
  - iIntros "(%ws & %Hlen & H)". rewrite -(take_drop (Z.to_nat (n / 8)) ws) words_app.
    assert (n = 8 * (n / 8)) as E by (Z.to_euclidean_division_equations; lia).
    assert (n + m = 8 * Z.of_nat (length ws)) as Hlen' by done.
    assert (length (take (Z.to_nat (n / 8)) ws) = Z.to_nat (n / 8)) as El by (rewrite length_take; lia).
    iDestruct "H" as "[H1 H2]". iSplitL "H1".
    + iExists _. iFrame "H1". iPureIntro. rewrite El. lia.
    + iExists _. rewrite El. replace (a + n) with (a + 8 * Z.of_nat (Z.to_nat (n / 8))) by lia. iFrame "H2". iPureIntro.
      rewrite length_drop. lia.
  - iIntros "[(%w1 & %H1 & Hw1) (%w2 & %H2 & Hw2)]". iExists (w1 ++ w2). rewrite words_app length_app -H1. iFrame.
    iPureIntro. lia.
Qed.

Lemma region_nil a : ⊢ region a 0.
Proof. iExists []. iSplit; [done|]. by rewrite /words big_sepL_nil. Qed.

(** The first word of a stretch. *)
Lemma region_cons a n : 0 <= n -> region a (8 + n) ⊣⊢ (∃ v, a ↦ v) ∗ region (a + 8) n.
Proof.
  intros Hn. iSplit.
  - iIntros "(%ws & %Hlen & H)". destruct ws as [|w ws]; [simpl in Hlen; lia|]. rewrite words_cons.
    iDestruct "H" as "[Hw H]". iSplitL "Hw"; [by iExists w|]. iExists ws. iFrame. iPureIntro. simpl in Hlen. lia.
  - iIntros "[[%v Hv] (%ws & %Hlen & H)]". iExists (v :: ws). rewrite words_cons. iFrame. iPureIntro. simpl. lia.
Qed.

Lemma region_word a n : 8 <= n -> region a n ⊣⊢ (∃ v, a ↦ v) ∗ region (a + 8) (n - 8).
Proof. intros Hn. replace n with (8 + (n - 8)) at 1 by lia. rewrite region_cons; [done|lia]. Qed.

(** ** Rings *)

Lemma last_cons_any {A} (x : A) l d : List.last (x :: l) d = List.last l x.
Proof. revert x d. induction l as [|y l IH]; intros x d; [done|]. change (List.last (y :: l) d = List.last (y :: l) x). by rewrite !IH. Qed.

Lemma last_snoc_any {A} (l : list A) x d : List.last (l ++ [x]) d = x.
Proof. revert d. induction l as [|y l IH]; intros d; [done|]. by rewrite -app_comm_cons last_cons_any. Qed.

Lemma last_app_ne {A} (l1 l2 : list A) d : List.last (l1 ++ l2) d = List.last l2 (List.last l1 d).
Proof. revert d. induction l1 as [|x l1 IH]; intros d; [done|]. by rewrite -app_comm_cons !last_cons_any IH. Qed.

Lemma last_elem {A} (l : list A) d : List.last l d ∈ d :: l.
Proof. revert d. induction l as [|x l IH]; intros d; [set_solver|]. rewrite last_cons_any. specialize (IH x). set_solver. Qed.

(** The links of the blocks in [l], the block before which is [p] and the block after which [n]. *)
Fixpoint dseg (p : Z) (l : list Z) (n : Z) : hprop :=
  match l with
  | [] => emp
  | x :: l' => prev_free_block x ↦ p ∗ next_free_block x ↦ List.hd n l' ∗ dseg x l' n
  end.

Lemma dseg_append p l1 l2 n : dseg p (l1 ++ l2) n ⊣⊢ dseg p l1 (List.hd n l2) ∗ dseg (List.last l1 p) l2 n.
Proof.
  revert p. induction l1 as [|x l1 IH]; intros p; [by rewrite /= left_id|].
  rewrite -app_comm_cons /dseg -/dseg last_cons_any IH. rewrite !assoc. do 4 f_equiv. by destruct l1.
Qed.

Arguments dseg : simpl never.

Lemma dseg_cons p x l n : dseg p (x :: l) n ⊣⊢ prev_free_block x ↦ p ∗ next_free_block x ↦ List.hd n l ∗ dseg x l n.
Proof. done. Qed.

Lemma dseg_nil p n : dseg p [] n ⊣⊢ emp.
Proof. done. Qed.

Definition ring (l : list Z) : hprop :=
  match l with
  | [] => emp
  | x :: l' => dseg (List.last l' x) l x
  end.

Arguments ring : simpl never.

Lemma ring_cons x l : ring (x :: l) ⊣⊢ prev_free_block x ↦ List.last l x ∗ next_free_block x ↦ List.hd x l ∗ dseg x l x.
Proof. done. Qed.

Lemma ring_rotate x l : ring (x :: l) ⊣⊢ ring (l ++ [x]).
Proof.
  destruct l as [|y l]; [done|]. rewrite ring_cons. change ((y :: l) ++ [x]) with (y :: (l ++ [x])). unfold ring.
  rewrite last_snoc_any (app_comm_cons l [x] y) dseg_append last_cons_any. simpl List.hd. rewrite /dseg -/dseg. rewrite right_id.
  iSplit; iIntros "H"; iDestruct "H" as "(A & B & C)"; iFrame; iDestruct "C" as "[C D]"; iFrame.
Qed.

Lemma ring_app l1 l2 : ring (l1 ++ l2) ⊣⊢ ring (l2 ++ l1).
Proof.
  revert l2. induction l1 as [|x l1 IH]; intros l2; [by rewrite app_nil_r|].
  rewrite -app_comm_cons ring_rotate -app_assoc IH -app_assoc. done.
Qed.

(** The outer links of a segment. *)
Lemma dseg_ends p l n : l <> [] -> dseg p l n -∗
  prev_free_block (List.hd 0 l) ↦ p ∗ next_free_block (List.last l 0) ↦ n ∗
  (∀ p' n', prev_free_block (List.hd 0 l) ↦ p' -∗ next_free_block (List.last l 0) ↦ n' -∗ dseg p' l n').
Proof.
  intros Hne. destruct l as [|x l]; [done|]. rewrite last_cons_any. simpl List.hd. clear Hne.
  iIntros "(Hp & Hl)". iFrame "Hp". iAssert (next_free_block (List.last l x) ↦ n ∗
    (∀ n', next_free_block (List.last l x) ↦ n' -∗ next_free_block x ↦ List.hd n' l ∗ dseg x l n'))%I with "[Hl]" as "[Hn Hback]".
  - iInduction l as [|y l] "IH" forall (x); [iDestruct "Hl" as "[Hn _]"; iFrame; iIntros (n') "Hn"; by iFrame|].
    iDestruct "Hl" as "(Hx & Hy & Hl)". rewrite last_cons_any. iDestruct ("IH" with "Hl") as "[$ Hback]".
    iIntros (n') "Hn". iDestruct ("Hback" with "Hn") as "Hl". iFrame.
  - iFrame "Hn". iIntros (p' n') "Hp Hn". iDestruct ("Hback" with "Hn") as "[Hx Hl]". iFrame.
Qed.

Lemma last_hd_ne {A} (l : list A) d d' : l <> [] -> List.last l d = List.last l d' /\ List.hd d l = List.hd d' l.
Proof. destruct l as [|x l]; [done|]. by rewrite !last_cons_any. Qed.

(** Reading the links of a member. *)
Lemma ring_links x l : ring (x :: l) -∗
  prev_free_block x ↦ List.last l x ∗ next_free_block x ↦ List.hd x l ∗
  (prev_free_block x ↦ List.last l x -∗ next_free_block x ↦ List.hd x l -∗ ring (x :: l)).
Proof. rewrite ring_cons. iIntros "($ & $ & $)". iIntros "$ $". Qed.

(** Taking the first member out. *)
Lemma hwp_unlink x l Q : l <> [] ->
  ring (x :: l) -∗ (prev_free_block x ↦ List.last l x -∗ next_free_block x ↦ List.hd x l -∗ ring l -∗ Q tt) -∗
  hwp (unlink (List.last l x) (List.hd x l)) Q.
Proof.
  iIntros (Hne) "Hr HQ". iDestruct (ring_cons with "Hr") as "(Hxp & Hxn & Hl)". destruct (last_hd_ne l x 0 Hne) as [-> ->].
  iDestruct (dseg_ends with "Hl") as "(Hp & Hn & Hl)"; [done|]. unfold unlink. hstore "Hn". iApply (hwp_store with "Hp"). iIntros "Hp".
  iApply ("HQ" with "Hxp Hxn"). destruct l as [|y l]; [done|]. unfold ring.
  iSpecialize ("Hl" with "Hp Hn"). by rewrite last_cons_any.
Qed.

(** The two links that change when a block is put behind a member. *)
Lemma ring_insert p l : ring (p :: l) -∗
  next_free_block p ↦ List.hd p l ∗ prev_free_block (List.hd p l) ↦ p ∗
  (∀ x, next_free_block p ↦ x -∗ prev_free_block (List.hd p l) ↦ x -∗
        prev_free_block x ↦ p -∗ next_free_block x ↦ List.hd p l -∗ ring (p :: x :: l)).
Proof.
  iIntros "Hr". iDestruct (ring_cons with "Hr") as "(Hpp & Hpn & Hl)". destruct l as [|y l]; cbn [List.hd].
  - cbn [List.last]. iFrame "Hpn Hpp". iIntros (x) "Hpn Hpp Hxp Hxn". rewrite ring_cons dseg_cons. cbn [List.hd List.last]. iFrame.
  - iDestruct (dseg_ends p (y :: l) p with "Hl") as "(Hy & Hz & Hl)"; [done|]. cbn [List.hd]. iFrame "Hpn Hy". rewrite last_cons_any.
    iIntros (x) "Hpn Hy Hxp Hxn". rewrite ring_cons dseg_cons !last_cons_any. cbn [List.hd]. iFrame "Hpp Hpn Hxp Hxn".
    iApply ("Hl" with "Hy Hz").
Qed.

Lemma hwp_link x p l u v Q :
  prev_free_block x ↦ u -∗ next_free_block x ↦ v -∗ ring (p :: l) -∗ (ring (p :: x :: l) -∗ Q tt) -∗
  hwp (link_between x p (List.hd p l)) Q.
Proof.
  iIntros "Hxp Hxn Hr HQ". iDestruct (ring_insert with "Hr") as "(Hpn & Hy & Hr)". unfold link_between.
  hstore "Hxp". hstore "Hxn". hstore "Hy". iApply (hwp_store with "Hpn"). iIntros "Hpn".
  iApply "HQ". iApply ("Hr" with "Hpn Hy Hxp Hxn").
Qed.

(** A member anywhere in the ring can be made the first. *)
Lemma ring_focus l1 x l2 : ring (l1 ++ x :: l2) ⊣⊢ ring (x :: l2 ++ l1).
Proof. by rewrite ring_app -app_comm_cons. Qed.

Lemma ring_snoc x l : ring (l ++ [x]) ⊣⊢ ring (x :: l).
Proof. by rewrite -ring_rotate. Qed.

(** A block is in a ring once. *)
Lemma dseg_notin x v p l n : prev_free_block x ↦ v -∗ dseg p l n -∗ ⌜x ∉ l⌝.
Proof.
  iIntros "Hx Hl". iInduction l as [|y l] "IH" forall (p); [iPureIntro; apply not_elem_of_nil|].
  rewrite dseg_cons. iDestruct "Hl" as "(Hy & _ & Hl)". iDestruct (pointsto_ne with "Hx Hy") as %Hne.
  iDestruct ("IH" with "Hx Hl") as %Hl. iPureIntro. apply not_elem_of_cons. split; [by intros ->|done].
Qed.

Lemma ring_notin x l : ring (x :: l) -∗ ⌜x ∉ l⌝.
Proof. rewrite ring_cons. iIntros "(Hx & _ & Hl)". iApply (dseg_notin with "Hx Hl"). Qed.

#[global] Typeclasses Opaque dseg ring words region.
