(* ===== verification/ZendAllocTree.v ===== *)
(** * ZendAllocTree: the search trees of large free blocks

    The blocks whose size has the highest bit [i] are in a digital tree at
    [large_free_buckets[i]]: the sizes below a node share their bits with the path to it, and
    the blocks of the size of a node are in a ring with it. *)
From S2P Require Import Prelude Memory HeapProp ZendAlloc ZendAllocRing.
From iris.proofmode Require Import proofmode.
From stdpp Require Import list gmap.
Local Open Scope Z_scope.

(** ** Sizes of blocks *)

(** The header words of the free blocks, with their sizes. *)
Definition sizes (H : gmap Z Z) : hprop := [∗ map] b ↦ n ∈ H, b_size b ↦ n.

Lemma hwp_free_size {B} H b n (f : Z -> hcmd B) Q : H !! b = Some n ->
  sizes H -∗ (sizes H -∗ hwp (f n) Q) -∗ hwp (ZEND_MM_FREE_BLOCK_SIZE b ≫= f) Q.
Proof.
  iIntros (Hb) "HH HQ". iDestruct (big_sepM_lookup_acc with "HH") as "[Hb HH]"; [done|]. hload "Hb".
  iApply "HQ". by iApply "HH".
Qed.

(** ** Trees *)

Inductive tree :=
  | Nil
  | Node (b : Z) (sibs : list Z) (n : Z) (l r : tree).

Definition root (t : tree) : Z := match t with Nil => NULL | Node b _ _ _ _ => b end.

Definition is_nil (t : tree) : bool := match t with Nil => true | _ => false end.

Fixpoint telems (t : tree) : list Z :=
  match t with
  | Nil => []
  | Node b sibs _ l r => b :: sibs ++ telems l ++ telems r
  end.

(** The memory of a tree that [pp] points to. *)
Fixpoint ttree (pp : Z) (t : tree) : hprop :=
  match t with
  | Nil => pp ↦ NULL
  | Node b sibs n l r =>
      pp ↦ b ∗ parent b ↦ pp ∗ ring (b :: sibs) ∗ region (b + 56) (n - 56) ∗
      ([∗ list] x ∈ sibs, parent x ↦ NULL ∗ region (x + 40) (n - 40)) ∗
      ttree (child b 0) l ∗ ttree (child b 1) r
  end.

(** The sizes in the tree lie between [lo] and [lo + 2 ^ k], those of the left subtree in the
    lower half. *)
Fixpoint tree_ok (H : gmap Z Z) (lo k : Z) (t : tree) : Prop :=
  match t with
  | Nil => True
  | Node b sibs n l r =>
      lo <= n < lo + 2 ^ k /\ Forall (fun x => 0 < x /\ H !! x = Some n) (b :: sibs) /\
      tree_ok H lo (k - 1) l /\ tree_ok H (lo + 2 ^ (k - 1)) (k - 1) r
  end.

Arguments ttree : simpl never.

Lemma ttree_nil pp : ttree pp Nil ⊣⊢ pp ↦ NULL.
Proof. done. Qed.

Lemma ttree_node pp b sibs n l r : ttree pp (Node b sibs n l r) ⊣⊢
  pp ↦ b ∗ parent b ↦ pp ∗ ring (b :: sibs) ∗ region (b + 56) (n - 56) ∗
  ([∗ list] x ∈ sibs, parent x ↦ NULL ∗ region (x + 40) (n - 40)) ∗ ttree (child b 0) l ∗ ttree (child b 1) r.
Proof. done. Qed.

#[global] Typeclasses Opaque ttree sizes.

(** The pointer to a tree is a cell. *)
Lemma ttree_root pp t : ttree pp t -∗ pp ↦ root t ∗ (pp ↦ root t -∗ ttree pp t).
Proof.
  destruct t as [|b sibs n l r]; [rewrite ttree_nil; iIntros "$"; by iIntros "$"|].
  rewrite ttree_node. iIntros "[$ Ht]". iIntros "Hp". iFrame.
Qed.

Lemma root_null H lo k t : tree_ok H lo k t -> (root t =? NULL) = is_nil t.
Proof.
  destruct t as [|b sibs n l r]; [done|]. intros (_ & Hf & _). apply Forall_cons in Hf as [[Hb _] _].
  apply Z.eqb_neq. unfold NULL. simpl. lia.
Qed.

Lemma tree_node_k H lo k b sibs n l r : tree_ok H lo k (Node b sibs n l r) -> 0 <= k.
Proof. intros (Hn & _). destruct (decide (0 <= k)) as [|Hk]; [done|]. rewrite Z.pow_neg_r in Hn; lia. Qed.

(** ** The bits of a size *)

Lemma path_bit lo k n : 1 <= k <= 63 -> lo mod 2 ^ k = 0 -> 0 <= lo <= n -> n < lo + 2 ^ k ->
  Z.land (Z.shiftr (u64 (Z.shiftl n (64 - k))) 63) 1 = if n <? lo + 2 ^ (k - 1) then 0 else 1.
Proof.
  intros Hk Hlo Hn Hn'. assert (Z.testbit n (k - 1) = negb (n <? lo + 2 ^ (k - 1))) as Hbit.
  { apply Z.mod_divide in Hlo as [q Hq]; [|lia]. assert (2 ^ k = 2 * 2 ^ (k - 1)) as E.
    { rewrite -Z.pow_succ_r; [|lia]. f_equal. lia. }
    assert (0 < 2 ^ (k - 1)) by (apply Z.pow_pos_nonneg; lia).
    destruct (Z.ltb_spec n (lo + 2 ^ (k - 1))) as [Hlt|Hge]; simpl.
    - apply Z.testbit_false; [lia|]. replace (n / 2 ^ (k - 1)) with (q * 2); [by apply Z.mod_mul|].
      apply Z.div_unique with (n - lo); [|nia]. left. lia.
    - apply Z.testbit_true; [lia|]. replace (n / 2 ^ (k - 1)) with (1 + q * 2); [rewrite Z.mod_add; [done|lia]|].
      apply Z.div_unique with (n - lo - 2 ^ (k - 1)); [|nia]. left. lia. }
  apply Z.bits_inj'. intros i Hi. rewrite Z.land_spec Z.shiftr_spec; [|lia]. unfold wrap_u.
  destruct (decide (i = 0)) as [->|Hi0].
  - rewrite Z.mod_pow2_bits_low; [|lia]. rewrite Z.shiftl_spec; [|lia]. replace (0 + 63 - (64 - k)) with (k - 1) by lia.
    rewrite Hbit. by destruct (n <? lo + 2 ^ (k - 1)).
  - replace (Z.testbit 1 i) with false; [|symmetry; apply Z.bits_above_log2; simpl; lia]. rewrite andb_false_r.
    destruct (n <? lo + 2 ^ (k - 1)); [by rewrite Z.bits_0|symmetry; apply Z.bits_above_log2; simpl; lia].
Qed.

Lemma path_shift k n : k <= 63 -> u64 (Z.shiftl (u64 (Z.shiftl n (64 - k))) 1) = u64 (Z.shiftl n (64 - (k - 1))).
Proof.
  intros Hk. unfold wrap_u. rewrite !Z.shiftl_mul_pow2; [|lia..]. rewrite Z.mul_mod_idemp_l; [|done]. f_equal.
  replace (64 - (k - 1)) with (64 - k + 1) by lia. rewrite Z.pow_add_r; lia.
Qed.

(** ** Insertion *)

Fixpoint tinsert (b n lo k : Z) (t : tree) : tree :=
  match t with
  | Nil => Node b [] n Nil Nil
  | Node x sibs s l r =>
      if s =? n then Node x (b :: sibs) s l r
      else if n <? lo + 2 ^ (k - 1) then Node x sibs s (tinsert b n lo (k - 1) l) r
      else Node x sibs s l (tinsert b n (lo + 2 ^ (k - 1)) (k - 1) r)
  end.

Lemma tinsert_elems b n lo k t : telems (tinsert b n lo k t) ≡ₚ b :: telems t.
Proof.
  revert lo k. induction t as [|x sibs s l IHl r IHr]; intros lo k; [done|]. simpl.
  destruct (s =? n); [simpl; by rewrite Permutation_swap|].
  destruct (n <? lo + 2 ^ (k - 1)); simpl; rewrite ?IHl ?IHr; solve_Permutation.
Qed.

Lemma tinsert_ok H b n lo k t :
  tree_ok H lo k t -> 0 <= k -> lo <= n < lo + 2 ^ k -> H !! b = Some n -> 0 < b -> tree_ok H lo k (tinsert b n lo k t).
Proof.
  revert lo k. induction t as [|x sibs s l IHl r IHr]; intros lo k Hok Hk Hn Hb Hb0; [split_and!; [lia|lia|by apply Forall_singleton|done|done]|].
  destruct Hok as (Hs & Hf & Hl & Hr). simpl. destruct (Z.eqb_spec s n) as [->|Hne].
  { split_and!; try done; try lia. apply Forall_cons in Hf as [Hx Hf]. by rewrite !Forall_cons. }
  assert (1 <= k) as Hk1. { destruct (decide (k = 0)) as [->|]; [simpl in *; lia|lia]. }
  assert (2 ^ k = 2 * 2 ^ (k - 1)) as E. { rewrite -Z.pow_succ_r; [|lia]. f_equal. lia. }
  destruct (Z.ltb_spec n (lo + 2 ^ (k - 1))); simpl; split_and!; try done; try lia.
  - apply IHl; try done; lia.
  - apply IHr; try done; lia.
Qed.

(** The memory of a block that is to go into a tree. *)
Definition fresh_node (b n : Z) : hprop :=
  (∃ v, prev_free_block b ↦ v) ∗ (∃ v, next_free_block b ↦ v) ∗ (∃ v, parent b ↦ v) ∗
  child b 0 ↦ NULL ∗ child b 1 ↦ NULL ∗ region (b + 56) (n - 56).

Lemma hwp_new_tree_node b n pp v Q :
  fresh_node b n -∗ pp ↦ v -∗ (ttree pp (Node b [] n Nil Nil) -∗ Q tt) -∗ hwp (new_tree_node b pp) Q.
Proof.
  iIntros "([%u1 Hp] & [%u2 Hn] & [%u3 Ha] & H0 & H1 & Hreg) Hpp HQ". unfold new_tree_node.
  hstore "Hpp". hstore "Ha". hstore "Hn". iApply (hwp_store with "Hp"). iIntros "Hp". iApply "HQ".
  rewrite ttree_node !ttree_nil big_sepL_nil ring_cons dseg_nil. cbn [List.hd List.last]. iFrame.
Qed.

Lemma fresh_sib b n : 56 <= n -> fresh_node b n -∗
  (∃ v, prev_free_block b ↦ v) ∗ (∃ v, next_free_block b ↦ v) ∗ (∃ v, parent b ↦ v) ∗ region (b + 40) (n - 40).
Proof.
  iIntros (Hn) "($ & $ & $ & H0 & H1 & Hreg)". rewrite (region_word (b + 40)); [|lia]. rewrite (region_word (b + 40 + 8)); [|lia].
  replace (b + 40 + 8 + 8) with (b + 56) by lia. replace (n - 40 - 8 - 8) with (n - 56) by lia. iFrame "Hreg".
  iSplitL "H0"; iExists NULL; [by replace (b + 40) with (child b 0) by (unfold child; lia)|].
  by replace (b + 40 + 8) with (child b 1) by (unfold child; lia).
Qed.

Lemma hwp_add_loop fuel H t pp b n lo k Q :
  t <> Nil -> tree_ok H lo k t -> 0 <= lo -> lo mod 2 ^ k = 0 -> lo <= n < lo + 2 ^ k -> 56 <= n -> k <= 63 ->
  (Z.to_nat k < fuel)%nat ->
  sizes H -∗ ttree pp t -∗ fresh_node b n -∗
  (sizes H -∗ ttree pp (tinsert b n lo k t) -∗ Q tt) -∗
  hwp (add_loop fuel b n pp (u64 (Z.shiftl n (64 - k)))) Q.
Proof.
  iIntros (Hne Hok Hlo Hmod Hn Hn56 Hk Hfuel) "HH Ht Hb HQ".
  iInduction fuel as [|fuel] "IH" forall (t pp lo k Hne Hok Hlo Hmod Hn Hk Hfuel); [lia|].
  destruct t as [|x sibs s l r]; [done|]. clear Hne. pose proof (tree_node_k _ _ _ _ _ _ _ _ Hok) as Hk0.
  rewrite ttree_node. iDestruct "Ht" as "(Hpp & Hpa & Hring & Hreg & Hsibs & Hl & Hr)". cbn [add_loop].
  hload "Hpp". destruct (Hok) as (Hs & Hf & Hokl & Hokr). apply Forall_cons in Hf as [[Hx0 Hx] Hf].
  iApply (hwp_free_size with "HH"); [done|]. iIntros "HH". cbn [tinsert]. destruct (Z.eqb_spec s n) as [->|Hsn]; cbn [negb].
  - iDestruct (ring_insert with "Hring") as "(Hxn & Hy & Hring)". hload "Hxn". iDestruct (fresh_sib with "Hb") as "([%u1 Hbp] & [%u2 Hbn] & [%u3 Hba] & Hbr)"; [done|].
    hstore "Hy". hstore "Hxn". hstore "Hbn". hstore "Hbp". iApply (hwp_store with "Hba"). iIntros "Hba".
    iApply ("HQ" with "HH"). rewrite ttree_node big_sepL_cons. iFrame. iApply ("Hring" with "Hxn Hy Hbp Hbn").
  - assert (1 <= k) as Hk1. { destruct (decide (k = 0)) as [->|]; [simpl in *; lia|lia]. }
    assert (2 ^ k = 2 * 2 ^ (k - 1)) as E. { rewrite -Z.pow_succ_r; [|lia]. f_equal. lia. }
    assert (lo mod 2 ^ (k - 1) = 0 /\ (lo + 2 ^ (k - 1)) mod 2 ^ (k - 1) = 0) as [Hm1 Hm2].
    { apply Z.mod_divide in Hmod as [q Hq]; [|lia]. split; apply Z.mod_divide; try lia; [exists (q * 2)|exists (q * 2 + 1)]; lia. }
    rewrite (path_bit lo); try lia. destruct (Z.ltb_spec n (lo + 2 ^ (k - 1))) as [Hlt|Hge].
    + iDestruct (ttree_root with "Hl") as "[Hc Hl]". hload "Hc". rewrite (root_null _ _ _ _ Hokl).
      iSpecialize ("Hl" with "Hc"). destruct (is_nil l) eqn:El.
      * destruct l; [|done]. rewrite ttree_nil. iApply (hwp_new_tree_node with "Hb Hl"). iIntros "Hl".
        iApply ("HQ" with "HH"). rewrite (ttree_node pp). cbn [tinsert]. iFrame.
      * rewrite path_shift; [|done]. iApply ("IH" $! l with "[] [] [] [] [] [] [] HH Hl Hb"); try (iPureIntro; done || lia).
        { iPureIntro. by intros ->. }
        iIntros "HH Hl". iApply ("HQ" with "HH"). rewrite (ttree_node pp). iFrame.
    + iDestruct (ttree_root with "Hr") as "[Hc Hr]". hload "Hc". rewrite (root_null _ _ _ _ Hokr).
      iSpecialize ("Hr" with "Hc"). destruct (is_nil r) eqn:Er.
      * destruct r; [|done]. rewrite ttree_nil. iApply (hwp_new_tree_node with "Hb Hr"). iIntros "Hr".
        iApply ("HQ" with "HH"). rewrite (ttree_node pp). cbn [tinsert]. iFrame.
      * rewrite path_shift; [|done]. iApply ("IH" $! r with "[] [] [] [] [] [] [] HH Hr Hb"); try (iPureIntro; done || lia).
        { iPureIntro. by intros ->. }
        iIntros "HH Hr". iApply ("HQ" with "HH"). rewrite (ttree_node pp). iFrame.
Qed.

(** ** Places in a tree *)

(** A tree with a hole, from the root on. *)
Inductive ctx :=
  | Here
  | InL (b : Z) (sibs : list Z) (n : Z) (c : ctx) (r : tree)
  | InR (b : Z) (sibs : list Z) (n : Z) (l : tree) (c : ctx).

Fixpoint plug (c : ctx) (t : tree) : tree :=
  match c with
  | Here => t
  | InL b sibs n c r => Node b sibs n (plug c t) r
  | InR b sibs n l c => Node b sibs n l (plug c t)
  end.

Lemma plug_elems c t t' x : telems t ≡ₚ x :: telems t' -> telems (plug c t) ≡ₚ x :: telems (plug c t').
Proof. intros Ht. induction c as [|b sibs n c IH r|b sibs n l c IH]; simpl; [done|rewrite IH..]; solve_Permutation. Qed.

Lemma find_elem t x : x ∈ telems t -> exists c b sibs n l r, t = plug c (Node b sibs n l r) /\ x ∈ b :: sibs.
Proof.
  induction t as [|b sibs n l IHl r IHr]; simpl; [by intros ?%elem_of_nil|].
  rewrite app_comm_cons !elem_of_app. intros [Hx|[Hx|Hx]].
  - by exists Here, b, sibs, n, l, r.
  - destruct (IHl Hx) as (c & b' & s' & n' & l' & r' & -> & Hx'). by exists (InL b sibs n c r), b', s', n', l', r'.
  - destruct (IHr Hx) as (c & b' & s' & n' & l' & r' & -> & Hx'). by exists (InR b sibs n l c), b', s', n', l', r'.
Qed.

Lemma plug_ok H lo k c t : tree_ok H lo k (plug c t) ->
  exists lo' k', k' <= k /\ tree_ok H lo' k' t /\ forall t', tree_ok H lo' k' t' -> tree_ok H lo k (plug c t').
Proof.
  revert lo k. induction c as [|b sibs n c IH r|b sibs n l c IH]; intros lo k; simpl.
  - intros Ht. exists lo, k. by split_and!.
  - intros (Hn & Hf & Hl & Hr). destruct (IH _ _ Hl) as (lo' & k' & Hk & Ht & Hback). exists lo', k'. split_and!; [lia|done|].
    intros t' Ht'. split_and!; [lia..|done|auto|done].
  - intros (Hn & Hf & Hl & Hr). destruct (IH _ _ Hr) as (lo' & k' & Hk & Ht & Hback). exists lo', k'. split_and!; [lia|done|].
    intros t' Ht'. split_and!; [lia..|done|done|auto].
Qed.

(** The memory of the subtree in the hole; only at the top its pointer is that of the tree. *)
Lemma ttree_focus H lo k c pp t : tree_ok H lo k (plug c t) -> 1 < pp -> ttree pp (plug c t) -∗
  ∃ pp', ⌜1 < pp' /\ (c = Here /\ pp' = pp \/ c <> Here /\ pp' <> pp)⌝ ∗ ttree pp' t ∗
    (∀ t', ttree pp' t' -∗ ttree pp (plug c t')).
Proof.
  iIntros (Hok Hpp) "Ht". iInduction c as [|b sibs n c IH r|b sibs n l c IH] "IH" forall (lo k pp Hok Hpp); cbn [plug].
  { iExists pp. iFrame "Ht". iSplit; [iPureIntro; split; [done|by left]|]. iIntros (t') "$". }
  all: cbn [plug] in Hok; destruct Hok as (_ & Hf & Hokl & Hokr); apply Forall_cons in Hf as [[Hb _] _].
  all: rewrite ttree_node; iDestruct "Ht" as "(Hpp & Hpa & Hring & Hreg & Hsibs & Hl & Hr)".
  - iDestruct ("IH" with "[] [] Hl") as (pp') "([%Hpp' _] & Ht & Hback)"; [iPureIntro; done|iPureIntro; unfold child; lia|]. iExists pp'.
    iDestruct (ttree_root with "Ht") as "[Hc Ht]". iDestruct (pointsto_ne with "Hpp Hc") as %Hne. iSpecialize ("Ht" with "Hc").
    iFrame "Ht". iSplit; [iPureIntro; split; [done|right; split; [done|congruence]]|].
    iIntros (t') "Ht". iDestruct ("Hback" with "Ht") as "Ht". rewrite (ttree_node pp). iFrame.
  - iDestruct ("IH" with "[] [] Hr") as (pp') "([%Hpp' _] & Ht & Hback)"; [iPureIntro; done|iPureIntro; unfold child; lia|]. iExists pp'.
    iDestruct (ttree_root with "Ht") as "[Hc Ht]". iDestruct (pointsto_ne with "Hpp Hc") as %Hne. iSpecialize ("Ht" with "Hc").
    iFrame "Ht". iSplit; [iPureIntro; split; [done|right; split; [done|congruence]]|].
    iIntros (t') "Ht". iDestruct ("Hback" with "Ht") as "Ht". rewrite (ttree_node pp). iFrame.
Qed.

(** ** Taking out a leaf *)

Fixpoint pull (t : tree) : option (Z * list Z * Z * tree) :=
  match t with
  | Nil => None
  | Node b sibs n l r =>
      match pull r with
      | Some (y, r') => Some (y, Node b sibs n l r')
      | None =>
          match pull l with
          | Some (y, l') => Some (y, Node b sibs n l' r)
          | None => Some (b, sibs, n, Nil)
          end
      end
  end.

Lemma pull_nil t : pull t = None <-> t = Nil.
Proof. destruct t as [|b sibs n l r]; [done|]. simpl. destruct (pull r) as [[? ?]|]; [done|]. by destruct (pull l) as [[? ?]|]. Qed.

Lemma pull_elems t y sibs n t' : pull t = Some (y, sibs, n, t') -> telems t ≡ₚ y :: sibs ++ telems t'.
Proof.
  revert t'. induction t as [|b sb m l IHl r IHr]; intros t'; simpl; [done|]. destruct (pull r) as [[[[yr sr] nr] r']|] eqn:Er.
  { intros [= <- <- <- <-]. simpl. rewrite (IHr r'); [|done]. solve_Permutation. }
  apply pull_nil in Er as ->. destruct (pull l) as [[[[yl sl] nl] l']|] eqn:El.
  { intros [= <- <- <- <-]. simpl. rewrite (IHl l'); [|done]. solve_Permutation. }
  apply pull_nil in El as ->. intros [= <- <- <- <-]. done.
Qed.

Lemma tree_ok_weaken H lo k lo' k' b sibs n : tree_ok H lo' k' (Node b sibs n Nil Nil) ->
  lo <= lo' -> lo' + 2 ^ k' <= lo + 2 ^ k -> tree_ok H lo k (Node b sibs n Nil Nil).
Proof. intros (Hn & Hf & _ & _) H1 H2. split_and!; try done; lia. Qed.

Lemma pull_ok H lo k t y sibs n t' : tree_ok H lo k t -> pull t = Some (y, sibs, n, t') ->
  tree_ok H lo k t' /\ tree_ok H lo k (Node y sibs n Nil Nil).
Proof.
  revert lo k t'. induction t as [|b sb m l IHl r IHr]; intros lo k t' Hok; simpl; [done|].
  pose proof (tree_node_k _ _ _ _ _ _ _ _ Hok) as Hk0. destruct Hok as (Hm & Hf & Hl & Hr).
  assert (k = 0 -> l = Nil /\ r = Nil) as Hzero.
  { intros ->. split; [destruct l|destruct r]; try done; exfalso; apply tree_node_k in Hl || apply tree_node_k in Hr; lia. }
  assert (1 <= k -> 2 ^ k = 2 * 2 ^ (k - 1) /\ 0 < 2 ^ (k - 1)) as E.
  { intros Hk. split; [rewrite -Z.pow_succ_r; [|lia]; f_equal; lia|apply Z.pow_pos_nonneg; lia]. }
  destruct (pull r) as [[[[yr sr] nr] r']|] eqn:Er.
  { intros [= <- <- <- <-]. destruct (IHr _ _ _ Hr eq_refl) as [H1 H2]. split; [done|].
    destruct (decide (k = 0)) as [->|]; [by destruct (Hzero eq_refl) as [_ ->]|]. destruct (E ltac:(lia)).
    eapply tree_ok_weaken; [exact H2|lia|lia]. }
  destruct (pull l) as [[[[yl sl] nl] l']|] eqn:El.
  { intros [= <- <- <- <-]. destruct (IHl _ _ _ Hl eq_refl) as [H1 H2]. split; [done|].
    destruct (decide (k = 0)) as [->|]; [by destruct (Hzero eq_refl) as [-> _]|]. destruct (E ltac:(lia)).
    eapply tree_ok_weaken; [exact H2|lia|lia]. }
  intros [= <- <- <- <-]. split; [done|]. exact (conj Hm (conj Hf (conj I I))).
Qed.

(** ** Removal *)

(** What is left of the memory of a node without its links to other nodes. *)
Definition body (b : Z) (sibs : list Z) (n : Z) : hprop :=
  ring (b :: sibs) ∗ region (b + 56) (n - 56) ∗ [∗ list] x ∈ sibs, parent x ↦ NULL ∗ region (x + 40) (n - 40).

Lemma ttree_body pp b sibs n l r : ttree pp (Node b sibs n l r) ⊣⊢
  pp ↦ b ∗ parent b ↦ pp ∗ body b sibs n ∗ ttree (child b 0) l ∗ ttree (child b 1) r.
Proof. rewrite ttree_node /body. by rewrite -!(bi.sep_assoc). Qed.

Lemma hwp_descend fuel H t rp lo k y sibs n t' Q :
  pull t = Some (y, sibs, n, t') -> tree_ok H lo k t -> (Z.to_nat k < fuel)%nat ->
  ttree rp t -∗
  (∀ rp', rp' ↦ y -∗ parent y ↦ rp' -∗ body y sibs n -∗ child y 0 ↦ NULL -∗ child y 1 ↦ NULL -∗
     (rp' ↦ NULL -∗ ttree rp t') -∗ Q (y, rp')) -∗
  hwp (descend fuel (root t) rp) Q.
Proof.
  iIntros (Hpull Hok Hfuel) "Ht HQ".
  iInduction fuel as [|fuel] "IH" forall (t rp lo k t' Hpull Hok Hfuel); [lia|].
  destruct t as [|b sb m l r]; [done|]. pose proof (tree_node_k _ _ _ _ _ _ _ _ Hok) as Hk0.
  destruct Hok as (Hm & Hf & Hokl & Hokr). fold tree_ok in Hokl, Hokr.
  rewrite ttree_body. iDestruct "Ht" as "(Hrp & Hpa & Hb & Hl & Hr)". cbn [descend root].
  assert (forall lo0 x, tree_ok H lo0 (k - 1) x -> x <> Nil -> 1 <= k) as Hk1.
  { intros lo0 x Hx Hne. destruct x; [done|]. apply tree_node_k in Hx. lia. }
  iDestruct (ttree_root with "Hr") as "[Hc Hr]". hload "Hc". rewrite (root_null _ _ _ _ Hokr). cbn [pull] in Hpull.
  destruct (pull r) as [[[[yr sr] nr] r']|] eqn:Er.
  - injection Hpull as -> -> -> <-. assert (r <> Nil) as Hr by (intros ->; done).
    assert (is_nil r = false) as En by (by destruct r). rewrite En. hload "Hc". rewrite (root_null _ _ _ _ Hokr) En.
    iSpecialize ("Hr" with "Hc"). specialize (Hk1 _ _ Hokr Hr).
    iApply ("IH" $! r with "[] [] [] Hr"); try (iPureIntro; done || lia).
    iIntros (rp') "Hrp' Hpa' Hbody H0 H1 Hback". iApply ("HQ" with "Hrp' Hpa' Hbody H0 H1"). iIntros "Hrp'".
    iDestruct ("Hback" with "Hrp'") as "Hr". rewrite (ttree_body rp). iFrame.
  - apply pull_nil in Er as ->. cbn [is_nil root]. iSpecialize ("Hr" with "Hc").
    iDestruct (ttree_root with "Hl") as "[Hc Hl]". hload "Hc". rewrite (root_null _ _ _ _ Hokl). iSpecialize ("Hl" with "Hc").
    destruct (pull l) as [[[[yl sl] nl] l']|] eqn:El.
    + injection Hpull as -> -> -> <-. assert (l <> Nil) as Hl by (intros ->; done).
      assert (is_nil l = false) as -> by (by destruct l). specialize (Hk1 _ _ Hokl Hl).
      iApply ("IH" $! l with "[] [] [] Hl"); try (iPureIntro; done || lia).
      iIntros (rp') "Hrp' Hpa' Hbody H0 H1 Hback". iApply ("HQ" with "Hrp' Hpa' Hbody H0 H1"). iIntros "Hrp'".
      iDestruct ("Hback" with "Hrp'") as "Hl". rewrite (ttree_body rp). iFrame.
    + apply pull_nil in El as ->. cbn [is_nil]. injection Hpull as <- <- <- <-. iApply hwp_ret.
      iApply ("HQ" with "Hrp Hpa Hb Hl Hr"). by iIntros "$".
Qed.

Lemma hwp_adopt H lo k b y i v c Q :
  tree_ok H lo k c -> ttree (child b i) c -∗ child y i ↦ v -∗
  ((∃ w, child b i ↦ w) -∗ ttree (child y i) c -∗ Q tt) -∗ hwp (adopt y b i) Q.
Proof.
  iIntros (Hok) "Hc Hy HQ". unfold adopt. iDestruct (ttree_root with "Hc") as "[Hr Hc]". hload "Hr". hstore "Hy".
  rewrite (root_null _ _ _ _ Hok). destruct c as [|x sibs n l r]; cbn [is_nil root].
  - iApply hwp_ret. iApply ("HQ" with "[Hr]"); [by iExists _|]. by rewrite ttree_nil.
  - iSpecialize ("Hc" with "Hr"). iDestruct (ttree_body with "Hc") as "(Hr & Hpa & Hb & Hl & Hr')".
    unfold ZEND_MM_CHECK_TREE. iApply hwp_bind. hload "Hpa". hload "Hr". rewrite Z.eqb_refl. iApply hwp_ret.
    iApply (hwp_store with "Hpa"). iIntros "Hpa". iApply ("HQ" with "[Hr]"); [by iExists _|]. iApply ttree_body. iFrame.
Qed.

(** [y] takes the place of [b]. *)
Lemma hwp_subst_block H lo k b y sibs n l r pp Q :
  tree_ok H lo k l -> tree_ok H (lo + 2 ^ k) k r ->
  pp ↦ b -∗ parent b ↦ pp -∗ ttree (child b 0) l -∗ ttree (child b 1) r -∗
  body y sibs n -∗ (∃ v, parent y ↦ v) -∗ (∃ v, child y 0 ↦ v) -∗ (∃ v, child y 1 ↦ v) -∗
  (ttree pp (Node y sibs n l r) -∗ (∃ v, parent b ↦ v) -∗ (∃ v, child b 0 ↦ v) -∗ (∃ v, child b 1 ↦ v) -∗ Q tt) -∗
  hwp (subst_block b y) Q.
Proof.
  iIntros (Hl Hr) "Hpp Hpa Hl Hr Hbody [%v1 Hypa] [%v2 Hy0] [%v3 Hy1] HQ". unfold subst_block.
  iApply hwp_bind. unfold ZEND_MM_CHECK_TREE. hload "Hpa". hload "Hpp". rewrite Z.eqb_refl. iApply hwp_ret.
  hload "Hpa". hstore "Hpp". hload "Hpa". hstore "Hypa".
  iApply hwp_bind. iApply (hwp_adopt with "Hl Hy0"); [done|]. iIntros "Hb0 Hl".
  iApply (hwp_adopt with "Hr Hy1"); [done|]. iIntros "Hb1 Hr".
  iApply ("HQ" with "[-Hpa Hb0 Hb1] [Hpa] Hb0 Hb1"); [|by iExists _]. iApply ttree_body. iFrame.
Qed.

(** The links and the rest of a block together are its whole memory. *)
Lemma node_region b n : 56 <= n ->
  region (b + 16) (n - 16) ⊣⊢ (∃ v, prev_free_block b ↦ v) ∗ (∃ v, next_free_block b ↦ v) ∗ (∃ v, parent b ↦ v) ∗
    (∃ v, child b 0 ↦ v) ∗ (∃ v, child b 1 ↦ v) ∗ region (b + 56) (n - 56).
Proof.
  intros Hn. unfold prev_free_block, next_free_block, parent, child.
  rewrite (region_word (b + 16)); [|lia]. rewrite (region_word (b + 16 + 8)); [|lia]. rewrite (region_word (b + 16 + 8 + 8)); [|lia].
  rewrite (region_word (b + 16 + 8 + 8 + 8)); [|lia]. rewrite (region_word (b + 16 + 8 + 8 + 8 + 8)); [|lia].
  replace (b + 16 + 8 + 8 + 8 + 8 + 8) with (b + 56) by lia. replace (n - 16 - 8 - 8 - 8 - 8 - 8) with (n - 56) by lia.
  replace (b + 16 + 8 + 8 + 8 + 8) with (b + 40 + 8 * 1) by lia. replace (b + 16 + 8 + 8 + 8) with (b + 40 + 8 * 0) by lia.
  replace (b + 16 + 8 + 8) with (b + 32) by lia. replace (b + 16 + 8) with (b + 24) by lia. done.
Qed.

Lemma sib_region b n : 56 <= n ->
  region (b + 40) (n - 40) ⊣⊢ (∃ v, child b 0 ↦ v) ∗ (∃ v, child b 1 ↦ v) ∗ region (b + 56) (n - 56).
Proof.
  intros Hn. unfold child. rewrite (region_word (b + 40)); [|lia]. rewrite (region_word (b + 40 + 8)); [|lia].
  replace (b + 40 + 8 + 8) with (b + 56) by lia. replace (n - 40 - 8 - 8) with (n - 56) by lia.
  replace (b + 40 + 8 * 0) with (b + 40) by lia. replace (b + 40 + 8 * 1) with (b + 40 + 8) by lia. done.
Qed.
