(* ===== verification/ZendAllocLarge.v ===== *)
(** * ZendAllocLarge: large free blocks come and go

    Adding a block to a search tree and removing one, wherever in the tree it is. *)
From S2P Require Import Prelude Memory HeapProp ZendAlloc ZendAllocBits ZendAllocRing ZendAllocTree.
From iris.proofmode Require Import proofmode.
From stdpp Require Import list gmap.
Local Open Scope Z_scope.

Section large.
Context (heap : Z) (Hheap : 0 <= heap).

(** The tree of the sizes from [2 ^ i] to [2 ^ (i + 1)]. *)
Definition bucket_tree (i : Z) (t : tree) : hprop := ttree (large_free_buckets heap i) t.

Lemma bucket_pointer i : 0 <= i -> 1 < large_free_buckets heap i.
Proof. unfold large_free_buckets. lia. Qed.

(** The bucket of a size. *)
Lemma tree_index H i t x n : 0 <= i <= 63 -> tree_ok H (2 ^ i) i t -> x ∈ telems t -> H !! x = Some n ->
  2 ^ i <= n < 2 ^ (i + 1) /\ zend_mm_high_bit n = i.
Proof.
  intros Hi Hok Hx Hn. destruct (find_elem t x Hx) as (c & b & sibs & m & l & r & -> & Hxb).
  assert (forall lo k, tree_ok H lo k (plug c (Node b sibs m l r)) -> 0 <= k -> lo <= m < lo + 2 ^ k /\ H !! x = Some m) as Hgen.
  { clear Hok Hx. induction c as [|b' s' n' c IH r'|b' s' n' l' c IH]; intros lo k Hok Hk; cbn [plug] in Hok.
    - destruct Hok as (Hm & Hf & _). split; [done|]. rewrite Forall_forall in Hf. by apply Hf.
    - destruct Hok as (Hm & Hf & Hl & _). assert (0 <= k - 1) as Hk1.
      { destruct c as [|? ? ? ? ?|? ? ? ? ?]; cbn [plug] in Hl; by eapply tree_node_k. }
      destruct (IH _ _ Hl Hk1) as [Hr1 Hr2]. split; [|done].
      assert (2 ^ k = 2 * 2 ^ (k - 1)) as E by (rewrite -Z.pow_succ_r; [|lia]; f_equal; lia). lia.
    - destruct Hok as (Hm & Hf & _ & Hr). assert (0 <= k - 1) as Hk1.
      { destruct c as [|? ? ? ? ?|? ? ? ? ?]; cbn [plug] in Hr; by eapply tree_node_k. }
      destruct (IH _ _ Hr Hk1) as [Hr1 Hr2]. split; [|done].
      assert (2 ^ k = 2 * 2 ^ (k - 1)) as E by (rewrite -Z.pow_succ_r; [|lia]; f_equal; lia). lia. }
  destruct (Hgen _ _ Hok ltac:(lia)) as [Hm Hxm]. assert (n = m) as -> by congruence.
  rewrite Z.pow_add_r; [|lia..]. split; [lia|]. assert (0 < 2 ^ i) by (apply Z.pow_pos_nonneg; lia).
  assert (2 ^ i <= 2 ^ 63) by (apply Z.pow_le_mono_r; lia).
  rewrite zend_mm_high_bit_log2; [|lia]. apply Z.log2_unique; [lia|]. rewrite Z.pow_succ_r; lia.
Qed.

Lemma plug_not_nil (c : ctx) (t : tree) : c <> Here -> is_nil (plug c t) = false.
Proof. by destruct c. Qed.

Lemma last_member_ne {A} (x : A) l : l <> [] -> x ∉ l -> List.last l x <> x.
Proof. intros Hl Hx E. destruct l as [|y l]; [done|]. pose proof (last_elem l y) as Hy. rewrite last_cons_any in E. by rewrite E in Hy. Qed.

(** What [zend_mm_remove_from_free_list] does with a block of size [n] between [prev] and [next]
    once they are linked to each other. *)
Definition unlinked (x prev next n : Z) : hcmd unit :=
  if ZEND_MM_SMALL_SIZE n then
    if prev =? next then
      let index := ZEND_MM_BUCKET_INDEX n in
      a ← load (free_buckets heap (index * 2));
      b ← load (free_buckets heap (index * 2 + 1));
      if a =? b then
        bitmap ← load (free_bitmap heap);
        storev (free_bitmap heap) (Z.ldiff bitmap (Z.shiftl 1 index))
      else mret tt
    else mret tt
  else
    p ← load (parent x);
    if p =? ZEND_MM_REST_BLOCK then
      n ← load (rest_count heap);
      storev (rest_count heap) (s32 (n - 1))
    else if negb (p =? NULL) then subst_block x prev
    else mret tt.

(** A block in a ring with others. *)
Lemma hwp_remove_linked H x l n Q : l <> [] -> H !! x = Some n ->
  sizes H -∗ ring (x :: l) -∗
  (sizes H -∗ (∃ v, prev_free_block x ↦ v) -∗ (∃ v, next_free_block x ↦ v) -∗ ring l -∗
     hwp (unlinked x (List.last l x) (List.hd x l) n) Q) -∗
  hwp (zend_mm_remove_from_free_list heap x) Q.
Proof.
  iIntros (Hl Hx) "HH Hr HQ". iDestruct (ring_notin with "Hr") as %Hnot. unfold zend_mm_remove_from_free_list.
  iDestruct (ring_links with "Hr") as "(Hp & Hn & Hr)". hload "Hp". hload "Hn". iSpecialize ("Hr" with "Hp Hn").
  rewrite (proj2 (Z.eqb_neq _ _)); [|by apply last_member_ne]. iEval (rewrite ring_cons) in "Hr". iDestruct "Hr" as "(Hp & Hn & Hl)".
  iDestruct (dseg_ends with "Hl") as "(Hf & Hb & Hl)"; [done|]. destruct (last_hd_ne l x 0 Hl) as [E1 E2]. rewrite -E1 -E2.
  hload "Hb". hload "Hf". rewrite !Z.eqb_refl. cbn [andb check]. iApply hwp_bind. iApply hwp_ret. iSpecialize ("Hl" with "Hf Hb").
  iApply hwp_bind. iApply (hwp_unlink with "[Hp Hn Hl]"); [done|rewrite ring_cons; iFrame|]. iIntros "Hp Hn Hl".
  iApply (hwp_free_size with "HH"); [done|]. iIntros "HH". iApply ("HQ" with "HH [Hp] [Hn] Hl"); by iExists _.
Qed.

Lemma unlinked_sibling x prev next n Q : 544 <= n ->
  parent x ↦ NULL -∗ (parent x ↦ NULL -∗ Q tt) -∗ hwp (unlinked x prev next n) Q.
Proof.
  iIntros (Hn) "Hpa HQ". unfold unlinked. rewrite (proj2 (not_small n)); [|done]. hload "Hpa". cbn. iApply hwp_ret. by iApply "HQ".
Qed.

Lemma unlinked_node x prev next n pp Q : 544 <= n -> 1 < pp ->
  parent x ↦ pp -∗ (parent x ↦ pp -∗ hwp (subst_block x prev) Q) -∗ hwp (unlinked x prev next n) Q.
Proof.
  iIntros (Hn Hpp) "Hpa HQ". unfold unlinked. rewrite (proj2 (not_small n)); [|done]. hload "Hpa".
  rewrite (proj2 (Z.eqb_neq _ _)); [|unfold ZEND_MM_REST_BLOCK; lia]. rewrite (proj2 (Z.eqb_neq pp NULL)); [|unfold NULL; lia].
  by iApply "HQ".
Qed.

(** A block that shares its size with the node. *)
Lemma hwp_remove_sibling H lo k b sibs n l r x pp Q :
  tree_ok H lo k (Node b sibs n l r) -> x ∈ sibs -> 544 <= n ->
  sizes H -∗ ttree pp (Node b sibs n l r) -∗
  (∀ sibs', ⌜sibs ≡ₚ x :: sibs'⌝ -∗ sizes H -∗ ttree pp (Node b sibs' n l r) -∗ region (x + 16) (n - 16) -∗ Q tt) -∗
  hwp (zend_mm_remove_from_free_list heap x) Q.
Proof.
  iIntros (Hok Hx Hn) "HH Ht HQ". rewrite ttree_node. iDestruct "Ht" as "(Hpp & Hpa & Hring & Hreg & Hsibs & Hl & Hr)".
  destruct Hok as (_ & Hf & _). pose proof (proj1 (Forall_forall _ _) Hf x ltac:(set_solver)) as [_ Hxn].
  apply list_elem_of_split in Hx as (s1 & s2 & ->).
  rewrite app_comm_cons ring_focus. iApply (hwp_remove_linked with "HH Hring"); [by destruct s2|done|].
  iIntros "HH [%v1 Hp] [%v2 Hn] Hring". rewrite big_sepL_app big_sepL_cons. iDestruct "Hsibs" as "(Hs1 & [Hxp Hxr] & Hs2)".
  iApply (unlinked_sibling with "Hxp"); [done|]. iIntros "Hxp". iApply ("HQ" $! (s1 ++ s2) with "[] HH [-Hp Hn Hxp Hxr]").
  - iPureIntro. solve_Permutation.
  - rewrite ttree_node big_sepL_app. iFrame. rewrite (ring_app s2 (b :: s1)). iFrame.
  - rewrite node_region; [|lia]. rewrite sib_region; [|lia]. iFrame.
Qed.

(** The node, when other blocks have its size: one of them takes its place. *)
Lemma hwp_remove_shared H lo k b sibs y n l r pp Q :
  tree_ok H lo k (Node b (sibs ++ [y]) n l r) -> 544 <= n -> 1 < pp ->
  sizes H -∗ ttree pp (Node b (sibs ++ [y]) n l r) -∗
  (sizes H -∗ ttree pp (Node y sibs n l r) -∗ region (b + 16) (n - 16) -∗ Q tt) -∗
  hwp (zend_mm_remove_from_free_list heap b) Q.
Proof.
  iIntros (Hok Hn Hpp) "HH Ht HQ". rewrite ttree_node. iDestruct "Ht" as "(Hpp & Hpa & Hring & Hreg & Hsibs & Hl & Hr)".
  destruct Hok as (_ & Hf & Hl & Hr). apply Forall_cons in Hf as [[_ Hb] _].
  iApply (hwp_remove_linked with "HH Hring"); [by destruct sibs|done|].
  iIntros "HH [%v1 Hp] [%v2 Hn] Hring". rewrite last_snoc_any big_sepL_snoc ring_snoc. iDestruct "Hsibs" as "(Hs & Hyp & Hyr)".
  rewrite (sib_region y); [|lia]. iDestruct "Hyr" as "(Hy0 & Hy1 & Hyr)".
  iApply (unlinked_node with "Hpa"); [done..|]. iIntros "Hpa".
  iApply (hwp_subst_block H lo (k - 1) b y sibs n with "Hpp Hpa Hl Hr [Hring Hyr Hs] [Hyp] Hy0 Hy1"); [done..| |by iExists _|].
  { unfold body. iFrame. }
  iIntros "Ht Hb Hb0 Hb1". iApply ("HQ" with "HH Ht"). rewrite node_region; [|lia]. iFrame.
Qed.

(** A node on its own, without children. *)
Lemma hwp_remove_leaf H lo k b n pp bm Q :
  tree_ok H lo k (Node b [] n Nil Nil) -> 544 <= n ->
  sizes H -∗ ttree pp (Node b [] n Nil Nil) -∗ large_free_bitmap heap ↦ bm -∗
  (sizes H -∗ ttree pp Nil -∗
    large_free_bitmap heap ↦ (if pp =? large_free_buckets heap (zend_mm_high_bit n)
                              then Z.ldiff bm (Z.shiftl 1 (zend_mm_high_bit n)) else bm) -∗
    region (b + 16) (n - 16) -∗ Q tt) -∗
  hwp (zend_mm_remove_from_free_list heap b) Q.
Proof.
  iIntros (Hok Hn) "HH Ht Hbm HQ". rewrite ttree_node !ttree_nil ring_cons dseg_nil. cbn [List.last List.hd].
  iDestruct "Ht" as "(Hpp & Hpa & (Hp & Hn & _) & Hreg & _ & H0 & H1)".
  destruct Hok as (_ & Hf & _). apply Forall_cons in Hf as [[_ Hb] _]. unfold zend_mm_remove_from_free_list.
  hload "Hp". hload "Hn". rewrite Z.eqb_refl. cbn [check]. iApply hwp_bind. iApply hwp_ret. hload "H1". cbn [Z.eqb NULL]. hload "H0".
  cbn [Z.eqb NULL]. iApply (hwp_free_size with "HH"); [done|]. iIntros "HH". iApply hwp_bind. unfold ZEND_MM_CHECK_TREE.
  hload "Hpa". hload "Hpp". rewrite Z.eqb_refl. iApply hwp_ret. hload "Hpa". hstore "Hpp". hload "Hpa".
  unfold ZEND_MM_LARGE_BUCKET_INDEX.
  iAssert (region (b + 16) (n - 16)) with "[Hp Hn Hpa H0 H1 Hreg]" as "Hreg". { rewrite node_region; [|lia]. iFrame. }
  destruct (pp =? large_free_buckets heap (zend_mm_high_bit n)).
  - hload "Hbm". iApply (hwp_store with "Hbm"). iIntros "Hbm". by iApply ("HQ" with "HH Hpp Hbm").
  - iApply hwp_ret. by iApply ("HQ" with "HH Hpp Hbm").
Qed.

(** What is left when a leaf is taken from below a node that is alone with its size. *)
Lemma pull_inner H lo k b n l r y sibs m l' r' :
  tree_ok H lo k (Node b [] n l r) -> pull (Node b [] n l r) = Some (y, sibs, m, Node b [] n l' r') ->
  (telems l ++ telems r ≡ₚ y :: sibs ++ telems l' ++ telems r') /\ tree_ok H lo k (Node y sibs m l' r').
Proof.
  intros Hok Hpull. destruct (pull_ok _ _ _ _ _ _ _ _ Hok Hpull) as [(_ & _ & Hl' & Hr') (Hm & Hf & _)].
  apply pull_elems in Hpull. cbn [telems] in Hpull. split; [|done].
  apply (Permutation_cons_inv (a := b)). rewrite Hpull. solve_Permutation.
Qed.

(** The leaf that takes the place of a node with children. *)
Lemma hwp_pull H lo k b n l r Q :
  tree_ok H lo k (Node b [] n l r) -> k <= 63 -> is_nil l && is_nil r = false ->
  ttree (child b 0) l -∗ ttree (child b 1) r -∗
  (∀ y sibs m l' r' rp, ⌜pull (Node b [] n l r) = Some (y, sibs, m, Node b [] n l' r')⌝ -∗
     rp ↦ y -∗ parent y ↦ rp -∗ body y sibs m -∗ child y 0 ↦ NULL -∗ child y 1 ↦ NULL -∗
     (rp ↦ NULL -∗ ttree (child b 0) l' ∗ ttree (child b 1) r') -∗ Q (y, rp)) -∗
  hwp (descend 64 (root (if is_nil r then l else r)) (child b (if is_nil r then 0 else 1))) Q.
Proof.
  iIntros (Hok Hk Hne) "Hl Hr HQ". pose proof (tree_node_k _ _ _ _ _ _ _ _ Hok) as Hk0. destruct Hok as (_ & _ & Hokl & Hokr).
  fold tree_ok in Hokl, Hokr. cbn [pull]. destruct (is_nil r) eqn:Er.
  - destruct r; [|done]. rewrite andb_true_r in Hne. destruct (pull l) as [[[[y sibs] m] l']|] eqn:El.
    2:{ apply pull_nil in El as ->. done. }
    iApply (hwp_descend with "Hl"); [done..|lia|]. iIntros (rp) "Hrp Hpa Hbody H0 H1 Hback".
    iApply ("HQ" $! y sibs m l' Nil rp with "[] Hrp Hpa Hbody H0 H1"); [done|]. iIntros "Hrp". iFrame "Hr". by iApply "Hback".
  - destruct (pull r) as [[[[y sibs] m] r']|] eqn:Er'.
    2:{ apply pull_nil in Er' as ->. done. }
    iApply (hwp_descend with "Hr"); [done..|lia|]. iIntros (rp) "Hrp Hpa Hbody H0 H1 Hback".
    iApply ("HQ" $! y sibs m l r' rp with "[] Hrp Hpa Hbody H0 H1"); [done|]. iIntros "Hrp". iFrame "Hl". by iApply "Hback".
Qed.

(** A node on its own with children: a leaf below takes its place. *)
Lemma hwp_remove_inner H lo k b n l r pp Q :
  tree_ok H lo k (Node b [] n l r) -> 544 <= n -> k <= 63 -> is_nil l && is_nil r = false ->
  sizes H -∗ ttree pp (Node b [] n l r) -∗
  (∀ y sibs m l' r', ⌜telems l ++ telems r ≡ₚ y :: sibs ++ telems l' ++ telems r'⌝ -∗
     ⌜tree_ok H lo k (Node y sibs m l' r')⌝ -∗ sizes H -∗ ttree pp (Node y sibs m l' r') -∗
     region (b + 16) (n - 16) -∗ Q tt) -∗
  hwp (zend_mm_remove_from_free_list heap b) Q.
Proof.
  iIntros (Hok Hn Hk Hne) "HH Ht HQ". pose proof (tree_node_k _ _ _ _ _ _ _ _ Hok) as Hk0.
  rewrite ttree_node ring_cons dseg_nil. cbn [List.last List.hd].
  iDestruct "Ht" as "(Hpp & Hpa & (Hp & Hn & _) & Hreg & _ & H0 & H1)".
  destruct (Hok) as (_ & _ & Hokl & Hokr). unfold zend_mm_remove_from_free_list.
  hload "Hp". hload "Hn". rewrite Z.eqb_refl. cbn [check]. iApply hwp_bind. iApply hwp_ret.
  iDestruct (ttree_root with "H1") as "[Hc H1]". hload "Hc". rewrite (root_null _ _ _ _ Hokr). iSpecialize ("H1" with "Hc").
  iAssert (child b (if is_nil r then 0 else 1) ↦ root (if is_nil r then l else r) ∗
    (child b (if is_nil r then 0 else 1) ↦ root (if is_nil r then l else r) -∗ ttree (child b 0) l ∗ ttree (child b 1) r))%I
    with "[H0 H1]" as "[Hrp Hlr]".
  { destruct (is_nil r).
    - iDestruct (ttree_root with "H0") as "[$ H0]". iIntros "Hrp". iFrame "H1". by iApply "H0".
    - iDestruct (ttree_root with "H1") as "[$ H1]". iIntros "Hrp". iFrame "H0". by iApply "H1". }
  hload "Hrp". iDestruct ("Hlr" with "Hrp") as "[H0 H1]".
  rewrite (proj2 (Z.eqb_neq _ _)).
  2:{ apply Z.eqb_neq. destruct (is_nil r) eqn:Er; [rewrite (root_null _ _ _ _ Hokl)|rewrite (root_null _ _ _ _ Hokr)]; [|done].
      by rewrite andb_true_r in Hne. }
  iApply hwp_bind. iApply (hwp_pull with "H0 H1"); [done..|]. iIntros (y sibs m l' r' rp Hpull) "Hrp Hpa' Hbody Hy0 Hy1 Hback".
  destruct (pull_inner _ _ _ _ _ _ _ _ _ _ _ _ Hok Hpull) as [Hel Hok']. destruct (Hok') as (_ & _ & Hl' & Hr').
  hstore "Hrp". iDestruct ("Hback" with "Hrp") as "[H0 H1]".
  iApply (hwp_subst_block H lo (k - 1) b y sibs m with "Hpp Hpa H0 H1 Hbody [Hpa'] [Hy0] [Hy1]"); [done..|by iExists _|by iExists _|by iExists _|].
  iIntros "Ht Hb Hb0 Hb1". iApply ("HQ" with "[//] [//] HH Ht"). rewrite node_region; [|lia]. iFrame.
Qed.

(** Removing any block of a tree. *)
Lemma hwp_remove_large H i t x n bm Q :
  0 <= i <= 63 -> tree_ok H (2 ^ i) i t -> x ∈ telems t -> H !! x = Some n -> 544 <= n ->
  sizes H -∗ bucket_tree i t -∗ large_free_bitmap heap ↦ bm -∗
  (∀ t', ⌜telems t ≡ₚ x :: telems t'⌝ -∗ ⌜tree_ok H (2 ^ i) i t'⌝ -∗ sizes H -∗ bucket_tree i t' -∗
     large_free_bitmap heap ↦ (if is_nil t' then Z.ldiff bm (Z.shiftl 1 i) else bm) -∗
     region (x + 16) (n - 16) -∗ Q tt) -∗
  hwp (zend_mm_remove_from_free_list heap x) Q.
Proof.
  iIntros (Hi Hok Hx Hxn Hn) "HH Ht Hbm HQ". destruct (tree_index _ _ _ _ _ Hi Hok Hx Hxn) as [_ Hidx].
  destruct (find_elem t x Hx) as (c & b & sibs & m & l & r & -> & Hxb). unfold bucket_tree.
  iDestruct (ttree_focus with "Ht") as (pp) "(%Hpp & Ht & Hback)"; [done|apply bucket_pointer; lia|].
  destruct Hpp as [Hpp Htop]. destruct (plug_ok _ _ _ _ _ Hok) as (lo & k & Hk & Hok' & Hput).
  assert (m = n) as ->. { destruct (Hok') as (_ & Hf & _). pose proof (proj1 (Forall_forall _ _) Hf x Hxb) as [_ E]. congruence. }
  iAssert (∀ t', ⌜telems (Node b sibs n l r) ≡ₚ x :: telems t'⌝ -∗ ⌜tree_ok H lo k t'⌝ -∗ sizes H -∗ ttree pp t' -∗
    large_free_bitmap heap ↦ (if is_nil t' && (pp =? large_free_buckets heap i) then Z.ldiff bm (Z.shiftl 1 i) else bm) -∗
    region (x + 16) (n - 16) -∗ Q tt)%I with "[Hback HQ]" as "HQ".
  { iIntros (t' Hel Ht') "HH Ht Hbm Hreg". iApply ("HQ" $! (plug c t') with "[] [] HH [Ht Hback] [Hbm] Hreg").
    - iPureIntro. by apply plug_elems.
    - iPureIntro. by apply Hput.
    - by iApply "Hback".
    - destruct Htop as [[-> ->]|[Hc Hne]]; [by rewrite Z.eqb_refl andb_true_r|].
      rewrite (proj2 (Z.eqb_neq _ _) Hne) andb_false_r. by rewrite plug_not_nil. }
  destruct (decide (x ∈ sibs)) as [Hs|Hs].
  { iApply (hwp_remove_sibling with "HH Ht"); [done..|]. iIntros (sibs' Hs') "HH Ht Hreg".
    iApply ("HQ" with "[] [] HH Ht Hbm Hreg"); iPureIntro.
    - simpl. rewrite Hs'. solve_Permutation.
    - destruct Hok' as (H1 & H2 & H3). split; [done|]. split; [|done]. by rewrite Hs' Permutation_swap Forall_cons in H2; destruct H2. }
  apply elem_of_cons in Hxb as [->|?]; [|done]. destruct sibs as [|y sibs _] using rev_ind.
  - destruct (is_nil l && is_nil r) eqn:Enil.
    + destruct l, r; try done. iApply (hwp_remove_leaf with "HH Ht Hbm"); [done..|]. iIntros "HH Ht Hbm Hreg". rewrite Hidx.
      by iApply ("HQ" $! Nil with "[] [] HH Ht Hbm Hreg").
    + iApply (hwp_remove_inner with "HH Ht"); [done..|lia|done|]. iIntros (y sibs m l' r' Hel Hok2) "HH Ht Hreg".
      iApply ("HQ" $! (Node y sibs m l' r') with "[] [] HH Ht Hbm Hreg"); iPureIntro; [|done]. simpl. by rewrite Hel.
  - iApply (hwp_remove_shared with "HH Ht"); [done..|]. iIntros "HH Ht Hreg".
    iApply ("HQ" $! (Node y sibs n l r) with "[] [] HH Ht Hbm Hreg"); iPureIntro.
    + simpl. solve_Permutation.
    + destruct Hok' as (H1 & H2 & H3). split; [done|]. split; [|done]. rewrite Forall_cons in H2. destruct H2 as [_ H2].
      rewrite Forall_app in H2. destruct H2 as [H2 H2']. apply Forall_cons in H2' as [H2' _]. by apply Forall_cons.
Qed.
End large.
