(* ===== verification/ZendAllocFree.v ===== *)
(** * ZendAllocFree: the free blocks of a heap

    The lists of small free blocks, the search trees of large ones, the rest blocks and the two
    bitmaps together hold a set of free blocks with their sizes; the operations on them add
    one, remove one or find one. *)
From S2P Require Import Prelude Memory HeapProp ZendAlloc ZendAllocBits ZendAllocRing ZendAllocTree ZendAllocLarge.
From iris.proofmode Require Import proofmode.
From stdpp Require Import list gmap.
Local Open Scope Z_scope.

(** ** Lists of lists *)

Lemma concat_add {A} (ls : list (list A)) i l l' x : ls !! i = Some l -> l' ≡ₚ x :: l ->
  concat (<[i := l']> ls) ≡ₚ x :: concat ls.
Proof.
  revert i. induction ls as [|l0 ls IH]; intros [|i] Hi Hl; simplify_eq/=; [by rewrite Hl|].
  rewrite IH; [|done..]. by rewrite Permutation_middle.
Qed.

Lemma concat_remove {A} (ls : list (list A)) i l l' x : ls !! i = Some l -> l ≡ₚ x :: l' ->
  concat ls ≡ₚ x :: concat (<[i := l']> ls).
Proof.
  intros Hi Hl. rewrite -{1}(list_insert_id ls i l); [|done]. rewrite -(list_insert_insert_eq ls i l l').
  apply (concat_add _ i l'); [|done]. apply list_lookup_insert_eq. by eapply lookup_lt_Some.
Qed.

Lemma elem_of_concat {A} (ls : list (list A)) x : x ∈ concat ls <-> exists i l, ls !! i = Some l /\ x ∈ l.
Proof.
  rewrite list_elem_of_In in_concat. setoid_rewrite <- list_elem_of_In. split.
  - intros (l & Hl & Hx). apply list_elem_of_lookup in Hl as [i Hi]. eauto.
  - intros (i & l & Hi & Hx). exists l. split; [by eapply list_elem_of_lookup_2|done].
Qed.

Lemma dom_add (H : gmap Z Z) b n : H !! b = None -> elements (dom (<[b := n]> H)) ≡ₚ b :: elements (dom H).
Proof. intros Hb. rewrite dom_insert_L. apply elements_union_singleton. by apply not_elem_of_dom. Qed.

Lemma dom_remove (H : gmap Z Z) b n : H !! b = Some n -> elements (dom H) ≡ₚ b :: elements (dom (delete b H)).
Proof. intros Hb. rewrite -(dom_add _ b n); [|apply lookup_delete_eq]. by rewrite insert_delete_id. Qed.

(** ** The headers of free blocks *)

Lemma sizes_none H b n : sizes H -∗ b_size b ↦ n -∗ ⌜H !! b = None⌝.
Proof.
  iIntros "HH Hb". destruct (H !! b) as [m|] eqn:E; [|done]. iDestruct (big_sepM_lookup with "HH") as "Hb'"; [done|].
  by iDestruct (pointsto_ne with "Hb Hb'") as %?.
Qed.

Lemma sizes_add H b n : sizes H -∗ b_size b ↦ n -∗ sizes (<[b := n]> H).
Proof. iIntros "HH Hb". iDestruct (sizes_none with "HH Hb") as %Hb. unfold sizes. rewrite big_sepM_insert; [|done]. iFrame. Qed.

Lemma sizes_remove H b n : H !! b = Some n -> sizes H -∗ sizes (delete b H) ∗ b_size b ↦ n.
Proof. iIntros (Hb) "HH". unfold sizes. rewrite big_sepM_delete; [|done]. iDestruct "HH" as "[$ $]". Qed.

Lemma tree_ok_weak H H' lo k t : tree_ok H lo k t -> (forall x, x ∈ telems t -> H' !! x = H !! x) -> tree_ok H' lo k t.
Proof.
  revert lo k. induction t as [|b sibs n l IHl r IHr]; intros lo k Hok Hx; [done|]. destruct Hok as (Hn & Hf & Hl & Hr).
  cbn [telems] in Hx. split; [done|]. split_and!; [|apply IHl; [done|]; intros; apply Hx|apply IHr; [done|]; intros; apply Hx].
  - apply Forall_forall. intros x Hxb. rewrite Forall_forall in Hf. destruct (Hf x Hxb) as [? <-]. split; [done|]. apply Hx.
    rewrite app_comm_cons elem_of_app. by left.
  - rewrite app_comm_cons !elem_of_app. auto.
  - rewrite app_comm_cons !elem_of_app. auto.
Qed.

(** ** The free blocks *)

Definition block_ok (b n : Z) : Prop := 0 < b /\ 32 <= n < 2 ^ 64 /\ n mod 8 = 0.

(** [sm]: the lists of small blocks; [lg]: the trees of large ones; [rest]: the rest blocks with
    their sizes.  A bit of [free_bitmap] may be clear though the list has a block in it. *)
Record free_ok (H : gmap Z Z) (sm : list (list Z)) (lg : list tree) (rest : list (Z * Z)) (bm lbm : Z) : Prop := {
  free_all : elements (dom H) ≡ₚ concat sm ++ concat (telems <$> lg) ++ rest.*1;
  free_blocks : map_Forall block_ok H;
  free_sm : forall i l x, sm !! i = Some l -> x ∈ l -> H !! x = Some (8 * Z.of_nat i + 32);
  free_lg : forall i t, lg !! i = Some t -> tree_ok H (2 ^ Z.of_nat i) (Z.of_nat i) t;
  free_lg_size : forall x n, x ∈ concat (telems <$> lg) -> H !! x = Some n -> 544 <= n;
  free_rest : forall x n, (x, n) ∈ rest -> H !! x = Some n;
  free_sm_len : length sm = 64%nat;
  free_lg_len : length lg = 64%nat;
  free_bm : 0 <= bm < 2 ^ 64;
  free_lbm : 0 <= lbm < 2 ^ 64;
  free_bm_bits : forall i, sm !! i = Some [] -> Z.testbit bm (Z.of_nat i) = false;
  free_lbm_bits : forall i t, lg !! i = Some t -> Z.testbit lbm (Z.of_nat i) = negb (is_nil t);
}.

Definition is_large (b : Z * Z) : bool := negb (ZEND_MM_SMALL_SIZE b.2).

(** ** Blocks come and go *)

Lemma free_mem H sm lg rest bm lbm x : free_ok H sm lg rest bm lbm ->
  is_Some (H !! x) <-> x ∈ concat sm \/ x ∈ concat (telems <$> lg) \/ x ∈ rest.*1.
Proof. intros Hok. rewrite -elem_of_dom -elem_of_elements (free_all _ _ _ _ _ _ Hok) !elem_of_app. done. Qed.

Lemma lookup_other (H : gmap Z Z) b n x m : H !! b = None -> H !! x = Some m -> <[b := n]> H !! x = Some m.
Proof. intros Hb Hx. rewrite lookup_insert_ne; [done|]. intros ->. congruence. Qed.

Lemma tree_ok_add H b n lo k t : H !! b = None -> tree_ok H lo k t -> tree_ok (<[b := n]> H) lo k t.
Proof.
  intros Hb. revert lo k. induction t as [|x sibs m l IHl r IHr]; intros lo k Hok; [done|]. destruct Hok as (Hm & Hf & Hl & Hr).
  split_and!; [lia|lia| |by apply IHl|by apply IHr]. eapply Forall_impl; [exact Hf|]. intros y [? Hy]. split; [done|]. by apply lookup_other.
Qed.

Section add.
Context (H : gmap Z Z) (sm : list (list Z)) (lg : list tree) (rest : list (Z * Z)) (bm lbm b n : Z).
Context (Hok : free_ok H sm lg rest bm lbm) (Hb : H !! b = None) (Hbn : block_ok b n).

Lemma free_ok_add_sm i l bm' : sm !! i = Some l -> n = 8 * Z.of_nat i + 32 -> 0 <= bm' < 2 ^ 64 ->
  (forall j : nat, j <> i -> Z.testbit bm' (Z.of_nat j) = Z.testbit bm (Z.of_nat j)) ->
  free_ok (<[b := n]> H) (<[i := b :: l]> sm) lg rest bm' lbm.
Proof.
  intros Hi Hn Hbm Hbits. destruct Hok as [Hall Hbl Hsm Hlg Hlgs Hr Hsml Hlgl Hb1 Hb2 Hb3 Hb4]. split; try done.
  - rewrite dom_add; [|done]. rewrite Hall. rewrite (concat_add sm i l _ b); [|done..]. done.
  - by apply map_Forall_insert_2.
  - intros j l' x Hj Hx. apply list_lookup_insert_Some in Hj as [(<- & <- & _)|[_ Hj]]; [|apply lookup_other; eauto].
    apply elem_of_cons in Hx as [->|Hx]; [by rewrite lookup_insert_eq Hn|]. apply lookup_other; eauto.
  - intros j t Hj. apply tree_ok_add; auto.
  - intros x m Hx Hm. apply lookup_insert_Some in Hm as [[<- <-]|[_ Hm]]; [|eauto]. exfalso.
    apply eq_None_not_Some in Hb. apply Hb, (free_mem _ _ _ _ _ _ _ Hok). auto.
  - intros x m Hx. apply lookup_other; auto.
  - by rewrite length_insert.
  - intros j Hj. apply list_lookup_insert_Some in Hj as [(_ & ? & _)|[Hne Hj]]; [done|]. rewrite Hbits; auto.
Qed.

Lemma free_ok_add_lg i t t' lbm' : lg !! i = Some t -> 544 <= n -> telems t' ≡ₚ b :: telems t ->
  tree_ok (<[b := n]> H) (2 ^ Z.of_nat i) (Z.of_nat i) t' -> 0 <= lbm' < 2 ^ 64 ->
  (forall j : nat, Z.testbit lbm' (Z.of_nat j) = Z.testbit lbm (Z.of_nat j) || (i =? j)%nat) ->
  free_ok (<[b := n]> H) sm (<[i := t']> lg) rest bm lbm'.
Proof.
  intros Hi Hn Hel Ht Hbm Hbits. destruct Hok as [Hall Hbl Hsm Hlg Hlgs Hr Hsml Hlgl Hb1 Hb2 Hb3 Hb4].
  assert (concat (telems <$> <[i := t']> lg) ≡ₚ b :: concat (telems <$> lg)) as Hcat.
  { rewrite list_fmap_insert. apply (concat_add _ i (telems t)); [|done]. by rewrite list_lookup_fmap Hi. }
  split; try done.
  - rewrite dom_add; [|done]. rewrite Hall Hcat. solve_Permutation.
  - by apply map_Forall_insert_2.
  - intros j l x Hj Hx. apply lookup_other; eauto.
  - intros j t0 Hj. apply list_lookup_insert_Some in Hj as [(<- & <- & _)|[_ Hj]]; [done|]. apply tree_ok_add; auto.
  - intros x m Hx Hm. rewrite Hcat in Hx. apply lookup_insert_Some in Hm as [[<- <-]|[Hne Hm]]; [done|].
    apply elem_of_cons in Hx as [->|Hx]; [done|]. eauto.
  - intros x m Hx. apply lookup_other; auto.
  - by rewrite length_insert.
  - intros j t0 Hj. rewrite Hbits. apply list_lookup_insert_Some in Hj as [(<- & <- & _)|[Hne Hj]].
    + rewrite Nat.eqb_refl orb_true_r. destruct t'; [|done]. by apply Permutation_nil_cons in Hel.
    + rewrite (proj2 (Nat.eqb_neq i j)); [|done]. rewrite orb_false_r. auto.
Qed.

Lemma free_ok_add_rest : free_ok (<[b := n]> H) sm lg (rest ++ [(b, n)]) bm lbm.
Proof.
  destruct Hok as [Hall Hbl Hsm Hlg Hlgs Hr Hsml Hlgl Hb1 Hb2 Hb3 Hb4]. split; try done.
  - rewrite dom_add; [|done]. rewrite Hall fmap_app. simpl. solve_Permutation.
  - by apply map_Forall_insert_2.
  - intros j l x Hj Hx. apply lookup_other; eauto.
  - intros j t Hj. apply tree_ok_add; auto.
  - intros x m Hx Hm. apply lookup_insert_Some in Hm as [[<- <-]|[_ Hm]]; [|eauto]. exfalso.
    apply eq_None_not_Some in Hb. apply Hb, (free_mem _ _ _ _ _ _ _ Hok). auto.
  - intros x m Hx. apply elem_of_app in Hx as [Hx|Hx]; [apply lookup_other; auto|].
    apply list_elem_of_singleton in Hx. simplify_eq. apply lookup_insert_eq.
Qed.
End add.

Section remove.
Context (H : gmap Z Z) (sm : list (list Z)) (lg : list tree) (rest : list (Z * Z)) (bm lbm b n : Z).
Context (Hok : free_ok H sm lg rest bm lbm) (Hb : H !! b = Some n).

(** A part of the blocks without [b] is a part of the others. *)
Lemma remove_all l : b :: l ≡ₚ concat sm ++ concat (telems <$> lg) ++ rest.*1 ->
  elements (dom (delete b H)) ≡ₚ l /\ forall x, x ∈ l -> delete b H !! x = H !! x.
Proof.
  intros Hl. assert (elements (dom (delete b H)) ≡ₚ l) as Hd.
  { apply (Permutation_cons_inv (a := b)). rewrite Hl -(free_all _ _ _ _ _ _ Hok). symmetry. by eapply dom_remove. }
  split; [done|]. intros x Hx. rewrite -Hd elem_of_elements elem_of_dom in Hx. apply lookup_delete_ne. intros <-.
  rewrite lookup_delete_eq in Hx. by destruct Hx.
Qed.

Lemma free_ok_remove_sm i l l' bm' : sm !! i = Some l -> l ≡ₚ b :: l' -> 0 <= bm' < 2 ^ 64 ->
  (forall j : nat, Z.testbit bm (Z.of_nat j) = false -> Z.testbit bm' (Z.of_nat j) = false) ->
  (l' = [] -> Z.testbit bm' (Z.of_nat i) = false) ->
  free_ok (delete b H) (<[i := l']> sm) lg rest bm' lbm.
Proof.
  intros Hi Hl Hbm Hbits Hclear. pose proof (concat_remove _ _ _ _ _ Hi Hl) as Hcat.
  destruct (remove_all (concat (<[i := l']> sm) ++ concat (telems <$> lg) ++ rest.*1)) as [Hd Hx]; [by rewrite Hcat|].
  destruct Hok as [Hall Hbl Hsm Hlg Hlgs Hr Hsml Hlgl Hb1 Hb2 Hb3 Hb4]. split; try done.
  - by apply map_Forall_delete.
  - intros j l0 x Hj Hxl. rewrite Hx; [|rewrite elem_of_app elem_of_concat; eauto].
    apply list_lookup_insert_Some in Hj as [(<- & <- & _)|[_ Hj]]; [|eauto]. eapply Hsm; [done|]. rewrite Hl. set_solver.
  - intros j t Hj. eapply tree_ok_weak; [by apply Hlg|]. intros x Hxt. apply Hx. rewrite !elem_of_app elem_of_concat. right. left.
    apply elem_of_concat. exists j, (telems t). by rewrite list_lookup_fmap Hj.
  - intros x m Hxl Hm. apply (Hlgs x); [done|]. rewrite Hx in Hm; [done|]. rewrite !elem_of_app. auto.
  - intros x m Hxr. rewrite Hx; [auto|]. rewrite !elem_of_app. right. right. apply list_elem_of_fmap. by exists (x, m).
  - by rewrite length_insert.
  - intros j Hj. apply list_lookup_insert_Some in Hj as [(<- & ? & _)|[Hne Hj]]; auto.
Qed.

Lemma free_ok_remove_lg i t t' lbm' : lg !! i = Some t -> telems t ≡ₚ b :: telems t' ->
  tree_ok H (2 ^ Z.of_nat i) (Z.of_nat i) t' -> 0 <= lbm' < 2 ^ 64 ->
  (forall j : nat, Z.testbit lbm' (Z.of_nat j) = Z.testbit lbm (Z.of_nat j) && negb (is_nil t' && (i =? j)%nat)) ->
  free_ok (delete b H) sm (<[i := t']> lg) rest bm lbm'.
Proof.
  intros Hi Hel Ht Hbm Hbits.
  assert (concat (telems <$> lg) ≡ₚ b :: concat (telems <$> <[i := t']> lg)) as Hcat.
  { rewrite list_fmap_insert. apply (concat_remove _ i (telems t)); [|done]. by rewrite list_lookup_fmap Hi. }
  destruct (remove_all (concat sm ++ concat (telems <$> <[i := t']> lg) ++ rest.*1)) as [Hd Hx]; [rewrite Hcat; solve_Permutation|].
  destruct Hok as [Hall Hbl Hsm Hlg Hlgs Hr Hsml Hlgl Hb1 Hb2 Hb3 Hb4]. split; try done.
  - by apply map_Forall_delete.
  - intros j l0 x Hj Hxl. rewrite Hx; [|rewrite elem_of_app elem_of_concat; eauto]. eauto.
  - intros j t0 Hj. eapply (tree_ok_weak H).
    + apply list_lookup_insert_Some in Hj as [(<- & <- & _)|[_ Hj]]; [done|auto].
    + intros x Hxt. apply Hx. rewrite !elem_of_app. right. left.
      apply elem_of_concat. exists j, (telems t0). by rewrite list_lookup_fmap Hj.
  - intros x m Hxl Hm. apply (Hlgs x); [rewrite Hcat; set_solver|]. rewrite Hx in Hm; [done|]. rewrite !elem_of_app. auto.
  - intros x m Hxr. rewrite Hx; [auto|]. rewrite !elem_of_app. right. right. apply list_elem_of_fmap. by exists (x, m).
  - by rewrite length_insert.
  - intros j t0 Hj. rewrite Hbits. apply list_lookup_insert_Some in Hj as [(<- & <- & _)|[Hne Hj]].
    + rewrite Nat.eqb_refl andb_true_r (Hb4 _ _ Hi). destruct t; [by apply Permutation_nil_cons in Hel|done].
    + rewrite (proj2 (Nat.eqb_neq i j)); [|done]. rewrite andb_false_r andb_true_r. auto.
Qed.

Lemma free_ok_remove_rest rest1 rest2 bm' : rest = rest1 ++ (b, n) :: rest2 -> 0 <= bm' < 2 ^ 64 ->
  (forall j : nat, Z.testbit bm (Z.of_nat j) = false -> Z.testbit bm' (Z.of_nat j) = false) ->
  free_ok (delete b H) sm lg (rest1 ++ rest2) bm' lbm.
Proof.
  intros Hrest Hbm Hbits.
  destruct (remove_all (concat sm ++ concat (telems <$> lg) ++ (rest1 ++ rest2).*1)) as [Hd Hx].
  { rewrite Hrest !fmap_app. simpl. solve_Permutation. }
  destruct Hok as [Hall Hbl Hsm Hlg Hlgs Hr Hsml Hlgl Hb1 Hb2 Hb3 Hb4]. split; try done.
  - by apply map_Forall_delete.
  - intros j l0 x Hj Hxl. rewrite Hx; [|rewrite elem_of_app elem_of_concat; eauto]. eauto.
  - intros j t Hj. eapply tree_ok_weak; [by apply Hlg|]. intros x Hxt. apply Hx. rewrite !elem_of_app elem_of_concat. right. left.
    apply elem_of_concat. exists j, (telems t). by rewrite list_lookup_fmap Hj.
  - intros x m Hxl Hm. apply (Hlgs x); [done|]. rewrite Hx in Hm; [done|]. rewrite !elem_of_app. auto.
  - intros x m Hxr. rewrite Hx; [apply Hr; rewrite Hrest; set_solver|]. rewrite !elem_of_app. right. right. apply list_elem_of_fmap. by exists (x, m).
  - intros j Hj. auto.
Qed.
End remove.

Section free.
Context (heap : Z) (Hheap : 0 <= heap).

Definition small_bucket (i : Z) (l : list Z) : hprop :=
  ring (ZEND_MM_SMALL_FREE_BUCKET heap i :: l) ∗ [∗ list] x ∈ l, region (x + 32) (8 * i).

Definition rest_block (b : Z * Z) : hprop :=
  if is_large b then (parent b.1 ↦ ZEND_MM_REST_BLOCK ∗ region (b.1 + 40) (b.2 - 40))%I else region (b.1 + 32) (b.2 - 32).

Definition rest_ring (rest : list (Z * Z)) : hprop :=
  ring (ZEND_MM_REST_BUCKET heap :: rest.*1) ∗ ([∗ list] b ∈ rest, rest_block b) ∗
  rest_count heap ↦ Z.of_nat (length (filter is_large rest)) ∗ ⌜(length (filter is_large rest) <= 16)%nat⌝.

Definition fs_parts (sm : list (list Z)) (lg : list tree) (rest : list (Z * Z)) (bm lbm : Z) : hprop :=
  free_bitmap heap ↦ bm ∗ large_free_bitmap heap ↦ lbm ∗
  ([∗ list] i ↦ l ∈ sm, small_bucket (Z.of_nat i) l) ∗ ([∗ list] i ↦ t ∈ lg, bucket_tree heap (Z.of_nat i) t) ∗
  rest_ring rest.

(** The free blocks [H] of the heap, [rest] being the rest blocks among them. *)
Definition fsr (rest : list (Z * Z)) (H : gmap Z Z) : hprop :=
  ∃ sm lg bm lbm, ⌜free_ok H sm lg rest bm lbm⌝ ∗ sizes H ∗ fs_parts sm lg rest bm lbm.

Definition fs (H : gmap Z Z) : hprop := ∃ rest, fsr rest H.


Lemma rest_ring_eq rest : rest_ring rest ⊣⊢ ring (ZEND_MM_REST_BUCKET heap :: rest.*1) ∗ ([∗ list] b ∈ rest, rest_block b) ∗
  rest_count heap ↦ Z.of_nat (length (filter is_large rest)) ∗ ⌜(length (filter is_large rest) <= 16)%nat⌝.
Proof. done. Qed.

(** *** Adding a block *)

Lemma nat_bit (j i : nat) : (Z.of_nat i =? Z.of_nat j) = (i =? j)%nat.
Proof. destruct (Nat.eqb_spec i j); lia. Qed.

Lemma small_region b n : 32 <= n ->
  region (b + 16) (n - 16) ⊣⊢ (∃ v, prev_free_block b ↦ v) ∗ (∃ v, next_free_block b ↦ v) ∗ region (b + 32) (n - 32).
Proof.
  intros Hn. unfold prev_free_block, next_free_block. rewrite (region_word (b + 16)); [|lia]. rewrite (region_word (b + 16 + 8)); [|lia].
  replace (b + 16 + 8 + 8) with (b + 32) by lia. replace (n - 16 - 8 - 8) with (n - 32) by lia. by replace (b + 16 + 8) with (b + 24) by lia.
Qed.

Lemma bits_high bm j : 0 <= bm < 2 ^ 64 -> 64 <= j -> Z.testbit bm j = false.
Proof. intros Hb Hj. rewrite -(Z.mod_small bm (2 ^ 64)); [|done]. apply Z.mod_pow2_bits_high. lia. Qed.

Lemma bits_bound x : 0 <= x -> (forall j, 64 <= j -> Z.testbit x j = false) -> 0 <= x < 2 ^ 64.
Proof.
  intros Hx Hj. replace x with (x mod 2 ^ 64); [apply Z.mod_pos_bound; lia|]. apply Z.bits_inj'. intros j Hj0.
  destruct (decide (j < 64)); [apply Z.mod_pow2_bits_low; lia|]. rewrite Z.mod_pow2_bits_high; [|lia]. rewrite Hj; [done|lia].
Qed.

Lemma set_range bm i : 0 <= bm < 2 ^ 64 -> 0 <= i < 64 -> 0 <= Z.lor bm (Z.shiftl 1 i) < 2 ^ 64.
Proof.
  intros Hb Hi. apply bits_bound; [apply Z.lor_nonneg; split; [lia|apply Z.shiftl_nonneg; lia]|]. intros j Hj.
  rewrite bitmap_set; [|lia..]. rewrite bits_high; [|done..]. apply Z.eqb_neq. lia.
Qed.

Lemma clear_range bm i : 0 <= bm < 2 ^ 64 -> 0 <= i < 64 -> 0 <= Z.ldiff bm (Z.shiftl 1 i) < 2 ^ 64.
Proof.
  intros Hb Hi. apply bits_bound; [apply Z.ldiff_nonneg; lia|]. intros j Hj.
  rewrite bitmap_clear; [|lia..]. by rewrite bits_high.
Qed.

Lemma hwp_add_small H rest b n Q : H !! b = None -> block_ok b n -> ZEND_MM_SMALL_SIZE n = true ->
  fsr rest H -∗ b_size b ↦ n -∗ region (b + 16) (n - 16) -∗ (fsr rest (<[b := n]> H) -∗ Q tt) -∗
  hwp (zend_mm_add_to_free_list heap b) Q.
Proof.
  iIntros (Hb Hbn Hsm) "(%sm & %lg & %bm & %lbm & %Hok & HH & Hbm & Hlbm & Hsm & Hlg & Hrest) Hs Hreg HQ".
  destruct (Hbn) as (Hb0 & Hn & Hn8). destruct (bucket_index n) as [Hi En]; [done|lia|done|].
  iDestruct (sizes_add with "HH Hs") as "HH". unfold zend_mm_add_to_free_list.
  iApply (hwp_free_size with "HH"); [apply lookup_insert_eq|]. iIntros "HH". rewrite Hsm. cbn [negb].
  set (i := ZEND_MM_BUCKET_INDEX n) in *. assert (exists l, sm !! Z.to_nat i = Some l) as [l Hl].
  { apply lookup_lt_is_Some. rewrite (free_sm_len _ _ _ _ _ _ Hok). lia. }
  iDestruct (big_sepL_insert_acc with "Hsm") as "[Hbk Hsm]"; [exact Hl|]. rewrite Z2Nat.id; [|lia].
  iDestruct "Hbk" as "[Hring Hregs]". iDestruct (ring_links with "Hring") as "(Hp & Hn & Hring)". hload "Hp".
  iApply hwp_bind. iAssert (∀ bm', ⌜0 <= bm' < 2 ^ 64 /\
      (forall j : nat, j <> Z.to_nat i -> Z.testbit bm' (Z.of_nat j) = Z.testbit bm (Z.of_nat j))⌝ -∗ free_bitmap heap ↦ bm' -∗
    hwp (next ← load (next_free_block (ZEND_MM_SMALL_FREE_BUCKET heap i)); link_between b (ZEND_MM_SMALL_FREE_BUCKET heap i) next) Q)%I
    with "[Hp Hn Hring Hregs Hsm Hlg Hrest Hlbm HH Hreg HQ]" as "Hgo".
  { iIntros (bm' [Hbm Hbits]) "Hbm". hload "Hn". iSpecialize ("Hring" with "Hp Hn"). rewrite small_region; [|lia].
    iDestruct "Hreg" as "([%v1 Hp] & [%v2 Hn] & Hreg)". iApply (hwp_link with "Hp Hn Hring"). iIntros "Hring".
    iApply "HQ". iExists (<[Z.to_nat i := b :: l]> sm), lg, bm', lbm. iFrame "HH Hbm Hlbm Hlg Hrest". iSplit.
    - iPureIntro. eapply free_ok_add_sm; try done. lia.
    - iApply "Hsm". unfold small_bucket. iFrame. by replace (n - 32) with (8 * i) by lia. }
  destruct (List.last l _ =? _).
  - hload "Hbm". iApply (hwp_store with "Hbm"). iIntros "Hbm". iApply ("Hgo" with "[] Hbm"). iPureIntro. split.
    + apply set_range; [by eapply free_bm|lia].
    + intros j Hj. rewrite bitmap_set; [|lia..]. rewrite (proj2 (Z.eqb_neq _ _)); [apply orb_false_r|lia].
  - iApply hwp_ret. iApply ("Hgo" with "[] Hbm"). iPureIntro. split; [by eapply free_bm|done].
Qed.

(** The tree of a large size. *)
Lemma large_index n : 544 <= n -> n < 2 ^ 64 ->
  let i := zend_mm_high_bit n in 0 <= i <= 63 /\ 2 ^ i <= n < 2 ^ i + 2 ^ i.
Proof.
  intros Hn Hlt i. subst i. rewrite zend_mm_high_bit_log2; [|lia]. pose proof (Z.log2_spec n ltac:(lia)) as Hlog.
  pose proof (Z.log2_nonneg n). rewrite Z.pow_succ_r in Hlog; [|lia]. split; [|lia].
  split; [lia|]. assert (Z.log2 n < 64); [apply Z.log2_lt_pow2; lia|lia].
Qed.

Lemma hwp_add_large H rest b n Q : H !! b = None -> block_ok b n -> 544 <= n ->
  fsr rest H -∗ b_size b ↦ n -∗ region (b + 16) (n - 16) -∗ (fsr rest (<[b := n]> H) -∗ Q tt) -∗
  hwp (zend_mm_add_to_free_list heap b) Q.
Proof.
  iIntros (Hb Hbn Hlg) "(%sm & %lg & %bm & %lbm & %Hok & HH & Hbm & Hlbm & Hsm & Hlg & Hrest) Hs Hreg HQ".
  destruct (Hbn) as (Hb0 & Hn & Hn8). destruct (large_index n) as [Hi Hin]; [lia..|].
  iDestruct (sizes_add with "HH Hs") as "HH". unfold zend_mm_add_to_free_list.
  iApply (hwp_free_size with "HH"); [apply lookup_insert_eq|]. iIntros "HH". rewrite (proj2 (not_small n) Hlg). cbn [negb].
  unfold ZEND_MM_LARGE_BUCKET_INDEX. set (i := zend_mm_high_bit n) in *. assert (exists t, lg !! Z.to_nat i = Some t) as [t Ht].
  { apply lookup_lt_is_Some. rewrite (free_lg_len _ _ _ _ _ _ Hok). lia. }
  pose proof (free_lg _ _ _ _ _ _ Hok _ _ Ht) as Hok_t. rewrite Z2Nat.id in Hok_t; [|lia]. apply (tree_ok_add _ b n) in Hok_t; [|done].
  iDestruct (big_sepL_insert_acc with "Hlg") as "[Hbk Hlg]"; [exact Ht|]. rewrite Z2Nat.id; [|lia]. unfold bucket_tree.
  rewrite node_region; [|lia]. iDestruct "Hreg" as "(Hp & Hn & Hpa & [%v0 H0] & [%v1 H1] & Hreg)". hstore "H1". hstore "H0".
  iDestruct (ttree_root with "Hbk") as "[Hc Hbk]". hload "Hc". rewrite (root_null _ _ _ _ Hok_t). iSpecialize ("Hbk" with "Hc").
  iAssert (fresh_node b n) with "[Hp Hn Hpa H0 H1 Hreg]" as "Hnode"; [unfold fresh_node; iFrame|].
  destruct (is_nil t) eqn:Enil.
  - destruct t; [|done]. rewrite ttree_nil. iApply hwp_bind. iApply (hwp_new_tree_node with "Hnode Hbk"). iIntros "Ht".
    hload "Hlbm". iApply (hwp_store with "Hlbm"). iIntros "Hlbm". iApply "HQ".
    iExists sm, (<[Z.to_nat i := Node b [] n Nil Nil]> lg), bm, (Z.lor lbm (Z.shiftl 1 i)).
    iFrame "HH Hbm Hlbm Hsm Hrest". iSplit; [|by iApply "Hlg"]. iPureIntro. eapply free_ok_add_lg; try done.
    + rewrite Z2Nat.id; [|lia]. split_and!; [lia|lia| |done|done]. apply Forall_singleton. by rewrite lookup_insert_eq.
    + apply set_range; [by eapply free_lbm|lia].
    + intros j. rewrite bitmap_set; [|lia..]. f_equal. rewrite -nat_bit Z2Nat.id; [done|lia].
  - iApply (hwp_add_loop _ (<[b:=n]> H) t _ b n (2 ^ i) i with "HH Hbk Hnode"); try done; try lia.
    + by intros ->.
    + apply Z.mod_same. lia.
    + iIntros "HH Ht". iApply "HQ". iExists sm, (<[Z.to_nat i := tinsert b n (2 ^ i) i t]> lg), bm, lbm.
      iFrame "HH Hbm Hlbm Hsm Hrest". iSplit; [|by iApply "Hlg"]. iPureIntro. eapply free_ok_add_lg; try done.
      * apply tinsert_elems.
      * rewrite Z2Nat.id; [|lia]. apply tinsert_ok; try done; try lia. apply lookup_insert_eq.
      * by eapply free_lbm.
      * intros j. destruct (Nat.eqb_spec (Z.to_nat i) j) as [<-|]; [|by rewrite orb_false_r].
        rewrite (free_lbm_bits _ _ _ _ _ _ Hok _ _ Ht) Enil. done.
Qed.

Lemma fs_none H rest b n : fsr rest H -∗ b_size b ↦ n -∗ ⌜H !! b = None⌝.
Proof. iIntros "(%sm & %lg & %bm & %lbm & %Hok & HH & _) Hs". iApply (sizes_none with "HH Hs"). Qed.

Lemma hwp_add_to_free_list_rest H rest b n Q : block_ok b n ->
  fsr rest H -∗ b_size b ↦ n -∗ region (b + 16) (n - 16) -∗ (fsr rest (<[b := n]> H) -∗ Q tt) -∗
  hwp (zend_mm_add_to_free_list heap b) Q.
Proof.
  iIntros (Hbn) "HF Hs Hreg HQ". iDestruct (fs_none with "HF Hs") as %Hb. destruct (ZEND_MM_SMALL_SIZE n) eqn:Hn.
  - iApply (hwp_add_small with "HF Hs Hreg HQ"); done.
  - iApply (hwp_add_large with "HF Hs Hreg HQ"); [done..|by apply not_small].
Qed.

Lemma hwp_add_to_free_list H b n Q : block_ok b n ->
  fs H -∗ b_size b ↦ n -∗ region (b + 16) (n - 16) -∗ (fs (<[b := n]> H) -∗ Q tt) -∗
  hwp (zend_mm_add_to_free_list heap b) Q.
Proof.
  iIntros (Hbn) "[%rest HF] Hs Hreg HQ". iApply (hwp_add_to_free_list_rest with "HF Hs Hreg"); [done|]. iIntros "HF".
  iApply "HQ". by iExists rest.
Qed.

(** *** Removing a block *)

Lemma bucket_words i : free_buckets heap (i * 2) = prev_free_block (ZEND_MM_SMALL_FREE_BUCKET heap i) /\
  free_buckets heap (i * 2 + 1) = next_free_block (ZEND_MM_SMALL_FREE_BUCKET heap i).
Proof. unfold ZEND_MM_SMALL_FREE_BUCKET, free_buckets, prev_free_block, next_free_block. lia. Qed.

(** The bitmap after a small block is unlinked: a bit may be cleared, and that of an empty list is. *)
Lemma hwp_unlinked_small x prev next n l bm Q :
  n mod 8 = 0 -> 32 <= n -> ZEND_MM_SMALL_SIZE n = true -> 0 <= bm < 2 ^ 64 ->
  let i := ZEND_MM_BUCKET_INDEX n in
  ring (ZEND_MM_SMALL_FREE_BUCKET heap i :: l) -∗ free_bitmap heap ↦ bm -∗
  (∀ bm', ⌜0 <= bm' < 2 ^ 64⌝ -∗ ⌜forall j : nat, Z.testbit bm (Z.of_nat j) = false -> Z.testbit bm' (Z.of_nat j) = false⌝ -∗
     ⌜prev = next -> l = [] -> Z.testbit bm' i = false⌝ -∗
     ring (ZEND_MM_SMALL_FREE_BUCKET heap i :: l) -∗ free_bitmap heap ↦ bm' -∗ Q tt) -∗
  hwp (unlinked heap x prev next n) Q.
Proof.
  iIntros (H8 H32 Hsm Hbm i) "Hring Hbm HQ". destruct (bucket_index n) as [Hi _]; [done..|]. fold i in Hi.
  unfold unlinked. rewrite Hsm. cbv zeta. fold i. destruct (Z.eqb_spec prev next) as [->|Hne].
  - destruct (bucket_words i) as [-> ->]. iDestruct (ring_links with "Hring") as "(Hp & Hn & Hring)". hload "Hp". hload "Hn".
    iSpecialize ("Hring" with "Hp Hn"). destruct (Z.eqb_spec (List.last l (ZEND_MM_SMALL_FREE_BUCKET heap i)) (List.hd (ZEND_MM_SMALL_FREE_BUCKET heap i) l)) as [He|He].
    + hload "Hbm". iApply (hwp_store with "Hbm"). iIntros "Hbm". iApply ("HQ" with "[] [] [] Hring Hbm"); iPureIntro.
      * apply clear_range; lia.
      * intros j Hj. rewrite bitmap_clear; [|lia..]. by rewrite Hj.
      * intros _ _. rewrite bitmap_clear; [|lia..]. by rewrite Z.eqb_refl andb_false_r.
    + iApply hwp_ret. iApply ("HQ" with "[] [] [] Hring Hbm"); iPureIntro; try done. by intros _ ->.
  - iApply hwp_ret. iApply ("HQ" with "[] [] [] Hring Hbm"); iPureIntro; done.
Qed.

Lemma hwp_remove_sm H sm lg rest bm lbm b n i l Q :
  free_ok H sm lg rest bm lbm -> H !! b = Some n -> sm !! i = Some l -> b ∈ l ->
  sizes H -∗ fs_parts sm lg rest bm lbm -∗
  (fs (delete b H) -∗ b_size b ↦ n -∗ region (b + 16) (n - 16) -∗ Q tt) -∗
  hwp (zend_mm_remove_from_free_list heap b) Q.
Proof.
  iIntros (Hok Hb Hi Hbl) "HH (Hbm & Hlbm & Hsm & Hlg & Hrest) HQ".
  assert (n = 8 * Z.of_nat i + 32) as Hn by (pose proof (free_sm _ _ _ _ _ _ Hok _ _ _ Hi Hbl); congruence).
  pose proof (lookup_lt_Some _ _ _ Hi) as Hi64. rewrite (free_sm_len _ _ _ _ _ _ Hok) in Hi64.
  assert (n mod 8 = 0) as H8. { rewrite Hn. replace (8 * Z.of_nat i + 32) with ((Z.of_nat i + 4) * 8) by lia. by apply Z.mod_mul. }
  assert (ZEND_MM_SMALL_SIZE n = true) as Hsmall. { apply Z.ltb_lt. change ZEND_MM_MAX_SMALL_SIZE with 544. lia. }
  destruct (bucket_index n) as [Hi' En]; [done|lia|done|]. assert (ZEND_MM_BUCKET_INDEX n = Z.of_nat i) as Ei by lia.
  iDestruct (big_sepL_insert_acc with "Hsm") as "[[Hring Hregs] Hsm]"; [exact Hi|].
  apply list_elem_of_split in Hbl as (l1 & l2 & ->). rewrite (app_comm_cons l1). rewrite ring_focus.
  iApply (hwp_remove_linked with "HH Hring"); [by destruct l2|done|]. iIntros "HH [%v1 Hp] [%v2 Hn] Hring".
  rewrite (ring_app l2). rewrite -(app_comm_cons l1). rewrite -Ei.
  iApply (hwp_unlinked_small with "Hring Hbm"); [done|lia|done|by eapply free_bm|].
  iIntros (bm' Hr Hbits Hnil) "Hring Hbm". iDestruct (sizes_remove with "HH") as "[HH Hs]"; [done|].
  rewrite big_sepL_app big_sepL_cons. iDestruct "Hregs" as "(Hr1 & Hreg & Hr2)".
  iApply ("HQ" with "[HH Hring Hbm Hlbm Hsm Hlg Hrest Hr1 Hr2] Hs").
  - iExists rest, (<[i := l1 ++ l2]> sm), lg, bm', lbm. iFrame "HH Hbm Hlbm Hlg Hrest". iSplit.
    + iPureIntro. eapply free_ok_remove_sm; try done; [solve_Permutation|]. intros [-> ->]%app_nil. rewrite -Ei. by apply Hnil.
    + iApply "Hsm". unfold small_bucket. iFrame "Hring". rewrite big_sepL_app. iFrame.
  - rewrite small_region; [|lia]. iFrame. by replace (n - 32) with (8 * ZEND_MM_BUCKET_INDEX n) by lia.
Qed.

Lemma hwp_remove_lg H sm lg rest bm lbm b n i t Q :
  free_ok H sm lg rest bm lbm -> H !! b = Some n -> lg !! i = Some t -> b ∈ telems t ->
  sizes H -∗ fs_parts sm lg rest bm lbm -∗
  (fs (delete b H) -∗ b_size b ↦ n -∗ region (b + 16) (n - 16) -∗ Q tt) -∗
  hwp (zend_mm_remove_from_free_list heap b) Q.
Proof.
  iIntros (Hok Hb Hi Hbt) "HH (Hbm & Hlbm & Hsm & Hlg & Hrest) HQ".
  pose proof (lookup_lt_Some _ _ _ Hi) as Hi64. rewrite (free_lg_len _ _ _ _ _ _ Hok) in Hi64.
  assert (544 <= n) as Hn. { apply (free_lg_size _ _ _ _ _ _ Hok b); [|done]. apply elem_of_concat. exists i, (telems t). by rewrite list_lookup_fmap Hi. }
  iDestruct (big_sepL_insert_acc with "Hlg") as "[Ht Hlg]"; [exact Hi|].
  iApply (hwp_remove_large with "HH Ht Hlbm"); [done|lia|by eapply free_lg|done..|].
  iIntros (t' Hel Ht') "HH Ht Hlbm Hreg". iDestruct (sizes_remove with "HH") as "[HH Hs]"; [done|].
  iApply ("HQ" with "[HH Hbm Hlbm Hsm Hlg Hrest Ht] Hs Hreg").
  iExists rest, sm, (<[i := t']> lg), bm, _. iFrame "HH Hbm Hlbm Hsm Hrest". iSplit; [|by iApply "Hlg"]. iPureIntro.
  pose proof (free_lbm _ _ _ _ _ _ Hok) as Hlbm. eapply free_ok_remove_lg; try done.
  - destruct (is_nil t'); [apply clear_range; lia|done].
  - intros j. destruct (is_nil t'); cbn [andb negb]; [|by rewrite andb_true_r]. rewrite bitmap_clear; [|lia..]. by rewrite nat_bit.
Qed.
Lemma rest_block_region b n : 32 <= n ->
  (∃ v, prev_free_block b ↦ v) -∗ (∃ v, next_free_block b ↦ v) -∗ rest_block (b, n) -∗ region (b + 16) (n - 16).
Proof.
  iIntros (Hn) "Hp Hn Hr". unfold rest_block, is_large. cbn [fst snd]. destruct (ZEND_MM_SMALL_SIZE n) eqn:Es; cbn [negb].
  - rewrite small_region; [|done]. iFrame.
  - apply not_small in Es. rewrite node_region; [|lia]. iDestruct "Hr" as "[Hpa Hr]". rewrite sib_region; [|lia]. iFrame.
Qed.

Lemma count_large rest1 rest2 b n : length (filter is_large (rest1 ++ (b, n) :: rest2)) =
  (length (filter is_large (rest1 ++ rest2)) + if ZEND_MM_SMALL_SIZE n then 0 else 1)%nat.
Proof.
  rewrite !filter_app !length_app. destruct (ZEND_MM_SMALL_SIZE n) eqn:E.
  - rewrite filter_cons_False; [lia|]. unfold is_large. cbn [snd]. rewrite E. auto.
  - rewrite filter_cons_True; [simpl; lia|]. unfold is_large. cbn [snd]. by rewrite E.
Qed.

Lemma hwp_remove_rest H sm lg rest1 rest2 bm lbm b n Q :
  free_ok H sm lg (rest1 ++ (b, n) :: rest2) bm lbm ->
  sizes H -∗ fs_parts sm lg (rest1 ++ (b, n) :: rest2) bm lbm -∗
  (fs (delete b H) -∗ b_size b ↦ n -∗ region (b + 16) (n - 16) -∗ Q tt) -∗
  hwp (zend_mm_remove_from_free_list heap b) Q.
Proof.
  iIntros (Hok) "HH (Hbm & Hlbm & Hsm & Hlg & Hrest) HQ".
  assert (H !! b = Some n) as Hb by (eapply (free_rest _ _ _ _ _ _ Hok); set_solver).
  destruct (free_blocks _ _ _ _ _ _ Hok _ _ Hb) as (Hb0 & Hn & H8).
  iDestruct "Hrest" as "(Hring & Hblocks & Hcount & %Hcount)". rewrite fmap_app fmap_cons.
  rewrite (app_comm_cons (rest1.*1)) ring_focus. iApply (hwp_remove_linked with "HH Hring"); [by destruct (rest2.*1)|done|].
  iIntros "HH Hp Hn Hring". rewrite (ring_app (rest2.*1)) -(app_comm_cons (rest1.*1)) -fmap_app.
  rewrite big_sepL_app big_sepL_cons. iDestruct "Hblocks" as "(Hr1 & Hblock & Hr2)". rewrite count_large in Hcount. rewrite count_large.
  iAssert (∀ bm', ⌜0 <= bm' < 2 ^ 64⌝ -∗ ⌜forall j : nat, Z.testbit bm (Z.of_nat j) = false -> Z.testbit bm' (Z.of_nat j) = false⌝ -∗
    sizes H -∗ rest_block (b, n) -∗ free_bitmap heap ↦ bm' -∗ ([∗ list] i ↦ l ∈ sm, small_bucket (Z.of_nat i) l) -∗
    rest_count heap ↦ Z.of_nat (length (filter is_large (rest1 ++ rest2))) -∗ Q tt)%I
    with "[Hlbm Hlg Hring Hr1 Hr2 HQ Hp Hn]" as "HQ".
  { iIntros (bm' Hr Hbits) "HH Hblock Hbm Hsm Hcount". iDestruct (sizes_remove with "HH") as "[HH Hs]"; [done|].
    iApply ("HQ" with "[HH Hbm Hlbm Hsm Hlg Hring Hr1 Hr2 Hcount] Hs").
    - iExists (rest1 ++ rest2), sm, lg, bm', lbm. iFrame "HH Hbm Hlbm Hlg Hsm". iSplit; [iPureIntro; by eapply free_ok_remove_rest|].
      rewrite rest_ring_eq big_sepL_app. iFrame. iPureIntro. lia.
    - iApply (rest_block_region with "Hp Hn Hblock"). lia. }
  destruct (ZEND_MM_SMALL_SIZE n) eqn:Es.
  - destruct (bucket_index n) as [Hi En]; [done|lia|done|]. set (i := ZEND_MM_BUCKET_INDEX n) in *.
    assert (exists l, sm !! Z.to_nat i = Some l) as [l Hl]. { apply lookup_lt_is_Some. rewrite (free_sm_len _ _ _ _ _ _ Hok). lia. }
    iDestruct (big_sepL_lookup_acc with "Hsm") as "[[Hbk Hregs] Hsm]"; [exact Hl|]. rewrite Z2Nat.id; [|lia].
    iApply (hwp_unlinked_small with "Hbk Hbm"); [done|lia|done|by eapply free_bm|].
    iIntros (bm' Hr Hbits _) "Hbk Hbm". rewrite Nat.add_0_r. iApply ("HQ" with "[//] [//] HH Hblock Hbm [Hsm Hbk Hregs] Hcount").
    iApply "Hsm". iFrame.
  - unfold unlinked. rewrite Es. unfold rest_block, is_large at 1. cbn [fst snd]. rewrite Es. cbn [negb]. iDestruct "Hblock" as "[Hpa Hreg]".
    hload "Hpa". rewrite Z.eqb_refl. hload "Hcount". iApply (hwp_store with "Hcount"). iIntros "Hcount".
    iApply ("HQ" $! bm with "[] [] HH [Hpa Hreg] Hbm Hsm [Hcount]"); [iPureIntro; by eapply free_bm|done| |].
    + unfold rest_block, is_large. cbn [fst snd]. rewrite Es. iFrame.
    + rewrite wrap_s_small; [|lia|lia]. by replace (Z.of_nat (length (filter is_large (rest1 ++ rest2)) + 1) - 1) with (Z.of_nat (length (filter is_large (rest1 ++ rest2)))) by lia.
Qed.

Lemma hwp_remove_from_free_list H b n Q : H !! b = Some n ->
  fs H -∗ (fs (delete b H) -∗ b_size b ↦ n -∗ region (b + 16) (n - 16) -∗ Q tt) -∗
  hwp (zend_mm_remove_from_free_list heap b) Q.
Proof.
  iIntros (Hb) "(%rest & %sm & %lg & %bm & %lbm & %Hok & HH & Hparts) HQ".
  destruct (proj1 (free_mem _ _ _ _ _ _ b Hok) (mk_is_Some _ _ Hb)) as [Hx|[Hx|Hx]].
  - apply elem_of_concat in Hx as (i & l & Hi & Hx). iApply (hwp_remove_sm with "HH Hparts HQ"); done.
  - apply elem_of_concat in Hx as (i & l & Hi & Hx). rewrite list_lookup_fmap in Hi. destruct (lg !! i) as [t|] eqn:Ht; [|done].
    injection Hi as <-. iApply (hwp_remove_lg with "HH Hparts HQ"); done.
  - apply list_elem_of_fmap in Hx as ([b' n'] & E & Hx). cbn in E. subst b'.
    assert (n' = n) as -> by (pose proof (free_rest _ _ _ _ _ _ Hok _ _ Hx); congruence).
    apply list_elem_of_split in Hx as (rest1 & rest2 & ->). by iApply (hwp_remove_rest with "HH Hparts HQ").
Qed.
(** *** Rest blocks *)

Lemma dseg_words p l n : dseg p l n -∗ [∗ list] x ∈ l, ∃ v, next_free_block x ↦ v.
Proof.
  iIntros "H". iInduction l as [|x l] "IH" forall (p); [done|]. rewrite dseg_cons. iDestruct "H" as "(_ & Hn & Hl)".
  iSplitL "Hn"; [by iExists _|]. iApply ("IH" with "Hl").
Qed.

(** The bound of the loops over the rest blocks is larger than their number. *)
Lemma hwp_rest_bound rest H Q :
  fsr rest H -∗ (∀ n, ⌜(length rest < n)%nat⌝ -∗ fsr rest H -∗ Q n) -∗ hwp bound Q.
Proof.
  iIntros "HF HQ". iApply (hwp_bound (next_free_block <$> rest.*1)). iSplit.
  - iDestruct "HF" as "(%sm & %lg & %bm & %lbm & %Hok & HH & _ & _ & _ & _ & Hring & _)". rewrite ring_cons.
    iDestruct "Hring" as "(_ & _ & Hl)". rewrite big_sepL_fmap. iApply (dseg_words with "Hl").
  - iIntros (n Hn). iApply ("HQ" with "[] HF"). by rewrite !length_fmap in Hn.
Qed.

Lemma rest_words : rest_buckets heap 0 = prev_free_block (ZEND_MM_REST_BUCKET heap) /\
  rest_buckets heap 1 = next_free_block (ZEND_MM_REST_BUCKET heap).
Proof. unfold ZEND_MM_REST_BUCKET, rest_buckets, prev_free_block, next_free_block. lia. Qed.

(** Taking the oldest rest block out of the list. *)
Lemma fsr_pop b n rest H : fsr ((b, n) :: rest) H -∗
  ⌜H !! b = Some n /\ block_ok b n⌝ ∗
  ring (ZEND_MM_REST_BUCKET heap :: b :: rest.*1) ∗ sizes H ∗
  rest_count heap ↦ Z.of_nat (length (filter is_large ((b, n) :: rest))) ∗
  (∀ c, ⌜c = Z.of_nat (length (filter is_large rest))⌝ -∗ (∃ v, prev_free_block b ↦ v) -∗ (∃ v, next_free_block b ↦ v) -∗
     ring (rest.*1 ++ [ZEND_MM_REST_BUCKET heap]) -∗ sizes H -∗ rest_count heap ↦ c -∗
     fsr rest (delete b H) ∗ b_size b ↦ n ∗ region (b + 16) (n - 16)).
Proof.
  iIntros "(%sm & %lg & %bm & %lbm & %Hok & HH & Hbm & Hlbm & Hsm & Hlg & Hring & Hblocks & Hcount & %Hcount)".
  assert (H !! b = Some n) as Hb by (eapply (free_rest _ _ _ _ _ _ Hok); set_solver).
  pose proof (free_blocks _ _ _ _ _ _ Hok _ _ Hb) as Hbn. rewrite fmap_cons. cbn [fst].
  iFrame "Hring HH Hcount". iSplit; [done|]. iIntros (c ->) "Hp Hn Hring HH Hcount". rewrite -ring_rotate.
  iDestruct (sizes_remove H b n with "HH") as "[HH $]"; [done|]. rewrite big_sepL_cons. iDestruct "Hblocks" as "[Hblock Hblocks]".
  iSplitR "Hp Hn Hblock"; [|iApply (rest_block_region with "Hp Hn Hblock"); destruct Hbn; lia].
  iExists sm, lg, bm, lbm. iFrame "HH Hbm Hlbm Hsm Hlg". iSplit.
  - iPureIntro. eapply (free_ok_remove_rest _ _ _ _ _ _ _ _ Hok Hb [] rest); [done|by eapply free_bm|done].
  - rewrite rest_ring_eq. iFrame. iPureIntro. pose proof (count_large [] rest b n) as E. cbn [app] in E. lia.
Qed.

Lemma fsr_count rest H : fsr rest H -∗
  rest_count heap ↦ Z.of_nat (length (filter is_large rest)) ∗
  ⌜(length (filter is_large rest) <= 16)%nat⌝ ∗
  (rest_count heap ↦ Z.of_nat (length (filter is_large rest)) -∗ fsr rest H).
Proof.
  iIntros "(%sm & %lg & %bm & %lbm & %Hok & HH & Hbm & Hlbm & Hsm & Hlg & Hring & Hblocks & Hcount & %Hcount)".
  iFrame "Hcount". iSplit; [done|]. iIntros "Hcount". iExists sm, lg, bm, lbm. iFrame. done.
Qed.

Lemma hwp_evict_loop fuel H rest Q : (length rest < fuel)%nat ->
  fsr rest H -∗ (∀ rest', ⌜(length (filter is_large rest') < 16)%nat⌝ -∗ fsr rest' H -∗ Q tt) -∗
  hwp (evict_loop heap fuel) Q.
Proof.
  iIntros (Hf) "HF HQ". iInduction fuel as [|fuel] "IH" forall (rest Hf); [lia|]. cbn [evict_loop].
  iDestruct (fsr_count with "HF") as "(Hcount & %Hc & HF)". hload "Hcount". iSpecialize ("HF" with "Hcount").
  unfold ZEND_MM_MAX_REST_BLOCKS. destruct (Z.leb_spec 16 (Z.of_nat (length (filter is_large rest)))) as [Hle|Hlt].
  2:{ iApply hwp_ret. iApply ("HQ" with "[] HF"). iPureIntro. lia. }
  destruct rest as [|[b n] rest]; [cbn in Hle; lia|].
  iDestruct (fsr_pop with "HF") as "([%Hb %Hbn] & Hring & HH & Hcount & Hpop)".
  destruct rest_words as [_ ->]. iDestruct (ring_links with "Hring") as "(Hp & Hn & Hring)". hload "Hn". cbn [List.hd].
  iSpecialize ("Hring" with "Hp Hn"). iApply (hwp_free_size with "HH"); [done|]. iIntros "HH".
  iApply hwp_bind. iAssert (∀ c, ⌜c = Z.of_nat (length (filter is_large rest))⌝ -∗ rest_count heap ↦ c -∗
    hwp (prev ← load (prev_free_block b); next ← load (next_free_block b); unlink prev next ;;
         zend_mm_add_to_free_list heap b ;; evict_loop heap fuel) Q)%I with "[HQ Hring HH Hpop]" as "Hgo".
  { iIntros (c Hcl) "Hcount". iDestruct (ring_rotate (ZEND_MM_REST_BUCKET heap) (b :: rest.*1) with "Hring") as "Hring".
    rewrite -app_comm_cons. iDestruct (ring_links with "Hring") as "(Hp & Hn & Hring)". hload "Hp". hload "Hn".
    iSpecialize ("Hring" with "Hp Hn"). iApply hwp_bind. iApply (hwp_unlink with "Hring"); [by destruct (rest.*1)|].
    iIntros "Hp Hn Hring". iDestruct ("Hpop" $! c with "[//] [Hp] [Hn] Hring HH Hcount") as "(HF & Hs & Hreg)"; [by iExists _..|].
    iApply hwp_bind. iApply (hwp_add_to_free_list_rest with "HF Hs Hreg"); [done|]. iIntros "HF".
    rewrite insert_delete_id; [|done]. iApply ("IH" with "[] HF HQ"). iPureIntro. simpl in Hf. lia. }
  pose proof (count_large [] rest b n) as E. cbn [app] in E. rewrite E in Hle, Hc. rewrite E.
  destruct (ZEND_MM_SMALL_SIZE n); cbn [negb].
  - iApply hwp_ret. iApply ("Hgo" with "[] Hcount"). iPureIntro. lia.
  - iApply (hwp_store with "Hcount"). iIntros "Hcount". iApply ("Hgo" with "[] Hcount"). iPureIntro.
    rewrite wrap_s_small; lia.
Qed.

Lemma rest_block_small b n : ZEND_MM_SMALL_SIZE n = true -> rest_block (b, n) = region (b + 32) (n - 32).
Proof. intros Hn. unfold rest_block, is_large. cbn [fst snd]. by rewrite Hn. Qed.

Lemma rest_block_large b n : ZEND_MM_SMALL_SIZE n = false ->
  rest_block (b, n) = (parent b ↦ ZEND_MM_REST_BLOCK ∗ region (b + 40) (n - 40))%I.
Proof. intros Hn. unfold rest_block, is_large. cbn [fst snd]. by rewrite Hn. Qed.

Lemma ring_back (x : Z) l : exists l0, x :: l = l0 ++ [List.last l x].
Proof. destruct (exists_last (l := x :: l)) as (l0 & y & E); [done|]. exists l0. rewrite E. do 2 f_equal. rewrite -(last_cons_any x l x) E. by rewrite last_snoc_any. Qed.

Lemma hwp_add_to_rest_list H b n Q : block_ok b n ->
  fs H -∗ b_size b ↦ n -∗ region (b + 16) (n - 16) -∗ (fs (<[b := n]> H) -∗ Q tt) -∗
  hwp (zend_mm_add_to_rest_list heap b) Q.
Proof.
  iIntros (Hbn) "[%rest HF] Hs Hreg HQ". unfold zend_mm_add_to_rest_list. iApply hwp_bind. iApply (hwp_rest_bound with "HF").
  iIntros (k Hk) "HF". iApply hwp_bind. iApply (hwp_evict_loop with "HF"); [done|]. clear rest k Hk. iIntros (rest Hcount) "HF".
  iDestruct (fs_none with "HF Hs") as %Hb. destruct (Hbn) as (Hb0 & Hn & H8).
  iDestruct "HF" as "(%sm & %lg & %bm & %lbm & %Hok & HH & Hbm & Hlbm & Hsm & Hlg & Hring & Hblocks & Hcount & _)".
  unfold ZEND_MM_FREE_BLOCK_SIZE. hload "Hs". iApply hwp_bind.
  iAssert (∀ c, ⌜c = Z.of_nat (length (filter is_large (rest ++ [(b, n)])))⌝ -∗ rest_count heap ↦ c -∗
    (∃ v, prev_free_block b ↦ v) -∗ (∃ v, next_free_block b ↦ v) -∗ rest_block (b, n) -∗
    hwp (prev ← load (rest_buckets heap 0); next ← load (next_free_block prev); link_between b prev next) Q)%I
    with "[HQ Hring HH Hbm Hlbm Hsm Hlg Hblocks Hs]" as "Hgo".
  { iIntros (c ->) "Hcount [%v1 Hp] [%v2 Hn] Hblock". destruct rest_words as [-> _].
    iDestruct (ring_links with "Hring") as "(Hp' & Hn' & Hring)". hload "Hp'". iSpecialize ("Hring" with "Hp' Hn'").
    destruct (ring_back (ZEND_MM_REST_BUCKET heap) (rest.*1)) as [l0 El]. rewrite El. rewrite ring_snoc.
    iDestruct (ring_links with "Hring") as "(Hp' & Hn' & Hring)". hload "Hn'". iSpecialize ("Hring" with "Hp' Hn'").
    iApply (hwp_link with "Hp Hn Hring"). iIntros "Hring". iApply "HQ". iExists (rest ++ [(b, n)]), sm, lg, bm, lbm.
    iFrame "Hbm Hlbm Hsm Hlg". iDestruct (sizes_add with "HH Hs") as "$". iSplit; [iPureIntro; by apply free_ok_add_rest|].
    rewrite rest_ring_eq. iFrame "Hcount". rewrite big_sepL_snoc. iFrame. iSplit.
    - rewrite fmap_app. cbn. rewrite app_comm_cons El. rewrite -app_assoc. cbn [app]. rewrite (ring_app l0). done.
    - iPureIntro. pose proof (count_large rest [] b n) as E. rewrite app_nil_r in E. rewrite E. destruct (ZEND_MM_SMALL_SIZE n); lia. }
  pose proof (count_large rest [] b n) as E. rewrite app_nil_r in E. rewrite E.
  destruct (ZEND_MM_SMALL_SIZE n) eqn:Es; cbn [negb].
  - rewrite rest_block_small; [|done]. iApply hwp_ret. rewrite small_region; [|lia]. iDestruct "Hreg" as "(Hp & Hn & Hreg)". iApply ("Hgo" with "[] Hcount Hp Hn Hreg").
    iPureIntro. lia.
  - rewrite rest_block_large; [|done]. apply not_small in Es. rewrite node_region; [|lia]. iDestruct "Hreg" as "(Hp & Hn & [%v Hpa] & H0 & H1 & Hreg)".
    hstore "Hpa". hload "Hcount". iApply (hwp_store with "Hcount"). iIntros "Hcount".
    iApply ("Hgo" with "[] Hcount Hp Hn [$Hpa H0 H1 Hreg]").
    + iPureIntro. rewrite wrap_s_small; lia.
    + rewrite sib_region; [|lia]. iFrame.
Qed.
End free.
