(* ===== verification/ZendAllocSearch.v ===== *)
(** * ZendAllocSearch: finding a free block

    The searches of the allocator return a free block that is large enough, or nothing. *)
From S2P Require Import Prelude Memory HeapProp ZendAlloc ZendAllocBits ZendAllocRing ZendAllocTree ZendAllocLarge ZendAllocFree ZendAllocOps.
From iris.proofmode Require Import proofmode.
From stdpp Require Import list gmap.
Local Open Scope Z_scope.

(** ** Nodes of a tree *)

Definition sub (t' t : tree) : Prop := exists c, t = plug c t'.

Fixpoint plug_ctx (c d : ctx) : ctx :=
  match c with
  | Here => d
  | InL b sibs n c r => InL b sibs n (plug_ctx c d) r
  | InR b sibs n l c => InR b sibs n l (plug_ctx c d)
  end.

Lemma plug_plug c d t : plug (plug_ctx c d) t = plug c (plug d t).
Proof. induction c as [|b sibs n c IH r|b sibs n l c IH]; simpl; congruence. Qed.

#[global] Instance sub_preorder : PreOrder sub.
Proof. split; [by exists Here|]. intros t1 t2 t3 [c ->] [d ->]. exists (plug_ctx d c). by rewrite plug_plug. Qed.

Lemma sub_left b sibs n l r t : sub (Node b sibs n l r) t -> sub l t.
Proof. intros Ht. etrans; [|exact Ht]. by exists (InL b sibs n Here r). Qed.

Lemma sub_right b sibs n l r t : sub (Node b sibs n l r) t -> sub r t.
Proof. intros Ht. etrans; [|exact Ht]. by exists (InR b sibs n l Here). Qed.

Fixpoint height (t : tree) : nat :=
  match t with
  | Nil => 0
  | Node _ _ _ l r => S (height l `max` height r)
  end.

Lemma height_bound H lo k t : tree_ok H lo k t -> Z.of_nat (height t) <= Z.max 0 (k + 1).
Proof.
  revert lo k. induction t as [|b sibs n l IHl r IHr]; intros lo k Hok; [simpl; lia|].
  pose proof (tree_node_k _ _ _ _ _ _ _ _ Hok) as Hk. destruct Hok as (_ & _ & Hl & Hr). cbn [height].
  specialize (IHl _ _ Hl). specialize (IHr _ _ Hr). lia.
Qed.

Lemma sub_nil t : sub Nil t.
Proof. induction t as [|b sibs n l IHl r IHr]; [by exists Here|]. etrans; [exact IHl|]. by eapply sub_left. Qed.

Lemma height_sub t' t : sub t' t -> (height t' <= height t)%nat.
Proof. intros [c ->]. induction c as [|b sibs n c IH r|b sibs n l c IH]; simpl; lia. Qed.

(** A free block of at least the size. *)
Definition fits (H : gmap Z Z) (size r : Z) : Prop := exists n, H !! r = Some n /\ size <= n.

Lemma sub_node H lo k b sibs n l r t : tree_ok H lo k t -> sub (Node b sibs n l r) t ->
  lo <= n /\ forall x, x ∈ b :: sibs -> x <> NULL /\ H !! x = Some n.
Proof.
  intros Hok [c ->]. revert lo k Hok. induction c as [|b' s' n' c IH r'|b' s' n' l' c IH]; intros lo k (Hn & Hf & Hl & Hr).
  - split; [lia|]. intros x Hx. rewrite Forall_forall in Hf. destruct (Hf x Hx). split; [unfold NULL; lia|done].
  - destruct (IH _ _ Hl). done.
  - destruct (IH _ _ Hr) as [Hlo ?]. split; [|done]. pose proof (Z.pow_nonneg 2 (k - 1) ltac:(lia)). lia.
Qed.

Lemma sub_null H lo k t' t : tree_ok H lo k t -> sub t' t -> (root t' =? NULL) = is_nil t'.
Proof.
  intros Hok Ht. destruct t' as [|b sibs n l r]; [done|]. apply Z.eqb_neq.
  destruct (sub_node _ _ _ _ _ _ _ _ _ Hok Ht) as [_ Hx]. apply Hx. set_solver.
Qed.

(** The words of a node that the searches read. *)
Lemma read_node H lo k pp b sibs n l r t : tree_ok H lo k t -> 1 < pp -> sub (Node b sibs n l r) t ->
  ttree pp t -∗ child b 0 ↦ root l ∗ child b 1 ↦ root r ∗ next_free_block b ↦ List.hd b sibs ∗
  (child b 0 ↦ root l -∗ child b 1 ↦ root r -∗ next_free_block b ↦ List.hd b sibs -∗ ttree pp t).
Proof.
  iIntros (Hok Hpp [c ->]) "Ht". iDestruct (ttree_focus with "Ht") as (pp') "(_ & Ht & Hback)"; [done..|].
  rewrite ttree_node. iDestruct "Ht" as "(Hp & Hpa & Hring & Hreg & Hsibs & Hl & Hr)".
  iDestruct (ttree_root with "Hl") as "[$ Hl]". iDestruct (ttree_root with "Hr") as "[$ Hr]".
  iDestruct (ring_links with "Hring") as "(Hrp & $ & Hring)". iIntros "Hc0 Hc1 Hn". iApply "Hback". rewrite ttree_node.
  iSpecialize ("Hl" with "Hc0"). iSpecialize ("Hr" with "Hc1"). iSpecialize ("Hring" with "Hrp Hn"). iFrame.
Qed.

Section search.
Context (H : gmap Z Z) (lo k pp size : Z) (t : tree) (Hok : tree_ok H lo k t) (Hpp : 1 < pp).

(** A node of the tree whose blocks are large enough. *)
Definition good (x : Z) : Prop := exists sibs n l r, sub (Node x sibs n l r) t /\ size <= n.

Lemma hd_fits b sibs n l r : sub (Node b sibs n l r) t -> size <= n -> fits H size (List.hd b sibs).
Proof.
  intros Hs Hn. destruct (sub_node _ _ _ _ _ _ _ _ _ Hok Hs) as [_ Hx]. exists n. split; [|done]. apply Hx. destruct sibs; set_solver.
Qed.

(** The blocks a node stands for are read from its ring. *)
Lemma hwp_next_good x Q : good x ->
  ttree pp t -∗ (∀ y, ⌜fits H size y⌝ -∗ ttree pp t -∗ Q y) -∗ hwp (load (next_free_block x)) Q.
Proof.
  iIntros ((sibs & n & l & r & Hs & Hn)) "Ht HQ". iDestruct (read_node with "Ht") as "(Hc0 & Hc1 & Hnx & Ht)"; [done..|].
  iApply (hwp_load with "Hnx"). iIntros "Hnx". iApply ("HQ" with "[] [-]"); [iPureIntro; by eapply hd_fits|].
  iApply ("Ht" with "Hc0 Hc1 Hnx").
Qed.

Lemma hwp_search_loop fuel p t' m rst best_fit best_size Q :
  sub t' t -> p = root t' -> t' <> Nil -> (height t' <= fuel)%nat ->
  (exists t2, sub t2 t /\ rst = root t2) -> (best_fit = NULL \/ good best_fit) ->
  sizes H -∗ ttree pp t -∗
  (∀ res, ⌜match res with
           | inl y => fits H size y
           | inr (rst, best_fit, _) => (exists t2, sub t2 t /\ rst = root t2) /\ (best_fit = NULL \/ good best_fit)
           end⌝ -∗ sizes H -∗ ttree pp t -∗ Q res) -∗
  hwp (search_loop fuel size p m rst best_fit best_size) Q.
Proof.
  iIntros (Hs -> Hne Hf Hrst Hbest) "HH Ht HQ".
  iInduction fuel as [|fuel] "IH" forall (t' m rst best_fit best_size Hs Hne Hf Hrst Hbest); [destruct t'; simpl in Hf; [done|lia]|].
  destruct t' as [|b sibs n l r]; [done|]. cbn [search_loop root]. destruct (sub_node _ _ _ _ _ _ _ _ _ Hok Hs) as [_ Hx].
  iApply (hwp_free_size with "HH"); [apply Hx; set_solver|]. iIntros "HH".
  iDestruct (read_node with "Ht") as "(Hc0 & Hc1 & Hnx & Ht)"; [done..|].
  destruct (Z.eqb_spec n size) as [->|Hnsz].
  { hload "Hnx". iApply hwp_ret. iApply ("HQ" with "[] HH"); [iPureIntro; by eapply hd_fits|]. iApply ("Ht" with "Hc0 Hc1 Hnx"). }
  destruct (if (size <=? n) && (n <? best_size) then (b, n) else (best_fit, best_size)) as [bf bs] eqn:E.
  assert (bf = NULL \/ good bf) as Hbest'.
  { destruct (Z.leb_spec size n); cbn [andb] in E; [|by injection E as <- <-]. destruct (n <? best_size); injection E as <- <-; [|done].
    right. by exists sibs, n, l, r. }
  clear E Hbest. hload "Hc1".
  pose proof (sub_left _ _ _ _ _ _ Hs) as Hsl. pose proof (sub_right _ _ _ _ _ _ Hs) as Hsr. cbn [height] in Hf.
  rewrite (sub_null _ _ _ _ _ Hok Hsr). destruct (Z.land m _ =? 0).
  - hload "Hc0". rewrite (sub_null _ _ _ _ _ Hok Hsl). iSpecialize ("Ht" with "Hc0 Hc1 Hnx").
    assert (exists t2, sub t2 t /\ (if is_nil r then rst else root r) = root t2) as Hrst'.
    { destruct (is_nil r); [done|]. by exists r. }
    destruct (is_nil l) eqn:El; [iApply hwp_ret; by iApply ("HQ" with "[] HH Ht")|].
    iApply ("IH" $! l with "[] [] [] [] [] HH Ht HQ"); iPureIntro; try done; [by intros ->|lia].
  - iSpecialize ("Ht" with "Hc0 Hc1 Hnx"). destruct (is_nil r) eqn:Er; [iApply hwp_ret; by iApply ("HQ" with "[] HH Ht")|].
    iApply ("IH" $! r with "[] [] [] [] [] HH Ht HQ"); iPureIntro; try done; [by intros ->|lia].
Qed.

Lemma hwp_rest_loop fuel p t' best_fit best_size Q :
  sub t' t -> p = root t' -> (height t' < fuel)%nat -> (best_fit = NULL \/ good best_fit) ->
  sizes H -∗ ttree pp t -∗
  (∀ res, ⌜match res with inl y => fits H size y | inr best_fit => best_fit = NULL \/ good best_fit end⌝ -∗
     sizes H -∗ ttree pp t -∗ Q res) -∗
  hwp (rest_loop fuel size p best_fit best_size) Q.
Proof.
  iIntros (Hs -> Hf Hbest) "HH Ht HQ".
  iInduction fuel as [|fuel] "IH" forall (t' best_fit best_size Hs Hf Hbest); [lia|].
  cbn [rest_loop]. rewrite (sub_null _ _ _ _ _ Hok Hs). destruct t' as [|b sibs n l r]; cbn [is_nil root].
  { iApply hwp_ret. by iApply ("HQ" with "[] HH Ht"). }
  destruct (sub_node _ _ _ _ _ _ _ _ _ Hok Hs) as [_ Hx].
  iApply (hwp_free_size with "HH"); [apply Hx; set_solver|]. iIntros "HH".
  iDestruct (read_node with "Ht") as "(Hc0 & Hc1 & Hnx & Ht)"; [done..|].
  destruct (Z.eqb_spec n size) as [->|Hnsz].
  { hload "Hnx". iApply hwp_ret. iApply ("HQ" with "[] HH"); [iPureIntro; by eapply hd_fits|]. iApply ("Ht" with "Hc0 Hc1 Hnx"). }
  destruct (if (size <? n) && (n <? best_size) then (b, n) else (best_fit, best_size)) as [bf bs] eqn:E.
  assert (bf = NULL \/ good bf) as Hbest'.
  { destruct (Z.ltb_spec size n); cbn [andb] in E; [|by injection E as <- <-]. destruct (n <? best_size); injection E as <- <-; [|done].
    right. exists sibs, n, l, r. split; [done|lia]. }
  clear E Hbest. pose proof (sub_left _ _ _ _ _ _ Hs) as Hsl. pose proof (sub_right _ _ _ _ _ _ Hs) as Hsr. cbn [height] in Hf.
  hload "Hc0". rewrite (sub_null _ _ _ _ _ Hok Hsl). destruct (is_nil l).
  - hload "Hc0". iSpecialize ("Ht" with "Hc0 Hc1 Hnx"). iApply ("IH" $! l with "[] [] [] HH Ht HQ"); iPureIntro; [done|lia|done].
  - hload "Hc1". iSpecialize ("Ht" with "Hc0 Hc1 Hnx"). iApply ("IH" $! r with "[] [] [] HH Ht HQ"); iPureIntro; [done|lia|done].
Qed.

Lemma hwp_smallest_loop fuel p best_fit t' Q :
  sub t' t -> p = root t' -> t' <> Nil -> (height t' <= fuel)%nat -> size <= lo -> good best_fit ->
  sizes H -∗ ttree pp t -∗ (∀ y, ⌜good y⌝ -∗ sizes H -∗ ttree pp t -∗ Q y) -∗
  hwp (smallest_loop fuel p best_fit) Q.
Proof.
  iIntros (Hs -> Hne Hf Hsize Hbest) "HH Ht HQ".
  iInduction fuel as [|fuel] "IH" forall (t' best_fit Hs Hne Hf Hbest); [destruct t'; simpl in Hf; [done|lia]|].
  cbn [smallest_loop]. destruct t' as [|b sibs n l r]; [done|]. clear Hne. cbn [root height] in *.
  iDestruct (read_node with "Ht") as "(Hc0 & Hc1 & Hnx & Ht)"; [done..|].
  hload "Hc0". rewrite (sub_null _ _ _ _ _ Hok (sub_left _ _ _ _ _ _ Hs)).
  iAssert (∀ t1, ⌜sub t1 t⌝ -∗ ⌜(height t1 <= fuel)%nat⌝ -∗ ttree pp t -∗
    hwp (if root t1 =? NULL then mret best_fit else
           s ← ZEND_MM_FREE_BLOCK_SIZE (root t1); t ← ZEND_MM_FREE_BLOCK_SIZE best_fit;
           smallest_loop fuel (root t1) (if s <? t then root t1 else best_fit)) Q)%I with "[HH HQ]" as "Hgo".
  { iIntros (t1 Hs1 Hf1) "Ht". rewrite (sub_null _ _ _ _ _ Hok Hs1). destruct t1 as [|b1 sibs1 n1 l1 r1]; cbn [is_nil root].
    { iApply hwp_ret. by iApply ("HQ" with "[] HH Ht"). }
    destruct (sub_node _ _ _ _ _ _ _ _ _ Hok Hs1) as [Hlo1 Hx1]. destruct (Hbest) as (bsibs & bn & bl & br & Hbs & Hbn).
    destruct (sub_node _ _ _ _ _ _ _ _ _ Hok Hbs) as [_ Hbx].
    iApply (hwp_free_size with "HH"); [apply Hx1; set_solver|]. iIntros "HH".
    iApply (hwp_free_size with "HH"); [apply Hbx; set_solver|]. iIntros "HH".
    iApply ("IH" $! (Node b1 sibs1 n1 l1 r1) with "[] [] [] [] HH Ht HQ"); iPureIntro; try done.
    destruct (n1 <? bn); [|done]. exists sibs1, n1, l1, r1. split; [done|lia]. }
  destruct (is_nil l).
  - hload "Hc0". iApply ("Hgo" $! l with "[] [] [-]"); [iPureIntro; by eapply sub_left|iPureIntro; lia|iApply ("Ht" with "Hc0 Hc1 Hnx")].
  - hload "Hc1". iApply ("Hgo" $! r with "[] [] [-]"); [iPureIntro; by eapply sub_right|iPureIntro; lia|iApply ("Ht" with "Hc0 Hc1 Hnx")].
Qed.
End search.

Section free.
Context (heap : Z) (Hheap : 0 <= heap).

(** What the searches give. *)
Definition found (H : gmap Z Z) (size r : Z) : Prop := r = NULL \/ fits H size r.

(** A tree among the free blocks, to be read. *)
Lemma fs_tree sm lg rest bm lbm i t : lg !! i = Some t ->
  fs_parts heap sm lg rest bm lbm -∗ large_free_bitmap heap ↦ lbm ∗ bucket_tree heap (Z.of_nat i) t ∗
  (large_free_bitmap heap ↦ lbm -∗ bucket_tree heap (Z.of_nat i) t -∗ fs_parts heap sm lg rest bm lbm).
Proof.
  iIntros (Hi) "(Hbm & $ & Hsm & Hlg & Hrest)". iDestruct (big_sepL_lookup_acc with "Hlg") as "[$ Hlg]"; [done|].
  iIntros "Hlbm Ht". iFrame. by iApply "Hlg".
Qed.

Lemma fs_intro H sm lg rest bm lbm : free_ok H sm lg rest bm lbm ->
  sizes H -∗ fs_parts heap sm lg rest bm lbm -∗ fs heap H.
Proof. iIntros (Hok) "HH Hparts". iExists rest, sm, lg, bm, lbm. by iFrame. Qed.

Lemma hwp_search_smallest H sm lg rest bm lbm index bitmap size Q :
  free_ok H sm lg rest bm lbm -> 0 <= index -> bitmap = Z.shiftr lbm index -> bitmap <> 0 ->
  (forall j, index <= j -> Z.testbit lbm j = true -> size <= 2 ^ j) ->
  sizes H -∗ fs_parts heap sm lg rest bm lbm -∗ (∀ y, ⌜found H size y⌝ -∗ fs heap H -∗ Q y) -∗
  hwp (search_smallest heap index bitmap) Q.
Proof.
  iIntros (Hok Hi -> Hbm Hsize) "HH Hparts HQ". unfold search_smallest. pose proof (free_lbm _ _ _ _ _ _ Hok) as Hlbm.
  assert (0 < Z.shiftr lbm index < 2 ^ 64) as Hr.
  { assert (0 <= Z.shiftr lbm index) by (apply Z.shiftr_nonneg; lia). split; [lia|]. rewrite Z.shiftr_div_pow2; [|done].
    apply Z.div_lt_upper_bound; [apply Z.pow_pos_nonneg; lia|]. pose proof (Z.pow_pos_nonneg 2 index). nia. }
  destruct (zend_mm_low_bit_spec _ Hr) as (Hlow & Hbit & _). set (j := zend_mm_low_bit _) in *.
  rewrite Z.shiftr_spec in Hbit; [|lia]. rewrite (Z.add_comm j) in Hbit.
  assert (index + j < 64) as Hj. { destruct (decide (index + j < 64)); [done|]. rewrite bits_high in Hbit; [done|done|lia]. }
  assert (exists t, lg !! Z.to_nat (index + j) = Some t) as [t Ht]. { apply lookup_lt_is_Some. rewrite (free_lg_len _ _ _ _ _ _ Hok). lia. }
  pose proof (free_lg _ _ _ _ _ _ Hok _ _ Ht) as Hokt. pose proof (free_lbm_bits _ _ _ _ _ _ Hok _ _ Ht) as Hnil.
  iDestruct (fs_tree with "Hparts") as "(Hlbm & Ht & HF)"; [done|]. rewrite Z2Nat.id in Hokt Hnil |- *; [|lia..].
  rewrite Hbit in Hnil. iDestruct (ttree_root with "Ht") as "[Hc Ht]". hload "Hc". iSpecialize ("Ht" with "Hc").
  destruct t as [|b sibs n l r]; [done|]. pose proof (height_bound _ _ _ _ Hokt) as Hh.
  assert (1 < large_free_buckets heap (index + j)) as Hpp by (apply bucket_pointer; [done|lia]).
  assert (size <= 2 ^ (index + j)) as Hsz by (apply Hsize; [lia|done]).
  assert (good size (Node b sibs n l r) b) as Hgood. { exists sibs, n, l, r. split; [done|]. destruct Hokt as [? _]. lia. }
  iApply hwp_bind. iApply (hwp_smallest_loop _ _ _ _ size with "HH Ht"); [exact Hokt|done|done|done|done|lia|done|done|].
  iIntros (y Hy) "HH Ht". iApply (hwp_next_good _ _ _ _ size with "Ht"); [exact Hokt|done|done|]. iIntros (z Hz) "Ht".
  iApply ("HQ" with "[] [-]"); [iPureIntro; by right|]. iApply (fs_intro with "HH"); [done|].
  iApply ("HF" with "Hlbm Ht").
Qed.

Lemma low_bit_test x : (Z.land x 1 =? 0) = negb (Z.testbit x 0).
Proof. change 1 with (Z.ones 1). rewrite Z.land_ones; [|done]. change (2 ^ 1) with 2. rewrite -Z.bit0_mod. by destruct (Z.testbit x 0). Qed.

Lemma hwp_search_large_block H size Q : 0 < size < 2 ^ 64 ->
  fs heap H -∗ (∀ y, ⌜found H size y⌝ -∗ fs heap H -∗ Q y) -∗ hwp (zend_mm_search_large_block heap size) Q.
Proof.
  iIntros (Hsize) "(%rest & %sm & %lg & %bm & %lbm & %Hok & HH & Hparts) HQ". unfold zend_mm_search_large_block, ZEND_MM_LARGE_BUCKET_INDEX.
  rewrite zend_mm_high_bit_log2; [|done]. set (index := Z.log2 size).
  assert (0 <= index < 64) as Hi. { split; [apply Z.log2_nonneg|]. apply Z.log2_lt_pow2; lia. }
  assert (size < 2 ^ (index + 1)) as Hlt. { pose proof (Z.log2_spec size ltac:(lia)) as [_ Hl]. by rewrite -Z.add_1_r in Hl. }
  assert (exists t, lg !! Z.to_nat index = Some t) as [t Ht]. { apply lookup_lt_is_Some. rewrite (free_lg_len _ _ _ _ _ _ Hok). lia. }
  assert (forall j, index + 1 <= j -> size <= 2 ^ j) as Hup. { intros j Hj. pose proof (Z.pow_le_mono_r 2 (index + 1) j). lia. }
  iDestruct (fs_tree with "Hparts") as "(Hlbm & Ht & HF)"; [done|]. hload "Hlbm".
  destruct (Z.eqb_spec (Z.shiftr lbm index) 0) as [_|Hbm].
  { iApply hwp_ret. iApply ("HQ" with "[] [-]"); [iPureIntro; by left|]. iApply (fs_intro with "HH"); [done|]. iApply ("HF" with "Hlbm Ht"). }
  rewrite low_bit_test Z.shiftr_spec; [|done]. rewrite Z.add_0_l negb_involutive.
  pose proof (free_lg _ _ _ _ _ _ Hok _ _ Ht) as Hokt. pose proof (free_lbm_bits _ _ _ _ _ _ Hok _ _ Ht) as Hnil.
  rewrite Z2Nat.id in Hokt Hnil |- *; [|lia..].
  destruct (Z.testbit lbm index) eqn:Hbit.
  2:{ iDestruct ("HF" with "Hlbm Ht") as "Hparts". iApply (hwp_search_smallest with "HH Hparts HQ"); [done|lia|done|done|].
      intros j Hj Hjb. apply Hup. destruct (decide (j = index)) as [->|]; [congruence|lia]. }
  iDestruct (ttree_root with "Ht") as "[Hc Ht]". hload "Hc". iSpecialize ("Ht" with "Hc").
  destruct t as [|b sibs n l r]; [done|]. pose proof (height_bound _ _ _ _ Hokt) as Hh.
  assert (1 < large_free_buckets heap index) as Hpp by (apply bucket_pointer; [done|lia]).
  iApply hwp_bind. iApply (hwp_search_loop _ _ _ _ size _ Hokt Hpp with "HH Ht"); [done..|lia| |by left|].
  { exists Nil. split; [apply sub_nil|done]. }
  iIntros (res Hres) "HH Ht". destruct res as [y|[[rst bf] bs]].
  { iApply hwp_ret. iApply ("HQ" with "[] [-]"); [iPureIntro; by right|]. iApply (fs_intro with "HH"); [done|]. iApply ("HF" with "Hlbm Ht"). }
  destruct Hres as [(t2 & Ht2 & ->) Hbf]. pose proof (height_sub _ _ Ht2) as Hh2. iApply hwp_bind.
  iApply (hwp_rest_loop _ _ _ _ size _ Hokt Hpp with "HH Ht"); [done..|lia|done|].
  iIntros (res Hres) "HH Ht". destruct res as [y|bf'].
  { iApply hwp_ret. iApply ("HQ" with "[] [-]"); [iPureIntro; by right|]. iApply (fs_intro with "HH"); [done|]. iApply ("HF" with "Hlbm Ht"). }
  destruct (Z.eqb_spec bf' NULL) as [_|Hnn]; cbn [negb].
  - iDestruct ("HF" with "Hlbm Ht") as "Hparts". rewrite Z.shiftr_shiftr; [|done]. destruct (Z.eqb_spec (Z.shiftr lbm (index + 1)) 0) as [_|Hbm2].
    + iApply hwp_ret. iApply ("HQ" with "[] [-]"); [iPureIntro; by left|]. iApply (fs_intro with "HH Hparts"). done.
    + iApply (hwp_search_smallest with "HH Hparts HQ"); [done|lia|done|done|]. intros j Hj _. by apply Hup.
  - destruct Hres as [?|Hg]; [done|]. iApply (hwp_next_good _ _ _ _ size _ Hokt Hpp with "Ht"); [done|]. iIntros (z Hz) "Ht".
    iApply ("HQ" with "[] [-]"); [iPureIntro; by right|]. iApply (fs_intro with "HH"); [done|]. iApply ("HF" with "Hlbm Ht").
Qed.

(** ** The search through the rest blocks *)

Lemma fsr_walk rest H : fsr heap rest H -∗ ⌜forall b n, (b, n) ∈ rest -> H !! b = Some n⌝ ∗
  ring (ZEND_MM_REST_BUCKET heap :: rest.*1) ∗ sizes H ∗
  (ring (ZEND_MM_REST_BUCKET heap :: rest.*1) -∗ sizes H -∗ fs heap H).
Proof.
  iIntros "(%sm & %lg & %bm & %lbm & %Hok & HH & Hbm & Hlbm & Hsm & Hlg & Hring & Hrest)". iFrame "Hring HH".
  iSplit; [iPureIntro; intros; by eapply free_rest|]. iIntros "Hring HH". iExists rest, sm, lg, bm, lbm. iFrame. done.
Qed.

Lemma hwp_rest_search fuel H rest1 l2 size best_fit best_size Q :
  (length rest1 < fuel)%nat -> (forall b n, (b, n) ∈ rest1 -> H !! b = Some n) -> found H size best_fit ->
  ring (ZEND_MM_REST_BUCKET heap :: rest1.*1 ++ l2) -∗ sizes H -∗
  (∀ y, ⌜found H size y⌝ -∗ ring (ZEND_MM_REST_BUCKET heap :: rest1.*1 ++ l2) -∗ sizes H -∗ Q y) -∗
  hwp (rest_search heap fuel (List.last (rest1.*1) (ZEND_MM_REST_BUCKET heap)) size best_fit best_size) Q.
Proof.
  iIntros (Hf Hin Hbest) "Hring HH HQ".
  iInduction fuel as [|fuel] "IH" forall (rest1 l2 best_fit best_size Hf Hin Hbest); [lia|]. cbn [rest_search].
  destruct rest1 as [|[b n] rest1 _] using rev_ind.
  { cbn. rewrite Z.eqb_refl. iApply hwp_ret. by iApply ("HQ" with "[] Hring HH"). }
  rewrite fmap_app fmap_cons fmap_nil. cbn [fst]. rewrite last_snoc_any. iDestruct (ring_notin with "Hring") as %Hnot.
  rewrite (proj2 (Z.eqb_neq _ _)).
  2:{ intros ->. apply Hnot. set_solver. }
  assert (H !! b = Some n) as Hb by (apply Hin; set_solver).
  iApply (hwp_free_size with "HH"); [done|]. iIntros "HH".
  destruct (Z.eqb_spec n size) as [->|_].
  { iApply hwp_ret. iApply ("HQ" with "[] Hring HH"). iPureIntro. right. exists size. split; [done|lia]. }
  destruct (if (size <? n) && (n <? best_size) then (b, n) else (best_fit, best_size)) as [bf bs] eqn:E.
  assert (found H size bf) as Hbf.
  { destruct (Z.ltb_spec size n); cbn [andb] in E; [|by injection E as <- <-]. destruct (n <? best_size); injection E as <- <-; [|done].
    right. exists n. split; [done|lia]. }
  rewrite -app_assoc. cbn [app]. iEval (rewrite (app_comm_cons (rest1.*1)) ring_focus) in "Hring".
  iDestruct (ring_links with "Hring") as "(Hp & Hn & Hring)". iAssert (prev_free_block b ↦ List.last (rest1.*1) (ZEND_MM_REST_BUCKET heap))%I with "[Hp]" as "Hp".
  { by rewrite last_app_ne last_cons_any. }
  hload "Hp". iSpecialize ("Hring" with "[Hp] Hn"); [by rewrite last_app_ne last_cons_any|]. iEval (rewrite -ring_focus) in "Hring".
  iApply ("IH" $! rest1 (b :: l2) bf bs with "[] [] [] [Hring] HH"); try done.
  - iPureIntro. rewrite length_app in Hf. simpl in Hf. lia.
  - iPureIntro. intros b' n' Hb'. apply Hin. set_solver.
Qed.

(** The first part of the search, up to the block at the end of the list. *)
Lemma hwp_search_rest H size Q : fs heap H -∗ (∀ y, ⌜found H size y⌝ -∗ fs heap H -∗ Q y) -∗
  hwp (n ← bound; p ← load (rest_buckets heap 0); rest_search heap n p size NULL (2 ^ 64 - 1)) Q.
Proof.
  iIntros "[%rest HF] HQ". iApply hwp_bind. iApply (hwp_rest_bound with "HF"). iIntros (n Hn) "HF".
  iDestruct (fsr_walk with "HF") as "(%Hin & Hring & HH & Hback)". destruct (rest_words heap) as [-> _].
  iDestruct (ring_links with "Hring") as "(Hp & Hn & Hring)". hload "Hp". iSpecialize ("Hring" with "Hp Hn").
  iApply (hwp_rest_search _ H rest [] with "[Hring] HH"); [done|done|by left|by rewrite app_nil_r|]. rewrite app_nil_r. iIntros (y Hy) "Hring HH".
  iApply ("HQ" with "[//]"). iApply ("Hback" with "Hring HH").
Qed.
End free.
