(* ===== verification/ZendAllocLayout.v ===== *)
(** * ZendAllocLayout: segments and the blocks in them

    A segment is a header, a row of blocks without gaps and a guard at the end.  The header of a
    block repeats the size and the type of the block before it.  The rows of all segments say
    where every block is; during an operation the row has a gap where the block it works on
    was. *)
From S2P Require Import Prelude Memory HeapProp ZendAlloc ZendAllocOps ZendAllocBits ZendAllocRing ZendAllocTree ZendAllocFree.
From iris.proofmode Require Import proofmode.
From stdpp Require Import list gmap.
Local Open Scope Z_scope.

(** ** Blocks *)

(** Whether a block is used, and its size. *)
Abbreviation blk := (bool * Z)%type.

Definition tag (b : blk) : Z := Z.lor (if b.1 then ZEND_MM_USED_BLOCK else ZEND_MM_FREE_BLOCK) b.2.

Definition blk_ok (b : blk) : Prop := 32 <= b.2 /\ b.2 mod 8 = 0.

Lemma tag_spec b : blk_ok b -> tag b = b.2 + (if b.1 then 1 else 0).
Proof.
  destruct b as [u n]. intros [Hn H8]. cbn [fst snd] in *. unfold tag, ZEND_MM_USED_BLOCK, ZEND_MM_FREE_BLOCK. cbn [fst snd].
  destruct u; [|rewrite Z.lor_0_l; lia]. rewrite Z.lor_comm. rewrite -Z.add_lor_land.
  enough (Z.land n 1 = 0) by lia. change 1 with (Z.ones 1). rewrite Z.land_ones; [|done]. Z.to_euclidean_division_equations. lia.
Qed.

Lemma low_bits x k : 0 <= k -> Z.land x (2 ^ k - 1) = x mod 2 ^ k.
Proof. intros Hk. rewrite -Z.land_ones; [|done]. by rewrite Z.ones_equiv Z.sub_1_r. Qed.

Lemma ldiff_low x k : 0 <= k -> Z.ldiff x (2 ^ k - 1) = x - x mod 2 ^ k.
Proof.
  intros Hk. replace (2 ^ k - 1) with (Z.ones k) by (rewrite Z.ones_equiv; lia). rewrite Z.ldiff_ones_r; [|done].
  rewrite Z.shiftl_mul_pow2; [|done]. rewrite Z.shiftr_div_pow2; [|done]. rewrite Z.mul_comm.
  pose proof (Z.div_mod x (2 ^ k)). pose proof (Z.pow_pos_nonneg 2 k). lia.
Qed.

(** What the macros read from a header word. *)
Lemma tag_size b : blk_ok b -> Z.ldiff (tag b) ZEND_MM_TYPE_MASK = b.2.
Proof.
  intros Hb. rewrite tag_spec; [|done]. destruct Hb as [H1 H2]. change ZEND_MM_TYPE_MASK with (2 ^ 2 - 1). rewrite ldiff_low; [|done].
  change (2 ^ 2) with 4. destruct b.1; Z.to_euclidean_division_equations; lia.
Qed.

Lemma tag_free b : blk_ok b -> (Z.land (tag b) ZEND_MM_USED_BLOCK =? 0) = negb b.1.
Proof.
  intros Hb. rewrite tag_spec; [|done]. destruct Hb as [H1 H2]. change ZEND_MM_USED_BLOCK with (2 ^ 1 - 1). rewrite low_bits; [|done].
  change (2 ^ 1) with 2. destruct b.1; cbn [negb]; [apply Z.eqb_neq|apply Z.eqb_eq]; Z.to_euclidean_division_equations; lia.
Qed.

Lemma tag_guard b : blk_ok b -> (Z.land (tag b) ZEND_MM_TYPE_MASK =? ZEND_MM_GUARD_BLOCK) = false.
Proof.
  intros Hb. rewrite tag_spec; [|done]. destruct Hb as [H1 H2]. change ZEND_MM_TYPE_MASK with (2 ^ 2 - 1). rewrite low_bits; [|done].
  change (2 ^ 2) with 4. unfold ZEND_MM_GUARD_BLOCK. apply Z.eqb_neq. destruct b.1; Z.to_euclidean_division_equations; lia.
Qed.

Lemma tag_first b : blk_ok b -> (tag b =? ZEND_MM_GUARD_BLOCK) = false.
Proof. intros Hb. rewrite tag_spec; [|done]. destruct Hb as [H1 _]. unfold ZEND_MM_GUARD_BLOCK. apply Z.eqb_neq. destruct b.1; lia. Qed.

(** The header word of the guard. *)
Definition guard_word : Z := Z.lor ZEND_MM_GUARD_BLOCK ZEND_MM_ALIGNED_HEADER_SIZE.

(** ** Rows of blocks *)

Fixpoint row_size (l : list blk) : Z := match l with [] => 0 | b :: l => b.2 + row_size l end.

Definition endtag (pv : Z) (l : list blk) : Z := match last l with Some b => tag b | None => pv end.

Lemma row_size_app l1 l2 : row_size (l1 ++ l2) = row_size l1 + row_size l2.
Proof. induction l1 as [|b l1 IH]; simpl; lia. Qed.

Lemma row_size_nonneg l : Forall blk_ok l -> 0 <= row_size l.
Proof. induction 1 as [|b l [Hb _] _ IH]; simpl; lia. Qed.

Lemma endtag_cons pv b l : endtag pv (b :: l) = endtag (tag b) l.
Proof. unfold endtag. rewrite last_cons. by destruct (last l). Qed.

Lemma endtag_snoc pv l b : endtag pv (l ++ [b]) = tag b.
Proof. unfold endtag. by rewrite last_snoc. Qed.

(** The size word of a free block is with the free blocks. *)
Definition hdr (a : Z) (b : blk) : hprop := (if b.1 then b_size a ↦ tag b else emp)%I.

(** The headers of the blocks [l] from [a] on, behind a block with the header word [pv]. *)
Fixpoint links (a pv : Z) (l : list blk) : hprop :=
  match l with
  | [] => emp
  | b :: l => b_prev a ↦ pv ∗ hdr a b ∗ links (a + b.2) (tag b) l
  end.

(** The same up to the end of the segment, without what the first header says of the block
    before it. *)
Fixpoint row_tail (a : Z) (l : list blk) : hprop :=
  match l with
  | [] => b_size a ↦ guard_word
  | b :: l => hdr a b ∗ b_prev (a + b.2) ↦ tag b ∗ row_tail (a + b.2) l
  end.

Arguments hdr : simpl never.
Arguments links : simpl never.
Arguments row_tail : simpl never.

Lemma links_cons a pv b l : links a pv (b :: l) ⊣⊢ b_prev a ↦ pv ∗ hdr a b ∗ links (a + b.2) (tag b) l.
Proof. done. Qed.

Lemma tail_cons a b l : row_tail a (b :: l) ⊣⊢ hdr a b ∗ b_prev (a + b.2) ↦ tag b ∗ row_tail (a + b.2) l.
Proof. done. Qed.

Lemma tail_nil a : row_tail a [] ⊣⊢ b_size a ↦ guard_word.
Proof. done. Qed.

Lemma links_app a pv l1 l2 : links a pv (l1 ++ l2) ⊣⊢ links a pv l1 ∗ links (a + row_size l1) (endtag pv l1) l2.
Proof.
  revert a pv. induction l1 as [|b l1 IH]; intros a pv; simpl app.
  - rewrite /links -/links /= /endtag /=. rewrite left_id. by rewrite Z.add_0_r.
  - rewrite !links_cons IH endtag_cons. simpl row_size. rewrite Z.add_assoc. by rewrite -!bi.sep_assoc.
Qed.

Lemma links_snoc a pv l b : links a pv (l ++ [b]) ⊣⊢ links a pv l ∗ b_prev (a + row_size l) ↦ endtag pv l ∗ hdr (a + row_size l) b.
Proof. rewrite links_app links_cons. rewrite /links /=. by rewrite right_id. Qed.

(** A row is a row up to a place and one from there. *)
Lemma tail_split a l1 l2 pv : b_prev a ↦ pv ∗ row_tail a (l1 ++ l2) ⊣⊢
  links a pv l1 ∗ b_prev (a + row_size l1) ↦ endtag pv l1 ∗ row_tail (a + row_size l1) l2.
Proof.
  revert a pv. induction l1 as [|b l1 IH]; intros a pv; simpl app.
  - rewrite /links -/links /= /endtag /=. rewrite left_id. by rewrite Z.add_0_r.
  - rewrite tail_cons links_cons endtag_cons. simpl row_size. rewrite Z.add_assoc -!bi.sep_assoc. by rewrite IH.
Qed.

(** The places and sizes of the used blocks of a row, or of the free ones. *)
Fixpoint select (u : bool) (a : Z) (l : list blk) : list (Z * Z) :=
  match l with
  | [] => []
  | b :: l => (if eqb b.1 u then [(a, b.2)] else []) ++ select u (a + b.2) l
  end.

Lemma select_app u a l1 l2 : select u a (l1 ++ l2) = select u a l1 ++ select u (a + row_size l1) l2.
Proof.
  revert a. induction l1 as [|b l1 IH]; intros a; simpl; [by rewrite Z.add_0_r|]. rewrite IH -app_assoc. by rewrite Z.add_assoc.
Qed.

Lemma select_elem u a l x n : (x, n) ∈ select u a l -> exists l1 l2, l = l1 ++ (u, n) :: l2 /\ x = a + row_size l1.
Proof.
  revert a. induction l as [|[k m] l IH]; intros a; simpl; [by intros ?%elem_of_nil|]. intros [Hx|Hx]%elem_of_app.
  - destruct (eqb_spec k u) as [->|]; [|by apply elem_of_nil in Hx]. apply list_elem_of_singleton in Hx as [= -> ->].
    exists [], l. split; [done|simpl; lia].
  - destruct (IH _ Hx) as (l1 & l2 & -> & ->). exists ((k, m) :: l1), l2. split; [done|simpl; lia].
Qed.

(** Every block has a word of its own, which says what is before it. *)
Definition places (l : list (Z * Z)) : hprop := [∗ list] x ∈ l, ∃ v, b_prev x.1 ↦ v.

Lemma places_nil : ⊢ places [].
Proof. by rewrite /places. Qed.

Lemma places_app l1 l2 : places (l1 ++ l2) ⊣⊢ places l1 ∗ places l2.
Proof. apply big_sepL_app. Qed.

Lemma places_notin x v l : b_prev x ↦ v -∗ places l -∗ ⌜x ∉ l.*1⌝.
Proof.
  iIntros "Hx Hl". iInduction l as [|[y n] l] "IH"; [iPureIntro; apply not_elem_of_nil|].
  rewrite /places big_sepL_cons. iDestruct "Hl" as "[[%w Hy] Hl]". cbn [fst fmap list_fmap].
  iDestruct (pointsto_ne with "Hx Hy") as %Hne. iDestruct ("IH" with "Hx Hl") as %Hl. iPureIntro.
  apply not_elem_of_cons. split; [|done]. intros ->. done.
Qed.

Lemma select_places u a pv b : b_prev a ↦ pv -∗ places (if eqb b.1 u then [(a, b.2)] else []).
Proof. iIntros "H". unfold places. destruct (eqb b.1 u); [rewrite big_sepL_singleton; by iExists pv|done]. Qed.

Lemma links_places u a pv l : links a pv l -∗ places (select u a l).
Proof.
  iIntros "H". iInduction l as [|b l] "IH" forall (a pv); [iApply places_nil|]. rewrite links_cons. iDestruct "H" as "(Hp & _ & Hl)".
  cbn [select]. rewrite places_app. iSplitL "Hp"; [by iApply select_places|]. iApply ("IH" with "Hl").
Qed.

Lemma tail_places u a pv l : b_prev a ↦ pv -∗ row_tail a l -∗ places (select u a l).
Proof.
  iIntros "Hp H". iInduction l as [|b l] "IH" forall (a pv); [iApply places_nil|]. rewrite tail_cons. iDestruct "H" as "(_ & Hp' & Hl)".
  cbn [select]. rewrite places_app. iSplitL "Hp"; [by iApply select_places|]. iApply ("IH" with "Hp' Hl").
Qed.

(** ** Segments *)

(** The address of a segment and the row of its blocks. *)
Abbreviation sgm := (Z * list blk)%type.

Definition row_ok (s size : Z) : Prop := 0 < s /\ s mod 8 = 0 /\ 32 + size < 2 ^ 64.

Definition sgm_ok (sg : sgm) : Prop := row_ok sg.1 (row_size sg.2) /\ Forall blk_ok sg.2 /\ sg.2 <> [].

Definition seg (sg : sgm) : hprop :=
  seg_size sg.1 ↦ (32 + row_size sg.2) ∗ b_prev (sg.1 + 16) ↦ ZEND_MM_GUARD_BLOCK ∗ row_tail (sg.1 + 16) sg.2.

(** The list of the segments. *)
Fixpoint segl (p : Z) (ss : list Z) : hprop :=
  match ss with
  | [] => p ↦ NULL
  | s :: ss => p ↦ s ∗ segl (next_segment s) ss
  end.

Arguments segl : simpl never.

Lemma segl_cons p s ss : segl p (s :: ss) ⊣⊢ p ↦ s ∗ segl (next_segment s) ss.
Proof. done. Qed.

Lemma segl_nil p : segl p [] ⊣⊢ p ↦ NULL.
Proof. done. Qed.

Fixpoint selects (u : bool) (segs : list sgm) : list (Z * Z) :=
  match segs with
  | [] => []
  | sg :: segs => select u (sg.1 + 16) sg.2 ++ selects u segs
  end.

Lemma selects_app u segs1 segs2 : selects u (segs1 ++ segs2) = selects u segs1 ++ selects u segs2.
Proof. induction segs1 as [|sg segs1 IH]; simpl; [done|]. by rewrite IH app_assoc. Qed.

Definition seg_total (segs : list sgm) : Z := foldr (fun sg n => 32 + row_size sg.2 + n) 0 segs.

(** A row with a gap in it. *)
Record gctx := Gap { gsegs1 : list sgm; gseg : Z; gbefore : list blk; gafter : list blk; gsegs2 : list sgm }.

Definition gaddr (g : gctx) : Z := gseg g + 16 + row_size (gbefore g).

Definition gsize (g : gctx) (m : Z) : Z := row_size (gbefore g) + m + row_size (gafter g).

Definition gselect (u : bool) (g : gctx) (m : Z) : list (Z * Z) :=
  selects u (gsegs1 g) ++ select u (gseg g + 16) (gbefore g) ++ select u (gaddr g + m) (gafter g) ++ selects u (gsegs2 g).

Definition gap_ok (g : gctx) (m : Z) : Prop :=
  row_ok (gseg g) (gsize g m) /\ Forall blk_ok (gbefore g) /\ Forall blk_ok (gafter g) /\
  Forall sgm_ok (gsegs1 g) /\ Forall sgm_ok (gsegs2 g) /\ 0 <= m.

Definition fill (g : gctx) (l : list blk) : list sgm := gsegs1 g ++ (gseg g, gbefore g ++ l ++ gafter g) :: gsegs2 g.

Section layout.
Context (heap : Z).

Definition layout (segs : list sgm) : hprop :=
  ⌜Forall sgm_ok segs⌝ ∗ segl (segments_list heap) segs.*1 ∗ real_size heap ↦ u64 (seg_total segs) ∗ [∗ list] sg ∈ segs, seg sg.

(** The layout but for a gap of [m] bytes and the header word of the block behind it that
    describes the gap. *)
Definition gapped (g : gctx) (m : Z) : hprop :=
  ⌜gap_ok g m⌝ ∗ segl (segments_list heap) ((gsegs1 g).*1 ++ gseg g :: (gsegs2 g).*1) ∗
  real_size heap ↦ u64 (seg_total (gsegs1 g) + (32 + gsize g m) + seg_total (gsegs2 g)) ∗
  ([∗ list] sg ∈ gsegs1 g, seg sg) ∗ ([∗ list] sg ∈ gsegs2 g, seg sg) ∗
  seg_size (gseg g) ↦ (32 + gsize g m) ∗ links (gseg g + 16) ZEND_MM_GUARD_BLOCK (gbefore g) ∗
  b_prev (gaddr g) ↦ endtag ZEND_MM_GUARD_BLOCK (gbefore g) ∗ row_tail (gaddr g + m) (gafter g).

Lemma seg_total_app segs1 segs2 : seg_total (segs1 ++ segs2) = seg_total segs1 + seg_total segs2.
Proof. induction segs1 as [|sg segs1 IH]; simpl; lia. Qed.

(** Opening the row at a block and closing it with one. *)
Lemma fill_gapped g b : layout (fill g [b]) ⊣⊢
  ⌜blk_ok b⌝ ∗ gapped g b.2 ∗ hdr (gaddr g) b ∗ b_prev (gaddr g + b.2) ↦ tag b.
Proof.
  unfold layout, gapped, fill, gap_ok, sgm_ok, gsize, gaddr. rewrite !fmap_app fmap_cons big_sepL_app big_sepL_cons. cbn [fst snd].
  rewrite seg_total_app. cbn [seg_total foldr snd]. fold (seg_total (gsegs2 g)). unfold seg. cbn [fst snd]. rewrite !row_size_app. cbn [row_size].
  rewrite tail_split. cbn [app]. rewrite tail_cons.
  replace (row_size (gbefore g) + (b.2 + 0 + row_size (gafter g))) with (row_size (gbefore g) + b.2 + row_size (gafter g)) by lia.
  replace (row_size (gbefore g) + (b.2 + row_size (gafter g))) with (row_size (gbefore g) + b.2 + row_size (gafter g)) by lia.
  rewrite Z.add_assoc.
  iSplit.
  - iIntros "(%Hok & $ & $ & $ & ($ & $ & $ & $ & $ & $) & $)". iPureIntro. apply Forall_app in Hok as [H1 [[H2 H3] H4]%Forall_cons].
    cbn [fst snd] in H2, H3. destruct H3 as [H3 _]. apply Forall_app in H3 as [H3 [H5 H6]%Forall_cons]. rewrite !row_size_app in H2. cbn [row_size] in H2.
    destruct H5 as [H5 H5']. split_and!; try done; try lia. destruct H2 as (? & ? & ?). split_and!; [done|done|lia].
  - iIntros "(%Hb & (%Hg & $ & $ & $ & $ & $ & $ & $ & $) & $ & $)". iPureIntro. destruct Hg as (H1 & H2 & H3 & H4 & H5 & H6).
    apply Forall_app. split; [done|]. apply Forall_cons. split; [|done]. cbn [fst snd]. split.
    + rewrite !row_size_app. cbn [row_size]. destruct H1 as (? & ? & ?). split_and!; [done|done|lia].
    + rewrite Forall_app Forall_cons. split; [done|]. by destruct (gbefore g).
Qed.

Lemma fill_selects u g b : selects u (fill g [b]) ≡ₚ (if eqb b.1 u then [(gaddr g, b.2)] else []) ++ gselect u g b.2.
Proof.
  unfold fill, gselect. rewrite selects_app. cbn [selects fst snd]. rewrite !select_app. cbn [select row_size app]. unfold gaddr. rewrite Z.add_0_r app_nil_r. solve_Permutation.
Qed.

(** A block of the row is where a gap can be. *)
Lemma selects_fill u segs a n : (a, n) ∈ selects u segs -> exists g, segs = fill g [(u, n)] /\ gaddr g = a.
Proof.
  induction segs as [|[s l] segs IH]; simpl; [by intros ?%elem_of_nil|]. intros [Hx|Hx]%elem_of_app.
  - apply select_elem in Hx as (l1 & l2 & -> & ->). by exists (Gap [] s l1 l2 segs).
  - destruct (IH Hx) as (g & -> & <-). by exists (Gap ((s, l) :: gsegs1 g) (gseg g) (gbefore g) (gafter g) (gsegs2 g)).
Qed.

(** The gap and the block behind it. *)
Definition take_next (g : gctx) (l : list blk) : gctx := Gap (gsegs1 g) (gseg g) (gbefore g) l (gsegs2 g).

Lemma gapped_next g m b l : gafter g = b :: l -> gapped g m ⊣⊢
  ⌜blk_ok b /\ 0 <= m⌝ ∗ gapped (take_next g l) (m + b.2) ∗ hdr (gaddr g + m) b ∗ b_prev (gaddr g + m + b.2) ↦ tag b.
Proof.
  intros Hl. unfold gapped, gap_ok, gsize, gaddr. cbn [take_next gsegs1 gseg gbefore gafter gsegs2]. rewrite Hl tail_cons. cbn [row_size].
  replace (row_size (gbefore g) + m + (b.2 + row_size l)) with (row_size (gbefore g) + (m + b.2) + row_size l) by lia. rewrite !Z.add_assoc.
  iSplit.
  - iIntros "(%Hg & $ & $ & $ & $ & $ & $ & $ & $ & $ & $)". iPureIntro. destruct Hg as (H1 & H2 & [H3 H3']%Forall_cons & H4 & H5 & H6).
    destruct (H3). split_and!; try done; lia.
  - iIntros "([%Hb %Hm] & (%Hg & $ & $ & $ & $ & $ & $ & $ & $) & $ & $)". iPureIntro. destruct Hg as (H1 & H2 & H3 & H4 & H5 & H6).
    split_and!; try done. by apply Forall_cons.
Qed.

Lemma gselect_next u g m b l : gafter g = b :: l ->
  gselect u g m ≡ₚ (if eqb b.1 u then [(gaddr g + m, b.2)] else []) ++ gselect u (take_next g l) (m + b.2).
Proof. intros Hl. unfold gselect, gaddr. cbn [take_next gsegs1 gseg gbefore gafter gsegs2]. rewrite Hl. cbn [select]. rewrite !Z.add_assoc. solve_Permutation. Qed.

(** The gap and the block before it. *)
Definition take_prev (g : gctx) (l : list blk) : gctx := Gap (gsegs1 g) (gseg g) l (gafter g) (gsegs2 g).

Lemma gapped_prev g m b l : gbefore g = l ++ [b] -> gapped g m ⊣⊢
  ⌜blk_ok b /\ 0 <= m⌝ ∗ gapped (take_prev g l) (b.2 + m) ∗ hdr (gaddr g - b.2) b ∗ b_prev (gaddr g) ↦ tag b.
Proof.
  intros Hl. unfold gapped, gap_ok, gsize, gaddr. cbn [take_prev gsegs1 gseg gbefore gafter gsegs2]. rewrite Hl row_size_app links_snoc endtag_snoc. cbn [row_size].
  replace (row_size l + (b.2 + 0) + m + row_size (gafter g)) with (row_size l + (b.2 + m) + row_size (gafter g)) by lia.
  replace (gseg g + 16 + (row_size l + (b.2 + 0)) - b.2) with (gseg g + 16 + row_size l) by lia.
  replace (gseg g + 16 + (row_size l + (b.2 + 0)) + m) with (gseg g + 16 + row_size l + (b.2 + m)) by lia.
  iSplit.
  - iIntros "(%Hg & $ & $ & $ & $ & $ & ($ & $ & $) & $ & $)". iPureIntro. destruct Hg as (H1 & [H2 H2']%Forall_app & H3 & H4 & H5 & H6).
    apply Forall_cons in H2' as [H2' _]. destruct (H2'). split_and!; try done; lia.
  - iIntros "([%Hb %Hm] & (%Hg & $ & $ & $ & $ & $ & $ & $ & $) & $ & $)". iPureIntro. destruct Hg as (H1 & H2 & H3 & H4 & H5 & H6).
    split_and!; try done. rewrite Forall_app Forall_singleton. done.
Qed.

Lemma gselect_prev u g m b l : gbefore g = l ++ [b] ->
  gselect u g m ≡ₚ (if eqb b.1 u then [(gaddr g - b.2, b.2)] else []) ++ gselect u (take_prev g l) (b.2 + m).
Proof.
  intros Hl. unfold gselect, gaddr. cbn [take_prev gsegs1 gseg gbefore gafter gsegs2]. rewrite Hl select_app row_size_app. cbn [select row_size].
  replace (gseg g + 16 + (row_size l + (b.2 + 0)) - b.2) with (gseg g + 16 + row_size l) by lia.
  replace (gseg g + 16 + (row_size l + (b.2 + 0)) + m) with (gseg g + 16 + row_size l + (b.2 + m)) by lia. solve_Permutation.
Qed.

(** Putting a block at the start of the gap. *)
Definition put_first (g : gctx) (b : blk) : gctx := Gap (gsegs1 g) (gseg g) (gbefore g ++ [b]) (gafter g) (gsegs2 g).

Lemma put_first_addr g b : gaddr (put_first g b) = gaddr g + b.2.
Proof. unfold gaddr, put_first. cbn [gseg gbefore]. rewrite row_size_app. cbn [row_size]. lia. Qed.

Lemma put_first_prev g b : take_prev (put_first g b) (gbefore g) = g.
Proof. by destruct g. Qed.

Lemma gapped_put_first g b m : blk_ok b -> 0 <= m ->
  gapped g (b.2 + m) -∗ hdr (gaddr g) b -∗ b_prev (gaddr g + b.2) ↦ tag b -∗ gapped (put_first g b) m.
Proof.
  iIntros (Hb Hm) "Hg Hh Hp". rewrite (gapped_prev (put_first g b) m b (gbefore g)); [|done]. rewrite put_first_prev put_first_addr.
  replace (gaddr g + b.2 - b.2) with (gaddr g) by lia. by iFrame.
Qed.

Lemma gselect_put_first u g b m : gselect u (put_first g b) m ≡ₚ (if eqb b.1 u then [(gaddr g, b.2)] else []) ++ gselect u g (b.2 + m).
Proof.
  rewrite (gselect_prev u (put_first g b) m b (gbefore g)); [|done]. rewrite put_first_prev put_first_addr.
  by replace (gaddr g + b.2 - b.2) with (gaddr g) by lia.
Qed.

(** What is before the gap and behind it. *)
Lemma gap_prev_cases g : gbefore g = [] \/ exists l b, gbefore g = l ++ [b].
Proof. destruct (gbefore g) as [|b l _] using rev_ind; [by left|right; eauto]. Qed.

(** The place of the gap is not that of a block. *)
Lemma selects_places u segs : ([∗ list] sg ∈ segs, seg sg) -∗ places (selects u segs).
Proof.
  iIntros "H". iInduction segs as [|sg segs] "IH"; [iApply places_nil|]. rewrite big_sepL_cons. iDestruct "H" as "[(_ & Hp & Ht) H]".
  cbn [selects]. rewrite places_app. iSplitL "Hp Ht"; [by iApply (tail_places with "Hp Ht")|]. by iApply "IH".
Qed.

Lemma gapped_fresh u g m v : gapped g m -∗ b_prev (gaddr g + m) ↦ v -∗ ⌜gaddr g ∉ (gselect u g m).*1⌝.
Proof.
  iIntros "(_ & _ & _ & Hs1 & Hs2 & _ & Hl & Hp & Ht) Hv". iApply (places_notin with "Hp"). unfold gselect. rewrite !places_app.
  iDestruct (selects_places with "Hs1") as "$". iDestruct (selects_places with "Hs2") as "$".
  iDestruct (links_places with "Hl") as "$". iApply (tail_places with "Hv Ht").
Qed.

End layout.
