(* ===== verification/ZendAllocHole.v ===== *)
(** * ZendAllocHole: blocks taken out of their row and put back

    The rows of blocks together with the free blocks they contain.  An operation takes a block
    out, which leaves a hole with the memory of the block; the hole grows over free blocks on
    either side, and used or free blocks fill it again. *)
From S2P Require Import Prelude Memory HeapProp ZendAlloc ZendAllocOps ZendAllocBits ZendAllocRing ZendAllocTree ZendAllocFree ZendAllocLayout.
From iris.proofmode Require Import proofmode.
From stdpp Require Import list gmap.
Local Open Scope Z_scope.

Lemma region_words a n : region a n ⊣⊢ ∃ ws, ⌜(n = 8 * Z.of_nat (length ws))%Z⌝ ∗ words a ws.
Proof. done. Qed.

Lemma blk_ok_add m n : blk_ok (false, m) -> blk_ok (false, n) -> blk_ok (false, m + n).
Proof. intros [H1 H2] [H3 H4]. cbn [snd] in *. split; cbn [snd]; [lia|]. rewrite Z.add_mod; [|done]. by rewrite H2 H4. Qed.

Section hole.
Context (heap : Z) (Hheap : 0 <= heap).

(** The blocks of the heap: the free ones, and the used ones with their sizes. *)
Definition blocks (H : gmap Z Z) (used : list (Z * Z)) : hprop :=
  ∃ segs, layout heap segs ∗ fs heap H ∗ ⌜selects false segs ≡ₚ map_to_list H⌝ ∗ ⌜selects true segs ≡ₚ used⌝.

Definition gap (g : gctx) (m : Z) (H : gmap Z Z) (used : list (Z * Z)) : hprop :=
  gapped heap g m ∗ fs heap H ∗ ⌜gselect false g m ≡ₚ map_to_list H⌝ ∗ ⌜gselect true g m ≡ₚ used⌝.

(** A gap with the memory of its block, of which [ws] is the user data. *)
Definition hole (g : gctx) (m : Z) (H : gmap Z Z) (used : list (Z * Z)) (ws : list Z) : hprop :=
  gap g m H used ∗ ⌜blk_ok (false, m) /\ (m - 16 = 8 * Z.of_nat (length ws))%Z⌝ ∗ (∃ v, b_size (gaddr g) ↦ v) ∗
  words (gaddr g + 16) ws ∗ (∃ v, b_prev (gaddr g + m) ↦ v).

Lemma blocks_perm H used used' : used ≡ₚ used' -> blocks H used ⊢ blocks H used'.
Proof. iIntros (Hu) "(%segs & HL & HF & %Hf & %Ht)". iExists segs. iFrame. iPureIntro. by rewrite -Hu. Qed.

Lemma gap_perm g m H used used' : used ≡ₚ used' -> gap g m H used ⊢ gap g m H used'.
Proof. iIntros (Hu) "($ & $ & $ & %Ht)". iPureIntro. by rewrite -Hu. Qed.

(** *** Headers *)

Lemma fs_size H x n : H !! x = Some n -> fs heap H -∗ b_size x ↦ n ∗ (b_size x ↦ n -∗ fs heap H).
Proof.
  iIntros (Hx) "(%rest & %sm & %lg & %bm & %lbm & Hok & HH & Hparts)". unfold sizes.
  iDestruct (big_sepM_lookup_acc with "HH") as "[$ HH]"; [done|]. iIntros "Hb". iExists rest, sm, lg, bm, lbm. iFrame. by iApply "HH".
Qed.

Lemma free_in (l : list (Z * Z)) (H : gmap Z Z) a n : l ≡ₚ map_to_list H -> (a, n) ∈ l -> H !! a = Some n.
Proof. intros Hl Ha. rewrite Hl in Ha. by apply elem_of_map_to_list. Qed.

Lemma next_in u g m n l : gafter g = (u, n) :: l -> (gaddr g + m, n) ∈ gselect u g m.
Proof. intros Hl. rewrite gselect_next; [|done]. cbn [fst snd]. rewrite eqb_reflx. set_solver. Qed.

Lemma prev_in u g m n l : gbefore g = l ++ [(u, n)] -> (gaddr g - n, n) ∈ gselect u g m.
Proof. intros Hl. rewrite gselect_prev; [|done]. cbn [fst snd]. rewrite eqb_reflx. set_solver. Qed.

(** The header word of a block, used or free. *)
Lemma hdr_word H a b : blk_ok b -> (b.1 = false -> H !! a = Some b.2) ->
  hdr a b -∗ fs heap H -∗ b_size a ↦ tag b ∗ (b_size a ↦ tag b -∗ hdr a b ∗ fs heap H).
Proof.
  iIntros (Hb Ha) "Hh HF". unfold hdr. destruct b as [[|] n]; cbn [fst snd] in *.
  - iFrame. iIntros "$".
  - iDestruct (fs_size with "HF") as "[Hs HF]"; [by apply Ha|]. rewrite tag_spec; [|done]. cbn [fst snd]. rewrite Z.add_0_r. iFrame "Hs".
    iIntros "Hs". iDestruct ("HF" with "Hs") as "$".
Qed.

(** The word behind the gap. *)
Lemma gapped_word g m H : (forall n l, gafter g = (false, n) :: l -> H !! (gaddr g + m) = Some n) ->
  gapped heap g m -∗ fs heap H -∗ ∃ w, b_size (gaddr g + m) ↦ w ∗ (b_size (gaddr g + m) ↦ w -∗ gapped heap g m ∗ fs heap H) ∗
  ⌜match gafter g with [] => w = guard_word | b :: _ => w = tag b /\ blk_ok b end⌝.
Proof.
  iIntros (Hf) "Hg HF". destruct (gafter g) as [|b l] eqn:El.
  - iDestruct "Hg" as "(Hok & Hsl & Hrs & Hs1 & Hs2 & Hs & Hlinks & Hp & Htail)". rewrite El tail_nil. iExists guard_word. iFrame "Htail".
    iSplit; [|done]. iIntros "Htail". unfold gapped. rewrite El tail_nil. iFrame.
  - rewrite {1}(gapped_next heap g m _ _ El). iDestruct "Hg" as "([%Hb %Hm] & Hg & Hh & Hp)".
    iDestruct (hdr_word H with "Hh HF") as "[Hw Hback]"; [done| |].
    { intros Hb1. destruct b as [u n]. cbn in Hb1. subst u. by eapply Hf. }
    iExists (tag b). iFrame "Hw". iSplit; [|done]. iIntros "Hw". iDestruct ("Hback" with "Hw") as "[Hh HF]".
    rewrite (gapped_next _ _ _ _ _ El). iFrame. done.
Qed.

Lemma gap_next_word g m H used : gap g m H used -∗ ∃ w, b_size (gaddr g + m) ↦ w ∗ (b_size (gaddr g + m) ↦ w -∗ gap g m H used) ∗
  ⌜match gafter g with [] => w = guard_word | b :: _ => w = tag b /\ blk_ok b end⌝.
Proof.
  iIntros "(Hg & HF & %Hf & %Ht)". iDestruct (gapped_word with "Hg HF") as (w) "(Hw & Hback & %Hwd)".
  { intros n l El. eapply free_in; [exact Hf|by eapply next_in]. }
  iExists w. iFrame "Hw". iSplit; [|done]. iIntros "Hw". iDestruct ("Hback" with "Hw") as "[$ $]". done.
Qed.

(** The word before it. *)
Lemma gap_prev_word g m H used : gap g m H used -∗ b_prev (gaddr g) ↦ endtag ZEND_MM_GUARD_BLOCK (gbefore g) ∗
  (b_prev (gaddr g) ↦ endtag ZEND_MM_GUARD_BLOCK (gbefore g) -∗ gap g m H used).
Proof.
  iIntros "((Hok & Hsl & Hrs & Hs1 & Hs2 & Hs & Hlinks & $ & Htail) & HF & Hf & Ht)". iIntros "Hp". iFrame.
Qed.

Lemma gap_facts g m H used : gap g m H used -∗ ⌜gap_ok g m⌝.
Proof. iIntros "((Hok & _) & _)". done. Qed.

Lemma prev_ok g m l b : gap_ok g m -> gbefore g = l ++ [b] -> blk_ok b.
Proof. intros (_ & Hb & _) E. rewrite E Forall_app Forall_cons in Hb. by destruct Hb as [_ [? _]]. Qed.

Lemma next_ok g m l b : gap_ok g m -> gafter g = b :: l -> blk_ok b.
Proof. intros (_ & _ & Hb & _) E. rewrite E Forall_cons in Hb. by destruct Hb. Qed.

Lemma gap_block_ok g m : gap_ok g m -> blk_ok (false, m) -> block_ok (gaddr g) m.
Proof.
  intros ((H1 & H2 & H3) & Hb & Ha & _) [Hm H8]. cbn [fst snd] in *. pose proof (row_size_nonneg _ Hb). pose proof (row_size_nonneg _ Ha).
  unfold gsize in H3. unfold block_ok, gaddr. split_and!; lia.
Qed.

(** *** Used blocks *)

Lemma open_used H used a n : (a, n) ∈ used ->
  blocks H used -∗ ∃ g used', ⌜gaddr g = a /\ used ≡ₚ (a, n) :: used' /\ blk_ok (true, n)⌝ ∗ gap g n H used' ∗
    b_size a ↦ tag (true, n) ∗ b_prev (a + n) ↦ tag (true, n).
Proof.
  iIntros (Ha) "(%segs & HL & HF & %Hf & %Ht)". rewrite -Ht in Ha. apply selects_fill in Ha as (g & -> & <-).
  rewrite fill_gapped. iDestruct "HL" as "(%Hb & Hg & $ & $)". rewrite fill_selects in Hf. rewrite fill_selects in Ht. cbn [fst snd eqb app] in *.
  iExists g, (gselect true g n). iSplit; [done|]. iFrame. done.
Qed.

Lemma close_used g m H used : blk_ok (true, m) ->
  gap g m H used -∗ b_size (gaddr g) ↦ tag (true, m) -∗ b_prev (gaddr g + m) ↦ tag (true, m) -∗ blocks H ((gaddr g, m) :: used).
Proof.
  iIntros (Hb) "(Hg & HF & %Hf & %Ht) Hs Hp". iExists (fill g [(true, m)]). rewrite fill_gapped !fill_selects. cbn [fst snd eqb app].
  iFrame. iPureIntro. split_and!; [done|done|]. by rewrite Ht.
Qed.

Lemma used_word H used a n : (a, n) ∈ used ->
  blocks H used -∗ ⌜blk_ok (true, n)⌝ ∗ b_size a ↦ tag (true, n) ∗ (b_size a ↦ tag (true, n) -∗ blocks H used).
Proof.
  iIntros (Ha) "HB". iDestruct (open_used _ _ a n with "HB") as (g used') "((<- & %Hu & %Hb) & Hg & $ & Hp)"; [done|].
  iSplit; [done|]. iIntros "Hs". iDestruct (close_used with "Hg Hs Hp") as "HB"; [done|]. by iApply (blocks_perm with "HB").
Qed.

(** A place is that of one block only. *)
Lemma gap_fresh g m H used v : gap g m H used -∗ b_prev (gaddr g + m) ↦ v -∗ ⌜gaddr g ∉ used.*1 /\ H !! gaddr g = None⌝.
Proof.
  iIntros "(Hg & HF & %Hf & %Ht) Hv". iDestruct (gapped_fresh heap true with "Hg Hv") as %H1. iDestruct (gapped_fresh heap false with "Hg Hv") as %H2.
  iPureIntro. rewrite -Ht. split; [done|]. rewrite Hf in H2. apply eq_None_not_Some. intros [n Hn]. apply H2.
  apply list_elem_of_fmap. exists (gaddr g, n). split; [done|]. by apply elem_of_map_to_list.
Qed.

Lemma used_fresh H used a n : blocks H ((a, n) :: used) -∗ ⌜a ∉ used.*1⌝.
Proof.
  iIntros "HB". iDestruct (open_used _ _ a n with "HB") as (g used') "((<- & %Hu & _) & HG & _ & Hp)"; [set_solver|].
  apply Permutation_cons_inv in Hu. rewrite Hu. iDestruct (gap_fresh with "HG Hp") as %[? _]. done.
Qed.

(** *** Free blocks *)

Lemma hwp_take_free H used a n Q : H !! a = Some n ->
  blocks H used -∗
  (∀ g ws, ⌜gaddr g = a⌝ -∗ b_size a ↦ n -∗ (b_size a ↦ n -∗ hole g n (delete a H) used ws) -∗ Q tt) -∗
  hwp (zend_mm_remove_from_free_list heap a) Q.
Proof.
  iIntros (Ha) "(%segs & HL & HF & %Hf & %Ht) HQ". assert ((a, n) ∈ selects false segs) as Hin by (rewrite Hf; by apply elem_of_map_to_list).
  apply selects_fill in Hin as (g & -> & <-). rewrite fill_gapped. iDestruct "HL" as "(%Hb & Hg & _ & Hp)".
  rewrite fill_selects in Hf. rewrite fill_selects in Ht. cbn [fst snd eqb app] in *. iApply (hwp_remove_from_free_list with "HF"); [done..|].
  iIntros "HF Hs Hw". rewrite region_words. iDestruct "Hw" as "(%ws & %Hlen & Hw)". iApply ("HQ" $! g ws with "[//] Hs"). iIntros "Hs". unfold hole, gap. iFrame "Hg HF Hw".
  iSplit; [|iSplit; [done|iSplitL "Hs"; by iExists _]]. iPureIntro. split; [|done].
  apply (Permutation_cons_inv (a := (gaddr g, n))). rewrite Hf. symmetry. by apply map_to_list_delete.
Qed.

(** The two ways to put the block into a list. *)
Lemma hwp_add_to k H b n Q : block_ok b n ->
  fs heap H -∗ b_size b ↦ n -∗ region (b + 16) (n - 16) -∗ (fs heap (<[b := n]> H) -∗ Q tt) -∗ hwp (add_to heap k b) Q.
Proof. intros Hb. destruct k; [by apply hwp_add_to_rest_list|by apply hwp_add_to_free_list]. Qed.

Lemma hwp_give k g m H used ws Q : gap_ok g m -> blk_ok (false, m) -> m - 16 = 8 * Z.of_nat (length ws) ->
  gap g m H used -∗ b_size (gaddr g) ↦ tag (false, m) -∗ words (gaddr g + 16) ws -∗ b_prev (gaddr g + m) ↦ tag (false, m) -∗
  (∀ H', blocks H' used -∗ Q tt) -∗ hwp (add_to heap k (gaddr g)) Q.
Proof.
  iIntros (Hg Hm Hws) "HG Hs Hw Hp HQ". iDestruct (gap_fresh with "HG Hp") as %[_ Hfresh].
  iDestruct "HG" as "(HG & HF & %Hf & %Ht)". rewrite tag_spec; [|done]. cbn [fst snd]. rewrite Z.add_0_r.
  iApply (hwp_add_to with "HF Hs [Hw]"); [by apply gap_block_ok|rewrite region_words; by iExists ws; iFrame|].
  iIntros "HF". iApply "HQ". iExists (fill g [(false, m)]). rewrite fill_gapped !fill_selects. cbn [fst snd eqb app]. iFrame "HG HF".
  rewrite tag_spec; [|done]. cbn [fst snd]. rewrite Z.add_0_r. iFrame "Hp". iPureIntro. split; [done|]. split; [|done].
  rewrite map_to_list_insert; [|done]. by rewrite Hf.
Qed.

(** *** What the macros say of the neighbours *)

Definition next_free (g : gctx) : option Z := match gafter g with (false, n) :: _ => Some n | _ => None end.
Definition prev_free (g : gctx) : option Z := match last (gbefore g) with Some (false, n) => Some n | _ => None end.
Definition is_whole (g : gctx) : bool := match gbefore g, gafter g with [], [] => true | _, _ => false end.

Definition is_some {A} (o : option A) : bool := match o with Some _ => true | None => false end.

Lemma next_free_spec g n : next_free g = Some n -> exists l, gafter g = (false, n) :: l.
Proof. unfold next_free. destruct (gafter g) as [|[[|] k] l]; intros; simplify_eq; eauto. Qed.

Lemma prev_free_spec g n : prev_free g = Some n -> exists l, gbefore g = l ++ [(false, n)].
Proof.
  unfold prev_free. destruct (gbefore g) as [|b l _] using rev_ind; [done|]. rewrite last_snoc.
  destruct b as [[|] k]; intros; simplify_eq; eauto.
Qed.

Lemma hwp_next_is_free g m H used Q :
  gap g m H used -∗ (gap g m H used -∗ Q (is_some (next_free g))) -∗
  hwp (ZEND_MM_IS_FREE_BLOCK (gaddr g + m) ) Q.
Proof.
  iIntros "Hg HQ". iDestruct (gap_next_word with "Hg") as (w) "(Hw & Hg & %Hwd)". unfold ZEND_MM_IS_FREE_BLOCK.
  hload "Hw". iApply hwp_ret. iSpecialize ("Hg" with "Hw"). unfold next_free. destruct (gafter g) as [|[u n] l]; [subst w; by iApply "HQ"|].
  destruct Hwd as [-> Hb]. rewrite tag_free; [|done]. cbn [fst]. destruct u; by iApply "HQ".
Qed.

Lemma hwp_prev_is_free g m H used Q :
  gap g m H used -∗ (gap g m H used -∗ Q (is_some (prev_free g))) -∗
  hwp (ZEND_MM_PREV_BLOCK_IS_FREE (gaddr g) ) Q.
Proof.
  iIntros "Hg HQ". iDestruct (gap_facts with "Hg") as %Hok. iDestruct (gap_prev_word with "Hg") as "[Hw Hg]".
  unfold ZEND_MM_PREV_BLOCK_IS_FREE. hload "Hw". iApply hwp_ret. iSpecialize ("Hg" with "Hw"). unfold prev_free, endtag.
  destruct (gap_prev_cases g) as [E|(l & b & E)]; rewrite E; [by iApply "HQ"|]. rewrite last_snoc.
  rewrite tag_free; [|by eapply prev_ok]. destruct b as [[|] n]; by iApply "HQ".
Qed.

(** The block before the gap. *)
Lemma hwp_prev_block g m H used n l Q : gbefore g = l ++ [(false, n)] ->
  gap g m H used -∗ (gap g m H used -∗ Q (gaddr g - n)) -∗
  hwp (ZEND_MM_PREV_BLOCK (gaddr g) ) Q.
Proof.
  iIntros (E) "Hg HQ". iDestruct (gap_facts with "Hg") as %Hok. iDestruct (gap_prev_word with "Hg") as "[Hw Hg]".
  unfold ZEND_MM_PREV_BLOCK. hload "Hw". iApply hwp_ret. iSpecialize ("Hg" with "Hw"). rewrite E endtag_snoc.
  rewrite tag_size; [|by eapply prev_ok]. by iApply "HQ".
Qed.

Lemma hwp_is_first g m H used Q :
  gap g m H used -∗ (gap g m H used -∗ Q (match gbefore g with [] => true | _ => false end)) -∗
  hwp (ZEND_MM_IS_FIRST_BLOCK (gaddr g) ) Q.
Proof.
  iIntros "Hg HQ". iDestruct (gap_facts with "Hg") as %Hok. iDestruct (gap_prev_word with "Hg") as "[Hw Hg]".
  unfold ZEND_MM_IS_FIRST_BLOCK. hload "Hw". iApply hwp_ret. iSpecialize ("Hg" with "Hw").
  destruct (gap_prev_cases g) as [E|(l & b & E)]; [rewrite E; by iApply "HQ"|]. rewrite E endtag_snoc.
  rewrite tag_first; [|by eapply prev_ok]. by destruct l; iApply "HQ".
Qed.

Lemma hwp_is_guard g m H used Q :
  gap g m H used -∗ (gap g m H used -∗ Q (match gafter g with [] => true | _ => false end)) -∗
  hwp (ZEND_MM_IS_GUARD_BLOCK (gaddr g + m) ) Q.
Proof.
  iIntros "Hg HQ". iDestruct (gap_next_word with "Hg") as (w) "(Hw & Hg & %Hwd)". unfold ZEND_MM_IS_GUARD_BLOCK.
  hload "Hw". iApply hwp_ret. iSpecialize ("Hg" with "Hw"). destruct (gafter g) as [|b l]; [subst w; by iApply "HQ"|].
  destruct Hwd as [-> Hb]. rewrite tag_guard; [|done]. by iApply "HQ".
Qed.

(** What is behind the free block behind the gap. *)
Lemma hwp_is_guard_next g m H used n l Q : gafter g = (false, n) :: l ->
  gap g m H used -∗ (gap g m H used -∗ Q (match l with [] => true | _ => false end)) -∗
  hwp (ZEND_MM_IS_GUARD_BLOCK (gaddr g + m + n)) Q.
Proof.
  iIntros (El) "(HG & HF & %Hf & %Ht) HQ". rewrite {1}(gapped_next heap g m _ _ El). iDestruct "HG" as "(Hok & HG & Hh & Hp)". cbn [snd].
  iDestruct (gapped_word with "HG HF") as (w) "(Hw & Hback & %Hwd)".
  { intros k l' El'. cbn [gafter take_next] in El'. subst l.
    eapply free_in; [exact Hf|]. rewrite gselect_next; [|done]. apply elem_of_app. right. by eapply next_in. }
  unfold ZEND_MM_IS_GUARD_BLOCK. replace (gaddr (take_next g l) + (m + n)) with (gaddr g + m + n) by (unfold gaddr, take_next; cbn [gseg gbefore]; lia).
  hload "Hw". iApply hwp_ret. iDestruct ("Hback" with "Hw") as "[HG HF]". cbn [gafter take_next] in Hwd.
  iAssert (gap g m H used) with "[Hok HG HF Hh Hp]" as "HG".
  { unfold gap. iFrame "HF". iSplitL; [|done]. rewrite (gapped_next heap g m _ _ El). iFrame. }
  destruct l as [|b l]; [subst w; by iApply "HQ"|]. destruct Hwd as [-> Hb]. rewrite tag_guard; [|done]. by iApply "HQ".
Qed.

(** The free block at the place behind the gap. *)
Lemma gap_next_free g m H used n : H !! (gaddr g + m) = Some n -> gap g m H used -∗ ⌜next_free g = Some n⌝.
Proof.
  iIntros (Hn) "(HG & HF & %Hf & _)". iDestruct (fs_size with "HF") as "[Hs _]"; [done|]. unfold next_free.
  destruct (gafter g) as [|[[|] k] l] eqn:El.
  - iDestruct "HG" as "(_ & _ & _ & _ & _ & _ & _ & _ & Htail)". rewrite El tail_nil. by iDestruct (pointsto_ne with "Hs Htail") as %?.
  - rewrite gapped_next; [|done]. iDestruct "HG" as "(_ & _ & Hh & _)". unfold hdr. cbn [fst]. by iDestruct (pointsto_ne with "Hs Hh") as %?.
  - iPureIntro. assert (H !! (gaddr g + m) = Some k) as Hk; [|congruence]. eapply free_in; [exact Hf|by eapply next_in].
Qed.

Lemma hwp_is_whole_segment g m H used Q :
  gap g m H used -∗ (gap g m H used -∗ Q (is_whole g)) -∗ hwp (is_whole_segment (gaddr g) m) Q.
Proof.
  iIntros "Hg HQ". unfold is_whole_segment. iApply hwp_bind. iApply (hwp_is_first with "Hg"). iIntros "Hg". unfold is_whole.
  destruct (gbefore g) as [|b l]; [|iApply hwp_ret; by iApply "HQ"].
  iApply (hwp_is_guard with "Hg"). iIntros "Hg". by iApply "HQ".
Qed.

(** *** Growing the hole *)

Lemma words_join a c m n ws x y ws2 : c = a + m -> m - 16 = 8 * Z.of_nat (length ws) ->
  words (a + 16) ws -∗ b_size c ↦ x -∗ b_prev c ↦ y -∗ words (c + 16) ws2 -∗
  words (a + 16) (ws ++ x :: y :: ws2) ∗ ⌜(n - 16 = 8 * Z.of_nat (length ws2) -> m + n - 16 = 8 * Z.of_nat (length (ws ++ x :: y :: ws2)))%Z⌝.
Proof.
  iIntros (-> Hm) "Hw Hs Hp Hw2". rewrite words_app !words_cons. replace (a + 16 + 8 * Z.of_nat (length ws)) with (a + m) by lia.
  unfold b_size, b_prev. replace (a + m + 8 + 8) with (a + m + 16) by lia. iFrame. iPureIntro. rewrite length_app. simpl. lia.
Qed.

Lemma map_remove_select (l : list (Z * Z)) (H : gmap Z Z) a n :
  (a, n) :: l ≡ₚ map_to_list H -> H !! a = Some n /\ l ≡ₚ map_to_list (delete a H).
Proof.
  intros Hl. assert (H !! a = Some n) as Ha by (eapply free_in; [exact Hl|set_solver]). split; [done|].
  apply (Permutation_cons_inv (a := (a, n))). rewrite Hl. symmetry. by apply map_to_list_delete.
Qed.

(** The free block behind the gap leaves its list, its memory being apart from the gap's still. *)
Lemma hwp_detach_next g m H used n l Q : gafter g = (false, n) :: l ->
  gap g m H used -∗
  (∀ ws, ⌜blk_ok (false, n) /\ 0 <= m /\ (n - 16 = 8 * Z.of_nat (length ws))%Z⌝ -∗ gap (take_next g l) (m + n) (delete (gaddr g + m) H) used -∗
     b_size (gaddr g + m) ↦ n -∗ words (gaddr g + m + 16) ws -∗ b_prev (gaddr g + m + n) ↦ tag (false, n) -∗ Q tt) -∗
  hwp (zend_mm_remove_from_free_list heap (gaddr g + m)) Q.
Proof.
  iIntros (El) "(HG & HF & %Hf & %Ht) HQ". rewrite gapped_next; [|done].
  iDestruct "HG" as "([%Hb %Hm0] & HG & _ & Hp)". cbn [snd]. rewrite gselect_next in Hf; [|done]. rewrite gselect_next in Ht; [|done].
  cbn [fst snd eqb app] in Hf, Ht. apply map_remove_select in Hf as [Hn Hf].
  iApply (hwp_remove_from_free_list with "HF"); [done..|]. iIntros "HF Hs Hw". rewrite region_words. iDestruct "Hw" as "(%ws & %Hlen & Hw)".
  iApply ("HQ" $! ws with "[//] [HG HF] Hs Hw Hp"). unfold gap. iFrame. done.
Qed.

Lemma hwp_take_next g m H used ws n l Q : gafter g = (false, n) :: l ->
  hole g m H used ws -∗
  (∀ ws', b_size (gaddr g + m) ↦ n -∗
     (b_size (gaddr g + m) ↦ n -∗ hole (take_next g l) (m + n) (delete (gaddr g + m) H) used (ws ++ ws')) -∗ Q tt) -∗
  hwp (zend_mm_remove_from_free_list heap (gaddr g + m)) Q.
Proof.
  iIntros (El) "(HG & [%Hm %Hws] & Hs & Hw & [%v Hp]) HQ". iApply (hwp_detach_next with "HG"); [done|]. iIntros (ws2 (Hb & Hm0 & Hlen)) "HG Hs2 Hw2 Hp2".
  iApply ("HQ" $! (n :: v :: ws2) with "Hs2"). iIntros "Hs2". iDestruct (words_join _ _ _ n with "Hw Hs2 Hp Hw2") as "[Hw %Hlen2]"; [done..|].
  unfold hole. replace (gaddr (take_next g l)) with (gaddr g) by done. rewrite Z.add_assoc. iFrame "HG Hs Hw".
  iSplit; [|by iExists _]. iPureIntro. split; [|by apply Hlen2]. by apply blk_ok_add.
Qed.

Lemma hwp_take_prev g m H used ws n l Q : gbefore g = l ++ [(false, n)] ->
  hole g m H used ws -∗
  (∀ ws', b_size (gaddr g - n) ↦ n -∗
     (b_size (gaddr g - n) ↦ n -∗ hole (take_prev g l) (n + m) (delete (gaddr g - n) H) used ws') -∗ Q tt) -∗
  hwp (zend_mm_remove_from_free_list heap (gaddr g - n)) Q.
Proof.
  iIntros (El) "((HG & HF & %Hf & %Ht) & [%Hm %Hws] & [%u Hs] & Hw & Hp) HQ". rewrite gapped_prev; [|done].
  iDestruct "HG" as "([%Hb %Hm0] & HG & _ & Hp2)". cbn [snd]. rewrite gselect_prev in Hf; [|done]. rewrite gselect_prev in Ht; [|done].
  cbn [fst snd eqb app] in Hf, Ht. apply map_remove_select in Hf as [Hn Hf].
  iApply (hwp_remove_from_free_list with "HF"); [done..|]. iIntros "HF Hs2 Hw2". rewrite region_words. iDestruct "Hw2" as "(%ws2 & %Hlen & Hw2)".
  iApply ("HQ" $! (ws2 ++ u :: tag (false, n) :: ws) with "Hs2"). iIntros "Hs2".
  assert (gaddr (take_prev g l) = gaddr g - n) as Ea.
  { unfold gaddr, take_prev. cbn [gseg gbefore]. rewrite El row_size_app. cbn [row_size snd]. lia. }
  iDestruct (words_join (gaddr g - n) (gaddr g) n m with "Hw2 Hs Hp2 Hw") as "[Hw %Hlen2]"; [lia|done|].
  unfold hole, gap. rewrite Ea. replace (gaddr g - n + (n + m)) with (gaddr g + m) by lia. iFrame "HG HF Hw Hp".
  iSplit; [done|]. iSplit; [|by iExists _]. iPureIntro. split; [|by apply Hlen2]. by apply blk_ok_add.
Qed.

(** *** Filling the hole *)

Lemma hwp_block a ty n u v Q : b_size a ↦ u -∗ b_prev (a + n) ↦ v -∗
  (b_size a ↦ Z.lor ty n -∗ b_prev (a + n) ↦ Z.lor ty n -∗ Q tt) -∗ hwp (ZEND_MM_BLOCK a ty n) Q.
Proof. iIntros "Hs Hp HQ". unfold ZEND_MM_BLOCK. hstore "Hs". iApply (hwp_store with "Hp"). iIntros "Hp". iApply ("HQ" with "Hs Hp"). Qed.

(** The user data that is left when a block is cut. *)
Definition cut (n : Z) (ws : list Z) : list Z := take (Z.to_nat ((n - 16) / 8)) ws.

Lemma cut_length n ws : blk_ok (true, n) -> n - 16 <= 8 * Z.of_nat (length ws) -> n - 16 = 8 * Z.of_nat (length (cut n ws)).
Proof. intros [H1 H2] Hl. cbn [snd] in *. unfold cut. rewrite length_take. Z.to_euclidean_division_equations; lia. Qed.

Lemma cut_all n ws : n - 16 = 8 * Z.of_nat (length ws) -> cut n ws = ws.
Proof. intros Hn. unfold cut. apply take_ge. rewrite Hn Z.mul_comm Z.div_mul; lia. Qed.

Lemma words_cut a m n ws : blk_ok (true, n) -> n + 32 <= m -> m - 16 = 8 * Z.of_nat (length ws) ->
  words (a + 16) ws -∗ ∃ x y ws2, ⌜(m - n - 16 = 8 * Z.of_nat (length ws2))%Z⌝ ∗
    words (a + 16) (cut n ws) ∗ b_size (a + n) ↦ x ∗ b_prev (a + n) ↦ y ∗ words (a + n + 16) ws2.
Proof.
  iIntros (Hn Hm Hws) "Hw". pose proof (cut_length n ws Hn ltac:(lia)) as Hc.
  rewrite -{1}(take_drop (Z.to_nat ((n - 16) / 8)) ws). fold (cut n ws). rewrite words_app -Hc.
  iDestruct "Hw" as "[$ Hw]". pose proof (length_drop ws (Z.to_nat ((n - 16) / 8))) as Hd.
  assert (length (cut n ws) = Z.to_nat ((n - 16) / 8)) as Hk. { destruct Hn. cbn [snd] in *. Z.to_euclidean_division_equations; lia. }
  destruct (drop _ ws) as [|x [|y ws2]]; simpl in Hd; [lia..|]. iExists x, y, ws2. rewrite !words_cons.
  unfold b_size, b_prev. replace (a + 16 + (n - 16)) with (a + n) by lia. replace (a + n + 8 + 8) with (a + n + 16) by lia. iFrame.
  iPureIntro. lia.
Qed.

Lemma gap_put_first g n m H used : blk_ok (true, n) -> 0 <= m ->
  gap g (n + m) H used -∗ b_size (gaddr g) ↦ tag (true, n) -∗ b_prev (gaddr g + n) ↦ tag (true, n) -∗
  gap (put_first g (true, n)) m H ((gaddr g, n) :: used).
Proof.
  iIntros (Hn Hm) "(HG & HF & %Hf & %Ht) Hs Hp". unfold gap. iFrame "HF". iSplitL; [|iPureIntro; split].
  - by iApply (gapped_put_first heap g (true, n) m with "HG Hs Hp").
  - rewrite gselect_put_first. cbn [fst snd eqb app]. done.
  - rewrite gselect_put_first. cbn [fst snd eqb app]. by rewrite Ht.
Qed.

Lemma hwp_cut {A} (c : hcmd A) g m H used ws n Q : blk_ok (true, n) -> n + 32 <= m ->
  hole g m H used ws -∗
  (∀ ws', ⌜gaddr g ∉ used.*1⌝ -∗ ⌜blk_ok (false, m - n) /\ (m - n - 16 = 8 * Z.of_nat (length ws'))%Z⌝ -∗
     gap (put_first g (true, n)) (m - n) H ((gaddr g, n) :: used) -∗ b_size (gaddr g + n) ↦ tag (false, m - n) -∗
     words (gaddr g + n + 16) ws' -∗ b_prev (gaddr g + n + (m - n)) ↦ tag (false, m - n) -∗
     words (gaddr g + 16) (cut n ws) -∗ hwp c Q) -∗
  hwp (ZEND_MM_BLOCK (gaddr g) ZEND_MM_USED_BLOCK n ;; ZEND_MM_BLOCK (gaddr g + n) ZEND_MM_FREE_BLOCK (m - n) ;; c) Q.
Proof.
  iIntros (Hn Hm) "(HG & [%Hmb %Hws] & [%u Hs] & Hw & [%v Hp]) HQ". iDestruct (gap_fresh with "HG Hp") as %[Hfresh _].
  iDestruct (words_cut _ m n with "Hw") as (x y ws2) "(%Hlen & Hw & Hs2 & Hp2 & Hw2)"; [done..|].
  iApply hwp_bind. iApply (hwp_block with "Hs Hp2"). iIntros "Hs Hp2". iApply hwp_bind.
  replace (gaddr g + m) with (gaddr g + n + (m - n)) by lia.
  iApply (hwp_block with "Hs2 Hp"). iIntros "Hs2 Hp".
  assert (blk_ok (false, m - n)) as Hmn. { destruct Hn, Hmb. cbn [snd] in *. split; cbn [snd]; [lia|]. rewrite Zminus_mod. by rewrite H1 H3. }
  iApply ("HQ" $! ws2 with "[//] [//] [HG Hs Hp2] Hs2 Hw2 Hp Hw").
  iApply (gap_put_first with "[HG] Hs Hp2"); [done|destruct Hmn; cbn [snd] in *; lia|]. by replace (n + (m - n)) with m by lia.
Qed.

Lemma hole_facts g m H used ws : hole g m H used ws -∗
  ⌜gap_ok g m /\ block_ok (gaddr g) m /\ blk_ok (false, m) /\ (m - 16 = 8 * Z.of_nat (length ws))%Z⌝.
Proof.
  iIntros "(HG & [%Hmb %Hws] & _)". iDestruct (gap_facts with "HG") as %Hg. iPureIntro. split; [done|].
  split; [by apply gap_block_ok|done].
Qed.

(** What the rest of a block is given to. *)
Definition adds (add : Z -> hcmd unit) (g : gctx) (m n : Z) (used : list (Z * Z)) : hprop :=
  ∀ ws' H' Q', ⌜blk_ok (false, m - n) /\ (m - n - 16 = 8 * Z.of_nat (length ws'))%Z⌝ -∗
     gap (put_first g (true, n)) (m - n) H' ((gaddr g, n) :: used) -∗ b_size (gaddr g + n) ↦ tag (false, m - n) -∗
     words (gaddr g + n + 16) ws' -∗ b_prev (gaddr g + n + (m - n)) ↦ tag (false, m - n) -∗
     (∀ H'', blocks H'' ((gaddr g, n) :: used) -∗ Q' tt) -∗ hwp (add (gaddr g + n)) Q'.

Lemma adds_add_to k g m n used : ⊢ adds (add_to heap k) g m n used.
Proof.
  iIntros (ws' H' Q' [Hb Hws]) "HG Hs Hw Hp HQ". iDestruct (gap_facts with "HG") as %Hg.
  pose proof (put_first_addr g (true, n)) as Ea. cbn [snd] in Ea. rewrite -Ea. iApply (hwp_give with "HG Hs Hw Hp HQ"); done.
Qed.

Lemma hwp_split_block add g m H used ws n Q : blk_ok (true, n) -> n <= m ->
  hole g m H used ws -∗ adds add g m n used -∗
  (∀ k H', ⌜n <= k <= m /\ blk_ok (true, k) /\ gaddr g ∉ used.*1⌝ -∗ blocks H' ((gaddr g, k) :: used) -∗
     words (gaddr g + 16) (cut k ws) -∗ Q k) -∗
  hwp (split_block add (gaddr g) m n) Q.
Proof.
  iIntros (Hn Hm) "Hhole Hadd HQ". unfold split_block. iDestruct (hole_facts with "Hhole") as %(Hg & (_ & Hm64 & _) & Hmb & Hws).
  assert (u64 (m - n) = m - n) as ->. { apply Z.mod_small. destruct Hn. cbn [snd] in *. lia. }
  change ZEND_MM_ALIGNED_MIN_HEADER_SIZE with 32. destruct (Z.ltb_spec (m - n) 32) as [Hsmall|Hbig].
  - iDestruct "Hhole" as "(HG & _ & [%u Hs] & Hw & [%v Hp])". iDestruct (gap_fresh with "HG Hp") as %[Hfresh _].
    iApply hwp_bind. iApply (hwp_block with "Hs Hp"). iIntros "Hs Hp". iApply hwp_ret.
    iApply ("HQ" $! m H with "[] [HG Hs Hp] [Hw]").
    + iPureIntro. split_and!; try done; lia.
    + by iApply (close_used with "HG Hs Hp").
    + by rewrite cut_all.
  - iApply (hwp_cut with "Hhole"); [done|lia|]. iIntros (ws' Hfresh Hws') "HG Hs Hw2 Hp Hw". iApply hwp_bind.
    iApply ("Hadd" with "[//] HG Hs Hw2 Hp"). iIntros (H') "HB". iApply hwp_ret. iApply ("HQ" with "[] HB Hw"). iPureIntro.
    split_and!; try done; lia.
Qed.
End hole.
