(* ===== verification/ZendAllocSegment.v ===== *)
(** * ZendAllocSegment: segments come and go

    What the heap relies on in a storage, and the operations that get a segment from it or give
    one back. *)
From S2P Require Import Prelude Memory HeapProp ZendAlloc ZendAllocOps ZendAllocBits ZendAllocRing ZendAllocTree ZendAllocFree ZendAllocLayout ZendAllocHole.
From iris.proofmode Require Import proofmode.
From stdpp Require Import list gmap.
Local Open Scope Z_scope.

(** Where a storage can put a segment of [n] bytes. *)
Definition place_ok (p n : Z) : Prop := 0 < p /\ p mod 8 = 0 /\ n < 2 ^ 64.

(** The contract of [malloc] and [free], or of the functions for memory mappings: a request for
    [n] bytes fails only when [fails n]. *)
Class Storage (st : zend_mm_mem_handlers) (fails : Z -> Prop) : Prop := {
  alloc_spec n Q : 0 < n ->
    (∀ p, (⌜p = NULL /\ fails n⌝ ∨ ⌜place_ok p n⌝ ∗ region p n) -∗ Q p) ⊢ hwp (storage_alloc st n) Q;
  free_spec p n Q : region p n ∗ Q tt ⊢ hwp (storage_free st p) Q;
  dtor_spec Q : Q tt ⊢ hwp (storage_dtor st) Q;
  compact_spec Q : Q tt ⊢ hwp (storage_compact st) Q
}.

(** That of a [realloc] that can always make a segment larger. *)
Class Enlarges (st : zend_mm_mem_handlers) : Prop :=
  realloc_spec p n ws Q : 0 < n < 2 ^ 64 -> 8 * Z.of_nat (length ws) <= n -> n mod 8 = 0 ->
    words p ws ∗ (∀ q extra, ⌜place_ok q n /\ (8 * Z.of_nat (length (ws ++ extra)) = n)%Z⌝ -∗ words q (ws ++ extra) -∗ Q q)
    ⊢ hwp (storage_realloc st p n) Q.

Section segment.
Context (heap : Z) (Hheap : 0 <= heap) (st : zend_mm_mem_handlers) {fails : Z -> Prop} `{Hst : !Storage st fails}.

(** ** The list of segments *)

Lemma segl_head p ss : segl p ss -∗ p ↦ List.hd NULL ss ∗ (p ↦ List.hd NULL ss -∗ segl p ss).
Proof. destruct ss as [|s ss]; [rewrite segl_nil; iIntros "$"; by iIntros "$"|]. rewrite segl_cons. iIntros "[$ H] $". done. Qed.

Lemma segl_member p ss1 s ss2 : segl p (ss1 ++ s :: ss2) -∗ ∃ v, next_segment s ↦ v.
Proof.
  iIntros "H". iInduction ss1 as [|s1 ss1] "IH" forall (p); simpl app; rewrite segl_cons; iDestruct "H" as "[Hp H]".
  - iDestruct (segl_head with "H") as "[H _]". by iExists _.
  - by iApply "IH".
Qed.

(** The cell that holds the address of a segment. *)
Lemma hwp_find_segment fuel p ss1 s ss2 Q : (length ss1 < fuel)%nat ->
  segl p (ss1 ++ s :: ss2) -∗
  (∀ p', p' ↦ s -∗ segl (next_segment s) ss2 -∗ (∀ ss', segl p' ss' -∗ segl p (ss1 ++ ss')) -∗ Q p') -∗
  hwp (find_segment fuel p s) Q.
Proof.
  iIntros (Hf) "H HQ". iInduction fuel as [|fuel] "IH" forall (p ss1 Hf); [lia|]. cbn [find_segment].
  destruct ss1 as [|s1 ss1]; simpl app; rewrite segl_cons; iDestruct "H" as "[Hp H]"; hload "Hp".
  - rewrite Z.eqb_refl. iApply hwp_ret. iApply ("HQ" with "Hp H"). by iIntros (ss') "$".
  - destruct (Z.eqb_spec s1 s) as [->|Hne].
    { iExFalso. destruct ss1 as [|s1 ss1]; simpl app; rewrite segl_cons; iDestruct "H" as "[Hn H]".
      - iDestruct (segl_head with "H") as "[Hn' _]". by iDestruct (pointsto_ne with "Hn Hn'") as %?.
      - iDestruct (segl_member with "H") as (v) "Hn'". by iDestruct (pointsto_ne with "Hn Hn'") as %?. }
    iApply ("IH" with "[] H"); [iPureIntro; simpl in Hf; lia|]. iIntros (p') "Hp' H Hback". iApply ("HQ" with "Hp' H").
    iIntros (ss') "H". rewrite segl_cons. iFrame. by iApply "Hback".
Qed.

Lemma segl_cells p ss : segl p ss -∗ [∗ list] q ∈ p :: (next_segment <$> ss), ∃ v, q ↦ v.
Proof.
  iIntros "H". iInduction ss as [|s ss] "IH" forall (p).
  - rewrite segl_nil big_sepL_singleton. by iExists _.
  - rewrite segl_cons big_sepL_cons. iDestruct "H" as "[Hp H]". iSplitL "Hp"; [by iExists _|]. by iApply "IH".
Qed.

Lemma hwp_segl_bound p ss Q : segl p ss -∗ (∀ n, ⌜(length ss < n)%nat⌝ -∗ segl p ss -∗ Q n) -∗ hwp bound Q.
Proof.
  iIntros "H HQ". iApply (hwp_bound (p :: (next_segment <$> ss))). iSplit; [by iApply segl_cells|].
  iIntros (n Hn). iApply ("HQ" with "[] H"). iPureIntro. rewrite /= length_fmap in Hn. lia.
Qed.

(** ** A segment that is one free block *)

Lemma whole_spec g : is_whole g = true -> gbefore g = [] /\ gafter g = [].
Proof. unfold is_whole. by destruct (gbefore g), (gafter g). Qed.

(** The memory of a segment. *)
Lemma segment_region s m ws x y u v w z : m - 16 = 8 * Z.of_nat (length ws) ->
  seg_size s ↦ x -∗ next_segment s ↦ y -∗ b_size (s + 16) ↦ u -∗ b_prev (s + 16) ↦ v -∗ words (s + 16 + 16) ws -∗
  b_size (s + 16 + m) ↦ w -∗ b_prev (s + 16 + m) ↦ z -∗ region s (32 + m).
Proof.
  iIntros (Hm) "Hs Hn Hb Hp Hw Hg Hz". rewrite region_words. iExists ([x; y; u; v] ++ ws ++ [w; z]).
  rewrite !words_app !words_cons. unfold seg_size, next_segment, b_size, b_prev. rewrite /words !big_sepL_nil. simpl length.
  replace (s + 8 + 8) with (s + 16) by lia. replace (s + 16 + 8 + 8) with (s + 16 + 16) by lia.
  replace (s + 8 * Z.of_nat 4) with (s + 16 + 16) by lia. replace (s + 16 + 16 + 8 * Z.of_nat (length ws)) with (s + 16 + m) by lia.
  iFrame. iPureIntro. rewrite !length_app. simpl. lia.
Qed.

(** Another cell takes over the list. *)
Lemma segl_move p q ss : segl q ss -∗ p ↦ List.hd NULL ss -∗ segl p ss ∗ q ↦ List.hd NULL ss.
Proof. destruct ss as [|s ss]; [rewrite !segl_nil; iIntros "$ $"|]. rewrite !segl_cons. iIntros "[$ $] $". Qed.

Lemma hwp_del_segment g m H used ws Q : is_whole g = true ->
  hole heap g m H used ws -∗ (blocks heap H used -∗ Q tt) -∗
  hwp (zend_mm_del_segment heap st (gaddr g - ZEND_MM_ALIGNED_SEGMENT_SIZE)) Q.
Proof.
  iIntros (Hw) "((HG & HF & %Hf & %Ht) & [%Hm %Hws] & [%u Hb] & Hw & [%v Hp]) HQ". apply whole_spec in Hw as [E1 E2].
  unfold gapped, gaddr, gsize, gselect, gaddr in *. rewrite E1 E2 in Hf, Ht |- *. cbn [row_size select app] in Hf, Ht |- *.
  unfold links, endtag, last. cbn [row_size]. rewrite !Z.add_0_r. rewrite Z.add_0_l. rewrite tail_nil.
  iDestruct "HG" as "(%Hg & Hsl & Hrs & Hs1 & Hs2 & Hs & _ & Hp0 & Hguard)".
  destruct Hg as (_ & _ & _ & H4 & H5 & _). change ZEND_MM_ALIGNED_SEGMENT_SIZE with 16.
  replace (gseg g + 16 - 16) with (gseg g) by lia. unfold zend_mm_del_segment.
  iApply hwp_bind. iApply (hwp_segl_bound with "Hsl"). iIntros (n Hn) "Hsl". rewrite length_app in Hn.
  iApply hwp_bind. iApply (hwp_find_segment with "Hsl"); [lia|]. iIntros (p') "Hp' Hsl Hback".
  iDestruct (segl_head with "Hsl") as "[Hnx Hsl]". hload "Hnx". hstore "Hp'". hload "Hs". hload "Hrs". hstore "Hrs".
  iSpecialize ("Hsl" with "Hnx"). iDestruct (segl_move with "Hsl Hp'") as "[Hsl Hnx]".
  iApply free_spec. iSplitL "Hs Hnx Hb Hp0 Hw Hguard Hp".
  - iApply (segment_region with "Hs Hnx Hb Hp0 Hw Hguard Hp"). done.
  - iApply "HQ". iExists (gsegs1 g ++ gsegs2 g). iFrame "HF". rewrite !selects_app. iSplit; [|done].
    unfold layout. rewrite fmap_app big_sepL_app seg_total_app. iFrame "Hs1 Hs2". iSplit; [iPureIntro; by apply Forall_app|].
    iSplitL "Hback Hsl"; [by iApply "Hback"|]. rewrite /wrap_u Zminus_mod_idemp_l.
    by replace (seg_total (gsegs1 g) + (32 + m) + seg_total (gsegs2 g) - (32 + m)) with (seg_total (gsegs1 g) + seg_total (gsegs2 g)) by lia.
Qed.
End segment.
