(* ===== verification/ZendAllocHeap.v ===== *)
(** * ZendAllocHeap: the state of a heap, and release

    The blocks, the cache and the fields of a heap, with the blocks that callers own, and what
    [_zend_mm_free_int] and [zend_mm_free_cache] do to them. *)
From S2P Require Import Prelude Memory HeapProp ZendAlloc ZendAllocOps ZendAllocBits ZendAllocRing ZendAllocTree ZendAllocFree ZendAllocLayout ZendAllocHole ZendAllocSegment.
From iris.proofmode Require Import proofmode.
From stdpp Require Import list gmap.
Local Open Scope Z_scope.

(** ** The cache *)

(** The cached blocks of [n] bytes from [p] on. *)
Fixpoint clist (p n : Z) (l : list Z) : hprop :=
  match l with
  | [] => ⌜p = NULL⌝
  | x :: l => ⌜p = x /\ x <> NULL⌝ ∗ ∃ q, prev_free_block x ↦ q ∗ region (x + 24) (n - 24) ∗ clist q n l
  end.

Arguments clist : simpl never.

Lemma clist_cons p n x l : clist p n (x :: l) ⊣⊢ ⌜p = x /\ x <> NULL⌝ ∗ ∃ q, prev_free_block x ↦ q ∗ region (x + 24) (n - 24) ∗ clist q n l.
Proof. done. Qed.

Lemma clist_nil p n : clist p n [] ⊣⊢ ⌜p = NULL⌝.
Proof. done. Qed.

(** The size of the blocks in a list of the cache. *)
Definition csize (i : nat) : Z := 8 * Z.of_nat i + 32.

(** The cached blocks with their sizes, from the list [i] on. *)
Fixpoint cpairs_from (i : nat) (cs : list (list Z)) : list (Z * Z) :=
  match cs with
  | [] => []
  | l :: cs => ((fun x => (x, csize i)) <$> l) ++ cpairs_from (S i) cs
  end.

Definition cpairs (cs : list (list Z)) : list (Z * Z) := cpairs_from 0 cs.

Definition sum_sizes (l : list (Z * Z)) : Z := foldr (fun b n => b.2 + n) 0 l.

Lemma cpairs_from_add k cs i l l' x : cs !! i = Some l -> l' ≡ₚ x :: l ->
  cpairs_from k (<[i := l']> cs) ≡ₚ (x, csize (k + i)) :: cpairs_from k cs.
Proof.
  revert k i. induction cs as [|l0 cs IH]; intros k i Hi Hl; [done|]. destruct i as [|i]; simpl in Hi |- *.
  - injection Hi as ->. rewrite Hl Nat.add_0_r. done.
  - rewrite (IH (S k) i); [|done..]. replace (S k + i)%nat with (k + S i)%nat by lia. by rewrite Permutation_middle.
Qed.

Lemma cpairs_add cs i l l' x : cs !! i = Some l -> l' ≡ₚ x :: l -> cpairs (<[i := l']> cs) ≡ₚ (x, csize i) :: cpairs cs.
Proof. apply (cpairs_from_add 0). Qed.

Lemma cpairs_remove cs i l l' x : cs !! i = Some l -> l ≡ₚ x :: l' -> cpairs cs ≡ₚ (x, csize i) :: cpairs (<[i := l']> cs).
Proof.
  intros Hi Hl. rewrite -{1}(list_insert_id cs i l); [|done]. rewrite -(list_insert_insert_eq cs i l l').
  apply (cpairs_add _ i l'); [|done]. apply list_lookup_insert_eq. by eapply lookup_lt_Some.
Qed.

#[global] Instance sum_sizes_proper : Proper ((≡ₚ) ==> eq) sum_sizes.
Proof. intros l l' Hl. induction Hl; simpl; lia. Qed.

Section heap.
Context (heap : Z) (Hheap : 0 <= heap) (st : zend_mm_mem_handlers) {fails : Z -> Prop} `{Hst : !Storage st fails}.

Definition caches (cs : list (list Z)) : hprop :=
  ⌜length cs = 64%nat⌝ ∗ cached heap ↦ u32 (sum_sizes (cpairs cs)) ∗
  [∗ list] i ↦ l ∈ cs, ∃ p, cache heap (Z.of_nat i) ↦ p ∗ clist p (csize i) l.

(** The fields that only count. *)
Definition counters : hprop :=
  (∃ v, real_peak heap ↦ v) ∗ (∃ v, limit heap ↦ v) ∗ (∃ v, h_size heap ↦ v) ∗ (∃ v, h_peak heap ↦ v) ∗
  (∃ v, overflow heap ↦ v) ∗ (∃ v, reserve_size heap ↦ v ∗ ⌜(0 <= v < 2 ^ 64)%Z⌝) ∗ ∃ v, compact_size heap ↦ v.

Definition block_size_ok (bs : Z) : Prop := exists k, 5 <= k < 64 /\ bs = 2 ^ k.

(** A heap in which callers own the blocks [owned]. *)
Definition mmo (owned : list (Z * Z)) : hprop :=
  ∃ H cs bs, blocks heap H (owned ++ cpairs cs) ∗ caches cs ∗ counters ∗ block_size heap ↦ bs ∗ ⌜block_size_ok bs⌝.

Lemma mmo_perm owned owned' : owned ≡ₚ owned' -> mmo owned ⊢ mmo owned'.
Proof.
  iIntros (Ho) "(%H & %cs & %bs & HB & HC & HN & Hbs & Hok)". iExists H, cs, bs. iFrame.
  iApply (blocks_perm with "HB"). by rewrite Ho.
Qed.

(** *** Pushing and popping *)

Lemma cache_lookup (cs : list (list Z)) i : length cs = 64%nat -> 0 <= i < 64 -> exists l, cs !! Z.to_nat i = Some l.
Proof. intros Hl Hi. apply lookup_lt_is_Some. lia. Qed.

Lemma hwp_push_list cs i a n l Q : cs !! i = Some l -> n = csize i -> a <> NULL ->
  ([∗ list] j ↦ l ∈ cs, ∃ p, cache heap (Z.of_nat j) ↦ p ∗ clist p (csize j) l) -∗ region (a + 16) (n - 16) -∗
  (([∗ list] j ↦ l ∈ <[i := a :: l]> cs, ∃ p, cache heap (Z.of_nat j) ↦ p ∗ clist p (csize j) l) -∗ Q tt) -∗
  hwp (cache_push heap (Z.of_nat i) a) Q.
Proof.
  iIntros (Hi -> Ha) "HC Hr HQ". iDestruct (big_sepL_insert_acc with "HC") as "[(%p & Hp & Hlist) HC]"; [exact Hi|].
  assert (8 <= csize i - 16) as H16 by (unfold csize; lia).
  rewrite (region_word (a + 16)); [|done]. iDestruct "Hr" as "[[%v Hq] Hr]". unfold cache_push. hload "Hp".
  unfold prev_free_block at 1. hstore "Hq". iApply (hwp_store with "Hp"). iIntros "Hp".
  iApply "HQ". iApply "HC". iExists a. iFrame "Hp". rewrite clist_cons. iSplit; [done|]. iExists p.
  replace (a + 16 + 8) with (a + 24) by lia. replace (csize i - 16 - 8) with (csize i - 24) by lia. iFrame.
Qed.

Lemma hwp_cache_push cs i a n l Q : cs !! i = Some l -> n = csize i -> a <> NULL ->
  caches cs -∗ region (a + 16) (n - 16) -∗
  (∀ d, ([∗ list] j ↦ l ∈ <[i := a :: l]> cs, ∃ p, cache heap (Z.of_nat j) ↦ p ∗ clist p (csize j) l) -∗
     cached heap ↦ u32 d -∗ ⌜length cs = 64%nat /\ d = sum_sizes (cpairs cs)⌝ -∗ Q tt) -∗
  hwp (cache_push heap (Z.of_nat i) a) Q.
Proof.
  iIntros (Hi Hn Ha) "(%Hl & Hc & HC) Hr HQ". iApply (hwp_push_list with "HC Hr"); [done..|]. iIntros "HC". by iApply ("HQ" with "HC Hc").
Qed.

Lemma hwp_add_cached d n Q : cached heap ↦ u32 d -∗ (cached heap ↦ u32 (d + n) -∗ Q tt) -∗ hwp (add_cached heap n) Q.
Proof.
  iIntros "Hc HQ". unfold add_cached. hload "Hc". iApply (hwp_store with "Hc"). iIntros "Hc". iApply "HQ".
  by rewrite /wrap_u Zplus_mod_idemp_l.
Qed.

Lemma hwp_cache_pop cs i a l Q : cs !! i = Some (a :: l) ->
  caches cs -∗
  (∀ d, ([∗ list] j ↦ l ∈ <[i := l]> cs, ∃ p, cache heap (Z.of_nat j) ↦ p ∗ clist p (csize j) l) -∗
     cached heap ↦ u32 d -∗ ⌜length cs = 64%nat /\ d = sum_sizes (cpairs cs) /\ a <> NULL⌝ -∗ region (a + 16) (csize i - 16) -∗ Q a) -∗
  hwp (cache_pop heap (Z.of_nat i)) Q.
Proof.
  iIntros (Hi) "(%Hl & Hc & HC) HQ". iDestruct (big_sepL_insert_acc with "HC") as "[(%p & Hp & Hlist) HC]"; [exact Hi|].
  rewrite clist_cons. iDestruct "Hlist" as "([-> %Ha] & %q & Hq & Hr & Hlist)". unfold cache_pop. hload "Hp". hload "Hq". hstore "Hp".
  iApply hwp_ret. iApply ("HQ" with "[HC Hp Hlist] Hc [] [Hq Hr]"); [|done|].
  - iApply "HC". iExists q. iFrame.
  - rewrite (region_word (a + 16)); [|unfold csize; lia]. iSplitL "Hq"; [by iExists q|].
    replace (a + 16 + 8) with (a + 24) by lia. by replace (csize i - 16 - 8) with (csize i - 24) by lia.
Qed.

(** *** Joining free neighbours *)

(** A hole [g'] of [m'] bytes that [g] has grown to, the block still at the same place. *)
Definition grown (g : gctx) (m : Z) (g' : gctx) (m' : Z) : Prop := gaddr g' = gaddr g /\ gbefore g' = gbefore g /\ m <= m'.

Lemma hwp_take_next' g m H used ws n Q : next_free g = Some n ->
  hole heap g m H used ws -∗
  (∀ g' m' H' ws', ⌜grown g m g' m' /\ (m' = m + n)%Z /\ 0 <= m < m' /\ m' < 2 ^ 64⌝ -∗ b_size (gaddr g + m) ↦ n -∗
     (b_size (gaddr g + m) ↦ n -∗ hole heap g' m' H' used (ws ++ ws')) -∗ Q tt) -∗
  hwp (zend_mm_remove_from_free_list heap (gaddr g + m)) Q.
Proof.
  iIntros (Hn) "Hhole HQ". apply next_free_spec in Hn as [l El]. iDestruct (hole_facts with "Hhole") as %(Hg & (_ & Hm & _) & Hmb & _).
  iApply (hwp_take_next with "Hhole"); [done|done|]. iIntros (ws') "Hs Hback".
  pose proof (next_ok _ _ _ _ Hg El) as [Hn _]. cbn [snd] in Hn.
  iAssert (⌜(m + n < 2 ^ 64)%Z⌝)%I as %Hmn.
  { iDestruct ("Hback" with "Hs") as "Hhole". iDestruct (hole_facts with "Hhole") as %(_ & (_ & Hmn & _) & _). iPureIntro. lia. }
  iApply ("HQ" with "[] Hs Hback"). iPureIntro. unfold grown. cbn. split_and!; [done|done|lia|done|lia|lia|lia].
Qed.

Lemma hwp_take_prev' g m H used ws n Q : prev_free g = Some n ->
  hole heap g m H used ws -∗
  (∀ g' H' ws', ⌜(gaddr g' = gaddr g - n /\ 0 <= m < n + m /\ n + m < 2 ^ 64)%Z⌝ -∗ b_size (gaddr g - n) ↦ n -∗
     (b_size (gaddr g - n) ↦ n -∗ hole heap g' (n + m) H' used ws') -∗ Q tt) -∗
  hwp (zend_mm_remove_from_free_list heap (gaddr g - n)) Q.
Proof.
  iIntros (Hn) "Hhole HQ". apply prev_free_spec in Hn as [l El]. iDestruct (hole_facts with "Hhole") as %(Hg & (_ & Hm & _) & Hmb & _).
  iApply (hwp_take_prev with "Hhole"); [done|done|]. iIntros (ws') "Hs Hback".
  pose proof (prev_ok _ _ _ _ Hg El) as [Hn _]. cbn [snd] in Hn.
  iAssert (⌜(n + m < 2 ^ 64)%Z⌝)%I as %Hmn.
  { iDestruct ("Hback" with "Hs") as "Hhole". iDestruct (hole_facts with "Hhole") as %(_ & (_ & Hmn & _) & _). iPureIntro. lia. }
  iApply ("HQ" with "[] Hs Hback"). iPureIntro. split_and!; [|lia|lia|lia].
  unfold gaddr, take_prev. cbn [gseg gbefore]. rewrite El row_size_app. cbn [row_size snd]. lia.
Qed.

(** Reading the size of a free neighbour from outside. *)
Lemma hwp_next_size {B} g m H used ws n (f : Z -> hcmd B) Q : next_free g = Some n ->
  hole heap g m H used ws -∗ (hole heap g m H used ws -∗ hwp (f n) Q) -∗ hwp (ZEND_MM_FREE_BLOCK_SIZE (gaddr g + m) ≫= f) Q.
Proof.
  iIntros (Hn) "(HG & Hf & Hrest) HQ". apply next_free_spec in Hn as [l El].
  iDestruct (gap_next_word with "HG") as (w) "(Hw & HG & %Hwd)"; [done|]. rewrite El in Hwd. destruct Hwd as [-> Hb].
  unfold ZEND_MM_FREE_BLOCK_SIZE. hload "Hw". rewrite tag_spec; [|done]. cbn [fst snd]. rewrite Z.add_0_r.
  iApply "HQ". iFrame. by iApply "HG".
Qed.

Lemma hwp_prev_size {B} g m H used ws n (f : Z -> hcmd B) Q : prev_free g = Some n ->
  hole heap g m H used ws -∗ (hole heap g m H used ws -∗ hwp (f n) Q) -∗ hwp (ZEND_MM_FREE_BLOCK_SIZE (gaddr g - n) ≫= f) Q.
Proof.
  iIntros (Hn) "((HG & HF & %Hf & Ht) & Hrest) HQ". apply prev_free_spec in Hn as [l El].
  iDestruct (fs_size with "HF") as "[Hw HF]"; [eapply free_in; [exact Hf|by eapply prev_in]|].
  unfold ZEND_MM_FREE_BLOCK_SIZE. hload "Hw". iApply "HQ". iSpecialize ("HF" with "Hw"). unfold hole, gap. iFrame. done.
Qed.

(** The tests and readings on a hole. *)
Lemma hole_gap g m H used ws : hole heap g m H used ws -∗ gap heap g m H used ∗ (gap heap g m H used -∗ hole heap g m H used ws).
Proof. iIntros "[$ Hrest]". iIntros "HG". iFrame. Qed.

(** The joins as [_zend_mm_free_int] writes them. *)
Lemma hwp_absorb_next g m H used ws Q :
  hole heap g m H used ws -∗
  (∀ g' m' H' ws', ⌜grown g m g' m' /\ m' < 2 ^ 64⌝ -∗ hole heap g' m' H' used ws' -∗ Q m') -∗
  hwp (if is_some (next_free g) then
         zend_mm_remove_from_free_list heap (gaddr g + m) ;;
         n ← ZEND_MM_FREE_BLOCK_SIZE (gaddr g + m);
         mret (u64 (m + n))
       else mret m) Q.
Proof.
  iIntros "Hhole HQ". destruct (next_free g) as [n|] eqn:En; cbn [is_some].
  - iApply hwp_bind. iApply (hwp_take_next' with "Hhole"); [done..|]. iIntros (g' m' H' ws' (Hg & Em & Hm & Hm')) "Hs Hback".
    unfold ZEND_MM_FREE_BLOCK_SIZE. hload "Hs". iApply hwp_ret. rewrite -Em /wrap_u. rewrite Z.mod_small; [|lia].
    iApply ("HQ" with "[//]"). by iApply "Hback".
  - iApply hwp_ret. iDestruct (hole_facts with "Hhole") as %(_ & (_ & Hm & _) & _). iApply ("HQ" with "[] Hhole"). iPureIntro. unfold grown. split_and!; try done; lia.
Qed.

Lemma hwp_absorb_prev g m H used ws Q :
  hole heap g m H used ws -∗
  (∀ g' m' H' ws', hole heap g' m' H' used ws' -∗ Q (gaddr g', m')) -∗
  hwp (if is_some (prev_free g) then
         mm_block ← ZEND_MM_PREV_BLOCK (gaddr g);
         zend_mm_remove_from_free_list heap mm_block ;;
         n ← ZEND_MM_FREE_BLOCK_SIZE mm_block;
         mret (mm_block, u64 (m + n))
       else mret (gaddr g, m)) Q.
Proof.
  iIntros "Hhole HQ". destruct (prev_free g) as [n|] eqn:En; cbn [is_some].
  - destruct (prev_free_spec _ _ En) as [l El]. iDestruct (hole_gap with "Hhole") as "[HG Hhole]". iApply hwp_bind.
    iApply (hwp_prev_block with "HG"); [done..|]. iIntros "HG". iSpecialize ("Hhole" with "HG").
    iApply hwp_bind. iApply (hwp_take_prev' with "Hhole"); [done..|]. iIntros (g' H' ws' (Ea & Hm & Hm')) "Hs Hback".
    unfold ZEND_MM_FREE_BLOCK_SIZE. hload "Hs". iApply hwp_ret. rewrite -Ea (Z.add_comm m) /wrap_u. rewrite Z.mod_small; [|lia].
    iApply "HQ". by iApply "Hback".
  - iApply hwp_ret. by iApply "HQ".
Qed.

(** *** Release *)

Lemma mmo_word owned a n : (a, n) ∈ owned ->
  mmo owned -∗ ⌜blk_ok (true, n)⌝ ∗ b_size a ↦ tag (true, n) ∗ (b_size a ↦ tag (true, n) -∗ mmo owned).
Proof.
  iIntros (Ha) "(%H & %cs & %bs & HB & HC & HN & Hbs & Hok)". iDestruct (used_word _ _ _ a n with "HB") as "($ & $ & HB)"; [set_solver|].
  iIntros "Hs". iExists H, cs, bs. iFrame. by iApply "HB".
Qed.

(** What is left of the operations once a hole has all its free neighbours in it. *)
Lemma hwp_release g m H used ws Q :
  hole heap g m H used ws -∗ (∀ H', blocks heap H' used -∗ Q tt) -∗
  hwp (whole ← is_whole_segment (gaddr g) m;
       if whole : bool then zend_mm_del_segment heap st (gaddr g - ZEND_MM_ALIGNED_SEGMENT_SIZE)
       else ZEND_MM_BLOCK (gaddr g) ZEND_MM_FREE_BLOCK m ;; zend_mm_add_to_free_list heap (gaddr g)) Q.
Proof.
  iIntros "Hhole HQ". iDestruct (hole_facts with "Hhole") as %(Hg & _ & Hmb & Hws). iDestruct (hole_gap with "Hhole") as "[HG Hhole]".
  iApply hwp_bind. iApply (hwp_is_whole_segment with "HG"); [done|]. iIntros "HG". iSpecialize ("Hhole" with "HG"). destruct (is_whole g) eqn:Ew.
  - iApply (hwp_del_segment with "Hhole"); [done..|]. iIntros "HB". by iApply "HQ".
  - iDestruct "Hhole" as "(HG & _ & [%u Hs] & Hw & [%v Hp])". iApply hwp_bind. iApply (hwp_block with "Hs Hp"). iIntros "Hs Hp".
    iApply (hwp_give heap Hheap false with "HG Hs Hw Hp HQ"); done.
Qed.

Lemma hwp_tag_size a b Q : blk_ok b -> b_size a ↦ tag b -∗ (b_size a ↦ tag b -∗ Q b.2) -∗ hwp (ZEND_MM_BLOCK_SIZE a) Q.
Proof. iIntros (Hb) "Hs HQ". unfold ZEND_MM_BLOCK_SIZE. hload "Hs". iApply hwp_ret. rewrite tag_size; [|done]. by iApply "HQ". Qed.

(** Taking a block that a caller gives back, or the cache. *)
Lemma open_hole H used a n : blocks heap H ((a, n) :: used) -∗ region (a + 16) (n - 16) -∗
  ∃ g ws, ⌜gaddr g = a⌝ ∗ hole heap g n H used ws.
Proof.
  iIntros "HB Hr". iDestruct (open_used _ _ _ a n with "HB") as (g used') "((<- & %Hu & %Hb) & HG & Hs & Hp)"; [set_solver|].
  apply Permutation_cons_inv in Hu. rewrite region_words. iDestruct "Hr" as "(%ws & %Hws & Hw)". iExists g, ws. iSplit; [done|].
  unfold hole. iFrame "Hw". iSplitL "HG"; [by iApply (gap_perm with "HG")|]. iSplit; [done|]. iSplitL "Hs"; by iExists _.
Qed.

Lemma hwp_set_h_size n Q : counters -∗ (counters -∗ Q tt) -∗ hwp (s ← load (h_size heap); storev (h_size heap) (u64 (s - n))) Q.
Proof.
  iIntros "(H1 & H2 & [%v H3] & H4) HQ". hload "H3". iApply (hwp_store with "H3"). iIntros "H3". iApply "HQ". iFrame.
Qed.

Lemma hwp_free_int a n owned Q :
  mmo ((a, n) :: owned) -∗ region (a + 16) (n - 16) -∗ (mmo owned -∗ Q tt) -∗ hwp (_zend_mm_free_int heap st (a + 16)) Q.
Proof.
  iIntros "HM Hr HQ". iDestruct (mmo_word _ a n with "HM") as "(%Hb & Hs & HM)"; [set_solver|]. destruct (Hb) as [Hn H8]. cbn [snd] in Hn, H8.
  unfold _zend_mm_free_int, ZEND_MM_HEADER_OF. change ZEND_MM_ALIGNED_HEADER_SIZE with 16. replace (a + 16 - 16) with a by lia.
  iAssert (⌜0 < a⌝)%I as %Ha.
  { iSpecialize ("HM" with "Hs"). iDestruct "HM" as "(%H & %cs & %bs & HB & _)". iDestruct (open_hole with "HB Hr") as (g ws) "[<- Hhole]".
    iDestruct (hole_facts with "Hhole") as %(_ & [? _] & _). done. }
  rewrite (proj2 (Z.eqb_neq _ _)); [|unfold NULL; lia]. iApply hwp_bind. iApply (hwp_tag_size with "Hs"); [done|]. iIntros "Hs". iSpecialize ("HM" with "Hs").
  cbn [snd]. iDestruct "HM" as "(%H & %cs & %bs & HB & HC & HN & Hbs & %Hbs)".
  iAssert (∃ c, cached heap ↦ c ∗ (cached heap ↦ c -∗ caches cs))%I with "[HC]" as (c) "[Hc HC]".
  { iDestruct "HC" as "($ & Hc & HC)". iExists _. iFrame "Hc". iIntros "$". done. }
  hload "Hc". iSpecialize ("HC" with "Hc"). destruct (ZEND_MM_SMALL_SIZE n && (c <? ZEND_MM_CACHE_SIZE)) eqn:Ec.
  - apply andb_true_iff in Ec as [Es _]. destruct (bucket_index n) as [Hi En]; [done..|]. set (i := ZEND_MM_BUCKET_INDEX n) in *.
    iDestruct "HC" as "(%Hl & HC)". destruct (cache_lookup cs i Hl Hi) as [l Hcl].
    assert (n = csize (Z.to_nat i)) as Enc by (unfold csize; lia). rewrite -(Z2Nat.id i); [|lia].
    iApply hwp_bind. iApply (hwp_cache_push with "[HC] Hr"); [exact Hcl|exact Enc|unfold NULL; lia|iFrame; done|].
    iIntros (d) "HC Hc [_ ->]". iApply (hwp_add_cached with "Hc"). iIntros "Hc".
    pose proof (cpairs_add cs _ l (a :: l) a Hcl ltac:(done)) as Hadd. rewrite -Enc in Hadd.
    iApply "HQ". iExists H, (<[Z.to_nat i := a :: l]> cs), bs. iFrame. iSplitL "HB"; [|iSplitL; [|done]].
    + iApply (blocks_perm with "HB"). rewrite Hadd. simpl. solve_Permutation.
    + iSplit; [iPureIntro; by rewrite length_insert|]. rewrite Hadd. cbn. by rewrite Z.add_comm.
  - iDestruct (open_hole with "HB Hr") as (g ws) "[<- Hhole]".
    iDestruct "HN" as "(H1 & H2 & [%v H3] & H4)". hload "H3". hstore "H3". iAssert counters with "[H1 H2 H3 H4]" as "HN"; [iFrame|].
    iDestruct (hole_gap with "Hhole") as "[HG Hhole]". iApply hwp_bind. iApply (hwp_next_is_free with "HG"); [done|]. iIntros "HG". iSpecialize ("Hhole" with "HG").
    iApply hwp_bind. iApply (hwp_absorb_next with "Hhole"). iIntros (g1 m1 H1 ws1 [(Ea & _ & _) _]) "Hhole". rewrite -Ea.
    iDestruct (hole_gap with "Hhole") as "[HG Hhole]". iApply hwp_bind. iApply (hwp_prev_is_free with "HG"). iIntros "HG". iSpecialize ("Hhole" with "HG").
    iApply hwp_bind. iApply (hwp_absorb_prev with "Hhole"). iIntros (g2 m2 H2 ws2) "Hhole".
    iApply (hwp_release with "Hhole"). iIntros (H3) "HB". iApply "HQ". iExists H3, cs, bs. iFrame. done.
Qed.

(** *** Emptying the cache *)

(** The joins as the other functions write them. *)
Lemma hwp_join_prev g m H used ws Q :
  hole heap g m H used ws -∗
  (∀ g' m' H' ws', ⌜(gaddr g' + m' = gaddr g + m)%Z⌝ -∗ hole heap g' m' H' used ws' -∗ Q (gaddr g', m')) -∗
  hwp (if is_some (prev_free g) then
         mm_block ← ZEND_MM_PREV_BLOCK (gaddr g);
         n ← ZEND_MM_FREE_BLOCK_SIZE mm_block;
         zend_mm_remove_from_free_list heap mm_block ;;
         mret (mm_block, u64 (m + n))
       else mret (gaddr g, m)) Q.
Proof.
  iIntros "Hhole HQ". destruct (prev_free g) as [n|] eqn:En; cbn [is_some].
  - destruct (prev_free_spec _ _ En) as [l El]. iDestruct (hole_gap with "Hhole") as "[HG Hhole]". iApply hwp_bind.
    iApply (hwp_prev_block with "HG"); [done..|]. iIntros "HG". iSpecialize ("Hhole" with "HG").
    iApply (hwp_prev_size with "Hhole"); [done|]. iIntros "Hhole".
    iApply hwp_bind. iApply (hwp_take_prev' with "Hhole"); [done..|]. iIntros (g' H' ws' (Ea & Hm & Hm')) "Hs Hback".
    iApply hwp_ret. rewrite -Ea (Z.add_comm m) /wrap_u. rewrite Z.mod_small; [|lia].
    iApply ("HQ" with "[]"); [iPureIntro; lia|]. by iApply "Hback".
  - iApply hwp_ret. by iApply "HQ".
Qed.

Lemma hwp_join_next g m H used ws r Q : 0 <= r <= m ->
  hole heap g m H used ws -∗
  (∀ g' m' H' ws', ⌜grown g m g' m'⌝ -∗ hole heap g' m' H' used (ws ++ ws') -∗ Q (r + (m' - m))) -∗
  hwp (if is_some (next_free g) then
         n ← ZEND_MM_FREE_BLOCK_SIZE (gaddr g + m);
         zend_mm_remove_from_free_list heap (gaddr g + m) ;;
         mret (u64 (r + n))
       else mret r) Q.
Proof.
  iIntros (Hr) "Hhole HQ". destruct (next_free g) as [n|] eqn:En; cbn [is_some].
  - iApply (hwp_next_size with "Hhole"); [done|]. iIntros "Hhole".
    iApply hwp_bind. iApply (hwp_take_next' with "Hhole"); [done..|]. iIntros (g' m' H' ws' (Hg & -> & Hm & Hm')) "Hs Hback".
    iApply hwp_ret. rewrite /wrap_u. rewrite Z.mod_small; [|lia]. replace (r + n) with (r + (m + n - m)) by lia.
    iApply ("HQ" with "[//]"). by iApply "Hback".
  - iApply hwp_ret. iDestruct (hole_facts with "Hhole") as %(_ & (_ & Hm & _) & _).
    iSpecialize ("HQ" $! g m H []). replace (r + (m - m)) with r by lia. iApply ("HQ" with "[]"); [iPureIntro; unfold grown; split_and!; try done; lia|]. by rewrite app_nil_r.
Qed.

Lemma hwp_free_cached a n q d H used Q : n mod 8 = 0 -> 32 <= n ->
  blocks heap H ((a, n) :: used) -∗ prev_free_block a ↦ q -∗ region (a + 24) (n - 24) -∗ cached heap ↦ u32 d -∗
  (∀ H', blocks heap H' used -∗ cached heap ↦ u32 (d - n) -∗ Q q) -∗
  hwp (free_cached heap st a) Q.
Proof.
  iIntros (H8 Hn) "HB Hq Hr Hc HQ". assert (blk_ok (true, n)) as Hb by done. unfold free_cached.
  iDestruct (used_word _ _ _ a n with "HB") as "(_ & Hs & HB)"; [set_solver|].
  iApply hwp_bind. iApply (hwp_tag_size with "Hs"); [done|]. iIntros "Hs". hload "Hq". unfold ZEND_MM_NEXT_BLOCK.
  iApply hwp_bind. iApply hwp_bind. iApply (hwp_tag_size with "Hs"); [done|]. iIntros "Hs". iApply hwp_ret. iSpecialize ("HB" with "Hs"). cbn [snd].
  iApply hwp_bind. iApply (hwp_add_cached with "Hc"). iIntros "Hc". rewrite Z.add_opp_r.
  iAssert (region (a + 16) (n - 16)) with "[Hq Hr]" as "Hr".
  { rewrite (region_word (a + 16)); [|lia]. iSplitL "Hq"; [by iExists q|]. replace (a + 16 + 8) with (a + 24) by lia. by replace (n - 16 - 8) with (n - 24) by lia. }
  iDestruct (open_hole with "HB Hr") as (g ws) "[<- Hhole]". iDestruct (hole_gap with "Hhole") as "[HG Hhole]".
  iApply hwp_bind. iApply (hwp_prev_is_free with "HG"). iIntros "HG". iSpecialize ("Hhole" with "HG").
  iApply hwp_bind. iApply (hwp_join_prev with "Hhole"). iIntros (g1 m1 H1 ws1 E1) "Hhole". rewrite -E1.
  iDestruct (hole_gap with "Hhole") as "[HG Hhole]". iApply hwp_bind. iApply (hwp_next_is_free with "HG"); [done|]. iIntros "HG".
  iSpecialize ("Hhole" with "HG"). iDestruct (hole_facts with "Hhole") as %(_ & (_ & Hm1 & _) & _).
  iApply hwp_bind. iApply (hwp_join_next _ _ _ _ _ m1 with "Hhole"); [lia|]. iIntros (g2 m2 H2 ws2 (Ea & _ & _)) "Hhole".
  replace (m1 + (m2 - m1)) with m2 by lia. rewrite -Ea.
  iDestruct (hole_facts with "Hhole") as %(Hg & _ & Hmb & Hws).
  iDestruct "Hhole" as "(HG & _ & [%u Hs] & Hw & [%v Hp])". iApply hwp_bind. iApply (hwp_block with "Hs Hp"). iIntros "Hs Hp".
  iApply hwp_bind. iApply (hwp_tag_size _ (false, m2) with "Hs"); [done|]. iIntros "Hs". cbn [snd].
  iApply hwp_bind. iApply (hwp_is_whole_segment with "HG"); [done|]. iIntros "HG". iApply hwp_bind. destruct (is_whole g2) eqn:Ew.
  - iApply (hwp_del_segment heap st g2 m2 H2 used (ws1 ++ ws2) with "[HG Hs Hw Hp]"); [done..| |].
    { unfold hole. iFrame "HG Hw". iSplit; [done|]. iSplitL "Hs"; by iExists _. }
    iIntros "HB". iApply hwp_ret. iApply ("HQ" with "HB Hc").
  - iApply (hwp_give heap Hheap false with "HG Hs Hw Hp"); [done..|]. iIntros (H3) "HB". iApply hwp_ret. iApply ("HQ" with "HB Hc").
Qed.

Lemma hwp_free_cache_list fuel p n l d H used Q : n mod 8 = 0 -> 32 <= n -> (length l < fuel)%nat ->
  blocks heap H (((fun x => (x, n)) <$> l) ++ used) -∗ clist p n l -∗ cached heap ↦ u32 d -∗
  (∀ H', blocks heap H' used -∗ cached heap ↦ u32 (d - n * Z.of_nat (length l)) -∗ Q tt) -∗
  hwp (free_cache_list heap st fuel p) Q.
Proof.
  iIntros (H8 Hn Hf) "HB Hl Hc HQ". iInduction fuel as [|fuel] "IH" forall (p l d H Hf); [lia|]. cbn [free_cache_list].
  destruct l as [|x l].
  - rewrite clist_nil. iDestruct "Hl" as %->. cbn [Z.eqb NULL]. iApply hwp_ret. iApply ("HQ" with "HB"). cbn [length]. by rewrite Z.mul_0_r Z.sub_0_r.
  - rewrite clist_cons. iDestruct "Hl" as "([-> %Hx] & %q & Hq & Hr & Hl)". rewrite (proj2 (Z.eqb_neq _ _)); [|done].
    iApply hwp_bind. iApply (hwp_free_cached with "HB Hq Hr Hc"); [done..|]. iIntros (H') "HB Hc".
    iApply ("IH" with "[] HB Hl Hc"); [iPureIntro; simpl in Hf; lia|]. iIntros (H'') "HB Hc". iApply ("HQ" with "HB").
    replace (d - n * Z.of_nat (length (x :: l))) with (d - n - n * Z.of_nat (length l)) by (simpl length; lia). done.
Qed.

Lemma clist_cells p n l : clist p n l -∗ [∗ list] x ∈ prev_free_block <$> l, ∃ v, x ↦ v.
Proof.
  iIntros "H". iInduction l as [|x l] "IH" forall (p); [done|]. rewrite clist_cons. iDestruct "H" as "(_ & %q & Hq & _ & Hl)".
  rewrite fmap_cons big_sepL_cons. iSplitL "Hq"; [by iExists q|]. iApply ("IH" with "Hl").
Qed.

Lemma hwp_clist_bound p n l Q : clist p n l -∗ (∀ k, ⌜(length l < k)%nat⌝ -∗ clist p n l -∗ Q k) -∗ hwp bound Q.
Proof.
  iIntros "H HQ". iApply (hwp_bound (prev_free_block <$> l)). iSplit; [by iApply clist_cells|].
  iIntros (k Hk). iApply ("HQ" with "[] H"). by rewrite length_fmap in Hk.
Qed.

Lemma cpairs_clear cs i l : cs !! i = Some l -> cpairs cs ≡ₚ ((fun x => (x, csize i)) <$> l) ++ cpairs (<[i := []]> cs).
Proof.
  revert cs. induction l as [|x l IH]; intros cs Hi; [by rewrite list_insert_id|].
  rewrite (cpairs_remove cs i (x :: l) l x Hi); [|done]. rewrite (IH (<[i := l]> cs)).
  - by rewrite list_insert_insert_eq.
  - apply list_lookup_insert_eq. by eapply lookup_lt_Some.
Qed.

Lemma sum_sizes_app l1 l2 : sum_sizes (l1 ++ l2) = sum_sizes l1 + sum_sizes l2.
Proof. induction l1 as [|b l1 IH]; simpl; lia. Qed.

Lemma sum_sizes_const n l : sum_sizes ((fun x : Z => (x, n)) <$> l) = n * Z.of_nat (length l).
Proof. induction l as [|x l IH]; [simpl; lia|]. rewrite fmap_cons. cbn [sum_sizes foldr snd]. fold (sum_sizes ((fun x => (x, n)) <$> l)). rewrite IH. simpl length. lia. Qed.

Lemma hwp_free_cache_loop fuel i H owned cs Q : (i + fuel = 64)%nat ->
  blocks heap H (owned ++ cpairs cs) -∗ caches cs -∗
  (∀ H' cs', blocks heap H' (owned ++ cpairs cs') -∗ caches cs' -∗ Q tt) -∗
  hwp (free_cache_loop heap st fuel (Z.of_nat i)) Q.
Proof.
  iIntros (Hf) "HB HC HQ". iInduction fuel as [|fuel] "IH" forall (i H cs Hf); cbn [free_cache_loop].
  { iApply hwp_ret. by iApply ("HQ" with "HB HC"). }
  iDestruct "HC" as "(%Hl & Hc & HC)". destruct (cache_lookup cs (Z.of_nat i)) as [l Hi]; [done|lia|]. rewrite Nat2Z.id in Hi.
  iDestruct (big_sepL_insert_acc with "HC") as "[(%p & Hp & Hlist) HC]"; [exact Hi|]. hload "Hp". iApply hwp_bind.
  iAssert (∀ H' cs', ⌜length cs' = 64%nat⌝ -∗ blocks heap H' (owned ++ cpairs cs') -∗ caches cs' -∗
    hwp (free_cache_loop heap st fuel (Z.of_nat i + 1)) Q)%I with "[HQ]" as "Hgo".
  { iIntros (H' cs' Hl') "HB HC". replace (Z.of_nat i + 1) with (Z.of_nat (S i)) by lia. iApply ("IH" with "[] HB HC HQ"). iPureIntro. lia. }
  destruct (Z.eqb_spec p NULL) as [->|Hp].
  - iApply hwp_ret. iApply ("Hgo" $! H cs with "[//] HB"). iFrame "Hc". iSplit; [done|]. iSpecialize ("HC" $! l with "[Hp Hlist]"); [iExists _; iFrame|].
    by rewrite list_insert_id.
  - iApply hwp_bind. iApply (hwp_clist_bound with "Hlist"). iIntros (k Hk) "Hlist". iApply hwp_bind.
    iApply (hwp_free_cache_list with "[HB] Hlist Hc"); [|unfold csize; lia|done| |].
    { unfold csize. replace (8 * Z.of_nat i + 32) with ((Z.of_nat i + 4) * 8) by lia. by apply Z.mod_mul. }
    { iApply (blocks_perm with "HB"). rewrite (cpairs_clear cs i l Hi). apply Permutation_app_swap_app. }
    iIntros (H') "HB Hc". iApply (hwp_store with "Hp"). iIntros "Hp".
    iApply ("Hgo" $! H' (<[i := []]> cs) with "[] HB"); [iPureIntro; by rewrite length_insert|].
    iSplit; [iPureIntro; by rewrite length_insert|]. iSplitL "Hc".
    + rewrite (cpairs_clear cs i l Hi) sum_sizes_app sum_sizes_const.
      by replace (csize i * Z.of_nat (length l) + sum_sizes (cpairs (<[i:=[]]> cs)) - csize i * Z.of_nat (length l)) with (sum_sizes (cpairs (<[i:=[]]> cs))) by lia.
    + iApply ("HC" $! []). iExists NULL. iFrame "Hp". by rewrite clist_nil.
Qed.

Lemma hwp_free_cache owned Q : mmo owned -∗ (mmo owned -∗ Q tt) -∗ hwp (zend_mm_free_cache heap st) Q.
Proof.
  iIntros "(%H & %cs & %bs & HB & HC & HN & Hbs & Hok) HQ". iApply (hwp_free_cache_loop 64 0 with "HB HC"); [done|].
  iIntros (H' cs') "HB HC". iApply "HQ". iExists H', cs', bs. iFrame.
Qed.
End heap.
