(* ===== verification/ZendAllocAlloc.v ===== *)
(** * ZendAllocAlloc: allocation

    [_zend_mm_alloc_int] gives a block that no caller has, of at least the size asked for, or
    ends in a bailout that leaves a heap in order. *)
From S2P Require Import Prelude Memory HeapProp ZendAlloc ZendAllocOps ZendAllocBits ZendAllocRing ZendAllocTree ZendAllocFree.
From S2P Require Import ZendAllocSearch ZendAllocLayout ZendAllocHole ZendAllocSegment ZendAllocHeap.
From iris.proofmode Require Import proofmode.
From stdpp Require Import list gmap.
Local Open Scope Z_scope.

(** ** The size of a new segment *)

Lemma ldiff_pow2 x k : 0 <= k -> Z.ldiff x (2 ^ k - 1) = x / 2 ^ k * 2 ^ k.
Proof. intros Hk. rewrite ldiff_low; [|done]. pose proof (Z.div_mod x (2 ^ k)). pose proof (Z.pow_pos_nonneg 2 k). lia. Qed.

Lemma pow2_mod8 k : 3 <= k -> 2 ^ k mod 8 = 0.
Proof. intros Hk. replace k with (k - 3 + 3) by lia. rewrite Z.pow_add_r; [|lia..]. by apply Z.mod_mul. Qed.

(** Sizes too large for a word show in a segment smaller than the block. *)
Lemma segment_size_spec bs ts : block_size_ok bs -> 32 <= ts < 2 ^ 64 ->
  let n := (segment_size_for bs ts).1 in n < ts \/ ts + 32 <= n < 2 ^ 64 /\ n mod 8 = 0.
Proof.
  intros (k & Hk & ->) Hts. unfold segment_size_for. change (ZEND_MM_ALIGNED_SEGMENT_SIZE + ZEND_MM_ALIGNED_HEADER_SIZE) with 32.
  assert (32 <= 2 ^ k) as Hk32 by (apply (Z.pow_le_mono_r 2 5 k); lia). assert (2 ^ k <= 2 ^ 63) as Hk63 by (apply Z.pow_le_mono_r; lia).
  assert (u64 (2 ^ k - 32) = 2 ^ k - 32) as -> by (apply Z.mod_small; lia).
  assert (u64 (2 ^ k - 1) = 2 ^ k - 1) as -> by (apply Z.mod_small; lia).
  destruct (Z.ltb_spec (2 ^ k - 32) ts) as [Hlt|Hge]; cbn [fst]; [|right; split; [lia|apply pow2_mod8; lia]].
  rewrite ldiff_pow2; [|lia]. change ZEND_MM_ALIGNED_SEGMENT_SIZE with 16. change ZEND_MM_ALIGNED_HEADER_SIZE with 16.
  set (b := 2 ^ k) in *. set (x := u64 (ts + 16 + 16)). set (y := u64 (x + (b - 1))).
  assert (y / b * b mod 8 = 0) as H8. { pose proof (pow2_mod8 k ltac:(lia)) as Hb8. fold b in Hb8. rewrite Z.mul_mod; [|done]. by rewrite Hb8 Z.mul_0_r. }
  assert (0 <= y < 2 ^ 64) as Hy by (apply Z.mod_pos_bound; lia). pose proof (Z.div_mod y b ltac:(lia)) as Hd. pose proof (Z.mod_pos_bound y b ltac:(lia)) as Hm.
  destruct (decide (ts + 32 < 2 ^ 64)) as [Hs|Hs].
  - assert (x = ts + 32) as Hx by (unfold x, wrap_u; rewrite Z.mod_small; lia).
    destruct (decide (x + (b - 1) < 2 ^ 64)) as [Hb|Hb].
    + assert (y = x + (b - 1)) as Hyx by (unfold y, wrap_u; rewrite Z.mod_small; lia). right. split; [|done]. nia.
    + assert (y = x + (b - 1) - 2 ^ 64) as Hyx. { unfold y, wrap_u. rewrite -(Z.mod_add _ (-1)); [|lia]. rewrite Z.mod_small; lia. }
      left. assert (y / b = 0) as ->; [apply Z.div_small; lia|lia].
  - assert (x = ts + 32 - 2 ^ 64) as Hx. { unfold x, wrap_u. rewrite -(Z.mod_add _ (-1)); [|lia]. rewrite Z.mod_small; lia. }
    left. assert (y = x + (b - 1)) as Hyx by (unfold y, wrap_u; rewrite Z.mod_small; lia). nia.
Qed.

(** ** The heap and its callers *)

Lemma row_size_mod8 l : Forall blk_ok l -> row_size l mod 8 = 0.
Proof. induction 1 as [|b l [_ Hb] _ IH]; [done|]. cbn [row_size]. rewrite Z.add_mod; [|done]. by rewrite Hb IH. Qed.

Lemma gaddr_aligned g m : gap_ok g m -> gaddr g mod 8 = 0.
Proof.
  intros ((_ & H8 & _) & Hb & _). unfold gaddr. rewrite Z.add_mod; [|done]. rewrite row_size_mod8; [|done].
  rewrite (Z.add_mod (gseg g)); [|done]. by rewrite H8.
Qed.

Section alloc.
Context (heap : Z) (Hheap : 0 <= heap) (st : zend_mm_mem_handlers) {fails : Z -> Prop} `{Hst : !Storage st fails}.

(** The block kept for the report of an error. *)
Definition reserve_ptr (rv : option (Z * Z)) : Z := match rv with Some (a, _) => a + 16 | None => NULL end.

Definition reserved (rv : option (Z * Z)) : hprop :=
  reserve heap ↦ reserve_ptr rv ∗ match rv with Some (a, n) => region (a + 16) (n - 16) | None => emp end.

Definition kept (rv : option (Z * Z)) : list (Z * Z) := match rv with Some b => [b] | None => [] end.

(** A heap whose callers have the blocks [U], by the addresses of their headers and with the
    sizes of the blocks. *)
Definition mm (U : gmap Z Z) : hprop := ∃ rv, mmo heap (map_to_list U ++ kept rv) ∗ reserved rv.

(** What callers may rely on about a block. *)
Definition pointer_ok (p : Z) : Prop := 0 < p /\ p mod 8 = 0.

Lemma mmo_block owned a n : (a, n) ∈ owned -> mmo heap owned -∗ ⌜block_ok a n /\ blk_ok (true, n) /\ a mod 8 = 0⌝.
Proof.
  iIntros (Ha) "(%H & %cs & %bs & HB & _)". iDestruct (open_used _ _ _ a n with "HB") as (g used') "((<- & _ & %Hb) & HG & _)"; [set_solver|].
  iDestruct (gap_facts with "HG") as %Hg. iPureIntro. split_and!; [|done|by eapply gaddr_aligned]. apply gap_block_ok; done.
Qed.

Lemma mm_block U a n : U !! a = Some n -> mm U -∗ ⌜block_ok a n /\ blk_ok (true, n) /\ pointer_ok (a + 16)⌝.
Proof.
  iIntros (Ha) "(%rv & HM & _)". iDestruct (mmo_block _ a n with "HM") as %(Hb & Hb2 & H8).
  { apply elem_of_app. left. by apply elem_of_map_to_list. }
  iPureIntro. split_and!; try done. destruct Hb. split; [lia|]. rewrite Z.add_mod; [|done]. by rewrite H8.
Qed.

(** ** Release by a caller *)

Lemma hwp_free U a n Q : U !! a = Some n ->
  mm U -∗ region (a + 16) (n - 16) -∗ (mm (delete a U) -∗ Q tt) -∗ hwp (_zend_mm_free_int heap st (a + 16)) Q.
Proof.
  iIntros (Ha) "(%rv & HM & Hrv) Hr HQ".
  iApply (hwp_free_int heap Hheap st a n (map_to_list (delete a U) ++ kept rv) with "[HM] Hr").
  - iApply (mmo_perm with "HM"). rewrite app_comm_cons. by rewrite map_to_list_delete.
  - iIntros "HM". iApply "HQ". iExists rv. iFrame.
Qed.

(** ** Errors *)

Context (zend_error : hcmd unit).

(** The memory of blocks that callers have. *)
Definition owned (U : gmap Z Z) : hprop := [∗ map] a ↦ n ∈ U, region (a + 16) (n - 16).

(** The callers still have the blocks [U]; blocks that were got on the way are lost. *)
Definition after_error (U : gmap Z Z) : hprop := ∃ U', ⌜U ⊆ U'⌝ ∗ mm U' ∗ owned (U' ∖ U).

Lemma mm_after_error U : mm U ⊢ after_error U.
Proof. iIntros "HM". iExists U. iFrame. iSplit; [done|]. rewrite map_difference_diag. by rewrite /owned. Qed.

(** A heap with all its memory, the blocks of callers that are gone included. *)
Definition abandoned : hprop := ∃ U, mm U ∗ owned U.

Lemma abandon_after U : after_error U -∗ owned U -∗ abandoned.
Proof.
  iIntros "(%U' & %HU & HM & Hnew) Hold". iExists U'. iFrame "HM". unfold owned.
  rewrite -{2}(map_difference_union U U' HU). rewrite big_sepM_union; [iFrame|by apply map_disjoint_difference_r1].
Qed.

(** The report of an error may use the heap, and leaves their blocks to the callers. *)
Definition report_ok : Prop :=
  forall U Q, mm U ∗ (after_error U -∗ Q tt) ⊢ hwp zend_error Q.

Context (Herr : report_ok).

Lemma hwp_safe_error {A} U (Q : outcome A -> hprop) :
  mm U -∗ (after_error U -∗ Q Bailout) -∗ hwp (zend_mm_safe_error heap st zend_error) Q.
Proof.
  iIntros "(%rv & HM & Hrv & Hreg) HQ". unfold zend_mm_safe_error. hload "Hrv". iApply hwp_bind.
  iAssert (mmo heap (map_to_list U) -∗ reserve heap ↦ NULL -∗
    hwp (o ← load (overflow heap);
      (if o =? 0 then storev (overflow heap) 1 ;; zend_error else storev (overflow heap) 2) ;; mret (Bailout (A := A))) Q)%I
    with "[HQ]" as "Hgo".
  { iIntros "(%H & %cs & %bs & HB & HC & (H1 & H2 & H3 & H4 & [%o Ho] & H5) & Hbs & Hok) Hrv". hload "Ho". iApply hwp_bind.
    iAssert (∀ o, overflow heap ↦ o -∗ mm U)%I with "[HB HC H1 H2 H3 H4 H5 Hbs Hok Hrv]" as "HM".
    { iIntros (o') "Ho". iExists None. iSplitR "Hrv"; [|iFrame]. iExists H, cs, bs. rewrite app_nil_r. iFrame. }
    destruct (o =? 0).
    - hstore "Ho". iApply Herr. iSplitL "HM Ho"; [by iApply "HM"|]. iIntros "HM". iApply hwp_ret. by iApply "HQ".
    - iApply (hwp_store with "Ho"). iIntros "Ho". iApply hwp_ret. iApply "HQ". iApply mm_after_error. by iApply "HM". }
  destruct rv as [[a n]|]; cbn [reserve_ptr kept].
  - iDestruct (mmo_block _ a n with "HM") as %([Ha _] & _); [set_solver|]. rewrite (proj2 (Z.eqb_neq _ _)); [|unfold NULL; lia].
    iApply hwp_bind. iApply (hwp_free_int heap Hheap st a n (map_to_list U) with "[HM] Hreg").
    + iApply (mmo_perm with "HM"). solve_Permutation.
    + iIntros "HM". iApply (hwp_store with "Hrv"). iIntros "Hrv". iApply ("Hgo" with "HM Hrv").
  - rewrite app_nil_r. cbn [Z.eqb NULL]. iApply hwp_ret. iApply ("Hgo" with "HM Hrv").
Qed.

(** The outcome of an allocation. *)
Definition allocated (U : gmap Z Z) (size : Z) (Q : outcome Z -> hprop) : hprop :=
  (∀ a n, ⌜U !! a = None /\ size <= n - 16 /\ pointer_ok (a + 16)⌝ -∗ mm (<[a := n]> U) -∗ region (a + 16) (n - 16) -∗ Q (Done (a + 16))) ∧
  (after_error U -∗ Q Bailout).

(** ** Using a block *)

Lemma hwp_change_size f Q : counters heap -∗ (counters heap -∗ Q tt) -∗ hwp (change_size heap f) Q.
Proof.
  iIntros "(H1 & H2 & [%v H3] & [%w H4] & H5) HQ". unfold change_size. hload "H3". hstore "H3". hload "H3". hload "H4".
  destruct (w <? _).
  - iApply (hwp_store with "H4"). iIntros "H4". iApply "HQ". iFrame.
  - iApply hwp_ret. iApply "HQ". iFrame.
Qed.

(** A caller with the blocks [owned] gets one more. *)
Definition got (owned : list (Z * Z)) (size : Z) (Q : outcome Z -> hprop) : hprop :=
  ∀ a n, ⌜a ∉ owned.*1 /\ size <= n - 16⌝ -∗ mmo heap ((a, n) :: owned) -∗ region (a + 16) (n - 16) -∗ Q (Done (a + 16)).

(** The rest of the state, while the blocks are at work; [lim] is the memory limit and [bs] the
    size that segments are multiples of. *)
Definition rest_at (lim bs : Z) (cs : list (list Z)) : hprop :=
  caches heap cs ∗ ((∃ v, real_peak heap ↦ v) ∗ limit heap ↦ lim ∗ (∃ v, h_size heap ↦ v) ∗ (∃ v, h_peak heap ↦ v) ∗
    (∃ v, overflow heap ↦ v) ∗ (∃ v, reserve_size heap ↦ v ∗ ⌜(0 <= v < 2 ^ 64)%Z⌝) ∗ ∃ v, compact_size heap ↦ v) ∗ block_size heap ↦ bs ∗ ⌜block_size_ok bs⌝.

Definition rest_of (cs : list (list Z)) : hprop :=
  caches heap cs ∗ counters heap ∗ ∃ bs, block_size heap ↦ bs ∗ ⌜block_size_ok bs⌝.

Lemma rest_of_at cs : rest_of cs ⊣⊢ ∃ lim bs, rest_at lim bs cs.
Proof.
  iSplit.
  - iIntros "(HC & (H1 & [%lim Hlim] & HN) & %bs & Hbs)". iExists lim, bs. iFrame.
  - iIntros "(%lim & %bs & HC & (H1 & Hlim & HN) & Hbs)". iFrame.
Qed.

(** The blocks, in segments of [total] bytes. *)
Definition blocks_at (total : Z) (H : gmap Z Z) (used : list (Z * Z)) : hprop :=
  ∃ segs, layout heap segs ∗ fs heap H ∗ ⌜selects false segs ≡ₚ map_to_list H⌝ ∗ ⌜selects true segs ≡ₚ used⌝ ∗ ⌜seg_total segs = total⌝.

Lemma blocks_total H used : blocks heap H used ⊣⊢ ∃ total, blocks_at total H used.
Proof.
  iSplit.
  - iIntros "(%segs & HL & HF & Hf & Ht)". iExists (seg_total segs), segs. iFrame. done.
  - iIntros "(%total & %segs & HL & HF & Hf & Ht & _)". iExists segs. iFrame.
Qed.

(** When there is no block for a request of [ts] bytes: the sizes do not fit a word, the limit is
    reached or the storage fails. *)
Definition refused (lim bs total ts : Z) : Prop :=
  let n := (segment_size_for bs ts).1 in n < ts \/ lim < u64 (u64 total + n) \/ fails n.

Lemma mmo_open owned : mmo heap owned ⊣⊢ ∃ H cs, blocks heap H (owned ++ cpairs cs) ∗ rest_of cs.
Proof.
  iSplit.
  - iIntros "(%H & %cs & %bs & HB & HC & HN & Hbs & Hok)". iExists H, cs. iFrame.
  - iIntros "(%H & %cs & HB & HC & HN & %bs & Hbs & Hok)". iExists H, cs, bs. iFrame.
Qed.

Lemma hwp_use_block g m H ws cs ts size keep owned Q : blk_ok (true, ts) -> ts <= m -> size <= ts - 16 ->
  hole heap g m H (owned ++ cpairs cs) ws -∗ rest_of cs -∗ got owned size Q -∗
  hwp (use_block heap (gaddr g) m ts keep) Q.
Proof.
  iIntros (Hts Hm Hsz) "Hhole (HC & HN & Hbs) HQ". unfold use_block. iDestruct (hole_facts with "Hhole") as %(_ & _ & Hmb & Hws). iApply hwp_bind.
  iApply (hwp_split_block with "Hhole []"); [done..|by iApply adds_add_to|]. iIntros (k H' (Hk & Hkb & Hfresh)) "HB Hw".
  iApply hwp_bind. iApply (hwp_change_size with "HN"). iIntros "HN". iApply hwp_ret. change ZEND_MM_ALIGNED_HEADER_SIZE with 16.
  iApply ("HQ" $! (gaddr g) k with "[] [HB HC HN Hbs] [Hw]").
  - iPureIntro. split; [|lia]. rewrite fmap_app elem_of_app in Hfresh. tauto.
  - rewrite mmo_open. iExists H', cs. iFrame.
  - rewrite region_words. iExists (cut k ws). iFrame. iPureIntro. apply cut_length; [done|lia].
Qed.

Lemma gapped_prev_word g m : gapped heap g m -∗ b_prev (gaddr g) ↦ endtag ZEND_MM_GUARD_BLOCK (gbefore g) ∗
  (b_prev (gaddr g) ↦ endtag ZEND_MM_GUARD_BLOCK (gbefore g) -∗ gapped heap g m).
Proof. iIntros "(Hok & Hsl & Hrs & Hs1 & Hs2 & Hs & Hlinks & $ & Htail)". iIntros "Hp". iFrame. Qed.

(** The headers around a free block agree. *)
Lemma hwp_check_linkage H used b n Q : H !! b = Some n ->
  blocks heap H used -∗ (blocks heap H used -∗ Q tt) -∗ hwp (ZEND_MM_CHECK_BLOCK_LINKAGE b) Q.
Proof.
  iIntros (Hb) "(%segs & HL & HF & %Hf & %Ht) HQ". assert ((b, n) ∈ selects false segs) as Hin by (rewrite Hf; by apply elem_of_map_to_list).
  apply selects_fill in Hin as (g & -> & <-). rewrite fill_gapped. iDestruct "HL" as "(%Hbk & HG & _ & Hp)". cbn [snd].
  iAssert (gapped heap g n -∗ b_prev (gaddr g + n) ↦ tag (false, n) -∗ fs heap H -∗ Q tt)%I with "[HQ]" as "HQ".
  { iIntros "HG Hp HF". iApply "HQ". iExists (fill g [(false, n)]). rewrite fill_gapped. iFrame. done. }
  iDestruct (fs_size with "HF") as "[Hs HF]"; [done|]. unfold ZEND_MM_CHECK_BLOCK_LINKAGE. hload "Hs". iSpecialize ("HF" with "Hs"). hload "Hp".
  rewrite tag_spec; [|done]. cbn [fst snd]. rewrite Z.add_0_r Z.eqb_refl. cbn [check]. iApply hwp_bind. iApply hwp_ret.
  iAssert (⌜gap_ok g n⌝)%I as %Hg; [by iDestruct "HG" as "(Hok & _)"|]. unfold ZEND_MM_IS_FIRST_BLOCK, ZEND_MM_PREV_BLOCK.
  destruct (gap_prev_cases g) as [E|(l & b0 & E)].
  - iDestruct (gapped_prev_word with "HG") as "[Hp0 HG]". assert (endtag ZEND_MM_GUARD_BLOCK (gbefore g) = ZEND_MM_GUARD_BLOCK) as Et by by rewrite E.
    iApply hwp_bind. hload "Hp0". iApply hwp_ret. rewrite Et Z.eqb_refl. iApply hwp_ret. iApply ("HQ" with "[HG Hp0] Hp HF"). by iApply "HG".
  - pose proof (prev_ok _ _ _ _ Hg E) as Hb0. rewrite (gapped_prev _ g n b0 l E). iDestruct "HG" as "(H0 & HG & Hh & Hp0)".
    iApply hwp_bind. hload "Hp0". iApply hwp_ret. rewrite tag_first; [|done]. iApply hwp_bind. hload "Hp0". iApply hwp_ret. rewrite tag_size; [|done].
    iDestruct (hdr_word with "Hh HF") as "[Hw Hback]"; [done| |].
    { intros Hu. eapply free_in; [exact Hf|]. rewrite fill_selects. cbn [fst snd eqb app]. destruct b0 as [u k]. cbn in Hu. subst u.
      apply elem_of_cons. right. by eapply prev_in. }
    hload "Hw". hload "Hp0". iDestruct ("Hback" with "Hw") as "[Hh HF]". rewrite Z.eqb_refl. iApply hwp_ret.
    iApply ("HQ" with "[H0 HG Hh Hp0] Hp HF"). iFrame.
Qed.

Lemma hwp_use_free_block H cs b n ts size owned Q : H !! b = Some n -> blk_ok (true, ts) -> ts <= n -> size <= ts - 16 ->
  blocks heap H (owned ++ cpairs cs) -∗ rest_of cs -∗ got owned size Q -∗ hwp (use_free_block heap b ts) Q.
Proof.
  iIntros (Hb Hts Hn Hsz) "HB HR HQ". unfold use_free_block. iApply hwp_bind. iApply (hwp_check_linkage with "HB"); [done|]. iIntros "HB".
  iApply hwp_bind. iApply (hwp_take_free with "HB"); [done..|]. iIntros (g ws <-) "Hs Hhole". unfold ZEND_MM_FREE_BLOCK_SIZE. hload "Hs".
  iSpecialize ("Hhole" with "Hs"). iApply (hwp_use_block with "Hhole HR HQ"); done.
Qed.

(** ** New segments *)

Lemma segment_words s m : 0 <= m - 16 -> m mod 8 = 0 -> region s (32 + m) -∗ ∃ x y u v ws w z,
  ⌜(m - 16 = 8 * Z.of_nat (length ws))%Z⌝ ∗ seg_size s ↦ x ∗ next_segment s ↦ y ∗ b_size (s + 16) ↦ u ∗ b_prev (s + 16) ↦ v ∗
  words (s + 16 + 16) ws ∗ b_size (s + 16 + m) ↦ w ∗ b_prev (s + 16 + m) ↦ z.
Proof.
  iIntros (Hm H8) "Hr". replace (32 + m) with (32 + (m - 16) + 16) by lia.
  rewrite (region_split s (32 + (m - 16)) 16); [|lia|lia|]; [|replace (32 + (m - 16)) with (m + 2 * 8) by lia; by rewrite Z.mod_add].
  rewrite (region_split s 32 (m - 16)); [|lia..|done]. iDestruct "Hr" as "[[H1 H2] H3]".
  rewrite (region_word s); [|lia]. rewrite (region_word (s + 8)); [|lia]. rewrite (region_word (s + 8 + 8)); [|lia]. rewrite (region_word (s + 8 + 8 + 8)); [|lia].
  rewrite (region_word (s + (32 + (m - 16)))); [|lia]. rewrite (region_word (s + (32 + (m - 16)) + 8)); [|lia]. rewrite (region_words (s + 32)).
  iDestruct "H1" as "([%x Hx] & [%y Hy] & [%u Hu] & [%v Hv] & _)". iDestruct "H2" as "(%ws & %Hws & Hw)". iDestruct "H3" as "([%w Hw1] & [%z Hz] & _)".
  iExists x, y, u, v, ws, w, z. unfold seg_size, next_segment, b_size, b_prev.
  replace (s + 16 + 16) with (s + 32) by lia. replace (s + 8 + 8 + 8) with (s + 16 + 8) by lia. replace (s + 8 + 8) with (s + 16) by lia.
  replace (s + (32 + (m - 16))) with (s + 16 + m) by lia. iFrame. done.
Qed.

Lemma hwp_add_real_size t n Q : real_size heap ↦ u64 t -∗ counters heap -∗
  (real_size heap ↦ u64 (t + n) -∗ counters heap -∗ Q tt) -∗ hwp (add_real_size heap n) Q.
Proof.
  iIntros "Hreal ([%pk Hpk] & HN) HQ". unfold add_real_size. hload "Hreal". hstore "Hreal". hload "Hreal". hload "Hpk".
  rewrite /wrap_u Zplus_mod_idemp_l. destruct (pk <? _).
  - iApply (hwp_store with "Hpk"). iIntros "Hpk". iApply ("HQ" with "Hreal"). iFrame.
  - iApply hwp_ret. iApply ("HQ" with "Hreal"). iFrame.
Qed.

Lemma hwp_setup_segment s n H used Q : place_ok s n -> n mod 8 = 0 -> 64 <= n ->
  blocks heap H used -∗ region s n -∗ counters heap -∗
  (∀ g ws, ⌜(gaddr g = s + 16)%Z⌝ -∗ hole heap g (n - 32) H used ws -∗ counters heap -∗ Q (s + 16, n - 32)) -∗
  hwp (setup_segment heap s n) Q.
Proof.
  iIntros ((Hs0 & Hs8 & Hsn) Hn8 Hn) "(%segs & (%Hok & Hsl & Hreal & Hsegs) & HF & %Hf & %Ht) Hr HN HQ".
  set (m := n - 32). replace n with (32 + m) by lia.
  assert (m mod 8 = 0) as Hm8. { unfold m. replace (n - 32) with (n + (-4) * 8) by lia. by rewrite Z.mod_add. }
  iDestruct (segment_words with "Hr") as (x y u v ws w z) "(%Hws & Hsz & Hnx & Hb & Hp & Hw & Hg & Hz)"; [lia|done|].
  unfold setup_segment. iApply hwp_bind. iApply (hwp_add_real_size with "Hreal HN"). iIntros "Hreal HN". hstore "Hsz".
  iDestruct (segl_head with "Hsl") as "[Hl Hsl]". hload "Hl". hstore "Hnx". iSpecialize ("Hsl" with "Hl"). iDestruct (segl_move with "Hsl Hnx") as "[Hsl Hl]".
  hstore "Hl". change ZEND_MM_ALIGNED_SEGMENT_SIZE with 16. change ZEND_MM_ALIGNED_HEADER_SIZE with 16.
  unfold ZEND_MM_MARK_FIRST_BLOCK, ZEND_MM_LAST_BLOCK. hstore "Hp".
  replace (32 + m - 16 - 16) with m by lia. assert (u64 m = m) as -> by (apply Z.mod_small; lia). hstore "Hg". iApply hwp_ret.
  set (g := Gap [] s [] [] segs). assert (gaddr g = s + 16) as Ea by (unfold gaddr; cbn; lia).
  iApply ("HQ" $! g ws with "[//] [-HN] HN"). unfold hole. rewrite Ea. iSplitR "Hb Hw Hz"; [|iFrame].
  2:{ iPureIntro. split; [|done]. split; cbn [snd]; [lia|done]. }
  unfold gap. iFrame "HF". iSplitL; [|iPureIntro; unfold gselect; cbn; done].
  assert (gap_ok g m) as Hgok.
  { unfold gap_ok, gsize, row_ok, g. cbn [gsegs1 gseg gbefore gafter gsegs2 row_size]. split_and!; try done; lia. }
  unfold gapped. rewrite Ea. unfold gsize. cbn [g gsegs1 gseg gbefore gafter gsegs2 row_size fmap list_fmap app]. change (seg_total []) with 0.
  replace (0 + m + 0) with m by lia. replace (0 + (32 + m) + seg_total segs) with (seg_total segs + (32 + m)) by lia.
  rewrite tail_nil segl_cons /links /endtag. iFrame. by rewrite big_sepL_nil right_id.
Qed.

(** A heap at work for a caller. *)
Lemma mm_open U : mm U ⊣⊢ ∃ rv H cs, blocks heap H ((map_to_list U ++ kept rv) ++ cpairs cs) ∗ rest_of cs ∗ reserved rv.
Proof.
  unfold mm. iSplit.
  - iIntros "(%rv & HM & Hrv)". rewrite mmo_open. iDestruct "HM" as "(%H & %cs & HB & HR)". iExists rv, H, cs. iFrame.
  - iIntros "(%rv & %H & %cs & HB & HR & Hrv)". iExists rv. rewrite mmo_open. iFrame.
Qed.

(** Memory runs out. *)
Lemma hwp_out_of_memory {A} U (Q : outcome A -> hprop) :
  mm U -∗ (after_error U -∗ Q Bailout) -∗
  hwp (zend_mm_free_cache heap st ;; zend_mm_safe_error heap st zend_error) Q.
Proof.
  iIntros "(%rv & HM & Hrv) HQ". iApply hwp_bind. iApply (hwp_free_cache with "HM"); [done|]. iIntros "HM".
  iApply (hwp_safe_error with "[HM Hrv] HQ"). iExists rv. iFrame.
Qed.

Lemma hwp_new_segment U ts rv H cs lim bs total Q : 32 <= ts < 2 ^ 64 ->
  let used := (map_to_list U ++ kept rv) ++ cpairs cs in
  blocks_at total H used -∗ rest_at lim bs cs -∗ reserved rv -∗
  ((∀ g m ws keep, ⌜ts <= m⌝ -∗ hole heap g m H used ws -∗ rest_of cs -∗ reserved rv -∗ Q (Done (gaddr g, m, keep))) ∧
   (⌜refused lim bs total ts⌝ -∗ after_error U -∗ Q Bailout)) -∗
  hwp (new_segment heap st zend_error ts) Q.
Proof.
  iIntros (Hts used) "HB (HC & (H1 & Hlim & HN) & Hbs & %Hbs) Hrv HQ". unfold new_segment. hload "Hbs".
  pose proof (segment_size_spec bs ts Hbs Hts) as Hsize. unfold refused. destruct (segment_size_for bs ts) as [n keep]. cbn [fst] in Hsize |- *.
  iDestruct "HB" as "(%segs & (%Hok & Hsl & Hreal & Hsegs) & HF & Hf & Ht & %Htot)". hload "Hreal". rewrite Htot.
  iAssert (blocks heap H used) with "[Hsl Hreal Hsegs HF Hf Ht]" as "HB"; [iExists segs; rewrite /layout Htot; iFrame; done|].
  hload "Hlim". iAssert (counters heap) with "[H1 Hlim HN]" as "HN"; [iFrame|].
  iAssert (blocks heap H used -∗ caches heap cs -∗ counters heap -∗ block_size heap ↦ bs -∗ reserved rv -∗ mm U)%I as "Hmm".
  { iIntros "HB HC HN Hbs Hrv". rewrite mm_open. iExists rv, H, cs. iFrame. done. }
  destruct ((n <? ts) || (lim <? _)) eqn:Elim.
  { iDestruct ("Hmm" with "HB HC HN Hbs Hrv") as "HM". iDestruct "HQ" as "[_ HQ]". iApply (hwp_out_of_memory with "HM").
    iIntros "HM". iApply ("HQ" with "[] HM"). iPureIntro. apply orb_true_iff in Elim as [?%Z.ltb_lt|?%Z.ltb_lt]; tauto. }
  apply orb_false_iff in Elim as [En%Z.ltb_ge _]. destruct Hsize as [?|[Hn Hn8]]; [lia|].
  iApply hwp_bind. iApply alloc_spec; [lia|]. iIntros (s) "[[-> %Hfail]|[%Hs Hr]]".
  { cbn [Z.eqb NULL]. iDestruct ("Hmm" with "HB HC HN Hbs Hrv") as "HM". iDestruct "HQ" as "[_ HQ]". iApply (hwp_out_of_memory with "HM").
    iIntros "HM". iApply ("HQ" with "[] HM"). iPureIntro. tauto. }
  destruct (Hs) as (Hs0 & _). rewrite (proj2 (Z.eqb_neq _ _)); [|unfold NULL; lia]. iApply hwp_bind.
  iApply (hwp_setup_segment with "HB Hr HN"); [done|done|lia|]. iIntros (g ws Hg) "Hhole HN". rewrite -Hg. iApply hwp_ret.
  iDestruct "HQ" as "[HQ _]". iApply ("HQ" with "[] Hhole [HC HN Hbs] Hrv"); [iPureIntro; lia|]. iFrame. done.
Qed.
End alloc.
