(* ===== verification/ZendAllocInt.v ===== *)
(** * ZendAllocInt: the ways to a block

    [_zend_mm_alloc_int] takes a block from the cache, from the lists of small blocks, from the
    trees, from the rest blocks or from a new segment. *)
From S2P Require Import Prelude Memory HeapProp ZendAlloc ZendAllocOps ZendAllocBits ZendAllocRing ZendAllocTree ZendAllocFree.
From S2P Require Import ZendAllocSearch ZendAllocLayout ZendAllocHole ZendAllocSegment ZendAllocHeap ZendAllocAlloc.
From iris.proofmode Require Import proofmode.
From stdpp Require Import list gmap.
Local Open Scope Z_scope.

Section alloc.
Context (heap : Z) (Hheap : 0 <= heap) (st : zend_mm_mem_handlers) {fails : Z -> Prop} `{Hst : !Storage st fails}.
Context (zend_error : hcmd unit) (Herr : report_ok heap zend_error).

(** Parts of the blocks that the searches read. *)
Lemma blocks_fs total H used : blocks_at heap total H used -∗ fs heap H ∗ (fs heap H -∗ blocks_at heap total H used).
Proof. iIntros "(%segs & HL & $ & %Hf & %Ht & %Htot)". iIntros "HF". iExists segs. iFrame. done. Qed.

Lemma blocks_real total H used : blocks_at heap total H used -∗ ∃ v, real_size heap ↦ v ∗ (real_size heap ↦ v -∗ blocks_at heap total H used).
Proof.
  iIntros "(%segs & (Hok & Hsl & Hreal & Hs) & Hrest)". iExists _. iFrame "Hreal". iIntros "Hreal". iExists segs. iFrame.
Qed.

Lemma blocks_forget total H used : blocks_at heap total H used ⊢ blocks heap H used.
Proof. rewrite blocks_total. iIntros "HB". by iExists total. Qed.

(** Why a request for [size] bytes is not met. *)
Definition unserved (lim bs total size : Z) : Prop :=
  ZEND_MM_TRUE_SIZE size < size \/ refused (fails := fails) lim bs total (ZEND_MM_TRUE_SIZE size).

(** The outcome of an allocation, as [allocated], with the block that is kept and with the
    reason for a failure. *)
Definition served (U : gmap Z Z) (rv : option (Z * Z)) (size : Z) (why : Prop) (Q : outcome Z -> hprop) : hprop :=
  (∀ a n, ⌜U !! a = None /\ size <= n - 16 /\ pointer_ok (a + 16)⌝ -∗ mmo heap ((a, n) :: map_to_list U ++ kept rv) -∗
     reserved heap rv -∗ region (a + 16) (n - 16) -∗ Q (Done (a + 16))) ∧
  (⌜why⌝ -∗ after_error heap U -∗ Q Bailout).

Lemma allocated_served U rv size why Q : allocated heap U size Q ⊢ served U rv size why Q.
Proof.
  iIntros "HQ". iSplit; [|iDestruct "HQ" as "[_ HQ]"; iIntros (_); by iApply "HQ"]. iDestruct "HQ" as "[HQ _]".
  iIntros (a n (Ha & Hn & Hp)) "HM Hrv Hr". iApply ("HQ" with "[//] [HM Hrv] Hr"). iExists rv. iFrame "Hrv".
  iApply (mmo_perm with "HM"). by rewrite map_to_list_insert.
Qed.

Lemma got_served U rv size why Q :
  reserved heap rv -∗ served U rv size why Q -∗ got heap (map_to_list U ++ kept rv) size Q.
Proof.
  iIntros "Hrv [HQ _]". iIntros (a n [Ha Hn]) "HM Hr".
  iDestruct (mmo_block heap Hheap st _ a n with "HM") as %([Hpos _] & _ & H8); [set_solver|].
  iApply ("HQ" with "[] HM Hrv Hr"). iPureIntro. split_and!; [|done|split; [lia|by rewrite Z.add_mod ?H8]].
  apply eq_None_not_Some. intros [m Hm]. apply Ha. rewrite list_elem_of_fmap. exists (a, m). split; [done|].
  apply elem_of_app. left. by apply elem_of_map_to_list.
Qed.

Lemma rest_forget lim bs cs : rest_at heap lim bs cs ⊢ rest_of heap cs.
Proof. rewrite rest_of_at. iIntros "HR". iExists lim, bs. done. Qed.

Lemma hwp_alloc_large U ts size rv H cs lim bs total Q : 32 <= ts < 2 ^ 64 -> ts mod 8 = 0 -> size <= ts - 16 ->
  blocks_at heap total H ((map_to_list U ++ kept rv) ++ cpairs cs) -∗ rest_at heap lim bs cs -∗ reserved heap rv -∗
  served U rv size (refused (fails := fails) lim bs total ts) Q -∗
  hwp (alloc_large heap st zend_error ts) Q.
Proof.
  iIntros (Hts H8 Hsz) "HB HR Hrv HQ". assert (blk_ok (true, ts)) as Hok by (split; [cbn [snd]; lia|done]).
  unfold alloc_large. iDestruct (blocks_fs with "HB") as "[HF HB]".
  iApply hwp_bind. iApply (hwp_search_large_block with "HF"); [lia..|]. iIntros (y Hy) "HF". iSpecialize ("HB" with "HF").
  iDestruct (blocks_real with "HB") as (real) "[Hreal HB]". hload "Hreal". iSpecialize ("HB" with "Hreal").
  iDestruct "HR" as "(HC & (H1 & Hlim & HN) & Hbs & %Hbs)". hload "Hlim". hload "Hbs".
  iAssert (rest_at heap lim bs cs) with "[HC H1 Hlim HN Hbs]" as "HR"; [iFrame; done|].
  iApply hwp_bind. iApply (hwp_wand _ (fun y => ⌜found H ts y⌝ ∗ blocks_at heap total H ((map_to_list U ++ kept rv) ++ cpairs cs))%I with "[HB]").
  { destruct ((y =? NULL) && _).
    - iDestruct (blocks_fs with "HB") as "[HF HB]". iApply (hwp_search_rest heap Hheap with "HF"). iIntros (z Hz) "HF". iSplit; [done|]. by iApply "HB".
    - iApply hwp_ret. iFrame. done. }
  iIntros (z) "[%Hz HB]". destruct (Z.eqb_spec z NULL) as [->|Hz0].
  - iApply hwp_bind. iApply (hwp_new_segment heap Hheap st zend_error Herr with "HB HR Hrv"); [done|]. iSplit.
    + iIntros (g m ws keep Hm) "Hhole HR Hrv". iApply (hwp_use_block with "Hhole HR"); [done..|]. by iApply (got_served with "Hrv HQ").
    + iIntros (Hwhy) "HM". iApply hwp_ret. iDestruct "HQ" as "[_ HQ]". by iApply ("HQ" with "[] HM").
  - destruct Hz as [?|(n & Hn & Hle)]; [done|]. rewrite blocks_forget rest_forget. iApply (hwp_use_free_block with "HB HR"); [done..|].
    by iApply (got_served with "Hrv HQ").
Qed.

(** A list of small blocks whose bit is set has a block, and the bucket names one. *)
Lemma hwp_small_block {B} H bm i (f : Z -> hcmd B) Q : 0 <= i ->
  (∃ sm lg rest lbm, ⌜free_ok H sm lg rest bm lbm⌝ ∗ ⌜Z.testbit bm i = true⌝ ∗ sizes H ∗ fs_parts heap sm lg rest bm lbm) -∗
  (∀ b, ⌜H !! b = Some (8 * i + 32)%Z⌝ -∗ fs heap H -∗ hwp (f b) Q) -∗ hwp (load (free_buckets heap (i * 2)) ≫= f) Q.
Proof.
  iIntros (Hi) "(%sm & %lg & %rest & %lbm & %Hok & %Hbit & HH & Hbm & Hlbm & Hsm & Hparts) HQ".
  assert (i < 64) as Hi64.
  { destruct (decide (i < 64)); [done|]. rewrite (bits_high bm i) in Hbit; [done|by eapply free_bm|lia]. }
  assert (exists l, sm !! Z.to_nat i = Some l) as [l Hl]. { apply lookup_lt_is_Some. rewrite (free_sm_len _ _ _ _ _ _ Hok). lia. }
  destruct l as [|x l _] using rev_ind.
  { pose proof (free_bm_bits _ _ _ _ _ _ Hok _ Hl) as Hno. rewrite Z2Nat.id in Hno; [congruence|done]. }
  assert (H !! x = Some (8 * i + 32)) as Hx.
  { rewrite (free_sm _ _ _ _ _ _ Hok _ _ x Hl); [|set_solver]. by rewrite Z2Nat.id. }
  iDestruct (big_sepL_lookup_acc with "Hsm") as "[[Hring Hregs] Hsm]"; [exact Hl|]. rewrite Z2Nat.id; [|done].
  iDestruct (ring_links with "Hring") as "(Hp & Hn & Hring)". rewrite List.last_last. destruct (bucket_words heap i) as [-> _]. hload "Hp".
  iApply ("HQ" with "[//]"). iApply (fs_intro with "HH"); [done|]. iFrame "Hbm Hlbm Hparts". iApply "Hsm". iFrame "Hregs". iApply ("Hring" with "Hp Hn").
Qed.

(** The head of a list of the cache. *)
Lemma hwp_cache_head {B} cs i l (f : Z -> hcmd B) Q : cs !! i = Some l ->
  caches heap cs -∗ (∀ p, ⌜p = NULL <-> l = []⌝ -∗ caches heap cs -∗ hwp (f p) Q) -∗ hwp (load (cache heap (Z.of_nat i)) ≫= f) Q.
Proof.
  iIntros (Hi) "(%Hl & Hc & HC) HQ". iDestruct (big_sepL_lookup_acc with "HC") as "[(%p & Hp & Hlist) HC]"; [exact Hi|]. hload "Hp".
  iAssert (⌜p = NULL <-> l = []⌝)%I as %Hp.
  { destruct l as [|x l]; [rewrite clist_nil; by iDestruct "Hlist" as %->|]. rewrite clist_cons.
    iDestruct "Hlist" as "([-> %Hx] & _)". iPureIntro. split; [done|discriminate]. }
  iApply ("HQ" with "[//]"). iFrame "Hc". iSplit; [done|]. iApply "HC". iExists p. iFrame.
Qed.

(** A block from the cache. *)
Lemma hwp_use_cached H cs i l a n size owned Q : cs !! i = Some (a :: l) -> n = csize i -> size <= n - 16 ->
  blocks heap H (owned ++ cpairs cs) -∗ rest_of heap cs -∗ got heap owned size Q -∗
  hwp (best_fit ← cache_pop heap (Z.of_nat i); add_cached heap (- n) ;; mret (Done (ZEND_MM_DATA_OF best_fit))) Q.
Proof.
  iIntros (Hi -> Hsz) "HB (HC & HR) HQ". pose proof (cpairs_remove cs i (a :: l) l a Hi ltac:(done)) as Hcs.
  iApply hwp_bind. iApply (hwp_cache_pop with "HC"); [exact Hi|]. iIntros (d) "HC Hc (%Hl & -> & %Ha) Hr".
  iApply hwp_bind. iApply (hwp_add_cached with "Hc"). iIntros "Hc". iApply hwp_ret. change (ZEND_MM_DATA_OF a) with (a + 16).
  iDestruct (blocks_perm _ _ _ ((a, csize i) :: owned ++ cpairs (<[i := l]> cs)) with "HB") as "HB"; [rewrite Hcs; solve_Permutation|].
  iDestruct (used_fresh heap Hheap with "HB") as %Hfresh. iApply ("HQ" with "[] [-Hr] Hr").
  - iPureIntro. rewrite fmap_app in Hfresh. set_solver.
  - rewrite mmo_open. iExists H, (<[i := l]> cs). iFrame "HB HR". iSplit; [by rewrite length_insert|]. iFrame "HC".
    rewrite Hcs. cbn [sum_sizes foldr snd]. fold (sum_sizes (cpairs (<[i := l]> cs))).
    by replace (csize i + sum_sizes (cpairs (<[i:=l]> cs)) + - csize i) with (sum_sizes (cpairs (<[i:=l]> cs))) by lia.
Qed.

(** The free bitmap, and what a set bit stands for. *)
Lemma blocks_bitmap total H used : blocks_at heap total H used -∗ ∃ bm, ⌜0 <= bm < 2 ^ 64⌝ ∗ free_bitmap heap ↦ bm ∗
  (free_bitmap heap ↦ bm -∗ (blocks_at heap total H used ∧
     ∀ i, ⌜Z.testbit bm i = true⌝ -∗ (∃ sm lg rest lbm, ⌜free_ok H sm lg rest bm lbm⌝ ∗ ⌜Z.testbit bm i = true⌝ ∗ sizes H ∗ fs_parts heap sm lg rest bm lbm) ∗
       (fs heap H -∗ blocks_at heap total H used))).
Proof.
  iIntros "HB". iDestruct (blocks_fs with "HB") as "[(%rest & %sm & %lg & %bm & %lbm & %Hok & HH & Hbm & Hparts) HB]".
  iExists bm. iFrame "Hbm". iSplit; [iPureIntro; by eapply free_bm|]. iIntros "Hbm". iSplit.
  - iApply "HB". iApply (fs_intro with "HH"); [done|]. iFrame.
  - iIntros (i Hi). iFrame "HB". iExists sm, lg, rest, lbm. iFrame. done.
Qed.

(** [_zend_mm_alloc_int] on a heap with segments of [total] bytes. *)
Lemma hwp_alloc_at U rv H cs lim bs total size Q : 0 <= size < 2 ^ 64 ->
  blocks_at heap total H ((map_to_list U ++ kept rv) ++ cpairs cs) -∗ rest_at heap lim bs cs -∗ reserved heap rv -∗
  served U rv size (unserved lim bs total size) Q -∗ hwp (_zend_mm_alloc_int heap st zend_error size) Q.
Proof.
  iIntros (Hs) "HB HR Hrv HQ". unfold _zend_mm_alloc_int. cbv zeta. pose proof (true_size_spec size Hs) as (Ht & Ht8 & Hfit & Hwrap).
  unfold unserved. set (ts := ZEND_MM_TRUE_SIZE size) in *.
  iAssert (served U rv size (refused (fails := fails) lim bs total ts) Q ∧ (⌜ts < size⌝ -∗ after_error heap U -∗ Q Bailout))%I with "[HQ]" as "HQ".
  { iSplit; [iSplit; [by iDestruct "HQ" as "[HQ _]"|]|]; iDestruct "HQ" as "[_ HQ]"; iIntros (Hwhy) "HM"; iApply ("HQ" with "[] HM"); iPureIntro; tauto. }
  destruct (ZEND_MM_SMALL_SIZE ts) eqn:Esm.
  - destruct (Z.ltb_spec ts size) as [Hlt|Hge].
    { iDestruct "HQ" as "[_ HQ]". rewrite blocks_forget rest_forget. iApply (hwp_safe_error heap Hheap st zend_error Herr U with "[HB HR Hrv]").
      - rewrite mm_open. iExists rv, H, cs. iFrame.
      - iIntros "HM". by iApply ("HQ" with "[] HM"). }
    iDestruct "HQ" as "[HQ _]".
    destruct (Hfit ltac:(lia)) as [H32 Hsz]. destruct (bucket_index ts Ht8 H32 Esm) as [Hi Ets]. set (i := ZEND_MM_BUCKET_INDEX ts) in *.
    iDestruct "HR" as "(HC & HR)".
    iAssert (⌜length cs = 64%nat⌝)%I as %Hl; [by iDestruct "HC" as "(%Hl & _)"|]. destruct (cache_lookup cs i Hl Hi) as [l Hcl].
    replace (cache heap i) with (cache heap (Z.of_nat (Z.to_nat i))) by (by rewrite Z2Nat.id; [|lia]).
    iApply (hwp_cache_head with "HC"); [exact Hcl|]. iIntros (p Hp) "HC". iAssert (rest_at heap lim bs cs) with "[HC HR]" as "HR"; [iFrame|].
    destruct (Z.eqb_spec p NULL) as [Hp0|Hp0]; cbn [negb].
    + iDestruct (blocks_bitmap with "HB") as (bm) "(%Hbm & Hw & HB)". hload "Hw". iSpecialize ("HB" with "Hw").
      destruct (Z.eqb_spec (Z.shiftr bm i) 0) as [E|E]; cbn [negb].
      * iDestruct "HB" as "[HB _]". iApply (hwp_alloc_large with "HB HR Hrv HQ"); lia || done.
      * assert (0 < Z.shiftr bm i < 2 ^ 64) as Hr.
        { assert (0 <= Z.shiftr bm i) by (apply Z.shiftr_nonneg; lia). split; [lia|]. rewrite Z.shiftr_div_pow2; [|lia].
          apply (Z.le_lt_trans _ bm); [|lia]. apply Z.div_le_upper_bound; [lia|]. pose proof (Z.pow_pos_nonneg 2 i). nia. }
        destruct (zend_mm_low_bit_spec _ Hr) as (Hk & Hbit & _). rewrite Z.shiftr_spec in Hbit; [|lia].
        iDestruct "HB" as "[_ HB]". iDestruct ("HB" with "[//]") as "[Hfree HB]". rewrite (Z.add_comm i).
        iApply (hwp_small_block with "Hfree"); [lia|]. iIntros (b Hb) "HF". iSpecialize ("HB" with "HF"). rewrite blocks_forget rest_forget.
        iApply (hwp_use_free_block heap Hheap _ _ b _ ts size with "HB HR"); [done|split; [cbn [snd]; lia|done]|lia|lia|]. by iApply (got_served with "Hrv HQ").
    + destruct l as [|a l]; [by destruct Hp0; apply Hp|]. rewrite -(Z2Nat.id i); [|lia]. rewrite blocks_forget rest_forget.
      iApply (hwp_use_cached _ _ _ l a ts size with "HB HR"); [exact Hcl|unfold csize; lia|lia|]. by iApply (got_served with "Hrv HQ").
  - iDestruct "HQ" as "[HQ _]". apply not_small in Esm. assert (size <= 2 ^ 64 - 24) as Hsz. { destruct (decide (size <= 2 ^ 64 - 24)); [done|lia]. }
    destruct (Hfit Hsz) as [H32 Hts]. iApply (hwp_alloc_large with "HB HR Hrv HQ"); lia || done.
Qed.

Lemma hwp_alloc_int U rv size Q : 0 <= size < 2 ^ 64 ->
  mmo heap (map_to_list U ++ kept rv) -∗ reserved heap rv -∗ served U rv size True Q -∗ hwp (_zend_mm_alloc_int heap st zend_error size) Q.
Proof.
  iIntros (Hs) "HM Hrv HQ". rewrite mmo_open. iDestruct "HM" as (H cs) "[HB HR]". rewrite blocks_total rest_of_at.
  iDestruct "HB" as (total) "HB". iDestruct "HR" as (lim bs) "HR". iApply (hwp_alloc_at with "HB HR Hrv"); [done|].
  iSplit; [by iDestruct "HQ" as "[HQ _]"|]. iDestruct "HQ" as "[_ HQ]". iIntros (_) "HM". by iApply ("HQ" with "[] HM").
Qed.

Lemma hwp_alloc U size Q : 0 <= size < 2 ^ 64 ->
  mm heap U -∗ allocated heap U size Q -∗ hwp (_zend_mm_alloc_int heap st zend_error size) Q.
Proof. iIntros (Hs) "(%rv & HM & Hrv) HQ". iApply (hwp_alloc_int with "HM Hrv"); [done|]. by iApply allocated_served. Qed.
End alloc.
