(* ===== verification/ZendAllocStart.v ===== *)
(** * ZendAllocStart: a new heap

    [zend_mm_startup_ex] makes a heap without blocks of the memory of the heap structure, and
    takes the block that is kept for the report of an error. *)
From S2P Require Import Prelude Memory HeapProp ZendAlloc ZendAllocOps ZendAllocBits ZendAllocRing ZendAllocTree ZendAllocLarge ZendAllocFree.
From S2P Require Import ZendAllocLayout ZendAllocHole ZendAllocSegment ZendAllocHeap ZendAllocAlloc ZendAllocInt.
From iris.proofmode Require Import proofmode.
From stdpp Require Import list gmap.
Local Open Scope Z_scope.

Section start.
Context (heap : Z) (Hheap : 0 <= heap) (st : zend_mm_mem_handlers) {fails : Z -> Prop} `{Hst : !Storage st fails}.
Context (zend_error : hcmd unit) (Herr : report_ok heap zend_error).

(** The memory of the fields from [free_bitmap] on. *)
Definition heap_fields : hprop := region (heap + 32) 2192.

(** [n] words from [a] on, one by one. *)
Definition cells (a : Z) (n : nat) : hprop := [∗ list] i ∈ seq 0 n, ∃ v, (a + 8 * Z.of_nat i) ↦ v.

Lemma region_cells a n : region a (8 * Z.of_nat n) ⊢ cells a n.
Proof.
  rewrite region_words. iIntros "(%ws & %Hlen & H)". assert (n = length ws) as -> by lia. clear Hlen. unfold cells, words.
  iInduction ws as [|w ws] "IH" using rev_ind; [done|]. rewrite length_app seq_app big_sepL_app big_sepL_singleton. cbn [length seq].
  rewrite big_sepL_app big_sepL_singleton !Nat.add_0_r. iDestruct "H" as "[H Hw]". iSplitL "H"; [by iApply "IH"|]. by iExists w.
Qed.

Lemma cells_cons a n : cells a (S n) ⊣⊢ (∃ v, a ↦ v) ∗ cells (a + 8) n.
Proof.
  unfold cells. cbn [seq]. rewrite big_sepL_cons Z.mul_0_r Z.add_0_r. rewrite -fmap_S_seq big_sepL_fmap. apply bi.sep_proper; [done|].
  apply big_sepL_proper. intros k i _. by replace (a + 8 * Z.of_nat (S i)) with (a + 8 + 8 * Z.of_nat i) by lia.
Qed.

#[local] Typeclasses Opaque cells.

(** *** The loops *)

Lemma hwp_clear_cache n i Q :
  cells (cache heap i) n -∗ (([∗ list] k ∈ seq 0 n, cache heap (i + Z.of_nat k) ↦ NULL) -∗ Q tt) -∗ hwp (clear_cache heap n i) Q.
Proof.
  iIntros "HC HQ". iInduction n as [|n] "IH" forall (i); cbn [clear_cache].
  - iApply hwp_ret. by iApply "HQ".
  - rewrite cells_cons. iDestruct "HC" as "[[%v Hc] HC]". hstore "Hc".
    replace (cache heap i + 8) with (cache heap (i + 1)) by (unfold cache; lia). iApply ("IH" with "HC"). iIntros "HC". iApply "HQ".
    cbn [seq]. rewrite big_sepL_cons Z.add_0_r. iFrame "Hc". rewrite -fmap_S_seq big_sepL_fmap.
    iApply (big_sepL_impl with "HC"). iIntros "!>" (k j _) "H". by replace (i + Z.of_nat (S j)) with (i + 1 + Z.of_nat j) by lia.
Qed.

(** A bucket without blocks. *)
Lemma empty_bucket i : ZEND_MM_SMALL_FREE_BUCKET heap i = heap + 648 + 16 * i.
Proof. unfold ZEND_MM_SMALL_FREE_BUCKET, free_buckets. lia. Qed.

Lemma hwp_init_loop n i Q :
  cells (free_buckets heap (2 * i)) (2 * n) -∗ cells (large_free_buckets heap i) n -∗
  (([∗ list] k ∈ seq 0 n, small_bucket heap (i + Z.of_nat k) [] ∗ bucket_tree heap (i + Z.of_nat k) Nil) -∗ Q tt) -∗
  hwp (init_loop heap n (ZEND_MM_SMALL_FREE_BUCKET heap i) i) Q.
Proof.
  iIntros "HS HL HQ". iInduction n as [|n] "IH" forall (i); cbn [init_loop].
  - iApply hwp_ret. by iApply "HQ".
  - replace (2 * S n)%nat with (S (S (2 * n))) by lia. rewrite !cells_cons. iDestruct "HS" as "([%u Hp] & [%v Hn] & HS)". iDestruct "HL" as "[[%w Hl] HL]".
    assert (free_buckets heap (2 * i) = prev_free_block (ZEND_MM_SMALL_FREE_BUCKET heap i)) as -> by (rewrite empty_bucket; unfold free_buckets, prev_free_block; lia).
    assert (prev_free_block (ZEND_MM_SMALL_FREE_BUCKET heap i) + 8 = next_free_block (ZEND_MM_SMALL_FREE_BUCKET heap i)) as -> by (unfold prev_free_block, next_free_block; lia).
    assert (next_free_block (ZEND_MM_SMALL_FREE_BUCKET heap i) + 8 = free_buckets heap (2 * (i + 1))) as -> by (rewrite empty_bucket; unfold free_buckets, next_free_block; lia).
    replace (large_free_buckets heap i + 8) with (large_free_buckets heap (i + 1)) by (unfold large_free_buckets; lia).
    hstore "Hn". hstore "Hp". hstore "Hl". replace (ZEND_MM_SMALL_FREE_BUCKET heap i + 16) with (ZEND_MM_SMALL_FREE_BUCKET heap (i + 1)) by (rewrite !empty_bucket; lia).
    iApply ("IH" with "HS HL"). iIntros "HC". iApply "HQ". cbn [seq]. rewrite big_sepL_cons Z.add_0_r. iSplitL "Hn Hp Hl".
    + unfold small_bucket, bucket_tree. rewrite ring_cons ttree_nil dseg_nil. cbn [List.last List.hd]. iFrame. by rewrite big_sepL_nil.
    + rewrite -fmap_S_seq big_sepL_fmap. iApply (big_sepL_impl with "HC"). iIntros "!>" (k j _) "H".
      by replace (i + Z.of_nat (S j)) with (i + 1 + Z.of_nat j) by lia.
Qed.

(** *** The state they leave *)

Lemma free_ok_empty : free_ok ∅ (replicate 64 []) (replicate 64 Nil) [] 0 0.
Proof.
  split; try done.
  - intros i l x Hl. apply lookup_replicate_1 in Hl as [-> _]. set_solver.
  - intros i t Ht. apply lookup_replicate_1 in Ht as [-> _]. done.
  - intros x n Hx. exfalso. vm_compute in Hx. set_solver.
  - intros. apply Z.testbit_0_l.
  - intros i t Ht. apply lookup_replicate_1 in Ht as [-> _]. apply Z.testbit_0_l.
Qed.

Lemma big_sepL_replicate {A} (x : A) n (Φ : nat -> A -> hprop) :
  ([∗ list] k ∈ seq 0 n, Φ k x) ⊢ [∗ list] k ↦ y ∈ replicate n x, Φ k y.
Proof.
  iIntros "H". iInduction n as [|n] "IH" forall (Φ); [done|]. cbn [seq replicate]. rewrite !big_sepL_cons -fmap_S_seq big_sepL_fmap.
  iDestruct "H" as "[$ H]". by iApply ("IH" $! (fun k => Φ (S k))).
Qed.

Definition init_fields : hprop :=
  (∃ v, free_bitmap heap ↦ v) ∗ (∃ v, large_free_bitmap heap ↦ v) ∗ (∃ v, cached heap ↦ v) ∗ cells (cache heap 0) 64 ∗
  cells (free_buckets heap 0) 128 ∗ cells (large_free_buckets heap 0) 64 ∗ (∃ v, rest_buckets heap 0 ↦ v) ∗ (∃ v, rest_buckets heap 1 ↦ v) ∗
  (∃ v, rest_count heap ↦ v).

Lemma hwp_init Q : init_fields -∗ (fs heap ∅ -∗ caches heap (replicate 64 []) -∗ Q tt) -∗ hwp (zend_mm_init heap) Q.
Proof.
  iIntros "([%v1 H1] & [%v2 H2] & [%v3 H3] & HC & HS & HL & [%v4 H4] & [%v5 H5] & [%v6 H6]) HQ". unfold zend_mm_init.
  hstore "H1". hstore "H2". hstore "H3". iApply hwp_bind. iApply (hwp_clear_cache with "HC"). iIntros "HC".
  iApply hwp_bind. iApply (hwp_init_loop 64 0 with "HS HL"). iIntros "HB". hstore "H5". hstore "H4". iApply (hwp_store with "H6"). iIntros "H6".
  rewrite big_sepL_sep. iDestruct "HB" as "[HS HL]". iApply ("HQ" with "[H1 H2 HS HL H4 H5 H6] [H3 HC]").
  - iExists [], (replicate 64 []), (replicate 64 Nil), 0, 0. iSplit; [iPureIntro; apply free_ok_empty|]. iSplitR; [by rewrite /sizes big_sepM_empty|].
    iFrame "H1 H2". rewrite -(big_sepL_replicate [] 64 (fun k l => small_bucket heap (Z.of_nat k) l)). iFrame "HS".
    rewrite -(big_sepL_replicate Nil 64 (fun k t => bucket_tree heap (Z.of_nat k) t)). iFrame "HL".
    rewrite rest_ring_eq ring_cons dseg_nil. cbn [List.last List.hd fmap list_fmap]. destruct (rest_words heap) as [-> ->]. iFrame. cbn. iPureIntro. lia.
  - iSplit; [done|]. iSplitL "H3"; [done|].
    iDestruct (big_sepL_replicate [] 64 (fun k l => ∃ p, cache heap (Z.of_nat k) ↦ p ∗ clist p (csize k) l)%I with "[HC]") as "HC"; [|iExact "HC"].
    iApply (big_sepL_impl with "HC"). iIntros "!>" (k j Hj) "H". apply lookup_seq in Hj as [-> _]. iExists NULL. iFrame. by rewrite clist_nil.
Qed.

(** All fields. *)
Definition heap_cells : hprop :=
  init_fields ∗ (∃ v, block_size heap ↦ v) ∗ (∃ v, segments_list heap ↦ v) ∗ (∃ v, real_size heap ↦ v) ∗
  (∃ v, reserve heap ↦ v) ∗
  (∃ v, real_peak heap ↦ v) ∗ (∃ v, limit heap ↦ v) ∗ (∃ v, h_size heap ↦ v) ∗ (∃ v, h_peak heap ↦ v) ∗ (∃ v, overflow heap ↦ v) ∗
  (∃ v, reserve_size heap ↦ v) ∗ ∃ v, compact_size heap ↦ v.

Lemma fields_cells : heap_fields ⊢ heap_cells.
Proof.
  unfold heap_fields, heap_cells. iIntros "H". 
  rewrite (region_split (heap + 32) 120 2072); [|lia..|done]. iDestruct "H" as "[H1 H]". replace (heap + 32 + 120) with (heap + 152) by lia.
  rewrite (region_split (heap + 152) 512 1560); [|lia..|done]. iDestruct "H" as "[H2 H]". replace (heap + 152 + 512) with (heap + 664) by lia.
  rewrite (region_split (heap + 664) 1024 536); [|lia..|done]. iDestruct "H" as "[H3 H]". replace (heap + 664 + 1024) with (heap + 1688) by lia.
  rewrite (region_split (heap + 1688) 512 24); [|lia..|done]. iDestruct "H" as "[H4 H5]". replace (heap + 1688 + 512) with (heap + 2200) by lia.
  rewrite (region_cells (heap + 152) 64) (region_cells (heap + 664) 128) (region_cells (heap + 1688) 64) (region_cells (heap + 2200) 3) (region_cells (heap + 32) 15).
  rewrite !(cells_cons (heap + 2200)). iDestruct "H5" as "[Hr0 H5]". rewrite !(cells_cons (heap + 2200 + 8)). iDestruct "H5" as "[Hr1 H5]".
  rewrite !(cells_cons (heap + 2200 + 8 + 8)). iDestruct "H5" as "[Hr2 _]".
  unfold init_fields, cache, free_buckets, large_free_buckets, rest_buckets. rewrite !Z.mul_0_r !Z.add_0_r. iFrame "H2 H3 H4".
  unfold free_bitmap, large_free_bitmap, block_size, compact_size, segments_list, real_size, real_peak, limit, h_size, h_peak, reserve_size, reserve, overflow, cached, rest_count.
  replace (heap + 2200 + 8 * 1) with (heap + 2200 + 8) by lia. replace (heap + 2216) with (heap + 2200 + 8 + 8) by lia. iFrame "Hr0 Hr1 Hr2".
  unfold cells. cbn [seq]. rewrite !big_sepL_cons big_sepL_nil.
  repeat match goal with |- context [heap + 32 + 8 * Z.of_nat ?i] => replace (heap + 32 + 8 * Z.of_nat i) with (heap + (32 + 8 * Z.of_nat i)) by lia;
    let v := eval vm_compute in (32 + 8 * Z.of_nat i) in change (32 + 8 * Z.of_nat i) with v end.
  iDestruct "H1" as "($ & $ & $ & $ & $ & _ & $ & $ & $ & $ & $ & $ & $ & $ & $ & _)".
Qed.

(** A heap without blocks. *)
Lemma hwp_startup bs rs Q : block_size_ok bs -> 0 <= rs < 2 ^ 64 ->
  heap_fields -∗ ((mm heap ∅ -∗ Q (Done tt)) ∧ (after_error heap ∅ -∗ Q Bailout)) -∗
  hwp (zend_mm_startup_ex heap st zend_error bs rs) Q.
Proof.
  iIntros (Hbs Hrs) "HF HQ". iDestruct (fields_cells with "HF") as "(Hinit & [%v1 Hbs] & [%v2 Hsl] & [%v3 Hreal] & [%v4 Hrv] & [%v5 Hpk] & [%v6 Hlim] & [%v7 Hsz] & [%v8 Hp] & [%v9 Ho] & [%v10 Hrs] & [%v11 Hcs])".
  unfold zend_mm_startup_ex. hstore "Hbs". hstore "Hcs". hstore "Hsl". iApply hwp_bind. iApply (hwp_init with "Hinit"). iIntros "Hfs HC".
  hstore "Hreal". hstore "Ho". hstore "Hpk". hstore "Hlim". hstore "Hsz". hstore "Hp". hstore "Hrv". hstore "Hrs".
  iAssert (mmo heap []) with "[Hbs Hsl Hfs HC Hreal Ho Hpk Hlim Hsz Hp Hrs Hcs]" as "HM".
  { iExists ∅, (replicate 64 []), bs. iFrame. iSplitL; [|done]. iExists []. iFrame. rewrite big_sepL_nil. done. }
  destruct (Z.ltb_spec 0 rs) as [Hpos|_].
  - iApply hwp_bind. iApply (hwp_alloc_int heap Hheap st zend_error Herr ∅ None with "[HM] [Hrv]"); [done|done|by iFrame|]. iSplit.
    + iIntros (a n _) "HM [Hrv _] Hr". hstore "Hrv". iApply hwp_ret. iDestruct "HQ" as "[HQ _]". iApply "HQ". iExists (Some (a, n)). iFrame.
    + iIntros (_) "HM". iApply hwp_ret. iDestruct "HQ" as "[_ HQ]". by iApply "HQ".
  - iApply hwp_ret. iDestruct "HQ" as "[HQ _]". iApply "HQ". iExists None. iFrame.
Qed.
End start.
