(* ===== verification/ZendAllocGather.v ===== *)
(** * ZendAllocGather: the memory of a heap

    When a heap is shut down, whatever its blocks are, its memory is that of its segments and
    that of the heap structure. *)
From S2P Require Import Prelude Memory HeapProp ZendAlloc ZendAllocOps ZendAllocBits ZendAllocRing ZendAllocTree ZendAllocLarge ZendAllocFree.
From S2P Require Import ZendAllocLayout ZendAllocHole ZendAllocSegment ZendAllocHeap ZendAllocAlloc ZendAllocInt ZendAllocStart.
From iris.proofmode Require Import proofmode.
From stdpp Require Import list gmap.
Local Open Scope Z_scope.

(** The data of the blocks in a list. *)
Definition bodies (l : list (Z * Z)) : hprop := [∗ list] b ∈ l, region (b.1 + 16) (b.2 - 16).

(** The data of a free block. *)
Definition body_of (H : gmap Z Z) (x : Z) : hprop := ∃ n, ⌜H !! x = Some n⌝ ∗ region (x + 16) (n - 16).

Definition both_links (x : Z) : hprop := (∃ v, prev_free_block x ↦ v) ∗ (∃ v, next_free_block x ↦ v).

Lemma bodies_app l1 l2 : bodies (l1 ++ l2) ⊣⊢ bodies l1 ∗ bodies l2.
Proof. apply big_sepL_app. Qed.

#[global] Instance bodies_perm : Proper ((≡ₚ) ==> (⊣⊢)) bodies.
Proof. intros l l' Hl. by apply big_opL_permutation. Qed.

Lemma owned_bodies U : owned U ⊣⊢ bodies (map_to_list U).
Proof. rewrite /owned big_opM_map_to_list. apply big_sepL_proper. by intros k [a n] _. Qed.

(** ** Lists *)

Lemma dseg_both p l n : dseg p l n ⊢ [∗ list] x ∈ l, both_links x.
Proof.
  iIntros "H". iInduction l as [|x l] "IH" forall (p); [done|]. rewrite dseg_cons big_sepL_cons. iDestruct "H" as "(Hp & Hn & H)".
  iSplitL "Hp Hn"; [iSplitL "Hp"; by iExists _|]. by iApply "IH".
Qed.

Lemma ring_both x l : ring (x :: l) ⊢ both_links x ∗ [∗ list] y ∈ l, both_links y.
Proof.
  rewrite ring_cons. iIntros "(Hp & Hn & H)". iSplitL "Hp Hn"; [iSplitL "Hp"; by iExists _|]. by iApply dseg_both.
Qed.

Lemma big_sepL_seq_index {A} (l : list A) (Φ : nat -> hprop) : ([∗ list] k ↦ _ ∈ l, Φ k) ⊢ [∗ list] k ∈ seq 0 (length l), Φ k.
Proof.
  iIntros "H". iInduction l as [|x l] "IH" forall (Φ); [done|]. cbn [length seq]. rewrite !big_sepL_cons -fmap_S_seq big_sepL_fmap.
  iDestruct "H" as "[$ H]". by iApply ("IH" $! (fun k => Φ (S k))).
Qed.

Lemma big_sepL_concat {A} (ls : list (list A)) (Φ : A -> hprop) : ([∗ list] l ∈ ls, [∗ list] x ∈ l, Φ x) ⊢ [∗ list] x ∈ concat ls, Φ x.
Proof. induction ls as [|l ls IH]; [done|]. rewrite big_sepL_cons IH. cbn [concat]. by rewrite big_sepL_app. Qed.

#[local] Typeclasses Opaque cells.

Section gather.
Context (heap : Z) (Hheap : 0 <= heap) (st : zend_mm_mem_handlers) {fails : Z -> Prop} `{Hst : !Storage st fails}.

(** ** Free blocks *)

Lemma small_gather H i l : 0 <= i -> (forall x, x ∈ l -> H !! x = Some (8 * i + 32)) ->
  small_bucket heap i l ⊢ both_links (ZEND_MM_SMALL_FREE_BUCKET heap i) ∗ [∗ list] x ∈ l, body_of H x.
Proof.
  iIntros (Hi Hl) "[Hring Hregs]". rewrite ring_both. iDestruct "Hring" as "[$ Hlinks]". iCombine "Hlinks Hregs" as "H".
  rewrite -big_sepL_sep. iApply (big_sepL_impl with "H"). iIntros "!>" (k x Hx) "[[Hp Hn] Hr]". iExists (8 * i + 32). iSplit.
  - iPureIntro. apply Hl. by eapply list_elem_of_lookup_2.
  - rewrite small_region; [|lia]. iFrame. by replace (8 * i + 32 - 32) with (8 * i) by lia.
Qed.

Lemma tree_gather H lo k t pp : tree_ok H lo k t -> (forall x n, x ∈ telems t -> H !! x = Some n -> 544 <= n) ->
  ttree pp t ⊢ (∃ v, pp ↦ v) ∗ [∗ list] x ∈ telems t, body_of H x.
Proof.
  revert lo k pp. induction t as [|b sibs n l IHl r IHr]; intros lo k pp Hok Hbig.
  - rewrite ttree_nil. iIntros "H". iSplit; [by iExists _|done].
  - destruct Hok as (Hn & [[Hb0 Hb] Hsibs]%Forall_cons & Hl & Hr). cbn [telems] in Hbig |- *.
    assert (544 <= n) as H544 by (apply (Hbig b); [set_solver|done]).
    rewrite ttree_node big_sepL_cons big_sepL_app big_sepL_app. rewrite (IHl _ _ _ Hl) ?(IHr _ _ _ Hr); [|intros x m Hx; apply Hbig; set_solver..].
    iIntros "(Hpp & Hpa & Hring & Hreg & Hs & [[%v0 H0] $] & [[%v1 H1] $])". iSplitL "Hpp"; [by iExists _|].
    rewrite ring_both. iDestruct "Hring" as "[[Hp Hnx] Hlinks]". iSplitL "Hpa Hreg H0 H1 Hp Hnx".
    + iExists n. iSplit; [done|]. rewrite node_region; [|lia]. iFrame.
    + iCombine "Hlinks Hs" as "H". rewrite -big_sepL_sep. iApply (big_sepL_impl with "H"). iIntros "!>" (i x Hx) "[[Hp Hn] [Hpa Hr]]".
      iExists n. iSplit; [iPureIntro; rewrite Forall_forall in Hsibs; apply Hsibs; by eapply list_elem_of_lookup_2|].
      rewrite node_region; [|lia]. rewrite sib_region; [|lia]. iFrame.
Qed.

Lemma rest_gather H rest : (forall x n, (x, n) ∈ rest -> H !! x = Some n /\ 32 <= n) ->
  rest_ring heap rest ⊢ both_links (ZEND_MM_REST_BUCKET heap) ∗ (∃ v, rest_count heap ↦ v) ∗ [∗ list] x ∈ rest.*1, body_of H x.
Proof.
  iIntros (Hrest) "(Hring & Hbl & Hc & _)". rewrite ring_both. iDestruct "Hring" as "[$ Hlinks]". iSplitL "Hc"; [by iExists _|].
  rewrite !big_sepL_fmap. iCombine "Hlinks Hbl" as "H". rewrite -big_sepL_sep. iApply (big_sepL_impl with "H").
  iIntros "!>" (k [x n] Hx) "[[Hp Hn] Hb]". destruct (Hrest x n) as [Hxn H32]; [by eapply list_elem_of_lookup_2|]. cbn [fst]. iExists n. iSplit; [done|].
  by iApply (rest_block_region with "Hp Hn Hb").
Qed.

(** The words of the lists of small blocks. *)
Lemma bucket_cells n i : ([∗ list] k ∈ seq 0 n, both_links (ZEND_MM_SMALL_FREE_BUCKET heap (i + Z.of_nat k))) ⊢ cells (free_buckets heap (2 * i)) (2 * n).
Proof.
  iIntros "H". iInduction n as [|n] "IH" forall (i); [done|]. replace (2 * S n)%nat with (S (S (2 * n))) by lia. rewrite !cells_cons.
  cbn [seq]. rewrite big_sepL_cons Z.add_0_r -fmap_S_seq big_sepL_fmap. iDestruct "H" as "[[Hp Hn] H]". rewrite empty_bucket.
  iSplitL "Hp"; [|iSplitL "Hn"].
  - by replace (free_buckets heap (2 * i)) with (prev_free_block (heap + 648 + 16 * i)) by (unfold free_buckets, prev_free_block; lia).
  - by replace (free_buckets heap (2 * i) + 8) with (next_free_block (heap + 648 + 16 * i)) by (unfold free_buckets, next_free_block; lia).
  - replace (free_buckets heap (2 * i) + 8 + 8) with (free_buckets heap (2 * (i + 1))) by (unfold free_buckets; lia). iApply "IH".
    iApply (big_sepL_impl with "H"). iIntros "!>" (k j _) "H". by replace (i + Z.of_nat (S j)) with (i + 1 + Z.of_nat j) by lia.
Qed.

Lemma all_bucket_cells : ([∗ list] k ∈ seq 0 64, both_links (ZEND_MM_SMALL_FREE_BUCKET heap (Z.of_nat k))) ⊢ cells (free_buckets heap 0) 128.
Proof. exact (bucket_cells 64 0). Qed.

Definition free_fields : hprop :=
  (∃ v, free_bitmap heap ↦ v) ∗ (∃ v, large_free_bitmap heap ↦ v) ∗ cells (free_buckets heap 0) 128 ∗ cells (large_free_buckets heap 0) 64 ∗
  (∃ v, rest_buckets heap 0 ↦ v) ∗ (∃ v, rest_buckets heap 1 ↦ v) ∗ (∃ v, rest_count heap ↦ v).

Lemma fs_gather H : fs heap H ⊢ free_fields ∗ sizes H ∗ bodies (map_to_list H).
Proof.
  iIntros "(%rest & %sm & %lg & %bm & %lbm & %Hok & $ & Hbm & Hlbm & Hsm & Hlg & Hrest)".
  rewrite (rest_gather H); [|intros x n Hx; pose proof (free_rest _ _ _ _ _ _ Hok _ _ Hx) as Hn; split; [done|]; by apply (free_blocks _ _ _ _ _ _ Hok) in Hn as (_ & [? _] & _)].
  iDestruct "Hrest" as "([Hr0 Hr1] & Hc & Hrest)". destruct (rest_words heap) as [<- <-].
  iDestruct (big_sepL_impl _ (fun i l => both_links (ZEND_MM_SMALL_FREE_BUCKET heap (Z.of_nat i)) ∗ [∗ list] x ∈ l, body_of H x)%I with "Hsm []") as "Hsm".
  { iIntros "!>" (i l Hi) "Hl". iApply (small_gather H with "Hl"); [lia|]. intros x Hx. by apply (free_sm _ _ _ _ _ _ Hok i l). }
  iDestruct (big_sepL_impl _ (fun i t => (∃ v, large_free_buckets heap (Z.of_nat i) ↦ v) ∗ [∗ list] x ∈ telems t, body_of H x)%I with "Hlg []") as "Hlg".
  { iIntros "!>" (i t Hi) "Ht". iApply (tree_gather H with "Ht"); [by eapply free_lg|]. intros x n Hx. apply (free_lg_size _ _ _ _ _ _ Hok).
    apply elem_of_concat. exists i, (telems t). split; [by rewrite list_lookup_fmap Hi|done]. }
  iDestruct (big_sepL_sep with "Hsm") as "[Hsm Hsmb]". iDestruct (big_sepL_sep with "Hlg") as "[Hlg Hlgb]".
  iSplitL "Hbm Hlbm Hsm Hlg Hr0 Hr1 Hc".
  - iFrame "Hr0 Hr1 Hc". iSplitL "Hbm"; [by iExists _|]. iSplitL "Hlbm"; [by iExists _|]. rewrite !big_sepL_seq_index (free_sm_len _ _ _ _ _ _ Hok) (free_lg_len _ _ _ _ _ _ Hok).
    iSplitL "Hsm".
    + rewrite all_bucket_cells. iExact "Hsm".
    + unfold cells. iApply (big_sepL_impl with "Hlg"). iIntros "!>" (k j _) "[%v H]". iExists v. unfold large_free_buckets. by rewrite Z.mul_0_r Z.add_0_r.
  - rewrite big_sepL_concat. rewrite -(big_sepL_fmap telems (fun _ l => [∗ list] x ∈ l, body_of H x)%I) big_sepL_concat.
    iCombine "Hlgb Hrest" as "H". rewrite -big_sepL_app. iCombine "Hsmb H" as "H". rewrite -big_sepL_app -(big_opL_permutation _ _ _ (free_all _ _ _ _ _ _ Hok)).
    rewrite -big_opS_elements -big_sepM_dom -owned_bodies. iApply (big_sepM_impl with "H"). iIntros "!>" (x n Hx) "(%m & %Hm & Hr)". by simplify_eq.
Qed.

(** ** The cache *)

Lemma clist_gather p i l : clist p (csize i) l ⊢ bodies ((fun x => (x, csize i)) <$> l).
Proof.
  iIntros "H". iInduction l as [|x l] "IH" forall (p); [by rewrite /bodies|]. rewrite clist_cons fmap_cons /bodies big_sepL_cons. iDestruct "H" as "(_ & %q & Hp & Hr & H)".
  iSplitR "H"; [|by iApply "IH"]. cbn [fst snd]. unfold csize. rewrite (region_word (x + 16)); [|lia]. iSplitL "Hp"; [by iExists _|].
  replace (x + 16 + 8) with (x + 24) by lia. by replace (8 * Z.of_nat i + 32 - 16 - 8) with (8 * Z.of_nat i + 32 - 24) by lia.
Qed.

Lemma caches_gather cs : caches heap cs ⊢ (∃ v, cached heap ↦ v) ∗ cells (cache heap 0) 64 ∗ bodies (cpairs cs).
Proof.
  iIntros "(%Hl & Hc & HC)". iSplitL "Hc"; [by iExists _|].
  iDestruct (big_sepL_impl _ (fun i l => (∃ v, cache heap (Z.of_nat i) ↦ v) ∗ bodies ((fun x => (x, csize i)) <$> l))%I with "HC []") as "HC".
  { iIntros "!>" (i l _) "(%p & Hp & Hlist)". iSplitL "Hp"; [by iExists _|]. by rewrite clist_gather. }
  rewrite big_sepL_sep big_sepL_seq_index Hl. iDestruct "HC" as "[HC Hb]". iSplitL "HC".
  - unfold cells. iApply (big_sepL_impl with "HC"). iIntros "!>" (k j _) "[%v H]". iExists v. unfold cache. by rewrite Z.mul_0_r Z.add_0_r.
  - unfold cpairs. clear Hl. change (fun i l => bodies ((fun x => (x, csize i)) <$> l)) with (fun i l => bodies ((fun x : Z => (x, csize (0 + i))) <$> l)).
    generalize 0%nat as k. iIntros (k). iInduction cs as [|l cs] "IH" forall (k); [done|]. rewrite big_sepL_cons. cbn [cpairs_from]. rewrite bodies_app Nat.add_0_r.
    iDestruct "Hb" as "[$ Hb]". iApply ("IH" $! (S k)). iApply (big_sepL_impl with "Hb"). iIntros "!>" (i l' _) "H". by rewrite Nat.add_succ_r.
Qed.

(** ** Segments *)

(** A segment in the list, with all its memory. *)
Definition whole_ok (s n : Z) : Prop := 0 < s /\ s mod 8 = 0 /\ 64 <= n < 2 ^ 64 /\ n mod 8 = 0.

Fixpoint segs_mem (l : list (Z * Z)) : hprop :=
  match l with
  | [] => emp
  | (s, n) :: l => ⌜whole_ok s n⌝ ∗ seg_size s ↦ n ∗ next_segment s ↦ List.hd NULL l.*1 ∗ region (s + 16) (n - 16) ∗ segs_mem l
  end.

Lemma segs_mem_cons s n l : segs_mem ((s, n) :: l) ⊣⊢
  ⌜whole_ok s n⌝ ∗ seg_size s ↦ n ∗ next_segment s ↦ List.hd NULL l.*1 ∗ region (s + 16) (n - 16) ∗ segs_mem l.
Proof. done. Qed.

(** The memory of free blocks. *)
Definition freed (l : list (Z * Z)) : hprop := [∗ list] b ∈ l, b_size b.1 ↦ b.2 ∗ region (b.1 + 16) (b.2 - 16).

Lemma freed_app l1 l2 : freed (l1 ++ l2) ⊣⊢ freed l1 ∗ freed l2.
Proof. apply big_sepL_app. Qed.

Lemma row_gather a l : Forall blk_ok l ->
  (∃ v, b_prev a ↦ v) -∗ row_tail a l -∗ freed (select false a l) -∗ bodies (select true a l) -∗ region a (row_size l + 16).
Proof.
  iIntros (Hl) "Hp H HF HU". iInduction Hl as [|[u n] l [Hn H8] Hl] "IH" forall (a).
  - rewrite tail_nil. cbn [row_size]. rewrite (region_word a); [|lia]. rewrite (region_word (a + 8)); [|lia].
    iSplitL "H"; [by iExists _|]. iSplitL "Hp"; [done|]. replace (0 + 16 - 8 - 8) with 0 by lia. iApply region_nil.
  - cbn [fst snd] in *. rewrite tail_cons. cbn [row_size select fst snd]. rewrite freed_app bodies_app. iDestruct "H" as "(Hs & Hp' & H)".
    iDestruct "HF" as "[HF1 HF]". iDestruct "HU" as "[HU1 HU]". cbn [snd].
    replace (n + row_size l + 16) with (n + (row_size l + 16)) by lia.
    assert (0 <= row_size l) by by apply row_size_nonneg. rewrite (region_split a n); [|lia|lia|done].
    iSplitR "Hp' H HF HU"; [|by iApply ("IH" with "[Hp'] H HF HU"); iExists _].
    rewrite (region_word a); [|lia]. rewrite (region_word (a + 8)); [|lia]. replace (a + 8 + 8) with (a + 16) by lia. replace (n - 8 - 8) with (n - 16) by lia.
    iFrame "Hp". destruct u; cbn [eqb].
    + rewrite /bodies big_sepL_singleton. iFrame "HU1". by iExists _.
    + rewrite /freed big_sepL_singleton. iDestruct "HF1" as "[Hs1 $]". by iExists _.
Qed.

Lemma sgm_whole sg : sgm_ok sg -> whole_ok sg.1 (32 + row_size sg.2).
Proof.
  destruct sg as [s l]. intros ((H1 & H2 & H3) & Hl & Hne). cbn [fst snd] in *. pose proof (row_size_mod8 l Hl) as H8.
  assert (32 <= row_size l).
  { destruct Hl as [|b l [Hb _] Hl]; [done|]. cbn [row_size]. pose proof (row_size_nonneg l Hl). lia. }
  split_and!; [done|done|lia|lia|]. rewrite Z.add_mod; [|done]. by rewrite H8.
Qed.

Lemma segs_gather p segs : Forall sgm_ok segs ->
  segl p segs.*1 -∗ ([∗ list] sg ∈ segs, seg sg) -∗ freed (selects false segs) -∗ bodies (selects true segs) -∗
  ∃ ss, p ↦ List.hd NULL ss.*1 ∗ segs_mem ss.
Proof.
  iIntros (Hok) "Hsl HS HF HU". iAssert (p ↦ List.hd NULL ((fun sg => (sg.1, 32 + row_size sg.2)) <$> segs).*1 ∗ segs_mem ((fun sg : sgm => (sg.1, 32 + row_size sg.2)) <$> segs))%I
    with "[Hsl HS HF HU]" as "H"; [|by iExists _].
  iInduction Hok as [|[s l] segs Hsg Hok] "IH" forall (p); [rewrite segl_nil; by iFrame|].
  rewrite !fmap_cons segl_cons big_sepL_cons. cbn [selects fst snd List.hd]. rewrite freed_app bodies_app segs_mem_cons.
  iDestruct "Hsl" as "[$ Hsl]". iDestruct "HS" as "[(Hsz & Hp & Htl) HS]". iDestruct "HF" as "[HF1 HF]". iDestruct "HU" as "[HU1 HU]".
  iDestruct ("IH" with "Hsl HS HF HU") as "[$ $]". cbn [fst snd]. iFrame "Hsz". iSplit; [iPureIntro; apply (sgm_whole _ Hsg)|].
  replace (32 + row_size l - 16) with (row_size l + 16) by lia. iApply (row_gather with "[Hp] Htl HF1 HU1"); [by destruct Hsg as (_ & ? & _)|by iExists _].
Qed.

(** ** The heap *)

(** What the memory of a heap is made of, whatever blocks it had. *)
Definition taken_apart : hprop :=
  ∃ ss bs, ⌜block_size_ok bs⌝ ∗ segments_list heap ↦ List.hd NULL ss.*1 ∗ segs_mem ss ∗ init_fields heap ∗ (∃ v, real_size heap ↦ v) ∗
    (∃ v, reserve heap ↦ v) ∗ counters heap ∗ block_size heap ↦ bs.

Lemma mmo_gather l : mmo heap l -∗ bodies l -∗ (∃ v, reserve heap ↦ v) -∗ taken_apart.
Proof.
  iIntros "(%H & %cs & %bs & (%segs & (%Hok & Hsl & Hreal & HS) & HF & %Hf & %Ht) & HC & HN & Hbs & %Hbs) Hl Hrv".
  rewrite fs_gather caches_gather. iDestruct "HF" as "((H1 & H2 & H3 & H4 & H5 & H6 & H7) & Hsz & Hb)". iDestruct "HC" as "(Hc & HC & Hcb)".
  iDestruct (segs_gather with "Hsl HS [Hsz Hb] [Hl Hcb]") as (ss) "[Hsl Hss]"; [done| | |].
  - rewrite /sizes big_opM_map_to_list /bodies. iCombine "Hsz Hb" as "H". rewrite -big_sepL_sep -Hf /freed.
    iApply (big_sepL_impl with "H"). by iIntros "!>" (k [x n] _) "H".
  - rewrite Ht bodies_app. iFrame.
  - iExists ss, bs. iFrame "Hsl Hss HN Hbs". iSplit; [done|]. iSplitR "Hreal Hrv"; [|iSplitL "Hreal"; [by iExists _|done]].
    unfold init_fields. iFrame "H1 H2 Hc". iSplitL "HC"; [iExact "HC"|]. iSplitL "H3"; [iExact "H3"|]. iSplitL "H4"; [iExact "H4"|]. iFrame "H5 H6 H7".
Qed.

Lemma abandoned_gather : abandoned heap ⊢ taken_apart.
Proof.
  iIntros "(%U & (%rv & HM & Hrv & Hkept) & HU)". rewrite owned_bodies. iApply (mmo_gather with "HM [HU Hkept] [Hrv]"); [|by iExists _].
  rewrite bodies_app. iFrame "HU". destruct rv as [[a n]|]; cbn [kept]; rewrite /bodies; [|done]. by rewrite big_sepL_singleton.
Qed.
End gather.
