(* ===== verification/ZendAllocShutdown.v ===== *)
(** * ZendAllocShutdown: the end of a request

    [zend_mm_shutdown] gives the segments back to the storage, whatever blocks callers have left
    behind, and makes a new heap of the last one, or takes the heap down. *)
From S2P Require Import Prelude Memory HeapProp ZendAlloc ZendAllocOps ZendAllocBits ZendAllocRing ZendAllocTree ZendAllocLarge ZendAllocFree.
From S2P Require Import ZendAllocLayout ZendAllocHole ZendAllocSegment ZendAllocHeap ZendAllocAlloc ZendAllocInt ZendAllocStart ZendAllocGather.
From iris.proofmode Require Import proofmode.
From stdpp Require Import list gmap.
Local Open Scope Z_scope.

Section shutdown.
Context (heap : Z) (Hheap : 0 <= heap) (st : zend_mm_mem_handlers) {fails : Z -> Prop} `{Hst : !Storage st fails}.
Context (zend_error : hcmd unit) (Herr : report_ok heap zend_error).

(** ** Segments go *)

(** A segment as the storage has given it. *)
Lemma whole_region s n v : whole_ok s n -> seg_size s ↦ n -∗ next_segment s ↦ v -∗ region (s + 16) (n - 16) -∗ region s n.
Proof.
  iIntros ((_ & _ & [Hn _] & _)) "Hs Hn Hr". rewrite (region_word s); [|lia]. rewrite (region_word (s + 8)); [|lia].
  iSplitL "Hs"; [by iExists _|]. iSplitL "Hn"; [by iExists _|]. replace (s + 8 + 8) with (s + 16) by lia. by replace (n - 8 - 8) with (n - 16) by lia.
Qed.

Lemma segs_bound l Q : segs_mem l -∗ (∀ k, ⌜(length l < k)%nat⌝ -∗ segs_mem l -∗ Q k) -∗ hwp bound Q.
Proof.
  iIntros "H HQ". iApply (hwp_bound (next_segment <$> l.*1)). iSplit.
  - iClear "HQ". rewrite !big_sepL_fmap. iInduction l as [|[s n] l] "IH"; [done|]. rewrite segs_mem_cons big_sepL_cons. iDestruct "H" as "(_ & _ & Hn & _ & H)".
    iSplitL "Hn"; [by iExists _|by iApply "IH"].
  - iIntros (k Hk). rewrite !length_fmap in Hk. by iApply ("HQ" with "[] H").
Qed.

Lemma hwp_free_segments fuel l Q : (length l < fuel)%nat -> segs_mem l -∗ Q tt -∗ hwp (free_segments st fuel (List.hd NULL l.*1)) Q.
Proof.
  iIntros (Hf) "H HQ". iInduction fuel as [|fuel] "IH" forall (l Hf); [lia|]. cbn [free_segments]. destruct l as [|[s n] l].
  - cbn [fmap list_fmap List.hd]. rewrite Z.eqb_refl. by iApply hwp_ret.
  - rewrite segs_mem_cons. iDestruct "H" as "(%Hs & Hz & Hn & Hr & H)". cbn [fmap list_fmap fst List.hd].
    destruct (Z.eqb_spec s NULL) as [->|_]; [destruct Hs as (Hs & _); unfold NULL in Hs; lia|]. hload "Hn". iApply hwp_bind. iApply free_spec. iSplitR "H HQ".
    + by iApply (whole_region with "Hz Hn Hr").
    + iApply ("IH" with "[] H HQ"). iPureIntro. simpl in Hf. lia.
Qed.

Lemma hwp_free_but_last fuel l Q : (length l < fuel)%nat -> l <> [] ->
  segs_mem l -∗ (∀ s n, segs_mem [(s, n)] -∗ Q s) -∗ hwp (free_but_last st fuel (List.hd NULL l.*1)) Q.
Proof.
  iIntros (Hf Hl) "H HQ". iInduction fuel as [|fuel] "IH" forall (l Hf Hl); [lia|]. cbn [free_but_last]. destruct l as [|[s n] l]; [done|].
  rewrite segs_mem_cons. iDestruct "H" as "(%Hs & Hz & Hn & Hr & H)". cbn [fmap list_fmap fst List.hd]. hload "Hn". destruct l as [|[s2 n2] l].
  - cbn [fmap list_fmap List.hd]. rewrite Z.eqb_refl. iApply hwp_ret. iApply ("HQ" $! s n). rewrite segs_mem_cons. by iFrame.
  - iAssert (⌜whole_ok s2 n2⌝)%I as %Hs2; [rewrite segs_mem_cons; by iDestruct "H" as "(%Hs2 & _)"|]. cbn [fmap list_fmap fst List.hd].
    destruct (Z.eqb_spec s2 NULL) as [->|_]; [destruct Hs2 as (Hs2 & _); unfold NULL in Hs2; lia|]. iApply hwp_bind. iApply free_spec. iSplitR "H HQ".
    + by iApply (whole_region with "Hz Hn Hr").
    + iApply ("IH" with "[] [] H HQ"); iPureIntro; [simpl in Hf |- *; lia|done].
Qed.

(** ** The segment that is kept *)

(** The words of a segment around the data of its only block. *)
Lemma whole_words s n : whole_ok s n -> region (s + 16) (n - 16) -∗ ∃ u v ws w z, ⌜(n - 32 - 16 = 8 * Z.of_nat (length ws))%Z⌝ ∗
  b_size (s + 16) ↦ u ∗ b_prev (s + 16) ↦ v ∗ words (s + 16 + 16) ws ∗ b_size (s + 16 + (n - 32)) ↦ w ∗ b_prev (s + 16 + (n - 32)) ↦ z.
Proof.
  iIntros ((_ & _ & [Hn _] & H8)) "Hr". set (m := n - 32). replace (n - 16) with (16 + ((m - 16) + 16)) by lia.
  rewrite (region_split (s + 16) 16); [|lia..|done]. rewrite (region_split (s + 16 + 16) (m - 16) 16); [|lia..|].
  2:{ unfold m. replace (n - 32 - 16) with (n + (-6) * 8) by lia. by rewrite Z.mod_add. }
  replace (s + 16 + 16 + (m - 16)) with (s + 16 + m) by lia. iDestruct "Hr" as "(H1 & H2 & H3)".
  rewrite (region_word (s + 16)); [|lia]. rewrite (region_word (s + 16 + 8)); [|lia]. rewrite (region_word (s + 16 + m)); [|lia]. rewrite (region_word (s + 16 + m + 8)); [|lia].
  iDestruct "H1" as "([%u Hu] & [%v Hv] & _)". iDestruct "H3" as "([%w Hw] & [%z Hz] & _)". rewrite region_words. iDestruct "H2" as "(%ws & %Hws & H2)".
  iExists u, v, ws, w, z. unfold b_size, b_prev. iFrame. done.
Qed.

Lemma hwp_mark_free_segment s n Q :
  segs_mem [(s, n)] -∗ segments_list heap ↦ s -∗ real_size heap ↦ n -∗ fs heap ∅ -∗
  (∀ H, blocks heap H [] -∗ Q tt) -∗ hwp (mark_free_segment heap s) Q.
Proof.
  rewrite segs_mem_cons. iIntros "(%Hok & Hsz & Hnx & Hr & _) Hsl Hreal HF HQ". iDestruct (whole_words with "Hr") as (u v ws w z) "(%Hws & Hb & Hp & Hw & Hg & Hz)"; [done|].
  destruct Hok as (Hs0 & Hs8 & [Hn Hn64] & Hn8). unfold mark_free_segment. cbv zeta. change ZEND_MM_ALIGNED_SEGMENT_SIZE with 16. change ZEND_MM_ALIGNED_HEADER_SIZE with 16.
  hload "Hsz". replace (n - 16 - 16) with (n - 32) by lia. assert (u64 (n - 32) = n - 32) as -> by (apply Z.mod_small; lia). set (m := n - 32) in *.
  unfold ZEND_MM_MARK_FIRST_BLOCK, ZEND_MM_LAST_BLOCK. hstore "Hp". hstore "Hg". iApply hwp_bind. iApply (hwp_block with "Hb Hz"). iIntros "Hb Hz".
  set (g := Gap [] s [] [] []). assert (gaddr g = s + 16) as Ea by (unfold gaddr; cbn; lia).
  assert (blk_ok (false, m)) as Hm. { split; cbn [snd]; [lia|]. unfold m. replace (n - 32) with (n + (-4) * 8) by lia. by rewrite Z.mod_add. }
  assert (gap_ok g m) as Hgok.
  { unfold gap_ok, gsize, row_ok, g. cbn [gsegs1 gseg gbefore gafter gsegs2 row_size]. split_and!; try done; lia. }
  rewrite -Ea. iApply (hwp_give heap Hheap false g m ∅ [] ws with "[-HQ Hb Hw Hz] Hb Hw Hz HQ"); [done..|].
  unfold gap. iFrame "HF". iSplitL; [|iPureIntro; unfold gselect; cbn; by rewrite map_to_list_empty].
  unfold gapped. rewrite Ea. unfold gsize. cbn [g gsegs1 gseg gbefore gafter gsegs2 row_size fmap list_fmap app]. change (seg_total []) with 0.
  replace (0 + m + 0) with m by lia. replace (0 + (32 + m) + 0) with n by lia. assert (u64 n = n) as -> by (apply Z.mod_small; lia).
  replace (32 + m) with n by lia. rewrite tail_nil segl_cons segl_nil /links /endtag. cbn [List.hd]. iFrame. by rewrite big_sepL_nil.
Qed.

(** ** Shutdown *)

Lemma hwp_release_segments ss Q :
  segs_mem ss -∗ segments_list heap ↦ List.hd NULL ss.*1 -∗ counters heap -∗
  (∀ ss', ⌜(length ss' <= 1)%nat⌝ -∗ segs_mem ss' -∗ segments_list heap ↦ List.hd NULL ss'.*1 -∗ counters heap -∗ Q tt) -∗
  hwp (release_segments heap st) Q.
Proof.
  iIntros "HS Hsl (H1 & H2 & H3 & H4 & H5 & [%rs [Hrs %Hrs]] & H6) HQ". unfold release_segments. hload "Hsl".
  destruct (Z.eqb_spec (List.hd NULL ss.*1) NULL) as [E|E].
  - iApply hwp_ret. destruct ss as [|[s n] ss].
    + iApply ("HQ" $! [] with "[] HS Hsl"); [iPureIntro; simpl; lia|]. iFrame. done.
    + rewrite segs_mem_cons. iDestruct "HS" as "([%Hs _] & _)". cbn [fmap list_fmap fst List.hd] in E. unfold NULL in E. lia.
  - iApply hwp_bind. iApply (segs_bound with "HS"). iIntros (k Hk) "HS". hload "Hrs". destruct (rs =? 0) eqn:Ers; cbn [negb].
    + iApply hwp_bind. iApply (hwp_free_segments with "HS"); [done|]. iApply (hwp_store with "Hsl"). iIntros "Hsl".
      iApply ("HQ" $! [] with "[] [] Hsl"); [iPureIntro; simpl; lia|done|]. iFrame. done.
    + iApply hwp_bind. iApply (hwp_free_but_last with "HS"); [done|by intros ->|]. iIntros (s n) "HS". iApply (hwp_store with "Hsl"). iIntros "Hsl".
      iApply ("HQ" $! [(s, n)] with "[] HS Hsl"); [iPureIntro; simpl; lia|]. iFrame. done.
Qed.

(** The memory of the last segment, if it was kept, becomes a free block. *)
Lemma hwp_reuse_segment {A} ss bs (k : hcmd A) Q : (length ss <= 1)%nat -> block_size_ok bs ->
  segs_mem ss -∗ segments_list heap ↦ List.hd NULL ss.*1 -∗ (∃ v, real_size heap ↦ v) -∗ counters heap -∗ fs heap ∅ -∗ caches heap (replicate 64 []) -∗
  block_size heap ↦ bs -∗ (mmo heap [] -∗ hwp k Q) -∗
  hwp (segment ← load (segments_list heap);
       size ← (if segment =? NULL then mret 0 else load (seg_size segment));
       storev (real_size heap) size ;;
       storev (real_peak heap) size ;;
       storev (h_size heap) 0 ;;
       storev (h_peak heap) 0 ;;
       (if segment =? NULL then mret tt else mark_free_segment heap segment) ;;
       k) Q.
Proof.
  iIntros (Hlen Hbs) "HS Hsl [%v Hreal] ([%v1 H1] & H2 & [%v3 H3] & [%v4 H4] & HN) HF HC Hbs HQ". hload "Hsl".
  destruct ss as [|[s n] [|? ?]]; [| |simpl in Hlen; lia]; cbn [fmap list_fmap fst List.hd].
  - rewrite Z.eqb_refl. iApply hwp_bind. iApply hwp_ret. hstore "Hreal". hstore "H1". hstore "H3". hstore "H4". iApply hwp_bind. iApply hwp_ret. iApply "HQ".
    iExists ∅, (replicate 64 []), bs. iFrame "HC Hbs". iSplitL "Hsl Hreal HF"; [iExists []; iFrame; by rewrite big_sepL_nil|]. iFrame. done.
  - iAssert (⌜whole_ok s n⌝)%I as %Hs; [rewrite segs_mem_cons; by iDestruct "HS" as "(%Hs & _)"|].
    destruct (Z.eqb_spec s NULL) as [->|_]; [destruct Hs as (Hs & _); unfold NULL in Hs; lia|].
    rewrite segs_mem_cons. iDestruct "HS" as "(_ & Hz & HS)". iApply hwp_bind. iApply (hwp_load with "Hz"). iIntros "Hz".
    hstore "Hreal". hstore "H1". hstore "H3". hstore "H4". iApply hwp_bind. iApply (hwp_mark_free_segment s n with "[Hz HS] Hsl Hreal HF"); [rewrite segs_mem_cons; by iFrame|].
    iIntros (H) "HB". iApply "HQ". iExists H, (replicate 64 []), bs. iFrame. done.
Qed.

(** A new heap for the next request. *)
Lemma hwp_shutdown libc_free Q :
  abandoned heap -∗ ((mm heap ∅ -∗ Q (Done tt)) ∧ (abandoned heap -∗ Q Bailout)) -∗ hwp (zend_mm_shutdown heap st zend_error libc_free false) Q.
Proof.
  iIntros "HA HQ". iDestruct (abandoned_gather heap Hheap st with "HA") as "(%ss & %bs & %Hbs & Hsl & HS & Hinit & Hreal & [%rv Hrv] & HN & Hbs)". unfold zend_mm_shutdown.
  hload "Hrv". iApply hwp_bind. iApply (hwp_wand _ (fun _ => reserve heap ↦ NULL)%I with "[Hrv]").
  { destruct (Z.eqb_spec rv NULL) as [->|_]; [by iApply hwp_ret|]. iApply (hwp_store with "Hrv"). by iIntros "$". }
  iIntros ([]) "Hrv". iApply hwp_bind. iApply (hwp_release_segments with "HS Hsl HN"). iIntros (ss' Hlen) "HS Hsl (H1 & H2 & H3 & H4 & H5 & H6 & [%c Hc])".
  iDestruct "H1" as "[%pk H1]". hload "Hc". hload "H1". iApply hwp_bind.
  iApply (hwp_wand _ (fun _ => emp)%I); [destruct (_ && _); [by iApply compact_spec|by iApply hwp_ret]|]. iIntros ([]) "_".
  iApply hwp_bind. iApply (hwp_init heap Hheap st zend_error Herr with "Hinit"). iIntros "HF HC".
  iApply (hwp_reuse_segment with "HS Hsl Hreal [H1 H2 H3 H4 H5 H6 Hc] HF HC Hbs"); [done..|iFrame|].
  iIntros "(%H & %cs & %bs' & HB & HC & (H1 & H2 & H3 & H4 & [%o Ho] & [%rs [Hrs %Hrs]] & H6) & Hbs & Hok)". hload "Hrs".
  iAssert (∀ o, overflow heap ↦ o -∗ mmo heap (map_to_list ∅ ++ kept None))%I with "[HB HC H1 H2 H3 H4 Hrs H6 Hbs Hok]" as "HM".
  { iIntros (o') "Ho". iExists H, cs, bs'. rewrite map_to_list_empty. iFrame. done. }
  destruct (Z.eqb_spec rs 0) as [->|Hne]; cbn [negb].
  - hstore "Ho". iApply hwp_ret. iDestruct "HQ" as "[HQ _]". iApply "HQ". iExists None. iSplitR "Hrv"; [by iApply "HM"|]. by iFrame.
  - iSpecialize ("HM" with "Ho"). iApply hwp_bind. iApply (hwp_alloc_int heap Hheap st zend_error Herr ∅ None with "HM [Hrv]"); [done|by iFrame|]. iSplit.
    + iIntros (a n _) "HM [Hrv _] Hr". hstore "Hrv".
      iDestruct "HM" as "(%H' & %cs' & %bs2 & HB & HC & (H1 & H2 & H3 & H4 & [%o2 Ho] & H5 & H6) & Hbs & Hok)". hstore "Ho". iApply hwp_ret.
      iDestruct "HQ" as "[HQ _]". iApply "HQ". iExists (Some (a, n)). iFrame "Hrv Hr". iExists H', cs', bs2. iFrame.
    + iIntros (_) "HM". iApply hwp_ret. iDestruct "HQ" as "[_ HQ]". iApply "HQ". iApply (abandon_after with "HM"). by rewrite /owned big_sepM_empty.
Qed.

(** The memory of the heap structure goes back to the C library. *)
Definition free_ok (libc_free : Z -> hcmd unit) : Prop := forall Q, heap_cells heap ∗ Q tt ⊢ hwp (libc_free heap) Q.

Lemma hwp_full_shutdown libc_free Q : free_ok libc_free ->
  abandoned heap -∗ Q (Done tt) -∗ hwp (zend_mm_shutdown heap st zend_error libc_free true) Q.
Proof.
  iIntros (Hfree) "HA HQ". iDestruct (abandoned_gather heap Hheap st with "HA") as "(%ss & %bs & %Hbs & Hsl & HS & Hinit & Hreal & [%rv Hrv] & HN & Hbs)". unfold zend_mm_shutdown.
  hload "Hrv". iApply hwp_bind. iApply (hwp_wand _ (fun _ => reserve heap ↦ NULL)%I with "[Hrv]").
  { destruct (Z.eqb_spec rv NULL) as [->|_]; [by iApply hwp_ret|]. iApply (hwp_store with "Hrv"). by iIntros "$". }
  iIntros ([]) "Hrv". iApply hwp_bind. unfold full_release. hload "Hsl". iApply hwp_bind. iApply (segs_bound with "HS"). iIntros (k Hk) "HS".
  iApply hwp_bind. iApply (hwp_free_segments with "HS"); [done|]. hstore "Hsl". iApply hwp_bind. iApply dtor_spec. iApply Hfree.
  iSplitR "HQ"; [|by iApply hwp_ret]. iDestruct "HN" as "(H1 & H2 & H3 & H4 & H5 & [%rs [H6 _]] & H7)".
  unfold heap_cells. iFrame "Hinit Hreal H1 H2 H3 H4 H5 H7". iSplitL "Hbs"; [by iExists _|]. iSplitL "Hsl"; [by iExists _|]. iSplitL "Hrv"; by iExists _.
Qed.
End shutdown.
