(* ===== verification/ZendAllocResize.v ===== *)
(** * ZendAllocResize: the ways to another size

    The branches of [_zend_mm_realloc_int]: a block gives up its end, takes the free block
    behind it, moves to the cache's block or to a new one, or grows with its segment. *)
From S2P Require Import Prelude Memory HeapProp ZendAlloc ZendAllocOps ZendAllocBits ZendAllocRing ZendAllocTree ZendAllocFree.
From S2P Require Import ZendAllocSearch ZendAllocLayout ZendAllocHole ZendAllocSegment ZendAllocHeap ZendAllocAlloc ZendAllocInt.
From iris.proofmode Require Import proofmode.
From stdpp Require Import list gmap.
Local Open Scope Z_scope.

(** ** Copies *)

Lemma hwp_memcpy dest src ws ds Q : length ds = length ws ->
  words src ws -∗ words dest ds -∗ (words src ws -∗ words dest ws -∗ Q tt) -∗ hwp (memcpy (length ws) dest src) Q.
Proof.
  iIntros (Hl) "Hs Hd HQ". iInduction ws as [|w ws] "IH" forall (dest src ds Hl); destruct ds as [|d ds]; [|done..|]; cbn [memcpy length].
  - iApply hwp_ret. iApply ("HQ" with "Hs Hd").
  - rewrite !words_cons. iDestruct "Hs" as "[Hw Hs]". iDestruct "Hd" as "[Hd Hds]". hload "Hw". hstore "Hd". 
    iApply ("IH" with "[] Hs Hds"); [iPureIntro; by injection Hl|]. iIntros "Hs Hds". iApply ("HQ" with "[Hw Hs] [Hd Hds]"); iFrame.
Qed.

(** The data of a block of [n] bytes goes to a block of at least that size. *)
Lemma hwp_copy_data dest src n m ws Q : n - 16 = 8 * Z.of_nat (length ws) -> n <= m -> m mod 8 = 0 ->
  words src ws -∗ region dest (m - 16) -∗
  (∀ extra, ⌜(m - 16 = 8 * Z.of_nat (length (ws ++ extra)))%Z⌝ -∗ words src ws -∗ words dest (ws ++ extra) -∗ Q tt) -∗
  hwp (copy_data dest src n) Q.
Proof.
  iIntros (Hws Hm H8) "Hs Hd HQ". unfold copy_data. change ZEND_MM_ALIGNED_HEADER_SIZE with 16. rewrite Hws Z.mul_comm Z.div_mul; [|done]. rewrite Nat2Z.id.
  rewrite region_words. iDestruct "Hd" as "(%ds & %Hds & Hd)". rewrite -(take_drop (length ws) ds) words_app.
  assert (length (take (length ws) ds) = length ws) as Hl by (rewrite length_take; lia). rewrite Hl. iDestruct "Hd" as "[Hd Hrest]".
  iApply (hwp_memcpy with "Hs Hd"); [done|]. iIntros "Hs Hd". iApply ("HQ" $! (drop (length ws) ds) with "[] Hs").
  - iPureIntro. rewrite length_app length_drop. lia.
  - rewrite words_app. iFrame.
Qed.

(** What resizing keeps of the words. *)
Definition agree (ws ws' : list Z) : Prop := ws' `prefix_of` ws \/ ws `prefix_of` ws'.

Lemma cut_agree k ws extra : agree ws (cut k (ws ++ extra)).
Proof.
  unfold agree, cut. set (i := Z.to_nat _). destruct (decide (i <= length ws)%nat) as [Hi|Hi].
  - left. rewrite take_app_le; [|done]. apply prefix_take.
  - right. rewrite take_app_ge; [|lia]. by apply prefix_app_r.
Qed.

Section resize.
Context (heap : Z) (Hheap : 0 <= heap).

(** A block with its data becomes a hole. *)
Lemma open_words H used a n ws : n - 16 = 8 * Z.of_nat (length ws) ->
  blocks heap H ((a, n) :: used) -∗ words (a + 16) ws -∗ ∃ g, ⌜gaddr g = a⌝ ∗ hole heap g n H used ws.
Proof.
  iIntros (Hws) "HB Hw". iDestruct (open_used _ _ _ a n with "HB") as (g used') "((<- & %Hu & %Hb) & HG & Hs & Hp)"; [set_solver|].
  apply Permutation_cons_inv in Hu. iExists g. iSplit; [done|]. unfold hole. iFrame "Hw". iSplitL "HG"; [by iApply (gap_perm with "HG")|].
  iSplit; [done|]. iSplitL "Hs"; by iExists _.
Qed.

(** *** A block that is large enough *)

Lemma hwp_realloc_shrink a n H used ws ts Q : n - 16 = 8 * Z.of_nat (length ws) -> blk_ok (true, n) -> n < 2 ^ 64 -> blk_ok (true, ts) -> ts <= n ->
  blocks heap H ((a, n) :: used) -∗ words (a + 16) ws -∗ counters heap -∗
  (∀ k H', ⌜ts <= k <= n /\ blk_ok (true, k)⌝ -∗ blocks heap H' ((a, k) :: used) -∗ words (a + 16) (cut k ws) -∗ counters heap -∗ Q tt) -∗
  hwp (realloc_shrink heap a ts n) Q.
Proof.
  iIntros (Hws Hn Hn64 Hts Hle) "HB Hw HN HQ". unfold realloc_shrink. destruct (Hts) as [Hts32 _]. cbn [snd] in Hts32.
  assert (u64 (n - ts) = n - ts) as -> by (apply Z.mod_small; lia). change ZEND_MM_ALIGNED_MIN_HEADER_SIZE with 32.
  destruct (Z.leb_spec 32 (n - ts)) as [Hbig|Hsmall].
  - iDestruct (open_words with "HB Hw") as (g) "[<- Hhole]"; [done|]. iDestruct (hole_gap with "Hhole") as "[HG Hhole]".
    iApply hwp_bind. iApply (hwp_next_is_free with "HG"); [done|]. iIntros "HG". iSpecialize ("Hhole" with "HG").
    iApply hwp_bind. iApply (hwp_join_next heap Hheap _ _ _ _ _ (n - ts) with "Hhole"); [lia|]. iIntros (g' m' H' ws' (Ea & Eb & Hm)) "Hhole".
    replace (n - ts + (m' - n)) with (m' - ts) by lia. rewrite -Ea.
    iApply (hwp_cut with "Hhole"); [done|lia|]. iIntros (ws2 Hfresh Hws2) "HG Hs Hw2 Hp Hw". iApply hwp_bind.
    iApply (adds_add_to heap Hheap false g' m' ts used with "[//] HG Hs Hw2 Hp"). iIntros (H2) "HB".
    iDestruct "HN" as "(H1 & H2 & [%v H3] & H4)". hload "H3". iApply (hwp_store with "H3"). iIntros "H3".
    iApply ("HQ" $! ts H2 with "[] HB [Hw] [H1 H2 H3 H4]"); [iPureIntro; split_and!; done || lia| |iFrame].
    unfold cut. rewrite take_app_le; [done|]. Z.to_euclidean_division_equations; lia.
  - iApply hwp_ret. iApply ("HQ" $! n H with "[] HB [Hw] HN"); [iPureIntro; split_and!; done || lia|]. by rewrite cut_all.
Qed.

(** *** A block of the cache *)

Lemma used_block H used a n : (a, n) ∈ used -> blocks heap H used -∗ ⌜block_ok a n /\ blk_ok (true, n)⌝.
Proof.
  iIntros (Ha) "HB". iDestruct (open_used _ _ _ a n with "HB") as (g used') "((<- & _ & %Hb) & HG & _)"; [done|].
  iDestruct (gap_facts with "HG") as %Hg. iPureIntro. split; [by apply gap_block_ok|done].
Qed.

Lemma cached_index cs i (l : list Z) : length cs = 64%nat -> cs !! i = Some l ->
  ZEND_MM_BUCKET_INDEX (csize i) = Z.of_nat i /\ ZEND_MM_SMALL_SIZE (csize i) = true.
Proof.
  intros Hl Hi. apply lookup_lt_Some in Hi. assert (ZEND_MM_SMALL_SIZE (csize i) = true) as Hs.
  { apply Z.ltb_lt. change ZEND_MM_MAX_SMALL_SIZE with 544. unfold csize. lia. }
  split; [|done]. destruct (bucket_index (csize i)) as [_ E]; [|unfold csize; lia|done|unfold csize in *; lia].
  unfold csize. replace (8 * Z.of_nat i + 32) with ((Z.of_nat i + 4) * 8) by lia. by apply Z.mod_mul.
Qed.

Lemma hwp_realloc_cached H cs i b l ts a n ws owned Q : cs !! i = Some (b :: l) -> ts = csize i -> n < ts -> n - 16 = 8 * Z.of_nat (length ws) ->
  blocks heap H (((a, n) :: owned) ++ cpairs cs) -∗ rest_of heap cs -∗ words (a + 16) ws -∗
  (∀ extra, ⌜b ∉ owned.*1 /\ (ts - 16 = 8 * Z.of_nat (length (ws ++ extra)))%Z⌝ -∗ mmo heap ((b, ts) :: owned) -∗
     words (b + 16) (ws ++ extra) -∗ Q (b + 16)) -∗
  hwp (realloc_cached heap a (a + 16) ts n) Q.
Proof.
  iIntros (Hi Ets Hn Hws) "HB (HC & HR) Hw HQ". iDestruct (used_block _ _ a n with "HB") as %[(Ha & _ & H8) [Hn32 _]]; [set_solver|]. cbn [snd] in Hn32.
  iAssert (⌜length cs = 64%nat⌝)%I as %Hl; [by iDestruct "HC" as "(%Hl & _)"|]. destruct (cached_index cs i _ Hl Hi) as [Eix Esm]. rewrite -Ets in Eix, Esm.
  assert (ZEND_MM_SMALL_SIZE n = true) as Hsm by (unfold ZEND_MM_SMALL_SIZE in *; apply Z.ltb_lt in Esm; apply Z.ltb_lt; lia). destruct (bucket_index n H8 Hn32 Hsm) as [Hj En].
  set (cs1 := <[i := l]> cs). assert (length cs1 = 64%nat) as Hl1 by by rewrite length_insert.
  destruct (cache_lookup cs1 _ Hl1 Hj) as [l' Hl']. set (j := Z.to_nat (ZEND_MM_BUCKET_INDEX n)) in *. assert (n = csize j) as Enj by (unfold csize; lia).
  pose proof (cpairs_remove cs i (b :: l) l b Hi ltac:(done)) as Hcs. rewrite -Ets in Hcs. fold cs1 in Hcs.
  pose proof (cpairs_add cs1 j l' (a :: l') a Hl' ltac:(done)) as Hcs1. rewrite -Enj in Hcs1.
  unfold realloc_cached. rewrite Eix. iApply hwp_bind. iApply (hwp_cache_pop with "HC"); [exact Hi|]. iIntros (d) "HC Hc (_ & -> & %Hb) Hr". rewrite -Ets.
  change (ZEND_MM_DATA_OF b) with (b + 16). cbv zeta. iApply hwp_bind. iApply (hwp_copy_data _ _ n ts with "Hw Hr"); [done|lia| |].
  { rewrite Ets. unfold csize. replace (8 * Z.of_nat i + 32) with ((Z.of_nat i + 4) * 8) by lia. by apply Z.mod_mul. }
  iIntros (extra Hx) "Hw Hb". iApply hwp_bind. iApply (hwp_add_cached with "Hc"). iIntros "Hc". replace (ZEND_MM_BUCKET_INDEX n) with (Z.of_nat j) by lia.
  iApply hwp_bind. iApply (hwp_push_list with "HC [Hw]"); [exact Hl'|exact Enj|unfold NULL; lia|rewrite region_words; iExists ws; iFrame; done|]. iIntros "HC". iApply hwp_ret.
  iDestruct (blocks_perm _ _ _ ((b, ts) :: owned ++ cpairs (<[j := a :: l']> cs1)) with "HB") as "HB".
  { rewrite Hcs1 Hcs. cbn [app]. solve_Permutation. }
  iDestruct (used_fresh heap Hheap with "HB") as %Hfresh. iApply ("HQ" with "[] [-Hb] Hb").
  - iPureIntro. split; [|done]. rewrite fmap_app in Hfresh. set_solver.
  - rewrite mmo_open. iExists H, (<[j := a :: l']> cs1). iFrame "HB HR". iSplit; [by rewrite length_insert|]. iFrame "HC".
    rewrite Hcs1 Hcs. cbn [sum_sizes foldr snd]. fold (sum_sizes (cpairs cs1)).
    by replace (ts + sum_sizes (cpairs cs1) + - (ts - n)) with (n + sum_sizes (cpairs cs1)) by lia.
Qed.

(** *** The free block behind *)

(** Whether the block before a hole is the first of its segment. *)
Lemma hwp_is_first_before g m n H used Q :
  gap heap (put_first g (true, n)) m H used -∗ (∀ b, gap heap (put_first g (true, n)) m H used -∗ Q b) -∗ hwp (ZEND_MM_IS_FIRST_BLOCK (gaddr g)) Q.
Proof.
  iIntros "(HG & Hrest) HQ". rewrite {1}(gapped_prev heap (put_first g (true, n)) _ (true, n) (gbefore g)); [|done].
  rewrite put_first_prev put_first_addr. cbn [snd]. iDestruct "HG" as "(Hok & HG & Hh & Hp)".
  iDestruct (gapped_prev_word with "HG") as "[Hw HG]". unfold ZEND_MM_IS_FIRST_BLOCK. hload "Hw". iApply hwp_ret. iApply "HQ".
  unfold gap. rewrite (gapped_prev heap (put_first g (true, n)) _ (true, n) (gbefore g)); [|done]. rewrite put_first_prev put_first_addr.
  cbn [snd]. iDestruct ("HG" with "Hw") as "HG". iFrame.
Qed.

Lemma hwp_add_in_place g m n used :
  ⊢ adds heap (fun b => whole ← (first ← ZEND_MM_IS_FIRST_BLOCK (gaddr g);
                                 if first : bool then ZEND_MM_IS_GUARD_BLOCK (gaddr g + m) else mret false);
                        add_to heap whole b) g m n used.
Proof.
  iIntros (ws' H' Q' [Hb Hws]) "HG Hs Hw Hp HQ".
  iAssert (∀ k, gap heap (put_first g (true, n)) (m - n) H' ((gaddr g, n) :: used) -∗ hwp (add_to heap k (gaddr g + n)) Q')%I with "[Hs Hw Hp HQ]" as "Hgo".
  { iIntros (k) "HG". by iApply (adds_add_to heap Hheap k g m n used with "[//] HG Hs Hw Hp"). }
  iApply hwp_bind. iApply hwp_bind. iApply (hwp_is_first_before with "HG"). iIntros (b) "HG". destruct b.
  - pose proof (put_first_addr g (true, n)) as Ea. cbn [snd] in Ea. replace (gaddr g + m) with (gaddr (put_first g (true, n)) + (m - n)) by lia.
    iApply (hwp_is_guard with "HG"); [done|]. iIntros "HG". by iApply "Hgo".
  - iApply hwp_ret. by iApply "Hgo".
Qed.

Lemma hwp_realloc_in_place g n k l H used ws ts Q : gafter g = (false, k) :: l -> blk_ok (true, ts) -> 0 <= ts <= n + k ->
  hole heap g n H used ws -∗ counters heap -∗
  (∀ k' H' extra, ⌜ts <= k' /\ blk_ok (true, k')⌝ -∗ ⌜(k' - 16 = 8 * Z.of_nat (length (cut k' (ws ++ extra))))%Z⌝ -∗
     blocks heap H' ((gaddr g, k') :: used) -∗ words (gaddr g + 16) (cut k' (ws ++ extra)) -∗ counters heap -∗ Q tt) -∗
  hwp (realloc_in_place heap (gaddr g) (gaddr g + n) ts n) Q.
Proof.
  iIntros (El Hts Hle) "Hhole HN HQ". assert (next_free g = Some k) as En by (unfold next_free; by rewrite El).
  unfold realloc_in_place. iApply (hwp_next_size heap Hheap with "Hhole"); [done|]. iIntros "Hhole".
  iApply hwp_bind. iApply (hwp_take_next' heap Hheap with "Hhole"); [done|]. iIntros (g' m' H' ws' ((Ea & _ & _) & Em & Hm & Hm')) "Hs Hback".
  iSpecialize ("Hback" with "Hs"). assert (u64 (n + k) = m') as -> by (rewrite -Em; apply Z.mod_small; lia). rewrite -Ea.
  iDestruct (hole_facts with "Hback") as %(_ & _ & Hmb & Hws).
  iApply hwp_bind. iApply (hwp_split_block heap with "Hback []"); [done|lia|by iApply hwp_add_in_place|].
  iIntros (k' H2 (Hk & Hkb & _)) "HB Hw". iApply (hwp_change_size with "HN"). iIntros "HN". iApply ("HQ" with "[] [] HB Hw HN"); iPureIntro; [split; [lia|done]|].
  apply cut_length; [done|lia].
Qed.

(** *** A larger segment *)

Section enlarge.
Context (st : zend_mm_mem_handlers) `{Hst : !Enlarges st}.

(** The list of segments up to the cell that holds [s]. *)
Fixpoint segpath (p : Z) (ss : list Z) (s : Z) : hprop :=
  match ss with
  | [] => p ↦ s
  | s1 :: ss => p ↦ s1 ∗ segpath (next_segment s1) ss s
  end.

(** A list of segments but for the cell that leads to it. *)
Definition segrest (ss : list Z) : hprop := match ss with [] => emp | s :: ss => segl (next_segment s) ss end.

Lemma segl_path p ss1 s ss2 : segl p (ss1 ++ s :: ss2) ⊣⊢ segpath p ss1 s ∗ next_segment s ↦ List.hd NULL ss2 ∗ segrest ss2.
Proof.
  revert p. induction ss1 as [|s1 ss1 IH]; intros p; cbn [app segpath]; rewrite segl_cons.
  - destruct ss2 as [|s2 ss2]; [by rewrite segl_nil right_id|by rewrite segl_cons].
  - by rewrite IH bi.sep_assoc.
Qed.

Lemma segpath_fresh p ss1 s v : segpath p ss1 s -∗ next_segment s ↦ v -∗ ⌜s ∉ ss1⌝.
Proof.
  iIntros "H Hs". iInduction ss1 as [|s1 ss1] "IH" forall (p); [iPureIntro; apply not_elem_of_nil|]. cbn [segpath]. iDestruct "H" as "[_ H]".
  iAssert (⌜s <> s1⌝)%I as %Hne.
  { iIntros (->). destruct ss1 as [|s2 ss1]; cbn [segpath]; [|iDestruct "H" as "[H _]"]; by iDestruct (pointsto_ne with "H Hs") as %?. }
  iDestruct ("IH" with "H Hs") as %?. iPureIntro. by apply not_elem_of_cons.
Qed.

Lemma hwp_find_path fuel p ss1 s Q : (length ss1 < fuel)%nat -> s ∉ ss1 ->
  segpath p ss1 s -∗ (∀ p', p' ↦ s -∗ (∀ s', p' ↦ s' -∗ segpath p ss1 s') -∗ Q p') -∗ hwp (find_segment fuel p s) Q.
Proof.
  iIntros (Hf Hs) "H HQ". iInduction fuel as [|fuel] "IH" forall (p ss1 Hf Hs); [lia|]. cbn [find_segment].
  destruct ss1 as [|s1 ss1]; cbn [segpath].
  - hload "H". rewrite Z.eqb_refl. iApply hwp_ret. iApply ("HQ" with "H"). by iIntros (s') "$".
  - apply not_elem_of_cons in Hs as [Hne Hs]. iDestruct "H" as "[Hp H]". hload "Hp". rewrite (proj2 (Z.eqb_neq s1 s)); [|done].
    iApply ("IH" with "[] [//] H"); [iPureIntro; simpl in Hf; lia|]. iIntros (p') "Hp' Hback". iApply ("HQ" with "Hp'").
    iIntros (s') "Hp'". iFrame. by iApply "Hback".
Qed.

Lemma hwp_segpath_bound p ss s Q : segpath p ss s -∗ (∀ n, ⌜(length ss < n)%nat⌝ -∗ segpath p ss s -∗ Q n) -∗ hwp bound Q.
Proof.
  iIntros "H HQ". iApply (hwp_bound (p :: (next_segment <$> ss))). iSplit.
  - iClear "HQ". iInduction ss as [|s1 ss] "IH" forall (p); cbn [segpath fmap list_fmap].
    + rewrite big_sepL_singleton. by iExists _.
    + rewrite big_sepL_cons. iDestruct "H" as "[Hp H]". iSplitL "Hp"; [by iExists _|]. by iApply "IH".
  - iIntros (n Hn). iApply ("HQ" with "[] H"). iPureIntro. rewrite /= length_fmap in Hn. lia.
Qed.

(** The first words of the old data and the two words of the new guard. *)
Lemma guard_split (ws rest : list Z) : (2 <= length rest)%nat -> exists extra x y, ws ++ rest = (ws ++ extra) ++ [x; y].
Proof.
  intros Hl. destruct rest as [|y rest _] using rev_ind; [simpl in Hl; lia|]. destruct rest as [|x rest _] using rev_ind; [simpl in Hl; lia|].
  exists rest, x, y. by rewrite -!app_assoc.
Qed.

(** What is around a segment. *)
Definition around (segs1 segs2 : list sgm) (s : Z) (H : gmap Z Z) (used : list (Z * Z)) : hprop :=
  segpath (segments_list heap) segs1.*1 s ∗ segrest segs2.*1 ∗ ([∗ list] sg ∈ segs1, seg sg) ∗ ([∗ list] sg ∈ segs2, seg sg) ∗ fs heap H ∗
  ⌜Forall sgm_ok segs1 /\ Forall sgm_ok segs2 /\ selects false segs1 ++ selects false segs2 ≡ₚ map_to_list H /\
   selects true segs1 ++ selects true segs2 ≡ₚ used⌝.

(** A segment that is one block, as the words it is made of. *)
Lemma hole_segment g m H used ws : is_whole g = true ->
  hole heap g m H used ws -∗ ∃ s segs1 segs2 u v,
    ⌜(gaddr g = s + 16 /\ 32 <= m < 2 ^ 64 /\ m mod 8 = 0 /\ m - 16 = 8 * Z.of_nat (length ws))%Z⌝ ∗ around segs1 segs2 s H used ∗
    real_size heap ↦ u64 (seg_total segs1 + (32 + m) + seg_total segs2) ∗
    words s ([32 + m; List.hd NULL segs2.*1; u; ZEND_MM_GUARD_BLOCK] ++ ws ++ [guard_word; v]).
Proof.
  iIntros (Hw) "Hhole". iDestruct (hole_facts with "Hhole") as %(_ & (_ & Hm & H8) & _).
  iDestruct "Hhole" as "((HG & HF & %Hf & %Ht) & [%Hmb %Hws] & [%u Hb] & Hw & [%v Hp])". apply whole_spec in Hw as [E1 E2].
  unfold gapped, gaddr, gsize, gselect, gaddr in *. rewrite E1 E2 in Hf, Ht |- *. cbn [row_size select app] in Hf, Ht |- *.
  unfold endtag, last. cbn [row_size]. rewrite !Z.add_0_r. rewrite Z.add_0_l tail_nil segl_path.
  iDestruct "HG" as "(%Hg & (Hpath & Hnx & Hrest) & Hrs & Hs1 & Hs2 & Hs & _ & Hp0 & Hguard)". destruct Hg as (_ & _ & _ & H4 & H5 & _).
  iExists (gseg g), (gsegs1 g), (gsegs2 g), u, v. iSplit; [iPureIntro; split_and!; done || lia|]. iFrame "Hpath Hrest Hs1 Hs2 HF Hrs". iSplit; [done|].
  rewrite !words_cons words_app !words_cons. unfold seg_size, next_segment, b_size, b_prev. rewrite /words !big_sepL_nil. simpl length.
  replace (gseg g + 8 + 8) with (gseg g + 16) by lia. replace (gseg g + 16 + 8 + 8) with (gseg g + 16 + 16) by lia.
  replace (gseg g + 16 + 16 + 8 * Z.of_nat (length ws)) with (gseg g + 16 + m) by lia.
  iFrame. 
Qed.

Lemma segment_hole segs1 segs2 s m H used ws u v : place_ok s (32 + m) -> 32 <= m -> m mod 8 = 0 -> m - 16 = 8 * Z.of_nat (length ws) ->
  around segs1 segs2 s H used -∗ real_size heap ↦ u64 (seg_total segs1 + (32 + m) + seg_total segs2) -∗
  seg_size s ↦ (32 + m) -∗ next_segment s ↦ List.hd NULL segs2.*1 -∗ b_size (s + 16) ↦ u -∗ b_prev (s + 16) ↦ ZEND_MM_GUARD_BLOCK -∗
  words (s + 16 + 16) ws -∗ b_size (s + 16 + m) ↦ guard_word -∗ b_prev (s + 16 + m) ↦ v -∗
  ∃ g, ⌜(gaddr g = s + 16)%Z⌝ ∗ hole heap g m H used ws.
Proof.
  iIntros ((Hs0 & Hs8 & Hsn) Hm H8 Hws) "(Hpath & Hrest & Hs1 & Hs2 & HF & %Hok) Hrs Hs Hnx Hb Hp0 Hw Hguard Hp".
  destruct Hok as (H4 & H5 & Hf & Ht). set (g := Gap segs1 s [] [] segs2). assert (gaddr g = s + 16) as Ea by (unfold gaddr; cbn; lia).
  iExists g. iSplit; [done|]. unfold hole, gap, gselect. rewrite Ea. iFrame "HF Hw Hb Hp". iSplitL; [|iPureIntro; split; [split; [cbn [snd]; lia|done]|done]].
  iSplitL; [|iPureIntro; unfold gselect; cbn [g gsegs1 gseg gbefore gafter gsegs2 select]; by rewrite !app_nil_l].
  assert (gap_ok g m) as Hgok. { unfold gap_ok, gsize, row_ok, g. cbn [gsegs1 gseg gbefore gafter gsegs2 row_size]. split_and!; try done; lia. }
  unfold gapped. rewrite Ea. unfold gsize. cbn [g gsegs1 gseg gbefore gafter gsegs2 row_size].
  replace (0 + m + 0) with m by lia. rewrite tail_nil segl_path /links /endtag. iFrame. done.
Qed.

(** The data of the block goes with it to the new place. *)
Lemma hwp_enlarge {A} g m H used ws n (c : hcmd A) (f : Z * Z -> hcmd A) Q : is_whole g = true -> m + 32 < n < 2 ^ 64 -> n mod 8 = 0 ->
  hole heap g m H used ws -∗ counters heap -∗
  (∀ g' extra, hole heap g' (n - 32) H used (ws ++ extra) -∗ counters heap -∗ hwp (f (gaddr g', n - 32)) Q) -∗
  hwp (segment ← storage_realloc st (gaddr g - ZEND_MM_ALIGNED_SEGMENT_SIZE) n;
       if segment =? NULL then c else replace_segment heap (gaddr g) (gaddr g - ZEND_MM_ALIGNED_SEGMENT_SIZE) segment n ≫= f) Q.
Proof.
  iIntros (Hw Hn H8) "Hhole HN HQ". iDestruct (hole_segment with "Hhole") as (s segs1 segs2 u v) "((%Ea & %Hm & %Hm8 & %Hws) & Har & Hreal & Hwords)"; [done|].
  rewrite Ea. change ZEND_MM_ALIGNED_SEGMENT_SIZE with 16. replace (s + 16 - 16) with s by lia. iDestruct "Har" as "(Hpath & Hrest)".
  iAssert (⌜s ∉ segs1.*1⌝)%I as %Hfresh.
  { rewrite !words_cons. iDestruct "Hwords" as "(_ & Hnx & _)". iApply (segpath_fresh with "Hpath Hnx"). }
  iApply hwp_bind. iApply realloc_spec; [lia| |done|iFrame "Hwords"].
  { rewrite !length_app. simpl length. lia. }
  iIntros (q extra [Hq Hlen]) "Hwords". destruct Hq as (Hq0 & Hq8 & _). rewrite (proj2 (Z.eqb_neq q NULL)); [|unfold NULL; lia].
  rewrite -!app_assoc. destruct (guard_split ws ([guard_word; v] ++ extra)) as (ws2 & x & y & E); [simpl; lia|]. rewrite E.
  assert (n - 32 - 16 = 8 * Z.of_nat (length (ws ++ ws2))) as Hws2.
  { rewrite -!app_assoc E !length_app in Hlen. rewrite length_app. simpl in Hlen. lia. }
  rewrite !words_cons words_app !words_cons. iDestruct "Hwords" as "(Hsz & Hnx & Hb & Hp0 & Hw & Hguard & Hp & _)".
  replace (q + 8 + 8) with (q + 16) by lia. replace (q + 16 + 8 + 8) with (q + 16 + 16) by lia.
  replace (q + 16 + 16 + 8 * Z.of_nat (length (ws ++ ws2))) with (q + 16 + (n - 32)) by lia.
  iApply hwp_bind. unfold replace_segment. change ZEND_MM_ALIGNED_SEGMENT_SIZE with 16. change ZEND_MM_ALIGNED_HEADER_SIZE with 16.
  iApply (hwp_load_bind with "Hsz"). iIntros "Hsz". iApply hwp_bind. iApply (hwp_add_real_size with "Hreal HN"). iIntros "Hreal HN". hstore "Hsz".
  iApply hwp_bind. iApply (hwp_wand _ (fun b : Z => ⌜(b = q + 16)%Z⌝ ∗ segpath (segments_list heap) segs1.*1 q ∗ b_prev (q + 16) ↦ ZEND_MM_GUARD_BLOCK)%I with "[Hpath Hp0]").
  { destruct (Z.eqb_spec q s) as [->|Hne]; cbn [negb].
    - iApply hwp_ret. iSplit; [done|]. iFrame.
    - iApply hwp_bind. iApply (hwp_segpath_bound with "Hpath"). iIntros (k Hk) "Hpath".
      iApply hwp_bind. iApply (hwp_find_path with "Hpath"); [done|done|]. iIntros (p') "Hp' Hback". hstore "Hp'".
      unfold ZEND_MM_MARK_FIRST_BLOCK. hstore "Hp0". iApply hwp_ret. iSplit; [done|]. iFrame "Hp0". by iApply "Hback". }
  iIntros (b) "(-> & Hpath & Hp0)". replace (n - 16 - 16) with (n - 32) by lia. assert (u64 (n - 32) = n - 32) as -> by (apply Z.mod_small; lia).
  unfold ZEND_MM_LAST_BLOCK. hstore "Hguard". iApply hwp_ret.
  assert (32 + (n - 32) = n) as En by lia.
  iDestruct (segment_hole segs1 segs2 q (n - 32) with "[Hpath Hrest] [Hreal] [Hsz] Hnx Hb Hp0 Hw Hguard Hp") as (g') "[%Eg' Hhole]".
  - rewrite En. split_and!; done || lia.
  - lia.
  - replace (n - 32) with (n + (-4) * 8) by lia. by rewrite Z.mod_add.
  - exact Hws2.
  - iFrame.
  - rewrite En /wrap_u Zplus_mod_idemp_r.
    by replace (seg_total segs1 + (32 + m) + seg_total segs2 + (n - (32 + m))) with (seg_total segs1 + n + seg_total segs2) by lia.
  - by rewrite En.
  - rewrite -Eg'. iApply ("HQ" with "Hhole HN").
Qed.
End enlarge.
End resize.
