(* ===== verification/ZendAllocRealloc.v ===== *)
(** * ZendAllocRealloc: resizing

    [_zend_mm_realloc_int] gives a block of at least the size asked for that begins with what
    the old block held, or ends in a bailout that leaves the old block as it was. *)
From S2P Require Import Prelude Memory HeapProp ZendAlloc ZendAllocOps ZendAllocBits ZendAllocRing ZendAllocTree ZendAllocFree.
From S2P Require Import ZendAllocSearch ZendAllocLayout ZendAllocHole ZendAllocSegment ZendAllocHeap ZendAllocAlloc ZendAllocInt ZendAllocResize.
From iris.proofmode Require Import proofmode.
From stdpp Require Import list gmap.
Local Open Scope Z_scope.

Section realloc.
Context (heap : Z) (Hheap : 0 <= heap) (st : zend_mm_mem_handlers) {fails : Z -> Prop} `{Hst : !Storage st fails} `{Hen : !Enlarges st}.
Context (zend_error : hcmd unit) (Herr : report_ok heap zend_error).

(** The outcome of resizing the block [a] of [n] bytes with the data [ws]. *)
Definition resized (U : gmap Z Z) (a n : Z) (ws : list Z) (size : Z) (Q : outcome Z -> hprop) : hprop :=
  (∀ a' n' ws', ⌜delete a U !! a' = None /\ size <= n' - 16 /\ (n' - 16 = 8 * Z.of_nat (length ws'))%Z /\ agree ws ws' /\ pointer_ok (a' + 16)⌝ -∗
     mm heap (<[a' := n']> (delete a U)) -∗ words (a' + 16) ws' -∗ Q (Done (a' + 16))) ∧
  (after_error heap U -∗ words (a + 16) ws -∗ Q Bailout).

(** The block at the end of the part of the heap that its caller does not own. *)
Definition regot (owned : list (Z * Z)) (ws : list Z) (size : Z) (Q : outcome Z -> hprop) : hprop :=
  ∀ a n ws', ⌜a ∉ owned.*1 /\ size <= n - 16 /\ (n - 16 = 8 * Z.of_nat (length ws'))%Z /\ agree ws ws'⌝ -∗
    mmo heap ((a, n) :: owned) -∗ words (a + 16) ws' -∗ Q (Done (a + 16)).

Lemma mm_owned U a n rv : U !! a = Some n ->
  mmo heap ((a, n) :: map_to_list (delete a U) ++ kept rv) -∗ reserved heap rv -∗ mm heap U.
Proof.
  iIntros (Ha) "HM Hrv". iExists rv. iFrame "Hrv". iApply (mmo_perm with "HM"). rewrite app_comm_cons. by rewrite map_to_list_delete.
Qed.

Lemma resized_regot U a n ws rv size Q :
  reserved heap rv -∗ resized U a n ws size Q -∗ regot (map_to_list (delete a U) ++ kept rv) ws size Q.
Proof.
  iIntros "Hrv [HQ _]". iIntros (a' n' ws' (Ha & Hn & Hws & Hag)) "HM Hw".
  iDestruct (mmo_block heap Hheap st _ a' n' with "HM") as %([Hpos _] & _ & H8); [set_solver|].
  assert (delete a U !! a' = None) as Hnone.
  { apply eq_None_not_Some. intros [m Hm]. apply Ha. rewrite list_elem_of_fmap. exists (a', m). split; [done|].
    apply elem_of_app. left. by apply elem_of_map_to_list. }
  iApply ("HQ" with "[] [HM Hrv] Hw").
  - iPureIntro. split_and!; [done..|]. split; [lia|by rewrite Z.add_mod ?H8].
  - iExists rv. iFrame "Hrv". iApply (mmo_perm with "HM"). by rewrite map_to_list_insert.
Qed.

(** *** With the segment *)

(** A hole in a segment that is too small for [ts] bytes grows with it. *)
Lemma hwp_regrow g m H cs ws w2 ts n size owned c N Q :
  is_whole g = true -> m < ts -> ts + 32 <= N < 2 ^ 64 -> N mod 8 = 0 -> blk_ok (true, ts) -> size <= ts - 16 ->
  hole heap g m H (owned ++ cpairs cs) (ws ++ w2) -∗ rest_of heap cs -∗ regot owned ws size Q -∗
  hwp (segment ← storage_realloc st (gaddr g - ZEND_MM_ALIGNED_SEGMENT_SIZE) N;
       if segment =? NULL then c
       else
         '(mm_block, block_size) ← replace_segment heap (gaddr g) (gaddr g - ZEND_MM_ALIGNED_SEGMENT_SIZE) segment N;
         true_size ← split_block (zend_mm_add_to_rest_list heap) mm_block block_size ts;
         change_size heap (fun s => s + true_size - n) ;;
         mret (Done (ZEND_MM_DATA_OF mm_block))) Q.
Proof.
  iIntros (Hw Hm HN H8 Hts Hsz) "Hhole (HC & HN & Hbs) HQ". iApply (hwp_enlarge heap st with "Hhole HN"); [done|lia|done|].
  iIntros (g' extra) "Hhole HN". iDestruct (hole_facts with "Hhole") as %(_ & _ & Hmb & Hws).
  iApply hwp_bind. iApply (hwp_split_block heap with "Hhole []"); [done|lia|by iApply (adds_add_to heap Hheap true)|].
  iIntros (k H' (Hk & Hkb & Hfresh)) "HB Hw". iApply hwp_bind. iApply (hwp_change_size with "HN"). iIntros "HN". iApply hwp_ret.
  change (ZEND_MM_DATA_OF (gaddr g')) with (gaddr g' + 16). iApply ("HQ" $! _ k with "[] [HB HC HN Hbs] Hw").
  - iPureIntro. rewrite fmap_app elem_of_app in Hfresh. split_and!; [tauto|lia|apply cut_length; [done|lia]|]. rewrite -app_assoc. apply cut_agree.
  - rewrite mmo_open. iExists H', cs. iFrame.
Qed.

(** The sizes that [realloc_segment] reads. *)
Lemma gap_sizes g m H used : is_whole g = true -> gap heap g m H used -∗
  ∃ v w, real_size heap ↦ v ∗ seg_size (gaddr g - 16) ↦ w ∗ (real_size heap ↦ v -∗ seg_size (gaddr g - 16) ↦ w -∗ gap heap g m H used).
Proof.
  iIntros (Hw) "((Hok & Hsl & Hreal & Hs1 & Hs2 & Hs & Hl) & Hrest)". iExists _, _. iFrame "Hreal".
  assert (gaddr g - 16 = gseg g) as ->. { apply whole_spec in Hw as [E _]. unfold gaddr. rewrite E. cbn [row_size]. lia. }
  iFrame "Hs". iIntros "Hreal Hs". iFrame.
Qed.

(** [R] stands for the memory of the block and of what is free behind it; when the segment may
    not grow, all is as before. *)
Lemma hwp_realloc_segment R U rv a g m H cs ws w2 ts n size Q (next := a + n) :
  let owned := map_to_list (delete a U) ++ kept rv in
  U !! a = Some n -> gaddr g = a -> is_whole g = true -> m < ts -> blk_ok (true, ts) -> ts < 2 ^ 64 -> size <= ts - 16 ->
  (R ⊢ gap heap g m H (owned ++ cpairs cs) ∗ (gap heap g m H (owned ++ cpairs cs) -∗ R)) ->
  (R ⊢ hole heap g m H (owned ++ cpairs cs) (ws ++ w2)) ->
  (forall Q', R ∗ (∀ H', blocks heap H' ((a, n) :: owned ++ cpairs cs) -∗ words (a + 16) ws -∗ Q' tt) ⊢
     hwp (next_free ← ZEND_MM_IS_FREE_BLOCK next; if next_free : bool then zend_mm_add_to_free_list heap next else mret tt) Q') ->
  R -∗ rest_of heap cs -∗ reserved heap rv -∗ resized U a n ws size Q -∗
  hwp (realloc_segment heap st zend_error a next ts n) Q.
Proof.
  iIntros (owned Ha <- Hw Hm Hts Hts64 Hsz Hgap Hhole Hfail) "HR (HC & (H1 & [%lim Hlim] & HN) & %bs & Hbs & %Hbs) Hrv HQ". unfold realloc_segment.
  hload "Hbs". pose proof (segment_size_spec bs ts Hbs ltac:(destruct Hts; cbn [snd] in *; lia)) as Hsize.
  destruct (segment_size_for bs ts) as [N keep]. cbn [fst] in Hsize. change ZEND_MM_ALIGNED_SEGMENT_SIZE with 16.
  rewrite Hgap. iDestruct "HR" as "[HG HR]". iDestruct (gap_sizes with "HG") as (v w) "(Hreal & Hs & HG)"; [done|].
  hload "Hreal". hload "Hs". hload "Hlim". iDestruct ("HG" with "Hreal Hs") as "HG". iDestruct ("HR" with "HG") as "HR".
  iAssert (rest_of heap cs) with "[HC H1 Hlim HN Hbs]" as "Hst"; [iFrame; done|].
  destruct ((N <? ts) || (lim <? _)) eqn:Elim.
  - iApply hwp_assoc. iApply hwp_bind. iApply Hfail. iFrame "HR". iIntros (H') "HB Hw".
    iDestruct (mm_owned U _ n rv with "[HB Hst] Hrv") as "HM"; [done|rewrite mmo_open; iExists H', cs; iFrame|].
    iApply (hwp_out_of_memory heap Hheap st zend_error Herr with "HM"). iDestruct "HQ" as "[_ HQ]". iIntros "HM". by iApply ("HQ" with "HM").
  - apply orb_false_iff in Elim as [En%Z.ltb_ge _]. destruct Hsize as [?|[Hn Hn8]]; [lia|].
    rewrite Hhole. iApply (hwp_regrow with "HR Hst"); [done..|]. by iApply (resized_regot with "Hrv HQ").
Qed.

(** The used block with its data, taken apart. *)
Definition apart (g : gctx) (n m : Z) (H : gmap Z Z) (used : list (Z * Z)) (ws : list Z) : hprop :=
  gap heap g m H used ∗ b_size (gaddr g) ↦ tag (true, n) ∗ b_prev (gaddr g + n) ↦ tag (true, n) ∗ words (gaddr g + 16) ws.

Lemma apart_open H used a n ws : blocks heap H ((a, n) :: used) -∗ words (a + 16) ws -∗
  ∃ g, ⌜gaddr g = a /\ blk_ok (true, n)⌝ ∗ apart g n n H used ws.
Proof.
  iIntros "HB Hw". iDestruct (open_used _ _ _ a n with "HB") as (g used') "((<- & %Hu & %Hb) & HG & Hs & Hp)"; [set_solver|].
  apply Permutation_cons_inv in Hu. iExists g. iSplit; [done|]. iFrame. by iApply (gap_perm with "HG").
Qed.

Lemma apart_close g n H used ws : blk_ok (true, n) -> apart g n n H used ws -∗ blocks heap H ((gaddr g, n) :: used) ∗ words (gaddr g + 16) ws.
Proof. iIntros (Hb) "(HG & Hs & Hp & $)". by iApply (close_used with "HG Hs Hp"). Qed.

Lemma apart_hole g n H used ws : blk_ok (true, n) -> n - 16 = 8 * Z.of_nat (length ws) -> apart g n n H used ws ⊢ hole heap g n H used ws.
Proof. iIntros (Hb Hws) "($ & Hs & Hp & $)". iSplit; [done|]. iSplitL "Hs"; by iExists _. Qed.

(** The block has its segment to itself. *)
Lemma hwp_regrow_alone U rv g n H cs ws ts size Q :
  let owned := map_to_list (delete (gaddr g) U) ++ kept rv in
  U !! gaddr g = Some n -> is_whole g = true -> blk_ok (true, n) -> n - 16 = 8 * Z.of_nat (length ws) -> n < ts -> blk_ok (true, ts) -> ts < 2 ^ 64 -> size <= ts - 16 ->
  apart g n n H (owned ++ cpairs cs) ws -∗ rest_of heap cs -∗ reserved heap rv -∗ resized U (gaddr g) n ws size Q -∗
  hwp (realloc_segment heap st zend_error (gaddr g) (gaddr g + n) ts n) Q.
Proof.
  iIntros (owned Ha Hw Hb Hws Hn Hts Hts64 Hsz) "HR Hst Hrv HQ".
  iApply (hwp_realloc_segment (apart g n n H (owned ++ cpairs cs) ws) U rv _ g n H cs ws [] with "HR Hst Hrv HQ"); try done.
  - iIntros "($ & Hrest)". iIntros "$". iFrame.
  - rewrite app_nil_r. by apply apart_hole.
  - iIntros (Q') "[HR HQ]". iDestruct "HR" as "(HG & Hrest)". iApply hwp_bind. iApply (hwp_next_is_free with "HG"); [done|]. iIntros "HG".
    assert (next_free g = None) as -> by (unfold next_free; by apply whole_spec in Hw as [_ ->]). cbn [is_some]. iApply hwp_ret.
    iDestruct (apart_close g n H _ ws Hb with "[HG Hrest]") as "[HB Hw]"; [iFrame|]. iApply ("HQ" with "HB Hw").
Qed.

(** There is a free block behind it. *)
Lemma hwp_regrow_next U rv g n k H cs ws ts size Q :
  let owned := map_to_list (delete (gaddr g) U) ++ kept rv in
  U !! gaddr g = Some n -> gbefore g = [] -> gafter g = [(false, k)] -> blk_ok (true, n) -> n - 16 = 8 * Z.of_nat (length ws) ->
  n + k < ts -> blk_ok (true, ts) -> ts < 2 ^ 64 -> size <= ts - 16 ->
  apart g n n H (owned ++ cpairs cs) ws -∗ rest_of heap cs -∗ reserved heap rv -∗ resized U (gaddr g) n ws size Q -∗
  hwp (zend_mm_remove_from_free_list heap (gaddr g + n) ;; realloc_segment heap st zend_error (gaddr g) (gaddr g + n) ts n) Q.
Proof.
  iIntros (owned Ha E1 E2 Hb Hws Hn Hts Hts64 Hsz) "(HG & Hs & Hp & Hw) Hst Hrv HQ".
  iApply hwp_bind. iApply (hwp_detach_next heap Hheap with "HG"); [done|]. iIntros (w2 (Hkb & Hn0 & Hw2)) "HG Hs2 Hw2 Hp2".
  set (g' := take_next g []). assert (gaddr g' = gaddr g) as Eg by done.
  set (R := (apart g' n (n + k) (delete (gaddr g + n) H) (owned ++ cpairs cs) ws ∗ b_size (gaddr g + n) ↦ k ∗
    words (gaddr g + n + 16) w2 ∗ b_prev (gaddr g + n + k) ↦ tag (false, k))%I).
  iAssert R with "[HG Hs Hp Hw Hs2 Hw2 Hp2]" as "HR"; [iFrame|].
  iApply (hwp_realloc_segment R U rv _ g' (n + k) _ cs ws (k :: tag (true, n) :: w2) with "HR Hst Hrv HQ"); try done.
  - unfold is_whole, g', take_next. cbn [gbefore gafter]. by rewrite E1.
  - iIntros "(($ & Hrest) & Hrest2)". iIntros "$". iFrame.
  - iIntros "((HG & Hs & Hp & Hw) & Hs2 & Hw2 & Hp2)". rewrite Eg. iDestruct (words_join _ _ _ k with "Hw Hs2 Hp Hw2") as "[Hw %Hlen]"; [done..|].
    unfold hole. rewrite Eg Z.add_assoc. iFrame "HG Hw". iSplit; [|iSplitL "Hs"; by iExists _]. iPureIntro. split; [|by apply Hlen]. by apply blk_ok_add.
  - iIntros (Q') "[((HG & Hs & Hp & Hw) & Hs2 & Hw2 & Hp2) HQ]". unfold ZEND_MM_IS_FREE_BLOCK. iApply hwp_bind. hload "Hs2". iApply hwp_ret.
    assert (k = tag (false, k)) as Ek by (rewrite tag_spec; [cbn [fst snd]; lia|done]). assert ((Z.land k ZEND_MM_USED_BLOCK =? 0) = true) as ->; [rewrite Ek; by rewrite tag_free|].
    rewrite Eg. iDestruct (gap_put_first with "HG Hs Hp") as "HG"; [done|destruct Hkb; cbn [snd] in *; lia|]. iDestruct (gap_facts with "HG") as %Hg.
    pose proof (put_first_addr g' (true, n)) as Ea. cbn [snd] in Ea. rewrite Eg in Ea. rewrite -Ea.
    iApply (hwp_give heap Hheap false _ k with "HG [Hs2] Hw2 Hp2"); [done..|by rewrite -Ek|]. iIntros (H') "HB". iApply ("HQ" with "HB Hw").
Qed.

(** *** To a new block *)

Lemma true_size_bound size n : 0 <= size <= 2 ^ 64 - 24 -> n mod 8 = 0 -> 32 <= n -> n < ZEND_MM_TRUE_SIZE size -> n <= size + 16.
Proof.
  intros Hs H8 Hn Hlt. destruct (true_size_spec size ltac:(lia)) as (_ & Ht8 & Hfit & _). destruct (Hfit ltac:(lia)) as [_ [_ Hmax]].
  set (t := ZEND_MM_TRUE_SIZE size) in *. Z.to_euclidean_division_equations. lia.
Qed.

Lemma hwp_realloc_move U a n ws size Q : U !! a = Some n -> n - 16 = 8 * Z.of_nat (length ws) -> 0 <= size <= 2 ^ 64 - 24 -> n < ZEND_MM_TRUE_SIZE size ->
  mm heap U -∗ words (a + 16) ws -∗ resized U a n ws size Q -∗ hwp (realloc_move heap st zend_error (a + 16) size n) Q.
Proof.
  iIntros (Ha Hws Hsize Hlt) "HM Hw HQ". iDestruct (mm_block heap Hheap st U a n with "HM") as %((_ & _ & H8) & [Hn _] & _); [done|]. cbn [snd] in Hn.
  pose proof (true_size_bound size n Hsize H8 Hn Hlt) as Hle. unfold realloc_move, then_. iApply hwp_bind.
  iApply (hwp_alloc heap Hheap st zend_error Herr with "HM"); [lia|]. iSplit.
  - iIntros (a' n' (Hnone & Hn' & Hp)) "HM Hr". iDestruct (mm_block heap Hheap st _ a' n' with "HM") as %((_ & _ & H8') & _); [apply lookup_insert_eq|].
    iApply hwp_bind. iApply (hwp_copy_data _ _ n n' with "Hw Hr"); [done|lia|done|]. iIntros (extra Hlen) "Hw Hd".
    assert (a' <> a) as Hne by congruence. iApply hwp_bind. iApply (hwp_free heap Hheap st _ a n with "HM [Hw]").
    + by rewrite lookup_insert_ne.
    + rewrite region_words. iExists ws. by iFrame.
    + iIntros "HM". iApply hwp_ret. iDestruct "HQ" as "[HQ _]". rewrite delete_insert_ne; [|done]. iApply ("HQ" with "[] HM Hd"). iPureIntro.
      split_and!; [by rewrite lookup_delete_ne|done|done| |done]. right. by apply prefix_app_r.
  - iIntros "HM". iApply hwp_ret. iDestruct "HQ" as "[_ HQ]". iApply ("HQ" with "HM Hw").
Qed.

(** *** Growing *)

(** A block [n] of which the caller wants [ts] bytes, the heap being taken apart at it. *)
Definition growing (U : gmap Z Z) (g : gctx) (n ts size : Z) (ws : list Z) : Prop :=
  U !! gaddr g = Some n /\ blk_ok (true, n) /\ n < 2 ^ 64 /\ (n - 16 = 8 * Z.of_nat (length ws))%Z /\ n < ts < 2 ^ 64 /\ blk_ok (true, ts) /\
  0 <= size <= 2 ^ 64 - 24 /\ ts = ZEND_MM_TRUE_SIZE size /\ size + 16 <= ts.

Lemma apart_move U rv g n H cs ws ts size Q :
  let owned := map_to_list (delete (gaddr g) U) ++ kept rv in growing U g n ts size ws ->
  apart g n n H (owned ++ cpairs cs) ws -∗ rest_of heap cs -∗ reserved heap rv -∗ resized U (gaddr g) n ws size Q -∗
  hwp (realloc_move heap st zend_error (gaddr g + 16) size n) Q.
Proof.
  iIntros (owned (Ha & Hb & _ & Hws & Hlt & _ & Hsize & Ets & _)) "HR Hst Hrv HQ". iDestruct (apart_close g n H _ ws Hb with "HR") as "[HB Hw]".
  iApply (hwp_realloc_move U (gaddr g) n with "[HB Hst Hrv] Hw HQ"); [done..|lia|].
  iApply (mm_owned with "[HB Hst] Hrv"); [done|]. rewrite mmo_open. iExists H, cs. iFrame.
Qed.

(** The block behind is free. *)
Lemma hwp_grow_next U rv g n k H cs ws ts size Q :
  let owned := map_to_list (delete (gaddr g) U) ++ kept rv in growing U g n ts size ws -> next_free g = Some k ->
  apart g n n H (owned ++ cpairs cs) ws -∗ rest_of heap cs -∗ reserved heap rv -∗ resized U (gaddr g) n ws size Q -∗
  hwp (n' ← ZEND_MM_FREE_BLOCK_SIZE (gaddr g + n);
       if ts <=? u64 (n + n') then
         realloc_in_place heap (gaddr g) (gaddr g + n) ts n ;;
         mret (Done (gaddr g + 16))
       else
         whole ← (first ← ZEND_MM_IS_FIRST_BLOCK (gaddr g);
                  if first : bool then ZEND_MM_IS_GUARD_BLOCK (gaddr g + n + n') else mret false);
         if whole : bool then
           zend_mm_remove_from_free_list heap (gaddr g + n) ;;
           realloc_segment heap st zend_error (gaddr g) (gaddr g + n) ts n
         else realloc_move heap st zend_error (gaddr g + 16) size n) Q.
Proof.
  iIntros (owned Hgrow En) "HR Hst Hrv HQ". destruct (Hgrow) as (Ha & Hb & Hn64 & Hws & Hlt & Hts & Hsize & Ets & Hsz). destruct (next_free_spec _ _ En) as [l El].
  iDestruct "HR" as "(HG & Hrest)". iDestruct (gap_next_word with "HG") as (w) "(Hw & HG & %Hwd)"; [done|]. rewrite El in Hwd. destruct Hwd as [-> Hkb].
  unfold ZEND_MM_FREE_BLOCK_SIZE at 1. hload "Hw". iSpecialize ("HG" with "Hw"). assert (tag (false, k) = k) as -> by (rewrite tag_spec; [cbn [fst snd]; lia|done]).
  iDestruct (gap_facts with "HG") as %Hg. assert (u64 (n + k) = n + k) as ->.
  { apply Z.mod_small. destruct Hg as ((_ & _ & Hsum) & Hbs & Has & _). pose proof (row_size_nonneg _ Hbs). unfold gsize in Hsum. rewrite El in Hsum. rewrite El in Has.
    apply Forall_cons in Has as [_ Has]. pose proof (row_size_nonneg _ Has). cbn [row_size snd] in Hsum.
    destruct Hb as [Hn32 _], Hkb as [Hk32 _]. cbn [snd] in *. lia. }
  destruct (Z.leb_spec ts (n + k)) as [Hle|Hgt].
  - iDestruct (apart_hole g n H _ ws Hb Hws with "[HG Hrest]") as "Hhole"; [iFrame|]. iDestruct "Hst" as "(HC & HN & Hbs)".
    iApply hwp_bind. iApply (hwp_realloc_in_place heap Hheap with "Hhole HN"); [exact El|done|destruct Hts; cbn [snd] in *; lia|].
    iIntros (k' H' extra [Hk Hk'] Hlen) "HB Hw HN". iApply hwp_ret. iDestruct (used_fresh heap Hheap with "HB") as %Hfresh.
    iDestruct (resized_regot with "Hrv HQ") as "HQ". iApply ("HQ" $! _ k' with "[] [HB HC HN Hbs] Hw").
    + iPureIntro. rewrite fmap_app elem_of_app in Hfresh. split_and!; [tauto|lia|done|apply cut_agree].
    + rewrite mmo_open. iExists H', cs. iFrame.
  - iApply hwp_bind. iApply hwp_bind. iApply (hwp_is_first with "HG"). iIntros "HG". destruct (gbefore g) eqn:Eb.
    + iApply (hwp_is_guard_next with "HG"); [done|exact El|]. iIntros "HG". destruct l as [|b l].
      * iApply (hwp_regrow_next U rv g n k H cs ws ts size with "[HG Hrest] Hst Hrv HQ"); try done; try lia. iFrame.
      * iApply (apart_move U rv with "[HG Hrest] Hst Hrv HQ"); [done|iFrame].
    + iApply hwp_ret. iApply (apart_move U rv with "[HG Hrest] Hst Hrv HQ"); [done|iFrame].
Qed.

Lemma hwp_realloc_grow U rv H cs a n ws size Q :
  let owned := map_to_list (delete a U) ++ kept rv in
  let ts := ZEND_MM_TRUE_SIZE size in
  U !! a = Some n -> n - 16 = 8 * Z.of_nat (length ws) -> 0 <= size <= 2 ^ 64 - 24 -> n < ts ->
  blocks heap H ((a, n) :: owned ++ cpairs cs) -∗ rest_of heap cs -∗ reserved heap rv -∗ words (a + 16) ws -∗ resized U a n ws size Q -∗
  hwp (realloc_grow heap st zend_error a (a + 16) size ts n) Q.
Proof.
  iIntros (owned ts Ha Hws Hsize Hlt) "HB Hst Hrv Hw HQ". destruct (true_size_spec size ltac:(lia)) as (Ht & Ht8 & Hfit & _). destruct (Hfit ltac:(lia)) as [H32 [Hsz _]].
  fold ts in Ht, Ht8, H32, Hsz. assert (blk_ok (true, ts)) as Hts by done. iDestruct (used_block heap _ _ a n with "HB") as %[(_ & Hn & _) Hb]; [set_solver|].
  assert (forall g, gaddr g = a -> growing U g n ts size ws) as Hgrow by (intros g <-; unfold growing; split_and!; done || lia).
  iDestruct (apart_open with "HB Hw") as (g) "[[%Eg _] HR]". specialize (Hgrow g Eg) as Hg1. destruct Eg. iDestruct "HR" as "(HG & Hrest)".
  unfold realloc_grow. iApply hwp_bind. iApply (hwp_next_is_free with "HG"); [done|]. iIntros "HG".
  destruct (next_free g) as [k|] eqn:En; cbn [is_some].
  - destruct (next_free_spec _ _ En) as [l El]. iAssert (⌜H !! (gaddr g + n)%Z = Some k⌝)%I as %Hk.
    { iDestruct "HG" as "(_ & _ & %Hf & _)". iPureIntro. eapply free_in; [exact Hf|by eapply next_in]. }
    iDestruct (apart_close g n H _ ws Hb with "[HG Hrest]") as "[HB Hw]"; [iFrame|].
    iApply hwp_bind. iApply (hwp_check_linkage heap Hheap with "HB"); [exact Hk|]. iIntros "HB".
    iDestruct (apart_open with "HB Hw") as (g2) "[[%Eg2 _] (HG & Hrest)]". specialize (Hgrow g2 Eg2). rewrite -Eg2 in Hk.
    iDestruct (gap_next_free with "HG") as %En2; [done|exact Hk|]. unfold owned. rewrite -Eg2.
    iApply (hwp_grow_next U rv g2 n k H cs ws ts size with "[HG Hrest] Hst Hrv HQ"); [done|done|iFrame].
  - iApply hwp_bind. iApply (hwp_is_whole_segment with "HG"); [done|]. iIntros "HG". destruct (is_whole g) eqn:Ew.
    + iApply (hwp_regrow_alone U rv g n H cs ws ts size with "[HG Hrest] Hst Hrv HQ"); try done; try lia. iFrame.
    + iApply (apart_move U rv with "[HG Hrest] Hst Hrv HQ"); [done|iFrame].
Qed.

(** *** The whole *)

Lemma mm_split U a n : U !! a = Some n -> mm heap U ⊢ ∃ rv, mmo heap ((a, n) :: map_to_list (delete a U) ++ kept rv) ∗ reserved heap rv.
Proof.
  iIntros (Ha) "(%rv & HM & Hrv)". iExists rv. iFrame "Hrv". iApply (mmo_perm with "HM"). rewrite app_comm_cons. by rewrite map_to_list_delete.
Qed.

Lemma hwp_realloc_int U a n ws size Q : U !! a = Some n -> n - 16 = 8 * Z.of_nat (length ws) -> 0 <= size < 2 ^ 64 ->
  mm heap U -∗ words (a + 16) ws -∗ resized U a n ws size Q -∗ hwp (_zend_mm_realloc_int heap st zend_error (a + 16) size) Q.
Proof.
  iIntros (Ha Hws Hsize) "HM Hw HQ". rewrite (mm_split U a n); [|done]. iDestruct "HM" as (rv) "[HM Hrv]".
  set (owned := map_to_list (delete a U) ++ kept rv). rewrite mmo_open. iDestruct "HM" as (H cs) "(HB & Hst)". rewrite -app_comm_cons.
  iDestruct (used_block heap _ _ a n with "HB") as %[(Hpos & Hn & H8) Hb]; [set_solver|].
  iDestruct (used_word _ _ _ a n with "HB") as "(_ & Hs & HB)"; [set_solver|].
  unfold _zend_mm_realloc_int, ZEND_MM_HEADER_OF. change ZEND_MM_ALIGNED_HEADER_SIZE with 16. replace (a + 16 - 16) with a by lia.
  rewrite (proj2 (Z.eqb_neq _ _)); [|unfold NULL; lia]. iApply hwp_bind. iApply (hwp_tag_size with "Hs"); [done|]. iIntros "Hs". iSpecialize ("HB" with "Hs"). cbn [snd].
  destruct (true_size_spec size Hsize) as (Ht & Ht8 & Hfit & Hwrap). set (ts := ZEND_MM_TRUE_SIZE size) in *.
  destruct (Z.ltb_spec ts size) as [Hlt|Hge].
  { iDestruct (mm_owned U a n rv with "[HB Hst] Hrv") as "HM"; [done|rewrite mmo_open; iExists H, cs; iFrame|].
    iApply (hwp_safe_error heap Hheap st zend_error Herr with "HM"). iDestruct "HQ" as "[_ HQ]". iIntros "HM". by iApply ("HQ" with "HM"). }
  destruct (Hfit ltac:(lia)) as [H32 [Hsz _]]. assert (blk_ok (true, ts)) as Hts by done.
  destruct (Z.leb_spec ts n) as [Hle|Hgt].
  - iDestruct "Hst" as "(HC & HN & Hbs)". iApply hwp_bind. iApply (hwp_realloc_shrink heap Hheap with "HB Hw HN"); [done..|lia|done|done|].
    iIntros (k H' [Hk Hkb]) "HB Hw HN". iApply hwp_ret. iDestruct (used_fresh heap Hheap with "HB") as %Hfresh.
    iDestruct (resized_regot with "Hrv HQ") as "HQ". iApply ("HQ" $! _ k with "[] [HB HC HN Hbs] Hw").
    + iPureIntro. rewrite fmap_app elem_of_app in Hfresh. split_and!; [tauto|lia|apply cut_length; [done|lia]|].
      pose proof (cut_agree k ws []) as Hag. by rewrite app_nil_r in Hag.
    + rewrite mmo_open. iExists H', cs. iFrame.
  - iAssert (∀ cs, blocks heap H ((a, n) :: owned ++ cpairs cs) -∗ rest_of heap cs -∗ reserved heap rv -∗ words (a + 16) ws -∗ resized U a n ws size Q -∗
      hwp (realloc_grow heap st zend_error a (a + 16) size ts n) Q)%I as "Hgrow".
    { iIntros (cs') "HB Hst Hrv Hw HQ". iApply (hwp_realloc_grow U rv with "HB Hst Hrv Hw HQ"); done || lia. }
    destruct (ZEND_MM_SMALL_SIZE ts) eqn:Esm.
    + destruct (bucket_index ts Ht8 H32 Esm) as [Hi Ets]. set (i := ZEND_MM_BUCKET_INDEX ts) in *. iDestruct "Hst" as "(HC & HR)".
      iAssert (⌜length cs = 64%nat⌝)%I as %Hl; [by iDestruct "HC" as "(%Hl & _)"|]. destruct (cache_lookup cs i Hl Hi) as [l Hcl].
      replace (cache heap i) with (cache heap (Z.of_nat (Z.to_nat i))) by (by rewrite Z2Nat.id; [|lia]).
      iApply (hwp_cache_head heap with "HC"); [exact Hcl|]. iIntros (p Hp) "HC". iAssert (rest_of heap cs) with "[HC HR]" as "Hst"; [iFrame|].
      destruct (Z.eqb_spec p NULL) as [Hp0|Hp0]; cbn [negb].
      * iApply ("Hgrow" with "HB Hst Hrv Hw HQ").
      * destruct l as [|b l]; [by destruct Hp0; apply Hp|]. iApply hwp_bind.
        iApply (hwp_realloc_cached heap Hheap H cs _ b l ts a n ws owned with "HB Hst Hw"); [exact Hcl|unfold csize; lia|done|done|].
        iIntros (extra [Hfresh Hlen]) "HM Hw". iApply hwp_ret. iDestruct (resized_regot with "Hrv HQ") as "HQ". iApply ("HQ" $! _ ts with "[] HM Hw").
        iPureIntro. split_and!; [done|lia|done|]. right. by apply prefix_app_r.
    + iApply hwp_bind. iApply hwp_ret. cbn [negb Z.eqb NULL]. iApply ("Hgrow" with "HB Hst Hrv Hw HQ").
Qed.
End realloc.
