(* ===== verification/ZendAllocClient.v ===== *)
(** * ZendAllocClient: the memory manager as its callers see it

    A caller asks for blocks, writes and reads their words, resizes and releases them.  Whatever
    it asks for, within the blocks it has, the heap serves it as an abstract store of separate
    arrays would. *)
From S2P Require Import Prelude Memory HeapProp ZendAlloc ZendAllocOps ZendAllocRing ZendAllocSegment ZendAllocHeap ZendAllocAlloc ZendAllocInt.
From S2P Require Import ZendAllocHole ZendAllocStart ZendAllocResize ZendAllocRealloc.
From iris.proofmode Require Import proofmode.
From stdpp Require Import list gmap.
Local Open Scope Z_scope.

(** ** What callers do *)

(** A caller names its blocks by their places in a list, and the words of a block by their
    indices. *)
Inductive request :=
  | Emalloc (size : Z)
  | Efree (k : nat)
  | Erealloc (k : nat) (size : Z)
  | Put (k i : nat) (v : Z)
  | Get (k i : nat).

Definition words_of (size : Z) : nat := Z.to_nat (size / 8).

Definition size_ok (size : Z) : bool := (0 <=? size) && (size <? 2 ^ 64).

Definition within (shape : list nat) (k i : nat) : bool :=
  match shape !! k with Some n => (i <? n)%nat | None => false end.

(** The requests keep to the blocks of the caller, whose lengths in words are [shape]. *)
Fixpoint polite (reqs : list request) (shape : list nat) : bool :=
  match reqs with
  | [] => true
  | Emalloc size :: reqs => size_ok size && polite reqs (words_of size :: shape)
  | Efree k :: reqs => (k <? length shape)%nat && polite reqs (delete k shape)
  | Erealloc k size :: reqs => (k <? length shape)%nat && size_ok size && polite reqs (<[k := words_of size]> shape)
  | Put k i _ :: reqs | Get k i :: reqs => within shape k i && polite reqs shape
  end.

(** ** The abstract store *)

(** Where both arrays have a word, it is the same. *)
Definition keeps (ws ws' : list Z) : Prop := forall i w w', ws !! i = Some w -> ws' !! i = Some w' -> w = w'.

(** The arrays [s] become [s'], and the words [outs] are read. *)
Inductive explains : list request -> list (list Z) -> list Z -> list (list Z) -> Prop :=
  | explains_nil s : explains [] s [] s
  | explains_malloc size ws reqs s outs s' :
      length ws = words_of size -> explains reqs (ws :: s) outs s' -> explains (Emalloc size :: reqs) s outs s'
  | explains_free k reqs s outs s' :
      explains reqs (delete k s) outs s' -> explains (Efree k :: reqs) s outs s'
  | explains_realloc k size ws ws' reqs s outs s' :
      s !! k = Some ws -> length ws' = words_of size -> keeps ws ws' ->
      explains reqs (<[k := ws']> s) outs s' -> explains (Erealloc k size :: reqs) s outs s'
  | explains_put k i v ws reqs s outs s' :
      s !! k = Some ws -> explains reqs (<[k := <[i := v]> ws]> s) outs s' -> explains (Put k i v :: reqs) s outs s'
  | explains_get k i ws w reqs s outs s' :
      s !! k = Some ws -> ws !! i = Some w -> explains reqs s outs s' -> explains (Get k i :: reqs) s (w :: outs) s'.

Section client.
Context (heap : Z) (Hheap : 0 <= heap) (st : zend_mm_mem_handlers) {fails : Z -> Prop} `{Hst : !Storage st fails} `{Hen : !Enlarges st}.
Context (zend_error : hcmd unit) (Herr : report_ok heap zend_error).

(** The caller at work, with the pointers [live]; [outs] is what it has read. *)
Fixpoint serve (reqs : list request) (live outs : list Z) : hcmd (outcome (list Z * list Z)) :=
  match reqs with
  | [] => mret (Done (live, outs))
  | Emalloc size :: reqs => then_ (_emalloc heap st zend_error size) (fun p => serve reqs (p :: live) outs)
  | Efree k :: reqs =>
      match live !! k with
      | Some p => _efree heap st p ;; serve reqs (delete k live) outs
      | None => cfault
      end
  | Erealloc k size :: reqs =>
      match live !! k with
      | Some p => then_ (_erealloc heap st zend_error p size) (fun p => serve reqs (<[k := p]> live) outs)
      | None => cfault
      end
  | Put k i v :: reqs =>
      match live !! k with
      | Some p => storev (p + 8 * Z.of_nat i) v ;; serve reqs live outs
      | None => cfault
      end
  | Get k i :: reqs =>
      match live !! k with
      | Some p => v ← load (p + 8 * Z.of_nat i); serve reqs live (outs ++ [v])
      | None => cfault
      end
  end.

(** A block of a caller: the address of its header, its size and the words in use. *)
Abbreviation cblock := (Z * Z * list Z)%type.

Definition pointer_of (c : cblock) : Z := c.1.1 + 16.

Definition holds_words (c : cblock) : hprop :=
  ∃ hidden, ⌜(c.1.2 - 16 = 8 * Z.of_nat (length (c.2 ++ hidden)))%Z⌝ ∗ words (c.1.1 + 16) (c.2 ++ hidden).

(** The heap and the blocks of a caller with the pointers [live] and the arrays [s]. *)
Definition client_state (live : list Z) (s : list (list Z)) : hprop :=
  ∃ cs U, ⌜live = pointer_of <$> cs /\ s = snd <$> cs /\ map_to_list U ≡ₚ fst <$> cs⌝ ∗ mm heap U ∗ [∗ list] c ∈ cs, holds_words c.

(** *** One request *)

Lemma cblocks_owned (cs : list cblock) U : map_to_list U ≡ₚ fst <$> cs -> ([∗ list] c ∈ cs, holds_words c) ⊢ owned U.
Proof.
  iIntros (HU) "H". rewrite /owned big_opM_map_to_list. rewrite (big_opL_permutation _ _ _ HU) big_sepL_fmap. iApply (big_sepL_impl with "H").
  iIntros "!>" (k [[a n] ws] _) "(%hidden & %Hlen & Hw)". cbn [fst snd] in *. rewrite region_words. iExists _. by iFrame.
Qed.

Lemma agree_keeps ws ws' m m' : agree ws ws' -> keeps (take m ws) (take m' ws').
Proof.
  intros Ha i w w' Hw Hw'. apply lookup_take_Some in Hw as [Hw _]. apply lookup_take_Some in Hw' as [Hw' _].
  destruct Ha as [Hp|Hp]; [pose proof (prefix_lookup_Some _ _ _ _ Hw' Hp)|pose proof (prefix_lookup_Some _ _ _ _ Hw Hp)]; congruence.
Qed.

Lemma words_of_le size n (ws : list Z) : 0 <= size -> size <= n - 16 -> n - 16 = 8 * Z.of_nat (length ws) -> (words_of size <= length ws)%nat.
Proof. intros H0 Hs Hn. unfold words_of. Z.to_euclidean_division_equations. lia. Qed.

Lemma size_ok_spec size : size_ok size = true -> 0 <= size < 2 ^ 64.
Proof. unfold size_ok. intros [?%Z.leb_le ?%Z.ltb_lt]%andb_true_iff. done. Qed.

Lemma hwp_client_alloc live s size Q : size_ok size = true ->
  client_state live s -∗
  ((∀ p ws, ⌜length ws = words_of size⌝ -∗ client_state (p :: live) (ws :: s) -∗ Q (Done p)) ∧ (abandoned heap -∗ Q Bailout)) -∗
  hwp (_emalloc heap st zend_error size) Q.
Proof.
  iIntros (Hs%size_ok_spec) "(%cs & %U & (-> & -> & %HU) & HM & Hcs) HQ". iApply (hwp_alloc heap Hheap st zend_error Herr with "HM"); [done|]. iSplit.
  - iDestruct "HQ" as "[HQ _]". iIntros (a n (Ha & Hn & _)) "HM Hr". rewrite region_words. iDestruct "Hr" as "(%ws & %Hws & Hw)".
    pose proof (words_of_le size n ws ltac:(lia) Hn Hws) as Hle. iApply ("HQ" $! _ (take (words_of size) ws)); [iPureIntro; rewrite length_take; lia|].
    iExists ((a, n, take (words_of size) ws) :: cs), (<[a := n]> U). iFrame "HM". iSplit.
    + iPureIntro. split_and!; [done..|]. rewrite map_to_list_insert; [|done]. by rewrite HU.
    + rewrite big_sepL_cons. iFrame "Hcs". iExists (drop (words_of size) ws). cbn [fst snd]. rewrite take_drop. by iFrame.
  - iDestruct "HQ" as "[_ HQ]". iIntros "HM". iApply "HQ". iApply (abandon_after with "HM"). by iApply (cblocks_owned with "Hcs").
Qed.

Lemma cblocks_take cs k c : cs !! k = Some c ->
  ([∗ list] c ∈ cs, holds_words c) ⊣⊢ holds_words c ∗ [∗ list] c ∈ delete k cs, holds_words c.
Proof. intros Hk. rewrite -(big_sepL_cons (fun _ => holds_words)). apply big_opL_permutation. by apply delete_Permutation. Qed.

(** The block at a place among those of a caller. *)
Lemma client_block live s k p : live !! k = Some p ->
  client_state live s -∗ ∃ a n ws cs U, ⌜p = (a + 16)%Z /\ s !! k = Some ws /\ U !! a = Some n /\ cs !! k = Some (a, n, ws) /\
    live = pointer_of <$> cs /\ s = snd <$> cs /\ map_to_list U ≡ₚ fst <$> cs⌝ ∗
    mm heap U ∗ holds_words (a, n, ws) ∗ [∗ list] c ∈ delete k cs, holds_words c.
Proof.
  iIntros (Hk) "(%cs & %U & (-> & -> & %HU) & HM & Hcs)". rewrite list_lookup_fmap in Hk. destruct (cs !! k) as [[[a n] ws]|] eqn:Ek; [|done].
  injection Hk as <-. iExists a, n, ws, cs, U. iDestruct (cblocks_take _ _ _ Ek with "Hcs") as "[$ $]". iFrame "HM".
  iPureIntro. split_and!; try done; [by rewrite list_lookup_fmap Ek|]. apply elem_of_map_to_list. rewrite HU. rewrite list_elem_of_fmap.
  exists (a, n, ws). split; [done|]. by eapply list_elem_of_lookup_2.
Qed.

Lemma delete_insert_list {A} (l : list A) k x : delete k (<[k := x]> l) = delete k l.
Proof. revert k. induction l as [|y l IH]; intros [|k]; simpl; [done..|]. f_equal. apply IH. Qed.

Lemma insert_perm {A} (l : list A) k x y : l !! k = Some y -> <[k := x]> l ≡ₚ x :: delete k l.
Proof.
  intros Hk. rewrite -(delete_insert_list l k x). apply delete_Permutation. apply list_lookup_insert_eq. by eapply lookup_lt_Some.
Qed.

(** The blocks of a caller when one of them goes, or another comes in its place. *)
Lemma owned_delete (cs : list cblock) U k a n ws : map_to_list U ≡ₚ fst <$> cs -> cs !! k = Some (a, n, ws) ->
  map_to_list (delete a U) ≡ₚ fst <$> delete k cs.
Proof.
  intros HU Hk. apply (Permutation_cons_inv (a := (a, n))). rewrite map_to_list_delete.
  - rewrite HU list_fmap_delete. apply (delete_Permutation (fst <$> cs) k (a, n)). by rewrite list_lookup_fmap Hk.
  - apply elem_of_map_to_list. rewrite HU list_elem_of_fmap. exists (a, n, ws). split; [done|]. by eapply list_elem_of_lookup_2.
Qed.

Lemma hwp_client_free live s k p Q : live !! k = Some p ->
  client_state live s -∗ (client_state (delete k live) (delete k s) -∗ Q tt) -∗ hwp (_efree heap st p) Q.
Proof.
  iIntros (Hk) "HS HQ". iDestruct (client_block _ _ _ _ Hk with "HS") as (a n ws cs U) "((-> & %Hs & %Ha & %Hcs & -> & -> & %HU) & HM & (%hidden & %Hlen & Hw) & Hrest)".
  cbn [fst snd] in *. iApply (hwp_free heap Hheap st U a n with "HM [Hw]"); [done|rewrite region_words; iExists _; by iFrame|]. iIntros "HM". iApply "HQ".
  iExists (delete k cs), (delete a U). rewrite !list_fmap_delete. iFrame. iPureIntro. split_and!; [done..|]. rewrite -list_fmap_delete. by eapply owned_delete.
Qed.

Lemma hwp_client_realloc live s k p size Q : live !! k = Some p -> size_ok size = true ->
  client_state live s -∗
  ((∀ p' ws ws', ⌜s !! k = Some ws /\ length ws' = words_of size /\ keeps ws ws'⌝ -∗ client_state (<[k := p']> live) (<[k := ws']> s) -∗ Q (Done p')) ∧ (abandoned heap -∗ Q Bailout)) -∗
  hwp (_erealloc heap st zend_error p size) Q.
Proof.
  iIntros (Hk Hsz%size_ok_spec) "HS HQ". iDestruct (client_block _ _ _ _ Hk with "HS") as (a n ws cs U) "((-> & %Hs & %Ha & %Hcs & -> & -> & %HU) & HM & (%hidden & %Hlen & Hw) & Hrest)".
  cbn [fst snd] in *. iApply (hwp_realloc_int heap Hheap st zend_error Herr U a n (ws ++ hidden) size with "HM Hw"); [done..|]. iSplit.
  - iDestruct "HQ" as "[HQ _]". iIntros (a' n' ws' (Hnone & Hn' & Hws' & Hag & _)) "HM Hw". set (m := words_of size).
    pose proof (words_of_le size n' ws' ltac:(lia) Hn' Hws') as Hle. fold m in Hle.
    iApply ("HQ" $! (a' + 16) ws (take m ws') with "[]").
    { iPureIntro. split_and!; [done|rewrite length_take; lia|]. pose proof (agree_keeps _ _ (length ws) m Hag) as Hkp. by rewrite take_app_length in Hkp. }
    iExists (<[k := (a', n', take m ws')]> cs), (<[a' := n']> (delete a U)). iFrame "HM". iSplit.
    + iPureIntro. rewrite !list_fmap_insert. split_and!; [done..|]. rewrite map_to_list_insert; [|done]. rewrite (owned_delete cs U k a n ws HU Hcs).
      rewrite list_fmap_delete. symmetry. apply (insert_perm _ k (a', n') (a, n)). by rewrite list_lookup_fmap Hcs.
    + iApply (cblocks_take _ k (a', n', take m ws')); [apply list_lookup_insert_eq; by eapply lookup_lt_Some|]. rewrite delete_insert_list. iFrame "Hrest".
      iExists (drop m ws'). cbn [fst snd]. rewrite take_drop. by iFrame.
  - iDestruct "HQ" as "[_ HQ]". iIntros "HM Hw". iApply "HQ". iApply (abandon_after with "HM"). iApply (cblocks_owned cs with "[Hw Hrest]"); [done|].
    iApply (cblocks_take _ _ _ Hcs). iFrame "Hrest". iExists hidden. by iFrame.
Qed.

(** Reading and writing. *)
Lemma client_word live s k i p ws w : live !! k = Some p -> s !! k = Some ws -> ws !! i = Some w ->
  client_state live s -∗ (p + 8 * Z.of_nat i) ↦ w ∗ (∀ v, (p + 8 * Z.of_nat i) ↦ v -∗ client_state live (<[k := <[i := v]> ws]> s)).
Proof.
  iIntros (Hk Hs Hi) "HS". iDestruct (client_block _ _ _ _ Hk with "HS") as (a n ws' cs U) "((-> & %Hs' & %Ha & %Hcs & -> & -> & %HU) & HM & (%hidden & %Hlen & Hw) & Hrest)".
  assert (ws' = ws) as -> by congruence. cbn [fst snd] in *. unfold words.
  iDestruct (big_sepL_insert_acc with "Hw") as "[$ Hw]"; [by apply lookup_app_l_Some|]. iIntros (v) "Hv". iSpecialize ("Hw" with "Hv").
  iExists (<[k := (a, n, <[i := v]> ws)]> cs), U. iFrame "HM". rewrite !list_fmap_insert. iSplit.
  - iPureIntro. split_and!; [|done|].
    + symmetry. apply list_insert_id. by rewrite list_lookup_fmap Hcs.
    + rewrite HU. rewrite list_insert_id; [done|]. by rewrite list_lookup_fmap Hcs.
  - iApply (cblocks_take _ k (a, n, <[i := v]> ws)); [apply list_lookup_insert_eq; by eapply lookup_lt_Some|]. rewrite delete_insert_list. iFrame "Hrest".
    iExists hidden. cbn [fst snd]. rewrite insert_app_l; [|by eapply lookup_lt_Some]. iSplit; [|iExact "Hw"]. iPureIntro. rewrite Hlen !length_app length_insert. done.
Qed.

(** *** All requests *)

Lemma within_spec shape k i : within shape k i = true -> exists n, shape !! k = Some n /\ (i < n)%nat.
Proof. unfold within. destruct (shape !! k) as [n|]; [|done]. intros ?%Nat.ltb_lt. by exists n. Qed.

Lemma client_length live s : client_state live s -∗ ⌜length live = length s⌝.
Proof. iIntros "(%cs & %U & (-> & -> & _) & _)". by rewrite !length_fmap. Qed.

(** The array and the pointer of a block. *)
Lemma client_lookup live s k ws : s !! k = Some ws -> client_state live s -∗ ⌜exists p, live !! k = Some p⌝.
Proof.
  iIntros (Hk) "HS". iDestruct (client_length with "HS") as %Hl. iPureIntro. apply lookup_lt_is_Some. rewrite Hl. by eapply lookup_lt_Some.
Qed.

Lemma within_client live s k i : within (length <$> s) k i = true ->
  client_state live s -∗ ⌜exists p ws w, live !! k = Some p /\ s !! k = Some ws /\ ws !! i = Some w⌝.
Proof.
  iIntros (Hw) "HS". apply within_spec in Hw as (n & Hn & Hi). rewrite list_lookup_fmap in Hn. destruct (s !! k) as [ws|] eqn:Es; [|done]. injection Hn as <-.
  iDestruct (client_lookup with "HS") as %[p Hp]; [done|]. iPureIntro. destruct (lookup_lt_is_Some_2 ws i Hi) as [w Hws]. by exists p, ws, w.
Qed.

(** What is left when a caller is done. *)
Definition served_as (reqs : list request) (s : list (list Z)) (outs : list Z) (o : outcome (list Z * list Z)) : hprop :=
  match o with
  | Done (live, outs') => ∃ s' outs2, ⌜outs' = outs ++ outs2 /\ explains reqs s outs2 s'⌝ ∗ client_state live s'
  | Bailout => abandoned heap
  end.

Lemma served_step r reqs s s1 outs outs1 o :
  (forall outs2 s', explains reqs s1 outs2 s' -> explains (r :: reqs) s (outs1 ++ outs2) s') ->
  served_as reqs s1 (outs ++ outs1) o ⊢ served_as (r :: reqs) s outs o.
Proof.
  intros Hr. destruct o as [[live outs']|]; [|done]. iIntros "(%s' & %outs2 & [-> %Hex] & HS)". iExists s', (outs1 ++ outs2). iFrame.
  iPureIntro. split; [by rewrite assoc|auto].
Qed.

Lemma served_quiet r reqs s s1 outs o : (forall outs2 s', explains reqs s1 outs2 s' -> explains (r :: reqs) s outs2 s') ->
  served_as reqs s1 outs o ⊢ served_as (r :: reqs) s outs o.
Proof. intros Hr. rewrite -{1}(app_nil_r outs). by apply served_step. Qed.

Lemma hwp_serve reqs live s outs : polite reqs (length <$> s) = true ->
  client_state live s -∗ hwp (serve reqs live outs) (served_as reqs s outs).
Proof.
  iIntros (Hp) "HS". iInduction reqs as [|r reqs] "IH" forall (live s outs Hp); cbn [serve].
  { iApply hwp_ret. iExists s, []. iFrame. iPureIntro. split; [by rewrite app_nil_r|constructor]. }
  destruct r as [size|k|k size|k i v|k i]; cbn [polite] in Hp.
  - apply andb_true_iff in Hp as [Hsz Hp]. iApply hwp_bind. iApply (hwp_client_alloc with "HS"); [done|]. iSplit; [|iIntros "HM"; by iApply hwp_ret].
    iIntros (p ws Hws) "HS". iApply (hwp_wand with "[HS]"); [iApply ("IH" with "[] HS")|].
    + iPureIntro. by rewrite fmap_cons Hws.
    + iIntros (o) "HO". iApply (served_quiet with "HO"). intros. by econstructor.
  - apply andb_true_iff in Hp as [Hk%Nat.ltb_lt Hp]. rewrite length_fmap in Hk. destruct (lookup_lt_is_Some_2 s k Hk) as [ws Hws].
    iDestruct (client_lookup with "HS") as %[p Hlp]; [done|]. rewrite Hlp. iApply hwp_bind. iApply (hwp_client_free with "HS"); [done|]. iIntros "HS".
    iApply (hwp_wand with "[HS]"); [iApply ("IH" with "[] HS"); iPureIntro; by rewrite list_fmap_delete|].
    iIntros (o) "HO". iApply (served_quiet with "HO"). intros. by econstructor.
  - apply andb_true_iff in Hp as [[Hk%Nat.ltb_lt Hsz]%andb_true_iff Hp]. rewrite length_fmap in Hk. destruct (lookup_lt_is_Some_2 s k Hk) as [ws0 Hws0].
    iDestruct (client_lookup with "HS") as %[p Hlp]; [done|]. rewrite Hlp. iApply hwp_bind. iApply (hwp_client_realloc with "HS"); [done..|]. iSplit; [|iIntros "HM"; by iApply hwp_ret].
    iIntros (p' ws ws' (Hws & Hlen & Hkeep)) "HS". iApply (hwp_wand with "[HS]"); [iApply ("IH" with "[] HS"); iPureIntro; by rewrite list_fmap_insert Hlen|].
    iIntros (o) "HO". iApply (served_quiet with "HO"). intros. by econstructor.
  - apply andb_true_iff in Hp as [Hin Hp]. iDestruct (within_client with "HS") as %(p & ws & w & Hlp & Hs & Hw); [done|]. rewrite Hlp.
    iDestruct (client_word with "HS") as "[Hw HS]"; [done..|]. hstore "Hw". iSpecialize ("HS" with "Hw").
    iApply (hwp_wand with "[HS]"); [iApply ("IH" with "[] HS")|].
    + iPureIntro. rewrite list_fmap_insert length_insert. rewrite list_insert_id; [done|]. by rewrite list_lookup_fmap Hs.
    + iIntros (o) "HO". iApply (served_quiet with "HO"). intros. by econstructor.
  - apply andb_true_iff in Hp as [Hin Hp]. iDestruct (within_client with "HS") as %(p & ws & w & Hlp & Hs & Hw); [done|]. rewrite Hlp.
    iDestruct (client_word with "HS") as "[Hw HS]"; [done..|]. hload "Hw". iSpecialize ("HS" with "Hw").
    rewrite (list_insert_id ws i w Hw) (list_insert_id s k ws Hs).
    iApply (hwp_wand with "[HS]"); [by iApply ("IH" with "[] HS")|]. iIntros (o) "HO". iApply (served_step with "HO"). intros. by econstructor.
Qed.

(** A heap of its own for a caller. *)
Definition session (bs rs : Z) (reqs : list request) : hcmd (outcome (list Z * list Z)) :=
  then_ (zend_mm_startup_ex heap st zend_error bs rs) (fun _ => serve reqs [] []).

Lemma hwp_session bs rs reqs : block_size_ok bs -> 0 <= rs < 2 ^ 64 -> polite reqs [] = true ->
  heap_fields heap -∗ hwp (session bs rs reqs) (served_as reqs [] []).
Proof.
  iIntros (Hbs Hrs Hp) "HF". iApply hwp_bind. iApply (hwp_startup heap Hheap st zend_error Herr with "HF"); [done..|]. iSplit.
  - iIntros "HM". iApply hwp_serve; [done|]. iExists [], ∅. iFrame. iSplit; [|done]. iPureIntro. split_and!; [done..|]. by rewrite map_to_list_empty.
  - iIntros "HM". iApply hwp_ret. iApply (abandon_after with "HM"). by rewrite /owned big_sepM_empty.
Qed.
End client.
