(* ===== verification/ZendAllocLife.v ===== *)
(** * ZendAllocLife: the requests of a process

    A process starts the memory manager once.  After each request, whether it has ended well or
    in a bailout and whatever blocks it has left behind, it shuts the heap down for the next
    one, and at the end for good. *)
From S2P Require Import Prelude Memory HeapProp ZendAlloc ZendAllocOps ZendAllocHole ZendAllocSegment ZendAllocHeap ZendAllocAlloc.
From S2P Require Import ZendAllocStart ZendAllocShutdown ZendAllocClient.
From iris.proofmode Require Import proofmode.
From stdpp Require Import list gmap.
Local Open Scope Z_scope.

Section life.
Context (heap : Z) (Hheap : 0 <= heap) (st : zend_mm_mem_handlers) {fails : Z -> Prop} `{Hst : !Storage st fails} `{Hen : !Enlarges st}.
Context (zend_error : hcmd unit) (Herr : report_ok heap zend_error) (libc_free : Z -> hcmd unit) (Hfree : free_ok heap libc_free).

(** What a request has read, unless it has bailed out. *)
Definition report_of (o : outcome (list Z * list Z)) : outcome (list Z) :=
  match o with Done (_, outs) => Done outs | Bailout => Bailout end.

Fixpoint serve_all (scripts : list (list request)) : hcmd (outcome (list (outcome (list Z)))) :=
  match scripts with
  | [] => then_ (zend_mm_shutdown heap st zend_error libc_free true) (fun _ => mret (Done []))
  | reqs :: scripts =>
      o ← serve heap st zend_error reqs [] [];
      then_ (zend_mm_shutdown heap st zend_error libc_free false) (fun _ =>
      then_ (serve_all scripts) (fun reports => mret (Done (report_of o :: reports))))
  end.

Definition life (bs rs : Z) (scripts : list (list request)) : hcmd (outcome (list (outcome (list Z)))) :=
  then_ (zend_mm_startup_ex heap st zend_error bs rs) (fun _ => serve_all scripts).

(** A request reads what it would in an abstract store of its own. *)
Definition request_ok (reqs : list request) (r : outcome (list Z)) : Prop :=
  match r with Done outs => exists s, explains reqs [] outs s | Bailout => True end.

Definition life_ok (scripts : list (list request)) (o : outcome (list (outcome (list Z)))) : Prop :=
  match o with Done reports => Forall2 request_ok scripts reports | Bailout => True end.

(** What a request leaves behind. *)
Lemma client_abandoned live s : client_state heap live s ⊢ abandoned heap.
Proof. iIntros "(%cs & %U & (_ & _ & %HU) & HM & Hcs)". iExists U. iFrame "HM". by iApply (cblocks_owned with "Hcs"). Qed.

Lemma hwp_request reqs : polite reqs [] = true ->
  mm heap ∅ ⊢ hwp (serve heap st zend_error reqs [] []) (fun o => ⌜request_ok reqs (report_of o)⌝ ∗ abandoned heap).
Proof.
  iIntros (Hp) "HM". iApply (hwp_wand with "[HM]").
  - iApply (hwp_serve heap Hheap st zend_error Herr reqs [] []); [done|]. iExists [], ∅. iFrame. iSplit; [|done]. iPureIntro. split_and!; [done..|]. by rewrite map_to_list_empty.
  - iIntros ([[live outs]|]) "HO"; cbn [served_as report_of request_ok]; [|by iFrame].
    iDestruct "HO" as (s' outs2) "[[-> %Hex] HS]". rewrite client_abandoned. iFrame. iPureIntro. by exists s'.
Qed.

Lemma hwp_serve_all scripts : Forall (fun reqs => polite reqs [] = true) scripts ->
  mm heap ∅ ⊢ hwp (serve_all scripts) (fun o => ⌜life_ok scripts o⌝).
Proof.
  iIntros (Hp) "HM". iInduction Hp as [|reqs scripts Hreqs Hp] "IH"; cbn [serve_all].
  - iApply hwp_bind. iApply (hwp_full_shutdown heap Hheap st zend_error with "[HM]"); [done| |].
    + iExists ∅. iFrame. by rewrite /owned big_sepM_empty.
    + iApply hwp_ret. iPureIntro. constructor.
  - iApply hwp_bind. iApply (hwp_wand with "[HM]"); [by iApply hwp_request|]. iIntros (o) "[%Ho HA]". iApply hwp_bind.
    iApply (hwp_shutdown heap Hheap st zend_error Herr with "HA"). iSplit; [|iIntros "_"; by iApply hwp_ret]. iIntros "HM".
    iApply hwp_bind. iApply (hwp_wand with "[HM]"); [by iApply "IH"|]. iIntros ([reports|]) "%Hr"; [|by iApply hwp_ret].
    iApply hwp_ret. iPureIntro. by constructor.
Qed.

Lemma hwp_life bs rs scripts : block_size_ok bs -> 0 <= rs < 2 ^ 64 -> Forall (fun reqs => polite reqs [] = true) scripts ->
  heap_fields heap ⊢ hwp (life bs rs scripts) (fun o => ⌜life_ok scripts o⌝).
Proof.
  iIntros (Hbs Hrs Hp) "HF". iApply hwp_bind. iApply (hwp_startup heap Hheap st zend_error Herr with "HF"); [done..|]. iSplit.
  - iIntros "HM". by iApply hwp_serve_all.
  - iIntros "_". by iApply hwp_ret.
Qed.
End life.
