(* ===== verification/ZendAllocStore.v ===== *)
(** * ZendAllocStore: a storage

    A storage that meets its contract, over the memory itself: a segment is put behind all cells
    there are, and none is used again. *)
From S2P Require Import Prelude Memory HeapProp ZendAlloc ZendAllocOps ZendAllocRing ZendAllocHole ZendAllocSegment.
From iris.proofmode Require Import proofmode.
From stdpp Require Import list gmap.
Local Open Scope Z_scope.

Definition last_cell (m : mem) : Z := map_fold (fun p _ n => Z.max p n) 0 m.

Definition fresh_place (m : mem) : Z := 8 * (last_cell m / 8 + 2).

Fixpoint cell_map (p : Z) (ws : list Z) : mem :=
  match ws with
  | [] => ∅
  | w :: ws => <[p := w]> (cell_map (p + 8) ws)
  end.

(** New cells with the contents [ws]. *)
Definition put_fresh (ws : list Z) : hcmd Z := fun m => Some (fresh_place m, cell_map (fresh_place m) ws ∪ m).

(** What [n] cells from [p] on hold. *)
Definition peek (p : Z) (n : nat) : hcmd (list Z) := fun m =>
  Some ((fun i => default 0 (m !! (p + 8 * Z.of_nat i)%Z)) <$> seq 0 n, m).

Definition bump_alloc (n : Z) : hcmd Z :=
  if (n mod 8 =? 0) && (n <? 2 ^ 64) then put_fresh (replicate (Z.to_nat (n / 8)) 0) else mret NULL.

Definition bump_realloc (p n : Z) : hcmd Z := ws ← peek p (Z.to_nat (n / 8)); put_fresh ws.

Definition bump_storage : zend_mm_mem_handlers :=
  {| storage_alloc := bump_alloc; storage_realloc := bump_realloc; storage_free := fun _ => mret tt; storage_dtor := mret tt;
     storage_compact := mret tt |}.

Lemma last_cell_le (m : mem) p : is_Some (m !! p) -> p <= last_cell m.
Proof.
  unfold last_cell. revert p. refine (map_fold_weak_ind (fun n m => forall p, is_Some (m !! p) -> p <= n) _ 0 _ _ m).
  - intros p [v Hv]. by rewrite lookup_empty in Hv.
  - intros i x m' r Hi IH p [v Hv]. destruct (decide (i = p)) as [->|Hne]; [lia|]. rewrite lookup_insert_ne in Hv; [|done]. specialize (IH p (ex_intro _ v Hv)). lia.
Qed.

Lemma last_cell_nonneg (m : mem) : 0 <= last_cell m.
Proof. unfold last_cell. refine (map_fold_weak_ind (fun n m => 0 <= n) _ 0 _ _ m); [done|]. intros. lia. Qed.

Lemma fresh_place_spec (m : mem) : 0 < fresh_place m /\ fresh_place m mod 8 = 0 /\ forall p, is_Some (m !! p) -> p < fresh_place m.
Proof.
  pose proof (last_cell_nonneg m) as H0. unfold fresh_place. split_and!.
  - Z.to_euclidean_division_equations. lia.
  - rewrite Z.mul_comm. by apply Z.mod_mul.
  - intros p Hp%last_cell_le. Z.to_euclidean_division_equations. lia.
Qed.

Lemma cell_map_above p ws q : is_Some (cell_map p ws !! q) -> p <= q.
Proof.
  revert p. induction ws as [|w ws IH]; intros p; cbn [cell_map]; [rewrite lookup_empty; by intros []|].
  destruct (decide (p = q)) as [->|Hne]; [lia|]. rewrite lookup_insert_ne; [|done]. intros Hq%IH. lia.
Qed.

Lemma cell_map_words p ws : (words p ws : hprop) (cell_map p ws).
Proof.
  revert p. induction ws as [|w ws IH]; intros p; cbn [cell_map].
  - assert (⊢ words p []) as [Hn]; [by rewrite /words big_sepL_nil|]. by apply Hn.
  - assert (p ↦ w ∗ words (p + 8) ws ⊢ words p (w :: ws)) as [Hc]; [by rewrite words_cons|]. apply Hc.
    assert (cell_map (p + 8) ws !! p = None) as Hfresh.
    { apply eq_None_not_Some. intros Hp%cell_map_above. lia. }
    exists {[p := w]}, (cell_map (p + 8) ws). split_and!; [by rewrite insert_union_singleton_l|by apply map_disjoint_singleton_l| |done].
    change (({[p := w]} : mem) !! p = Some w). apply lookup_singleton_eq.
Qed.

Lemma hwp_put_fresh ws Q : (∀ p, ⌜0 < p /\ p mod 8 = 0⌝ -∗ words p ws -∗ Q p) ⊢ hwp (put_fresh ws) Q.
Proof.
  split. intros s HQ f Hd. destruct (fresh_place_spec (s ∪ f)) as (H0 & H8 & Habove). set (q := fresh_place (s ∪ f)) in *.
  assert (cell_map q ws ##ₘ s ∪ f) as Hdisj.
  { apply map_disjoint_spec. intros i v w Hv Hw. pose proof (cell_map_above _ _ _ (mk_is_Some _ _ Hv)). pose proof (Habove i (mk_is_Some _ _ Hw)). lia. }
  apply map_disjoint_union_r in Hdisj as [Hds Hdf]. exists q, (s ∪ cell_map q ws). split_and!.
  - unfold put_fresh. fold q. do 2 f_equal. rewrite (assoc_L (∪)). f_equal. by apply map_union_comm.
  - by apply map_disjoint_union_l.
  - assert ((⌜0 < q /\ q mod 8 = 0⌝ -∗ words q ws -∗ Q q : hprop)%I s) as Hq by exact (HQ q).
    assert ((words q ws -∗ Q q : hprop)%I s) as Hw.
    { rewrite -(right_id_L ∅ (∪) s). apply Hq; [apply map_disjoint_empty_r|done]. }
    apply Hw; [done|apply cell_map_words].
Qed.

(** What a memory holds that an assertion names. *)
Lemma words_lookup p ws (m : mem) i w : (words p ws : hprop) m -> ws !! i = Some w -> m !! (p + 8 * Z.of_nat i) = Some w.
Proof.
  intros Hm Hi. assert (words p ws ⊢ (p + 8 * Z.of_nat i) ↦ w) as [He]; [|exact (He m Hm)].
  iIntros "H". unfold words. by iDestruct (big_sepL_lookup with "H") as "$".
Qed.

Lemma hwp_peek p n ws Q : (length ws <= n)%nat ->
  words p ws ∗ (∀ extra, ⌜length (ws ++ extra) = n⌝ -∗ words p ws -∗ Q (ws ++ extra)) ⊢ hwp (peek p n) Q.
Proof.
  intros Hn. split. intros s HP f Hd. set (vs := (fun i => default 0 ((s ∪ f) !! (p + 8 * Z.of_nat i))) <$> seq 0 n).
  assert (exists extra, vs = ws ++ extra /\ length (ws ++ extra) = n) as (extra & Evs & Hlen).
  { exists (drop (length ws) vs). assert (length vs = n) as Hl by (unfold vs; by rewrite length_fmap length_seq). 
    assert (take (length ws) vs = ws) as Ht.
    { apply list_eq. intros i. destruct (decide (i < length ws)%nat) as [Hi|Hi].
      - destruct (lookup_lt_is_Some_2 ws i Hi) as [w Hw]. rewrite Hw. rewrite lookup_take_lt; [|done]. unfold vs. rewrite list_lookup_fmap lookup_seq_lt; [|lia].
        destruct HP as (s1 & s2 & -> & Hds & H1 & _). cbn. pose proof (words_lookup _ _ _ _ _ H1 Hw) as Hl1. 
        rewrite (lookup_union_Some_l _ _ _ w); [done|]. by apply lookup_union_Some_l.
      - rewrite lookup_take_ge; [|lia]. symmetry. apply lookup_ge_None. lia. }
    split; [rewrite -{1}(take_drop (length ws) vs); by rewrite Ht|]. rewrite length_app length_drop. lia. }
  exists (ws ++ extra), s. split_and!; [unfold peek; fold vs; by rewrite Evs|done|].
  assert (words p ws ∗ (∀ extra, ⌜length (ws ++ extra) = n⌝ -∗ words p ws -∗ Q (ws ++ extra)) ⊢ Q (ws ++ extra)) as [He]; [|exact (He s HP)].
  iIntros "[Hw HQ]". by iApply ("HQ" with "[//] Hw").
Qed.

(** Segments come in whole words, and their sizes fit a word. *)
Definition bump_fails (n : Z) : Prop := n mod 8 <> 0 \/ 2 ^ 64 <= n.

#[global] Instance bump_store : Storage bump_storage bump_fails.
Proof.
  split.
  - intros n Q Hn. iIntros "HQ". cbn [storage_alloc bump_storage]. unfold bump_alloc. destruct (Z.eqb_spec (n mod 8) 0) as [H8|H8]; cbn [andb].
    + destruct (Z.ltb_spec n (2 ^ 64)) as [Hlt|Hge]; [|iApply hwp_ret; iApply "HQ"; iLeft; iPureIntro; split; [done|by right]].
      iApply hwp_put_fresh. iIntros (p Hp) "Hw". iApply "HQ". iRight. iSplit; [iPureIntro; unfold place_ok; tauto|].
      rewrite region_words. iExists _. iFrame "Hw". iPureIntro. rewrite length_replicate. Z.to_euclidean_division_equations. lia.
    + iApply hwp_ret. iApply "HQ". iLeft. iPureIntro. split; [done|by left].
  - intros p n Q. iIntros "[_ HQ]". by iApply hwp_ret.
  - intros Q. apply bi.wand_entails, hwp_ret.
  - intros Q. apply bi.wand_entails, hwp_ret.
Qed.

#[global] Instance bump_enlarges : Enlarges bump_storage.
Proof.
  intros p n ws Q Hn Hle H8. iIntros "[Hw HQ]". cbn [storage_realloc bump_storage]. unfold bump_realloc. iApply hwp_bind.
  iApply (hwp_peek p _ ws); [Z.to_euclidean_division_equations; lia|]. iFrame "Hw". iIntros (extra Hlen) "_".
  iApply hwp_put_fresh. iIntros (q Hq) "Hq". iApply ("HQ" with "[] Hq"). iPureIntro. rewrite Hlen. split; [unfold place_ok; split_and!; tauto || lia|].
  Z.to_euclidean_division_equations. lia.
Qed.
