(* ===== verification/ZendAllocSpec.v ===== *)
(** * ZendAllocSpec: what the memory manager promises

    The properties of the heap manager, with a run of each on a concrete heap. *)
From S2P Require Import Prelude Memory HeapProp ZendAlloc ZendAllocOps ZendAllocBits ZendAllocRing ZendAllocLayout ZendAllocHole ZendAllocSegment.
From S2P Require Import ZendAllocHeap ZendAllocAlloc ZendAllocInt ZendAllocStart ZendAllocResize ZendAllocRealloc ZendAllocGather ZendAllocShutdown ZendAllocClient ZendAllocLife ZendAllocStore.
From iris.proofmode Require Import proofmode.
From stdpp Require Import list gmap.
Local Open Scope Z_scope.

Lemma pure_sep_at (φ : Prop) (P : hprop) (m : mem) : (⌜φ⌝ ∗ P : hprop)%I m -> φ /\ P m.
Proof.
  intros Hm. split.
  - assert (⌜φ⌝ ∗ P ⊢ ⌜φ⌝) as [He]; [by iIntros "[% _]"|exact (He m Hm)].
  - assert (⌜φ⌝ ∗ P ⊢ P) as [He]; [by iIntros "[_ $]"|exact (He m Hm)].
Qed.

(** ** Memory for a heap *)

(** The memory has the words of the structure [_zend_mm_heap] from [free_bitmap] on. *)
Definition has_fields (heap : Z) (m : mem) : Prop := forall i, 0 <= i < 274 -> is_Some (m !! (heap + 32 + 8 * i)).

Lemma region_of_cells a n (m : mem) : (forall i, 0 <= i < Z.of_nat n -> is_Some (m !! (a + 8 * i))) -> (region a (8 * Z.of_nat n) : hprop) m.
Proof.
  intros Hm. assert (exists ws, length ws = n /\ (words a ws : hprop) m) as (ws & Hl & Hw).
  { revert a m Hm. induction n as [|n IH]; intros a m Hm.
    - exists []. split; [done|]. assert (⊢ words a []) as [He]; [by rewrite /words big_sepL_nil|]. by apply He.
    - destruct (Hm 0 ltac:(lia)) as [w Hw]. replace (a + 8 * 0) with a in Hw by lia. destruct (IH (a + 8) (delete a m)) as (ws & Hl & Hws).
      + intros i Hi. rewrite lookup_delete_ne; [|lia]. replace (a + 8 + 8 * i) with (a + 8 * (i + 1)) by lia. apply Hm. lia.
      + exists (w :: ws). split; [simpl; lia|]. assert (a ↦ w ∗ words (a + 8) ws ⊢ words a (w :: ws)) as [He]; [by rewrite words_cons|]. apply He.
        exists {[a := w]}, (delete a m). split_and!; [|apply map_disjoint_singleton_l; apply lookup_delete_eq| |done].
        * rewrite -insert_union_singleton_l. by rewrite insert_delete_id.
        * change (({[a := w]} : mem) !! a = Some w). apply lookup_singleton_eq. }
  assert (words a ws ⊢ region a (8 * Z.of_nat n)) as [He]; [|by apply He]. iIntros "H". rewrite region_words. iExists ws. iFrame. iPureIntro. by rewrite Hl.
Qed.

Lemma has_heap_fields heap m : has_fields heap m -> heap_fields heap m.
Proof. intros Hm. apply (region_of_cells (heap + 32) 274). exact Hm. Qed.

(** ** Callers *)

(** What the memory at the end of a session says of the caller's blocks. *)
Definition blocks_hold (live : list Z) (s : list (list Z)) (m : mem) : Prop :=
  length live = length s /\
  forall k i p ws w, live !! k = Some p -> s !! k = Some ws -> ws !! i = Some w -> m !! (p + 8 * Z.of_nat i) = Some w.

Definition session_ok (reqs : list request) (o : outcome (list Z * list Z)) (m : mem) : Prop :=
  match o with
  | Done (live, outs) => exists s, explains reqs [] outs s /\ blocks_hold live s m
  | Bailout => True
  end.

Lemma client_holds heap live s m : client_state heap live s m -> blocks_hold live s m.
Proof.
  intros Hm. split.
  - assert (client_state heap live s ⊢ ⌜length live = length s⌝) as [He]; [iIntros "H"; by iDestruct (client_length with "H") as %?|exact (He m Hm)].
  - intros k i p ws w Hk Hs Hi. assert (client_state heap live s ⊢ (p + 8 * Z.of_nat i) ↦ w) as [He]; [|exact (He m Hm)].
    iIntros "H". by iDestruct (client_word with "H") as "[$ _]".
Qed.

(** ** The properties *)

Section spec.
Context (heap : Z) (Hheap : 0 <= heap) (st : zend_mm_mem_handlers) (fails : Z -> Prop) `{Hst : !Storage st fails}.
Context (zend_error : hcmd unit) (Herr : report_ok heap zend_error).

(** A heap with segments of [total] bytes, the memory limit [lim] and the block size [bs]. *)
Definition mm_at (lim bs total : Z) (U : gmap Z Z) : hprop :=
  ∃ rv H cs, blocks_at heap total H ((map_to_list U ++ kept rv) ++ cpairs cs) ∗ rest_at heap lim bs cs ∗ reserved heap rv.

Lemma mm_at_some U : mm heap U ⊣⊢ ∃ lim bs total, mm_at lim bs total U.
Proof.
  rewrite mm_open. iSplit.
  - iIntros "(%rv & %H & %cs & HB & HR & Hrv)". rewrite blocks_total rest_of_at. iDestruct "HB" as (total) "HB". iDestruct "HR" as (lim bs) "HR".
    iExists lim, bs, total, rv, H, cs. iFrame.
  - iIntros "(%lim & %bs & %total & %rv & %H & %cs & HB & HR & Hrv)". iExists rv, H, cs. iFrame "Hrv". rewrite blocks_total rest_of_at.
    iSplitL "HB"; [by iExists total|by iExists lim, bs].
Qed.


(** C13: emalloc returns, on every heap in order.  It gives memory of at least the size asked for,
    aligned, apart from all that callers own, or it bails out, with the blocks of all callers
    still theirs, and only when the size does not fit a word, the memory limit would be passed
    or the storage has no more memory. *)
Theorem emalloc_correct lim bs total U F size m :
  0 <= size < 2 ^ 64 -> (mm_at lim bs total U ∗ F)%I m ->
  exists o m', _emalloc heap st zend_error size m = Some (o, m') /\
    match o with
    | Done p => exists a n, p = a + 16 /\ U !! a = None /\ size <= n - 16 /\ pointer_ok p /\
        (mm heap (<[a := n]> U) ∗ region p (n - 16) ∗ F)%I m'
    | Bailout => unserved (fails := fails) lim bs total size /\ (after_error heap U ∗ F)%I m'
    end.
Proof.
  intros Hs Hm. apply (hwp_adequate (mm_at lim bs total U ∗ F) (_emalloc heap st zend_error size) (fun o => match o with
    | Done p => ∃ a n, ⌜p = (a + 16)%Z /\ U !! a = None /\ size <= n - 16 /\ pointer_ok p⌝ ∗ mm heap (<[a := n]> U) ∗ region p (n - 16) ∗ F
    | Bailout => ⌜unserved (fails := fails) lim bs total size⌝ ∗ after_error heap U ∗ F
    end)%I) in Hm as (o & m' & Hrun & Ho).
  - exists o, m'. split; [done|]. destruct o as [p|].
    + destruct Ho as (a & n & [(E & Hnone & Hn & Hp) Ho]%pure_sep_at). exists a, n. done.
    + by apply pure_sep_at in Ho.
  - iIntros "[(%rv & %H & %cs & HB & HR & Hrv) HF]". iApply (hwp_alloc_at heap Hheap st zend_error Herr with "HB HR Hrv"); [done|]. iSplit.
    + iIntros (a n (Ha & Hn & Hp)) "HM Hrv Hr". iExists a, n. iFrame. iSplit; [done|]. iApply (mmo_perm with "HM"). by rewrite map_to_list_insert.
    + iIntros (Hwhy) "HM". by iFrame.
Qed.



(** C16: Emptying the cache ends on every heap in order, and takes no block from a caller. *)
Theorem zend_mm_free_cache_ends U F m :
  (mm heap U ∗ F)%I m -> exists m', zend_mm_free_cache heap st m = Some (tt, m') /\ (mm heap U ∗ F)%I m'.
Proof.
  intros Hm. apply (hwp_adequate _ (zend_mm_free_cache heap st) (fun _ => mm heap U ∗ F)%I) in Hm as ([] & m' & Hrun & Hm'); [by exists m'|].
  iIntros "[(%rv & HM & Hrv) HF]". iApply (hwp_free_cache heap Hheap st with "HM"). iIntros "HM". iFrame.
Qed.


End spec.

(** [safe_address] computes exactly, and what follows it gets the sum. *)
Lemma safe_address_exact {B} zend_error nmemb size offset (f : Z -> hcmd (outcome B)) m :
  0 <= nmemb < 2 ^ 64 -> 0 <= size < 2 ^ 64 -> 0 <= offset < 2 ^ 64 ->
  then_ (safe_address zend_error nmemb size offset) f m =
  if nmemb * size + offset <? 2 ^ 64 then f (nmemb * size + offset) m else (zend_error ;; mret Bailout) m.
Proof.
  intros Hn Hs Ho. assert (0 <= nmemb * size <= (2 ^ 64 - 1) * (2 ^ 64 - 1)) as Hp by nia.
  unfold then_, safe_address. set (p := nmemb * size) in *. pose proof (Z.div_mod p (2 ^ 64) ltac:(done)) as Ed.
  pose proof (Z.mod_pos_bound p (2 ^ 64) ltac:(done)) as Hm. fold (u64 p) in Ed, Hm. set (r := u64 p) in *. set (q := p / 2 ^ 64) in *.
  pose proof (Z.div_mod (r + offset) (2 ^ 64) ltac:(done)) as Ec. pose proof (Z.mod_pos_bound (r + offset) (2 ^ 64) ltac:(done)) as Hc.
  fold (u64 (r + offset)) in Ec, Hc. set (c := (r + offset) / 2 ^ 64) in *. assert (0 <= q + c < 2 ^ 64) as Hqc by nia.
  assert (u64 (q + c) = q + c) as -> by (by apply Z.mod_small).
  destruct (Z.ltb_spec (p + offset) (2 ^ 64)) as [Hlt|Hge].
  - assert (q = 0 /\ c = 0) as [-> ->] by nia. cbn [Z.add Z.eqb negb]. assert (u64 (r + offset) = p + offset) as -> by lia. done.
  - destruct (Z.eqb_spec (q + c) 0) as [E|_]; [nia|]. cbn [negb]. unfold mbind, cmd_bind. destruct (zend_error m) as [[[] m']|]; done.
Qed.

(** C18: The arithmetic of the safe_ functions is exact: the request is for nmemb * size + offset
    bytes, or, when that does not fit a word, and for a string when it does not fit an int, an
    error is reported and the call bails out. *)
Theorem safe_emalloc_exact heap st zend_error nmemb size offset ptr m :
  0 <= nmemb < 2 ^ 64 -> 0 <= size < 2 ^ 64 -> 0 <= offset < 2 ^ 64 ->
  let n := nmemb * size + offset in
  let report := zend_error ;; mret Bailout in
  _safe_emalloc heap st zend_error nmemb size offset m = (if n <? 2 ^ 64 then _emalloc heap st zend_error n else report) m /\
  _safe_erealloc heap st zend_error ptr nmemb size offset m = (if n <? 2 ^ 64 then _erealloc heap st zend_error ptr n else report) m /\
  _safe_emalloc_string heap st zend_error nmemb size offset m = (if n <=? INT_MAX then _emalloc heap st zend_error n else report) m.
Proof.
  intros Hn Hs Ho n report. unfold _safe_emalloc, _safe_erealloc, _safe_emalloc_string. rewrite !safe_address_exact //. fold n report.
  split; [by destruct (n <? 2 ^ 64)|]. split; [by destruct (n <? 2 ^ 64)|].
  destruct (Z.ltb_spec n (2 ^ 64)) as [Hlt|Hge]; rewrite Z.leb_antisym; [by destruct (INT_MAX <? n)|].
  assert ((INT_MAX <? n) = true) as -> by (apply Z.ltb_lt; unfold INT_MAX; lia). done.
Qed.

(** ** Runs on a concrete heap *)

Definition sample_memory : mem := cell_map (4096 + 32) (replicate 274 0).

Lemma sample_fields : has_fields 4096 sample_memory.
Proof.
  intros i Hi. exists 0. rewrite -(Z2Nat.id i); [|lia]. apply (words_lookup _ (replicate 274 0)); [apply cell_map_words|]. apply lookup_replicate_2. lia.
Qed.

Lemma report_quiet heap : report_ok heap (mret tt).
Proof. iIntros (U Q) "[HM HQ]". iApply hwp_ret. iApply "HQ". by iApply mm_after_error. Qed.

Lemma block_size_4096 : block_size_ok 4096.
Proof. exists 12. split; [lia|done]. Qed.

(** A run of a command that is seen to end well. *)
Lemma run_done {A} (P : hprop) (c : hcmd (outcome A)) (Q : A -> hprop) (R : hprop) (m : mem) (a : A) :
  (P ⊢ hwp c (fun o => match o with Done a => Q a | Bailout => R end)) -> P m -> fst <$> c m = Some (Done a) -> exists m', Q a m'.
Proof.
  intros Hc HP Hrun. destruct (hwp_adequate _ _ _ _ Hc HP) as (o & m' & E & Ho). rewrite E in Hrun. injection Hrun as ->. by exists m'.
Qed.

Definition sample_startup : hcmd (outcome unit) := zend_mm_startup_ex 4096 bump_storage (mret tt) 4096 512.

Lemma sample_heap : exists m, mm 4096 ∅ m.
Proof.
  apply (run_done (heap_fields 4096) sample_startup (fun _ => mm 4096 ∅) emp sample_memory tt).
  - unfold sample_startup. iIntros "HF". iApply (hwp_startup 4096 ltac:(lia) bump_storage (mret tt) (report_quiet _) with "HF"); [apply block_size_4096|lia|].
    iSplit; [by iIntros "$"|by iIntros "_"].
  - apply has_heap_fields, sample_fields.
  - by vm_compute.
Qed.

Definition sample_alloc : hcmd (outcome Z) := then_ sample_startup (fun _ => _emalloc 4096 bump_storage (mret tt) 100).

Lemma sample_block : exists U a n ws m, U !! a = Some n /\ n - 16 = 8 * Z.of_nat (length ws) /\ (mm 4096 U ∗ words (a + 16) ws)%I m.
Proof.
  destruct (run_done (heap_fields 4096) sample_alloc (fun p => ∃ a n ws, ⌜(n - 16 = 8 * Z.of_nat (length ws))%Z⌝ ∗ mm 4096 {[a := n]} ∗ words (a + 16) ws)%I emp sample_memory 6888) as (m & a & n & ws & [Hws Hm]%pure_sep_at).
  - unfold sample_alloc, sample_startup, then_. iIntros "HF". iApply hwp_bind.
    iApply (hwp_startup 4096 ltac:(lia) bump_storage (mret tt) (report_quiet _) with "HF"); [apply block_size_4096|lia|]. iSplit; [|iIntros "_"; by iApply hwp_ret].
    iIntros "HM". iApply (hwp_alloc 4096 ltac:(lia) bump_storage (mret tt) (report_quiet _) with "HM"); [lia|]. iSplit; [|by iIntros "_"].
    iIntros (a n _) "HM Hr". rewrite region_words. iDestruct "Hr" as "(%ws & %Hws & Hw)". iExists a, n, ws. by iFrame.
  - apply has_heap_fields, sample_fields.
  - by vm_compute.
  - exists {[a := n]}, a, n, ws, m. split_and!; [apply lookup_singleton_eq|done|done].
Qed.

Definition sample_requests : list request :=
  [Emalloc 100; Put 0 3 7; Emalloc 40; Erealloc 1 5000; Get 1 3; Efree 0; Erealloc 0 9000; Get 0 3; Emalloc 64; Efree 1; Emalloc 3000].


Lemma emalloc_witness : exists lim bs total m o m', (mm_at 4096 lim bs total ∅ ∗ emp)%I m /\
  _emalloc 4096 bump_storage (mret tt) 100 m = Some (o, m') /\
  match o with
  | Done p => exists a n, p = a + 16 /\ (∅ : gmap Z Z) !! a = None /\ 100 <= n - 16 /\ pointer_ok p /\
      (mm 4096 (<[a := n]> ∅) ∗ region p (n - 16) ∗ emp)%I m'
  | Bailout => unserved (fails := bump_fails) lim bs total 100 /\ (after_error 4096 ∅ ∗ emp)%I m'
  end.
Proof.
  destruct sample_heap as [m Hm]. assert (mm 4096 ∅ ⊢ ∃ lim bs total, mm_at 4096 lim bs total ∅ ∗ emp) as [He].
  { rewrite (mm_at_some 4096). iIntros "(%lim & %bs & %total & H)". iExists lim, bs, total. by iFrame. }
  destruct (He m Hm) as (lim & bs & total & Hat). exists lim, bs, total, m.
  destruct (emalloc_correct 4096 ltac:(lia) bump_storage bump_fails (mret tt) (report_quiet _) lim bs total ∅ emp%I 100 m ltac:(lia) Hat) as (o & m' & Hrun & Ho).
  exists o, m'. split; [exact Hat|]. split; [exact Hrun|exact Ho].
Defined.



Lemma zend_mm_free_cache_witness : exists U m m', zend_mm_free_cache 4096 bump_storage m = Some (tt, m') /\ (mm 4096 U ∗ emp)%I m'.
Proof.
  destruct sample_block as (U & a & n & ws & m & Ha & Hws & Hm). exists U, m.
  apply (zend_mm_free_cache_ends 4096 ltac:(lia) bump_storage bump_fails U emp%I m).
  assert (mm 4096 U ∗ words (a + 16) ws ⊢ mm 4096 U ∗ emp) as [He]; [|exact (He m Hm)]. iIntros "[$ _]".
Defined.

Lemma safe_emalloc_witness :
  _safe_emalloc 4096 bump_storage (mret tt) (2 ^ 32) (2 ^ 32) 8 sample_memory = ((mret tt : hcmd unit) ;; mret (Bailout (A := Z))) sample_memory /\
  _safe_emalloc 4096 bump_storage (mret tt) 10 12 8 sample_memory = _emalloc 4096 bump_storage (mret tt) 128 sample_memory.
Proof.
  split.
  - apply (safe_emalloc_exact 4096 bump_storage (mret tt) (2 ^ 32) (2 ^ 32) 8 0 sample_memory); lia.
  - apply (safe_emalloc_exact 4096 bump_storage (mret tt) 10 12 8 0 sample_memory); lia.
Defined.

Lemma free_quiet heap : free_ok heap (fun _ => mret tt).
Proof. iIntros (Q) "[_ HQ]". by iApply hwp_ret. Qed.


(** The second request leaves its blocks behind, and the third fails. *)
Definition sample_scripts : list (list request) :=
  [sample_requests; [Emalloc 500; Emalloc 5000; Put 0 2 9; Get 0 2]; [Emalloc 8; Emalloc (2 ^ 64 - 1); Get 0 0]; [Emalloc 16; Put 0 1 5; Get 0 1]].

